(* ===== verification/_CoqProject ===== *)
-Q . S2P
Prelude.v
Subset.v
AssetIdentifier.v
Types.v
ClaimTypes.v
SettlementTypes.v
Schedules.v
StoTypes.v
CorporateTypes.v
PipsTypes.v
State.v
ChainState.v
Identity.v
Metering.v
Claims.v
Keys.v
KeysInv.v
Agents.v
Portfolio.v
Checkpoint.v
Asset.v
Nft.v
Metadata.v
Ledger.v
Sorting.v
Compliance.v
ComplianceInv.v
Statistics.v
StatisticsInv.v
Restrictions.v
TransferReport.v
Committee.v
Group.v
Providers.v
Utility.v
UtilityInv.v
GovernanceInv.v
RuntimeCalls.v
GovernanceFuel.v
Locks.v
PipsQueue.v
Pips.v
Settlement.v
Fundraising.v
Corporate.v
SettlementInv.v
PipsInv.v
PipsSteps.v
PipsCalls.v
SettlementAdd.v
Execution.v
System.v
Clock.v
BallotInv.v
CorporateInv.v
FundraisingInv.v
CorporateSteps.v
Chain.v
Sample.v
RuleSample.v
ChainProperties.v
SettlementProperties.v
LedgerProperties.v
RuleProperties.v
GovernanceProperties.v
FundraisingProperties.v
CorporateProperties.v
PipsProperties.v
