(* ===== verification/Prelude.v ===== *)
(** * Polymesh: a model of the runtime's pallets and the theorems about them

    Polymesh is a chain for regulated assets.  This library models the pallets
    of its runtime that hold and move assets, the rules a transfer has to
    satisfy, the identities those rules speak of, and the committees that govern
    the chain, as functions on the state of the chain, and proves what they
    keep and what they do.

    ** The program

    Identities (src/pallets/identity) own keys and receive claims from issuers.
    Assets (src/pallets/asset) are registered under a ticker; their units lie in
    the portfolios of identities (src/pallets/portfolio), whose balances are
    remembered at checkpoints (src/pallets/asset/src/checkpoint).  NFTs
    (src/pallets/nft) lie in portfolios too.  Agents (src/pallets/external-agents)
    administer an asset.  A transfer asks the compliance manager
    (src/pallets/compliance-manager), which looks at claims, and the transfer
    restrictions (src/pallets/statistics), which look at numbers kept up to date
    by every change of a balance.  The settlement pallet (src/pallets/settlement)
    executes instructions: legs that move assets between portfolios once
    everyone has affirmed.  Fundraisers (src/pallets/sto) sell units of an asset
    through instructions that settle at once.  Corporate actions
    (src/pallets/corporate-actions) announce something to the holders of an asset
    at a record date, which is a checkpoint or a point of a schedule: a capital
    distribution pays them out of a portfolio where the amount is locked, and a
    ballot lets them vote.  Groups (src/pallets/group) are the members of
    committees and the providers of customer due diligence; committees
    (src/pallets/committee) vote on calls and dispatch them, and the utility pallet
    (src/pallets/utility) dispatches batches of calls.  Improvement
    proposals (src/pallets/pips) are made by accounts or committees; accounts
    signal for or against them with deposits, which are locks on POLYX
    (src/pallets/balances) and order the queue the governance committee works off
    in snapshots; what it approves is executed as root.

    ** How it is modelled

    A function that reads and writes storage is a function from the state to its
    result and the state it leaves ([SE], with the notations of stdpp's monads);
    a check only reads.  A base function keeps what it wrote when it fails, as
    in Rust; a dispatchable is rolled back ([with_storage_transaction]).
    Integers are of type [N] with the checked, saturating or wrapping operation
    the code uses written out.  Storage maps are [gmap]s (a double map is a map
    of pairs), vectors are lists, and the loops of the code are structural
    recursion or [for_each].  A [usize] has 32 bits, as in the WebAssembly the
    runtime is compiled to.  A panic is an error of its own, [EPanic].

    The files, in the order of dependency:

    - [Prelude]: record updates, machine integers, results, the state monad, maps
      with defaults and sums over them, tactics.
    - [Subset] (src/primitives/src/subset.rs), [AssetIdentifier]
      (asset_identifier.rs), [Types], [ClaimTypes], [SettlementTypes],
      [Schedules], [StoTypes], [CorporateTypes], [PipsTypes]: the data types of
      src/primitives and of the pallets.
    - [State]: the storage of the pallets, their errors and events, the state of
      the chain [World], and the interface classes [Externals], [Fees] and
      [Runtime]; [ChainState]: the storage of the fundraisers and the corporate
      actions beside it, the record [Chain].
    - [Identity] (identity/src/auth.rs, permission checks, base), [Claims]
      (claims.rs), [Keys] (keys.rs and the calls of lib.rs), [KeysInv] (what they
      keep); [Metering] (src/primitives/src/weight_meter.rs).
    - [Agents], [Portfolio], [Checkpoint], [Asset], [Nft]: one pallet each, with
      its invariant; [Metadata]: the documents and metadata of the asset pallet;
      [Ledger]: the invariant of the books together.
    - [Sorting]: sorted vectors and binary search; [Compliance] and
      [ComplianceInv], [Statistics] and [StatisticsInv]: the rules of transfers
      and what their checks decide; [Restrictions]: the interface [Externals] of
      the books implemented by these pallets; [TransferReport]: the report of
      whether a transfer would go through.
    - [Committee], [Group]: governance; [Providers]: the group of CDD providers
      keeps what the identity pallet relies on (the interface [CddGroup]);
      [Utility] (src/pallets/utility/src/lib.rs) and [UtilityInv]: batches, and how
      what is known of calls carries over to a batch of them; [GovernanceInv]:
      what groups and committees keep while proposals change the committees that
      vote on them; [RuntimeCalls]: the calls a proposal may be, batches of them
      included, tied to how they are dispatched; [GovernanceFuel]: that proposals
      which set off each other come to an end.
    - [Locks] (the locks of src/pallets/balances/src/lib.rs), [PipsQueue] (the order
      of proposals and the search by it), [Pips] (src/pallets/pips/src/lib.rs: its
      storage beside [World] in the record [Gov], and every call); [PipsInv]: the
      invariant of the proposals; [PipsSteps], [PipsCalls]: what their calls do, and
      that they keep it however deep they dispatch each other.
    - [Settlement], [SettlementInv], [SettlementAdd], [Execution]: instructions,
      affirmations, receipts, execution and their invariants; [System]: the calls
      of the pallets of the books and settlement as one step relation.
    - [Fundraising] (src/pallets/sto); [Corporate] (src/pallets/corporate-actions:
      lib.rs, distribution/mod.rs and ballot/mod.rs, a module each).
    - [Clock]: no call changes the time or forgets a schedule that is referred to;
      [BallotInv]: the tally of a ballot; [CorporateInv]: the invariant of the
      corporate actions; [FundraisingInv]: that of the fundraisers, and the
      invariant of the chain, which ties what is offered and what is to be
      distributed to the locks; [CorporateSteps]: the calls of the corporate
      actions keep it; [Chain]: the steps of all of this and the reachable states.
    - [Sample], [RuleSample]: concrete chains for the witnesses;
      [ChainProperties], [SettlementProperties], [LedgerProperties],
      [RuleProperties], [GovernanceProperties], [FundraisingProperties],
      [CorporateProperties], [PipsProperties]: the theorems.

    ** What is proved

    - [ChainProperties]: over every reachable state, the books balance (supply,
      balances, portfolios, locks), every NFT has one owner, locks cover what was
      affirmed, what is offered and what is to be distributed, history at checkpoints does not change,
      receipts are used once, supply changes only by issuing and redeeming,
      metadata keys and names correspond and locked values stay.
    - [SettlementProperties]: an execution settles every leg and nothing else,
      needs everyone's consent, is atomic; a scheduled one settles or is recorded
      as failed; affirming, withdrawing, rejecting and
      adding do what they should.
    - [LedgerProperties]: the effect of issuing, moving funds, deleting
      portfolios, accepting authorizations, registering tickers.
    - [RuleProperties]: identities and keys stay consistent, claims are filed and
      found, the compliance check and the transfer restrictions decide what the
      rules say, the statistics that agree with the balances keep agreeing when
      balances change, no transfer goes around the rules, and the report of a
      transfer agrees with it.
    - [FundraisingProperties]: tiers are sold in order at their prices, an
      investment moves what it says, stopping is final.
    - [CorporateProperties]: a benefit is the holding at the record date times the
      rate less the tax, nobody is paid twice, what is not claimed can be
      reclaimed, the results of a ballot are the sums of the votes, nobody votes
      with more than the holding at the record date, and the schedule behind a
      record date cannot be removed.
    - [GovernanceProperties]: only members have votes, what a vote decides, that
      nested proposals end, the exactness of the threshold, and that the group of
      CDD providers is a set.
    - [PipsProperties]: over every reachable state, the live queue is the sorted
      list of the pending proposals, the counters are the sums of the votes, what
      is locked is what was signalled with on active proposals, and states only
      move forward; what rejecting, the results of a snapshot, a signal and an
      execution do, and that the refunds in them do not panic.
    - [Agents] and [AssetIdentifier] end with theorems of their own.

    Each file of theorems closes with examples of behaviour that differs from
    what the code or its documentation intends.

    ** Parameters, bounds and fuel

    Code outside of the repository is a parameter, a class whose instances the
    witnesses give: weights and the frame meter ([SettlementConfig],
    [ComplianceConfig], [StatisticsConfig], [FrameMeter]), signatures, hashes,
    the scheduler, POLYX balances and multi-signature accounts
    ([IdentityConfig]), protocol fees ([Fees]), the constants of the runtime
    ([Runtime]), the multiplication of [Permill] and the limits of the corporate
    actions ([CorporateConfig]), the calls a committee dispatches ([Governance]), the
    names and signatures of calls and the limit of a batch ([RuntimeCall],
    [CallConfig], [UtilityConfig]), the
    encoding of proposed calls, the scheduler, the free balances and the calls of
    other pallets ([PipsConfig]).  The books are
    proved against the interface [Externals], whatever implements it.  The
    hypotheses on parameters are that a hash of a block and a nonce has no
    collisions in a block, that the calls of pallets other than groups,
    committees, identity and utility do not write the storage of groups and
    committees (what a multisig, sudo, the scheduler or a contract dispatches is a
    call of its own), and sizes: fewer than 2^64 balances and
    portfolios per identity, vectors of fewer than 2^32 entries.  The surroundings
    of the calls (blocks, the identity pallet, the scheduler, other locks) may change their own
    parts of the state in any way, but the clock does not run backwards.

    Binary searches run with the length of the vector as fuel, which is enough
    since the window shrinks in every step.  Proposals that dispatch other
    proposals run with a depth; [GovernanceFuel] shows that a depth above the
    number of recorded calls (and those a batch may record) makes no difference.  An improvement proposal that
    dispatches a call of its own pallet runs with a depth too, the room on the
    stack, and panics without it: a proposal that executes itself panics with any
    depth, and what is proved of the calls holds for every depth.  The other
    calls an improvement proposal may be act on the other pallets only: a call of
    the utility pallet that dispatches calls of the pallet of improvement
    proposals itself is outside of the model of [Pips].

    ** Not modelled

    Multisig dispatches opaque calls, and what it, the treasury, the relayer, the
    bridge and the protocol fees keep are amounts of POLYX, of whose pallet only
    the locks are modelled: fees and free balances are parameters here; the rest of
    balances, transaction payment, staking, contracts and sudo are
    adaptations of Substrate pallets or dispatch opaque calls; weights are
    generated; the node, its RPC and tools are input and output; migrations ran
    once.  Events are recorded where they are emitted.  Logging is not
    modelled. *)

From stdpp Require Import base numbers list gmap fin_maps fin_map_dom sets.

(* ------------------------------------------------------------------ *)
(** * Record update *)

(** [Eta R] is the constructor of the record type [R] applied to its own
    projections; from it [solve_setter] derives the functional update of any
    one field, so a storage record needs one line and not one setter per
    field. *)
Class Eta (R : Type) := eta : R → R.

Class Setter {R T : Type} (proj : R → T) := setter : (T → T) → R → R.

Ltac solve_setter :=
  match goal with
  | |- @Setter ?R _ ?p =>
      let f := fresh "f" in
      let r := fresh "r" in
      let e := constr:(ltac:(let i := constr:(_ : Eta R) in exact i)) in
      refine (fun f r => ltac:(
        let body := eval red in (e r) in
        let body := eval cbv beta in body in
        match eval pattern (p r) in body with
        | ?F _ => let t := eval cbv beta in (F (f (p r))) in exact t
        end))
  end.

#[global] Hint Extern 1 (Setter _) => solve_setter : typeclass_instances.

Definition upd {R T : Type} (p : R → T) `{!Setter p} (f : T → T) (r : R) : R :=
  setter f r.

Declare Scope record_scope.
Delimit Scope record_scope with record.
Notation "r <| p ::= f |>" := (upd p f r)
  (at level 1, left associativity, p at level 200, f at level 200,
   format "r  <| p  ::=  f |>") : record_scope.
Notation "r <| p := v |>" := (upd p (fun _ => v) r)
  (at level 1, left associativity, p at level 200, v at level 200,
   format "r  <| p  :=  v |>") : record_scope.
#[global] Open Scope record_scope.

(* ------------------------------------------------------------------ *)
(** * Machine integers

    A [u32], [u64] or [u128] of the runtime is an [N]; the operations below
    write out what the Rust operation does at the width's bound. *)

Local Open Scope N_scope.

Definition u32_max : N := 2 ^ 32 - 1.
Definition u64_max : N := 2 ^ 64 - 1.
Definition u128_max : N := 2 ^ 128 - 1.

Definition saturating_add (max a b : N) : N := N.min (a + b) max.
Definition checked_add (max a b : N) : option N :=
  if decide (a + b ≤ max) then Some (a + b) else None.
Definition checked_mul (max a b : N) : option N :=
  if bool_decide (a * b ≤ max) then Some (a * b) else None.
Definition saturating_mul (max a b : N) : N := N.min (a * b) max.
Definition checked_sub (a b : N) : option N :=
  if decide (b ≤ a) then Some (a - b) else None.
(** [N.sub] truncates at zero, which is [saturating_sub] at every width. *)
Definition saturating_sub (a b : N) : N := a - b.
(** The plain [+], [-] and [+=] of a release build wrap around. *)
Definition wrapping_add (max a b : N) : N := (a + b) mod (max + 1).
Definition wrapping_sub (max a b : N) : N := (a + (max + 1) - b) mod (max + 1).

Lemma checked_add_Some max a b c :
  checked_add max a b = Some c ↔ c = a + b ∧ a + b ≤ max.
Proof. unfold checked_add. case_decide; naive_solver. Qed.

Lemma checked_mul_Some max a b c :
  checked_mul max a b = Some c ↔ c = a * b ∧ a * b ≤ max.
Proof. unfold checked_mul. case_bool_decide; naive_solver. Qed.

Lemma checked_sub_Some a b c : checked_sub a b = Some c ↔ c = a - b ∧ b ≤ a.
Proof. unfold checked_sub. case_decide; naive_solver. Qed.

Lemma checked_sub_None a b : checked_sub a b = None ↔ a < b.
Proof. unfold checked_sub. case_decide; split; try done; lia. Qed.

Lemma saturating_add_small max a b : a + b ≤ max → saturating_add max a b = a + b.
Proof. unfold saturating_add. lia. Qed.

Lemma saturating_add_bound max a b : saturating_add max a b ≤ max.
Proof. unfold saturating_add. lia. Qed.

Lemma wrapping_add_small max a b : a + b ≤ max → wrapping_add max a b = a + b.
Proof. intros ?. unfold wrapping_add. apply N.mod_small. lia. Qed.

Lemma wrapping_sub_small max a b : b ≤ a → a ≤ max → wrapping_sub max a b = a - b.
Proof.
  intros ??. unfold wrapping_sub.
  replace (a + (max + 1) - b) with ((a - b) + 1 * (max + 1)) by lia.
  rewrite N.Div0.mod_add. apply N.mod_small. lia.
Qed.

(* ------------------------------------------------------------------ *)
(** * Results *)

(** [Result<A, E>] of the source. *)
Inductive result (E A : Type) : Type :=
  | Ok (a : A)
  | Err (e : E).
Arguments Ok {E A} a.
Arguments Err {E A} e.

#[global] Instance result_ret E : MRet (result E) := λ A a, Ok a.
#[global] Instance result_bind E : MBind (result E) := λ A B f r,
  match r with Ok a => f a | Err e => Err e end.
#[global] Instance result_fmap E : FMap (result E) := λ A B f r,
  match r with Ok a => Ok (f a) | Err e => Err e end.

(** [ensure!(b, e)]. *)
Definition ensure {E : Type} (b : bool) (e : E) : result E unit :=
  if b then Ok tt else Err e.

(** [Option::ok_or]. *)
Definition ok_or {E A : Type} (o : option A) (e : E) : result E A :=
  match o with Some a => Ok a | None => Err e end.

Definition is_ok {E A : Type} (r : result E A) : bool :=
  match r with Ok _ => true | Err _ => false end.
Definition is_err {E A : Type} (r : result E A) : bool :=
  match r with Ok _ => false | Err _ => true end.

(** [for x in l { f(x)?; }] for a body that only reads. *)
Fixpoint for_check {E X : Type} (l : list X) (f : X → result E unit) : result E unit :=
  match l with
  | [] => Ok tt
  | x :: l => f x ;; for_check l f
  end.

(** The same with an accumulator the body updates. *)
Fixpoint fold_check {E X B : Type} (f : B → X → result E B) (b : B) (l : list X)
    : result E B :=
  match l with
  | [] => Ok b
  | x :: l => b' ← f b x ; fold_check f b' l
  end.

Section results.
Context {E : Type}.

Lemma bind_Ok {A B} (r : result E A) (f : A → result E B) b :
  r ≫= f = Ok b ↔ ∃ a, r = Ok a ∧ f a = Ok b.
Proof. destruct r; naive_solver. Qed.

Lemma ensure_Ok (b : bool) (e : E) u : ensure b e = Ok u ↔ b = true.
Proof. destruct b, u; naive_solver. Qed.

Lemma ensure_Err (b : bool) (e e' : E) : ensure b e = Err e' ↔ b = false ∧ e' = e.
Proof. destruct b; naive_solver. Qed.

Lemma ok_or_Ok {A} (o : option A) (e : E) a : ok_or o e = Ok a ↔ o = Some a.
Proof. destruct o; naive_solver. Qed.

Lemma is_ok_true {A} (r : result E A) : is_ok r = true ↔ ∃ a, r = Ok a.
Proof. destruct r; naive_solver. Qed.

Lemma is_err_false {A} (r : result E A) : is_err r = false ↔ ∃ a, r = Ok a.
Proof. destruct r; naive_solver. Qed.

Lemma for_check_Ok {X} (l : list X) (f : X → result E unit) u :
  for_check l f = Ok u ↔ ∀ x, x ∈ l → f x = Ok tt.
Proof.
  destruct u. induction l as [|x l IH]; simpl.
  - split; [intros _ x Hx; by apply elem_of_nil in Hx | done].
  - rewrite bind_Ok. split.
    + intros ([] & Hx & Hl) y [->|Hy]%elem_of_cons; [done|].
      by apply IH.
    + intros Hall. exists tt. split; [apply Hall; by left|].
      apply IH. intros y Hy. apply Hall. by right.
Qed.

(** An invariant of the accumulator: it holds of the fold's result. *)
Lemma fold_check_ind {X B} (f : B → X → result E B) (P : B → Prop) b l b' :
  P b →
  (∀ x b1 b2, x ∈ l → P b1 → f b1 x = Ok b2 → P b2) →
  fold_check f b l = Ok b' → P b'.
Proof.
  revert b. induction l as [|x l IH]; intros b Hb Hstep; simpl.
  - intros [= <-]. done.
  - rewrite bind_Ok. intros (b1 & H1 & H2).
    eapply IH; [| |exact H2].
    + apply (Hstep x b b1); [by left|exact Hb|exact H1].
    + intros y b2 b3 Hy. apply Hstep. by right.
Qed.
End results.

(* ------------------------------------------------------------------ *)
(** * Storage-passing computations

    A function of the runtime that reads and writes storage and may fail is a
    function from the state to its result and the state it leaves.  A failing
    function leaves what it had written: only [with_transaction] rolls back. *)

Definition SE (S E A : Type) : Type := S → result E A * S.

#[global] Instance SE_ret S E : MRet (SE S E) := λ A a s, (Ok a, s).
#[global] Instance SE_bind S E : MBind (SE S E) := λ A B f m s,
  match m s with
  | (Ok a, s') => f a s'
  | (Err e, s') => (Err e, s')
  end.

Section storage.
Context {S E : Type}.

(** A check that only reads the state. *)
Definition check {A} (f : S → result E A) : SE S E A := λ s, (f s, s).
Definition gets {A} (f : S → A) : SE S E A := λ s, (Ok (f s), s).
Definition modify (f : S → S) : SE S E unit := λ s, (Ok tt, f s).
Definition throw {A} (e : E) : SE S E A := λ s, (Err e, s).

(** [with_transaction(|| m)]: commits on [Ok], rolls back on [Err]. *)
Definition with_transaction {A} (m : SE S E A) : SE S E A := λ s,
  match m s with
  | (Ok a, s') => (Ok a, s')
  | (Err e, _) => (Err e, s)
  end.

(** [let _ = m;] and [m.is_err()]: the error is turned into a value. *)
Definition catch {A} (m : SE S E A) : SE S E (result E A) := λ s,
  let '(r, s') := m s in (Ok r, s').

(** [for x in l { f(x)?; }]. *)
Fixpoint for_each {X} (l : list X) (f : X → SE S E unit) : SE S E unit :=
  match l with
  | [] => mret tt
  | x :: l => f x ;; for_each l f
  end.

Lemma SE_bind_Ok {A B} (m : SE S E A) (f : A → SE S E B) s b s' :
  (m ≫= f) s = (Ok b, s') ↔ ∃ a s1, m s = (Ok a, s1) ∧ f a s1 = (Ok b, s').
Proof.
  unfold mbind, SE_bind. destruct (m s) as [[a|e] s1]; split.
  - intros ?. by exists a, s1.
  - intros (a' & s2 & [= <- <-] & ?). done.
  - done.
  - intros (a' & s2 & ? & ?). done.
Qed.

Lemma SE_bind_Err {A B} (m : SE S E A) (f : A → SE S E B) s e s' :
  (m ≫= f) s = (Err e, s') ↔
    m s = (Err e, s') ∨ ∃ a s1, m s = (Ok a, s1) ∧ f a s1 = (Err e, s').
Proof.
  unfold mbind, SE_bind. destruct (m s) as [[a|e'] s1]; split.
  - intros ?. right. by exists a, s1.
  - intros [?|(a' & s2 & [= <- <-] & ?)]; done.
  - intros [= <- <-]. by left.
  - intros [[= <- <-]|(a' & s2 & ? & ?)]; done.
Qed.

Lemma check_Ok {A} (f : S → result E A) s a s' :
  check f s = (Ok a, s') ↔ f s = Ok a ∧ s' = s.
Proof. unfold check. split; [by intros [= <- <-]|by intros [-> ->]]. Qed.

Lemma check_Err {A} (f : S → result E A) s e s' : check f s = (Err e, s') ↔ f s = Err e ∧ s' = s.
Proof. unfold check. destruct (f s); naive_solver. Qed.

Lemma gets_Ok {A} (f : S → A) s a s' : gets f s = (Ok a, s') ↔ a = f s ∧ s' = s.
Proof. unfold gets. naive_solver. Qed.

Lemma modify_Ok (f : S → S) s u s' : modify f s = (Ok u, s') ↔ s' = f s.
Proof. unfold modify. destruct u. naive_solver. Qed.

Lemma ret_Ok {A} (a b : A) (s s' : S) :
  mret (M := SE S E) a s = (Ok b, s') ↔ b = a ∧ s' = s.
Proof. unfold mret, SE_ret. naive_solver. Qed.

Lemma throw_Ok {A} (e : E) (a : A) (s s' : S) : throw e s = (Ok a, s') ↔ False.
Proof. unfold throw. naive_solver. Qed.

Lemma with_transaction_Ok {A} (m : SE S E A) s a s' :
  with_transaction m s = (Ok a, s') ↔ m s = (Ok a, s').
Proof. unfold with_transaction. destruct (m s) as [[]]; naive_solver. Qed.

Lemma with_transaction_Err {A} (m : SE S E A) s e s' :
  with_transaction m s = (Err e, s') → s' = s.
Proof. unfold with_transaction. destruct (m s) as [[]]; naive_solver. Qed.

Lemma catch_Ok {A} (m : SE S E A) s r s' :
  catch m s = (Ok r, s') ↔ m s = (r, s').
Proof. unfold catch. destruct (m s) as [? ?]; naive_solver. Qed.

(** Running a closed computation. *)
Lemma run_Ok {A} (m : SE S E A) s a : (m s).1 = Ok a → m s = (Ok a, (m s).2).
Proof. destruct (m s). simpl. by intros ->. Qed.
Lemma run_Err {A} (m : SE S E A) s e : (m s).1 = Err e → m s = (Err e, (m s).2).
Proof. destruct (m s). simpl. by intros ->. Qed.

(** The loop rule: an invariant every iteration preserves holds at the end. *)
Lemma for_each_ind {X} (l : list X) (f : X → SE S E unit) (P : S → Prop) s u s' :
  P s →
  (∀ x s1 s2, x ∈ l → P s1 → f x s1 = (Ok tt, s2) → P s2) →
  for_each l f s = (Ok u, s') → P s'.
Proof.
  revert s. induction l as [|x l IH]; intros s Hs Hstep; simpl.
  - by intros [-> ->]%ret_Ok.
  - intros ([] & s1 & H1 & H2)%SE_bind_Ok.
    eapply (IH s1); [|intros y s2 s3 Hy; apply Hstep; by right|exact H2].
    apply (Hstep x s s1); [by left|exact Hs|exact H1].
Qed.

(** The same when every iteration only moves up in a preorder [R]: an
    iteration may use that its state is below the final one. *)
Lemma for_each_ind_mono {X} (R : S → S → Prop) `{!PreOrder R} (l : list X)
    (f : X → SE S E unit) (P : S → Prop) s u s' :
  (∀ x s1 s2, x ∈ l → f x s1 = (Ok tt, s2) → R s1 s2) →
  P s →
  (∀ x s1 s2, x ∈ l → P s1 → f x s1 = (Ok tt, s2) → R s2 s' → P s2) →
  for_each l f s = (Ok u, s') → P s' ∧ R s s'.
Proof.
  revert s. induction l as [|x l IH]; intros s Hmono Hs Hstep; simpl.
  - by intros [-> ->]%ret_Ok.
  - intros ([] & s1 & H1 & H2)%SE_bind_Ok.
    assert (R s1 s') as HR.
    { apply (for_each_ind l f (R s1) s1 u s'); [done| |exact H2].
      intros y s2 s3 Hy Hr Hf. etrans; [exact Hr|]. apply (Hmono y); [by right|done]. }
    split; [|etrans; [apply (Hmono x s s1); [by left|exact H1]|exact HR]].
    apply (IH s1).
    + intros y s2 s3 Hy. apply Hmono. by right.
    + apply (Hstep x s s1); [by left|done..].
    + intros y s2 s3 Hy. apply Hstep. by right.
    + exact H2.
Qed.

Lemma for_each_app {X} (l1 l2 : list X) (f : X → SE S E unit) s u s' :
  for_each (l1 ++ l2) f s = (Ok u, s') ↔
    ∃ s1, for_each l1 f s = (Ok tt, s1) ∧ for_each l2 f s1 = (Ok u, s').
Proof.
  revert s. induction l1 as [|x l1 IH]; intros s; simpl.
  - split; [intros H; by exists s|by intros (s1 & [_ ->]%ret_Ok & H)].
  - split.
    + intros ([] & s1 & H1 & (s2 & H2 & H3)%IH)%SE_bind_Ok.
      exists s2. split; [|done]. apply SE_bind_Ok. by exists tt, s1.
    + intros (s2 & ([] & s1 & H1 & H2)%SE_bind_Ok & H3).
      apply SE_bind_Ok. exists tt, s1. split; [done|]. apply IH. by exists s2.
Qed.

Lemma for_each_Err {X} (l : list X) (f : X → SE S E unit) s e s' :
  for_each l f s = (Err e, s') →
  ∃ x l1 l2 s1, l = l1 ++ x :: l2 ∧ for_each l1 f s = (Ok tt, s1) ∧ f x s1 = (Err e, s').
Proof.
  revert s. induction l as [|x l IH]; intros s; simpl; [done|].
  intros [H|([] & s1 & H1 & (y & l1 & l2 & s2 & -> & H2 & H3)%IH)]%SE_bind_Err.
  - by exists x, [], l, s.
  - exists y, (x :: l1), l2, s2. split; [done|]. split; [|done].
    apply SE_bind_Ok. by exists tt, s1.
Qed.
End storage.

(* ------------------------------------------------------------------ *)
(** * Storage maps

    A storage map is a [gmap]; a double map is a [gmap] over pairs of keys.
    [getd d m k] is the getter of a map declared with a default value. *)

Definition getd {K V : Type} `{Countable K} (d : V) (m : gmap K V) (k : K) : V :=
  default d (m !! k).

(** [contains_key]. *)
Definition has_key {K V : Type} `{Countable K} (m : gmap K V) (k : K) : bool :=
  bool_decide (is_Some (m !! k)).

(** [iter_prefix(k1)] of a double map, in an order the caller must not rely on. *)
Definition iter_prefix {K1 K2 V : Type} `{Countable K1, Countable K2}
    (m : gmap (K1 * K2) V) (k1 : K1) : list (K2 * V) :=
  omap (λ kv, if decide (kv.1.1 = k1) then Some (kv.1.2, kv.2) else None)
    (map_to_list m).

(** [remove_prefix(k1)]. *)
Definition remove_prefix {K1 K2 V : Type} `{Countable K1, Countable K2}
    (k1 : K1) (m : gmap (K1 * K2) V) : gmap (K1 * K2) V :=
  filter (λ kv, kv.1.1 ≠ k1) m.

(** The sum of [f k v] over the entries of a map. *)
Definition msum {K V : Type} `{Countable K} (f : K → V → N) (m : gmap K V) : N :=
  map_fold (λ k v acc, f k v + acc) 0 m.

Section maps.
Context {K V : Type} `{Countable K}.
Implicit Types (m : gmap K V) (k : K) (v d : V) (f g : K → V → N).

Lemma getd_insert_eq d m k v : getd d (<[k:=v]> m) k = v.
Proof. unfold getd. by rewrite lookup_insert_eq. Qed.
Lemma getd_insert_ne d m k k' v : k ≠ k' → getd d (<[k:=v]> m) k' = getd d m k'.
Proof. intros. unfold getd. by rewrite lookup_insert_ne. Qed.
Lemma getd_insert d m k k' v :
  getd d (<[k:=v]> m) k' = if decide (k = k') then v else getd d m k'.
Proof. unfold getd. rewrite lookup_insert. by case_decide. Qed.
Lemma getd_delete d m k k' :
  getd d (delete k m) k' = if decide (k = k') then d else getd d m k'.
Proof. unfold getd. rewrite lookup_delete. by case_decide. Qed.
Lemma getd_empty d k : getd d (∅ : gmap K V) k = d.
Proof. unfold getd. by rewrite lookup_empty. Qed.

Lemma has_key_true m k : has_key m k = true ↔ is_Some (m !! k).
Proof. unfold has_key. by rewrite bool_decide_eq_true. Qed.
Lemma has_key_false m k : has_key m k = false ↔ m !! k = None.
Proof. unfold has_key. rewrite bool_decide_eq_false. by rewrite <- eq_None_not_Some. Qed.

Lemma msum_empty f : msum f (∅ : gmap K V) = 0.
Proof. done. Qed.

Lemma msum_insert_fresh f m k v :
  m !! k = None → msum f (<[k:=v]> m) = f k v + msum f m.
Proof. intros Hk. unfold msum.
  apply (map_fold_insert_L (λ k v acc, f k v + acc)); [intros; lia|done]. Qed.

Lemma msum_lookup f m k v :
  m !! k = Some v → msum f m = f k v + msum f (delete k m).
Proof.
  intros Hk. rewrite <- msum_insert_fresh by apply lookup_delete_eq.
  by rewrite insert_delete_eq, insert_id.
Qed.

(** Writing one entry moves the sum by the difference of that entry; the
    default value counts as zero. *)
Lemma msum_insert d f m k v :
  f k d = 0 → msum f (<[k:=v]> m) + f k (getd d m k) = msum f m + f k v.
Proof.
  intros Hd. unfold getd. destruct (m !! k) as [v'|] eqn:Hk; simpl.
  - rewrite <- insert_delete_eq, msum_insert_fresh by apply lookup_delete_eq.
    rewrite (msum_lookup f m k v') by done. lia.
  - rewrite msum_insert_fresh by done. lia.
Qed.

Lemma msum_delete d f m k :
  f k d = 0 → msum f (delete k m) + f k (getd d m k) = msum f m.
Proof.
  intros Hd. unfold getd. destruct (m !! k) as [v'|] eqn:Hk; simpl.
  - rewrite (msum_lookup f m k v') by done. lia.
  - rewrite delete_id by done. lia.
Qed.

Lemma msum_ind_map (P : N → gmap K V → Prop) f m :
  P 0 ∅ →
  (∀ k v m s, m !! k = None → P s m → P (f k v + s) (<[k:=v]> m)) →
  P (msum f m) m.
Proof.
  intros H0 Hs. induction m as [|k v m Hk IH] using map_ind; [done|].
  rewrite msum_insert_fresh by done. by apply Hs.
Qed.

Lemma msum_mono f g m :
  (∀ k v, m !! k = Some v → f k v ≤ g k v) → msum f m ≤ msum g m.
Proof.
  induction m as [|k v m Hk IH] using map_ind; intros Hfg; [done|].
  rewrite !msum_insert_fresh by done.
  specialize (Hfg k v) as Hkv. rewrite lookup_insert_eq in Hkv.
  assert (msum f m ≤ msum g m); [|specialize (Hkv eq_refl); lia].
  apply IH. intros k' v' Hk'. apply Hfg. rewrite lookup_insert_ne by congruence. done.
Qed.

Lemma msum_ext f g m :
  (∀ k v, m !! k = Some v → f k v = g k v) → msum f m = msum g m.
Proof.
  intros Hfg. apply N.le_antisymm; apply msum_mono; intros k v Hk;
    rewrite (Hfg k v Hk); lia.
Qed.

Lemma msum_zero f m : (∀ k v, m !! k = Some v → f k v = 0) → msum f m = 0.
Proof.
  intros Hf. rewrite (msum_ext f (λ _ _, 0)) by done.
  apply (msum_ind_map (λ s _, s = 0)); naive_solver.
Qed.

Lemma msum_plus f g m : msum (λ k v, f k v + g k v) m = msum f m + msum g m.
Proof.
  induction m as [|k v m Hk IH] using map_ind; [done|].
  rewrite !msum_insert_fresh by done. lia.
Qed.

Lemma msum_lookup_le f m k v : m !! k = Some v → f k v ≤ msum f m.
Proof. intros Hk. rewrite (msum_lookup f m k v) by done. lia. Qed.

Lemma msum_getd_le d f m k : f k d = 0 → f k (getd d m k) ≤ msum f m.
Proof. intros Hd. pose proof (msum_delete d f m k Hd). lia. Qed.

Lemma msum_zero_lookup f m k v : msum f m = 0 → m !! k = Some v → f k v = 0.
Proof. intros H0 Hk. pose proof (msum_lookup_le f m k v Hk). lia. Qed.

(** Maps whose entries contribute the same, up to the default value, have the
    same sum. *)
Lemma msum_agree d f m m' :
  (∀ k, f k d = 0) → (∀ k, f k (getd d m k) = f k (getd d m' k)) → msum f m = msum f m'.
Proof.
  intros Hd. revert m'. induction m as [|k v m Hk IH] using map_ind; intros m' Heq.
  - symmetry. apply msum_zero. intros k v Hv. specialize (Heq k). unfold getd in Heq.
    rewrite lookup_empty, Hv in Heq. simpl in Heq. by rewrite <- Heq.
  - rewrite msum_insert_fresh by done. rewrite (IH (delete k m')).
    + pose proof (msum_delete d f m' k (Hd k)) as Hm. rewrite <- Heq, getd_insert_eq in Hm. lia.
    + intros k'. rewrite getd_delete. case_decide; [|by rewrite <- Heq, getd_insert_ne].
      subst k'. unfold getd. by rewrite Hk.
Qed.

Lemma msum_getd_ext d f m m' :
  (∀ k, f k d = 0) → (∀ k, getd d m k = getd d m' k) → msum f m = msum f m'.
Proof. intros Hd Heq. apply (msum_agree d); [done|]. intros k. by rewrite Heq. Qed.

Lemma msum_le_size f m : (∀ k v, f k v ≤ 1) → msum f m ≤ N.of_nat (size m).
Proof.
  intros Hf. induction m as [|k v m Hk IH] using map_ind; [done|].
  rewrite msum_insert_fresh, map_size_insert_None by done. specialize (Hf k v). lia.
Qed.

(** Two entries at different keys. *)
Lemma msum_two_le f m k k' v v' :
  k ≠ k' → m !! k = Some v → m !! k' = Some v' → f k v + f k' v' ≤ msum f m.
Proof.
  intros Hne Hk Hk'. rewrite (msum_lookup f m k v) by done.
  assert (f k' v' ≤ msum f (delete k m)); [|lia].
  apply msum_lookup_le. by rewrite lookup_delete_ne.
Qed.
End maps.

Section prefixes.
Context {K1 K2 V : Type} `{Countable K1, Countable K2}.
Implicit Types (m : gmap (K1 * K2) V).

Lemma elem_of_iter_prefix m k1 k2 v :
  (k2, v) ∈ iter_prefix m k1 ↔ m !! (k1, k2) = Some v.
Proof.
  unfold iter_prefix. rewrite list_elem_of_omap. split.
  - intros ([[a b] w] & Hin & Hd). simpl in Hd. case_decide; [|done].
    simplify_eq. by apply elem_of_map_to_list in Hin.
  - intros Hm. exists ((k1, k2), v). split; [by apply elem_of_map_to_list|].
    simpl. by rewrite decide_True.
Qed.

Lemma iter_prefix_nil m k1 :
  iter_prefix m k1 = [] ↔ ∀ k2, m !! (k1, k2) = None.
Proof.
  split.
  - intros Hnil k2. destruct (m !! (k1, k2)) as [v|] eqn:Hm; [|done].
    apply elem_of_iter_prefix in Hm. rewrite Hnil in Hm. by apply elem_of_nil in Hm.
  - intros Hall. destruct (iter_prefix m k1) as [|[k2 v] l] eqn:Hl; [done|].
    assert (m !! (k1, k2) = Some v) as Hm.
    { apply elem_of_iter_prefix. rewrite Hl. by left. }
    by rewrite Hall in Hm.
Qed.

Lemma NoDup_iter_prefix m k1 : NoDup (iter_prefix m k1).*1.
Proof.
  unfold iter_prefix.
  pose proof (NoDup_fst_map_to_list m) as Hnd. revert Hnd.
  generalize (map_to_list m). intros l. induction l as [|[[a b] v] l IH]; simpl.
  - intros _. constructor.
  - intros [Hnin Hnd]%NoDup_cons. case_decide as Ha; simpl; [|by apply IH].
    subst a. apply NoDup_cons. split; [|by apply IH].
    intros ([k2 w] & -> & Hin)%list_elem_of_fmap. apply Hnin.
    apply list_elem_of_omap in Hin as ([[a' b'] w'] & Hin & Hd). simpl in Hd.
    case_decide; [|done]. simplify_eq. simpl.
    apply list_elem_of_fmap. by exists ((k1, k2), w).
Qed.

Lemma lookup_remove_prefix m k1 k k2 :
  remove_prefix k1 m !! (k, k2) = if decide (k = k1) then None else m !! (k, k2).
Proof.
  unfold remove_prefix. case_decide as Hk.
  - subst. apply map_lookup_filter_None. right. by intros v _ ?.
  - destruct (m !! (k, k2)) as [v|] eqn:Hm.
    + by apply map_lookup_filter_Some.
    + apply map_lookup_filter_None. by left.
Qed.

Lemma getd_remove_prefix d m k1 k k2 :
  getd d (remove_prefix k1 m) (k, k2) = if decide (k = k1) then d else getd d m (k, k2).
Proof. unfold getd. rewrite lookup_remove_prefix. by case_decide. Qed.

(** Removing a prefix that holds nothing counted leaves a sum as it was. *)
Lemma msum_remove_prefix (f : K1 * K2 → V → N) m k1 :
  msum f (remove_prefix k1 m) + msum (λ k v, if decide (k.1 = k1) then f k v else 0) m
  = msum f m.
Proof.
  unfold remove_prefix. induction m as [|k v m Hk IH] using map_ind.
  - rewrite map_filter_empty. by rewrite !msum_empty.
  - rewrite map_filter_insert, !msum_insert_fresh by done. simpl.
    case_decide as Hp; case_decide as Hq; try done.
    + rewrite msum_insert_fresh; [lia|]. apply map_lookup_filter_None. by left.
    + rewrite delete_id by done. lia.
Qed.
End prefixes.

(** The duplicate check of the code: collect into a set, compare the sizes. *)
Section dups.
Context {A : Type} `{Countable A}.
Implicit Types l : list A.

Lemma size_list_to_set_le l : (size (list_to_set l : gset A) ≤ length l)%nat.
Proof.
  induction l as [|x l IH]; simpl; [done|].
  pose proof (size_union_alt (C := gset A) {[x]} (list_to_set l)) as Hu.
  rewrite Hu, size_singleton.
  assert (size ((list_to_set l : gset A) ∖ {[x]}) ≤ size (list_to_set l : gset A))%nat;
    [|lia].
  apply subseteq_size. set_solver.
Qed.

Lemma size_list_to_set_NoDup l :
  size (list_to_set l : gset A) = length l ↔ NoDup l.
Proof.
  induction l as [|x l IH]; simpl.
  { split; [intros _; constructor|done]. }
  rewrite NoDup_cons, <- IH. destruct (decide (x ∈ l)) as [Hin|Hnin].
  - rewrite subseteq_union_1_L by set_solver.
    pose proof (size_list_to_set_le l). naive_solver lia.
  - rewrite size_union by set_solver. rewrite size_singleton. naive_solver lia.
Qed.
End dups.

(* ------------------------------------------------------------------ *)
(** * Tactics *)

(** [ok_inv] takes a successful run apart: every bind, check, guard and match
    that a hypothesis [_ = (Ok _, _)] or [_ = Ok _] went through becomes an
    equation of the context. *)
Ltac ok_inv_step :=
  match goal with
  | H : mbind _ _ _ = (Ok _, _) |- _ => apply SE_bind_Ok in H as (? & ? & ? & H)
  | H : mbind _ _ = Ok _ |- _ => apply bind_Ok in H as (? & ? & H)
  | H : check _ _ = (Ok _, _) |- _ => apply check_Ok in H as [H ->]
  | H : gets _ _ = (Ok _, _) |- _ => apply gets_Ok in H as [? ?]
  | H : modify _ _ = (Ok _, _) |- _ => apply modify_Ok in H as ->
  | H : mret _ _ = (Ok _, _) |- _ => apply ret_Ok in H as [? ?]
  | H : ?x = ?x |- _ => clear H
  | H : throw _ _ = (Ok _, _) |- _ => apply throw_Ok in H as []
  | H : with_transaction _ _ = (Ok _, _) |- _ => rewrite with_transaction_Ok in H
  | H : catch _ _ = (Ok _, _) |- _ => rewrite catch_Ok in H
  | H : ensure _ _ = Ok _ |- _ => apply ensure_Ok in H
  | H : ok_or _ _ = Ok _ |- _ => apply ok_or_Ok in H
  | H : Ok _ = Ok _ |- _ => injection H as H
  | H : Err _ = Ok _ |- _ => discriminate H
  | H : (Ok _, _) = (Ok _, _) |- _ => injection H as ? ?
  | H : (Err _, _) = (Ok _, _) |- _ => discriminate H
  | H : bool_decide _ = true |- _ => apply bool_decide_eq_true_1 in H
  | H : bool_decide _ = false |- _ => apply bool_decide_eq_false_1 in H
  | H : negb _ = true |- _ => apply negb_true_iff in H
  | H : negb _ = false |- _ => apply negb_false_iff in H
  | H : (_ && _) = true |- _ => apply andb_true_iff in H as [? H]
  | x : unit |- _ => destruct x
  end.

Ltac ok_inv := repeat (ok_inv_step; simpl in *; subst).

(** [err_inv] does the same for a run that failed: one case per place the error
    can come from. *)
Ltac err_step :=
  match goal with
  | H : mbind _ _ _ = (Err _, _) |- _ => apply SE_bind_Err in H as [H|(? & ? & ? & H)]
  | H : check _ _ = (Err _, _) |- _ => apply check_Err in H as [H ->]
  | H : gets _ _ = (Err _, _) |- _ => discriminate H
  | H : modify _ _ = (Err _, _) |- _ => discriminate H
  | _ => ok_inv_step
  end.
Ltac err_inv := repeat (err_step; simpl in *; subst).

(** Opens the pairs of the context. *)
Ltac destruct_product :=
  repeat match goal with x : (_ * _)%type |- _ => destruct x; simpl in * end.

(** [ok_case] also splits the matches and conditionals on the way. *)
Ltac ok_case_step :=
  match goal with
  | H : (match ?x with _ => _ end) _ = (Ok _, _) |- _ => destruct x eqn:?
  | H : (match ?x with _ => _ end) = (Ok _, _) |- _ => destruct x eqn:?
  | H : (match ?x with _ => _ end) = Ok _ |- _ => destruct x eqn:?
  end.

Ltac ok_case := repeat (first [ok_inv_step | ok_case_step]; simpl in *; subst; try done).

(** Reads of a storage map after writes to it. *)
Create HintDb storage discriminated.
#[export] Hint Rewrite @getd_insert_eq @getd_empty : storage.
#[export] Hint Resolve msum_lookup_le : storage.
