(* ===== verification/Subset.v ===== *)
(** Subset restrictions: the permission sets of secondary keys and agents
    (src/primitives/src/subset.rs).  [SubsetRestriction] describes a subset of
    an open universe finitely; the theorems relate the finite representation to
    the set it denotes. *)

From stdpp Require Import base gmap sets list infinite.
From S2P Require Import Prelude.

Inductive LatticeOrdering : Type := Less | Equal | Incomparable | Greater.

#[global] Instance LatticeOrdering_eq_dec : EqDecision LatticeOrdering.
Proof. solve_decision. Defined.

Inductive SubsetRestriction (A : Type) `{Countable A} : Type :=
  | Whole
  | These (es : gset A)
  | Except (es : gset A).
Arguments Whole {A _ _}.
Arguments These {A _ _} es.
Arguments Except {A _ _} es.

Module Subset.
Section subset.
Context {A : Type} `{Countable A}.
Implicit Types (r : SubsetRestriction A) (a b : gset A).

(** Normalises [U \ {}] to [U]. *)
Definition normalize r : SubsetRestriction A :=
  match r with
  | Except es => if decide (es = ∅) then Whole else Except es
  | x => x
  end.

Definition cmp_same a b : LatticeOrdering :=
  match bool_decide (a ⊆ b), bool_decide (b ⊆ a) with
  | true, true => Equal
  | true, false => Less
  | false, true => Greater
  | false, false => Incomparable
  end.

Definition cmp_diff a b (n : LatticeOrdering) : LatticeOrdering :=
  if decide (a ∩ b = ∅) then n else Incomparable.

Definition lattice_cmp (self other : SubsetRestriction A) : LatticeOrdering :=
  match normalize self, normalize other with
  | Whole, Whole => Equal
  | _, Whole => Less
  | Whole, _ => Greater
  | These a, These b => cmp_same a b
  | Except a, Except b => cmp_same b a
  | These a, Except b => cmp_diff a b Less
  | Except a, These b => cmp_diff a b Greater
  end.

Definition empty : SubsetRestriction A := These ∅.
Definition elem (x : A) : SubsetRestriction A := These {[x]}.
Definition elems (l : list A) : SubsetRestriction A := These (list_to_set l).
Definition except (x : A) : SubsetRestriction A := Except {[x]}.

Definition ge (self other : SubsetRestriction A) : bool :=
  match lattice_cmp self other with
  | Greater | Equal => true
  | _ => false
  end.

Definition inner r : option (gset A) :=
  match r with Whole => None | These es | Except es => Some es end.

Definition complexity r : nat :=
  match inner r with Some es => size es | None => 0 end.

Definition is_unrestricted r : bool :=
  match r with Whole => true | _ => false end.

Definition union (self other : SubsetRestriction A) : SubsetRestriction A :=
  match self, other with
  | Whole, _ | _, Whole => Whole
  | These l, These r => These (l ∪ r)
  | Except l, Except r => Except (l ∩ r)
  | These l, Except r | Except r, These l => Except (r ∖ l)
  end.

(** The set a restriction stands for. *)
Definition denotes r (x : A) : Prop :=
  match r with
  | Whole => True
  | These es => x ∈ es
  | Except es => x ∉ es
  end.

#[global] Instance denotes_dec r x : Decision (denotes r x).
Proof. destruct r; simpl; apply _. Defined.

Definition subset r1 r2 : Prop := ∀ x, denotes r1 x → denotes r2 x.

Lemma normalize_denotes r x : denotes (normalize r) x ↔ denotes r x.
Proof. destruct r; simpl; try done. case_decide; simpl; set_solver. Qed.

Lemma cmp_same_spec a b :
  match cmp_same a b with
  | Equal => a = b
  | Less => a ⊂ b
  | Greater => b ⊂ a
  | Incomparable => ¬ a ⊆ b ∧ ¬ b ⊆ a
  end.
Proof.
  unfold cmp_same. repeat case_bool_decide; try done. set_solver.
Qed.

(** Soundness of [ge]: it never claims an inclusion that does not hold. *)
Lemma ge_sound r1 r2 : ge r1 r2 = true → subset r2 r1.
Proof.
  unfold ge, lattice_cmp. intros Hge x. rewrite <- (normalize_denotes r1), <- (normalize_denotes r2). intros Hx.
  destruct (normalize r1) as [|a|a], (normalize r2) as [|b|b]; simpl in *; try done.
  - pose proof (cmp_same_spec a b) as Hs. destruct (cmp_same a b); try done; set_solver.
  - unfold cmp_diff in Hge. by case_decide.
  - unfold cmp_diff in Hge. case_decide; [set_solver|done].
  - pose proof (cmp_same_spec b a) as Hs. destruct (cmp_same b a); try done; set_solver.
Qed.

(** The membership test the permission checks use is exact over any
    universe. *)
Lemma ge_elems r l : ge r (elems l) = true ↔ ∀ x, x ∈ l → denotes r x.
Proof.
  split.
  - intros Hge x Hx. apply (ge_sound _ _ Hge). simpl. by apply elem_of_list_to_set.
  - intros Hall. assert (∀ x, x ∈ l → denotes (normalize r) x) as Hall'.
    { intros x Hx. rewrite normalize_denotes. by apply Hall. }
    unfold ge, lattice_cmp. simpl. destruct (normalize r) as [|a|a]; simpl in *; [done| |].
    + unfold cmp_same. rewrite (bool_decide_eq_true_2 (list_to_set l ⊆ a)).
      * by case_bool_decide.
      * intros x Hx. apply Hall'. by apply elem_of_list_to_set in Hx.
    + unfold cmp_diff. rewrite decide_True; [done|]. apply set_eq. intros x.
      split; [|set_solver]. intros [Ha Hl]%elem_of_intersection.
      apply elem_of_list_to_set in Hl. by destruct (Hall' x Hl).
Qed.

Lemma ge_elem r x : ge r (elem x) = true ↔ denotes r x.
Proof.
  replace (elem x) with (elems [x]); [|unfold elem, elems; f_equal; set_solver].
  rewrite ge_elems. split; [intros Hall; apply Hall; by left|].
  intros Hx y ->%list_elem_of_singleton. done.
Qed.

Lemma union_denotes r1 r2 x : denotes (union r1 r2) x ↔ denotes r1 x ∨ denotes r2 x.
Proof.
  destruct r1 as [|a|a], r2 as [|b|b]; simpl; try tauto;
    destruct (decide (x ∈ a)), (decide (x ∈ b)); set_solver.
Qed.

(** Over an infinite universe the comparison is exact. *)
Section infinite.
Context `{!Infinite A}.

Lemma outside (s : gset A) : ∃ x, x ∉ s.
Proof. exists (fresh s). apply is_fresh. Qed.

Lemma ge_complete r1 r2 : subset r2 r1 → ge r1 r2 = true.
Proof.
  intros Hsub. unfold ge, lattice_cmp.
  assert (∀ x, denotes (normalize r2) x → denotes (normalize r1) x) as Hs.
  { intros x. rewrite !normalize_denotes. apply Hsub. }
  assert (∀ es, normalize r1 = Except es → es ≠ ∅) as Hne.
  { intros es. destruct r1; simpl; try done. case_decide; naive_solver. }
  destruct (normalize r1) as [|a|a], (normalize r2) as [|b|b]; simpl in *; try done.
  - destruct (outside a) as [x Hx]. destruct Hx. by apply Hs.
  - unfold cmp_same. rewrite (bool_decide_eq_true_2 (b ⊆ a)) by set_solver.
    by case_bool_decide.
  - destruct (outside (a ∪ b)) as [x Hx]. exfalso. specialize (Hs x). set_solver.
  - destruct (Hne a eq_refl). apply set_eq. intros x. specialize (Hs x I). set_solver.
  - unfold cmp_diff. rewrite decide_True; [done|]. apply set_eq. intros x.
    specialize (Hs x). set_solver.
  - assert (a ⊆ b) as Hab.
    { intros x Hx. destruct (decide (x ∈ b)); [done|]. specialize (Hs x). set_solver. }
    unfold cmp_same. rewrite (bool_decide_eq_true_2 _ Hab). by case_bool_decide.
Qed.
End infinite.
End subset.
End Subset.
