(* ===== verification/AssetIdentifier.v ===== *)
(** Asset identifiers and their check digits (src/primitives/src/asset_identifier.rs):
    CUSIP, CINS, ISIN, LEI and FIGI. *)

From stdpp Require Import base numbers list.
From S2P Require Import Prelude.

Local Open Scope N_scope.

(** A byte array is the list of its bytes; the constructors carry the length
    their Rust type fixes. *)
Inductive AssetIdentifier : Type :=
  | CUSIP (bytes : list N)
  | CINS (bytes : list N)
  | ISIN (bytes : list N)
  | LEI (bytes : list N)
  | FIGI (bytes : list N).
#[global] Instance AssetIdentifier_eq_dec : EqDecision AssetIdentifier.
Proof. solve_decision. Defined.

Module Ident.
Definition u8_max : N := 255.

Definition in_range (lo hi b : N) : bool := bool_decide (lo ≤ b) && bool_decide (b ≤ hi).
Definition is_ascii_digit (b : N) : bool := in_range 48 57 b.
Definition is_ascii_uppercase (b : N) : bool := in_range 65 90 b.
Definition is_ascii_lowercase (b : N) : bool := in_range 97 122 b.
Definition is_ascii_alphabetic (b : N) : bool := is_ascii_uppercase b || is_ascii_lowercase b.
Definition is_ascii_alphanumeric (b : N) : bool := is_ascii_alphabetic b || is_ascii_digit b.

(** [byte_value]; [None] is the error. *)
Definition byte_value (b : N) : option N :=
  if bool_decide (b = 42) then Some 36
  else if bool_decide (b = 64) then Some 37
  else if bool_decide (b = 35) then Some 38
  else if is_ascii_digit b then Some (b - 48)
  else if is_ascii_uppercase b then Some (b - 65 + 1 + 9)
  else if is_ascii_lowercase b then Some (b - 32 - 65 + 1 + 9)
  else None.

(** One byte of the loop of [cusip_check_digit]: what it adds to the sum.
    The product is a [u8]. *)
Definition cusip_term (index : N) (v : N) : N :=
  let v := if bool_decide (index mod 2 = 0) then v else (v * 2) mod (u8_max + 1) in
  v / 10 + v mod 10.

Fixpoint cusip_sum (index : N) (bytes : list N) : option N :=
  match bytes with
  | [] => Some 0
  | b :: bytes =>
      v ← byte_value b ;
      rest ← cusip_sum (index + 1) bytes ;
      Some (cusip_term index v + rest)
  end.

Definition cusip_check_digit (bytes : list N) : option N :=
  sum ← cusip_sum 0 bytes ;
  Some ((10 - sum mod 10) mod 10).

(** Indexing a byte of a fixed-length array. *)
Definition byte_at (bytes : list N) (i : nat) : N := default 0 (bytes !! i).

Definition validate_cusip (bytes : list N) : bool :=
  if negb (is_ascii_digit (byte_at bytes 8)) then false
  else match cusip_check_digit (take 8 bytes) with
       | Some check_digit => bool_decide (check_digit = byte_at bytes 8 - 48)
       | None => false
       end.

(** The digits of [validate_isin]: two for a value of ten and above. *)
Fixpoint isin_digits (bytes : list N) : option (list N) :=
  match bytes with
  | [] => Some []
  | b :: bytes =>
      v ← byte_value b ;
      digits ← isin_digits bytes ;
      Some ((if bool_decide (10 ≤ v) then [v / 10; v mod 10] else [v]) ++ digits)
  end.

(** The Luhn test, over the digits from the last one. *)
Fixpoint luhn_sum (index : N) (digits : list N) : N :=
  match digits with
  | [] => 0
  | digit :: digits =>
      (if bool_decide (index mod 2 = 0) then digit
       else if bool_decide (5 ≤ digit) then 2 * digit - 9 else 2 * digit)
      + luhn_sum (index + 1) digits
  end.

Definition validate_isin (bytes : list N) : bool :=
  if negb (is_ascii_alphabetic (byte_at bytes 0))
     || negb (is_ascii_alphabetic (byte_at bytes 1))
     || negb (is_ascii_digit (byte_at bytes 11)) then false
  else if negb (forallb is_ascii_alphanumeric (take 9 (drop 2 bytes))) then false
  else match isin_digits bytes with
       | Some digits => bool_decide (luhn_sum 0 (reverse digits) mod 10 = 0)
       | None => false
       end.

(** The loop of [lei_checksum] over the reversed bytes: the power of ten the
    next byte counts for, and the sum so far. *)
Fixpoint lei_sum (i sum : N) (bytes : list N) : option N :=
  match bytes with
  | [] => Some sum
  | b :: bytes =>
      v ← byte_value b ;
      lei_sum (i + (if bool_decide (9 < v) then 2 else 1)) (sum + v * 10 ^ i) bytes
  end.

Definition lei_checksum (bytes : list N) : option N :=
  sum ← lei_sum 0 0 (reverse bytes) ;
  Some (98 - (sum * 100) mod 97).

Definition validate_lei (bytes : list N) : bool :=
  if negb (forallb is_ascii_alphanumeric (take 18 bytes)) then false
  else if negb (is_ascii_digit (byte_at bytes 18)) || negb (is_ascii_digit (byte_at bytes 19))
  then false
  else
    let input_check := (byte_at bytes 18 - 48) * 10 + (byte_at bytes 19 - 48) in
    bool_decide (Some input_check = lei_checksum (take 18 bytes)).

(** "BS", "BM", "GG", "GB", "GH", "KY", "VG". *)
Definition figi_disallowed : list (list N) :=
  [[66; 83]; [66; 77]; [71; 71]; [71; 66]; [71; 72]; [75; 89]; [86; 71]].

Definition validate_figi (bytes : list N) : bool :=
  if negb (bool_decide (byte_at bytes 2 = 71)) then false
  else if negb (forallb is_ascii_alphanumeric (take 8 (drop 3 bytes))) then false
  else if negb (is_ascii_digit (byte_at bytes 11)) then false
  else if bool_decide (take 2 bytes ∈ figi_disallowed) then false
  else bool_decide (cusip_check_digit (take 11 bytes) = Some (byte_at bytes 11 - 48)).

Definition is_valid (i : AssetIdentifier) : bool :=
  match i with
  | CUSIP bs | CINS bs => validate_cusip bs
  | ISIN bs => validate_isin bs
  | LEI bs => validate_lei bs
  | FIGI bs => validate_figi bs
  end.

Definition cusip (bytes : list N) : option AssetIdentifier :=
  if validate_cusip bytes then Some (CUSIP bytes) else None.
Definition cins (bytes : list N) : option AssetIdentifier :=
  if validate_cusip bytes then Some (CINS bytes) else None.
Definition isin (bytes : list N) : option AssetIdentifier :=
  if validate_isin bytes then Some (ISIN bytes) else None.
Definition lei (bytes : list N) : option AssetIdentifier :=
  if validate_lei bytes then Some (LEI bytes) else None.
Definition figi (bytes : list N) : option AssetIdentifier :=
  if validate_figi bytes then Some (FIGI bytes) else None.

(* ------------------------------------------------------------------ *)
(** ** LEI and ISO 7064 *)

(** The number the characters spell, letters counting for two digits. *)
Definition decimal (vs : list N) : N :=
  foldl (λ n v, n * (if bool_decide (9 < v) then 100 else 10) + v) 0 vs.

(** The same from the last character on. *)
Fixpoint decimal_rev (vs : list N) : N :=
  match vs with
  | [] => 0
  | v :: vs => v + (if bool_decide (9 < v) then 100 else 10) * decimal_rev vs
  end.

Lemma decimal_reverse vs : decimal (reverse vs) = decimal_rev vs.
Proof.
  induction vs as [|v vs IH]; [done|]. unfold decimal in *.
  rewrite reverse_cons, foldl_app. simpl. rewrite IH. lia.
Qed.

Fixpoint byte_values (bytes : list N) : option (list N) :=
  match bytes with
  | [] => Some []
  | b :: bytes => v ← byte_value b ; vs ← byte_values bytes ; Some (v :: vs)
  end.

Lemma byte_values_app l r :
  byte_values (l ++ r) = (vl ← byte_values l ; vr ← byte_values r ; Some (vl ++ vr)).
Proof.
  induction l as [|b l IH]; simpl.
  - by destruct (byte_values r).
  - destruct (byte_value b); simpl; [|done]. rewrite IH.
    destruct (byte_values l), (byte_values r); done.
Qed.

Lemma byte_values_reverse l : byte_values (reverse l) = reverse <$> byte_values l.
Proof.
  induction l as [|b l IH]; [done|]. rewrite reverse_cons, byte_values_app, IH. simpl.
  destruct (byte_values l), (byte_value b); simpl; try done. by rewrite reverse_cons.
Qed.

Lemma lei_sum_values i sum bytes :
  lei_sum i sum bytes = (λ vs, sum + 10 ^ i * decimal_rev vs) <$> byte_values bytes.
Proof.
  revert i sum. induction bytes as [|b bytes IH]; intros i sum; simpl.
  { f_equal. lia. }
  destruct (byte_value b) as [v|]; simpl; [|done]. rewrite IH.
  destruct (byte_values bytes) as [vs|]; simpl; [|done]. f_equal.
  case_bool_decide; rewrite N.pow_add_r; simpl; lia.
Qed.

Lemma lei_checksum_values bytes :
  lei_checksum bytes = (λ vs, 98 - (decimal vs * 100) mod 97) <$> byte_values bytes.
Proof.
  unfold lei_checksum. rewrite lei_sum_values, byte_values_reverse.
  destruct (byte_values bytes) as [vs|]; simpl; [|done].
  rewrite <- decimal_reverse, reverse_involutive.
  do 2 f_equal. rewrite N.pow_0_r, N.mul_1_l, N.add_0_l. done.
Qed.

Lemma check_digits_unique n c : 2 ≤ c ≤ 98 → c = 98 - n mod 97 ↔ (n + c) mod 97 = 1.
Proof.
  intros Hc. pose proof (N.mod_lt n 97 ltac:(lia)) as Hlt.
  rewrite (N.Div0.add_mod n c 97). set (r := n mod 97) in *. clearbody r.
  split.
  - intros ->. destruct (decide (r = 0)) as [->|]; [done|].
    destruct (decide (r = 1)) as [->|]; [done|].
    rewrite (N.mod_small (98 - r)) by lia. replace (r + (98 - r)) with (1 + 1 * 97) by lia.
    by rewrite N.Div0.mod_add.
  - destruct (decide (c = 97)) as [->|]; [|destruct (decide (c = 98)) as [->|]].
    + change (97 mod 97) with 0. rewrite N.add_0_r, N.mod_small by lia. lia.
    + change (98 mod 97) with 1. destruct (decide (r + 1 < 97)).
      * rewrite N.mod_small by lia. lia.
      * replace (r + 1) with (0 + 1 * 97) by lia. by rewrite N.Div0.mod_add.
    + rewrite (N.mod_small c) by lia. destruct (decide (r + c < 97)).
      * rewrite N.mod_small by lia. lia.
      * replace (r + c) with ((r + c - 97) + 1 * 97) by lia. rewrite N.Div0.mod_add.
        rewrite N.mod_small by lia. lia.
Qed.

(** [validate_lei] is the ISO 7064 test: it accepts a code exactly if the
    first 18 characters are alphanumeric, the last two are digits that read as
    a number from 2 to 98, and the number the whole code spells leaves 1
    modulo 97. *)
Theorem lei_is_iso7064 (bytes : list N) :
  let check := (byte_at bytes 18 - 48) * 10 + (byte_at bytes 19 - 48) in
  validate_lei bytes = true ↔
  forallb is_ascii_alphanumeric (take 18 bytes) = true ∧
  is_ascii_digit (byte_at bytes 18) = true ∧ is_ascii_digit (byte_at bytes 19) = true ∧
  2 ≤ check ≤ 98 ∧
  ∃ vs, byte_values (take 18 bytes) = Some vs ∧ (decimal vs * 100 + check) mod 97 = 1.
Proof.
  simpl. unfold validate_lei.
  destruct (forallb _ _); simpl; [|naive_solver].
  destruct (is_ascii_digit (byte_at bytes 18)), (is_ascii_digit (byte_at bytes 19)); simpl;
    try naive_solver.
  set (c := (byte_at bytes 18 - 48) * 10 + (byte_at bytes 19 - 48)).
  rewrite bool_decide_eq_true, lei_checksum_values.
  destruct (byte_values (take 18 bytes)) as [vs|]; simpl; [|naive_solver].
  pose proof (N.mod_lt (decimal vs * 100) 97 ltac:(lia)) as Hlt. clearbody c.
  split.
  - intros Hc%(inj Some). assert (2 ≤ c ≤ 98) as Hb.
    { rewrite Hc. revert Hlt. generalize ((decimal vs * 100) mod 97). lia. }
    split_and!; try done; try lia. exists vs. split; [done|]. by apply check_digits_unique.
  - intros (_ & _ & _ & Hb & vs' & [= <-] & Hm). f_equal. by apply check_digits_unique.
Qed.

Lemma alphanumeric_value b v :
  is_ascii_alphanumeric b = true → byte_value b = Some v → v ≤ 35.
Proof.
  unfold is_ascii_alphanumeric, is_ascii_alphabetic, byte_value, is_ascii_uppercase,
    is_ascii_lowercase, is_ascii_digit, in_range.
  repeat case_bool_decide; simpl; intros; simplify_eq; try done; lia.
Qed.

Lemma decimal_bound vs : (∀ v, v ∈ vs → v ≤ 35) → decimal_rev vs < 10 ^ (2 * N.of_nat (length vs)).
Proof.
  induction vs as [|v vs IH]; intros Hv; [done|]. cbn [decimal_rev length].
  rewrite Nat2N.inj_succ. replace (2 * N.succ (N.of_nat (length vs)))
    with (2 + 2 * N.of_nat (length vs)) by lia.
  rewrite N.pow_add_r. change (10 ^ 2) with 100.
  assert (v ≤ 35) by (apply Hv; by left).
  assert (decimal_rev vs < 10 ^ (2 * N.of_nat (length vs))) as Hlt
    by (apply IH; intros x Hx; apply Hv; by right).
  revert Hlt. generalize (decimal_rev vs), (10 ^ (2 * N.of_nat (length vs))). intros a b Hab.
  case_bool_decide; lia.
Qed.

Lemma byte_values_length bytes vs : byte_values bytes = Some vs → length vs = length bytes.
Proof.
  revert vs. induction bytes as [|b bytes IH]; intros vs; simpl; [by intros [= <-]|].
  destruct (byte_value b); simpl; [|done].
  destruct (byte_values bytes) as [vs'|]; simpl; [|done]. intros [= <-]. simpl. by rewrite (IH vs').
Qed.

Lemma byte_values_elem bytes vs v :
  byte_values bytes = Some vs → v ∈ vs → ∃ b, b ∈ bytes ∧ byte_value b = Some v.
Proof.
  revert vs. induction bytes as [|b bytes IH]; intros vs; simpl.
  { intros [= <-] Hv. by apply elem_of_nil in Hv. }
  destruct (byte_value b) as [v0|] eqn:Hb; simpl; [|done].
  destruct (byte_values bytes) as [vs'|]; simpl; [|done]. intros [= <-] [->|Hv]%elem_of_cons.
  - exists b. split; [by left|done].
  - destruct (IH vs' eq_refl Hv) as (b' & ? & ?). exists b'. split; [by right|done].
Qed.

(** the [u128] arithmetic of [lei_checksum] never overflows on what
    [validate_lei] passes to it: 18 alphanumeric characters spell less than
    [10^36], and a hundred times that fits. *)
Theorem lei_checksum_fits (bytes vs : list N)
    (Hlen : (length bytes ≤ 18)%nat) (Ha : forallb is_ascii_alphanumeric bytes = true)
    (Hv : byte_values bytes = Some vs) :
  lei_sum 0 0 (reverse bytes) = Some (decimal vs) ∧ decimal vs < 10 ^ 36 ∧
  decimal vs * 100 ≤ u128_max.
Proof.
  assert (decimal vs < 10 ^ 36) as Hb.
  { rewrite <- (reverse_involutive vs), decimal_reverse.
    eapply N.lt_le_trans; [apply decimal_bound|].
    - intros v Hin. rewrite elem_of_reverse in Hin.
      destruct (byte_values_elem _ _ _ Hv Hin) as (b & Hb & Hbv).
      apply (alphanumeric_value b); [|done]. rewrite forallb_forall in Ha.
      apply Ha. by apply list_elem_of_In.
    - apply N.pow_le_mono_r; [lia|]. rewrite length_reverse, (byte_values_length _ _ Hv). lia. }
  split_and!; [|done|unfold u128_max; lia].
  rewrite lei_sum_values, byte_values_reverse, Hv. simpl. rewrite <- decimal_reverse, reverse_involutive.
  f_equal. rewrite N.pow_0_r. lia.
Qed.

Lemma lei_checksum_fits_witness :
  lei_sum 0 0 (reverse [57; 65]) = Some 910 ∧ 910 < 10 ^ 36 ∧ 910 * 100 ≤ u128_max.
Proof.
  apply (lei_checksum_fits [57; 65] [9; 10]); [simpl; lia|reflexivity|reflexivity].
Defined.

(* ------------------------------------------------------------------ *)
(** ** The check digits detect a wrong digit *)

Lemma cusip_sum_app i l r :
  cusip_sum i (l ++ r) = (a ← cusip_sum i l ; b ← cusip_sum (i + N.of_nat (length l)) r ; Some (a + b)).
Proof.
  revert i. induction l as [|x l IH]; intros i; simpl.
  - rewrite N.add_0_r. by destruct (cusip_sum i r).
  - destruct (byte_value x); simpl; [|done]. rewrite IH.
    replace (i + 1 + N.of_nat (length l)) with (i + N.pos (Pos.of_succ_nat (length l))) by lia.
    destruct (cusip_sum (i + 1) l); simpl; [|done].
    destruct (cusip_sum _ r); simpl; [|done]. f_equal. lia.
Qed.

Lemma digit_value b : is_ascii_digit b = true → byte_value b = Some (b - 48) ∧ b - 48 < 10.
Proof.
  unfold is_ascii_digit, byte_value, is_ascii_digit, in_range. intros H. ok_inv.
  rewrite !(bool_decide_eq_false_2 (b = _)) by lia.
  rewrite !bool_decide_eq_true_2 by lia. simpl. split; [done|lia].
Qed.

(** Each digit gives another last digit of the sum, doubled or not. *)
Lemma cusip_term_inj i v v' r :
  v < 10 → v' < 10 → (cusip_term i v + r) mod 10 = (cusip_term i v' + r) mod 10 → v = v'.
Proof.
  intros Hv Hv' Heq.
  assert (cusip_term i v < 10 ∧ cusip_term i v' < 10 ∧
    (cusip_term i v = cusip_term i v' → v = v')) as (H1 & H2 & H3).
  { unfold cusip_term, u8_max.
    assert (v ∈ [0;1;2;3;4;5;6;7;8;9]) as Hin by (rewrite !elem_of_cons; lia).
    assert (v' ∈ [0;1;2;3;4;5;6;7;8;9]) as Hin' by (rewrite !elem_of_cons; lia).
    destruct (bool_decide (i mod 2 = 0)); clear -Hin Hin';
      repeat (apply elem_of_cons in Hin as [->|Hin]; [|]);
      try (by apply elem_of_nil in Hin);
      repeat (apply elem_of_cons in Hin' as [->|Hin']; [by vm_compute|]);
      by apply elem_of_nil in Hin'. }
  apply H3. clear H3. revert H1 H2 Heq.
  generalize (cusip_term i v), (cusip_term i v'). clear. intros a b Ha Hb Heq.
  rewrite (N.Div0.add_mod a r), (N.Div0.add_mod b r) in Heq.
  rewrite (N.mod_small a), (N.mod_small b) in Heq by lia.
  pose proof (N.mod_lt r 10 ltac:(lia)) as Hr. revert Hr Heq. generalize (r mod 10). intros x Hx.
  assert (∀ y, y < 20 → y mod 10 = if decide (y < 10) then y else y - 10) as Hm.
  { intros y Hy. case_decide; [by apply N.mod_small|].
    replace y with (y - 10 + 1 * 10) at 1 by lia. rewrite N.Div0.mod_add. apply N.mod_small. lia. }
  rewrite !Hm by lia. repeat case_decide; lia.
Qed.

Lemma check_digit_inj s s' : (10 - s mod 10) mod 10 = (10 - s' mod 10) mod 10 → s mod 10 = s' mod 10.
Proof.
  pose proof (N.mod_lt s 10 ltac:(lia)) as H1. pose proof (N.mod_lt s' 10 ltac:(lia)) as H2.
  revert H1 H2. generalize (s mod 10), (s' mod 10). intros a b Ha Hb.
  destruct (decide (a = 0)) as [->|], (decide (b = 0)) as [->|]; try done;
    rewrite ?(N.mod_small (10 - a)), ?(N.mod_small (10 - b)) by lia;
    change ((10 - 0) mod 10) with 0; lia.
Qed.

Lemma cusip_check_digit_inj l r b b' c :
  is_ascii_digit b = true → is_ascii_digit b' = true →
  cusip_check_digit (l ++ b :: r) = Some c → cusip_check_digit (l ++ b' :: r) = Some c → b = b'.
Proof.
  intros Hb Hb'. destruct (digit_value b Hb) as [Ev Hv], (digit_value b' Hb') as [Ev' Hv'].
  unfold cusip_check_digit. rewrite !cusip_sum_app. simpl. rewrite Ev, Ev'.
  destruct (cusip_sum 0 l) as [a|]; simpl; [|done].
  destruct (cusip_sum _ r) as [d|]; simpl; [|done]. intros [= <-] [= Heq].
  apply check_digit_inj in Heq.
  assert (b - 48 = b' - 48) as H48.
  { eapply (cusip_term_inj (0 + N.of_nat (length l)) _ _ (a + d)); [done|done|].
    match goal with |- (?x + _) mod _ = (?y + _) mod _ =>
      replace (x + (a + d)) with (a + (x + d)) by lia;
      replace (y + (a + d)) with (a + (y + d)) by lia end. by symmetry. }
  unfold is_ascii_digit, in_range in *. ok_inv. lia.
Qed.

(** a CUSIP (or CINS) with one wrong digit is rejected: of two codes that
    differ in one decimal digit at most one is valid. *)
Theorem cusip_detects_one_digit (l r : list N) (b b' : N)
    (Hlen : length (l ++ b :: r) = 9%nat)
    (Hb : is_ascii_digit b = true) (Hb' : is_ascii_digit b' = true)
    (H : validate_cusip (l ++ b :: r) = true) (H' : validate_cusip (l ++ b' :: r) = true) :
  b = b'.
Proof.
  rewrite length_app in Hlen. simpl in Hlen. unfold validate_cusip in *.
  destruct (negb _) eqn:Hd in H; [done|]. destruct (negb _) eqn:Hd' in H'; [done|].
  destruct (cusip_check_digit (take 8 (l ++ b :: r))) as [c|] eqn:Hc; [|done].
  destruct (cusip_check_digit (take 8 (l ++ b' :: r))) as [c'|] eqn:Hc'; [|done].
  apply bool_decide_eq_true in H, H'. subst c c'.
  rewrite !take_app in Hc, Hc'. unfold byte_at in *.
  destruct (decide (length l = 8%nat)) as [Hl|Hl].
  - rewrite Hl in *. simpl in *. rewrite Hc in Hc'. injection Hc' as Heq.
    rewrite !lookup_app_r in Heq by lia. rewrite Hl in Heq. simpl in Heq.
    unfold is_ascii_digit, in_range in *. ok_inv. lia.
  - destruct (8 - length l)%nat as [|m] eqn:Hm; [lia|]. simpl in *.
    rewrite !take_ge in Hc, Hc' by lia.
    rewrite !lookup_app_r in Hc, Hc' by lia. rewrite Hm in *. simpl in *.
    by eapply cusip_check_digit_inj.
Qed.

Lemma cusip_detects_one_digit_witness :
  validate_cusip [48;51;55;56;51;51;49;48;48] = true ∧
  validate_cusip [48;51;55;56;51;51;49;48;57] = false ∧ 51 = 51.
Proof.
  split; [reflexivity|]. split; [reflexivity|].
  apply (cusip_detects_one_digit [48] [55;56;51;51;49;48;48] 51 51); reflexivity.
Defined.
End Ident.
