(* ===== verification/Types.v ===== *)
(** Data shared by the pallets: identifiers, portfolios, NFTs, funds, asset
    types, keys with their permissions and authorizations.  Sources:
    src/primitives/src/{identity_id,nft,portfolio,asset,secondary_key,agent,
    authorization}.rs. *)

From stdpp Require Import base numbers list gmap sets strings.
From S2P Require Import Prelude Subset.

(** Fixed-width integers and byte arrays that the modelled code only compares
    are [N]; a ticker keeps its bytes because the ticker checks read them. *)
Notation Balance := N (only parsing).
Notation Moment := N (only parsing).
Notation BlockNumber := N (only parsing).
Notation IdentityId := N (only parsing).
Notation AccountId := N (only parsing).
Notation Ticker := (list N) (only parsing).
Notation NFTId := N (only parsing).
Notation PortfolioNumber := N (only parsing).
Notation PortfolioName := (list N) (only parsing).
Notation VenueId := N (only parsing).
Notation InstructionId := N (only parsing).
Notation LegId := N (only parsing).
Notation Memo := N (only parsing).
Notation AGId := N (only parsing).
Notation CheckpointId := N (only parsing).
Notation ScheduleId := N (only parsing).
Notation CustomAssetTypeId := N (only parsing).
Notation FundingRoundName := (list N) (only parsing).
Notation AssetName := (list N) (only parsing).
Notation NFTCollectionId := N (only parsing).
Notation PalletName := string (only parsing).
Notation DispatchableName := string (only parsing).

(* ------------------------------------------------------------------ *)
(** * Portfolios *)

Inductive PortfolioKind : Type :=
  | Default
  | User (num : PortfolioNumber).

Record PortfolioId : Type := mkPortfolioId {
  did : IdentityId;
  kind : PortfolioKind;
}.

#[global] Instance PortfolioKind_eq_dec : EqDecision PortfolioKind.
Proof. solve_decision. Defined.
#[global] Instance PortfolioKind_countable : Countable PortfolioKind.
Proof.
  refine (inj_countable'
    (λ k, match k with Default => None | User n => Some n end)
    (λ o, match o with None => Default | Some n => User n end) _).
  by intros [].
Defined.
#[global] Instance PortfolioId_eq_dec : EqDecision PortfolioId.
Proof. solve_decision. Defined.
#[global] Instance PortfolioId_countable : Countable PortfolioId.
Proof.
  refine (inj_countable' (λ p, (did p, kind p)) (λ '(d, k), mkPortfolioId d k) _).
  by intros [].
Defined.

Definition default_portfolio (d : IdentityId) : PortfolioId := mkPortfolioId d Default.
Definition user_portfolio (d : IdentityId) (num : PortfolioNumber) : PortfolioId :=
  mkPortfolioId d (User num).

Record PortfolioValidityResult : Type := mkPortfolioValidityResult {
  receiver_is_same_portfolio : bool;
  sender_portfolio_does_not_exist : bool;
  receiver_portfolio_does_not_exist : bool;
  sender_insufficient_balance : bool;
  pv_result : bool;
}.

(* ------------------------------------------------------------------ *)
(** * NFTs and funds *)

Record NFTs : Type := mkNFTs {
  nfts_ticker : Ticker;
  nfts_ids : list NFTId;
}.
#[global] Instance NFTs_eq_dec : EqDecision NFTs.
Proof. solve_decision. Defined.

Definition nfts_len (n : NFTs) : N := N.of_nat (length (nfts_ids n)).

(** [NFTs::new]: refuses duplicate ids. *)
Definition NFTs_new (t : Ticker) (ids : list NFTId) : option NFTs :=
  if decide (size (list_to_set ids : gset NFTId) = length ids)
  then Some (mkNFTs t ids) else None.

Inductive FundDescription : Type :=
  | FungibleFund (ticker : Ticker) (amount : Balance)
  | NonFungibleFund (nfts : NFTs).

Record Fund : Type := mkFund {
  description : FundDescription;
  fund_memo : option Memo;
}.

Inductive PortfolioUpdateReason : Type :=
  | Issued (funding_round_name : option FundingRoundName)
  | Redeemed
  | Transferred (instruction_id : option InstructionId) (instruction_memo : option Memo)
  | ControllerTransferReason.

(** The keys of the metadata of assets and NFTs
    (src/primitives/src/asset_metadata.rs). *)
Inductive AssetMetadataKey : Type :=
  | GlobalKey (id : N)
  | LocalKey (id : N).
#[global] Instance AssetMetadataKey_eq_dec : EqDecision AssetMetadataKey.
Proof. solve_decision. Defined.
#[global] Instance AssetMetadataKey_countable : Countable AssetMetadataKey.
Proof.
  refine (inj_countable'
    (λ k, match k with GlobalKey i => inl i | LocalKey i => inr i end)
    (λ s, match s with inl i => GlobalKey i | inr i => LocalKey i end) _).
  by intros [].
Defined.

(** The lock on a metadata value, and the details of a value; [expire] is kept
    for readers of the chain. *)
Inductive AssetMetadataLockStatus : Type :=
  | Unlocked
  | Locked
  | LockedUntil (until : Moment).
Record AssetMetadataValueDetail : Type := mkAssetMetadataValueDetail {
  expire : option Moment;
  lock_status : AssetMetadataLockStatus;
}.
Definition status_is_locked (s : AssetMetadataLockStatus) (now : Moment) : bool :=
  match s with
  | Unlocked => false
  | Locked => true
  | LockedUntil until => bool_decide (now < until)%N
  end.
Definition is_expired (d : AssetMetadataValueDetail) (now : Moment) : bool :=
  match expire d with
  | Some e => bool_decide (e < now)%N
  | None => false
  end.
Definition is_locked (d : AssetMetadataValueDetail) (now : Moment) : bool :=
  status_is_locked (lock_status d) now.

(** What a metadata key stands for. *)
Record AssetMetadataSpec : Type := mkAssetMetadataSpec {
  spec_url : option (list N);
  spec_description : option (list N);
  spec_type_def : option (list N);
}.

(** A document attached to an asset (src/primitives/src/document.rs,
    document_hash.rs). *)
Inductive DocumentHash : Type :=
  | NoHash
  | H512 (bytes : list N) | H384 (bytes : list N) | H320 (bytes : list N)
  | H256 (bytes : list N) | H224 (bytes : list N) | H192 (bytes : list N)
  | H160 (bytes : list N) | H128 (bytes : list N).
Record Document : Type := mkDocument {
  uri : list N;
  content_hash : DocumentHash;
  doc_name : list N;
  doc_type : option (list N);
  filing_date : option Moment;
}.

Record NFTCollection : Type := mkNFTCollection {
  collection_id : NFTCollectionId;
  collection_ticker : Ticker;
}.

(* ------------------------------------------------------------------ *)
(** * Assets *)

Inductive NonFungibleType : Type :=
  | NFDerivative | NFFixedIncome | NFInvoice | NFCustom (id : CustomAssetTypeId).

Inductive AssetType : Type :=
  | EquityCommon | EquityPreferred | Commodity | FixedIncome | REIT | AssetFund
  | RevenueShareAgreement | StructuredProduct | Derivative
  | Custom (id : CustomAssetTypeId) | StableCoin | NonFungible (t : NonFungibleType).

#[global] Instance NonFungibleType_eq_dec : EqDecision NonFungibleType.
Proof. solve_decision. Defined.
#[global] Instance AssetType_eq_dec : EqDecision AssetType.
Proof. solve_decision. Defined.

Definition is_fungible (t : AssetType) : bool :=
  match t with NonFungible _ => false | _ => true end.

Record SecurityToken : Type := mkSecurityToken {
  total_supply : Balance;
  owner_did : IdentityId;
  divisible : bool;
  asset_type : AssetType;
}.
#[global] Instance eta_SecurityToken : Eta SecurityToken := λ r,
  mkSecurityToken (total_supply r) (owner_did r) (divisible r) (asset_type r).

Inductive AssetOwnershipRelation : Type := NotOwned | TickerOwned | AssetOwned.
#[global] Instance AssetOwnershipRelation_eq_dec : EqDecision AssetOwnershipRelation.
Proof. solve_decision. Defined.

Record TickerRegistration : Type := mkTickerRegistration {
  reg_owner : IdentityId;
  reg_expiry : option Moment;
}.
#[global] Instance eta_TickerRegistration : Eta TickerRegistration := λ r,
  mkTickerRegistration (reg_owner r) (reg_expiry r).

Record TickerRegistrationConfig : Type := mkTickerRegistrationConfig {
  max_ticker_length : N;
  registration_length : option Moment;
}.

Inductive TickerRegistrationStatus : Type :=
  | RegisteredByOther | Available | RegisteredByDid.

(* ------------------------------------------------------------------ *)
(** * Permissions and keys *)

#[global] Instance SubsetRestriction_eq_dec A `{Countable A} :
  EqDecision (SubsetRestriction A).
Proof. solve_decision. Defined.
#[global] Instance SubsetRestriction_countable A `{Countable A} :
  Countable (SubsetRestriction A).
Proof.
  refine (inj_countable'
    (λ r, match r with
          | Whole => inl tt
          | These s => inr (inl s)
          | Except s => inr (inr s)
          end)
    (λ s, match s with
          | inl _ => Whole
          | inr (inl s) => These s
          | inr (inr s) => Except s
          end) _).
  by intros [].
Defined.

Notation DispatchableNames := (SubsetRestriction DispatchableName).

Record PalletPermissions : Type := mkPalletPermissions {
  pallet_name : PalletName;
  dispatchable_names : DispatchableNames;
}.
#[global] Instance PalletPermissions_eq_dec : EqDecision PalletPermissions.
Proof. solve_decision. Defined.
#[global] Instance PalletPermissions_countable : Countable PalletPermissions.
Proof.
  refine (inj_countable' (λ p, (pallet_name p, dispatchable_names p))
    (λ '(a, b), mkPalletPermissions a b) _).
  by intros [].
Defined.

Definition entire_pallet (p : PalletName) : PalletPermissions :=
  mkPalletPermissions p Whole.

Notation ExtrinsicPermissions := (SubsetRestriction PalletPermissions).
Notation AssetPermissions := (SubsetRestriction Ticker).
Notation PortfolioPermissions := (SubsetRestriction PortfolioId).

(** [ExtrinsicPermissions::sufficient_for]. *)
Definition matches_any (perms : gset PalletPermissions) (p : PalletName)
    (d : DispatchableName) : bool :=
  existsb (λ perm,
    bool_decide (pallet_name perm = p) &&
    match dispatchable_names perm with
    | Whole => true
    | These funcs => bool_decide (d ∈ funcs)
    | Except funcs => negb (bool_decide (d ∈ funcs))
    end) (elements perms).

Definition sufficient_for (self : ExtrinsicPermissions) (p : PalletName)
    (d : DispatchableName) : bool :=
  match self with
  | Whole => true
  | These perms => matches_any perms p d
  | Except perms => negb (matches_any perms p d)
  end.

Record Permissions : Type := mkPermissions {
  asset_perms : AssetPermissions;
  extrinsic_perms : ExtrinsicPermissions;
  portfolio_perms : PortfolioPermissions;
}.

Record SecondaryKey : Type := mkSecondaryKey {
  key : AccountId;
  permissions : Permissions;
}.

Definition has_asset_permission (sk : SecondaryKey) (t : Ticker) : bool :=
  Subset.ge (asset_perms (permissions sk)) (Subset.elem t).
Definition has_extrinsic_permission (sk : SecondaryKey) (p : PalletName)
    (d : DispatchableName) : bool :=
  sufficient_for (extrinsic_perms (permissions sk)) p d.
Definition has_portfolio_permission (sk : SecondaryKey) (l : list PortfolioId) : bool :=
  Subset.ge (portfolio_perms (permissions sk)) (Subset.elems l).

Inductive KeyRecord : Type :=
  | PrimaryKey (d : IdentityId)
  | SecondaryKeyRecord (d : IdentityId) (perms : Permissions)
  | MultiSigSignerKey (ms : AccountId).

Inductive Signatory : Type :=
  | SigIdentity (d : IdentityId)
  | SigAccount (a : AccountId).
#[global] Instance Signatory_eq_dec : EqDecision Signatory.
Proof. solve_decision. Defined.
#[global] Instance Signatory_countable : Countable Signatory.
Proof.
  refine (inj_countable'
    (λ s, match s with SigIdentity d => inl d | SigAccount a => inr a end)
    (λ s, match s with inl d => SigIdentity d | inr a => SigAccount a end) _).
  by intros [].
Defined.

Definition as_identity (s : Signatory) : option IdentityId :=
  match s with SigIdentity d => Some d | _ => None end.
Definition as_account (s : Signatory) : option AccountId :=
  match s with SigAccount a => Some a | _ => None end.
Definition eq_either (s : Signatory) (d : IdentityId) (k : AccountId) : bool :=
  match s with
  | SigAccount a => bool_decide (a = k)
  | SigIdentity i => bool_decide (i = d)
  end.

(* ------------------------------------------------------------------ *)
(** * Agents and authorizations *)

Inductive AgentGroup : Type :=
  | Full | CustomGroup (id : AGId) | ExceptMeta | PolymeshV1CAA | PolymeshV1PIA.
#[global] Instance AgentGroup_eq_dec : EqDecision AgentGroup.
Proof. solve_decision. Defined.

Inductive AuthorizationData : Type :=
  | AttestPrimaryKeyRotation (d : IdentityId)
  | RotatePrimaryKey
  | TransferTicker (t : Ticker)
  | AddMultiSigSigner (a : AccountId)
  | TransferAssetOwnership (t : Ticker)
  | JoinIdentity (p : Permissions)
  | PortfolioCustody (p : PortfolioId)
  | BecomeAgent (t : Ticker) (g : AgentGroup)
  | AddRelayerPayingKey (u p : AccountId) (limit : Balance)
  | RotatePrimaryKeyToSecondary (p : Permissions).

Record Authorization : Type := mkAuthorization {
  authorization_data : AuthorizationData;
  authorized_by : IdentityId;
  auth_expiry : option Moment;
  auth_id : N;
  auth_count : N;
}.
#[global] Instance eta_Authorization : Eta Authorization := λ r,
  mkAuthorization (authorization_data r) (authorized_by r) (auth_expiry r)
    (auth_id r) (auth_count r).

(** Permission of a secondary key over portfolios is membership in the set its
    restriction denotes. *)
Lemma has_portfolio_permission_spec sk l :
  has_portfolio_permission sk l = true ↔
    ∀ p, p ∈ l → Subset.denotes (portfolio_perms (permissions sk)) p.
Proof. apply Subset.ge_elems. Qed.

Lemma has_asset_permission_spec sk t :
  has_asset_permission sk t = true ↔ Subset.denotes (asset_perms (permissions sk)) t.
Proof. apply Subset.ge_elem. Qed.

Lemma NFTs_new_NoDup t ids n : NFTs_new t ids = Some n → NoDup ids ∧ n = mkNFTs t ids.
Proof.
  unfold NFTs_new. case_decide as Hs; [|done]. intros [= <-].
  by rewrite size_list_to_set_NoDup in Hs.
Qed.
