(* ===== verification/ClaimTypes.v ===== *)
(** Claims about identities and the rules that read them: scopes, claims and
    claim types (src/primitives/src/identity_claim.rs), the conditions of the
    compliance manager (condition.rs, compliance_manager.rs) and the statistics
    and transfer conditions of assets (statistics.rs,
    transfer_compliance.rs). *)

From stdpp Require Import base numbers list gmap sets strings.
From S2P Require Import Prelude Subset Types.

Local Open Scope N_scope.

(** The country codes of jurisdiction.rs, of which the code only compares
    values, and the ids of CDD claims and custom claim types. *)
Notation CountryCode := N (only parsing).
Notation CddId := N (only parsing).
Notation CustomClaimTypeId := N (only parsing).
(** [Permill]: parts of a million. *)
Notation Percentage := N (only parsing).

(* ------------------------------------------------------------------ *)
(** * Claims *)

Inductive Scope : Type :=
  | ScopeIdentity (d : IdentityId)
  | ScopeTicker (t : Ticker)
  | ScopeCustom (data : list N).

Inductive ClaimType : Type :=
  | TAccredited | TAffiliate | TBuyLockup | TSellLockup | TCustomerDueDiligence
  | TKnowYourCustomer | TJurisdiction | TExempted | TBlocked
  | TCustom (id : CustomClaimTypeId).

Inductive Claim : Type :=
  | Accredited (s : Scope)
  | Affiliate (s : Scope)
  | BuyLockup (s : Scope)
  | SellLockup (s : Scope)
  | CustomerDueDiligence (id : CddId)
  | KnowYourCustomer (s : Scope)
  | Jurisdiction (cc : CountryCode) (s : Scope)
  | Exempted (s : Scope)
  | Blocked (s : Scope)
  | Custom (id : CustomClaimTypeId) (s : option Scope).

#[global] Instance Scope_eq_dec : EqDecision Scope.
Proof. solve_decision. Defined.
#[global] Instance Scope_countable : Countable Scope.
Proof.
  refine (inj_countable'
    (λ s, match s with
          | ScopeIdentity d => inl d | ScopeTicker t => inr (inl t) | ScopeCustom c => inr (inr c)
          end)
    (λ s, match s with
          | inl d => ScopeIdentity d | inr (inl t) => ScopeTicker t | inr (inr c) => ScopeCustom c
          end) _).
  by intros [].
Defined.
#[global] Instance ClaimType_eq_dec : EqDecision ClaimType.
Proof. solve_decision. Defined.

(** The position of a claim type in the order of the declaration, the order
    derived by [Ord]. *)
Definition claim_type_rank (t : ClaimType) : N * N :=
  match t with
  | TAccredited => (0, 0) | TAffiliate => (1, 0) | TBuyLockup => (2, 0)
  | TSellLockup => (3, 0) | TCustomerDueDiligence => (4, 0) | TKnowYourCustomer => (5, 0)
  | TJurisdiction => (6, 0) | TExempted => (7, 0) | TBlocked => (8, 0)
  | TCustom i => (9, i)
  end.
Definition claim_type_of_rank (r : N * N) : ClaimType :=
  match r with
  | (0, _) => TAccredited | (1, _) => TAffiliate | (2, _) => TBuyLockup
  | (3, _) => TSellLockup | (4, _) => TCustomerDueDiligence | (5, _) => TKnowYourCustomer
  | (6, _) => TJurisdiction | (7, _) => TExempted | (8, _) => TBlocked
  | (_, i) => TCustom i
  end.
#[global] Instance ClaimType_countable : Countable ClaimType.
Proof. refine (inj_countable' claim_type_rank claim_type_of_rank _). by intros []. Defined.

#[global] Instance Claim_eq_dec : EqDecision Claim.
Proof. solve_decision. Defined.

(** [Claim::claim_type] and [Claim::as_scope]. *)
Definition claim_type (c : Claim) : ClaimType :=
  match c with
  | Accredited _ => TAccredited
  | Affiliate _ => TAffiliate
  | BuyLockup _ => TBuyLockup
  | SellLockup _ => TSellLockup
  | CustomerDueDiligence _ => TCustomerDueDiligence
  | KnowYourCustomer _ => TKnowYourCustomer
  | Jurisdiction _ _ => TJurisdiction
  | Exempted _ => TExempted
  | Blocked _ => TBlocked
  | Custom id _ => TCustom id
  end.

Definition as_scope (c : Claim) : option Scope :=
  match c with
  | Accredited s | Affiliate s | BuyLockup s | SellLockup s | KnowYourCustomer s
  | Jurisdiction _ s | Exempted s | Blocked s => Some s
  | Custom _ s => s
  | CustomerDueDiligence _ => None
  end.

Record IdentityClaim : Type := mkIdentityClaim {
  claim_issuer : IdentityId;
  issuance_date : Moment;
  last_update_date : Moment;
  claim_expiry : option Moment;
  claim : Claim;
}.

(** The keys of the claim map (src/pallets/identity/src/types.rs). *)
Record Claim1stKey : Type := mkClaim1stKey {
  c1_target : IdentityId;
  c1_claim_type : ClaimType;
}.
Record Claim2ndKey : Type := mkClaim2ndKey {
  c2_issuer : IdentityId;
  c2_scope : option Scope;
}.
#[global] Instance Claim1stKey_eq_dec : EqDecision Claim1stKey.
Proof. solve_decision. Defined.
#[global] Instance Claim1stKey_countable : Countable Claim1stKey.
Proof.
  refine (inj_countable' (λ k, (c1_target k, c1_claim_type k)) (λ '(t, c), mkClaim1stKey t c) _).
  by intros [].
Defined.
#[global] Instance Claim2ndKey_eq_dec : EqDecision Claim2ndKey.
Proof. solve_decision. Defined.
#[global] Instance Claim2ndKey_countable : Countable Claim2ndKey.
Proof.
  refine (inj_countable' (λ k, (c2_issuer k, c2_scope k)) (λ '(i, s), mkClaim2ndKey i s) _).
  by intros [].
Defined.

(* ------------------------------------------------------------------ *)
(** * Conditions *)

Inductive TargetIdentity : Type :=
  | ExternalAgent
  | Specific (d : IdentityId).

Inductive ConditionType : Type :=
  | IsPresent (c : Claim)
  | IsAbsent (c : Claim)
  | IsAnyOf (cs : list Claim)
  | IsNoneOf (cs : list Claim)
  | IsIdentity (i : TargetIdentity).

Inductive TrustedFor : Type :=
  | TrustedAny
  | TrustedSpecific (l : list ClaimType).

Record TrustedIssuer : Type := mkTrustedIssuer {
  issuer : IdentityId;
  trusted_for : TrustedFor;
}.
#[global] Instance eta_TrustedIssuer : Eta TrustedIssuer := λ r,
  mkTrustedIssuer (issuer r) (trusted_for r).
#[global] Instance TrustedFor_eq_dec : EqDecision TrustedFor.
Proof. solve_decision. Defined.
#[global] Instance TrustedIssuer_eq_dec : EqDecision TrustedIssuer.
Proof. solve_decision. Defined.

Record Condition : Type := mkCondition {
  condition_type : ConditionType;
  issuers : list TrustedIssuer;
}.
#[global] Instance eta_Condition : Eta Condition := λ r,
  mkCondition (condition_type r) (issuers r).

Record ComplianceRequirement : Type := mkComplianceRequirement {
  sender_conditions : list Condition;
  receiver_conditions : list Condition;
  requirement_id : N;
}.
#[global] Instance eta_ComplianceRequirement : Eta ComplianceRequirement := λ r,
  mkComplianceRequirement (sender_conditions r) (receiver_conditions r) (requirement_id r).

Record AssetCompliance : Type := mkAssetCompliance {
  compliance_paused : bool;
  compliance_requirements : list ComplianceRequirement;
}.
#[global] Instance eta_AssetCompliance : Eta AssetCompliance := λ r,
  mkAssetCompliance (compliance_paused r) (compliance_requirements r).

(* ------------------------------------------------------------------ *)
(** * Statistics and transfer conditions *)

(** [AssetScope] has the one variant [Ticker]. *)
Notation AssetScope := Ticker (only parsing).

Inductive StatOpType : Type := OpCount | OpBalance.

Record StatType : Type := mkStatType {
  stat_op : StatOpType;
  stat_claim_issuer : option (ClaimType * IdentityId);
}.

Inductive StatClaim : Type :=
  | StatAccredited (b : bool)
  | StatAffiliate (b : bool)
  | StatJurisdiction (cc : option CountryCode).

Inductive Stat2ndKey : Type :=
  | NoClaimStat
  | ClaimStat (c : StatClaim).

Record Stat1stKey : Type := mkStat1stKey {
  stat_asset : AssetScope;
  stat_stat_type : StatType;
}.

Record StatUpdate : Type := mkStatUpdate {
  update_key2 : Stat2ndKey;
  update_value : option N;
}.

Inductive TransferCondition : Type :=
  | MaxInvestorCount (max : N)
  | MaxInvestorOwnership (max : Percentage)
  | ClaimCount (c : StatClaim) (issuer : IdentityId) (min : N) (max : option N)
  | ClaimOwnership (c : StatClaim) (issuer : IdentityId) (min max : Percentage).

Record TransferConditionExemptKey : Type := mkTransferConditionExemptKey {
  exempt_asset : AssetScope;
  exempt_op : StatOpType;
  exempt_claim_type : option ClaimType;
}.

#[global] Instance StatOpType_eq_dec : EqDecision StatOpType.
Proof. solve_decision. Defined.
#[global] Instance StatOpType_countable : Countable StatOpType.
Proof.
  refine (inj_countable' (λ o, match o with OpCount => true | OpBalance => false end)
    (λ b : bool, if b then OpCount else OpBalance) _).
  by intros [].
Defined.
#[global] Instance StatType_eq_dec : EqDecision StatType.
Proof. solve_decision. Defined.
#[global] Instance StatType_countable : Countable StatType.
Proof.
  refine (inj_countable' (λ s, (stat_op s, stat_claim_issuer s)) (λ '(o, c), mkStatType o c) _).
  by intros [].
Defined.
#[global] Instance StatClaim_eq_dec : EqDecision StatClaim.
Proof. solve_decision. Defined.
#[global] Instance StatClaim_countable : Countable StatClaim.
Proof.
  refine (inj_countable'
    (λ s, match s with
          | StatAccredited b => inl b | StatAffiliate b => inr (inl b)
          | StatJurisdiction c => inr (inr c)
          end)
    (λ s, match s with
          | inl b => StatAccredited b | inr (inl b) => StatAffiliate b
          | inr (inr c) => StatJurisdiction c
          end) _).
  by intros [].
Defined.
#[global] Instance Stat2ndKey_eq_dec : EqDecision Stat2ndKey.
Proof. solve_decision. Defined.
#[global] Instance Stat2ndKey_countable : Countable Stat2ndKey.
Proof.
  refine (inj_countable' (λ k, match k with NoClaimStat => None | ClaimStat c => Some c end)
    (λ o, match o with None => NoClaimStat | Some c => ClaimStat c end) _).
  by intros [].
Defined.
#[global] Instance Stat1stKey_eq_dec : EqDecision Stat1stKey.
Proof. solve_decision. Defined.
#[global] Instance Stat1stKey_countable : Countable Stat1stKey.
Proof.
  refine (inj_countable' (λ k, (stat_asset k, stat_stat_type k))
    (λ '(a, s), mkStat1stKey a s) _).
  by intros [].
Defined.
#[global] Instance StatUpdate_eq_dec : EqDecision StatUpdate.
Proof. solve_decision. Defined.
#[global] Instance StatUpdate_countable : Countable StatUpdate.
Proof.
  refine (inj_countable' (λ k, (update_key2 k, update_value k)) (λ '(a, s), mkStatUpdate a s) _).
  by intros [].
Defined.
#[global] Instance TransferCondition_eq_dec : EqDecision TransferCondition.
Proof. solve_decision. Defined.
#[global] Instance TransferCondition_countable : Countable TransferCondition.
Proof.
  refine (inj_countable'
    (λ c, match c with
          | MaxInvestorCount m => inl m
          | MaxInvestorOwnership m => inr (inl m)
          | ClaimCount c i mn mx => inr (inr (inl (c, i, mn, mx)))
          | ClaimOwnership c i mn mx => inr (inr (inr (c, i, mn, mx)))
          end)
    (λ s, match s with
          | inl m => MaxInvestorCount m
          | inr (inl m) => MaxInvestorOwnership m
          | inr (inr (inl (c, i, mn, mx))) => ClaimCount c i mn mx
          | inr (inr (inr (c, i, mn, mx))) => ClaimOwnership c i mn mx
          end) _).
  by intros [].
Defined.
#[global] Instance TransferConditionExemptKey_eq_dec : EqDecision TransferConditionExemptKey.
Proof. solve_decision. Defined.
#[global] Instance TransferConditionExemptKey_countable : Countable TransferConditionExemptKey.
Proof.
  refine (inj_countable' (λ k, (exempt_asset k, exempt_op k, exempt_claim_type k))
    (λ '(a, o, c), mkTransferConditionExemptKey a o c) _).
  by intros [].
Defined.

Record AssetTransferCompliance : Type := mkAssetTransferCompliance {
  transfer_paused : bool;
  transfer_requirements : gset TransferCondition;
}.
#[global] Instance eta_AssetTransferCompliance : Eta AssetTransferCompliance := λ r,
  mkAssetTransferCompliance (transfer_paused r) (transfer_requirements r).

(** [StatClaim::claim_type]. *)
Definition stat_claim_type (c : StatClaim) : ClaimType :=
  match c with
  | StatAccredited _ => TAccredited
  | StatAffiliate _ => TAffiliate
  | StatJurisdiction _ => TJurisdiction
  end.

(** [Stat2ndKey::new_from]. *)
Definition new_from (t : ClaimType) (c : option Claim) : Stat2ndKey :=
  match t, c with
  | TAccredited, None => ClaimStat (StatAccredited false)
  | TAffiliate, None => ClaimStat (StatAffiliate false)
  | TAccredited, Some (Accredited _) => ClaimStat (StatAccredited true)
  | TAffiliate, Some (Affiliate _) => ClaimStat (StatAffiliate true)
  | TJurisdiction, Some (Jurisdiction cc _) => ClaimStat (StatJurisdiction (Some cc))
  | TJurisdiction, None => ClaimStat (StatJurisdiction None)
  | _, _ => NoClaimStat
  end.

(** [TransferCondition::get_stat_type] and [TransferCondition::get_exempt_key]. *)
Definition get_stat_type (c : TransferCondition) : StatType :=
  match c with
  | MaxInvestorCount _ => mkStatType OpCount None
  | MaxInvestorOwnership _ => mkStatType OpBalance None
  | ClaimCount c i _ _ => mkStatType OpCount (Some (stat_claim_type c, i))
  | ClaimOwnership c i _ _ => mkStatType OpBalance (Some (stat_claim_type c, i))
  end.

Definition get_exempt_key (c : TransferCondition) (a : AssetScope)
    : TransferConditionExemptKey :=
  match c with
  | MaxInvestorCount _ => mkTransferConditionExemptKey a OpCount None
  | MaxInvestorOwnership _ => mkTransferConditionExemptKey a OpBalance None
  | ClaimCount c _ _ _ => mkTransferConditionExemptKey a OpCount (Some (stat_claim_type c))
  | ClaimOwnership c _ _ _ => mkTransferConditionExemptKey a OpBalance (Some (stat_claim_type c))
  end.

(** [StatType::investor_count]. *)
Definition investor_count_stat : StatType := mkStatType OpCount None.
