(* ===== verification/SettlementTypes.v ===== *)
(** Settlement data and its counting helpers (src/primitives/src/settlement.rs):
    instructions, legs, receipts, [AssetCount], [InstructionInfo] and
    [FilteredLegs]. *)

From stdpp Require Import base numbers list gmap sets.
From S2P Require Import Prelude Types.

Local Open Scope N_scope.

Inductive InstructionStatus : Type :=
  | StatusUnknown
  | StatusPending
  | StatusFailed
  | StatusSuccess (at_block : BlockNumber)
  | StatusRejected (at_block : BlockNumber).
#[global] Instance InstructionStatus_eq_dec : EqDecision InstructionStatus.
Proof. solve_decision. Defined.

Inductive VenueType : Type := VenueOther | Distribution | Sto | Exchange.
#[global] Instance VenueType_eq_dec : EqDecision VenueType.
Proof. solve_decision. Defined.

Inductive LegStatus : Type :=
  | PendingTokenLock
  | ExecutionPending
  | ExecutionToBeSkipped (signer : AccountId) (uid : N).
#[global] Instance LegStatus_eq_dec : EqDecision LegStatus.
Proof. solve_decision. Defined.

Inductive AffirmationStatus : Type := AffUnknown | AffPending | Affirmed.
#[global] Instance AffirmationStatus_eq_dec : EqDecision AffirmationStatus.
Proof. solve_decision. Defined.

Inductive SettlementType : Type :=
  | SettleOnAffirmation
  | SettleOnBlock (b : BlockNumber)
  | SettleManual (b : BlockNumber).
#[global] Instance SettlementType_eq_dec : EqDecision SettlementType.
Proof. solve_decision. Defined.

Record Instruction : Type := mkInstruction {
  instruction_id : InstructionId;
  venue_id : VenueId;
  settlement_type : SettlementType;
  created_at : option Moment;
  trade_date : option Moment;
  value_date : option Moment;
}.
(** The derived [Default]. *)
Definition default_instruction : Instruction :=
  mkInstruction 0 0 SettleOnAffirmation None None None.

Inductive Leg : Type :=
  | Fungible (sender receiver : PortfolioId) (ticker : Ticker) (amount : Balance)
  | NonFungibleLeg (sender receiver : PortfolioId) (nfts : NFTs)
  | OffChain (sender_identity receiver_identity : IdentityId) (ticker : Ticker)
      (amount : Balance).
#[global] Instance Leg_eq_dec : EqDecision Leg.
Proof. solve_decision. Defined.

Definition is_off_chain (l : Leg) : bool :=
  match l with OffChain _ _ _ _ => true | _ => false end.
Definition leg_ticker (l : Leg) : Ticker :=
  match l with
  | Fungible _ _ t _ => t
  | NonFungibleLeg _ _ nfts => nfts_ticker nfts
  | OffChain _ _ t _ => t
  end.

(** The portfolios of an on-chain leg. *)
Definition leg_sender (l : Leg) : option PortfolioId :=
  match l with
  | Fungible s _ _ _ | NonFungibleLeg s _ _ => Some s
  | OffChain _ _ _ _ => None
  end.
Definition leg_receiver (l : Leg) : option PortfolioId :=
  match l with
  | Fungible _ r _ _ | NonFungibleLeg _ r _ => Some r
  | OffChain _ _ _ _ => None
  end.
Definition leg_party (l : Leg) (p : PortfolioId) : Prop :=
  leg_sender l = Some p ∨ leg_receiver l = Some p.

Record Venue : Type := mkVenue { creator : IdentityId; venue_type : VenueType }.
#[global] Instance eta_Venue : Eta Venue := λ r, mkVenue (creator r) (venue_type r).

Record Receipt : Type := mkReceipt {
  r_uid : N;
  r_instruction_id : InstructionId;
  r_leg_id : LegId;
  r_sender_identity : IdentityId;
  r_receiver_identity : IdentityId;
  r_ticker : Ticker;
  r_amount : Balance;
}.

Record ReceiptDetails : Type := mkReceiptDetails {
  rd_uid : N;
  rd_instruction_id : InstructionId;
  rd_leg_id : LegId;
  rd_signer : AccountId;
  rd_signature : N;
  rd_metadata : option N;
}.

Inductive MediatorAffirmationStatus : Type :=
  | MedUnknown
  | MedPending
  | MedAffirmed (expiry : option Moment).
#[global] Instance MediatorAffirmationStatus_eq_dec : EqDecision MediatorAffirmationStatus.
Proof. solve_decision. Defined.

(* ------------------------------------------------------------------ *)
(** * [AssetCount] *)

Record AssetCount : Type := mkAssetCount {
  fungible : N;
  non_fungible : N;
  off_chain : N;
}.
#[global] Instance eta_AssetCount : Eta AssetCount := λ r,
  mkAssetCount (fungible r) (non_fungible r) (off_chain r).

Definition AssetCount_default : AssetCount := mkAssetCount 0 0 0.

(** [nfts.len() as u32]. *)
Definition nfts_len_u32 (n : NFTs) : N := nfts_len n mod (u32_max + 1).

Definition add_fungible (c : AssetCount) : AssetCount :=
  c <| fungible ::= λ n, wrapping_add u32_max n 1 |>.
Definition add_non_fungible (nfts : NFTs) (c : AssetCount) : AssetCount :=
  c <| non_fungible ::= λ n, wrapping_add u32_max n (nfts_len_u32 nfts) |>.
Definition add_off_chain (c : AssetCount) : AssetCount :=
  c <| off_chain ::= λ n, wrapping_add u32_max n 1 |>.

Definition try_add_fungible (c : AssetCount) : option AssetCount :=
  if bool_decide (1024 < wrapping_add u32_max (fungible c) 1) then None
  else Some (add_fungible c).
(** [usize] is 64 bits wide. *)
Definition try_add_non_fungible (nfts : NFTs) (c : AssetCount) : option AssetCount :=
  match checked_add u64_max (nfts_len nfts) (non_fungible c) with
  | Some new_value =>
      if bool_decide (1024 < new_value) then None else Some (add_non_fungible nfts c)
  | None => None
  end.
Definition try_add_off_chain (c : AssetCount) : option AssetCount :=
  if bool_decide (1024 < wrapping_add u32_max (off_chain c) 1) then None
  else Some (add_off_chain c).

Definition try_add_leg (c : AssetCount) (l : Leg) : option AssetCount :=
  match l with
  | Fungible _ _ _ _ => try_add_fungible c
  | NonFungibleLeg _ _ nfts => try_add_non_fungible nfts c
  | OffChain _ _ _ _ => try_add_off_chain c
  end.
Fixpoint try_add_legs (c : AssetCount) (legs : list Leg) : option AssetCount :=
  match legs with
  | [] => Some c
  | l :: legs => match try_add_leg c l with
                 | Some c' => try_add_legs c' legs
                 | None => None
                 end
  end.
Definition try_from_legs (legs : list Leg) : option AssetCount :=
  try_add_legs AssetCount_default legs.

Definition add_leg (c : AssetCount) (l : Leg) : AssetCount :=
  match l with
  | Fungible _ _ _ _ => add_fungible c
  | NonFungibleLeg _ _ nfts => add_non_fungible nfts c
  | OffChain _ _ _ _ => add_off_chain c
  end.
Definition from_legs (legs : list (LegId * Leg)) : AssetCount :=
  foldl (λ c l, add_leg c l.2) AssetCount_default legs.

(* ------------------------------------------------------------------ *)
(** * [InstructionInfo] *)

Record InstructionInfo : Type := mkInstructionInfo {
  instruction_asset_count : AssetCount;
  portfolios_pending_approval : gset PortfolioId;
  portfolios_pre_approved : gset PortfolioId;
  mediators : gset IdentityId;
}.
#[global] Instance eta_InstructionInfo : Eta InstructionInfo := λ r,
  mkInstructionInfo (instruction_asset_count r) (portfolios_pending_approval r)
    (portfolios_pre_approved r) (mediators r).

Definition portfolios_pre_approved_difference (i : InstructionInfo) : gset PortfolioId :=
  portfolios_pre_approved i ∖ portfolios_pending_approval i.
Definition gset_len {A : Type} `{Countable A} (s : gset A) : N := N.of_nat (size s).
Definition number_of_pending_affirmations (i : InstructionInfo) : N :=
  wrapping_add u64_max
    (wrapping_add u64_max
      (gset_len (portfolios_pending_approval i) mod (u64_max + 1))
      (off_chain (instruction_asset_count i)))
    (gset_len (mediators i) mod (u64_max + 1)).
Definition extend_mediators (new : gset IdentityId) (i : InstructionInfo) : InstructionInfo :=
  i <| mediators ::= λ s, s ∪ new |>.

(* ------------------------------------------------------------------ *)
(** * [FilteredLegs] *)

Record FilteredLegs : Type := mkFilteredLegs {
  sender_subset : list (LegId * Leg);
  sender_asset_count : AssetCount;
  receiver_asset_count : AssetCount;
  unfiltered_asset_count : AssetCount;
}.
#[global] Instance eta_FilteredLegs : Eta FilteredLegs := λ r,
  mkFilteredLegs (sender_subset r) (sender_asset_count r) (receiver_asset_count r)
    (unfiltered_asset_count r).

Definition filter_leg (set : gset PortfolioId) (acc : FilteredLegs) (il : LegId * Leg)
    : FilteredLegs :=
  match il.2 with
  | Fungible sender receiver _ _ | NonFungibleLeg sender receiver _ =>
      if decide (sender ∈ set) then
        acc <| sender_subset ::= λ l, l ++ [il] |>
            <| sender_asset_count ::= λ c, add_leg c il.2 |>
      else if decide (receiver ∈ set) then
        acc <| receiver_asset_count ::= λ c, add_leg c il.2 |>
      else acc
  | OffChain _ _ _ _ => acc
  end.

Definition filter_sender (original_set : list (LegId * Leg)) (set : gset PortfolioId)
    : FilteredLegs :=
  foldl (filter_leg set)
    (mkFilteredLegs [] AssetCount_default AssetCount_default (from_legs original_set))
    original_set.

Record AffirmationCount : Type := mkAffirmationCount {
  ac_sender : AssetCount;
  ac_receiver : AssetCount;
  ac_offchain : N;
}.

(* ------------------------------------------------------------------ *)
(** * Lemmas *)

(** The legs a sender filter keeps. *)
Definition sent_from (set : gset PortfolioId) (il : LegId * Leg) : Prop :=
  match leg_sender il.2 with Some p => p ∈ set | None => False end.
#[global] Instance sent_from_dec set il : Decision (sent_from set il).
Proof. unfold sent_from. destruct (leg_sender il.2); apply _. Defined.

Lemma filter_leg_subset set acc il :
  sender_subset (filter_leg set acc il) =
    sender_subset acc ++ (if decide (sent_from set il) then [il] else []).
Proof.
  unfold filter_leg. destruct (decide (sent_from set il)) as [Hs|Hs];
    destruct il as [i [s r t a|s r n|s r t a]]; unfold sent_from in Hs; simpl in *;
    try done; rewrite ?app_nil_r; repeat case_decide; done.
Qed.

(** [filter_sender] keeps exactly the legs sent from the given portfolios, in
    their order. *)
Lemma sender_subset_filter legs set :
  sender_subset (filter_sender legs set) = filter (sent_from set) legs.
Proof.
  unfold filter_sender.
  enough (∀ acc, sender_subset (foldl (filter_leg set) acc legs) =
    sender_subset acc ++ filter (sent_from set) legs) as Hgen by by rewrite Hgen.
  induction legs as [|il legs IH]; intros acc; simpl; [by rewrite app_nil_r|].
  rewrite IH, filter_leg_subset, filter_cons. case_decide; simpl;
    by rewrite <- app_assoc.
Qed.

Lemma elem_of_sender_subset legs set i l :
  (i, l) ∈ sender_subset (filter_sender legs set) ↔
    (i, l) ∈ legs ∧ ∃ p, leg_sender l = Some p ∧ p ∈ set.
Proof.
  rewrite sender_subset_filter, list_elem_of_filter. unfold sent_from. simpl.
  destruct (leg_sender l); naive_solver.
Qed.

Lemma unfiltered_count legs set :
  unfiltered_asset_count (filter_sender legs set) = from_legs legs.
Proof.
  unfold filter_sender.
  enough (∀ acc l, unfiltered_asset_count (foldl (filter_leg set) acc l) =
    unfiltered_asset_count acc) as Hgen by by rewrite Hgen.
  intros acc l. revert acc. induction l as [|[i l] ls IH]; intros acc; simpl; [done|].
  rewrite IH. unfold filter_leg. simpl. destruct l; repeat case_decide; done.
Qed.

(** A count whose components are within the bound the [try_] functions keep. *)
Definition count_bounded (c : AssetCount) : Prop :=
  fungible c ≤ 1024 ∧ non_fungible c ≤ 1024 ∧ off_chain c ≤ 1024.

Lemma try_add_leg_exact c l c' :
  count_bounded c → try_add_leg c l = Some c' →
  count_bounded c' ∧ c' = add_leg c l ∧
  fungible c' = fungible c + (if l is Fungible _ _ _ _ then 1 else 0) ∧
  non_fungible c' = non_fungible c + (if l is NonFungibleLeg _ _ n then nfts_len n else 0) ∧
  off_chain c' = off_chain c + (if is_off_chain l then 1 else 0).
Proof.
  intros (Hf & Hn & Ho). unfold count_bounded.
  assert (∀ n k, n ≤ 1024 → k ≤ 1024 → wrapping_add u32_max n k = n + k) as Hw.
  { intros n k ??. apply wrapping_add_small. unfold u32_max. lia. }
  destruct l as [s r t a|s r n|s r t a]; simpl.
  - unfold try_add_fungible. rewrite Hw by lia. case_bool_decide as Hb; [done|].
    intros [= <-]. simpl. rewrite Hw by lia. split_and!; done || lia.
  - unfold try_add_non_fungible. destruct (checked_add _ _ _) as [v|] eqn:Hv; [|done].
    apply checked_add_Some in Hv as [-> Hv]. case_bool_decide as Hb; [done|].
    intros [= <-]. simpl. unfold nfts_len_u32.
    rewrite N.mod_small by (unfold u32_max; lia).
    rewrite Hw by lia. split_and!; done || lia.
  - unfold try_add_off_chain. rewrite Hw by lia. case_bool_decide as Hb; [done|].
    intros [= <-]. simpl. rewrite Hw by lia. split_and!; done || lia.
Qed.

(** The number of off-chain legs. *)
Definition off_chain_legs (legs : list Leg) : N :=
  foldr (λ l n, (if is_off_chain l then 1 else 0) + n) 0 legs.

Lemma try_add_legs_exact legs c c' :
  count_bounded c → try_add_legs c legs = Some c' →
  count_bounded c' ∧ c' = foldl add_leg c legs ∧
  off_chain c' = off_chain c + off_chain_legs legs.
Proof.
  revert c. induction legs as [|l legs IH]; intros c Hc; simpl.
  - intros [= <-]. unfold off_chain_legs. simpl. split_and!; [apply Hc..|done|lia].
  - destruct (try_add_leg c l) as [c1|] eqn:Hl; [|done].
    destruct (try_add_leg_exact _ _ _ Hc Hl) as (Hc1 & -> & _ & _ & Ho).
    intros (Hb & -> & Hoff)%IH; [|done]. split_and!; [apply Hb..|done|].
    rewrite Hoff, Ho. simpl. lia.
Qed.
