(* ===== verification/Schedules.v ===== *)
(** Checkpoint schedules (src/pallets/common/src/traits/checkpoint.rs):
    [ScheduleCheckpoints], the pending checkpoint times of one schedule, and
    [NextCheckpoints], the per-ticker cache of the next time of every schedule. *)

From stdpp Require Import base numbers list gmap sorting.
From S2P Require Import Prelude Types.

Local Open Scope N_scope.

(** [Moment::MAX]. *)
Definition moment_max : Moment := u64_max.

(* ------------------------------------------------------------------ *)
(** * One schedule *)

(** A [BTreeSet] is the strictly ascending list of its elements. *)
Record ScheduleCheckpoints : Type := mkScheduleCheckpoints {
  pending : list Moment;
}.

Definition schedule_len (s : ScheduleCheckpoints) : N := N.of_nat (length (pending s)).
Definition schedule_next (s : ScheduleCheckpoints) : option Moment := head (pending s).
Definition schedule_ensure_no_expired (s : ScheduleCheckpoints) (now : Moment) : bool :=
  forallb (λ p, bool_decide (now ≤ p)) (pending s).
(** The removed times and what is left. *)
Definition remove_expired (s : ScheduleCheckpoints) (now : Moment)
    : list Moment * ScheduleCheckpoints :=
  (filter (λ next, next ≤ now) (pending s),
   mkScheduleCheckpoints (filter (λ next, ¬ next ≤ now) (pending s))).

(* ------------------------------------------------------------------ *)
(** * The cache of next checkpoints *)

Record NextCheckpoints : Type := mkNextCheckpoints {
  next_at : Moment;
  total_pending : N;
  schedules : gmap ScheduleId Moment;
}.
#[global] Instance eta_NextCheckpoints : Eta NextCheckpoints := λ r,
  mkNextCheckpoints (next_at r) (total_pending r) (schedules r).

Definition NextCheckpoints_default : NextCheckpoints := mkNextCheckpoints moment_max 0 ∅.

Definition cache_is_empty (c : NextCheckpoints) : bool := bool_decide (schedules c = ∅).
Definition expired (c : NextCheckpoints) (now : Moment) : bool :=
  bool_decide (next_at c ≤ now).

(** The least value of a map, [Moment::MAX] when it is empty. *)
Definition min_next (m : gmap ScheduleId Moment) : Moment :=
  map_fold (λ _ next acc, N.min next acc) moment_max m.

(** [expired_schedules]: the ids whose next time has come, in ascending order,
    and the cache without them. *)
Definition expired_schedules (c : NextCheckpoints) (now : Moment)
    : list ScheduleId * NextCheckpoints :=
  let kept := filter (λ kv, ¬ kv.2 ≤ now) (schedules c) in
  let gone := filter (λ kv, kv.2 ≤ now) (schedules c) in
  (merge_sort N.le (map_to_list gone).*1,
   c <| schedules := kept |> <| next_at := min_next kept |>).

Definition inc_total_pending (num : N) (c : NextCheckpoints) : NextCheckpoints :=
  c <| total_pending ::= λ t, saturating_add u64_max t num |>.
Definition dec_total_pending (num : N) (c : NextCheckpoints) : NextCheckpoints :=
  c <| total_pending ::= λ t, saturating_sub t num |>.
Definition recal_next (c : NextCheckpoints) : NextCheckpoints :=
  c <| next_at := min_next (schedules c) |>.
Definition add_schedule_next (id : ScheduleId) (cp : Moment) (c : NextCheckpoints)
    : NextCheckpoints :=
  let c' := c <| schedules ::= <[id := cp]> |> in
  if decide (cp < next_at c') then c' <| next_at := cp |> else c'.
Definition remove_schedule (id : ScheduleId) (c : NextCheckpoints) : NextCheckpoints :=
  let removed := schedules c !! id in
  let c' := c <| schedules ::= delete id |> in
  if decide (removed = Some (next_at c)) then recal_next c' else c'.

(* ------------------------------------------------------------------ *)
(** * The cached time is the least of the schedules' next times *)

Definition cache_ok (c : NextCheckpoints) : Prop :=
  next_at c = min_next (schedules c).

Lemma min_next_insert m id cp :
  m !! id = None → min_next (<[id:=cp]> m) = N.min cp (min_next m).
Proof.
  intros Hid. unfold min_next.
  apply (map_fold_insert_L (λ _ next acc, N.min next acc)); [intros; lia|done].
Qed.

Lemma min_next_le m id cp : m !! id = Some cp → min_next m ≤ cp.
Proof.
  intros Hid. rewrite <- (insert_delete_id m id cp) by done.
  rewrite min_next_insert by apply lookup_delete_eq. lia.
Qed.

Lemma expired_schedules_ok c now : cache_ok (expired_schedules c now).2.
Proof. done. Qed.
