(* ===== verification/StoTypes.v ===== *)
(** The data of fundraisers (src/pallets/sto/src/lib.rs). *)

From stdpp Require Import base numbers list gmap.
From S2P Require Import Prelude Types SettlementTypes.

Local Open Scope N_scope.

Notation FundraiserId := N (only parsing).
Notation FundraiserName := (list N) (only parsing).

Definition MAX_TIERS : N := 10.

(** [Live] and [Frozen] are [FundraiserLive] and [FundraiserHalted]: the short names
    are those of events and other states. *)
Inductive FundraiserStatus : Type := FundraiserLive | FundraiserHalted | Closed | ClosedEarly.
#[global] Instance FundraiserStatus_eq_dec : EqDecision FundraiserStatus.
Proof. solve_decision. Defined.

(** [PriceTier] and [FundraiserTier]. *)
Record PriceTier : Type := mkPriceTier { pt_total : Balance; pt_price : Balance }.
Record FundraiserTier : Type := mkFundraiserTier {
  tier_total : Balance;
  tier_price : Balance;
  tier_remaining : Balance;
}.
#[global] Instance eta_FundraiserTier : Eta FundraiserTier := λ r,
  mkFundraiserTier (tier_total r) (tier_price r) (tier_remaining r).
Definition into_fundraiser_tier (t : PriceTier) : FundraiserTier :=
  mkFundraiserTier (pt_total t) (pt_price t) (pt_total t).

Record Fundraiser : Type := mkFundraiser {
  fr_creator : IdentityId;
  offering_portfolio : PortfolioId;
  offering_asset : Ticker;
  raising_portfolio : PortfolioId;
  raising_asset : Ticker;
  tiers : list FundraiserTier;
  fr_venue_id : VenueId;
  fr_start : Moment;
  fr_end : option Moment;
  fr_status : FundraiserStatus;
  minimum_investment : Balance;
}.
#[global] Instance eta_Fundraiser : Eta Fundraiser := λ r,
  mkFundraiser (fr_creator r) (offering_portfolio r) (offering_asset r) (raising_portfolio r)
    (raising_asset r) (tiers r) (fr_venue_id r) (fr_start r) (fr_end r) (fr_status r)
    (minimum_investment r).

Definition is_closed (f : Fundraiser) : bool :=
  bool_decide (fr_status f = Closed) || bool_decide (fr_status f = ClosedEarly).
