(* ===== verification/CorporateTypes.v ===== *)
(** The data of corporate actions, capital distributions and corporate ballots
    (src/pallets/corporate-actions/src). *)

From stdpp Require Import base numbers list gmap.
From S2P Require Import Prelude Types SettlementTypes.

Local Open Scope N_scope.

(** [Permill]: parts of a million. *)
Notation Tax := N (only parsing).
Notation LocalCAId := N (only parsing).
Notation DocumentId := N (only parsing).
Notation CADetails := (list N) (only parsing).

(* ------------------------------------------------------------------ *)
(** * Corporate actions *)

Inductive TargetTreatment : Type := Include | Exclude.
Definition is_include (t : TargetTreatment) : bool :=
  match t with Include => true | Exclude => false end.

Record TargetIdentities : Type := mkTargetIdentities {
  identities : list IdentityId;
  treatment : TargetTreatment;
}.
Definition TargetIdentities_default : TargetIdentities := mkTargetIdentities [] Exclude.

Inductive CAKind : Type :=
  | PredictableBenefit | UnpredictableBenefit | IssuerNotice | Reorganization | CAOther.
#[global] Instance CAKind_eq_dec : EqDecision CAKind.
Proof. solve_decision. Defined.
Definition is_benefit (k : CAKind) : bool :=
  match k with PredictableBenefit | UnpredictableBenefit => true | _ => false end.

Inductive CACheckpoint : Type :=
  | CAScheduled (id : ScheduleId) (index : N)
  | CAExisting (cp : CheckpointId).

Record RecordDate : Type := mkRecordDate { date : Moment; ca_checkpoint : CACheckpoint }.

Inductive RecordDateSpec : Type :=
  | SpecScheduled (at_ : Moment)
  | SpecExistingSchedule (id : ScheduleId)
  | SpecExisting (cp : CheckpointId).

Record CorporateAction : Type := mkCorporateAction {
  ca_kind : CAKind;
  decl_date : Moment;
  record_date : option RecordDate;
  ca_targets : TargetIdentities;
  default_withholding_tax : Tax;
  withholding_tax : list (IdentityId * Tax);
}.
#[global] Instance eta_CorporateAction : Eta CorporateAction := λ r,
  mkCorporateAction (ca_kind r) (decl_date r) (record_date r) (ca_targets r)
    (default_withholding_tax r) (withholding_tax r).

Record CAId : Type := mkCAId { ca_ticker : Ticker; local_id : LocalCAId }.
#[global] Instance CAId_eq_dec : EqDecision CAId.
Proof. solve_decision. Defined.
#[global] Instance CAId_countable : Countable CAId.
Proof.
  apply (inj_countable' (λ i, (ca_ticker i, local_id i)) (λ p, mkCAId p.1 p.2)). by intros [].
Defined.

Record InitiateCorporateActionArgs : Type := mkInitiateCorporateActionArgs {
  ia_ticker : Ticker;
  ia_kind : CAKind;
  ia_decl_date : Moment;
  ia_record_date : option RecordDateSpec;
  ia_details : CADetails;
  ia_targets : option TargetIdentities;
  ia_default_withholding_tax : option Tax;
  ia_withholding_tax : option (list (IdentityId * Tax));
}.

(* ------------------------------------------------------------------ *)
(** * Capital distributions *)

Definition PER_SHARE_PRECISION : Balance := 1000000.

Record Distribution : Type := mkDistribution {
  dist_from : PortfolioId;
  currency : Ticker;
  per_share : Balance;
  dist_amount : Balance;
  remaining : Balance;
  reclaimed : bool;
  payment_at : Moment;
  expires_at : option Moment;
}.
#[global] Instance eta_Distribution : Eta Distribution := λ r,
  mkDistribution (dist_from r) (currency r) (per_share r) (dist_amount r) (remaining r)
    (reclaimed r) (payment_at r) (expires_at r).

(** [expired] of the distributions. *)
Definition dist_expired (expiry : option Moment) (now : Moment) : bool :=
  match expiry with Some e => bool_decide (e ≤ now) | None => false end.

(* ------------------------------------------------------------------ *)
(** * Corporate ballots *)

Record Motion : Type := mkMotion {
  motion_title : list N;
  info_link : list N;
  choices : list (list N);
}.
Record BallotMeta : Type := mkBallotMeta {
  ballot_title : list N;
  motions : list Motion;
}.
Record BallotTimeRange : Type := mkBallotTimeRange { range_start : Moment; range_end : Moment }.
#[global] Instance eta_BallotTimeRange : Eta BallotTimeRange := λ r,
  mkBallotTimeRange (range_start r) (range_end r).
Record BallotVote : Type := mkBallotVote { power : Balance; fallback : option N }.
