(* ===== verification/PipsTypes.v ===== *)
(** The data of the improvement proposals (src/pallets/pips/src/lib.rs). *)

From stdpp Require Import base numbers list gmap.
From S2P Require Import Prelude Types SettlementTypes.

Local Open Scope N_scope.

Notation PipId := N (only parsing).
Notation SnapshotId := N (only parsing).
Notation SkippedCount := N (only parsing).
Notation Url := (list N) (only parsing).
Notation PipDescription := (list N) (only parsing).

(** The entire proposal, or its hash when it is large. *)
Inductive ProposalData : Type :=
  | DataHash (h : N)
  | DataProposal (bytes : list N).

(** [Committee], the committees that can make a PIP. *)
Inductive PipCommittee : Type := Technical | Upgrade.
#[global] Instance PipCommittee_eq_dec : EqDecision PipCommittee.
Proof. solve_decision. Defined.

Inductive Proposer : Type :=
  | Community (who : AccountId)
  | ByCommittee (c : PipCommittee).
#[global] Instance Proposer_eq_dec : EqDecision Proposer.
Proof. solve_decision. Defined.

(** The proposal itself is a call of the chain. *)
Record Pip : Type := mkPip {
  pip_id : PipId;
  pip_proposal : N;
  pip_proposer : Proposer;
}.

Record PipsMetadata : Type := mkPipsMetadata {
  meta_id : PipId;
  meta_url : option Url;
  meta_description : option PipDescription;
  meta_created_at : BlockNumber;
  meta_transaction_version : N;
  meta_expiry : option BlockNumber;
}.

Record VotingResult : Type := mkVotingResult {
  ayes_count : N;
  ayes_stake : Balance;
  nays_count : N;
  nays_stake : Balance;
}.
#[global] Instance eta_VotingResult : Eta VotingResult := λ r,
  mkVotingResult (ayes_count r) (ayes_stake r) (nays_count r) (nays_stake r).
Definition no_votes : VotingResult := mkVotingResult 0 0 0 0.

(** [Vote]: for or against, and how strongly. *)
Record PipVote : Type := mkPipVote { vote_aye : bool; vote_stake : Balance }.

(** [VoteCount]. *)
Inductive VoteCount : Type :=
  | ProposalFound (ayes nays : Balance)
  | ProposalNotFound.

(** [ProposalState]. *)
Inductive ProposalState : Type :=
  | PipPending | PipRejected | PipScheduled | PipFailed | PipExecuted | PipExpired.
#[global] Instance ProposalState_eq_dec : EqDecision ProposalState.
Proof. solve_decision. Defined.

Record DepositInfo : Type := mkDepositInfo { deposit_owner : AccountId; deposit_amount : Balance }.

Record SnapshotMetadata : Type := mkSnapshotMetadata {
  snapshot_created_at : BlockNumber;
  snapshot_made_by : AccountId;
  snapshot_meta_id : SnapshotId;
}.

(** A PIP in a queue; the sign of the weight is [true] for a positive number. *)
Record SnapshottedPip : Type := mkSnapshottedPip {
  spip_id : PipId;
  spip_weight : bool * Balance;
}.
#[global] Instance SnapshottedPip_eq_dec : EqDecision SnapshottedPip.
Proof. solve_decision. Defined.

Inductive SnapshotResult : Type := Approve | Reject | Skip.

(** The named tasks of the pallet: [execution_name] and [expiry_name]. *)
Inductive PipTask : Type :=
  | ExecutionOf (id : PipId)
  | ExpiryOf (id : PipId).
#[global] Instance PipTask_eq_dec : EqDecision PipTask.
Proof. solve_decision. Defined.
#[global] Instance PipTask_countable : Countable PipTask.
Proof.
  refine (inj_countable'
    (λ t, match t with ExecutionOf id => inl id | ExpiryOf id => inr id end)
    (λ s, match s with inl id => ExecutionOf id | inr id => ExpiryOf id end) _).
  by intros [].
Defined.
