(* ===== verification/State.v ===== *)
(** The chain state: one storage record per pallet, the errors and events of
    the modelled pallets, the [World] that holds them, and [Runtime], what the
    pallets are configured with.

    Each field is one item of the pallet's [decl_storage!] block, with the
    item's name.  A map whose value type has a default is read with [getd]. *)

From stdpp Require Import base numbers list gmap sets strings.
From S2P Require Import Prelude Subset AssetIdentifier Types ClaimTypes SettlementTypes Schedules.
From S2P Require Import StoTypes CorporateTypes PipsTypes.

Local Open Scope N_scope.

(* ------------------------------------------------------------------ *)
(** * Weights *)

Record Weight : Type := mkWeight { ref_time : N; proof_size : N }.

(** [polymesh_primitives::WeightMeter]: the minimum charge, and the two fields
    of the frame meter it wraps. *)
Record WeightMeter : Type := mkWeightMeter {
  minimum_charge : Weight;
  consumed_weight : Weight;
  weight_limit : Weight;
}.
#[global] Instance eta_WeightMeter : Eta WeightMeter := λ r,
  mkWeightMeter (minimum_charge r) (consumed_weight r) (weight_limit r).

Definition zero_weight : Weight := mkWeight 0 0.
(** [Weight::MAX]. *)
Definition max_weight : Weight := mkWeight u64_max u64_max.
Definition max_limit_no_minimum : WeightMeter :=
  mkWeightMeter zero_weight zero_weight max_weight.

(** [WeightMeter::from_limit]; the error is a string the callers drop. *)
Definition from_limit (min_charge limit : Weight) : option WeightMeter :=
  if bool_decide (ref_time limit < ref_time min_charge) then None
  else Some (mkWeightMeter min_charge zero_weight limit).
(** [WeightMeter::consumed]. *)
Definition consumed (m : WeightMeter) : Weight :=
  if bool_decide (ref_time (consumed_weight m) < ref_time (minimum_charge m))
  then minimum_charge m else consumed_weight m.

(* ------------------------------------------------------------------ *)
(** * Errors *)

Inductive PortfolioError : Type :=
  | PortfolioDoesNotExist | InsufficientPortfolioBalance | DestinationIsSamePortfolio
  | PortfolioNameAlreadyInUse | SecondaryKeyNotAuthorizedForPortfolio
  | UnauthorizedCustodian | InsufficientTokensLocked | PortfolioNotEmpty
  | DifferentIdentityPortfolios | NoDuplicateAssetsAllowed | NFTNotFoundInPortfolio
  | NFTAlreadyLocked | NFTNotLocked | InvalidTransferNFTNotOwned
  | InvalidTransferNFTIsLocked | EmptyTransfer | MissingOwnersPermission.

Inductive AssetError : Type :=
  | AssetUnauthorized | AssetAlreadyCreated | TickerTooLong | TickerAlreadyRegistered
  | TotalSupplyAboveLimit | NoSuchAsset | AlreadyFrozen | BalanceOverflow
  | TotalSupplyOverflow | InvalidGranularity | NotFrozen | InvalidTransfer
  | InsufficientBalance | AssetAlreadyDivisible | TickerRegistrationExpired
  | SenderSameAsReceiver | MaxLengthOfAssetNameExceeded
  | FundingRoundNameMaxLengthExceeded | InvalidAssetIdentifier
  | InvalidCustomAssetTypeId | TickerFirstByteNotValid | UnexpectedNonFungibleToken
  | IncompatibleAssetTypeUpdate | NumberOfAssetMediatorsExceeded
  | InvalidTickerCharacter | NoSuchDoc | AssetMetadataNameMaxLengthExceeded
  | AssetMetadataValueMaxLengthExceeded | AssetMetadataTypeDefMaxLengthExceeded
  | AssetMetadataKeyIsMissing | AssetMetadataValueIsLocked
  | AssetMetadataLocalKeyAlreadyExists | AssetMetadataGlobalKeyAlreadyExists
  | AssetMetadataKeyBelongsToNFTCollection | AssetMetadataValueIsEmpty.

Inductive NftError : Type :=
  | NftBalanceOverflow | NftBalanceUnderflow | CollectionNotFound | DuplicatedNFTId
  | InvalidNFTTransferCollectionNotFound | InvalidNFTTransferSamePortfolio
  | InvalidNFTTransferNFTNotOwned | InvalidNFTTransferCountOverflow
  | InvalidNFTTransferComplianceFailure | InvalidNFTTransferFrozenAsset
  | InvalidNFTTransferInsufficientCount | MaxNumberOfNFTsPerLegExceeded | NFTNotFound
  | ZeroCount | SupplyOverflow | SupplyUnderflow | InvalidNFTTransferNFTIsLocked
  | InvalidMetadataAttribute | DuplicateMetadataKey | CollectionAlredyRegistered
  | InvalidAssetType | MaxNumberOfKeysExceeded | UnregisteredMetadataKey.

Inductive SettlementError : Type :=
  | InvalidVenue | Unauthorized | InstructionNotAffirmed | UnauthorizedSigner
  | ReceiptAlreadyClaimed | UnauthorizedVenue | InstructionDatesInvalid
  | InstructionSettleBlockPassed | InvalidSignature | SameSenderReceiver
  | SettleOnPastBlock | UnexpectedAffirmationStatus | FailedToSchedule
  | UnknownInstruction | SignerAlreadyExists | SignerDoesNotExist | ZeroAmount
  | InstructionSettleBlockNotReached | CallerIsNotAParty | MaxNumberOfNFTsExceeded
  | NumberOfTransferredNFTsUnderestimated | ReceiptForInvalidLegType
  | WeightLimitExceeded | MaxNumberOfFungibleAssetsExceeded
  | MaxNumberOfOffChainAssetsExceeded | NumberOfFungibleTransfersUnderestimated
  | UnexpectedOFFChainAsset | OffChainAssetCantBeLocked
  | NumberOfOffChainTransfersUnderestimated | LegNotFound | InputWeightIsLessThanMinimum
  | MaxNumberOfReceiptsExceeded | NotAllAffirmationsHaveBeenReceived
  | InvalidInstructionStatusForExecution | FailedToReleaseLockOrTransferAssets
  | DuplicateReceiptUid | ReceiptInstructionIdMissmatch | MultipleReceiptsForOneLeg
  | UnexpectedLegStatus | NumberOfVenueSignersExceeded | CallerIsNotAMediator
  | InvalidExpiryDate | MediatorAffirmationExpired.

Inductive AgentsError : Type :=
  | NoSuchAG | UnauthorizedAgent | AlreadyAnAgent | NotAnAgent | RemovingLastFullAgent
  | SecondaryKeyNotAuthorizedForAsset.

Inductive AuthorizationError : Type := AuthInvalid | AuthUnauthorized | AuthExpired | AuthBadType.

Inductive IdentityError : Type :=
  | AlreadyLinked | MissingCurrentIdentity | IdentityUnauthorized | InvalidAccountKey
  | UnAuthorizedCddProvider | InvalidAuthorizationFromOwner
  | InvalidAuthorizationFromCddProvider | NotCddProviderAttestation
  | AuthorizationsNotForSameDids | DidMustAlreadyExist | AuthorizationExpired
  | TargetHasNoCdd | AuthorizationHasBeenRevoked | InvalidAuthorizationSignature
  | KeyNotAllowed | NotPrimaryKey | DidDoesNotExist | DidAlreadyExists
  | SecondaryKeysContainPrimaryKey | FailedToChargeFee | NotASigner
  | CannotDecodeSignerAccountId | MultiSigHasBalance | AccountKeyIsBeingUsed
  | CustomScopeTooLong | CustomClaimTypeAlreadyExists | CustomClaimTypeDoesNotExist
  | ClaimDoesNotExist | IsChildIdentity | NoParentIdentity | NotParentOrChildIdentity
  | DuplicateKey | ExceptNotAllowedForExtrinsics.

Inductive ComplianceError : Type :=
  | ComplianceUnauthorized | DidNotExist | InvalidComplianceRequirementId
  | IncorrectOperationOnTrustedIssuer | DuplicateComplianceRequirements
  | ComplianceRequirementTooComplex | ComplianceWeightLimitExceeded.

Inductive StatisticsError : Type :=
  | StatInvalidTransfer | StatTypeMissing | StatTypeNeededByTransferCondition
  | CannotRemoveStatTypeInUse | StatTypeLimitReached | TransferConditionLimitReached
  | StatWeightLimitExceeded.

Inductive GroupError : Type :=
  | OnlyPrimaryKeyAllowed | DuplicateMember | NoSuchMember | LastMemberCannotQuit
  | GroupMissingCurrentIdentity | ActiveMembersLimitExceeded | ActiveMembersLimitOverflow.

Inductive CommitteeError : Type :=
  | DuplicateVote | NotAMember | NoSuchProposal | ProposalExpired | DuplicateProposal
  | MismatchedVotingIndex | InvalidProportion | FirstVoteReject | ProposalsLimitReached.

Inductive StoError : Type :=
  | StoOverflow | InsufficientTokensRemaining | FundraiserNotFound | FundraiserNotLive
  | FundraiserIsClosed | FundraiserExpired | StoInvalidVenue | InvalidPriceTiers
  | InvalidOfferingWindow | MaxPriceExceeded | InvestmentAmountTooLow.

Inductive CorporateError : Type :=
  | DetailsTooLong | DuplicateDidTax | TooManyDidTaxes | TooManyTargetIds
  | NoSuchCheckpointId | NoSuchCA | NoRecordDate | RecordDateAfterStart
  | DeclDateAfterRecordDate | DeclDateInFuture | NotTargetedByCA.

Inductive DistributionError : Type :=
  | CANotBenefit | DistributionAlreadyExists | ExpiryBeforePayment | HolderAlreadyPaid
  | NoSuchDistribution | CannotClaimBeforeStart | CannotClaimAfterExpiry
  | BalancePerShareProductOverflowed | NotDistributionCreator | AlreadyReclaimed
  | NotExpired | DistributionStarted | InsufficientRemainingAmount
  | DistributionAmountIsZero | DistributionPerShareIsZero.

Inductive BallotError : Type :=
  | CANotNotice | BallotAlreadyExists | NoSuchBallot | StartAfterEnd | NowAfterEnd
  | NumberOfChoicesOverflow | VotingAlreadyStarted | VotingNotStarted
  | VotingAlreadyEnded | WrongVoteCount | InsufficientVotes | NoSuchRCVFallback
  | RCVSelfCycle | RCVNotAllowed.

Inductive CheckpointError : Type :=
  | NoSuchSchedule | ScheduleNotRemovable | SchedulesOverMaxComplexity | ScheduleIsEmpty
  | ScheduleFinished | ScheduleHasExpiredCheckpoints.

Inductive BaseError : Type := TooLong | CounterOverflow.

Inductive PipsError : Type :=
  | RescheduleNotByReleaseCoordinator | NotFromCommunity | NotByCommittee | TooManyActivePips
  | IncorrectDeposit | InsufficientDeposit | NoSuchPip | NotACommitteeMember
  | InvalidFutureBlockNumber | NumberOfVotesExceeded | StakeAmountOfVotesExceeded
  | PipsMissingCurrentIdentity | IncorrectProposalState | CannotSkipPip | SnapshotResultTooLarge
  | SnapshotIdMismatch | ScheduledProposalDoesntExist | ProposalNotInScheduledState.

Inductive BalancesError : Type :=
  | LiquidityRestrictions | BalancesOverflow | BalancesInsufficientBalance | ExistentialDeposit
  | ReceiverCddMissing.

Inductive UtilityError : Type :=
  | TooManyCalls | UtilityInvalidSignature | TargetCddMissing | InvalidNonce
  | UnableToDeriveAccountId.

Inductive DispatchError : Type :=
  | BadOrigin
  (* frame_system: the filter of the origin refuses the call *)
  | CallFiltered
  | EBase (e : BaseError)
  | EPermissions_UnauthorizedCaller
  | EIdentity (e : IdentityError)
  | EAuth (e : AuthorizationError)
  | EAgents (e : AgentsError)
  | EPortfolio (e : PortfolioError)
  | EAsset (e : AssetError)
  | ECheckpoint (e : CheckpointError)
  | ENft (e : NftError)
  | ESettlement (e : SettlementError)
  | ECompliance (e : ComplianceError)
  | EStatistics (e : StatisticsError)
  | EGroup (e : GroupError)
  | ECommittee (e : CommitteeError)
  | ESto (e : StoError)
  | ECorporate (e : CorporateError)
  | EDistribution (e : DistributionError)
  | EBallot (e : BallotError)
  | EPips (e : PipsError)
  | EBalances (e : BalancesError)
  | EUtility (e : UtilityError)
  | EOther (n : N)
  (* the outcome of a call that panics: nothing of it is kept *)
  | EPanic.

(* ------------------------------------------------------------------ *)
(** * Groups and committees *)

(** The instances of the group pallet, and of the committees they manage. *)
Inductive CommitteeInstance : Type :=
  | PolymeshCommittee | TechnicalCommittee | UpgradeCommittee.
Inductive GroupInstance : Type :=
  | CddServiceProviders
  | CommitteeMembership (c : CommitteeInstance).

#[global] Instance CommitteeInstance_eq_dec : EqDecision CommitteeInstance.
Proof. solve_decision. Defined.
#[global] Instance CommitteeInstance_countable : Countable CommitteeInstance.
Proof.
  refine (inj_countable'
    (λ c, match c with PolymeshCommittee => 0 | TechnicalCommittee => 1 | UpgradeCommittee => 2 end)
    (λ n, match n with 0 => PolymeshCommittee | 1 => TechnicalCommittee | _ => UpgradeCommittee end)
    _).
  by intros [].
Defined.
#[global] Instance GroupInstance_eq_dec : EqDecision GroupInstance.
Proof. solve_decision. Defined.
#[global] Instance GroupInstance_countable : Countable GroupInstance.
Proof.
  refine (inj_countable'
    (λ g, match g with CddServiceProviders => None | CommitteeMembership c => Some c end)
    (λ o, match o with None => CddServiceProviders | Some c => CommitteeMembership c end) _).
  by intros [].
Defined.

(** The origin of a dispatched call; [Endorsed] is the origin a committee gives
    the proposals it passes. *)
Inductive Origin : Type :=
  | Root | Signed (who : AccountId) | Unsigned | Endorsed (c : CommitteeInstance).

(** A proposal is a call the committee pallet does not look into; [ProposalHash]
    is its hash. *)
Notation Proposal := N (only parsing).
Notation ProposalHash := N (only parsing).
(** [MaybeBlock]. *)
Notation MaybeBlock := (option N) (only parsing).

(* ------------------------------------------------------------------ *)
(** * Events *)

Inductive Event : Type :=
  (* Identity *)
  | AuthorizationAdded (from : IdentityId) (tid : option IdentityId)
      (tacc : option AccountId) (id : N) (data : AuthorizationData)
      (expiry : option Moment)
  | AuthorizationRevoked (tid : option IdentityId) (tacc : option AccountId) (id : N)
  | AuthorizationRejected (tid : option IdentityId) (tacc : option AccountId) (id : N)
  | AuthorizationConsumed (tid : option IdentityId) (tacc : option AccountId) (id : N)
  | AuthorizationRetryLimitReached (tid : option IdentityId) (tacc : option AccountId)
      (id : N)
  | DidCreated (d : IdentityId) (primary : AccountId) (l : list SecondaryKey)
  | SecondaryKeysAdded (d : IdentityId) (l : list SecondaryKey)
  | SecondaryKeysRemoved (d : IdentityId) (l : list AccountId)
  | SecondaryKeyLeftIdentity (d : IdentityId) (k : AccountId)
  | SecondaryKeyPermissionsUpdated (d : IdentityId) (k : AccountId) (old new : Permissions)
  | PrimaryKeyUpdated (d : IdentityId) (old new : AccountId)
  | ClaimAdded (d : IdentityId) (c : IdentityClaim)
  | ClaimRevoked (d : IdentityId) (c : IdentityClaim)
  | AssetDidRegistered (d : IdentityId) (t : Ticker)
  | CddRequirementForPrimaryKeyUpdated (b : bool)
  | CddClaimsInvalidated (d : IdentityId) (from : Moment)
  | SecondaryKeysFrozen (d : IdentityId)
  | SecondaryKeysUnfrozen (d : IdentityId)
  | CustomClaimTypeAdded (d : IdentityId) (id : CustomClaimTypeId) (ty : list N)
  | ChildDidCreated (parent child : IdentityId) (k : AccountId)
  | ChildDidUnlinked (caller parent child : IdentityId)
  (* ExternalAgents *)
  | GroupCreated (d : IdentityId) (t : Ticker) (id : AGId) (p : ExtrinsicPermissions)
  | GroupPermissionsUpdated (d : IdentityId) (t : Ticker) (id : AGId) (p : ExtrinsicPermissions)
  | AgentAdded (d : IdentityId) (t : Ticker) (g : AgentGroup)
  | AgentRemoved (d : IdentityId) (t : Ticker) (agent : IdentityId)
  | GroupChanged (d : IdentityId) (t : Ticker) (agent : IdentityId) (g : AgentGroup)
  (* Portfolio *)
  | PortfolioCreated (d : IdentityId) (num : PortfolioNumber) (name : PortfolioName)
  | PortfolioDeleted (d : IdentityId) (num : PortfolioNumber)
  | PortfolioRenamed (d : IdentityId) (num : PortfolioNumber) (name : PortfolioName)
  | PortfolioCustodianChanged (d : IdentityId) (p : PortfolioId) (c : IdentityId)
  | FundsMovedBetweenPortfolios (d : IdentityId) (from to : PortfolioId)
      (f : FundDescription) (memo : option Memo)
  | PreApprovedPortfolio (d : IdentityId) (p : PortfolioId) (t : Ticker)
  | RevokePreApprovedPortfolio (d : IdentityId) (p : PortfolioId) (t : Ticker)
  (* Checkpoint *)
  | CheckpointCreated (d : option IdentityId) (t : Ticker) (id : CheckpointId)
      (supply : Balance) (at_ : Moment)
  | MaximumSchedulesComplexityChanged (max : N)
  | ScheduleCreated (d : IdentityId) (t : Ticker) (id : ScheduleId) (s : ScheduleCheckpoints)
  | ScheduleRemoved (d : IdentityId) (t : Ticker) (id : ScheduleId) (s : ScheduleCheckpoints)
  (* Asset *)
  | TickerRegistered (d : IdentityId) (t : Ticker) (expiry : option Moment)
  | TickerTransferred (to : IdentityId) (t : Ticker) (from : IdentityId)
  | AssetOwnershipTransferred (to : IdentityId) (t : Ticker) (from : IdentityId)
  | AssetCreated (d : IdentityId) (t : Ticker) (div : bool) (ty : AssetType)
      (beneficiary : IdentityId) (name : AssetName) (l : list AssetIdentifier)
      (round : option FundingRoundName)
  | FundingRoundSet (d : IdentityId) (t : Ticker) (name : FundingRoundName)
  | CustomAssetTypeExists (d : IdentityId) (id : CustomAssetTypeId) (ty : list N)
  | CustomAssetTypeRegistered (d : IdentityId) (id : CustomAssetTypeId) (ty : list N)
  | IdentifiersUpdated (d : IdentityId) (t : Ticker) (l : list AssetIdentifier)
  | AssetFrozen (d : IdentityId) (t : Ticker)
  | AssetUnfrozen (d : IdentityId) (t : Ticker)
  | AssetRenamed (d : IdentityId) (t : Ticker) (name : AssetName)
  | DivisibilityChanged (d : IdentityId) (t : Ticker) (b : bool)
  | AssetTypeChanged (d : IdentityId) (t : Ticker) (ty : AssetType)
  | AssetBalanceUpdated (d : IdentityId) (t : Ticker) (value : Balance)
      (from to : option PortfolioId) (reason : PortfolioUpdateReason)
  | ControllerTransfer (d : IdentityId) (t : Ticker) (from : PortfolioId) (value : Balance)
  | AssetAffirmationExemption (t : Ticker)
  | RemoveAssetAffirmationExemption (t : Ticker)
  | PreApprovedAsset (d : IdentityId) (t : Ticker)
  | RemovePreApprovedAsset (d : IdentityId) (t : Ticker)
  | AssetMediatorsAdded (d : IdentityId) (t : Ticker) (l : gset IdentityId)
  | AssetMediatorsRemoved (d : IdentityId) (t : Ticker) (l : gset IdentityId)
  | DocumentAdded (d : IdentityId) (t : Ticker) (id : N) (doc : Document)
  | DocumentRemoved (d : IdentityId) (t : Ticker) (id : N)
  | SetAssetMetadataValue (d : IdentityId) (t : Ticker) (value : list N)
      (detail : option AssetMetadataValueDetail)
  | SetAssetMetadataValueDetails (d : IdentityId) (t : Ticker)
      (detail : AssetMetadataValueDetail)
  | RegisterAssetMetadataLocalType (d : IdentityId) (t : Ticker) (name : list N) (key : N)
      (spec : AssetMetadataSpec)
  | RegisterAssetMetadataGlobalType (name : list N) (key : N) (spec : AssetMetadataSpec)
  | LocalMetadataKeyDeleted (d : IdentityId) (t : Ticker) (key : N)
  | MetadataValueDeleted (d : IdentityId) (t : Ticker) (key : AssetMetadataKey)
  (* Nft *)
  | NftCollectionCreated (d : IdentityId) (t : Ticker) (id : NFTCollectionId)
  | NFTPortfolioUpdated (d : IdentityId) (nfts : NFTs) (from to : option PortfolioId)
      (reason : PortfolioUpdateReason)
  (* Settlement *)
  | VenueCreated (d : IdentityId) (id : VenueId) (details : list N) (typ : VenueType)
  | VenueDetailsUpdated (d : IdentityId) (id : VenueId) (details : list N)
  | VenueTypeUpdated (d : IdentityId) (id : VenueId) (typ : VenueType)
  | VenueSignersUpdated (d : IdentityId) (id : VenueId) (l : list AccountId) (add : bool)
  | VenueFilteringSet (d : IdentityId) (t : Ticker) (b : bool)
  | VenuesAllowed (d : IdentityId) (t : Ticker) (l : list VenueId)
  | VenuesBlocked (d : IdentityId) (t : Ticker) (l : list VenueId)
  | InstructionCreated (d : IdentityId) (v : VenueId) (id : InstructionId)
      (st : SettlementType) (trade value : option Moment) (legs : list Leg)
      (memo : option Memo)
  | InstructionAutomaticallyAffirmed (d : IdentityId) (p : PortfolioId) (id : InstructionId)
  | InstructionAffirmed (d : IdentityId) (p : PortfolioId) (id : InstructionId)
  | AffirmationWithdrawn (d : IdentityId) (p : PortfolioId) (id : InstructionId)
  | ReceiptClaimed (d : IdentityId) (id : InstructionId) (leg : LegId) (uid : N)
      (signer : AccountId) (meta : option N)
  | InstructionRejected (d : IdentityId) (id : InstructionId)
  | InstructionExecuted (d : IdentityId) (id : InstructionId)
  | InstructionFailed (d : IdentityId) (id : InstructionId)
  | LegFailedExecution (d : IdentityId) (id : InstructionId) (leg : LegId)
  | FailedToExecuteInstruction (id : InstructionId) (e : DispatchError)
  | SettlementManuallyExecuted (d : IdentityId) (id : InstructionId)
  | SchedulingFailed (e : DispatchError)
  | MediatorAffirmationReceived (d : IdentityId) (id : InstructionId) (expiry : option Moment)
  | MediatorAffirmationWithdrawn (d : IdentityId) (id : InstructionId)
  (* ComplianceManager *)
  | ComplianceRequirementCreated (d : IdentityId) (t : Ticker) (r : ComplianceRequirement)
  | ComplianceRequirementRemoved (d : IdentityId) (t : Ticker) (id : N)
  | AssetComplianceReplaced (d : IdentityId) (t : Ticker) (l : list ComplianceRequirement)
  | AssetComplianceReset (d : IdentityId) (t : Ticker)
  | AssetComplianceResumed (d : IdentityId) (t : Ticker)
  | AssetCompliancePaused (d : IdentityId) (t : Ticker)
  | ComplianceRequirementChanged (d : IdentityId) (t : Ticker) (r : ComplianceRequirement)
  | TrustedDefaultClaimIssuerAdded (d : IdentityId) (t : Ticker) (i : TrustedIssuer)
  | TrustedDefaultClaimIssuerRemoved (d : IdentityId) (t : Ticker) (i : IdentityId)
  (* Statistics *)
  | StatTypesAdded (d : IdentityId) (a : AssetScope) (l : list StatType)
  | StatTypesRemoved (d : IdentityId) (a : AssetScope) (l : list StatType)
  | AssetStatsUpdated (d : IdentityId) (a : AssetScope) (s : StatType) (l : list StatUpdate)
  | SetAssetTransferCompliance (d : IdentityId) (a : AssetScope) (l : list TransferCondition)
  | TransferConditionExemptionsAdded (d : IdentityId) (k : TransferConditionExemptKey)
      (l : list IdentityId)
  | TransferConditionExemptionsRemoved (d : IdentityId) (k : TransferConditionExemptKey)
      (l : list IdentityId)
  (* Group *)
  | MemberAdded (d who : IdentityId)
  | MemberRemoved (d who : IdentityId)
  | MemberRevoked (d who : IdentityId)
  | MembersSwapped (d old new : IdentityId)
  | MembersReset (d : IdentityId) (l : list IdentityId)
  | ActiveLimitChanged (d : IdentityId) (new old : N)
  (* Committee *)
  | Proposed (d : IdentityId) (index : N) (h : ProposalHash)
  | Voted (d : IdentityId) (index : N) (h : ProposalHash) (vote : bool) (yes no seats : N)
  | VoteRetracted (d : IdentityId) (index : N) (h : ProposalHash) (vote : bool)
  | FinalVotes (d : IdentityId) (index : N) (h : ProposalHash) (ayes nays : list IdentityId)
  | Approved (d : IdentityId) (h : ProposalHash) (yes no seats : N)
  | ProposalRejected (d : IdentityId) (h : ProposalHash) (yes no seats : N)
  | Executed (d : IdentityId) (h : ProposalHash) (r : result DispatchError unit)
  | ReleaseCoordinatorUpdated (d : IdentityId) (id : option IdentityId)
  | ExpiresAfterUpdated (d : IdentityId) (b : MaybeBlock)
  | VoteThresholdUpdated (d : IdentityId) (n d' : N)
  (* Sto *)
  | FundraiserCreated (d : IdentityId) (id : FundraiserId) (name : FundraiserName)
      (f : Fundraiser)
  | Invested (d : IdentityId) (id : FundraiserId) (offering raising : Ticker)
      (offering_amount raising_amount : Balance)
  | FundraiserFrozen (d : IdentityId) (id : FundraiserId)
  | FundraiserUnfrozen (d : IdentityId) (id : FundraiserId)
  | FundraiserWindowModified (d : IdentityId) (id : FundraiserId) (old_start : Moment)
      (old_end : option Moment) (new_start : Moment) (new_end : option Moment)
  | FundraiserClosed (d : IdentityId) (id : FundraiserId)
  (* CorporateAction *)
  | MaxDetailsLengthChanged (d : IdentityId) (n : N)
  | DefaultTargetIdentitiesChanged (d : IdentityId) (t : Ticker) (targets : TargetIdentities)
  | DefaultWithholdingTaxChanged (d : IdentityId) (t : Ticker) (tax : Tax)
  | DidWithholdingTaxChanged (d : IdentityId) (t : Ticker) (taxed : IdentityId)
      (tax : option Tax)
  | CAInitiated (d : IdentityId) (id : CAId) (ca : CorporateAction) (details : CADetails)
  | CALinkedToDoc (d : IdentityId) (id : CAId) (docs : list DocumentId)
  | CARemoved (d : IdentityId) (id : CAId)
  | RecordDateChanged (d : IdentityId) (id : CAId) (ca : CorporateAction)
  (* CapitalDistribution *)
  | DistributionCreated (d : IdentityId) (id : CAId) (dist : Distribution)
  | BenefitClaimed (d holder : IdentityId) (id : CAId) (dist : Distribution)
      (benefit : Balance) (tax : Tax)
  | Reclaimed (d : IdentityId) (id : CAId) (amount : Balance)
  | DistributionRemoved (d : IdentityId) (id : CAId)
  (* CorporateBallot *)
  | BallotCreated (d : IdentityId) (id : CAId) (range : BallotTimeRange) (meta : BallotMeta)
      (rcv : bool)
  | VoteCast (d : IdentityId) (id : CAId) (votes : list BallotVote)
  | RangeChanged (d : IdentityId) (id : CAId) (range : BallotTimeRange)
  | MetaChanged (d : IdentityId) (id : CAId) (meta : BallotMeta)
  | RCVChanged (d : IdentityId) (id : CAId) (rcv : bool)
  | BallotRemoved (d : IdentityId) (id : CAId)
  (* Improvement proposals *)
  | HistoricalPipsPruned (d : IdentityId) (old new : bool)
  | ProposalCreated (d : IdentityId) (p : Proposer) (id : PipId) (deposit : Balance)
      (url : option Url) (description : option PipDescription) (expiry : MaybeBlock)
      (data : ProposalData)
  | ProposalStateUpdated (d : IdentityId) (id : PipId) (st : ProposalState)
  | PipVoted (d : IdentityId) (who : AccountId) (id : PipId) (aye : bool) (stake : Balance)
  | PipClosed (d : IdentityId) (id : PipId) (pruned : bool)
  | ExecutionScheduled (d : IdentityId) (id : PipId) (at_ : BlockNumber)
  | DefaultEnactmentPeriodChanged (d : IdentityId) (old new : BlockNumber)
  | MinimumProposalDepositChanged (d : IdentityId) (old new : Balance)
  | PendingPipExpiryChanged (d : IdentityId) (old new : MaybeBlock)
  | MaxPipSkipCountChanged (d : IdentityId) (old new : SkippedCount)
  | ActivePipLimitChanged (d : IdentityId) (old new : N)
  | ProposalRefund (d : IdentityId) (id : PipId) (total : Balance)
  | SnapshotCleared (d : IdentityId) (id : SnapshotId)
  | SnapshotTaken (d : IdentityId) (id : SnapshotId) (queue : list SnapshottedPip)
  | PipSkipped (d : IdentityId) (id : PipId) (count : SkippedCount)
  | SnapshotResultsEnacted (d : IdentityId) (snapshot : option SnapshotId)
      (skipped : list (PipId * SkippedCount)) (rejected approved : list PipId)
  | ExecutionSchedulingFailed (d : IdentityId) (id : PipId) (at_ : BlockNumber)
  | ExpiryScheduled (d : IdentityId) (id : PipId) (at_ : BlockNumber)
  | ExpirySchedulingFailed (d : IdentityId) (id : PipId) (at_ : BlockNumber)
  | ExecutionCancellingFailed (id : PipId)
  (* Utility: [EventCounts] and [ErrorAt] are the vectors of the older batches *)
  | BatchInterrupted (index : N) (error : DispatchError)
  | BatchCompleted
  | BatchCompletedWithErrors
  | ItemCompleted
  | ItemFailed (error : DispatchError)
  | DispatchedAs (r : result DispatchError unit)
  | RelayedTx (caller_did : IdentityId) (target : AccountId) (r : result DispatchError unit)
  | BatchInterruptedOld (counts : list N) (error_at : N * DispatchError)
  | BatchOptimisticFailed (counts : list N) (errors : list (N * DispatchError))
  | BatchCompletedOld (counts : list N).

(* ------------------------------------------------------------------ *)
(** * Storage *)

(** src/pallets/permissions and src/pallets/identity. *)
Record IdentityStore : Type := mkIdentityStore {
  CurrentPalletName : PalletName;
  CurrentDispatchableName : DispatchableName;
  CurrentDid : option IdentityId;
  CurrentPayer : option AccountId;
  KeyRecords : gmap AccountId KeyRecord;
  IsDidFrozen : gmap IdentityId bool;
  Authorizations : gmap (Signatory * N) Authorization;
  AuthorizationsGiven : gmap (IdentityId * N) Signatory;
  MultiPurposeNonce : N;
}.
#[global] Instance eta_IdentityStore : Eta IdentityStore := λ r,
  mkIdentityStore (CurrentPalletName r) (CurrentDispatchableName r) (CurrentDid r)
    (CurrentPayer r) (KeyRecords r) (IsDidFrozen r) (Authorizations r) (AuthorizationsGiven r)
    (MultiPurposeNonce r).

(** src/pallets/external-agents. *)
Record AgentsStore : Type := mkAgentsStore {
  AGIdSequence : gmap Ticker AGId;
  AgentOf : gset (IdentityId * Ticker);
  GroupOfAgent : gmap (Ticker * IdentityId) AgentGroup;
  NumFullAgents : gmap Ticker N;
  GroupPermissions : gmap (Ticker * AGId) ExtrinsicPermissions;
}.
#[global] Instance eta_AgentsStore : Eta AgentsStore := λ r,
  mkAgentsStore (AGIdSequence r) (AgentOf r) (GroupOfAgent r) (NumFullAgents r)
    (GroupPermissions r).

(** src/pallets/portfolio. *)
Record PortfolioStore : Type := mkPortfolioStore {
  NextPortfolioNumber : gmap IdentityId PortfolioNumber;
  Portfolios : gmap (IdentityId * PortfolioNumber) PortfolioName;
  NameToNumber : gmap (IdentityId * PortfolioName) PortfolioNumber;
  PortfolioAssetCount : gmap PortfolioId N;
  PortfolioAssetBalances : gmap (PortfolioId * Ticker) Balance;
  PortfolioLockedAssets : gmap (PortfolioId * Ticker) Balance;
  PortfolioCustodian : gmap PortfolioId IdentityId;
  PortfoliosInCustody : gmap (IdentityId * PortfolioId) bool;
  PortfolioNFT : gmap (PortfolioId * (Ticker * NFTId)) bool;
  PortfolioLockedNFT : gmap (PortfolioId * (Ticker * NFTId)) bool;
  PreApprovedPortfolios : gmap (PortfolioId * Ticker) bool;
  AllowedCustodians : gmap (IdentityId * IdentityId) bool;
}.
#[global] Instance eta_PortfolioStore : Eta PortfolioStore := λ r,
  mkPortfolioStore (NextPortfolioNumber r) (Portfolios r) (NameToNumber r)
    (PortfolioAssetCount r) (PortfolioAssetBalances r) (PortfolioLockedAssets r)
    (PortfolioCustodian r) (PortfoliosInCustody r) (PortfolioNFT r)
    (PortfolioLockedNFT r) (PreApprovedPortfolios r) (AllowedCustodians r).

(** src/pallets/asset/src/checkpoint. *)
Record CheckpointStore : Type := mkCheckpointStore {
  TotalSupply : gmap (Ticker * CheckpointId) Balance;
  CheckpointBalance : gmap ((Ticker * CheckpointId) * IdentityId) Balance;
  CheckpointIdSequence : gmap Ticker CheckpointId;
  BalanceUpdates : gmap (Ticker * IdentityId) (list CheckpointId);
  Timestamps : gmap (Ticker * CheckpointId) Moment;
  SchedulesMaxComplexity : N;
  ScheduleIdSequence : gmap Ticker ScheduleId;
  CachedNextCheckpoints : gmap Ticker NextCheckpoints;
  ScheduledCheckpoints : gmap (Ticker * ScheduleId) ScheduleCheckpoints;
  ScheduleRefCount : gmap (Ticker * ScheduleId) N;
  SchedulePoints : gmap (Ticker * ScheduleId) (list CheckpointId);
}.
#[global] Instance eta_CheckpointStore : Eta CheckpointStore := λ r,
  mkCheckpointStore (TotalSupply r) (CheckpointBalance r) (CheckpointIdSequence r)
    (BalanceUpdates r) (Timestamps r) (SchedulesMaxComplexity r) (ScheduleIdSequence r)
    (CachedNextCheckpoints r) (ScheduledCheckpoints r) (ScheduleRefCount r)
    (SchedulePoints r).

(** src/pallets/asset. *)
Record AssetStore : Type := mkAssetStore {
  Tickers : gmap Ticker TickerRegistration;
  TickerConfig : TickerRegistrationConfig;
  Tokens : gmap Ticker SecurityToken;
  AssetNames : gmap Ticker AssetName;
  BalanceOf : gmap (Ticker * IdentityId) Balance;
  Identifiers : gmap Ticker (list AssetIdentifier);
  CustomTypeIdSequence : CustomAssetTypeId;
  CustomTypes : gmap CustomAssetTypeId (list N);
  CustomTypesInverse : gmap (list N) CustomAssetTypeId;
  FundingRound : gmap Ticker FundingRoundName;
  IssuedInFundingRound : gmap (Ticker * FundingRoundName) Balance;
  Frozen : gmap Ticker bool;
  AssetOwnershipRelations : gmap (IdentityId * Ticker) AssetOwnershipRelation;
  AssetDocuments : gmap (Ticker * N) Document;
  AssetDocumentsIdSequence : gmap Ticker N;
  AssetMetadataValues : gmap (Ticker * AssetMetadataKey) (list N);
  AssetMetadataValueDetails : gmap (Ticker * AssetMetadataKey) AssetMetadataValueDetail;
  AssetMetadataLocalNameToKey : gmap (Ticker * list N) N;
  AssetMetadataGlobalNameToKey : gmap (list N) N;
  AssetMetadataLocalKeyToName : gmap (Ticker * N) (list N);
  AssetMetadataGlobalKeyToName : gmap N (list N);
  AssetMetadataLocalSpecs : gmap (Ticker * N) AssetMetadataSpec;
  AssetMetadataGlobalSpecs : gmap N AssetMetadataSpec;
  AssetMetadataNextLocalKey : gmap Ticker N;
  AssetMetadataNextGlobalKey : N;
  TickersExemptFromAffirmation : gmap Ticker bool;
  PreApprovedTicker : gmap (IdentityId * Ticker) bool;
  MandatoryMediators : gmap Ticker (gset IdentityId);
}.
#[global] Instance eta_AssetStore : Eta AssetStore := λ r,
  mkAssetStore (Tickers r) (TickerConfig r) (Tokens r) (AssetNames r) (BalanceOf r)
    (Identifiers r) (CustomTypeIdSequence r) (CustomTypes r) (CustomTypesInverse r) (FundingRound r) (IssuedInFundingRound r) (Frozen r)
    (AssetOwnershipRelations r) (AssetDocuments r) (AssetDocumentsIdSequence r)
    (AssetMetadataValues r) (AssetMetadataValueDetails r) (AssetMetadataLocalNameToKey r)
    (AssetMetadataGlobalNameToKey r) (AssetMetadataLocalKeyToName r)
    (AssetMetadataGlobalKeyToName r) (AssetMetadataLocalSpecs r) (AssetMetadataGlobalSpecs r)
    (AssetMetadataNextLocalKey r) (AssetMetadataNextGlobalKey r)
    (TickersExemptFromAffirmation r) (PreApprovedTicker r)
    (MandatoryMediators r).

(** src/pallets/nft. *)
Record NftStore : Type := mkNftStore {
  NumberOfNFTs : gmap (Ticker * IdentityId) N;
  CollectionTicker : gmap Ticker NFTCollectionId;
  Collection : gmap NFTCollectionId NFTCollection;
  CollectionKeys : gmap NFTCollectionId (gset AssetMetadataKey);
  MetadataValue : gmap ((NFTCollectionId * NFTId) * AssetMetadataKey) (list N);
  NextCollectionId : NFTCollectionId;
  NextNFTId : gmap NFTCollectionId NFTId;
  NFTsInCollection : gmap Ticker N;
  NFTOwner : gmap (Ticker * NFTId) PortfolioId;
}.
#[global] Instance eta_NftStore : Eta NftStore := λ r,
  mkNftStore (NumberOfNFTs r) (CollectionTicker r) (Collection r) (CollectionKeys r)
    (MetadataValue r) (NextCollectionId r) (NextNFTId r) (NFTsInCollection r) (NFTOwner r).

(** src/pallets/settlement. *)
Record SettlementStore : Type := mkSettlementStore {
  VenueInfo : gmap VenueId Venue;
  Details : gmap VenueId (list N);
  VenueInstructions : gset (VenueId * InstructionId);
  VenueSigners : gmap (VenueId * AccountId) bool;
  UserVenues : gset (IdentityId * VenueId);
  InstructionDetails : gmap InstructionId Instruction;
  InstructionLegStatus : gmap (InstructionId * LegId) LegStatus;
  InstructionAffirmsPending : gmap InstructionId N;
  AffirmsReceived : gmap (InstructionId * PortfolioId) AffirmationStatus;
  UserAffirmations : gmap (PortfolioId * InstructionId) AffirmationStatus;
  ReceiptsUsed : gmap (AccountId * N) bool;
  VenueFiltering : gmap Ticker bool;
  VenueAllowList : gmap (Ticker * VenueId) bool;
  VenueCounter : VenueId;
  InstructionCounter : InstructionId;
  InstructionMemos : gmap InstructionId Memo;
  InstructionStatuses : gmap InstructionId InstructionStatus;
  InstructionLegs : gmap (InstructionId * LegId) Leg;
  OffChainAffirmations : gmap (InstructionId * LegId) AffirmationStatus;
  NumberOfVenueSigners : gmap VenueId N;
  InstructionMediatorsAffirmations :
    gmap (InstructionId * IdentityId) MediatorAffirmationStatus;
}.
#[global] Instance eta_SettlementStore : Eta SettlementStore := λ r,
  mkSettlementStore (VenueInfo r) (Details r) (VenueInstructions r) (VenueSigners r)
    (UserVenues r) (InstructionDetails r) (InstructionLegStatus r)
    (InstructionAffirmsPending r) (AffirmsReceived r) (UserAffirmations r)
    (ReceiptsUsed r) (VenueFiltering r) (VenueAllowList r) (VenueCounter r)
    (InstructionCounter r) (InstructionMemos r) (InstructionStatuses r)
    (InstructionLegs r) (OffChainAffirmations r) (NumberOfVenueSigners r)
    (InstructionMediatorsAffirmations r).

(** The storage of src/pallets/identity that the books above do not read:
    [DidRecord] is the optional primary key. *)
Record RecordsStore : Type := mkRecordsStore {
  DidRecords : gmap IdentityId (option AccountId);
  DidKeys : gmap (IdentityId * AccountId) bool;
  Claims : gmap (Claim1stKey * Claim2ndKey) IdentityClaim;
  CustomClaims : gmap CustomClaimTypeId (list N);
  CustomClaimsInverse : gmap (list N) CustomClaimTypeId;
  CustomClaimIdSequence : CustomClaimTypeId;
  OffChainAuthorizationNonce : gmap IdentityId N;
  CddAuthForPrimaryKeyRotation : bool;
  AccountKeyRefCount : gmap AccountId N;
  ParentDid : gmap IdentityId IdentityId;
  ChildDid : gmap (IdentityId * IdentityId) bool;
}.
#[global] Instance eta_RecordsStore : Eta RecordsStore := λ r,
  mkRecordsStore (DidRecords r) (DidKeys r) (Claims r) (CustomClaims r)
    (CustomClaimsInverse r) (CustomClaimIdSequence r) (OffChainAuthorizationNonce r)
    (CddAuthForPrimaryKeyRotation r) (AccountKeyRefCount r) (ParentDid r) (ChildDid r).

(** src/pallets/compliance-manager. *)
Record ComplianceStore : Type := mkComplianceStore {
  AssetCompliances : gmap Ticker AssetCompliance;
  TrustedClaimIssuer : gmap Ticker (list TrustedIssuer);
}.
#[global] Instance eta_ComplianceStore : Eta ComplianceStore := λ r,
  mkComplianceStore (AssetCompliances r) (TrustedClaimIssuer r).

(** src/pallets/statistics. *)
Record StatisticsStore : Type := mkStatisticsStore {
  ActiveAssetStats : gmap AssetScope (gset StatType);
  AssetStats : gmap (Stat1stKey * Stat2ndKey) N;
  AssetTransferCompliances : gmap AssetScope AssetTransferCompliance;
  TransferConditionExemptEntities : gmap (TransferConditionExemptKey * IdentityId) bool;
}.
#[global] Instance eta_StatisticsStore : Eta StatisticsStore := λ r,
  mkStatisticsStore (ActiveAssetStats r) (AssetStats r) (AssetTransferCompliances r)
    (TransferConditionExemptEntities r).

(** src/pallets/group, one instance. *)
Record InactiveMember : Type := mkInactiveMember {
  inactive_id : IdentityId;
  deactivated_at : Moment;
  inactive_expiry : option Moment;
}.
Record GroupStore : Type := mkGroupStore {
  ActiveMembers : list IdentityId;
  InactiveMembers : list InactiveMember;
  ActiveMembersLimit : N;
}.
#[global] Instance eta_GroupStore : Eta GroupStore := λ r,
  mkGroupStore (ActiveMembers r) (InactiveMembers r) (ActiveMembersLimit r).
Definition empty_group : GroupStore := mkGroupStore [] [] 0.

(** src/pallets/committee, one instance. *)
Record PolymeshVotes : Type := mkPolymeshVotes {
  votes_index : N;
  ayes : list IdentityId;
  nays : list IdentityId;
  votes_expiry : MaybeBlock;
}.
#[global] Instance eta_PolymeshVotes : Eta PolymeshVotes := λ r,
  mkPolymeshVotes (votes_index r) (ayes r) (nays r) (votes_expiry r).
Record CommitteeStore : Type := mkCommitteeStore {
  Proposals : list ProposalHash;
  ProposalOf : gmap ProposalHash Proposal;
  Voting : gmap ProposalHash PolymeshVotes;
  ProposalCount : N;
  Members : list IdentityId;
  VoteThreshold : N * N;
  ReleaseCoordinator : option IdentityId;
  ExpiresAfter : MaybeBlock;
}.
#[global] Instance eta_CommitteeStore : Eta CommitteeStore := λ r,
  mkCommitteeStore (Proposals r) (ProposalOf r) (Voting r) (ProposalCount r) (Members r)
    (VoteThreshold r) (ReleaseCoordinator r) (ExpiresAfter r).
Definition empty_committee : CommitteeStore := mkCommitteeStore [] ∅ ∅ 0 [] (0, 0) None None.

(** The storage the books reach only through calls into other pallets;
    [elsewhere] stands for the pallets that are not modelled. *)
Record OtherStores : Type := mkOtherStores {
  records : RecordsStore;
  compliance : ComplianceStore;
  statistics : StatisticsStore;
  groups : gmap GroupInstance GroupStore;
  committees : gmap CommitteeInstance CommitteeStore;
  (* [Nonces], the storage of src/pallets/utility *)
  Nonces : gmap AccountId N;
  elsewhere : N;
}.
#[global] Instance eta_OtherStores : Eta OtherStores := λ r,
  mkOtherStores (records r) (compliance r) (statistics r) (groups r) (committees r)
    (Nonces r) (elsewhere r).

(** The state of the chain while an extrinsic runs.  [meter] is the weight
    meter the extrinsic passes down by reference; it is not storage.  [agenda]
    holds the named tasks of the scheduler.  [rest] is the storage of the other
    pallets. *)
Record World : Type := mkWorld {
  block_number : BlockNumber;
  now : Moment;
  events : list Event;
  meter : WeightMeter;
  agenda : gmap InstructionId (BlockNumber * Weight);
  identity : IdentityStore;
  agents : AgentsStore;
  portfolio : PortfolioStore;
  checkpoint : CheckpointStore;
  asset : AssetStore;
  nft : NftStore;
  settlement : SettlementStore;
  rest : OtherStores;
}.
#[global] Instance eta_World : Eta World := λ r,
  mkWorld (block_number r) (now r) (events r) (meter r) (agenda r) (identity r) (agents r)
    (portfolio r) (checkpoint r) (asset r) (nft r) (settlement r) (rest r).

(** A [DispatchResult] computation of the runtime. *)
Notation M := (SE World DispatchError).
(** A check: reads the state, fails or returns. *)
Notation Chk A := (World → result DispatchError A).

Definition deposit_event (e : Event) : M unit := modify (λ w, w <| events ::= λ l, l ++ [e] |>).
Definition on_portfolio (f : PortfolioStore → PortfolioStore) : M unit :=
  modify (λ w, w <| portfolio ::= f |>).
Definition on_settlement (f : SettlementStore → SettlementStore) : M unit :=
  modify (λ w, w <| settlement ::= f |>).
Definition on_asset (f : AssetStore → AssetStore) : M unit :=
  modify (λ w, w <| asset ::= f |>).
Definition on_nft (f : NftStore → NftStore) : M unit :=
  modify (λ w, w <| nft ::= f |>).
Definition on_checkpoint (f : CheckpointStore → CheckpointStore) : M unit :=
  modify (λ w, w <| checkpoint ::= f |>).
Definition on_agents (f : AgentsStore → AgentsStore) : M unit :=
  modify (λ w, w <| agents ::= f |>).
Definition on_identity (f : IdentityStore → IdentityStore) : M unit :=
  modify (λ w, w <| identity ::= f |>).

Definition on_rest (f : OtherStores → OtherStores) : M unit :=
  modify (λ w, w <| rest ::= f |>).
Definition on_records (f : RecordsStore → RecordsStore) : M unit :=
  on_rest (λ r, r <| records ::= f |>).
Definition on_compliance (f : ComplianceStore → ComplianceStore) : M unit :=
  on_rest (λ r, r <| compliance ::= f |>).
Definition on_statistics (f : StatisticsStore → StatisticsStore) : M unit :=
  on_rest (λ r, r <| statistics ::= f |>).

(** The weight meter an extrinsic creates for itself. *)
Definition set_meter (m : WeightMeter) : M unit := modify (λ w, w <| meter := m |>).

(** A storage transaction rolls storage back; the weight meter is a reference
    held by the caller and keeps what was consumed. *)
Definition with_storage_transaction {A : Type} (m : M A) : M A := λ w,
  match m w with
  | (Ok a, w') => (Ok a, w')
  | (Err e, w') => (Err e, w <| meter := w'.(meter) |>)
  end.

Lemma with_storage_transaction_Ok {A} (m : M A) w a w' :
  with_storage_transaction m w = (Ok a, w') → m w = (Ok a, w').
Proof. unfold with_storage_transaction. destruct (m w) as [[]]; naive_solver. Qed.

(** A failed transaction leaves nothing behind but the weight consumed. *)
Lemma with_storage_transaction_Err {A} (m : M A) w e w' :
  with_storage_transaction m w = (Err e, w') → w' = w <| meter := meter w' |>.
Proof. unfold with_storage_transaction. destruct (m w) as [[] ?]; naive_solver. Qed.

(** The stores an operation on fungible balances has no business with. *)
Definition untouched (w w' : World) : Prop :=
  block_number w' = block_number w ∧ now w' = now w ∧ agenda w' = agenda w ∧
  identity w' = identity w ∧ agents w' = agents w ∧ nft w' = nft w ∧
  settlement w' = settlement w.

(* ------------------------------------------------------------------ *)
(** * Configuration *)

(** The operations that cost a protocol fee (src/pallets/common/src/protocol_fee.rs). *)
Inductive ProtocolOp : Type :=
  | AssetRegisterTicker | AssetIssue | AssetAddDocuments | AssetCreateAsset
  | CheckpointCreateSchedule | ComplianceManagerAddComplianceRequirement
  | IdentityCddRegisterDid | IdentityAddClaim | IdentityAddSecondaryKeysWithAuthorization
  | PipsPropose | ContractsPutCode | CorporateBallotAttachBallot
  | CapitalDistributionDistribute | NFTCreateCollection | NFTMint
  | IdentityCreateChildIdentity.

(** What a call into one of the other pallets leaves: a new value of [rest] and
    of the weight meter. *)
Notation Ext A := (World → result DispatchError A * (OtherStores * WeightMeter)).

Definition external {A : Type} (f : Ext A) : M A := λ w,
  let '(r, (x, m)) := f w in (r, w <| rest := x |> <| meter := m |>).

Lemma external_Ok {A} (f : Ext A) w a w' :
  external f w = (Ok a, w') → ∃ x m, w' = w <| rest := x |> <| meter := m |>.
Proof. unfold external. destruct (f w) as [r [x m]]. intros [= _ <-]. by exists x, m. Qed.

(** A call into a pallet that is not modelled: it leaves the modelled storage
    alone. *)
Notation Elsewhere A := (World → result DispatchError A * N).
Definition call_elsewhere {A : Type} (f : Elsewhere A) : M A := λ w,
  let '(r, x) := f w in (r, w <| rest ::= λ s, s <| elsewhere := x |> |>).

Lemma call_elsewhere_Ok {A} (f : Elsewhere A) w a w' :
  call_elsewhere f w = (Ok a, w') → ∃ x, w' = w <| rest ::= λ s, s <| elsewhere := x |> |>.
Proof. unfold call_elsewhere. destruct (f w) as [r x]. intros [= _ <-]. by exists x. Qed.

(** [T::ProtocolFee] (src/pallets/protocol-fee): charging moves POLYX of the
    payer, which the modelled pallets do not see. *)
Class Fees := {
  charge_protocol_fees : list ProtocolOp → Elsewhere unit;
  batch_charge_protocol_fee : ProtocolOp → N → Elsewhere unit;
}.

(** What the books promise to work with, whatever it is: protocol fees
    (src/pallets/protocol-fee), the identity records of assets, transfer
    statistics (src/pallets/statistics) and compliance
    (src/pallets/compliance-manager).  The theorems about the books are proved
    against this interface; the file [Restrictions] implements it with the
    modelled pallets. *)
Class Externals := {
  charge_fees : list ProtocolOp → Ext unit;
  batch_charge_fee : ProtocolOp → N → Ext unit;
  get_token_did : Ticker → IdentityId;
  ensure_token_did_fresh : Ticker → Chk unit;
  commit_token_did : Ticker → World → OtherStores;
  verify_transfer_restrictions :
    Ticker → IdentityId → IdentityId → Balance → Balance → Balance → Balance → Ext unit;
  update_asset_stats :
    Ticker → option IdentityId → option IdentityId → option Balance → option Balance →
    Balance → Ext unit;
  is_compliant : Ticker → IdentityId → IdentityId → Ext bool;
}.

(** The constants of the pallets' [Config] traits that the modelled code reads. *)
Class Runtime := {
  MaxLen : N;
  AssetNameMaxLength : N;
  FundingRoundNameMaxLength : N;
  AssetMetadataNameMaxLength : N;
  AssetMetadataValueMaxLength : N;
  AssetMetadataTypeDefMaxLength : N;
  MaxAssetMediators : N;
  MaxNumberOfFungibleAssets : N;
  MaxNumberOfNFTsPerLeg : N;
  MaxNumberOfNFTs : N;
  MaxNumberOfOffChainAssets : N;
  MaxNumberOfVenueSigners : N;
  MaxInstructionMediators : N;
  MaxNumberOfNFTsCount : N;
  MaxNumberOfCollectionKeys : N;
}.

(* ------------------------------------------------------------------ *)
(** * The empty chain *)

(** The state before anything is stored; [keys] are the key records. *)
Definition empty_world (keys : gmap AccountId KeyRecord) : World :=
  mkWorld 1 1 [] (mkWeightMeter zero_weight zero_weight (mkWeight 1000 1000)) ∅
    (mkIdentityStore "" "" None None keys ∅ ∅ ∅ 0)
    (mkAgentsStore ∅ ∅ ∅ ∅ ∅)
    (mkPortfolioStore ∅ ∅ ∅ ∅ ∅ ∅ ∅ ∅ ∅ ∅ ∅ ∅)
    (mkCheckpointStore ∅ ∅ ∅ ∅ ∅ 0 ∅ ∅ ∅ ∅ ∅)
    (mkAssetStore ∅ (mkTickerRegistrationConfig 12 None) ∅ ∅ ∅ ∅ 0 ∅ ∅ ∅ ∅ ∅ ∅
       ∅ ∅ ∅ ∅ ∅ ∅ ∅ ∅ ∅ ∅ ∅ 0 ∅ ∅ ∅)
    (mkNftStore ∅ ∅ ∅ ∅ ∅ 0 ∅ ∅ ∅)
    (mkSettlementStore ∅ ∅ ∅ ∅ ∅ ∅ ∅ ∅ ∅ ∅ ∅ ∅ ∅ 1 1 ∅ ∅ ∅ ∅ ∅ ∅)
    (mkOtherStores (mkRecordsStore ∅ ∅ ∅ ∅ ∅ 0 ∅ false ∅ ∅ ∅) (mkComplianceStore ∅ ∅)
       (mkStatisticsStore ∅ ∅ ∅ ∅) ∅ ∅ ∅ 0).

(** The sample chain of the witnesses: account [n] is the primary key of
    identity [n], for [n] from 1 to 4. *)
Definition sample_keys : gmap AccountId KeyRecord :=
  list_to_map ((λ n, (n, PrimaryKey n)) <$> [1; 2; 3; 4]).
Definition sample_world : World := empty_world sample_keys.
