(* ===== verification/ChainState.v ===== *)
(** The whole state: the storage of the pallets that call each other ([World]),
    and beside it the storage of the pallets no other pallet calls, the
    fundraisers and the corporate actions. *)

From stdpp Require Import base numbers list gmap.
From S2P Require Import Prelude Types StoTypes CorporateTypes State.

Local Open Scope N_scope.

(** src/pallets/sto. *)
Record StoStore : Type := mkStoStore {
  Fundraisers : gmap (Ticker * FundraiserId) Fundraiser;
  FundraiserCount : gmap Ticker FundraiserId;
  FundraiserNames : gmap (Ticker * FundraiserId) FundraiserName;
}.
#[global] Instance eta_StoStore : Eta StoStore := λ r,
  mkStoStore (Fundraisers r) (FundraiserCount r) (FundraiserNames r).

(** src/pallets/corporate-actions, with the storage of its capital distributions
    and of its ballots. *)
Record CorporateStore : Type := mkCorporateStore {
  MaxDetailsLength : N;
  DefaultTargetIdentities : gmap Ticker TargetIdentities;
  DefaultWithholdingTax : gmap Ticker Tax;
  DidWithholdingTax : gmap Ticker (list (IdentityId * Tax));
  CAIdSequence : gmap Ticker LocalCAId;
  CorporateActions : gmap CAId CorporateAction;
  CADocLink : gmap CAId (list DocumentId);
  Details : gmap CAId CADetails;
  Distributions : gmap CAId Distribution;
  HolderPaid : gmap (CAId * IdentityId) bool;
  Metas : gmap CAId BallotMeta;
  TimeRanges : gmap CAId BallotTimeRange;
  MotionNumChoices : gmap CAId (list N);
  RCV : gmap CAId bool;
  Results : gmap CAId (list Balance);
  Votes : gmap (CAId * IdentityId) (list BallotVote);
}.
#[global] Instance eta_CorporateStore : Eta CorporateStore := λ r,
  mkCorporateStore (MaxDetailsLength r) (DefaultTargetIdentities r) (DefaultWithholdingTax r)
    (DidWithholdingTax r) (CAIdSequence r) (CorporateActions r) (CADocLink r) (Details r)
    (Distributions r) (HolderPaid r) (Metas r) (TimeRanges r) (MotionNumChoices r) (RCV r)
    (Results r) (Votes r).

Record Chain : Type := mkChain { world : World; sto : StoStore; corporate : CorporateStore }.
#[global] Instance eta_Chain : Eta Chain := λ r, mkChain (world r) (sto r) (corporate r).
Notation C := (SE Chain DispatchError).

(** A computation of the other pallets. *)
Definition lift {A : Type} (m : M A) : C A := λ c,
  let '(r, w) := m (world c) in (r, c <| world := w |>).
Definition on_sto (f : StoStore → StoStore) : C unit := modify (λ c, c <| sto ::= f |>).
Definition on_corporate (f : CorporateStore → CorporateStore) : C unit :=
  modify (λ c, c <| corporate ::= f |>).

Lemma lift_Ok {A} (m : M A) c a c' :
  lift m c = (Ok a, c') → ∃ w, m (world c) = (Ok a, w) ∧ c' = c <| world := w |>.
Proof. unfold lift. destruct (m (world c)) as [r w]. intros [= -> <-]. by exists w. Qed.

Lemma lift_check_Ok {A} (f : Chk A) c a c' :
  lift (check f) c = (Ok a, c') ↔ f (world c) = Ok a ∧ c' = c.
Proof.
  unfold lift, check. split.
  - intros [= -> <-]. split; [done|]. by destruct c.
  - intros [-> ->]. by destruct c.
Qed.
