(* ===== verification/Identity.v ===== *)
(** Who may call what: the length checks of src/pallets/base, the call
    metadata of src/pallets/permissions, the key records and the authorizations
    of src/pallets/identity (keys.rs, auth.rs). *)

From stdpp Require Import base numbers list gmap sets strings.
From S2P Require Import Prelude Subset Types SettlementTypes Schedules State.

Local Open Scope N_scope.

(* ------------------------------------------------------------------ *)
(** * pallet_base *)

Module Base.
Section base.
Context {RT : Runtime}.

Definition len {A : Type} (l : list A) : N := N.of_nat (length l).

Definition ensure_length_ok (n : N) : result DispatchError unit :=
  ensure (bool_decide (n ≤ MaxLen)) (EBase TooLong).
Definition ensure_string_limited (s : list N) : result DispatchError unit :=
  ensure_length_ok (len s).
Definition ensure_custom_length_ok (n limit : N) : result DispatchError unit :=
  ensure (bool_decide (n ≤ limit)) (EBase TooLong).
Definition ensure_custom_string_limited (s : string) (limit : N)
    : result DispatchError unit :=
  ensure_custom_length_ok (N.of_nat (String.length s)) limit.
Definition ensure_opt_string_limited (s : option (list N)) : result DispatchError unit :=
  match s with
  | None => Ok tt
  | Some s => ensure_string_limited s
  end.

(** [try_next_pre]: the new counter is also the id handed out. *)
Definition try_next_pre (max seq : N) : result DispatchError (N * N) :=
  id ← ok_or (checked_add max seq 1) (EBase CounterOverflow) ;
  Ok (id, id).
(** [try_next_post]: hands out the old counter; the pair is the id and the
    new counter. *)
Definition try_next_post (max seq : N) : result DispatchError (N * N) :=
  x ← ok_or (checked_add max seq 1) (EBase CounterOverflow) ;
  Ok (seq, x).
End base.

Lemma try_next_pre_Ok max seq id seq' :
  try_next_pre max seq = Ok (id, seq') → id = seq + 1 ∧ seq' = seq + 1 ∧ seq < max.
Proof.
  unfold try_next_pre. intros H. ok_inv.
  match goal with H : checked_add _ _ _ = Some _ |- _ => apply checked_add_Some in H end.
  naive_solver lia.
Qed.

Lemma try_next_post_Ok max seq id seq' :
  try_next_post max seq = Ok (id, seq') → id = seq ∧ seq' = seq + 1 ∧ seq < max.
Proof.
  unfold try_next_post. intros H. ok_inv.
  match goal with H : checked_add _ _ _ = Some _ |- _ => apply checked_add_Some in H end.
  naive_solver lia.
Qed.
End Base.

(* ------------------------------------------------------------------ *)
(** * Call permissions *)

Record AccountCallPermissionsData : Type := mkAccountCallPermissionsData {
  acp_primary_did : IdentityId;
  acp_secondary_key : option SecondaryKey;
}.

Record PermissionedCallOriginData : Type := mkPermissionedCallOriginData {
  sender : AccountId;
  primary_did : IdentityId;
  secondary_key : option SecondaryKey;
}.

Definition ensure_signed (o : Origin) : result DispatchError AccountId :=
  match o with Signed who => Ok who | _ => Err BadOrigin end.
Definition ensure_root (o : Origin) : result DispatchError unit :=
  match o with Root => Ok tt | _ => Err BadOrigin end.

Module Identity.
(** [check_account_call_permissions]. *)
Definition check_account_call_permissions (who : AccountId) (pallet : PalletName)
    (function : DispatchableName) (w : World) : option AccountCallPermissionsData :=
  match KeyRecords (identity w) !! who with
  | Some (PrimaryKey d) => Some (mkAccountCallPermissionsData d None)
  | Some (SecondaryKeyRecord d perms) =>
      if getd false (IsDidFrozen (identity w)) d then None
      else
        let sk := mkSecondaryKey who perms in
        if has_extrinsic_permission sk pallet function
        then Some (mkAccountCallPermissionsData d (Some sk)) else None
  | _ => None
  end.

(** [pallet_permissions::ensure_call_permissions]. *)
Definition ensure_call_permissions (who : AccountId) : Chk AccountCallPermissionsData :=
  λ w, ok_or
    (check_account_call_permissions who (CurrentPalletName (identity w))
       (CurrentDispatchableName (identity w)) w)
    EPermissions_UnauthorizedCaller.

Definition ensure_origin_call_permissions (o : Origin) : Chk PermissionedCallOriginData :=
  λ w,
    who ← ensure_signed o ;
    data ← ensure_call_permissions who w ;
    Ok (mkPermissionedCallOriginData who (acp_primary_did data) (acp_secondary_key data)).

Definition ensure_perms (o : Origin) : Chk IdentityId := λ w,
  primary_did <$> ensure_origin_call_permissions o w.

(** [swap_call_metadata]: the old names. *)
Definition swap_call_metadata (p : PalletName) (d : DispatchableName)
    : M (PalletName * DispatchableName) :=
  old ← gets (λ w, (CurrentPalletName (identity w), CurrentDispatchableName (identity w))) ;
  on_identity (λ s, s <| CurrentPalletName := p |> <| CurrentDispatchableName := d |>) ;;
  mret old.

(** [with_call_metadata]: the names are restored whether [tx] fails or not. *)
Definition with_call_metadata {A : Type} (p : PalletName) (d : DispatchableName)
    (tx : M A) : M A :=
  '(p0, d0) ← swap_call_metadata p d ;
  r ← catch tx ;
  swap_call_metadata p0 d0 ;;
  check (λ _, r).

(** The limits of keys.rs and of primitives/src/identity.rs. *)
Definition MAX_NAME_LEN : N := 60.
Definition MAX_PERMISSION_COMPLEXITY : N := 1000000.
Definition MAX_ASSETS : N := 2000.
Definition MAX_PORTFOLIOS : N := 2000.
Definition MAX_PALLETS : N := 80.
Definition MAX_EXTRINSICS : N := 80.

Definition ensure_no_except_perms (perms : ExtrinsicPermissions)
    : result DispatchError unit :=
  match perms with
  | Except _ => Err (EIdentity ExceptNotAllowedForExtrinsics)
  | These ps =>
      for_check (elements ps) (λ elem,
        match dispatchable_names elem with
        | Except _ => Err (EIdentity ExceptNotAllowedForExtrinsics)
        | _ => Ok tt
        end)
  | Whole => Ok tt
  end.

Definition ensure_extrinsic_perms_length_limited (perms : ExtrinsicPermissions)
    : result DispatchError unit :=
  match Subset.inner perms with
  | None => Ok tt
  | Some set =>
      Base.ensure_custom_length_ok (gset_len set) MAX_PALLETS ;;
      for_check (elements set) (λ elem,
        Base.ensure_custom_string_limited (pallet_name elem) MAX_NAME_LEN ;;
        match Subset.inner (dispatchable_names elem) with
        | None => Ok tt
        | Some set =>
            Base.ensure_custom_length_ok (gset_len set) MAX_EXTRINSICS ;;
            for_check (elements set) (λ elem,
              Base.ensure_custom_string_limited elem MAX_NAME_LEN)
        end)
  end.

(** [name_complexity] and [PalletPermissions::complexity]; [usize] is 64 bits
    wide. *)
Definition name_complexity (name : string) : N :=
  N.max (N.of_nat (String.length name)) 10.
Definition pallet_complexity (p : PalletPermissions) : N :=
  match Subset.inner (dispatchable_names p) with
  | None => name_complexity (pallet_name p)
  | Some set =>
      foldl (λ cost d, saturating_add u64_max cost (name_complexity d))
        (name_complexity (pallet_name p)) (elements set)
  end.
(** [size_of::<Ticker>()] is 12 and [size_of::<PortfolioId>()] 48. *)
Definition permissions_complexity (p : Permissions) : N :=
  let cost := match Subset.inner (extrinsic_perms p) with
              | None => 0
              | Some set =>
                  foldl (λ cost p, saturating_add u64_max cost (pallet_complexity p)) 0
                    (elements set)
              end in
  saturating_add u64_max
    (saturating_add u64_max cost
       (saturating_mul u64_max (N.of_nat (Subset.complexity (asset_perms p))) 12))
    (saturating_mul u64_max (N.of_nat (Subset.complexity (portfolio_perms p))) 48).

Definition ensure_perms_length_limited (p : Permissions) : result DispatchError unit :=
  Base.ensure_custom_length_ok (permissions_complexity p) MAX_PERMISSION_COMPLEXITY ;;
  Base.ensure_custom_length_ok (N.of_nat (Subset.complexity (asset_perms p))) MAX_ASSETS ;;
  Base.ensure_custom_length_ok (N.of_nat (Subset.complexity (portfolio_perms p)))
    MAX_PORTFOLIOS ;;
  ensure_no_except_perms (extrinsic_perms p) ;;
  ensure_extrinsic_perms_length_limited (extrinsic_perms p).

(* ---------------------------------------------------------------- *)
(** ** Authorizations *)

Definition get_identity (k : AccountId) : World → option IdentityId := λ w,
  match KeyRecords (identity w) !! k with
  | Some (PrimaryKey d) => Some d
  | Some (SecondaryKeyRecord d _) =>
      if getd false (IsDidFrozen (identity w)) d then None else Some d
  | _ => None
  end.

(** [Context::current_identity_or], of the production build. *)
Definition current_identity_or (k : AccountId) : Chk IdentityId := λ w,
  match CurrentDid (identity w) with
  | Some d => Ok d
  | None => ok_or (get_identity k w) (EOther 0)
  end.

Definition add_auth (from : IdentityId) (target : Signatory) (data : AuthorizationData)
    (expiry : option Moment) : M N :=
  nonce ← gets (λ w, MultiPurposeNonce (identity w)) ;
  let new_nonce := wrapping_add u64_max nonce 1 in
  on_identity (λ s, s <| MultiPurposeNonce := new_nonce |>) ;;
  let auth := mkAuthorization data from expiry new_nonce 50 in
  on_identity (λ s, s <| Authorizations ::= <[(target, new_nonce) := auth]> |>
                      <| AuthorizationsGiven ::= <[(from, new_nonce) := target]> |>) ;;
  deposit_event (AuthorizationAdded from (as_identity target) (as_account target)
                   new_nonce data expiry) ;;
  mret new_nonce.

Definition base_add_authorization (o : Origin) (target : Signatory)
    (data : AuthorizationData) (expiry : option Moment) : M N :=
  from_did ← check (ensure_perms o) ;
  check (λ _, match data with
              | JoinIdentity perms | RotatePrimaryKeyToSecondary perms =>
                  ensure_perms_length_limited perms
              | _ => Ok tt
              end) ;;
  add_auth from_did target data expiry.

Definition ensure_authorization (target : Signatory) (id : N) : Chk Authorization :=
  λ w, ok_or (Authorizations (identity w) !! (target, id)) (EAuth AuthInvalid).

(** Both maps forget an authorization together. *)
Definition erase_auth (target : Signatory) (authorizer : IdentityId) (id : N) : M unit :=
  on_identity (λ s, s <| Authorizations ::= delete (target, id) |>
                      <| AuthorizationsGiven ::= delete (authorizer, id) |>).

Definition unsafe_remove_auth (target : Signatory) (id : N) (authorizer : IdentityId)
    (revoked : bool) : M unit :=
  erase_auth target authorizer id ;;
  deposit_event ((if revoked then AuthorizationRevoked else AuthorizationRejected)
                   (as_identity target) (as_account target) id).

Definition base_remove_authorization (o : Origin) (target : Signatory) (id : N) : M unit :=
  who ← check (λ _, ensure_signed o) ;
  from_did ← check (λ w,
    if has_key (KeyRecords (identity w)) who
    then acp_primary_did <$> ensure_call_permissions who w
    else current_identity_or who w) ;
  auth ← check (ensure_authorization target id) ;
  let revoked := bool_decide (authorized_by auth = from_did) in
  check (λ _, ensure (revoked || eq_either target from_did who)
                (EIdentity IdentityUnauthorized)) ;;
  unsafe_remove_auth target id (authorized_by auth) revoked.

Definition ensure_auth_by (auth_by from : IdentityId) : result DispatchError unit :=
  ensure (bool_decide (auth_by = from)) (EAuth AuthUnauthorized).

(** [get_non_expired_auth]. *)
Definition get_non_expired_auth (target : Signatory) (id : N) (w : World)
    : option Authorization :=
  match Authorizations (identity w) !! (target, id) with
  | Some auth =>
      match auth_expiry auth with
      | Some expiry => if bool_decide (expiry < now w) then None else Some auth
      | None => Some auth
      end
  | None => None
  end.

Definition accept_auth_with (target : Signatory) (id : N)
    (accepter : AuthorizationData → IdentityId → M unit) : M unit :=
  auth ← check (ensure_authorization target id) ;
  check (λ w, match auth_expiry auth with
              | Some expiry => ensure (bool_decide (now w < expiry)) (EAuth AuthExpired)
              | None => Ok tt
              end) ;;
  res ← catch (accepter (authorization_data auth) (authorized_by auth)) ;
  match res with
  | Err e =>
      let count := saturating_sub (auth_count auth) 1 in
      (if decide (count = 0) then
         erase_auth target (authorized_by auth) id ;;
         deposit_event (AuthorizationRetryLimitReached (as_identity target)
                          (as_account target) id)
       else
         on_identity (λ s, s <| Authorizations ::=
                                <[(target, id) := auth <| auth_count := count |>]> |>)) ;;
      throw e
  | Ok _ =>
      erase_auth target (authorized_by auth) id ;;
      deposit_event (AuthorizationConsumed (as_identity target) (as_account target) id)
  end.

(* ---------------------------------------------------------------- *)
(** ** Authorization lemmas *)

(** An accepted authorization existed, had not expired, was accepted by the
    accepter, and is gone from both maps. *)
Lemma accept_auth_with_Ok target id accepter w w' :
  accept_auth_with target id accepter w = (Ok tt, w') →
  ∃ auth w1,
    Authorizations (identity w) !! (target, id) = Some auth ∧
    (∀ e, auth_expiry auth = Some e → now w < e) ∧
    accepter (authorization_data auth) (authorized_by auth) w = (Ok tt, w1) ∧
    w' = w1 <| identity ::= λ s, s <| Authorizations ::= delete (target, id) |>
                     <| AuthorizationsGiven ::= delete (authorized_by auth, id) |> |>
            <| events ::= λ l, l ++ [AuthorizationConsumed (as_identity target)
                                       (as_account target) id] |>.
Proof.
  unfold accept_auth_with, ensure_authorization, erase_auth, on_identity, deposit_event.
  intros H. ok_inv. ok_case; eexists _, _; split_and!; try done; naive_solver.
Qed.

Lemma ensure_perms_Ok o w d :
  ensure_perms o w = Ok d →
  ∃ data, ensure_origin_call_permissions o w = Ok data ∧ primary_did data = d.
Proof.
  unfold ensure_perms. destruct (ensure_origin_call_permissions o w); simpl; naive_solver.
Qed.
End Identity.

