(* ===== verification/Metering.v ===== *)
(** The weight meter of the primitives (src/primitives/src/weight_meter.rs) as
    the transfer checks use it, and the calls that change nothing but it. *)

From stdpp Require Import base numbers list gmap sets strings.
From S2P Require Import Prelude Subset Types ClaimTypes SettlementTypes Schedules State.

Local Open Scope N_scope.

(** [WeightMeter::check_accrue] of the frame meter: the weight consumed after
    accruing a weight below a limit, if that is possible. *)
Class FrameMeter := {
  check_accrue : Weight → Weight → Weight → option Weight;
}.

Module Metering.
Section metering.
Context {FM : FrameMeter}.

(** [WeightMeter::consume_weight_until_limit]; the string of the error is
    dropped by all callers. *)
Definition consume_weight_until_limit (m : WeightMeter) (weight : Weight)
    : result unit unit * WeightMeter :=
  match check_accrue (consumed_weight m) (weight_limit m) weight with
  | Some c => (Ok tt, m <| consumed_weight := c |>)
  | None => (Err tt, m <| consumed_weight := weight_limit m |>)
  end.

(** [consume_weight_meter] of the compliance manager and of the statistics
    pallet: each with its own error. *)
Definition consume_weight_meter (e : DispatchError) (weight : Weight) : M unit := λ w,
  match consume_weight_until_limit (meter w) weight with
  | (Ok _, m) => (Ok tt, w <| meter := m |>)
  | (Err _, m) => (Err e, w <| meter := m |>)
  end.
End metering.

(** Computations that change the meter and nothing else, and fail only with
    [e], leaving the meter at its limit. *)
Definition same_but_meter (w w' : World) : Prop :=
  w' = w <| meter := meter w' |> ∧ weight_limit (meter w') = weight_limit (meter w).

#[global] Instance same_but_meter_preorder : PreOrder same_but_meter.
Proof.
  split.
  - intros []. by split.
  - intros x y z [E1 H1] [E2 H2]. split; [|congruence].
    transitivity (y <| meter := meter z |>); [exact E2|]. rewrite E1. by destruct x.
Qed.

Definition metered {A : Type} (e : DispatchError) (m : M A) : Prop := ∀ w,
  let '(r, w') := m w in
  same_but_meter w w' ∧
  match r with
  | Ok _ => True
  | Err e' => e' = e ∧ consumed_weight (meter w') = weight_limit (meter w')
  end.

Lemma metered_ret {A} e (a : A) : metered e (mret a).
Proof. intros w. by simpl. Qed.

Lemma metered_gets {A} e (f : World → A) : metered e (gets f).
Proof. intros w. by simpl. Qed.

Lemma metered_bind {A B} e (m : M A) (f : A → M B) :
  metered e m → (∀ a, metered e (f a)) → metered e (m ≫= f).
Proof.
  intros Hm Hf w. specialize (Hm w). unfold mbind, SE_bind. destruct (m w) as [[a|e'] w1].
  - destruct Hm as [Hm _]. specialize (Hf a w1). destruct (f a w1) as [r w2].
    destruct Hf as [Hf ?]. split; [by etrans|done].
  - done.
Qed.

Lemma metered_consume `{FrameMeter} e weight : metered e (consume_weight_meter e weight).
Proof.
  intros w. unfold consume_weight_meter, consume_weight_until_limit.
  by destruct (check_accrue _ _ _).
Qed.

Lemma metered_Ok {A} e (m : M A) w a w' :
  metered e m → m w = (Ok a, w') → same_but_meter w w'.
Proof. intros Hm H. specialize (Hm w). rewrite H in Hm. tauto. Qed.

End Metering.

#[export] Hint Resolve Metering.metered_ret Metering.metered_gets Metering.metered_bind
  Metering.metered_consume : storage.

(** A computation as the books see it: its result, the other stores and the
    meter. *)
Definition as_ext {A : Type} (m : M A) : Ext A := λ w,
  let '(r, w') := m w in (r, (rest w', meter w')).
