(* ===== verification/Claims.v ===== *)
(** Claims about identities (src/pallets/identity/src/claims.rs and the claim
    calls of lib.rs): adding, revoking and fetching claims, custom claim types,
    and what makes the customer due diligence (CDD) of an identity valid.  The
    CDD providers are the members of an instance of the group pallet, read here
    through its [GroupTrait] (src/pallets/common/src/traits/group.rs). *)

From stdpp Require Import base numbers list gmap sets strings.
From S2P Require Import Prelude Subset Types ClaimTypes SettlementTypes Schedules State Identity.

Local Open Scope N_scope.

(* ------------------------------------------------------------------ *)
(** * Reading a group *)

Module Members.
Definition group (i : GroupInstance) (w : World) : GroupStore :=
  getd empty_group (groups (rest w)) i.
Definition get_members (i : GroupInstance) (w : World) : list IdentityId :=
  ActiveMembers (group i w).
Definition get_active_members (i : GroupInstance) (w : World) : list IdentityId :=
  get_members i w.
Definition is_member_expired (m : InactiveMember) (t : Moment) : bool :=
  match inactive_expiry m with Some e => bool_decide (e ≤ t) | None => false end.
Definition get_inactive_members (i : GroupInstance) (w : World) : list InactiveMember :=
  filter (λ m, is_member_expired m (now w) = false) (InactiveMembers (group i w)).
Definition get_valid_members_at (i : GroupInstance) (t : Moment) (w : World) : list IdentityId :=
  get_active_members i w ++
  (inactive_id <$> filter (λ m, is_member_expired m t = false) (get_inactive_members i w)).
(** [GroupTrait::is_member]. *)
Definition is_member (i : GroupInstance) (d : IdentityId) (w : World) : bool :=
  bool_decide (d ∈ get_members i w).
End Members.

(* ------------------------------------------------------------------ *)
(** * Claims *)

Module Claim.

(** The systematic issuers that count as CDD providers: the identities
    b"system:governance_committee" and b"system:customer_due_diligence", padded
    with zeros to 32 bytes and read as numbers
    (src/pallets/common/src/constants.rs). *)
Definition GC_DID : IdentityId :=
  0x73797374656d3a676f7665726e616e63655f636f6d6d69747465650000000000.
Definition CDD_PROVIDERS_DID : IdentityId :=
  0x73797374656d3a637573746f6d65725f6475655f64696c6967656e6365000000.

(** [CddClaimChecker]: the moment claims have to be valid at and the CDD id
    they have to be for. *)
Record CddClaimChecker : Type := mkCddClaimChecker {
  filter_cdd_id : option CddId;
  exp_with_leeway : Moment;
}.

(** [CddClaimChecker::new]; the lists of providers are read where they are
    used, since nothing changes them in between. *)
Definition cdd_checker (leeway : Moment) (filter_id : option CddId) (w : World)
    : CddClaimChecker :=
  mkCddClaimChecker filter_id (default 0 (checked_add u64_max (now w) leeway)).

Definition is_identity_claim_not_expired_at (c : IdentityClaim) (t : Moment) : bool :=
  match claim_expiry c with Some e => bool_decide (t < e) | None => true end.

Definition is_active (c : IdentityClaim) (w : World) : bool :=
  bool_decide (claim_issuer c ∈ Members.get_active_members CddServiceProviders w).

Definition is_systematic_cdd_provider (c : IdentityClaim) : bool :=
  bool_decide (CDD_PROVIDERS_DID = claim_issuer c) || bool_decide (GC_DID = claim_issuer c).

Definition is_inactive (k : CddClaimChecker) (c : IdentityClaim) (w : World) : bool :=
  existsb (λ m, negb (Members.is_member_expired m (exp_with_leeway k))
                && bool_decide (inactive_id m = claim_issuer c)
                && bool_decide (last_update_date c < deactivated_at m))
    (Members.get_inactive_members CddServiceProviders w).

Definition is_cdd_claim_valid (k : CddClaimChecker) (c : IdentityClaim) (w : World) : bool :=
  is_identity_claim_not_expired_at c (exp_with_leeway k)
  && (is_active c w || is_systematic_cdd_provider c || is_inactive k c w).

Definition filter_cdd_claims (k : CddClaimChecker) (c : IdentityClaim) (w : World) : bool :=
  match filter_cdd_id k, claim c with
  | Some cdd_id, CustomerDueDiligence claim_cdd_id =>
      if bool_decide (claim_cdd_id ≠ cdd_id) then false else is_cdd_claim_valid k c w
  | _, _ => is_cdd_claim_valid k c w
  end.

Definition ensure_custom_scopes_limited (c : ClaimTypes.Claim) : result DispatchError unit :=
  match as_scope c with
  | Some (ScopeCustom data) => ensure (bool_decide (Base.len data ≤ 32)) (EIdentity CustomScopeTooLong)
  | _ => Ok tt
  end.

(** [Claims::iter_prefix_values]. *)
Definition fetch_base_claims (target : IdentityId) (t : ClaimType) (w : World)
    : list IdentityClaim :=
  snd <$> iter_prefix (Claims (records (rest w))) (mkClaim1stKey target t).

Definition fetch_base_claim_with_issuer (target : IdentityId) (t : ClaimType)
    (iss : IdentityId) (scope : option Scope) (w : World) : option IdentityClaim :=
  Claims (records (rest w)) !! (mkClaim1stKey target t, mkClaim2ndKey iss scope).

Definition fetch_claim (id : IdentityId) (t : ClaimType) (iss : IdentityId)
    (scope : option Scope) (w : World) : option IdentityClaim :=
  match fetch_base_claim_with_issuer id t iss scope w with
  | Some c => if is_identity_claim_not_expired_at c (now w) then Some c else None
  | None => None
  end.

Definition base_fetch_parent_cdd_claims (d : IdentityId) (include_parent : bool) (w : World)
    : list IdentityClaim :=
  if include_parent then
    match ParentDid (records (rest w)) !! d with
    | Some parent => fetch_base_claims parent TCustomerDueDiligence w
    | None => []
    end
  else [].

Definition base_fetch_valid_cdd_claims (claim_for : IdentityId) (leeway : Moment)
    (filter_id : option CddId) (include_parent : bool) (w : World) : list IdentityClaim :=
  filter (λ c, filter_cdd_claims (cdd_checker leeway filter_id w) c w = true)
    (fetch_base_claims claim_for TCustomerDueDiligence w ++
     base_fetch_parent_cdd_claims claim_for include_parent w).

Definition base_fetch_cdd (claim_for : IdentityId) (leeway : Moment)
    (filter_id : option CddId) (include_parent : bool) (w : World) : option IdentityId :=
  claim_issuer <$> head (base_fetch_valid_cdd_claims claim_for leeway filter_id include_parent w).

Definition fetch_cdd (claim_for : IdentityId) (leeway : Moment) (w : World)
    : option IdentityId :=
  base_fetch_cdd claim_for leeway None true w.

(** [has_valid_cdd], of the production build. *)
Definition has_valid_cdd (claim_for : IdentityId) (w : World) : bool :=
  bool_decide (is_Some (base_fetch_cdd claim_for 0 None true w)).

Definition valid_cdd_claims (target : IdentityId) (leeway : option Moment) (w : World)
    : list IdentityClaim :=
  base_fetch_valid_cdd_claims target (default 0 leeway) None true w.

Section claims.
Context {RT : Runtime} {FE : Fees}.

Definition unverified_add_claim_with_scope (target : IdentityId) (c : ClaimTypes.Claim)
    (scope : option Scope) (iss : IdentityId) (expiry : option Moment) : M unit :=
  last_update ← gets now ;
  issuance ← gets (λ w, match fetch_claim target (claim_type c) iss scope w with
                        | Some id_claim => issuance_date id_claim
                        | None => last_update
                        end) ;
  let id_claim := mkIdentityClaim iss issuance last_update expiry c in
  on_records (λ s, s <| Claims ::= <[(mkClaim1stKey target (claim_type c),
                                     mkClaim2ndKey iss scope) := id_claim]> |>) ;;
  deposit_event (ClaimAdded target id_claim).

Definition base_add_claim (target : IdentityId) (c : ClaimTypes.Claim) (iss : IdentityId)
    (expiry : option Moment) : M unit :=
  check (λ w, match claim_type c with
              | TCustom id => ensure (has_key (CustomClaims (records (rest w))) id)
                                (EIdentity CustomClaimTypeDoesNotExist)
              | _ => Ok tt
              end) ;;
  unverified_add_claim_with_scope target c (as_scope c) iss expiry.

Definition ensure_authorized_cdd_provider (d : IdentityId) : Chk unit := λ w,
  ensure (Members.is_member CddServiceProviders d w) (EIdentity UnAuthorizedCddProvider).

Definition base_add_cdd_claim (target : IdentityId) (c : ClaimTypes.Claim) (iss : IdentityId)
    (expiry : option Moment) : M unit :=
  check (ensure_authorized_cdd_provider iss) ;;
  base_add_claim target c iss expiry.

Definition base_revoke_claim (target : IdentityId) (t : ClaimType) (iss : IdentityId)
    (scope : option Scope) : M unit :=
  let k := (mkClaim1stKey target t, mkClaim2ndKey iss scope) in
  c ← check (λ w, ok_or (Claims (records (rest w)) !! k) (EIdentity ClaimDoesNotExist)) ;
  on_records (λ s, s <| Claims ::= delete k |>) ;;
  deposit_event (ClaimRevoked target c).

Definition ensure_signed_and_validate_claim_target (o : Origin) (target : IdentityId)
    : Chk IdentityId := λ w,
  primary_did ← Identity.ensure_perms o w ;
  ensure (has_key (DidRecords (records (rest w))) target) (EIdentity DidMustAlreadyExist) ;;
  Ok primary_did.

(** [add_systematic_cdd_claims] and [revoke_systematic_cdd_claims] drop the
    errors of the single claims. *)
Definition add_systematic_cdd_claims (targets : list IdentityId) (iss : IdentityId) : M unit :=
  for_each targets (λ target,
    catch (base_add_claim target (CustomerDueDiligence 0) iss None) ;; mret tt).
Definition revoke_systematic_cdd_claims (targets : list IdentityId) (iss : IdentityId)
    : M unit :=
  for_each targets (λ target,
    catch (base_revoke_claim target TCustomerDueDiligence iss None) ;; mret tt).

(** [ChangeMembers::change_members_sorted] of the identity pallet, which the
    group of CDD providers reports its changes to. *)
Definition change_members_sorted (incoming outgoing new : list IdentityId) : M unit :=
  add_systematic_cdd_claims incoming CDD_PROVIDERS_DID ;;
  revoke_systematic_cdd_claims outgoing CDD_PROVIDERS_DID.

Definition unsafe_register_custom_claim_type (ty : list N) : M CustomClaimTypeId :=
  check (λ _, Base.ensure_string_limited ty) ;;
  check (λ w, ensure (negb (has_key (CustomClaimsInverse (records (rest w))) ty))
                (EIdentity CustomClaimTypeAlreadyExists)) ;;
  '(id, seq) ← check (λ w, Base.try_next_pre u32_max (CustomClaimIdSequence (records (rest w)))) ;
  on_records (λ s, s <| CustomClaimIdSequence := seq |>) ;;
  on_records (λ s, s <| CustomClaimsInverse ::= <[ty := id]> |>) ;;
  on_records (λ s, s <| CustomClaims ::= <[id := ty]> |>) ;;
  mret id.

Definition base_register_custom_claim_type (o : Origin) (ty : list N) : M unit :=
  d ← check (Identity.ensure_perms o) ;
  id ← unsafe_register_custom_claim_type ty ;
  deposit_event (CustomClaimTypeAdded d id ty).

Definition add_claim (o : Origin) (target : IdentityId) (c : ClaimTypes.Claim)
    (expiry : option Moment) : M unit :=
  iss ← check (ensure_signed_and_validate_claim_target o target) ;
  match c with
  | CustomerDueDiligence _ => base_add_cdd_claim target c iss expiry
  | _ =>
      check (λ _, ensure_custom_scopes_limited c) ;;
      call_elsewhere (charge_protocol_fees [IdentityAddClaim]) ;;
      base_add_claim target c iss expiry
  end.

Definition revoke_claim (o : Origin) (target : IdentityId) (c : ClaimTypes.Claim) : M unit :=
  iss ← check (Identity.ensure_perms o) ;
  base_revoke_claim target (claim_type c) iss (as_scope c).

Definition revoke_claim_by_index (o : Origin) (target : IdentityId) (t : ClaimType)
    (scope : option Scope) : M unit :=
  iss ← check (Identity.ensure_perms o) ;
  base_revoke_claim target t iss scope.

(** [T::GCVotingMajorityOrigin]: the origin of the governance committee. *)
Definition ensure_gc_origin (o : Origin) : result DispatchError unit :=
  match o with Endorsed PolymeshCommittee => Ok tt | _ => Err BadOrigin end.

Definition gc_add_cdd_claim (o : Origin) (target : IdentityId) : M unit :=
  check (λ _, ensure_gc_origin o) ;;
  add_systematic_cdd_claims [target] GC_DID.

Definition gc_revoke_cdd_claim (o : Origin) (target : IdentityId) : M unit :=
  check (λ _, ensure_gc_origin o) ;;
  base_revoke_claim target TCustomerDueDiligence GC_DID None.
End claims.
End Claim.
