(* ===== verification/Keys.v ===== *)
(** The keys of identities (src/pallets/identity/src/keys.rs and the calls of
    lib.rs): registering identities, linking and unlinking keys, rotating the
    primary key, child identities, freezing. *)

From stdpp Require Import base numbers list gmap sets strings.
From S2P Require Import Prelude Subset Types ClaimTypes SettlementTypes Schedules State Identity.
From S2P Require Import Claims.

Local Open Scope N_scope.

(** [TargetIdAuthorization], the message a key signs off the chain to be
    linked, and the signed requests
    (src/pallets/common/src/traits/identity.rs). *)
Record TargetIdAuthorization : Type := mkTargetIdAuthorization {
  target_id : IdentityId;
  tia_nonce : N;
  tia_expires_at : Moment;
}.
Record SecondaryKeyWithAuth : Type := mkSecondaryKeyWithAuth {
  ska_secondary_key : SecondaryKey;
  ska_signature : N;
}.
Record CreateChildIdentityWithAuth : Type := mkCreateChildIdentityWithAuth {
  child_key : AccountId;
  child_signature : N;
}.

(** What the pallet is configured with and calls outside of the modelled code:
    multi-signature accounts, POLYX balances, signatures and hashes.  [hash_did]
    is the hash of the parent of a block and a nonce. *)
Class IdentityConfig := {
  is_multisig : AccountId → World → bool;
  total_balance : AccountId → World → N;
  MultiSigBalanceLimit : N;
  deposit_initial : AccountId → World → N;
  verify_signature : N → TargetIdAuthorization → AccountId → bool;
  hash_did : BlockNumber → N → IdentityId;
  token_did : Ticker → IdentityId;
}.

(** [T::CddServiceProviders], a group (src/pallets/group): what the identity
    pallet calls of it to change its members.  The file Group implements it. *)
Class CddGroup := {
  disable_member : IdentityId → option Moment → option Moment → M unit;
}.

Module Keys.

Definition is_identity_exists (d : IdentityId) (w : World) : bool :=
  has_key (DidRecords (records (rest w))) d.
Definition ensure_no_id_record (d : IdentityId) : Chk unit := λ w,
  ensure (negb (is_identity_exists d w)) (EIdentity DidAlreadyExists).
Definition ensure_no_parent (d : IdentityId) : Chk unit := λ w,
  ensure (negb (has_key (ParentDid (records (rest w))) d)) (EIdentity IsChildIdentity).
Definition ensure_id_record_exists (d : IdentityId) : Chk unit := λ w,
  ensure (is_identity_exists d w) (EIdentity DidDoesNotExist).

(** [KeyRecord::is_primary_key], [is_secondary_key] and [get_did_key_type]. *)
Definition primary_of (r : KeyRecord) : option IdentityId :=
  match r with PrimaryKey d => Some d | _ => None end.
Definition secondary_of (r : KeyRecord) : option IdentityId :=
  match r with SecondaryKeyRecord d _ => Some d | _ => None end.
Definition get_did_key_type (r : KeyRecord) : option (IdentityId * bool) :=
  match r with
  | PrimaryKey d => Some (d, true)
  | SecondaryKeyRecord d _ => Some (d, false)
  | MultiSigSignerKey _ => None
  end.

Definition is_key_authorized (d : IdentityId) (k : AccountId) (w : World) : bool :=
  bool_decide (Identity.get_identity k w = Some d).

Definition ensure_secondary_key (d : IdentityId) (k : AccountId) : Chk unit := λ w,
  ensure (bool_decide ((KeyRecords (identity w) !! k) ≫= secondary_of = Some d))
    (EIdentity NotASigner).
Definition is_secondary_key (d : IdentityId) (k : AccountId) (w : World) : bool :=
  is_ok (ensure_secondary_key d k w).

Definition get_primary_key (d : IdentityId) (w : World) : option AccountId :=
  mjoin (DidRecords (records (rest w)) !! d).
Definition is_primary_key (d : IdentityId) (k : AccountId) (w : World) : bool :=
  bool_decide (get_primary_key d w = Some k).

(** [is_key_linked]: to an identity, to a multisig. *)
Definition is_key_linked (k : AccountId) (w : World) : bool * bool :=
  match KeyRecords (identity w) !! k with
  | Some (PrimaryKey _) | Some (SecondaryKeyRecord _ _) => (true, false)
  | Some (MultiSigSignerKey _) => (false, true)
  | None => (false, false)
  end.

Definition can_add_key_record (k : AccountId) (w : World) : bool :=
  negb (has_key (KeyRecords (identity w)) k).
Definition ensure_key_did_unlinked (k : AccountId) : Chk unit := λ w,
  ensure (can_add_key_record k w) (EIdentity AlreadyLinked).

Definition add_account_key_ref_count (k : AccountId) : M unit :=
  on_records (λ s, s <| AccountKeyRefCount ::= λ m,
                        <[k := saturating_add u64_max (getd 0 m k) 1]> m |>).
Definition remove_account_key_ref_count (k : AccountId) : M unit :=
  on_records (λ s, s <| AccountKeyRefCount ::= λ m,
                        <[k := saturating_sub (getd 0 m k) 1]> m |>).

Definition add_key_record (k : AccountId) (r : KeyRecord) : M unit :=
  free ← gets (can_add_key_record k) ;
  if free : bool then
    on_identity (λ s, s <| KeyRecords ::= <[k := r]> |>) ;;
    match get_did_key_type r with
    | Some (d, is_primary) =>
        on_records (λ s, s <| DidKeys ::= <[(d, k) := true]> |>) ;;
        if is_primary : bool
        then on_records (λ s, s <| DidRecords ::= <[d := Some k]> |>)
        else mret tt
    | None => mret tt
    end
  else mret tt.

(** The primary key of an identity is cleared only if it is [k]. *)
Definition clear_primary (d : IdentityId) (k : AccountId) : M unit :=
  on_records (λ s, s <| DidRecords ::= λ m,
    match m !! d with
    | Some (Some k') => if bool_decide (k' = k) then <[d := None]> m else m
    | _ => m
    end |>).

Definition remove_key_record (k : AccountId) (d : option IdentityId) : M unit :=
  record ← gets (λ w, KeyRecords (identity w) !! k) ;
  let unlink := on_identity (λ s, s <| KeyRecords ::= delete k |>) in
  match record with
  | Some (PrimaryKey d1) =>
      if bool_decide (Some d1 = d) then
        clear_primary d1 k ;;
        on_records (λ s, s <| DidKeys ::= delete (d1, k) |>) ;;
        unlink
      else mret tt
  | Some (SecondaryKeyRecord d1 _) =>
      if bool_decide (Some d1 = d) then
        on_records (λ s, s <| DidKeys ::= delete (d1, k) |>) ;;
        unlink
      else mret tt
  | Some (MultiSigSignerKey _) => if bool_decide (d = None) then unlink else mret tt
  | None => mret tt
  end.

Definition ensure_primary_key (o : Origin) : Chk (AccountId * IdentityId) := λ w,
  who ← ensure_signed o ;
  r ← ok_or (KeyRecords (identity w) !! who) EPermissions_UnauthorizedCaller ;
  d ← ok_or (primary_of r) (EIdentity KeyNotAllowed) ;
  Ok (who, d).

Definition ensure_did (o : Origin) : Chk (AccountId * IdentityId) := λ w,
  who ← ensure_signed o ;
  d ← Identity.current_identity_or who w ;
  Ok (who, d).

Section keys.
Context {RT : Runtime} {FE : Fees} {IC : IdentityConfig} {CG : CddGroup}.

Definition ensure_key_unlinkable_from_did (k : AccountId) : Chk unit := λ w,
  ensure (bool_decide (getd 0 (AccountKeyRefCount (records (rest w))) k = 0))
    (EIdentity AccountKeyIsBeingUsed) ;;
  if is_multisig k w then
    ensure (bool_decide (total_balance k w < MultiSigBalanceLimit)) (EIdentity MultiSigHasBalance)
  else Ok tt.

(** The attestation of a CDD provider that a rotation of the primary key needs
    while [CddAuthForPrimaryKeyRotation] is set. *)
Definition accept_attestation (target : IdentityId) (new_key : AccountId)
    (optional_cdd_auth_id : option N) : M unit :=
  auth_id ← check (λ _, ok_or optional_cdd_auth_id
                          (EIdentity InvalidAuthorizationFromCddProvider)) ;
  Identity.accept_auth_with (SigAccount new_key) auth_id (λ data auth_by,
    attestation_for_did ← check (λ _, match data with
                                      | AttestPrimaryKeyRotation d => Ok d
                                      | _ => Err (EAuth AuthBadType)
                                      end) ;
    check (λ w, ensure (Members.is_member CddServiceProviders auth_by w)
                  (EIdentity NotCddProviderAttestation)) ;;
    check (λ _, ensure (bool_decide (target = attestation_for_did))
                  (EIdentity AuthorizationsNotForSameDids))).

(** Whether a key with this record is linked, and as a secondary key of
    [target]. *)
Definition key_link (record : option KeyRecord) (target : IdentityId) : bool * bool :=
  match record with
  | Some (PrimaryKey _) => (true, false)
  | Some (SecondaryKeyRecord d _) => (true, bool_decide (d = target))
  | Some (MultiSigSignerKey _) => (true, false)
  | None => (false, false)
  end.

Definition common_rotate_primary_key (target : IdentityId) (new_key : AccountId)
    (new_permissions : option Permissions) (optional_cdd_auth_id : option N) : M unit :=
  old_key ← check (λ w, ok_or (get_primary_key target w) (EIdentity InvalidAccountKey)) ;
  record ← gets (λ w, KeyRecords (identity w) !! new_key) ;
  let '(is_linked, is_secondary) := key_link record target in
  check (λ _, ensure (negb is_linked || is_secondary) (EIdentity AlreadyLinked)) ;;
  (if new_permissions is Some _ then mret tt
   else check (ensure_key_unlinkable_from_did old_key)) ;;
  required ← gets (λ w, CddAuthForPrimaryKeyRotation (records (rest w))) ;
  (if required : bool then accept_attestation target new_key optional_cdd_auth_id else mret tt) ;;
  (if is_secondary : bool then
     on_identity (λ s, s <| KeyRecords ::= <[new_key := PrimaryKey target]> |>) ;;
     on_records (λ s, s <| DidRecords ::= <[target := Some new_key]> |>) ;;
     deposit_event (SecondaryKeysRemoved target [new_key])
   else add_key_record new_key (PrimaryKey target)) ;;
  deposit_event (PrimaryKeyUpdated target old_key new_key) ;;
  match new_permissions with
  | Some perms =>
      on_identity (λ s, s <| KeyRecords ::= <[old_key := SecondaryKeyRecord target perms]> |>) ;;
      deposit_event (SecondaryKeysAdded target [mkSecondaryKey old_key perms])
  | None => remove_key_record old_key (Some target)
  end.

(** [accept_primary_key_rotation]. *)
Definition accept_primary_key (o : Origin) (rotation_auth_id : N)
    (optional_cdd_auth_id : option N) : M unit :=
  who ← check (λ _, ensure_signed o) ;
  Identity.accept_auth_with (SigAccount who) rotation_auth_id (λ data target_did,
    check (λ _, match data with RotatePrimaryKey => Ok tt | _ => Err (EAuth AuthBadType) end) ;;
    common_rotate_primary_key target_did who None optional_cdd_auth_id).

(** [base_rotate_primary_key_to_secondary]. *)
Definition rotate_primary_key_to_secondary (o : Origin) (rotation_auth_id : N)
    (optional_cdd_auth_id : option N) : M unit :=
  who ← check (λ _, ensure_signed o) ;
  Identity.accept_auth_with (SigAccount who) rotation_auth_id (λ data target_did,
    perms ← check (λ _, match data with
                        | RotatePrimaryKeyToSecondary p => Ok p
                        | _ => Err (EAuth AuthBadType)
                        end) ;
    common_rotate_primary_key target_did who (Some perms) optional_cdd_auth_id).

Definition change_cdd_requirement_for_mk_rotation (o : Origin) (auth_required : bool) : M unit :=
  check (λ _, ensure_root o) ;;
  on_records (λ s, s <| CddAuthForPrimaryKeyRotation := auth_required |>) ;;
  deposit_event (CddRequirementForPrimaryKeyUpdated auth_required).

(** [base_set_secondary_key_permissions]. *)
Definition set_secondary_key_permissions (o : Origin) (k : AccountId) (perms : Permissions)
    : M unit :=
  '(_, d) ← check (ensure_primary_key o) ;
  check (ensure_secondary_key d k) ;;
  check (λ _, Identity.ensure_perms_length_limited perms) ;;
  record ← gets (λ w, KeyRecords (identity w) !! k) ;
  match record with
  | Some (SecondaryKeyRecord d' old) =>
      deposit_event (SecondaryKeyPermissionsUpdated d k old perms) ;;
      on_identity (λ s, s <| KeyRecords ::= <[k := SecondaryKeyRecord d' perms]> |>)
  | _ => mret tt
  end.

(** [make_did]: a fresh identity from the hash of the parent block and a
    nonce. *)
Definition make_did : M IdentityId :=
  nonce ← gets (λ w, wrapping_add u64_max (MultiPurposeNonce (identity w)) 7) ;
  on_identity (λ s, s <| MultiPurposeNonce := nonce |>) ;;
  d ← gets (λ w, hash_did (block_number w) nonce) ;
  check (ensure_no_id_record d) ;;
  mret d.

(** The part that [unverified_create_child_identity] and
    [base_create_child_identities] share. *)
Definition link_child (parent : IdentityId) (k : AccountId) (child : IdentityId) : M unit :=
  add_key_record k (PrimaryKey child) ;;
  deposit_event (DidCreated child k []) ;;
  on_records (λ s, s <| ParentDid ::= <[child := parent]> |>
                     <| ChildDid ::= <[(parent, child) := true]> |>) ;;
  deposit_event (ChildDidCreated parent child k).

Definition unverified_create_child_identity (k : AccountId) (parent : IdentityId) : M unit :=
  call_elsewhere (charge_protocol_fees [IdentityCreateChildIdentity]) ;;
  child ← make_did ;
  link_child parent k child.

(** [base_create_child_identity]. *)
Definition create_child_identity (o : Origin) (k : AccountId) : M unit :=
  '(_, parent) ← check (ensure_primary_key o) ;
  check (ensure_no_parent parent) ;;
  check (ensure_secondary_key parent k) ;;
  check (ensure_key_unlinkable_from_did k) ;;
  remove_key_record k (Some parent) ;;
  deposit_event (SecondaryKeysRemoved parent [k]) ;;
  unverified_create_child_identity k parent.

(** [for auth in child_keys { make_did()?; children.push(..) }]. *)
Fixpoint make_children (l : list CreateChildIdentityWithAuth) : M (list (AccountId * IdentityId)) :=
  match l with
  | [] => mret []
  | auth :: l =>
      child ← make_did ;
      children ← make_children l ;
      mret ((child_key auth, child) :: children)
  end.

(** The checks of one requested child: its key is unlinked, new in the list and
    has signed. *)
Definition check_child (auth : TargetIdAuthorization) (w : World) (keys : gset AccountId)
    (c : CreateChildIdentityWithAuth) : result DispatchError (gset AccountId) :=
  ensure_key_did_unlinked (child_key c) w ;;
  ensure (bool_decide (child_key c ∉ keys)) (EIdentity DuplicateKey) ;;
  ensure (verify_signature (child_signature c) auth (child_key c))
    (EIdentity InvalidAuthorizationSignature) ;;
  Ok ({[child_key c]} ∪ keys).

(** [base_create_child_identities]. *)
Definition create_child_identities (o : Origin) (l : list CreateChildIdentityWithAuth)
    (expires_at : Moment) : M unit :=
  '(_, parent) ← check (ensure_primary_key o) ;
  check (ensure_no_parent parent) ;;
  check (λ w, ensure (bool_decide (now w < expires_at)) (EIdentity AuthorizationExpired)) ;;
  nonce ← gets (λ w, getd 0 (OffChainAuthorizationNonce (records (rest w))) parent) ;
  let auth := mkTargetIdAuthorization parent nonce expires_at in
  keys ← check (λ w, fold_check (check_child auth w) ∅ l) ;
  call_elsewhere (batch_charge_protocol_fee IdentityCreateChildIdentity (gset_len keys)) ;;
  children ← make_children l ;
  on_records (λ s, s <| OffChainAuthorizationNonce ::=
                        <[parent := wrapping_add u64_max nonce 1]> |>) ;;
  for_each children (λ '(k, child), link_child parent k child).

(** [base_unlink_child_identity]. *)
Definition unlink_child_identity (o : Origin) (child : IdentityId) : M unit :=
  '(_, caller) ← check (ensure_primary_key o) ;
  parent ← check (λ w, ok_or (ParentDid (records (rest w)) !! child) (EIdentity NoParentIdentity)) ;
  check (λ _, ensure (bool_decide (caller = parent) || bool_decide (caller = child))
                (EIdentity NotParentOrChildIdentity)) ;;
  on_records (λ s, s <| ParentDid ::= delete child |>
                     <| ChildDid ::= delete (parent, child) |>) ;;
  deposit_event (ChildDidUnlinked caller parent child).

(** [base_remove_secondary_keys]. *)
Definition remove_secondary_keys (o : Origin) (keys : list AccountId) : M unit :=
  '(_, d) ← check (ensure_primary_key o) ;
  check (λ w, for_check keys (λ k,
    ensure_secondary_key d k w ;; ensure_key_unlinkable_from_did k w)) ;;
  for_each keys (λ k, remove_key_record k (Some d)) ;;
  deposit_event (SecondaryKeysRemoved d keys).

(** [base_add_secondary_keys_with_authorization]; an account id of the chain
    decodes as a signer. *)
Definition add_secondary_keys_with_authorization (o : Origin) (keys : list SecondaryKeyWithAuth)
    (expires_at : Moment) : M unit :=
  '(_, d) ← check (ensure_primary_key o) ;
  check (λ w, ensure (bool_decide (now w < expires_at)) (EIdentity AuthorizationExpired)) ;;
  nonce ← gets (λ w, getd 0 (OffChainAuthorizationNonce (records (rest w))) d) ;
  let auth := mkTargetIdAuthorization d nonce expires_at in
  check (λ w, for_check keys (λ ska,
    let si := ska_secondary_key ska in
    Identity.ensure_perms_length_limited (permissions si) ;;
    ensure_key_did_unlinked (key si) w ;;
    ensure (verify_signature (ska_signature ska) auth (key si))
      (EIdentity InvalidAuthorizationSignature))) ;;
  call_elsewhere (batch_charge_protocol_fee IdentityAddSecondaryKeysWithAuthorization
                    (Base.len keys)) ;;
  let additional := ska_secondary_key <$> keys in
  for_each additional (λ sk, add_key_record (key sk) (SecondaryKeyRecord d (permissions sk))) ;;
  on_records (λ s, s <| OffChainAuthorizationNonce ::= <[d := wrapping_add u64_max nonce 1]> |>) ;;
  deposit_event (SecondaryKeysAdded d additional).

Definition unsafe_join_identity (target : IdentityId) (perms : Permissions) (k : AccountId)
    : M unit :=
  add_key_record k (SecondaryKeyRecord target perms) ;;
  deposit_event (SecondaryKeysAdded target [mkSecondaryKey k perms]).

(** [join_identity]; the handler of the runtime makes the joined identity the
    current one. *)
Definition join_identity (o : Origin) (auth_id : N) : M unit :=
  k ← check (λ _, ensure_signed o) ;
  Identity.accept_auth_with (SigAccount k) auth_id (λ data target_did,
    perms ← check (λ _, match data with
                        | JoinIdentity p => Ok p
                        | _ => Err (EAuth AuthBadType)
                        end) ;
    check (ensure_id_record_exists target_did) ;;
    check (ensure_key_did_unlinked k) ;;
    check (λ w, ensure (Claim.has_valid_cdd target_did w) (EIdentity TargetHasNoCdd)) ;;
    call_elsewhere (charge_protocol_fees [IdentityAddSecondaryKeysWithAuthorization]) ;;
    on_identity (λ s, s <| CurrentDid := Some target_did |>) ;;
    unsafe_join_identity target_did perms k).

Definition leave_identity (o : Origin) : M unit :=
  '(k, d) ← check (ensure_did o) ;
  check (ensure_secondary_key d k) ;;
  check (ensure_key_unlinkable_from_did k) ;;
  remove_key_record k (Some d) ;;
  deposit_event (SecondaryKeyLeftIdentity d k).

Definition set_frozen_secondary_key_flags (o : Origin) (freeze : bool) : M unit :=
  '(_, d) ← check (ensure_primary_key o) ;
  if freeze then
    on_identity (λ s, s <| IsDidFrozen ::= <[d := true]> |>) ;;
    deposit_event (SecondaryKeysFrozen d)
  else
    on_identity (λ s, s <| IsDidFrozen ::= delete d |>) ;;
    deposit_event (SecondaryKeysUnfrozen d).

(** [_register_did]. *)
Definition register_did (who : AccountId) (secondary_keys : list SecondaryKey)
    (protocol_fee_data : option ProtocolOp) : M IdentityId :=
  check (ensure_key_did_unlinked who) ;;
  check (λ _, ensure (negb (existsb (λ sk, bool_decide (key sk = who)) secondary_keys))
                (EIdentity SecondaryKeysContainPrimaryKey)) ;;
  d ← make_did ;
  check (λ w, for_check secondary_keys (λ sk, ensure_key_did_unlinked (key sk) w)) ;;
  (if protocol_fee_data is Some op then call_elsewhere (charge_protocol_fees [op]) else mret tt) ;;
  add_key_record who (PrimaryKey d) ;;
  call_elsewhere (λ w, (Ok tt, deposit_initial who w)) ;;
  deposit_event (DidCreated d who secondary_keys) ;;
  for_each secondary_keys (λ sk,
    Identity.add_auth d (SigAccount (key sk)) (JoinIdentity (permissions sk)) None ;; mret tt) ;;
  mret d.

(** [base_cdd_register_did] (claims.rs). *)
Definition base_cdd_register_did (o : Origin) (target_account : AccountId)
    (secondary_keys : list SecondaryKey) : M (IdentityId * IdentityId) :=
  cdd_did ← check (Identity.ensure_perms o) ;
  check (Claim.ensure_authorized_cdd_provider cdd_did) ;;
  check (λ _, for_check secondary_keys (λ sk,
                Identity.ensure_perms_length_limited (permissions sk))) ;;
  target_did ← register_did target_account secondary_keys (Some IdentityCddRegisterDid) ;
  mret (cdd_did, target_did).

Definition cdd_register_did (o : Origin) (target_account : AccountId)
    (secondary_keys : list SecondaryKey) : M unit :=
  base_cdd_register_did o target_account secondary_keys ;; mret tt.

Definition cdd_register_did_with_cdd (o : Origin) (target_account : AccountId)
    (secondary_keys : list SecondaryKey) (expiry : option Moment) : M unit :=
  '(cdd_did, target_did) ← base_cdd_register_did o target_account secondary_keys ;
  Claim.base_add_claim target_did (CustomerDueDiligence 0) cdd_did expiry.

(** A provider whose claims are void from [disable_from] on leaves the group. *)
Definition base_invalidate_cdd_claims (o : Origin) (cdd : IdentityId) (disable_from : Moment)
    (expiry : option Moment) : M unit :=
  check (λ _, Identity.ensure_root o) ;;
  t ← gets now ;
  check (λ w, ensure (bool_decide (cdd ∈ Members.get_valid_members_at CddServiceProviders t w))
                (EIdentity UnAuthorizedCddProvider)) ;;
  disable_member cdd expiry (Some disable_from) ;;
  deposit_event (CddClaimsInvalidated cdd disable_from).

(** [get_token_did], [ensure_no_id_record] of it and [commit_token_did]: the
    identity record of an asset. *)
Definition ensure_asset_did_fresh (t : Ticker) : Chk unit := ensure_no_id_record (token_did t).
Definition commit_asset_did (t : Ticker) (w : World) : OtherStores :=
  (rest w) <| records ::= λ s, s <| DidRecords ::= <[token_did t := None]> |> |>.

(* ------------------------------------------------------------------ *)
(** ** The calls of the pallet *)

Inductive call : Type :=
  | CddRegisterDid (a : AccountId) (l : list SecondaryKey)
  | InvalidateCddClaims (cdd : IdentityId) (disable_from : Moment) (expiry : option Moment)
  | CddRegisterDidWithCdd (a : AccountId) (l : list SecondaryKey) (expiry : option Moment)
  | AcceptPrimaryKey (rotation : N) (cdd : option N)
  | RotatePrimaryKeyToSecondaryCall (rotation : N) (cdd : option N)
  | ChangeCddRequirementForMkRotation (b : bool)
  | JoinIdentityAsKey (id : N)
  | LeaveIdentityAsKey
  | AddClaim (target : IdentityId) (c : ClaimTypes.Claim) (expiry : option Moment)
  | RevokeClaim (target : IdentityId) (c : ClaimTypes.Claim)
  | RevokeClaimByIndex (target : IdentityId) (t : ClaimType) (s : option Scope)
  | SetSecondaryKeyPermissions (k : AccountId) (p : Permissions)
  | FreezeSecondaryKeys
  | UnfreezeSecondaryKeys
  | AddAuthorization (target : Signatory) (data : AuthorizationData) (expiry : option Moment)
  | RemoveAuthorization (target : Signatory) (id : N)
  | GcAddCddClaim (target : IdentityId)
  | GcRevokeCddClaim (target : IdentityId)
  | AddSecondaryKeysWithAuthorization (l : list SecondaryKeyWithAuth) (expires_at : Moment)
  | RemoveSecondaryKeys (l : list AccountId)
  | RegisterCustomClaimType (ty : list N)
  | CreateChildIdentity (k : AccountId)
  | CreateChildIdentities (l : list CreateChildIdentityWithAuth) (expires_at : Moment)
  | UnlinkChildIdentity (child : IdentityId).

Definition dispatch (o : Origin) (c : call) : M unit :=
  match c with
  | CddRegisterDid a l => cdd_register_did o a l
  | InvalidateCddClaims cdd from e => base_invalidate_cdd_claims o cdd from e
  | CddRegisterDidWithCdd a l e => cdd_register_did_with_cdd o a l e
  | AcceptPrimaryKey r cdd => accept_primary_key o r cdd
  | RotatePrimaryKeyToSecondaryCall r cdd => rotate_primary_key_to_secondary o r cdd
  | ChangeCddRequirementForMkRotation b => change_cdd_requirement_for_mk_rotation o b
  | JoinIdentityAsKey id => join_identity o id
  | LeaveIdentityAsKey => leave_identity o
  | AddClaim t c e => Claim.add_claim o t c e
  | RevokeClaim t c => Claim.revoke_claim o t c
  | RevokeClaimByIndex t ty s => Claim.revoke_claim_by_index o t ty s
  | SetSecondaryKeyPermissions k p => set_secondary_key_permissions o k p
  | FreezeSecondaryKeys => set_frozen_secondary_key_flags o true
  | UnfreezeSecondaryKeys => set_frozen_secondary_key_flags o false
  | AddAuthorization t d e => Identity.base_add_authorization o t d e ;; mret tt
  | RemoveAuthorization t id => Identity.base_remove_authorization o t id
  | GcAddCddClaim t => Claim.gc_add_cdd_claim o t
  | GcRevokeCddClaim t => Claim.gc_revoke_cdd_claim o t
  | AddSecondaryKeysWithAuthorization l e => add_secondary_keys_with_authorization o l e
  | RemoveSecondaryKeys l => remove_secondary_keys o l
  | RegisterCustomClaimType ty => Claim.base_register_custom_claim_type o ty
  | CreateChildIdentity k => create_child_identity o k
  | CreateChildIdentities l e => create_child_identities o l e
  | UnlinkChildIdentity c => unlink_child_identity o c
  end.
End keys.
End Keys.
