(* ===== verification/KeysInv.v ===== *)
(** The bookkeeping of the identity pallet: an identity and its keys point at
    each other, children at their parents, claims are filed under what they
    say; every call of the pallet keeps it. *)

From stdpp Require Import base numbers list gmap sets strings.
From S2P Require Import Prelude Subset Types ClaimTypes SettlementTypes Schedules State Identity.
From S2P Require Import Claims Keys.

Local Open Scope N_scope.

Module KeysInv.
Import Keys.

(** The identity a key acts for. *)
Definition key_did (r : KeyRecord) : option IdentityId := fst <$> get_did_key_type r.

Record keys_ok (KR : gmap AccountId KeyRecord) (r : RecordsStore) : Prop := {
  (** an identity names its primary key exactly if the key says so *)
  ko_primary : ∀ k d, KR !! k = Some (PrimaryKey d) ↔ DidRecords r !! d = Some (Some k);
  ko_secondary : ∀ k d p, KR !! k = Some (SecondaryKeyRecord d p) → is_Some (DidRecords r !! d);
  (** the list of an identity's keys is exact *)
  ko_keys : ∀ k d, DidKeys r !! (d, k) = Some true ↔ KR !! k ≫= key_did = Some d;
  ko_keys_true : ∀ k b, DidKeys r !! k = Some b → b = true;
  (** parents and children name each other, and no child is a parent *)
  ko_parent : ∀ p c, ParentDid r !! c = Some p ↔ ChildDid r !! (p, c) = Some true;
  ko_family : ∀ p c, ParentDid r !! c = Some p →
    is_Some (DidRecords r !! p) ∧ is_Some (DidRecords r !! c) ∧ ParentDid r !! p = None;
}.

(** Claims are filed under their target, type, issuer and scope, and custom
    claim types are numbered without gaps or repetitions. *)
Record claims_ok (r : RecordsStore) : Prop := {
  co_filed : ∀ pk sk c, Claims r !! (pk, sk) = Some c →
    claim_type (claim c) = c1_claim_type pk ∧ claim_issuer c = c2_issuer sk ∧
    as_scope (claim c) = c2_scope sk;
  co_custom : ∀ pk sk c id, Claims r !! (pk, sk) = Some c → claim_type (claim c) = TCustom id →
    is_Some (CustomClaims r !! id);
  co_names : ∀ id ty, CustomClaims r !! id = Some ty ↔ CustomClaimsInverse r !! ty = Some id;
  co_ids : ∀ id, is_Some (CustomClaims r !! id) ↔ 1 ≤ id ≤ CustomClaimIdSequence r;
}.

Definition identity_ok (w : World) : Prop :=
  keys_ok (KeyRecords (identity w)) (records (rest w)) ∧ claims_ok (records (rest w)).

(* ------------------------------------------------------------------ *)
(** ** What a change of one map does to the invariant *)

Lemma keys_ok_ext KR r r' :
  keys_ok KR r → DidRecords r' = DidRecords r → DidKeys r' = DidKeys r →
  ParentDid r' = ParentDid r → ChildDid r' = ChildDid r → keys_ok KR r'.
Proof. intros [] E1 E2 E3 E4. by constructor; rewrite ?E1, ?E2, ?E3, ?E4. Qed.

Lemma claims_ok_ext r r' :
  claims_ok r → Claims r' = Claims r → CustomClaims r' = CustomClaims r →
  CustomClaimsInverse r' = CustomClaimsInverse r →
  CustomClaimIdSequence r' = CustomClaimIdSequence r → claims_ok r'.
Proof. intros [] E1 E2 E3 E4. by constructor; rewrite ?E1, ?E2, ?E3, ?E4. Qed.

Lemma insert_is_Some {V} (m : gmap N V) i j x : is_Some (m !! j) → is_Some (<[i := x]> m !! j).
Proof. intros H. apply lookup_insert_is_Some. destruct (decide (i = j)); auto. Qed.

Lemma DidKeys_lookup KR r k d :
  keys_ok KR r → is_Some (DidKeys r !! (d, k)) → KR !! k ≫= key_did = Some d.
Proof.
  intros Hok [b Hb]. apply (ko_keys _ _ Hok). by rewrite Hb, (ko_keys_true _ _ Hok _ _ Hb).
Qed.

(** Linking an unlinked key to an identity that exists, as a secondary key. *)
Lemma keys_ok_add_secondary KR r k d p :
  keys_ok KR r → KR !! k = None → is_Some (DidRecords r !! d) →
  keys_ok (<[k := SecondaryKeyRecord d p]> KR) (r <| DidKeys ::= <[(d, k) := true]> |>).
Proof.
  intros Hok Hk Hd. constructor; simpl.
  - intros k' d'. rewrite <- (ko_primary _ _ Hok). destruct (decide (k = k')) as [->|].
    + rewrite lookup_insert_eq, Hk. done.
    + by rewrite lookup_insert_ne.
  - intros k' d' p'. rewrite lookup_insert_Some. intros [[_ [= -> _]]|[_ ?]]; [done|].
    by eapply ko_secondary.
  - intros k' d'. destruct (decide (k = k')) as [->|].
    + rewrite lookup_insert_eq. simpl. unfold key_did. simpl. rewrite lookup_insert_Some. split.
      * intros [[[= ->] _]|[_ H]]; [done|]. apply (ko_keys _ _ Hok) in H. by rewrite Hk in H.
      * intros [= ->]. by left.
    + rewrite !lookup_insert_ne by naive_solver. apply (ko_keys _ _ Hok).
  - intros k' b. rewrite lookup_insert_Some. intros [[_ <-]|[_ ?]]; [done|]. by eapply ko_keys_true.
  - apply (ko_parent _ _ Hok).
  - apply (ko_family _ _ Hok).
Qed.

(** Linking an unlinked key as the primary key of a new identity. *)
Lemma keys_ok_add_primary KR r k d :
  keys_ok KR r → KR !! k = None → DidRecords r !! d = None →
  keys_ok (<[k := PrimaryKey d]> KR)
    (r <| DidKeys ::= <[(d, k) := true]> |> <| DidRecords ::= <[d := Some k]> |>).
Proof.
  intros Hok Hk Hd. constructor; simpl.
  - intros k' d'. rewrite !lookup_insert_Some, (ko_primary _ _ Hok). split.
    + intros [[-> [= ->]]|[Hne H]]; [by left|]. right. split; [|done]. intros ->. congruence.
    + intros [[-> [= ->]]|[Hne H]]; [by left|]. right. split; [|done].
      intros ->. apply (ko_primary _ _ Hok) in H. congruence.
  - intros k' d' p' H. apply lookup_insert_Some in H as [[_ ?]|[_ H]]; [done|].
    apply insert_is_Some. by eapply ko_secondary.
  - intros k' d'. destruct (decide (k = k')) as [->|].
    + rewrite lookup_insert_eq. simpl. unfold key_did. simpl. rewrite lookup_insert_Some. split.
      * intros [[[= ->] _]|[_ H]]; [done|]. apply (ko_keys _ _ Hok) in H. by rewrite Hk in H.
      * intros [= ->]. by left.
    + rewrite !lookup_insert_ne by naive_solver. apply (ko_keys _ _ Hok).
  - intros k' b. rewrite lookup_insert_Some. intros [[_ <-]|[_ ?]]; [done|]. by eapply ko_keys_true.
  - apply (ko_parent _ _ Hok).
  - intros p c H. destruct (ko_family _ _ Hok _ _ H) as (Hp & Hc & ?).
    by split_and!; [apply insert_is_Some|apply insert_is_Some|].
Qed.

(** Unlinking a secondary key. *)
Lemma keys_ok_remove_secondary KR r k d p :
  keys_ok KR r → KR !! k = Some (SecondaryKeyRecord d p) →
  keys_ok (delete k KR) (r <| DidKeys ::= delete (d, k) |>).
Proof.
  intros Hok Hk. constructor; simpl.
  - intros k' d'. rewrite <- (ko_primary _ _ Hok), lookup_delete_Some. split; [by intros []|].
    intros H. split; [|done]. intros ->. congruence.
  - intros k' d' p'. rewrite lookup_delete_Some. intros [_ ?]. by eapply ko_secondary.
  - intros k' d'. destruct (decide (k = k')) as [->|Hne].
    + rewrite lookup_delete_eq. simpl. rewrite lookup_delete_Some. split; [|done].
      intros [Hne H]. apply (ko_keys _ _ Hok) in H. rewrite Hk in H. unfold key_did in H. simpl in H.
      congruence.
    + rewrite !lookup_delete_ne by naive_solver. apply (ko_keys _ _ Hok).
  - intros k' b. rewrite lookup_delete_Some. intros [_ ?]. by eapply ko_keys_true.
  - apply (ko_parent _ _ Hok).
  - apply (ko_family _ _ Hok).
Qed.

(** New permissions of a secondary key. *)
Lemma keys_ok_set_secondary KR r k d p p' :
  keys_ok KR r → KR !! k = Some (SecondaryKeyRecord d p) →
  keys_ok (<[k := SecondaryKeyRecord d p']> KR) r.
Proof.
  intros Hok Hk. constructor; try apply Hok.
  - intros k' d'. rewrite <- (ko_primary _ _ Hok). destruct (decide (k = k')) as [->|].
    + rewrite lookup_insert_eq, Hk. done.
    + by rewrite lookup_insert_ne.
  - intros k' d' p''. rewrite lookup_insert_Some. intros [[_ [= -> _]]|[_ ?]];
      by eapply ko_secondary.
  - intros k' d'. rewrite (ko_keys _ _ Hok). destruct (decide (k = k')) as [->|].
    + by rewrite lookup_insert_eq, Hk.
    + by rewrite lookup_insert_ne.
Qed.

(** The primary key moves to a secondary key of the identity or to an unlinked
    key; the old one is unlinked or becomes a secondary key. *)
Lemma keys_ok_rotate KR r d old new (perms : option Permissions) :
  keys_ok KR r → DidRecords r !! d = Some (Some old) →
  (KR !! new = None ∨ ∃ p, KR !! new = Some (SecondaryKeyRecord d p)) →
  keys_ok (partial_alter (λ _, SecondaryKeyRecord d <$> perms) old (<[new := PrimaryKey d]> KR))
    (r <| DidKeys ::= λ m, partial_alter (λ _, (λ _, true) <$> perms) (d, old)
                             (<[(d, new) := true]> m) |>
       <| DidRecords ::= <[d := Some new]> |>).
Proof.
  intros Hok Hd Hnew. pose proof (proj2 (ko_primary _ _ Hok old d) Hd) as Hold.
  assert (old ≠ new) as Hne by (intros ->; destruct Hnew as [?|[??]]; congruence).
  assert (∀ k, k ≠ old → k ≠ new →
    partial_alter (λ _, SecondaryKeyRecord d <$> perms) old (<[new := PrimaryKey d]> KR) !! k
      = KR !! k) as Hother.
  { intros k ??. by rewrite lookup_partial_alter_ne, lookup_insert_ne. }
  assert (partial_alter (λ _, SecondaryKeyRecord d <$> perms) old (<[new := PrimaryKey d]> KR)
    !! new = Some (PrimaryKey d)) as Hn
    by (by rewrite lookup_partial_alter_ne, lookup_insert_eq).
  constructor; simpl.
  - intros k d'. destruct (decide (k = old)) as [->|Hk].
    { rewrite lookup_partial_alter_eq. split; [by destruct perms|].
      rewrite lookup_insert_Some. intros [[-> [= ->]]|[Hd' H]]; [done|].
      apply (ko_primary _ _ Hok) in H. congruence. }
    destruct (decide (k = new)) as [->|Hk'].
    { rewrite Hn, lookup_insert_Some. split; [intros [= ->]; by left|].
      intros [[-> _]|[Hd' H]]; [done|]. apply (ko_primary _ _ Hok) in H.
      destruct Hnew as [?|[??]]; congruence. }
    rewrite Hother, (ko_primary _ _ Hok), lookup_insert_Some by done. split.
    + intros H. right. split; [|done]. intros ->. congruence.
    + intros [[-> [= ->]]|[_ ?]]; done.
  - intros k d' p H. apply lookup_insert_is_Some. destruct (decide (d = d')) as [->|Hdd]; [by left|].
    right. split; [done|]. destruct (decide (k = old)) as [->|Hk].
    { rewrite lookup_partial_alter_eq in H. destruct perms; naive_solver. }
    destruct (decide (k = new)) as [->|Hk']; [congruence|]. rewrite Hother in H by done.
    by eapply ko_secondary.
  - intros k d'. destruct (decide (k = old)) as [->|Hk].
    { rewrite lookup_partial_alter_eq. destruct (decide (d' = d)) as [->|Hdd].
      - rewrite lookup_partial_alter_eq. by destruct perms.
      - rewrite lookup_partial_alter_ne, lookup_insert_ne, (ko_keys _ _ Hok), Hold by naive_solver.
        simpl. unfold key_did. simpl. destruct perms; simpl; naive_solver. }
    destruct (decide (k = new)) as [->|Hk'].
    { rewrite lookup_partial_alter_ne, Hn by naive_solver. simpl. unfold key_did. simpl.
      rewrite lookup_insert_Some, (ko_keys _ _ Hok). split.
      - intros [[[= ->] _]|[? H]]; [done|].
        destruct Hnew as [Hx|[? Hx]]; rewrite Hx in H; unfold key_did in H; simpl in H; congruence.
      - intros [= ->]. by left. }
    rewrite lookup_partial_alter_ne, lookup_insert_ne, Hother by naive_solver.
    apply (ko_keys _ _ Hok).
  - intros [d' k] b H. destruct (decide ((d, old) = (d', k))) as [E|].
    { rewrite E, lookup_partial_alter_eq in H. destruct perms; naive_solver. }
    rewrite lookup_partial_alter_ne, lookup_insert_Some in H by done.
    destruct H as [[_ <-]|[_ ?]]; [done|]. by eapply ko_keys_true.
  - apply (ko_parent _ _ Hok).
  - intros p c H. destruct (ko_family _ _ Hok _ _ H) as (Hp & Hc & ?).
    by split_and!; [apply insert_is_Some|apply insert_is_Some|].
Qed.

(** A new identity that is nobody's child or parent becomes a child. *)
Lemma keys_ok_add_child KR r p c :
  keys_ok KR r → is_Some (DidRecords r !! p) → is_Some (DidRecords r !! c) →
  ParentDid r !! p = None → (∀ c', ParentDid r !! c' ≠ Some c) → ParentDid r !! c = None → p ≠ c →
  keys_ok KR (r <| ParentDid ::= <[c := p]> |> <| ChildDid ::= <[(p, c) := true]> |>).
Proof.
  intros Hok Hp Hc Hpp Hch Hcc Hne. constructor; simpl; try apply Hok.
  - intros p' c'. rewrite !lookup_insert_Some, (ko_parent _ _ Hok). split.
    + intros [[-> ->]|[Hn H]]; [by left|]. right. split; [naive_solver|done].
    + intros [[[= -> ->] _]|[Hn H]]; [by left|]. right. split; [|done]. intros ->.
      apply (ko_parent _ _ Hok) in H. congruence.
  - intros p' c' H. apply lookup_insert_Some in H as [[-> ->]|[Hn H]].
    + split_and!; [done|done|by rewrite lookup_insert_ne].
    + destruct (ko_family _ _ Hok _ _ H) as (? & ? & ?). split_and!; [done|done|].
      rewrite lookup_insert_ne; [done|]. intros ->. by apply (Hch c').
Qed.

Lemma keys_ok_remove_child KR r p c :
  keys_ok KR r → ParentDid r !! c = Some p →
  keys_ok KR (r <| ParentDid ::= delete c |> <| ChildDid ::= delete (p, c) |>).
Proof.
  intros Hok H. constructor; simpl; try apply Hok.
  - intros p' c'. rewrite !lookup_delete_Some, (ko_parent _ _ Hok). split; intros [Hn Hx].
    + split; [naive_solver|done].
    + split; [|done]. intros ->. apply (ko_parent _ _ Hok) in Hx. congruence.
  - intros p' c' [Hn Hx]%lookup_delete_Some. destruct (ko_family _ _ Hok _ _ Hx) as (? & ? & Hy).
    split_and!; [done|done|]. apply lookup_delete_None. by right.
Qed.
(* ------------------------------------------------------------------ *)
(** ** Claims *)

Lemma claims_ok_insert r target c iss i l e :
  claims_ok r →
  (∀ id, claim_type c = TCustom id → is_Some (CustomClaims r !! id)) →
  claims_ok (r <| Claims ::= <[(mkClaim1stKey target (claim_type c),
                               mkClaim2ndKey iss (as_scope c)) :=
                                mkIdentityClaim iss i l e c]> |>).
Proof.
  intros Hok Hc. constructor; simpl; try apply Hok.
  - intros pk sk c' [[[= <- <-] <-]|[_ H]]%lookup_insert_Some; [done|]. by eapply co_filed.
  - intros pk sk c' id [[_ <-]|[_ H]]%lookup_insert_Some; [apply Hc|]. by eapply co_custom.
Qed.

Lemma claims_ok_delete r k : claims_ok r → claims_ok (r <| Claims ::= delete k |>).
Proof.
  intros Hok. constructor; simpl; try apply Hok.
  - intros pk sk c [_ H]%lookup_delete_Some. by eapply co_filed.
  - intros pk sk c id [_ H]%lookup_delete_Some. by eapply co_custom.
Qed.

Lemma claims_ok_custom r ty id :
  claims_ok r → CustomClaimsInverse r !! ty = None → id = CustomClaimIdSequence r + 1 →
  claims_ok (r <| CustomClaimIdSequence := id |> <| CustomClaimsInverse ::= <[ty := id]> |>
               <| CustomClaims ::= <[id := ty]> |>).
Proof.
  intros Hok Hty ->. assert (CustomClaims r !! (CustomClaimIdSequence r + 1) = None) as Hid.
  { apply eq_None_not_Some. rewrite (co_ids _ Hok). lia. }
  constructor; simpl; try apply Hok.
  - intros pk sk c i H Hc. apply insert_is_Some. by eapply co_custom.
  - intros i t. rewrite !lookup_insert_Some. split.
    + intros [[<- <-]|[Hi H]]; [by left|]. apply (co_names _ Hok) in H. right. split; [|done].
      intros ->. congruence.
    + intros [[<- <-]|[Hi H]]; [by left|]. apply (co_names _ Hok) in H. right. split; [|done].
      intros <-. congruence.
  - intros i. rewrite lookup_insert_is_Some, (co_ids _ Hok). lia.
Qed.

Section world.
Context {RT : Runtime} {FE : Fees} {IC : IdentityConfig} {CG : CddGroup}.

(** What the identity pallet relies on when a group loses a member. *)
Definition group_keeps_identities : Prop := ∀ cdd expiry at_ w w',
  identity_ok w → disable_member cdd expiry at_ w = (Ok tt, w') → identity_ok w'.


(** A change of anything but the keys and the claims. *)
Lemma identity_ok_ext w w' :
  identity_ok w → KeyRecords (identity w') = KeyRecords (identity w) →
  records (rest w') = records (rest w) → identity_ok w'.
Proof. unfold identity_ok. by intros ? -> ->. Qed.

Lemma base_add_claim_ok target c iss e w w' :
  identity_ok w → Claim.base_add_claim target c iss e w = (Ok tt, w') → identity_ok w'.
Proof.
  unfold Claim.base_add_claim, Claim.unverified_add_claim_with_scope, on_records, on_rest,
    deposit_event.
  intros [Hk Hc] H. ok_inv. split; simpl; [by eapply keys_ok_ext|].
  apply claims_ok_insert; [done|]. intros id E.
  match goal with H : match claim_type c with _ => _ end = _ |- _ => rewrite E in H end.
  ok_inv. by apply has_key_true.
Qed.

Lemma base_revoke_claim_ok target t iss s w w' :
  identity_ok w → Claim.base_revoke_claim target t iss s w = (Ok tt, w') → identity_ok w'.
Proof.
  unfold Claim.base_revoke_claim, on_records, on_rest, deposit_event. intros [Hk Hc] H. ok_inv.
  split; simpl; [by eapply keys_ok_ext|by apply claims_ok_delete].
Qed.

(** A failed claim writes nothing. *)
Lemma base_add_claim_err target c iss e w err w' :
  Claim.base_add_claim target c iss e w = (Err err, w') → w' = w.
Proof.
  unfold Claim.base_add_claim, Claim.unverified_add_claim_with_scope, on_records, on_rest,
    deposit_event, gets, modify, check. intros H. err_inv; naive_solver.
Qed.
Lemma base_revoke_claim_err target t iss s w err w' :
  Claim.base_revoke_claim target t iss s w = (Err err, w') → w' = w.
Proof.
  unfold Claim.base_revoke_claim, on_records, on_rest, deposit_event, modify, check. intros H.
  err_inv; naive_solver.
Qed.

Lemma systematic_ok targets iss (add : bool) w u w' :
  identity_ok w →
  (if add then Claim.add_systematic_cdd_claims targets iss
   else Claim.revoke_systematic_cdd_claims targets iss) w = (Ok u, w') → identity_ok w'.
Proof.
  intros Hok H. destruct add; revert H; apply for_each_ind; try done;
    intros d w1 w2 _ Hok1 H; ok_inv;
    match goal with
    | H : Claim.base_add_claim _ _ _ _ _ = (?r, _) |- _ => destruct r as [[]|e]
    | H : Claim.base_revoke_claim _ _ _ _ _ = (?r, _) |- _ => destruct r as [[]|e]
    end; eauto using base_add_claim_ok, base_revoke_claim_ok.
  - match goal with H : Claim.base_add_claim _ _ _ _ _ = _ |- _ =>
      by apply base_add_claim_err in H as -> end.
  - match goal with H : Claim.base_revoke_claim _ _ _ _ _ = _ |- _ =>
      by apply base_revoke_claim_err in H as -> end.
Qed.

Lemma call_elsewhere_ok {A} (f : Elsewhere A) w a w' :
  call_elsewhere f w = (Ok a, w') → identity w' = identity w ∧ records (rest w') = records (rest w)
    ∧ block_number w' = block_number w.
Proof. intros [x ->]%call_elsewhere_Ok. done. Qed.

Lemma claim_call_ok o c w w' :
  identity_ok w →
  (∃ t cl e, c = AddClaim t cl e) ∨ (∃ t cl, c = RevokeClaim t cl) ∨
  (∃ t ty s, c = RevokeClaimByIndex t ty s) ∨ (∃ t, c = GcAddCddClaim t) ∨
  (∃ t, c = GcRevokeCddClaim t) ∨ (∃ ty, c = RegisterCustomClaimType ty) →
  dispatch o c w = (Ok tt, w') → identity_ok w'.
Proof.
  intros Hok [(t & cl & e & ->)|[(t & cl & ->)|[(t & ty & s & ->)|[(t & ->)|[(t & ->)|(ty & ->)]]]]]
    H; simpl in H.
  - unfold Claim.add_claim in H. ok_inv.
    assert (∃ w1, identity_ok w1 ∧ Claim.base_add_claim t cl x e w1 = (Ok tt, w')) as (w1 & ? & ?);
      [|by eapply base_add_claim_ok].
    destruct cl; unfold Claim.base_add_cdd_claim in H; ok_inv; eexists; (split; [|done]); try done;
      match goal with H : call_elsewhere _ _ = _ |- _ => apply call_elsewhere_ok in H as (E & E' & _) end;
      (eapply identity_ok_ext; [done|by rewrite E|done]).
  - unfold Claim.revoke_claim in H. ok_inv. by eapply base_revoke_claim_ok.
  - unfold Claim.revoke_claim_by_index in H. ok_inv. by eapply base_revoke_claim_ok.
  - unfold Claim.gc_add_cdd_claim in H. ok_inv. by eapply (systematic_ok _ _ true).
  - unfold Claim.gc_revoke_cdd_claim in H. ok_inv. by eapply base_revoke_claim_ok.
  - unfold Claim.base_register_custom_claim_type, Claim.unsafe_register_custom_claim_type,
      on_records, on_rest, deposit_event in H. ok_inv. destruct_product. ok_inv.
    match goal with H : Base.try_next_pre _ _ = _ |- _ =>
      apply Base.try_next_pre_Ok in H as (-> & -> & _) end.
    destruct Hok as [Hk Hc]. split; simpl; [by eapply keys_ok_ext|].
    apply claims_ok_custom; [done| |done]. by apply has_key_false.
Qed.
(* ------------------------------------------------------------------ *)
(** ** Keys *)

Ltac open_keys :=
  unfold add_key_record, remove_key_record, clear_primary, can_add_key_record, on_identity,
    on_records, on_rest, deposit_event in *.

(** The effect of linking an unlinked key. *)
Lemma add_key_record_run k r w :
  KeyRecords (identity w) !! k = None →
  ∃ w', add_key_record k r w = (Ok tt, w') ∧
    KeyRecords (identity w') = <[k := r]> (KeyRecords (identity w)) ∧
    records (rest w') =
      match get_did_key_type r with
      | Some (d, true) => (records (rest w)) <| DidKeys ::= <[(d, k) := true]> |>
                                           <| DidRecords ::= <[d := Some k]> |>
      | Some (d, false) => (records (rest w)) <| DidKeys ::= <[(d, k) := true]> |>
      | None => records (rest w)
      end ∧ block_number w' = block_number w.
Proof.
  intros H. open_keys. unfold mbind, SE_bind, gets, modify. simpl.
  rewrite (proj2 (has_key_false _ _) H). simpl.
  destruct r; simpl; eexists; split_and!; try done.
Qed.

Lemma add_secondary_ok k d p w w' :
  identity_ok w → is_Some (DidRecords (records (rest w)) !! d) →
  add_key_record k (SecondaryKeyRecord d p) w = (Ok tt, w') →
  identity_ok w' ∧ DidRecords (records (rest w')) = DidRecords (records (rest w)).
Proof.
  intros [Hk Hc] Hd H. destruct (KeyRecords (identity w) !! k) eqn:E.
  - open_keys. unfold mbind, SE_bind, gets in H. simpl in H.
    rewrite (proj2 (has_key_true _ _)) in H by eauto. simpl in H. apply ret_Ok in H as [_ ->].
    done.
  - destruct (add_key_record_run k (SecondaryKeyRecord d p) w E) as (w1 & H1 & EK & ER & _).
    rewrite H1 in H. injection H as <-. unfold identity_ok. rewrite EK, ER. split; [|done]. split.
    + by apply keys_ok_add_secondary.
    + by eapply claims_ok_ext.
Qed.

Lemma remove_secondary_ok k d p w w' :
  identity_ok w → KeyRecords (identity w) !! k = Some (SecondaryKeyRecord d p) →
  remove_key_record k (Some d) w = (Ok tt, w') →
  identity_ok w' ∧ KeyRecords (identity w') = delete k (KeyRecords (identity w)) ∧
  DidRecords (records (rest w')) = DidRecords (records (rest w)) ∧
  ParentDid (records (rest w')) = ParentDid (records (rest w)).
Proof.
  intros [Hk Hc] E H. open_keys. ok_inv. rewrite E in H. rewrite bool_decide_true in H by done.
  ok_inv. split_and!; try done. split; simpl; [|by eapply claims_ok_ext].
  by eapply keys_ok_remove_secondary.
Qed.

Lemma ensure_secondary_key_Ok d k w u :
  ensure_secondary_key d k w = Ok u →
  ∃ p, KeyRecords (identity w) !! k = Some (SecondaryKeyRecord d p).
Proof.
  unfold ensure_secondary_key. intros H. ok_inv.
  destruct (KeyRecords (identity w) !! k) as [[]|] eqn:E; simplify_eq/=; eauto.
Qed.

Lemma ensure_primary_key_Ok o k d w :
  ensure_primary_key o w = Ok (k, d) →
  o = Signed k ∧ KeyRecords (identity w) !! k = Some (PrimaryKey d).
Proof.
  unfold ensure_primary_key, ensure_signed. intros H. destruct o; ok_inv; try done.
  match goal with H : primary_of ?r = Some _ |- _ => destruct r; simplify_eq/= end.
  naive_solver.
Qed.

Lemma make_did_Ok w d w' :
  make_did w = (Ok d, w') →
  d = hash_did (block_number w) (wrapping_add u64_max (MultiPurposeNonce (identity w)) 7) ∧
  DidRecords (records (rest w)) !! d = None ∧
  KeyRecords (identity w') = KeyRecords (identity w) ∧ rest w' = rest w ∧
  block_number w' = block_number w ∧
  MultiPurposeNonce (identity w') = wrapping_add u64_max (MultiPurposeNonce (identity w)) 7.
Proof.
  unfold make_did, on_identity. intros H. ok_inv.
  match goal with H : ensure_no_id_record _ _ = _ |- _ =>
    unfold ensure_no_id_record, is_identity_exists in H end. ok_inv.
  split_and!; try done. by apply has_key_false.
Qed.

(** Making an identity with a fresh number the child of another. *)
Lemma link_child_ok p k c w w' :
  identity_ok w → KeyRecords (identity w) !! k = None →
  DidRecords (records (rest w)) !! c = None → is_Some (DidRecords (records (rest w)) !! p) →
  ParentDid (records (rest w)) !! p = None →
  link_child p k c w = (Ok tt, w') →
  identity_ok w' ∧ KeyRecords (identity w') = <[k := PrimaryKey c]> (KeyRecords (identity w)) ∧
  DidRecords (records (rest w')) = <[c := Some k]> (DidRecords (records (rest w))) ∧
  ParentDid (records (rest w')) = <[c := p]> (ParentDid (records (rest w))).
Proof.
  intros [Hk Hc] E Ec Hp Hpp H. unfold link_child, on_records, on_rest, deposit_event in H.
  destruct (add_key_record_run k (PrimaryKey c) w E) as (w1 & H1 & EK & ER & _).
  apply SE_bind_Ok in H as ([] & w2 & H2 & H). rewrite H1 in H2. injection H2 as <-. ok_inv. rewrite ER, EK. simpl.
  split_and!; try done. split; simpl; rewrite ER; [|by eapply claims_ok_ext].
  rewrite EK. assert (p ≠ c) as Hne by (intros ->; destruct Hp; congruence).
  apply keys_ok_add_child; [by apply keys_ok_add_primary|..]; simpl; try done.
  - by apply insert_is_Some.
  - rewrite lookup_insert_eq. eauto.
  - intros c' H. apply (ko_family _ _ Hk) in H as ([] & _). congruence.
  - apply eq_None_not_Some. intros [p' H]. apply (ko_family _ _ Hk) in H as (_ & [] & _). congruence.
Qed.
(** Accepting an authorization touches no key. *)
Lemma accept_attestation_Ok d k id w w' :
  accept_attestation d k id w = (Ok tt, w') →
  KeyRecords (identity w') = KeyRecords (identity w) ∧ rest w' = rest w.
Proof.
  unfold accept_attestation. intros H. ok_inv.
  apply Identity.accept_auth_with_Ok in H as (auth & w1 & _ & _ & H & ->). ok_inv. done.
Qed.

(** The part of the records a rotation leaves alone. *)
Definition same_others (r r' : RecordsStore) : Prop :=
  ParentDid r' = ParentDid r ∧ ChildDid r' = ChildDid r ∧ Claims r' = Claims r ∧
  CustomClaims r' = CustomClaims r ∧ CustomClaimsInverse r' = CustomClaimsInverse r ∧
  CustomClaimIdSequence r' = CustomClaimIdSequence r.

Lemma key_link_free record d linked secondary :
  key_link record d = (linked, secondary) → negb linked || secondary = true →
  (record = None ∧ secondary = false) ∨
  (secondary = true ∧ ∃ p, record = Some (SecondaryKeyRecord d p)).
Proof.
  destruct record as [[]|]; intros [= <- <-] H; simpl in H; ok_inv; try done; [|by left].
  right. rewrite bool_decide_true by done. eauto.
Qed.

Lemma rotate_link d new secondary w w' :
  keys_ok (KeyRecords (identity w)) (records (rest w)) →
  (KeyRecords (identity w) !! new = None ∧ secondary = false) ∨
  (secondary = true ∧ ∃ p, KeyRecords (identity w) !! new = Some (SecondaryKeyRecord d p)) →
  (if secondary : bool then
     on_identity (λ s, s <| KeyRecords ::= <[new := PrimaryKey d]> |>) ;;
     on_records (λ s, s <| DidRecords ::= <[d := Some new]> |>) ;;
     deposit_event (SecondaryKeysRemoved d [new])
   else add_key_record new (PrimaryKey d)) w = (Ok tt, w') →
  KeyRecords (identity w') = <[new := PrimaryKey d]> (KeyRecords (identity w)) ∧
  DidRecords (records (rest w')) = <[d := Some new]> (DidRecords (records (rest w))) ∧
  DidKeys (records (rest w')) = <[(d, new) := true]> (DidKeys (records (rest w))) ∧
  same_others (records (rest w)) (records (rest w')).
Proof.
  intros Hk [[E ->]|[-> [p E]]] H.
  - destruct (add_key_record_run new (PrimaryKey d) w E) as (w1 & H1 & EK & ER & _).
    rewrite H1 in H. injection H as <-. rewrite EK, ER. done.
  - unfold on_identity, on_records, on_rest, deposit_event in H. ok_inv. split_and!; try done.
    symmetry. apply insert_id, (ko_keys _ _ Hk). by rewrite E.
Qed.

Lemma rotate_unlink d old new perms w w' :
  KeyRecords (identity w) !! old = Some (PrimaryKey d) →
  DidKeys (records (rest w)) !! (d, old) = Some true →
  DidRecords (records (rest w)) !! d = Some (Some new) → old ≠ new →
  match perms with
  | Some perms =>
      on_identity (λ s, s <| KeyRecords ::= <[old := SecondaryKeyRecord d perms]> |>) ;;
      deposit_event (SecondaryKeysAdded d [mkSecondaryKey old perms])
  | None => remove_key_record old (Some d)
  end w = (Ok tt, w') →
  KeyRecords (identity w') = partial_alter (λ _, SecondaryKeyRecord d <$> perms) old
    (KeyRecords (identity w)) ∧
  DidRecords (records (rest w')) = DidRecords (records (rest w)) ∧
  DidKeys (records (rest w')) = partial_alter (λ _, (λ _, true) <$> perms) (d, old)
    (DidKeys (records (rest w))) ∧
  same_others (records (rest w)) (records (rest w')).
Proof.
  intros EK ED ER Hne H. destruct perms as [perms|].
  - unfold on_identity, deposit_event in H. ok_inv. split_and!; try done.
    symmetry. exact (insert_id (DidKeys (records (rest w))) (d, old) true ED).
  - open_keys. ok_inv. rewrite EK, bool_decide_true in H by done. ok_inv.
    rewrite ER. rewrite bool_decide_false by done. done.
Qed.

Lemma common_rotate_Ok d new perms cdd w w' :
  identity_ok w → common_rotate_primary_key d new perms cdd w = (Ok tt, w') →
  ∃ old,
    DidRecords (records (rest w)) !! d = Some (Some old) ∧
    (KeyRecords (identity w) !! new = None ∨
     ∃ p, KeyRecords (identity w) !! new = Some (SecondaryKeyRecord d p)) ∧
    KeyRecords (identity w') = partial_alter (λ _, SecondaryKeyRecord d <$> perms) old
      (<[new := PrimaryKey d]> (KeyRecords (identity w))) ∧
    DidRecords (records (rest w')) = <[d := Some new]> (DidRecords (records (rest w))) ∧
    DidKeys (records (rest w')) = partial_alter (λ _, (λ _, true) <$> perms) (d, old)
      (<[(d, new) := true]> (DidKeys (records (rest w)))) ∧
    same_others (records (rest w)) (records (rest w')).
Proof.
  intros [Hk Hc] H. unfold common_rotate_primary_key in H. ok_inv. rename x into old. exists old.
  assert (DidRecords (records (rest w)) !! d = Some (Some old)) as Hd.
  { unfold get_primary_key in *. destruct (DidRecords (records (rest w)) !! d) as [[]|]; naive_solver. }
  pose proof (proj2 (ko_primary _ _ Hk _ _) Hd) as Hold.
  destruct (key_link (KeyRecords (identity w) !! new) d) as [linked secondary] eqn:El. ok_inv.
  match goal with H : _ || _ = true |- _ => pose proof (key_link_free _ _ _ _ El H) as Hnew end.
  assert (x2 = w) as -> by (destruct perms; ok_inv; done).
  assert (KeyRecords (identity x6) = KeyRecords (identity w) ∧ rest x6 = rest w) as [EK ER].
  { destruct (CddAuthForPrimaryKeyRotation _); [by eapply accept_attestation_Ok|by ok_inv]. }
  rewrite <- ER, <- EK in *.
  match goal with H : (if secondary then _ else _) _ = _ |- _ =>
    apply (rotate_link d new) in H as (EK' & EDR' & EDK' & Ho); [|done|done] end.
  unfold deposit_event in *. ok_inv.
  assert (old ≠ new) as Hne by (intros ->; destruct Hnew as [[??]|[?[??]]]; congruence).
  apply (rotate_unlink d old new) in H as (EK'' & EDR'' & EDK'' & Ho'); simpl in *;
    [|by rewrite EK', lookup_insert_ne| |by rewrite EDR', lookup_insert_eq|done].
  - rewrite EK', EDR', EDK' in *. split_and!; try done; [destruct Hnew as [[??]|[?[??]]]; eauto|].
    unfold same_others in *. destruct_and!. split_and!; congruence.
  - rewrite EDK', lookup_insert_ne by naive_solver. apply (ko_keys _ _ Hk). by rewrite Hold.
Qed.

Lemma rotate_ok d new perms cdd w w' :
  identity_ok w → common_rotate_primary_key d new perms cdd w = (Ok tt, w') → identity_ok w'.
Proof.
  intros Hok H. destruct (common_rotate_Ok _ _ _ _ _ _ Hok H)
    as (old & Hd & Hnew & EK & ER & ED & E1 & E2 & E3 & E4 & E5 & E6).
  destruct Hok as [Hk Hc]. split; [|by eapply claims_ok_ext].
  rewrite EK. eapply keys_ok_ext; [by eapply (keys_ok_rotate _ _ d old new perms)|..];
    simpl; congruence.
Qed.
(* ------------------------------------------------------------------ *)
(** ** Child identities *)

Lemma mod_shift_ne a k : 0 < k → k < u64_max + 1 → (a + k) mod (u64_max + 1) ≠ a mod (u64_max + 1).
Proof.
  intros H1 H2 E. pose proof (N.div_mod' (a + k) (u64_max + 1)) as D1.
  pose proof (N.div_mod' a (u64_max + 1)) as D2. rewrite E in D1.
  revert D1 D2 H1 H2. generalize (a mod (u64_max + 1)). unfold u64_max. intros r D1 D2 H1 H2.
  change (2 ^ 64 - 1 + 1) with 18446744073709551616 in *. lia.
Qed.

Lemma check_children_Ok auth w keys l keys' :
  fold_check (check_child auth w) keys l = Ok keys' →
  (∀ c, c ∈ l → KeyRecords (identity w) !! child_key c = None ∧ child_key c ∉ keys) ∧
  NoDup (child_key <$> l).
Proof.
  revert keys. induction l as [|c l IH]; intros keys H; simpl in H.
  { split; [by intros c ?%elem_of_nil|constructor]. }
  ok_inv. unfold check_child, ensure_key_did_unlinked, can_add_key_record in *. ok_inv.
  apply IH in H as [Hl Hd]. split.
  - intros c' [->|Hc']%elem_of_cons; [split; [by apply has_key_false|done]|].
    destruct (Hl c' Hc'). set_solver.
  - simpl. constructor; [|done]. intros (c' & E & Hc')%list_elem_of_fmap.
    destruct (Hl c' Hc') as [_ Hn]. set_solver.
Qed.

(** The hash of a block and a nonce has no collisions within a block. *)
Hypothesis hash_did_inj : ∀ b n n',
  n ≤ u64_max → n' ≤ u64_max → hash_did b n = hash_did b n' → n = n'.

Lemma wrap_bound a : a mod (u64_max + 1) ≤ u64_max.
Proof. pose proof (N.mod_upper_bound a (u64_max + 1)). unfold u64_max in *. lia. Qed.

Lemma make_children_Ok l w children w' :
  Base.len l ≤ u32_max → make_children l w = (Ok children, w') →
  KeyRecords (identity w') = KeyRecords (identity w) ∧ rest w' = rest w ∧
  block_number w' = block_number w ∧ children.*1 = child_key <$> l ∧ NoDup children.*2 ∧
  (∀ c, c ∈ children.*2 → DidRecords (records (rest w)) !! c = None ∧
     ∃ i, 1 ≤ i ≤ Base.len l ∧
       c = hash_did (block_number w)
             ((MultiPurposeNonce (identity w) + 7 * i) mod (u64_max + 1))).
Proof.
  revert w children. induction l as [|auth l IH]; intros w children Hl H; simpl in H.
  { ok_inv. split_and!; try done; [constructor|by intros c ?%elem_of_nil]. }
  ok_inv. match goal with H : make_did _ = _ |- _ =>
    apply make_did_Ok in H as (Ed & Hd & EK & ER & EB & EN) end.
  assert (Base.len l + 1 = Base.len (auth :: l)) as Hlen by (unfold Base.len; simpl; lia).
  match goal with H : make_children l _ = _ |- _ =>
    apply IH in H as (EK' & ER' & EB' & E1 & Hnd & Hc); [|lia] end.
  rewrite EN, EB, ER in *. unfold wrapping_add in *.
  assert (∀ i, 1 ≤ i ≤ Base.len l →
    ((MultiPurposeNonce (identity w) + 7) mod (u64_max + 1) + 7 * i) mod (u64_max + 1) =
    (MultiPurposeNonce (identity w) + 7 * (i + 1)) mod (u64_max + 1)) as Hshift.
  { intros i Hi. rewrite N.Div0.add_mod_idemp_l. f_equal. lia. }
  split_and!; try congruence; simpl.
  - by f_equal.
  - constructor; [|done]. intros Hin. apply Hc in Hin as (_ & i & Hi & E).
    rewrite Ed, Hshift in E by done. apply hash_did_inj in E; [|apply wrap_bound..].
    assert (7 * i < u64_max + 1) as Hsmall by (unfold u32_max, u64_max in *; lia).
    eapply (mod_shift_ne (MultiPurposeNonce (identity w) + 7) (7 * i)); [lia|done|].
    rewrite E. f_equal. lia.
  - intros c [->|Hin]%elem_of_cons.
    + split; [done|]. exists 1. split; [lia|]. by rewrite Ed, N.mul_1_r.
    + apply Hc in Hin as (? & i & Hi & ->). split; [done|]. exists (i + 1). split; [lia|].
      by rewrite Hshift.
Qed.

Lemma link_children_ok p children w w' :
  identity_ok w → is_Some (DidRecords (records (rest w)) !! p) →
  ParentDid (records (rest w)) !! p = None → NoDup children.*1 → NoDup children.*2 →
  (∀ k, k ∈ children.*1 → KeyRecords (identity w) !! k = None) →
  (∀ c, c ∈ children.*2 → DidRecords (records (rest w)) !! c = None) →
  for_each children (λ '(k, child), link_child p k child) w = (Ok tt, w') → identity_ok w'.
Proof.
  revert w. induction children as [|[k c] l IH]; intros w Hok Hp Hpp Hn1 Hn2 Hk Hc H; simpl in *.
  { by ok_inv. }
  apply NoDup_cons in Hn1 as [Hk1 Hn1], Hn2 as [Hc1 Hn2]. ok_inv.
  match goal with H : link_child _ _ _ _ = _ |- _ =>
    apply link_child_ok in H as (Hok' & EK & ER & EP); [|set_solver..|done|done] end.
  eapply IH; [done|..|done]; rewrite ?EK, ?ER, ?EP; try done.
  - by apply insert_is_Some.
  - rewrite lookup_insert_ne; [done|]. intros ->. destruct Hp as [? Hp].
    rewrite Hc in Hp by set_solver. done.
  - intros k' Hk'. rewrite lookup_insert_ne by set_solver. set_solver.
  - intros c' Hc'. rewrite lookup_insert_ne by set_solver. set_solver.
Qed.

(* ------------------------------------------------------------------ *)
(** ** Every call keeps the invariant *)

Lemma primary_exists KR r k d :
  keys_ok KR r → KR !! k = Some (PrimaryKey d) → is_Some (DidRecords r !! d).
Proof. intros Hok H. apply (ko_primary _ _ Hok) in H. eauto. Qed.

Lemma ensure_no_parent_Ok d w u :
  ensure_no_parent d w = Ok u → ParentDid (records (rest w)) !! d = None.
Proof. unfold ensure_no_parent. intros H. ok_inv. by apply has_key_false. Qed.

Lemma call_elsewhere_id_ok {A} (f : Elsewhere A) w a w' :
  identity_ok w → call_elsewhere f w = (Ok a, w') → identity_ok w'.
Proof.
  intros Hok (E & E' & _)%call_elsewhere_ok. eapply identity_ok_ext; [done|by rewrite E|done].
Qed.

(** Accepting an authorization keeps the invariant if the acceptance does. *)
Lemma accept_auth_keeps target id accepter w w' :
  identity_ok w →
  (∀ data by_did w1, accepter data by_did w = (Ok tt, w1) → identity_ok w1) →
  Identity.accept_auth_with target id accepter w = (Ok tt, w') → identity_ok w'.
Proof.
  intros Hok Hacc H. apply Identity.accept_auth_with_Ok in H as (auth & w1 & _ & _ & H & ->).
  apply Hacc in H. by eapply identity_ok_ext.
Qed.

Lemma add_auth_ok d target data e w n w' :
  identity_ok w → Identity.add_auth d target data e w = (Ok n, w') → identity_ok w'.
Proof.
  unfold Identity.add_auth, on_identity, deposit_event. intros Hok H. ok_inv.
  by eapply identity_ok_ext.
Qed.

Lemma remove_secondaries_ok d keys w w' :
  identity_ok w →
  for_each keys (λ k, remove_key_record k (Some d)) w = (Ok tt, w') →
  (∀ k, k ∈ keys → ∃ p, KeyRecords (identity w) !! k = Some (SecondaryKeyRecord d p)) →
  identity_ok w'.
Proof.
  intros Hok H Hl.
  assert (∀ w1, identity_ok w1 →
    (∀ k, k ∈ keys → KeyRecords (identity w1) !! k = None ∨
       ∃ p, KeyRecords (identity w1) !! k = Some (SecondaryKeyRecord d p)) →
    for_each keys (λ k, remove_key_record k (Some d)) w1 = (Ok tt, w') → identity_ok w') as Hgen;
    [|eapply Hgen; eauto].
  clear. induction keys as [|k keys IH]; intros w Hok Hl H; simpl in H; [by ok_inv|].
  apply SE_bind_Ok in H as ([] & w1 & H1 & H). destruct (Hl k) as [E|[p E]]; [set_solver|..].
  - open_keys. ok_inv. rewrite E in H1. ok_inv. eapply IH; [done| |done]. set_solver.
  - apply (remove_secondary_ok _ _ p) in H1 as (Hok1 & EK & _); [|done|done].
    eapply IH; [done| |done]. intros k' Hk'. rewrite EK.
    destruct (decide (k = k')) as [->|]; [left; by rewrite lookup_delete_eq|].
    rewrite lookup_delete_ne by done. apply Hl. set_solver.
Qed.

Lemma add_secondaries_ok d l w w' :
  identity_ok w → is_Some (DidRecords (records (rest w)) !! d) →
  for_each l (λ sk, add_key_record (key sk) (SecondaryKeyRecord d (permissions sk))) w
    = (Ok tt, w') → identity_ok w'.
Proof.
  intros Hok Hd H.
  eapply (for_each_ind _ _ (λ w, identity_ok w ∧ is_Some (DidRecords (records (rest w)) !! d)))
    in H as [??]; [done|done|]. intros sk w1 w2 _ [Hok1 Hd1] Hs.
  apply add_secondary_ok in Hs as [? E]; [|done|done]. by rewrite E.
Qed.

Lemma register_did_ok who sks fee w d w' :
  identity_ok w → register_did who sks fee w = (Ok d, w') → identity_ok w'.
Proof.
  intros Hok H. unfold register_did in H. ok_inv.
  match goal with H : ensure_key_did_unlinked _ _ = _ |- _ =>
    unfold ensure_key_did_unlinked, can_add_key_record in H; ok_inv end.
  match goal with H : make_did _ = _ |- _ =>
    apply make_did_Ok in H as (_ & Hd & EK & ER & _ & _) end.
  match goal with H : has_key _ who = false |- _ =>
    apply has_key_false in H; rewrite <- EK in H; rename H into Hw end.
  rewrite <- ER in Hd. assert (identity_ok x4) as Hok1
    by (eapply identity_ok_ext; [done|done|by rewrite ER]).
  assert (identity_ok x8 ∧ KeyRecords (identity x8) = KeyRecords (identity x4) ∧
    records (rest x8) = records (rest x4)) as (Hok2 & EK2 & ER2).
  { destruct fee; [|by ok_inv]. split; [by eapply call_elsewhere_id_ok|].
    match goal with H : call_elsewhere _ x4 = _ |- _ =>
      by apply call_elsewhere_ok in H as (-> & -> & _) end. }
  rewrite <- EK2, <- ER2 in *.
  assert (identity_ok x10) as Hok3.
  { destruct (add_key_record_run who (PrimaryKey x3) x8 Hw) as (w1 & H1' & EK3 & ER3 & _).
    assert (w1 = x10) as <- by congruence. destruct Hok2 as [Hk Hc].
    unfold identity_ok. rewrite EK3, ER3. simpl. split; [by apply keys_ok_add_primary|].
    by eapply claims_ok_ext. }
  assert (identity_ok x14) as Hok4.
  { unfold deposit_event in *. ok_inv. match goal with H : call_elsewhere _ x10 = _ |- _ =>
      apply call_elsewhere_id_ok in H; [by apply (identity_ok_ext x12)|done] end. }
  match goal with H : for_each sks _ _ = _ |- _ =>
    eapply (for_each_ind _ _ identity_ok) in H; [done..|] end.
  intros sk w1 w2 _ Ha Hb. ok_inv. by eapply add_auth_ok.
Qed.

Lemma register_call_ok o a l e w w' :
  identity_ok w →
  cdd_register_did o a l w = (Ok tt, w') ∨ cdd_register_did_with_cdd o a l e w = (Ok tt, w') →
  identity_ok w'.
Proof.
  unfold cdd_register_did, cdd_register_did_with_cdd, base_cdd_register_did. intros Hok [H|H];
    ok_inv; destruct_product; ok_inv.
  - by eapply register_did_ok.
  - eapply base_add_claim_ok; [|done]. by eapply register_did_ok.
Qed.

Lemma rotation_call_ok o r cdd w w' :
  identity_ok w →
  accept_primary_key o r cdd w = (Ok tt, w') ∨
  rotate_primary_key_to_secondary o r cdd w = (Ok tt, w') →
  identity_ok w'.
Proof.
  unfold accept_primary_key, rotate_primary_key_to_secondary. intros Hok [H|H]; ok_inv;
    (eapply accept_auth_keeps; [done| |done]; intros data d w1 H1; simpl in H1; ok_inv; by eapply rotate_ok).
Qed.

Lemma join_call_ok o id w w' :
  identity_ok w → join_identity o id w = (Ok tt, w') → identity_ok w'.
Proof.
  unfold join_identity, unsafe_join_identity, on_identity, deposit_event. intros Hok H. ok_inv.
  eapply accept_auth_keeps; [done| |done]. intros data d w1 H1. simpl in H1. ok_inv.
  match goal with H : ensure_id_record_exists _ _ = _ |- _ =>
    unfold ensure_id_record_exists, is_identity_exists in H; ok_inv; apply has_key_true in H end.
  match goal with H : call_elsewhere _ _ = _ |- _ =>
    pose proof (call_elsewhere_id_ok _ _ _ _ Hok H);
    apply call_elsewhere_ok in H as (_ & ER & _) end.
  match goal with H : add_key_record _ _ _ = _ |- _ =>
    apply add_secondary_ok in H as [Hj _]; [by apply (identity_ok_ext _ _ Hj)|..] end.
  - by match goal with H : identity_ok ?v |- identity_ok ?u => apply (identity_ok_ext v u H) end.
  - simpl. by rewrite ER.
Qed.

Lemma create_children_call_ok o l e w w' :
  identity_ok w → Base.len l ≤ u32_max →
  create_child_identities o l e w = (Ok tt, w') → identity_ok w'.
Proof.
  unfold create_child_identities, on_records, on_rest. intros Hok Hl H. ok_inv.
  destruct_product. ok_inv.
  match goal with H : ensure_primary_key _ _ = _ |- _ => apply ensure_primary_key_Ok in H as [-> Hp] end.
  match goal with H : ensure_no_parent _ _ = _ |- _ => apply ensure_no_parent_Ok in H as Hpp end.
  match goal with H : fold_check _ _ _ = _ |- _ => apply check_children_Ok in H as [Hfree Hnd] end.
  match goal with H : call_elsewhere _ _ = _ |- _ =>
    pose proof (call_elsewhere_id_ok _ _ _ _ Hok H) as Hok1;
    apply call_elsewhere_ok in H as (EI & ER & _) end.
  match goal with H : make_children _ _ = _ |- _ =>
    apply make_children_Ok in H as (EK' & ER' & _ & E1 & Hnd2 & Hc); [|done] end.
  eapply link_children_ok; [| | | | | | |exact H]; simpl; rewrite ?ER', ?ER.
  - destruct Hok1 as [Hk1 Hc1]. split; simpl; rewrite ?EK', ?ER'.
    + by eapply keys_ok_ext.
    + by eapply claims_ok_ext.
  - eapply primary_exists; [apply Hok|done].
  - done.
  - by rewrite E1.
  - done.
  - intros k. rewrite E1, EK', EI. intros (c & -> & Hin)%list_elem_of_fmap. by apply Hfree.
  - intros c Hin. apply Hc in Hin as [Hin _]. by rewrite <- ER.
Qed.

Lemma create_child_call_ok o k w w' :
  identity_ok w → create_child_identity o k w = (Ok tt, w') → identity_ok w'.
Proof.
  unfold create_child_identity, unverified_create_child_identity, deposit_event. intros Hok H.
  ok_inv. destruct_product. ok_inv.
  match goal with H : ensure_primary_key _ _ = _ |- _ => apply ensure_primary_key_Ok in H as [-> Hp] end.
  match goal with H : ensure_no_parent _ _ = _ |- _ => apply ensure_no_parent_Ok in H as Hpp end.
  match goal with H : ensure_secondary_key _ _ _ = _ |- _ =>
    apply ensure_secondary_key_Ok in H as [p Hs] end.
  match goal with H : remove_key_record _ _ _ = _ |- _ =>
    apply (remove_secondary_ok _ _ p) in H as (Hok1 & EK & ED & EP); [|done|done] end.
  match goal with H : call_elsewhere _ _ = _ |- _ =>
    apply call_elsewhere_ok in H as (EI & ER & _) end. simpl in EI, ER.
  match goal with H : make_did _ = _ |- _ =>
    apply make_did_Ok in H as (_ & Hd & EK' & ER' & _ & _) end.
  rewrite EI, EK in EK'. rewrite ER in *.
  eapply link_child_ok in H as [? _]; [done|..]; rewrite ?ER', ?ER, ?EK'.
  - destruct Hok1 as [Hk1 Hc1]. split; rewrite ?ER', ?ER, ?EK'; [|done]. by rewrite <- EK.
  - apply lookup_delete_eq.
  - done.
  - rewrite ED. eapply primary_exists; [apply Hok|done].
  - by rewrite EP.
Qed.

(** Keys that come and go. *)
Lemma key_call_ok o c w w' :
  identity_ok w →
  match c with
  | LeaveIdentityAsKey | SetSecondaryKeyPermissions _ _ | FreezeSecondaryKeys
  | UnfreezeSecondaryKeys | AddSecondaryKeysWithAuthorization _ _ | RemoveSecondaryKeys _
  | UnlinkChildIdentity _ | ChangeCddRequirementForMkRotation _ => True
  | _ => False
  end →
  dispatch o c w = (Ok tt, w') → identity_ok w'.
Proof.
  intros Hok Hc H. destruct c; try done; simpl in H; clear Hc.
  - unfold change_cdd_requirement_for_mk_rotation, on_records, on_rest, deposit_event in H. ok_inv.
    destruct Hok as [Hk Hc]. split; simpl; [by eapply keys_ok_ext|by eapply claims_ok_ext].
  - unfold leave_identity, deposit_event in H. ok_inv. destruct_product. ok_inv.
    match goal with H : ensure_secondary_key _ _ _ = _ |- _ =>
      apply ensure_secondary_key_Ok in H as [p Hs] end.
    match goal with H : remove_key_record _ _ _ = _ |- _ =>
      apply (remove_secondary_ok _ _ p) in H as (Hok1 & _); [by eapply identity_ok_ext|done|done] end.
  - unfold set_secondary_key_permissions, on_identity, deposit_event in H. ok_inv. destruct_product.
    ok_inv. match goal with H : ensure_secondary_key _ _ _ = _ |- _ =>
      apply ensure_secondary_key_Ok in H as [p' Hs] end.
    rewrite Hs in H. ok_inv. destruct Hok as [Hk Hc]. split; simpl; [|done].
    by eapply keys_ok_set_secondary.
  - unfold set_frozen_secondary_key_flags, on_identity, deposit_event in H. ok_inv.
    destruct_product. ok_inv. by eapply identity_ok_ext.
  - unfold set_frozen_secondary_key_flags, on_identity, deposit_event in H. ok_inv.
    destruct_product. ok_inv. by eapply identity_ok_ext.
  - unfold add_secondary_keys_with_authorization, on_records, on_rest, deposit_event in H. ok_inv.
    destruct_product. ok_inv.
    match goal with H : ensure_primary_key _ _ = _ |- _ =>
      apply ensure_primary_key_Ok in H as [-> Hp] end.
    match goal with H : call_elsewhere _ _ = _ |- _ =>
      pose proof (call_elsewhere_id_ok _ _ _ _ Hok H) as Hok1;
      apply call_elsewhere_ok in H as (EI & ER & _) end.
    match goal with H : for_each _ _ _ = _ |- _ => apply add_secondaries_ok in H as [Hk Hc] end.
    + split; simpl; [by eapply keys_ok_ext|by eapply claims_ok_ext].
    + done.
    + rewrite ER. eapply primary_exists; [apply Hok|done].
  - unfold remove_secondary_keys, deposit_event in H. ok_inv. destruct_product. ok_inv.
    match goal with H : for_each _ _ _ = _ |- _ => eapply remove_secondaries_ok in H;
      [by eapply identity_ok_ext|done|] end.
    intros k Hk. match goal with H : for_check _ _ = _ |- _ =>
      eapply for_check_Ok in H; [|exact Hk] end. ok_inv. by eapply ensure_secondary_key_Ok.
  - unfold unlink_child_identity, on_records, on_rest, deposit_event in H. ok_inv. destruct_product.
    ok_inv. destruct Hok as [Hk Hc]. split; simpl; [|by eapply claims_ok_ext].
    by apply keys_ok_remove_child.
Qed.

Definition small_call (c : call) : Prop :=
  match c with CreateChildIdentities l _ => Base.len l ≤ u32_max | _ => True end.

(** Every successful call of the pallet keeps the bookkeeping. *)
Lemma identity_dispatch_ok o c w w' :
  group_keeps_identities → small_call c → identity_ok w → dispatch o c w = (Ok tt, w') → identity_ok w'.
Proof.
  intros Hg Hs Hok H. destruct c; try (refine (key_call_ok o _ w w' Hok _ H); exact I);
    try (apply (claim_call_ok _ _ _ _ Hok) in H; [done|naive_solver]); simpl in H.
  - apply (register_call_ok o a l None w w' Hok). by left.
  - unfold base_invalidate_cdd_claims, deposit_event in H. ok_inv. eapply identity_ok_ext; [by eapply Hg|done|done].
  - apply (register_call_ok o a l expiry w w' Hok). by right.
  - apply (rotation_call_ok o rotation cdd w w' Hok). by left.
  - apply (rotation_call_ok o rotation cdd w w' Hok). by right.
  - by eapply join_call_ok.
  - ok_inv. unfold Identity.base_add_authorization in *. ok_inv. by eapply add_auth_ok.
  - unfold Identity.base_remove_authorization, Identity.unsafe_remove_auth,
      Identity.erase_auth, on_identity,
      deposit_event in H. ok_inv. by eapply identity_ok_ext.
  - by eapply create_child_call_ok.
  - by eapply create_children_call_ok.
Qed.
End world.
End KeysInv.
