(* ===== verification/Agents.v ===== *)
(** External agents (src/pallets/external-agents/src/lib.rs): the groups of
    agents of an asset, who may act for it, and the count of full agents that
    keeps an asset from being orphaned. *)

From stdpp Require Import base numbers list gmap sets strings.
From S2P Require Import Prelude Subset Types SettlementTypes Schedules State Identity.

Local Open Scope N_scope.

Module Agents.
(* ---------------------------------------------------------------- *)
(** ** Permissions *)

(** [agent_permissions]. *)
Definition agent_permissions (t : Ticker) (agent : IdentityId) (w : World)
    : ExtrinsicPermissions :=
  match GroupOfAgent (agents w) !! (t, agent) with
  | None => Subset.empty
  | Some Full => Whole
  | Some (CustomGroup ag_id) =>
      default Subset.empty (GroupPermissions (agents w) !! (t, ag_id))
  | Some ExceptMeta => Subset.except (entire_pallet "ExternalAgents")
  | Some PolymeshV1CAA =>
      Subset.elems [entire_pallet "CorporateAction"; entire_pallet "CorporateBallot";
                    entire_pallet "CapitalDistribution"]
  | Some PolymeshV1PIA =>
      Subset.elems
        [mkPalletPermissions "Sto" (Subset.except ("invest" : string));
         mkPalletPermissions "Asset"
           (Subset.elems (["issue"; "redeem"; "controller_transfer"] : list string))]
  end.

Definition ensure_agent_permissioned (t : Ticker) (agent : IdentityId) : Chk unit := λ w,
  ensure (sufficient_for (agent_permissions t agent w) (CurrentPalletName (identity w))
            (CurrentDispatchableName (identity w)))
    (EAgents UnauthorizedAgent).

Definition ensure_asset_perms (o : Origin) (t : Ticker) : Chk PermissionedCallOriginData :=
  λ w,
    data ← Identity.ensure_origin_call_permissions o w ;
    match secondary_key data with
    | Some sk => ensure (has_asset_permission sk t) (EAgents SecondaryKeyNotAuthorizedForAsset)
    | None => Ok tt
    end ;;
    Ok data.

Definition ensure_agent_asset_perms (o : Origin) (t : Ticker)
    : Chk PermissionedCallOriginData := λ w,
  data ← ensure_asset_perms o t w ;
  ensure_agent_permissioned t (primary_did data) w ;;
  Ok data.

Definition ensure_perms (o : Origin) (t : Ticker) : Chk IdentityId := λ w,
  primary_did <$> ensure_agent_asset_perms o t w.

Definition ensure_custom_agent_group_exists (t : Ticker) (id : AGId) : Chk unit := λ w,
  ensure (bool_decide (1 ≤ id) && bool_decide (id ≤ getd 0 (AGIdSequence (agents w)) t))
    (EAgents NoSuchAG).

Definition ensure_agent_group_valid (t : Ticker) (g : AgentGroup) : Chk unit := λ w,
  match g with
  | CustomGroup id => ensure_custom_agent_group_exists t id w
  | _ => Ok tt
  end.

(* ---------------------------------------------------------------- *)
(** ** Updates *)

Definition dec_full_count (t : Ticker) : M unit :=
  n ← check (λ w,
    match checked_sub (getd 0 (NumFullAgents (agents w)) t) 1 with
    | Some x => if bool_decide (0 < x) then Ok x else Err (EAgents RemovingLastFullAgent)
    | None => Err (EAgents RemovingLastFullAgent)
    end) ;
  on_agents (λ s, s <| NumFullAgents ::= <[t := n]> |>).

Definition inc_full_count (t : Ticker) : M unit :=
  '(_, n) ← check (λ w, Base.try_next_post u32_max (getd 0 (NumFullAgents (agents w)) t)) ;
  on_agents (λ s, s <| NumFullAgents ::= <[t := n]> |>).

(** The match of [try_mutate_agents_group] on the old and the new group. *)
Definition transition_full_count (t : Ticker) (slot group : option AgentGroup) : M unit :=
  match slot, group with
  | Some Full, Some Full => mret tt
  | Some Full, _ => dec_full_count t
  | _, Some Full => inc_full_count t
  | _, _ => mret tt
  end.

Definition try_mutate_agents_group (t : Ticker) (agent : IdentityId)
    (group : option AgentGroup) : M unit :=
  slot ← gets (λ w, GroupOfAgent (agents w) !! (t, agent)) ;
  check (λ _, ensure (bool_decide (is_Some slot)) (EAgents NotAnAgent)) ;;
  transition_full_count t slot group ;;
  (if group is None then on_agents (λ s, s <| AgentOf ::= λ a, a ∖ {[(agent, t)]} |>)
   else mret tt) ;;
  on_agents (λ s, s <| GroupOfAgent ::= partial_alter (λ _, group) (t, agent) |>).

Definition unchecked_add_agent (t : Ticker) (d : IdentityId) (g : AgentGroup) : M unit :=
  (if decide (g = Full) then inc_full_count t else mret tt) ;;
  on_agents (λ s, s <| GroupOfAgent ::= <[(t, d) := g]> |>
                    <| AgentOf ::= λ a, {[(d, t)]} ∪ a |>) ;;
  deposit_event (AgentAdded d t g).

Definition unsafe_change_group (d : IdentityId) (t : Ticker) (agent : IdentityId)
    (g : AgentGroup) : M unit :=
  check (ensure_agent_group_valid t g) ;;
  try_mutate_agents_group t agent (Some g) ;;
  deposit_event (GroupChanged d t agent g).

(* ---------------------------------------------------------------- *)
(** ** Dispatchables *)

Definition base_create_group (o : Origin) (t : Ticker) (perms : ExtrinsicPermissions)
    : M (IdentityId * AGId) :=
  d ← check (ensure_perms o t) ;
  check (λ _, Identity.ensure_extrinsic_perms_length_limited perms) ;;
  '(id, seq) ← check (λ w, Base.try_next_pre u32_max (getd 0 (AGIdSequence (agents w)) t)) ;
  on_agents (λ s, s <| AGIdSequence ::= <[t := seq]> |>) ;;
  on_agents (λ s, s <| GroupPermissions ::= <[(t, id) := perms]> |>) ;;
  deposit_event (GroupCreated d t id perms) ;;
  mret (d, id).

Definition create_group (o : Origin) (t : Ticker) (perms : ExtrinsicPermissions) : M unit :=
  base_create_group o t perms ;; mret tt.

(** [base_set_group_permissions]. *)
Definition set_group_permissions (o : Origin) (t : Ticker) (id : AGId)
    (perms : ExtrinsicPermissions) : M unit :=
  d ← check (ensure_perms o t) ;
  check (λ _, Identity.ensure_extrinsic_perms_length_limited perms) ;;
  check (ensure_custom_agent_group_exists t id) ;;
  on_agents (λ s, s <| GroupPermissions ::= <[(t, id) := perms]> |>) ;;
  deposit_event (GroupPermissionsUpdated d t id perms).

(** [base_remove_agent]. *)
Definition remove_agent (o : Origin) (t : Ticker) (agent : IdentityId) : M unit :=
  d ← check (ensure_perms o t) ;
  try_mutate_agents_group t agent None ;;
  deposit_event (AgentRemoved d t agent).

(** [base_abdicate]. *)
Definition abdicate (o : Origin) (t : Ticker) : M unit :=
  data ← check (ensure_asset_perms o t) ;
  let d := primary_did data in
  try_mutate_agents_group t d None ;;
  deposit_event (AgentRemoved d t d).

(** [base_change_group]. *)
Definition change_group (o : Origin) (t : Ticker) (agent : IdentityId) (g : AgentGroup)
    : M unit :=
  d ← check (ensure_perms o t) ;
  unsafe_change_group d t agent g.

(** [base_accept_become_agent]. *)
Definition accept_become_agent (o : Origin) (auth_id : N) : M unit :=
  to ← check (Identity.ensure_perms o) ;
  Identity.accept_auth_with (SigIdentity to) auth_id (λ data from,
    match data with
    | BecomeAgent t g =>
        check (ensure_agent_permissioned t from) ;;
        check (ensure_agent_group_valid t g) ;;
        check (λ w, ensure (negb (has_key (GroupOfAgent (agents w)) (t, to)))
                      (EAgents AlreadyAnAgent)) ;;
        unchecked_add_agent t to g
    | _ => throw (EAuth AuthBadType)
    end).

(** [base_create_group_and_add_auth]. *)
Definition create_group_and_add_auth (o : Origin) (t : Ticker)
    (perms : ExtrinsicPermissions) (target : IdentityId) (expiry : option Moment)
    : M unit :=
  '(d, ag_id) ← base_create_group o t perms ;
  Identity.add_auth d (SigIdentity target) (BecomeAgent t (CustomGroup ag_id)) expiry ;;
  mret tt.

Definition base_create_and_change_custom_group (o : Origin) (t : Ticker)
    (perms : ExtrinsicPermissions) (agent : IdentityId) : M unit :=
  '(d, ag_id) ← base_create_group o t perms ;
  unsafe_change_group d t agent (CustomGroup ag_id).

Definition create_and_change_custom_group (o : Origin) (t : Ticker)
    (perms : ExtrinsicPermissions) (agent : IdentityId) : M unit :=
  with_storage_transaction (base_create_and_change_custom_group o t perms agent).

(* ---------------------------------------------------------------- *)
(** ** Invariant *)

(** The number of full agents of a ticker. *)
Definition full_agents (m : gmap (Ticker * IdentityId) AgentGroup) (t : Ticker) : N :=
  msum (λ k g, if decide (k.1 = t ∧ g = Full) then 1 else 0) m.

Definition group_exists (s : AgentsStore) (t : Ticker) (g : AgentGroup) : Prop :=
  match g with
  | CustomGroup id => 1 ≤ id ≤ getd 0 (AGIdSequence s) t
  | _ => True
  end.

Record agents_ok (s : AgentsStore) : Prop := {
  ok_count : ∀ t, getd 0 (NumFullAgents s) t = full_agents (GroupOfAgent s) t;
  ok_of : ∀ t d, (d, t) ∈ AgentOf s ↔ is_Some (GroupOfAgent s !! (t, d));
  ok_groups : ∀ t d g, GroupOfAgent s !! (t, d) = Some g → group_exists s t g;
  ok_perms : ∀ t id, is_Some (GroupPermissions s !! (t, id)) ↔
               1 ≤ id ≤ getd 0 (AGIdSequence s) t;
}.

(** Changing one agent's slot moves the count of its ticker. *)
Lemma full_agents_alter m t a g t' :
  full_agents (partial_alter (λ _, g) (t, a) m) t' +
    (if decide (t = t' ∧ m !! (t, a) = Some Full) then 1 else 0) =
  full_agents m t' + (if decide (t = t' ∧ g = Some Full) then 1 else 0).
Proof.
  unfold full_agents.
  pose (f := λ (k : Ticker * IdentityId) (g : AgentGroup),
               if decide (k.1 = t' ∧ g = Full) then 1 else 0).
  assert (f (t, a) ExceptMeta = 0) as H0.
  { unfold f. rewrite decide_False; naive_solver. }
  assert (f (t, a) (getd ExceptMeta m (t, a)) =
    if decide (t = t' ∧ m !! (t, a) = Some Full) then 1 else 0) as Hold.
  { unfold f, getd. simpl. destruct (m !! (t, a)); simpl; repeat case_decide; naive_solver. }
  rewrite <- Hold. destruct g as [g|].
  - pose proof (msum_insert ExceptMeta f m (t, a) g H0) as Hi.
    assert (f (t, a) g = if decide (t = t' ∧ Some g = Some Full) then 1 else 0) as <-;
      [unfold f; simpl; repeat case_decide; naive_solver|exact Hi].
  - pose proof (msum_delete ExceptMeta f m (t, a) H0) as Hd.
    rewrite decide_False by naive_solver. rewrite N.add_0_r. exact Hd.
Qed.

(** The updates of the agent store, as the pallet means them: a new custom
    group, new permissions of a group, and a new value of one agent's slot,
    which comes with the matching change of [AgentOf] and of the full count,
    and takes no last full agent away. *)
Inductive update (s : AgentsStore) : AgentsStore → Prop :=
  | update_group t perms :
      let id := getd 0 (AGIdSequence s) t + 1 in
      update s (s <| AGIdSequence ::= <[t := id]> |>
                  <| GroupPermissions ::= <[(t, id) := perms]> |>)
  | update_perms t id perms :
      1 ≤ id ≤ getd 0 (AGIdSequence s) t →
      update s (s <| GroupPermissions ::= <[(t, id) := perms]> |>)
  | update_slot t a g s' :
      (∀ g', g = Some g' → group_exists s t g') →
      GroupOfAgent s' = partial_alter (λ _, g) (t, a) (GroupOfAgent s) →
      AGIdSequence s' = AGIdSequence s → GroupPermissions s' = GroupPermissions s →
      AgentOf s' = (if g is None then AgentOf s ∖ {[(a, t)]} else {[(a, t)]} ∪ AgentOf s) →
      (∀ t', getd 0 (NumFullAgents s') t' +
         (if decide (t = t' ∧ GroupOfAgent s !! (t, a) = Some Full) then 1 else 0) =
       getd 0 (NumFullAgents s) t' + (if decide (t = t' ∧ g = Some Full) then 1 else 0)) →
      (GroupOfAgent s !! (t, a) = Some Full → g ≠ Some Full →
         1 < getd 0 (NumFullAgents s) t) →
      update s s'.

Lemma update_ok s s' : agents_ok s → update s s' → agents_ok s'.
Proof.
  intros [Hc Ho Hg Hp] Hu.
  destruct Hu as [t perms id|t id perms Hid|t a g s' Hvalid HG HS HP HA HN _].
  - constructor; simpl; try done.
    + intros t' d g Hd. specialize (Hg t' d g Hd). destruct g; simpl in *; try done.
      rewrite getd_insert. case_decide; subst id; subst; lia.
    + intros t' id'. rewrite lookup_insert, getd_insert.
      repeat case_decide; simplify_eq.
      * split; [lia|by eexists].
      * rewrite Hp. assert (id' ≠ id) by naive_solver. subst id. lia.
      * apply Hp.
  - constructor; simpl; try done. intros t' id'. rewrite lookup_insert.
    case_decide; simplify_eq; [|apply Hp]. split; [done|by eexists].
  - constructor.
    + intros t'. pose proof (full_agents_alter (GroupOfAgent s) t a g t') as Hf.
      rewrite HG. specialize (HN t'). rewrite Hc in HN. lia.
    + clear HN. intros t' d. rewrite HA, HG, lookup_partial_alter.
      specialize (Ho t' d). destruct g; case_decide; simplify_eq; unfold is_Some; set_solver.
    + clear HN. intros t' d g'. rewrite HG, lookup_partial_alter. unfold group_exists.
      rewrite HS. case_decide; simplify_eq; [by apply Hvalid|by apply Hg].
    + intros t' id. rewrite HP, HS. apply Hp.
Qed.

(** A full agent is never the last to go. *)
Lemma update_full_pos s s' t :
  0 < getd 0 (NumFullAgents s) t → update s s' → 0 < getd 0 (NumFullAgents s') t.
Proof.
  intros Hpos Hu. destruct Hu as [| |t' a g s' _ _ _ _ _ HN Hlast]; simpl; try done.
  specialize (HN t). repeat case_decide; try lia; naive_solver lia.
Qed.

Lemma inc_full_count_Ok t w w' :
  inc_full_count t w = (Ok tt, w') →
  w' = w <| agents ::= λ s, s <| NumFullAgents ::=
               <[t := getd 0 (NumFullAgents (agents w)) t + 1]> |> |>.
Proof.
  unfold inc_full_count, on_agents. intros H. ok_inv.
  match goal with x : (N * N)%type |- _ => destruct x end.
  ok_inv.
  match goal with H : Base.try_next_post _ _ = _ |- _ =>
    apply Base.try_next_post_Ok in H as (-> & -> & _) end.
  done.
Qed.

Lemma dec_full_count_Ok t w w' :
  dec_full_count t w = (Ok tt, w') →
  1 < getd 0 (NumFullAgents (agents w)) t ∧
  w' = w <| agents ::= λ s, s <| NumFullAgents ::=
               <[t := getd 0 (NumFullAgents (agents w)) t - 1]> |> |>.
Proof.
  unfold dec_full_count, on_agents. intros H. ok_inv. ok_case.
  match goal with H : checked_sub _ _ = Some _ |- _ =>
    apply checked_sub_Some in H as [-> ?] end.
  split; [lia|done].
Qed.

Lemma transition_full_count_Ok t old g w w' :
  transition_full_count t (Some old) g w = (Ok tt, w') →
  ∃ m, w' = w <| agents ::= λ s, s <| NumFullAgents := m |> |> ∧
    (∀ t', getd 0 m t' + (if decide (t = t' ∧ Some old = Some Full) then 1 else 0) =
       getd 0 (NumFullAgents (agents w)) t' +
       (if decide (t = t' ∧ g = Some Full) then 1 else 0)) ∧
    (old = Full → g ≠ Some Full → 1 < getd 0 (NumFullAgents (agents w)) t).
Proof.
  intros H.
  destruct (decide (old = Full)) as [->|Hnf], (decide (g = Some Full)) as [->|Hng].
  - simpl in H. ok_inv. exists (NumFullAgents (agents w)).
    split_and!; [by destruct w as [? ? ? ? ? ? []]|done|naive_solver].
  - assert (dec_full_count t w = (Ok tt, w')) as [Hlt ->]%dec_full_count_Ok.
    { destruct g as [[]|]; done. }
    eexists. split_and!; [done| |done].
    intros t'. rewrite getd_insert. repeat case_decide; naive_solver lia.
  - assert (inc_full_count t w = (Ok tt, w')) as ->%inc_full_count_Ok.
    { destruct old; done. }
    eexists. split_and!; [done| |done].
    intros t'. rewrite getd_insert. repeat case_decide; naive_solver lia.
  - assert (w' = w) as ->.
    { destruct old, g as [[]|]; simpl in H; ok_inv; done. }
    exists (NumFullAgents (agents w)).
    split_and!; [by destruct w as [? ? ? ? ? ? []]| |done].
    intros t'. repeat case_decide; naive_solver lia.
Qed.

(** What a successful [try_mutate_agents_group] did. *)
Lemma try_mutate_agents_group_Ok t a g w w' :
  try_mutate_agents_group t a g w = (Ok tt, w') →
  ∃ old, GroupOfAgent (agents w) !! (t, a) = Some old ∧
    GroupOfAgent (agents w') = partial_alter (λ _, g) (t, a) (GroupOfAgent (agents w)) ∧
    AGIdSequence (agents w') = AGIdSequence (agents w) ∧
    GroupPermissions (agents w') = GroupPermissions (agents w) ∧
    AgentOf (agents w') = (if g is None then AgentOf (agents w) ∖ {[(a, t)]}
                           else AgentOf (agents w)) ∧
    (∀ t', getd 0 (NumFullAgents (agents w')) t' +
       (if decide (t = t' ∧ Some old = Some Full) then 1 else 0) =
     getd 0 (NumFullAgents (agents w)) t' +
       (if decide (t = t' ∧ g = Some Full) then 1 else 0)) ∧
    (old = Full → g ≠ Some Full → 1 < getd 0 (NumFullAgents (agents w)) t).
Proof.
  unfold try_mutate_agents_group, on_agents. intros H. ok_inv.
  destruct (GroupOfAgent (agents w) !! (t, a)) as [old|] eqn:Hold;
    [|unfold is_Some in *; naive_solver]. exists old. split; [done|].
  match goal with H : transition_full_count _ _ _ _ = _ |- _ =>
    apply transition_full_count_Ok in H as (m & -> & Hn & Hlt) end.
  destruct g; ok_inv; split_and!; done.
Qed.

Lemma try_mutate_agents_update t a g w w' :
  agents_ok (agents w) → (∀ g', g = Some g' → group_exists (agents w) t g') →
  try_mutate_agents_group t a g w = (Ok tt, w') → update (agents w) (agents w').
Proof.
  intros Hok Hv (old & Hold & HG & HS & HP & HA & HN & Hl)%try_mutate_agents_group_Ok.
  eapply (update_slot _ t a g); try done; rewrite ?Hold; try done; [|naive_solver].
  rewrite HA. destruct g; [|done].
  assert ((a, t) ∈ AgentOf (agents w)) by by apply (ok_of _ Hok). set_solver.
Qed.

Lemma unchecked_add_agent_update t d g w w' :
  group_exists (agents w) t g → GroupOfAgent (agents w) !! (t, d) = None →
  unchecked_add_agent t d g w = (Ok tt, w') → update (agents w) (agents w').
Proof.
  intros Hg Hnone. unfold unchecked_add_agent, on_agents, deposit_event. intros H.
  eapply (update_slot _ t d (Some g)); rewrite ?Hnone; try done; [naive_solver|..];
    ok_inv; case_decide as Hf; subst; ok_inv;
    try match goal with H : inc_full_count _ _ = _ |- _ =>
      apply inc_full_count_Ok in H as -> end; simpl; try done.
  - intros t'. rewrite getd_insert. repeat case_decide; naive_solver lia.
  - intros t'. repeat case_decide; naive_solver lia.
Qed.

Lemma ensure_agent_group_valid_Ok t g w :
  ensure_agent_group_valid t g w = Ok tt → group_exists (agents w) t g.
Proof.
  unfold ensure_agent_group_valid, ensure_custom_agent_group_exists, group_exists.
  destruct g; try done. intros H. ok_inv. done.
Qed.

Lemma base_create_group_Ok o t perms w w' d id :
  base_create_group o t perms w = (Ok (d, id), w') →
  ensure_perms o t w = Ok d ∧ id = getd 0 (AGIdSequence (agents w)) t + 1 ∧
  w' = w <| agents ::= λ s, s <| AGIdSequence ::= <[t := id]> |>
                              <| GroupPermissions ::= <[(t, id) := perms]> |> |>
         <| events ::= λ l, l ++ [GroupCreated d t id perms] |>.
Proof.
  unfold base_create_group, on_agents, deposit_event. intros H. ok_inv.
  match goal with x : (N * N)%type |- _ => destruct x end. ok_inv. simplify_eq.
  match goal with H : Base.try_next_pre _ _ = _ |- _ =>
    apply Base.try_next_pre_Ok in H as (-> & -> & _) end.
  done.
Qed.

Lemma base_create_group_update o t perms w w' r :
  base_create_group o t perms w = (Ok r, w') → update (agents w) (agents w').
Proof. destruct r as [d id]. intros (_ & -> & ->)%base_create_group_Ok. constructor. Qed.

(* ---------------------------------------------------------------- *)
(** ** The pallet as a transition system *)

(** The calls of the pallet. *)
Inductive call : Type :=
  | CreateGroup (t : Ticker) (perms : ExtrinsicPermissions)
  | SetGroupPermissions (t : Ticker) (id : AGId) (perms : ExtrinsicPermissions)
  | RemoveAgent (t : Ticker) (agent : IdentityId)
  | Abdicate (t : Ticker)
  | ChangeGroup (t : Ticker) (agent : IdentityId) (g : AgentGroup)
  | AcceptBecomeAgent (auth_id : N)
  | CreateGroupAndAddAuth (t : Ticker) (perms : ExtrinsicPermissions)
      (target : IdentityId) (expiry : option Moment)
  | CreateAndChangeCustomGroup (t : Ticker) (perms : ExtrinsicPermissions)
      (agent : IdentityId).

Definition dispatch (o : Origin) (c : call) : M unit :=
  match c with
  | CreateGroup t perms => create_group o t perms
  | SetGroupPermissions t id perms => set_group_permissions o t id perms
  | RemoveAgent t agent => remove_agent o t agent
  | Abdicate t => abdicate o t
  | ChangeGroup t agent g => change_group o t agent g
  | AcceptBecomeAgent id => accept_become_agent o id
  | CreateGroupAndAddAuth t perms target expiry =>
      create_group_and_add_auth o t perms target expiry
  | CreateAndChangeCustomGroup t perms agent =>
      create_and_change_custom_group o t perms agent
  end.

(** A call that returns an error is rolled back by the dispatcher, so the
    steps of the chain are the successful calls. *)
Inductive step (w w' : World) : Prop :=
  | step_call o c : dispatch o c w = (Ok tt, w') → step w w'.

Lemma unsafe_change_group_update d t a g w w' :
  agents_ok (agents w) → unsafe_change_group d t a g w = (Ok tt, w') →
  update (agents w) (agents w').
Proof.
  unfold unsafe_change_group, deposit_event. intros Hok H. ok_inv.
  eapply try_mutate_agents_update; [exact Hok| |eassumption].
  intros g' [= <-]. by apply ensure_agent_group_valid_Ok.
Qed.

Lemma accept_become_agent_update o id w w' :
  accept_become_agent o id w = (Ok tt, w') → update (agents w) (agents w').
Proof.
  unfold accept_become_agent. intros H. ok_inv.
  apply Identity.accept_auth_with_Ok in H as (auth & w1 & _ & _ & H & ->). simpl.
  destruct (authorization_data auth); ok_inv.
  eapply unchecked_add_agent_update; [by apply ensure_agent_group_valid_Ok| |done].
  by apply has_key_false.
Qed.

(** The detailed calls implement the abstract updates: every successful call
    is one of them, or a new group followed by a move into it. *)
Lemma dispatch_update o c w w' :
  agents_ok (agents w) → dispatch o c w = (Ok tt, w') → rtc update (agents w) (agents w').
Proof.
  intros Hok. destruct c; simpl; intros H.
  - unfold create_group in H. ok_inv. eapply rtc_once, base_create_group_update. done.
  - unfold set_group_permissions, on_agents, deposit_event in H. ok_inv.
    unfold ensure_custom_agent_group_exists in *. ok_inv. by apply rtc_once, update_perms.
  - unfold remove_agent, deposit_event in H. ok_inv.
    by eapply rtc_once, try_mutate_agents_update; [exact Hok| |eassumption].
  - unfold abdicate, deposit_event in H. ok_inv.
    by eapply rtc_once, try_mutate_agents_update; [exact Hok| |eassumption].
  - unfold change_group in H. ok_inv. by eapply rtc_once, unsafe_change_group_update.
  - by eapply rtc_once, accept_become_agent_update.
  - unfold create_group_and_add_auth, Identity.add_auth, on_identity, deposit_event in H.
    ok_inv. destruct_product. ok_inv. eapply rtc_once, base_create_group_update. done.
  - apply with_storage_transaction_Ok in H.
    unfold base_create_and_change_custom_group in H. ok_inv. destruct_product.
    match goal with H : base_create_group _ _ _ _ = _ |- _ =>
      apply base_create_group_update in H as Hu end.
    eapply rtc_l; [exact Hu|]. eapply rtc_once, unsafe_change_group_update; [|done].
    by eapply update_ok.
Qed.

(** *** What the calls leave alone *)

(** Only the agents, the authorizations and the events change. *)
Definition agents_only (w w' : World) : Prop :=
  asset w' = asset w ∧ portfolio w' = portfolio w ∧ checkpoint w' = checkpoint w ∧
  nft w' = nft w ∧ settlement w' = settlement w ∧ now w' = now w.

Definition has_agent (s : AgentsStore) (t : Ticker) : Prop :=
  ∃ d, is_Some (GroupOfAgent s !! (t, d)).

Lemma try_mutate_agents_frame t a g w w' :
  try_mutate_agents_group t a g w = (Ok tt, w') → agents_only w w'.
Proof.
  unfold try_mutate_agents_group, transition_full_count, dec_full_count, inc_full_count,
    on_agents. intros H. ok_inv.
  destruct (GroupOfAgent (agents w) !! (t, a)) as [[]|], g as [[]|]; ok_inv;
    destruct_product; ok_inv; done.
Qed.

Lemma agents_only_trans w1 w2 w3 : agents_only w1 w2 → agents_only w2 w3 → agents_only w1 w3.
Proof. unfold agents_only. intros. destruct_and!. split_and!; congruence. Qed.

Lemma try_mutate_has_agent t a g w w' t' :
  try_mutate_agents_group t a g w = (Ok tt, w') →
  has_agent (agents w') t' → has_agent (agents w) t'.
Proof.
  intros (old & Hold & HG & _)%try_mutate_agents_group_Ok [d Hd]. rewrite HG in Hd.
  destruct (decide ((t, a) = (t', d))) as [He|Hne].
  - simplify_eq. by exists d, old.
  - rewrite lookup_partial_alter_ne in Hd by done. by exists d.
Qed.

Lemma try_mutate_frame t a g w w' e :
  try_mutate_agents_group t a g w = (Ok tt, w') →
  agents_only w (w' <| events ::= e |>) ∧
  ∀ t', has_agent (agents w') t' → has_agent (agents w) t'.
Proof.
  intros H. split; [by apply try_mutate_agents_frame in H|].
  intros t'. by eapply try_mutate_has_agent.
Qed.

Lemma unchecked_add_agent_Ok t d g w w' :
  unchecked_add_agent t d g w = (Ok tt, w') →
  agents_only w w' ∧ GroupOfAgent (agents w') = <[(t, d) := g]> (GroupOfAgent (agents w)).
Proof.
  unfold unchecked_add_agent, inc_full_count, on_agents, deposit_event. intros H. ok_inv.
  case_decide; ok_inv; destruct_product; ok_inv; done.
Qed.

(** A permissioned agent is one. *)
Lemma ensure_agent_permissioned_Ok t a w :
  ensure_agent_permissioned t a w = Ok tt → is_Some (GroupOfAgent (agents w) !! (t, a)).
Proof.
  unfold ensure_agent_permissioned, agent_permissions. intros H. ok_inv.
  destruct (GroupOfAgent (agents w) !! (t, a)); [by eexists|]. by simpl in *.
Qed.

(** No call of the pallet makes the first agent of a ticker. *)
Lemma agents_dispatch_frame o c w w' :
  dispatch o c w = (Ok tt, w') →
  agents_only w w' ∧ ∀ t, has_agent (agents w') t → has_agent (agents w) t.
Proof.
  destruct c; simpl; intros H.
  - unfold create_group in H. ok_inv. destruct_product.
    match goal with H : base_create_group _ _ _ _ = _ |- _ =>
      apply base_create_group_Ok in H as (_ & -> & ->) end. done.
  - unfold set_group_permissions, on_agents, deposit_event in H. by ok_inv.
  - unfold remove_agent, deposit_event in H. ok_inv.
    match goal with H : try_mutate_agents_group _ _ _ _ = _ |- _ =>
      exact (try_mutate_frame _ _ _ _ _ _ H) end.
  - unfold abdicate, deposit_event in H. ok_inv.
    match goal with H : try_mutate_agents_group _ _ _ _ = _ |- _ =>
      exact (try_mutate_frame _ _ _ _ _ _ H) end.
  - unfold change_group, unsafe_change_group, deposit_event in H. ok_inv.
    match goal with H : try_mutate_agents_group _ _ _ _ = _ |- _ =>
      exact (try_mutate_frame _ _ _ _ _ _ H) end.
  - unfold accept_become_agent in H. ok_inv.
    apply Identity.accept_auth_with_Ok in H as (auth & w1 & _ & _ & H & ->).
    destruct (authorization_data auth); ok_inv.
    unfold unchecked_add_agent, inc_full_count, on_agents, deposit_event in H.
    match goal with H : ensure_agent_permissioned ?t ?a _ = _ |- _ =>
      apply ensure_agent_permissioned_Ok in H as Hfrom end.
    assert (∀ t' d d' g', is_Some (<[(t, d) := g']> (GroupOfAgent (agents w)) !! (t', d')) →
      has_agent (agents w) t') as Hins.
    { intros t' d d' g' Hd. rewrite lookup_insert in Hd. case_decide; simplify_eq.
      - by exists (authorized_by auth).
      - by exists d'. }
    case_decide; ok_inv; destruct_product; ok_inv; (split; [done|]);
      intros t' [d' Hd]; simpl in Hd; by eapply Hins.
  - unfold create_group_and_add_auth, Identity.add_auth, on_identity, deposit_event in H.
    ok_inv. destruct_product. ok_inv.
    match goal with H : base_create_group _ _ _ _ = _ |- _ =>
      apply base_create_group_Ok in H as (_ & -> & ->) end. done.
  - apply with_storage_transaction_Ok in H.
    unfold base_create_and_change_custom_group, unsafe_change_group, deposit_event in H.
    ok_inv. destruct_product. ok_inv.
    match goal with H : base_create_group _ _ _ _ = _ |- _ =>
      apply base_create_group_Ok in H as (_ & -> & ->) end.
    match goal with H : try_mutate_agents_group _ _ _ _ = _ |- _ => rename H into Hm end.
    exact (try_mutate_frame _ _ _ _ _ _ Hm).
Qed.

Lemma updates_ok s s' : agents_ok s → rtc update s s' → agents_ok s'.
Proof. intros Hok Hr. induction Hr; [done|]. apply IHHr. by eapply update_ok. Qed.

Lemma updates_full_pos s s' t :
  0 < getd 0 (NumFullAgents s) t → rtc update s s' → 0 < getd 0 (NumFullAgents s') t.
Proof. intros Hp Hr. induction Hr; [done|]. apply IHHr. by eapply update_full_pos. Qed.

Lemma steps_updates w w' :
  agents_ok (agents w) → rtc step w w' → rtc update (agents w) (agents w').
Proof.
  intros Hok Hr. induction Hr as [w|w w1 w' [o c Hc] _ IH]; [done|].
  pose proof (dispatch_update o c w w1 Hok Hc) as Hu.
  etrans; [exact Hu|]. apply IH. by eapply updates_ok.
Qed.

Lemma full_agents_pos m t :
  0 < full_agents m t → ∃ d, m !! (t, d) = Some Full.
Proof.
  unfold full_agents. induction m as [|[t' d] g m Hk IH] using map_ind.
  { rewrite msum_empty. lia. }
  rewrite msum_insert_fresh by done. simpl. case_decide as Hg.
  - destruct Hg as [-> ->]. exists d. by rewrite lookup_insert_eq.
  - intros Hpos. destruct IH as [d' Hd']; [lia|]. exists d'.
    rewrite lookup_insert_ne; [done|]. intros [= -> ->]. congruence.
Qed.

Lemma agents_ok_empty : agents_ok (agents sample_world).
Proof.
  constructor; try done.
  - intros t d. simpl. rewrite lookup_empty. split; [set_solver|by intros [? ?]].
  - intros t id. simpl. rewrite lookup_empty. split; [by intros [? ?]|].
    rewrite getd_empty. lia.
Qed.

(** The sample chain with identity 1 a full agent of a ticker. *)
Definition sample_ticker : Ticker := [65; 67; 77; 69].
Definition sample_agents : World := (unchecked_add_agent sample_ticker 1 Full sample_world).2.

Lemma sample_agents_ok : agents_ok (agents sample_agents).
Proof.
  eapply update_ok; [exact agents_ok_empty|].
  by apply (unchecked_add_agent_update sample_ticker 1 Full sample_world); [..|apply run_Ok].
Qed.

(* ---------------------------------------------------------------- *)
(** ** Properties *)

(** the bookkeeping of the agents is kept by every sequence of calls of
    the external-agents pallet: [NumFullAgents] of a ticker is the number of
    its agents in group [Full], [AgentOf] lists exactly the agents of
    [GroupOfAgent], every custom group an agent is in exists, and the custom
    groups with permissions are exactly those the id sequence handed out. *)
Theorem agents_invariant (w w' : World) (Hok : agents_ok (agents w)) (Hs : rtc step w w') :
  agents_ok (agents w').
Proof. eapply updates_ok; [exact Hok|]. by apply steps_updates. Qed.

Lemma agents_invariant_witness :
  agents_ok (agents (dispatch (Signed 1) (CreateGroup sample_ticker Whole) sample_agents).2).
Proof.
  apply (agents_invariant sample_agents); [exact sample_agents_ok|].
  apply rtc_once, (step_call _ _ (Signed 1) (CreateGroup sample_ticker Whole)).
  apply run_Ok. vm_compute. reflexivity.
Defined.

(** C40: an asset is never orphaned: once a ticker has a full agent, it has
    one after every sequence of calls of the pallet, whoever makes them. *)
Theorem agents_not_orphaned (w w' : World) (t : Ticker) (Hok : agents_ok (agents w))
    (Hfull : ∃ d, GroupOfAgent (agents w) !! (t, d) = Some Full) (Hs : rtc step w w') :
  ∃ d, GroupOfAgent (agents w') !! (t, d) = Some Full.
Proof.
  assert (rtc update (agents w) (agents w')) as Hu by by apply steps_updates.
  apply full_agents_pos. rewrite <- ok_count by by eapply updates_ok.
  eapply updates_full_pos; [|exact Hu]. rewrite ok_count by done.
  destruct Hfull as [d Hd]. unfold full_agents.
  pose proof (msum_lookup_le (λ k g, if decide (k.1 = t ∧ g = Full) then 1 else 0) _ _ _ Hd)
    as Hle. simpl in Hle. rewrite decide_True in Hle by done. lia.
Qed.

Lemma agents_not_orphaned_witness :
  ∃ d, GroupOfAgent (agents (dispatch (Signed 1) (CreateGroup sample_ticker Whole)
         sample_agents).2) !! (sample_ticker, d) = Some Full.
Proof.
  apply (agents_not_orphaned sample_agents); [exact sample_agents_ok| |].
  - exists 1. vm_compute. reflexivity.
  - apply rtc_once, (step_call _ _ (Signed 1) (CreateGroup sample_ticker Whole)).
    apply run_Ok. vm_compute. reflexivity.
Defined.

(** the last full agent cannot leave or be demoted: the call fails with
    [RemovingLastFullAgent] and writes nothing. *)
Theorem last_full_agent_stays (w : World) (t : Ticker) (a : IdentityId)
    (g : option AgentGroup) (Hok : agents_ok (agents w))
    (Ha : GroupOfAgent (agents w) !! (t, a) = Some Full)
    (Hlast : full_agents (GroupOfAgent (agents w)) t = 1) (Hg : g ≠ Some Full) :
  try_mutate_agents_group t a g w = (Err (EAgents RemovingLastFullAgent), w).
Proof.
  unfold try_mutate_agents_group, gets, check, mbind, SE_bind. rewrite Ha. simpl.
  assert (dec_full_count t w = (Err (EAgents RemovingLastFullAgent), w)) as Hd.
  { unfold dec_full_count, check, mbind, SE_bind. by rewrite (ok_count _ Hok), Hlast. }
  destruct g as [[]|]; simpl; rewrite ?Hd; done.
Qed.

Lemma last_full_agent_stays_witness :
  try_mutate_agents_group sample_ticker 1 None sample_agents =
    (Err (EAgents RemovingLastFullAgent), sample_agents).
Proof.
  apply (last_full_agent_stays sample_agents sample_ticker 1 None);
    [exact sample_agents_ok|vm_compute; reflexivity|vm_compute; reflexivity|done].
Defined.
End Agents.
