(* ===== verification/Portfolio.v ===== *)
(** Portfolios (src/pallets/portfolio/src/lib.rs): balances and NFTs held per
    portfolio, the locks the settlement engine puts on them, custody, names and
    pre-approvals. *)

From stdpp Require Import base numbers list gmap sets strings.
From S2P Require Import Prelude Subset Types SettlementTypes Schedules State Identity.

Local Open Scope N_scope.

(* ------------------------------------------------------------------ *)
(** * What the portfolio pallet asks of its neighbours *)

(** [T::Asset] (src/pallets/common/src/traits/asset.rs): what the pallet reads
    of the assets depends on nothing but the asset store. *)
Class AssetFnTrait := {
  ensure_granular : Ticker → Balance → Chk unit;
  skip_ticker_affirmation : IdentityId → Ticker → World → bool;
  ticker_affirmation_exemption : Ticker → World → bool;
  ensure_granular_frame t v w w' :
    asset w = asset w' → ensure_granular t v w = ensure_granular t v w';
}.

(** [T::NFT] (src/pallets/common/src/traits/nft.rs): recording a new owner
    portfolio writes the NFT store only. *)
Class NFTTrait := {
  move_portfolio_owner : Ticker → NFTId → PortfolioId → World → World;
  move_portfolio_owner_frame t i p w :
    ∃ f, move_portfolio_owner t i p w = w <| nft ::= f |>;
}.

Module Portfolio.
Section portfolio.
Context {RT : Runtime} {AF : AssetFnTrait} {NT : NFTTrait}.

(* -------------------------------------------------------------- *)
(** ** Reads *)

Definition portfolio_asset_balances (p : PortfolioId) (t : Ticker) (w : World) : Balance :=
  getd 0 (PortfolioAssetBalances (portfolio w)) (p, t).
Definition locked_assets (p : PortfolioId) (t : Ticker) (w : World) : Balance :=
  getd 0 (PortfolioLockedAssets (portfolio w)) (p, t).
Definition asset_count (p : PortfolioId) (w : World) : N :=
  getd 0 (PortfolioAssetCount (portfolio w)) p.
Definition has_nft (p : PortfolioId) (t : Ticker) (i : NFTId) (w : World) : bool :=
  has_key (PortfolioNFT (portfolio w)) (p, (t, i)).
Definition nft_locked (p : PortfolioId) (t : Ticker) (i : NFTId) (w : World) : bool :=
  has_key (PortfolioLockedNFT (portfolio w)) (p, (t, i)).
(** [NextPortfolioNumber] starts at 1. *)
Definition next_number (d : IdentityId) (w : World) : PortfolioNumber :=
  getd 1 (NextPortfolioNumber (portfolio w)) d.

Definition custodian (p : PortfolioId) (w : World) : IdentityId :=
  default (did p) (PortfolioCustodian (portfolio w) !! p).
Definition default_portfolio_balance (d : IdentityId) (t : Ticker) (w : World) : Balance :=
  portfolio_asset_balances (default_portfolio d) t w.
Definition user_portfolio_balance (d : IdentityId) (num : PortfolioNumber) (t : Ticker)
    (w : World) : Balance :=
  portfolio_asset_balances (user_portfolio d num) t w.

(* -------------------------------------------------------------- *)
(** ** Checks *)

Definition ensure_name_unique (d : IdentityId) (name : PortfolioName) : Chk unit := λ w,
  Base.ensure_string_limited name ;;
  ensure (negb (has_key (NameToNumber (portfolio w)) (d, name)))
    (EPortfolio PortfolioNameAlreadyInUse).

Definition ensure_portfolio_validity (p : PortfolioId) : Chk unit := λ w,
  match kind p with
  | User num => ensure (has_key (Portfolios (portfolio w)) (did p, num))
                  (EPortfolio PortfolioDoesNotExist)
  | Default => Ok tt
  end.

Definition ensure_user_portfolio_validity (d : IdentityId) (num : PortfolioNumber)
    : Chk PortfolioName := λ w,
  ok_or (Portfolios (portfolio w) !! (d, num)) (EPortfolio PortfolioDoesNotExist).

Definition ensure_user_portfolio_permission (sk : option SecondaryKey) (p : PortfolioId)
    : result DispatchError unit :=
  match sk with
  | Some sk => ensure (has_portfolio_permission sk [p])
                 (EPortfolio SecondaryKeyNotAuthorizedForPortfolio)
  | None => Ok tt
  end.

Definition ensure_portfolio_custody (p : PortfolioId) (c : IdentityId) : Chk unit := λ w,
  ensure (bool_decide (default (did p) (PortfolioCustodian (portfolio w) !! p) = c))
    (EPortfolio UnauthorizedCustodian).

Definition ensure_portfolio_custody_and_permission (p : PortfolioId) (c : IdentityId)
    (sk : option SecondaryKey) : Chk unit := λ w,
  ensure_portfolio_custody p c w ;;
  ensure_user_portfolio_permission sk p.

Definition ensure_sufficient_balance (p : PortfolioId) (t : Ticker) (amount : Balance)
    : Chk unit := λ w,
  ensure_granular t amount w ;;
  ok_or (checked_sub
           (saturating_sub (portfolio_asset_balances p t w) (locked_assets p t w)) amount)
    (EPortfolio InsufficientPortfolioBalance) ;;
  Ok tt.

Definition ensure_portfolio_transfer_validity (from to : PortfolioId) (t : Ticker)
    (amount : Balance) : Chk unit := λ w,
  ensure (bool_decide (from ≠ to)) (EPortfolio DestinationIsSamePortfolio) ;;
  ensure_portfolio_validity from w ;;
  ensure_portfolio_validity to w ;;
  ensure_sufficient_balance from t amount w.

Definition ensure_portfolio_transfer_validity_granular (from to : PortfolioId)
    (t : Ticker) (amount : Balance) (w : World) : PortfolioValidityResult :=
  let same := bool_decide (from = to) in
  let no_sender := is_err (ensure_portfolio_validity from w) in
  let no_receiver := is_err (ensure_portfolio_validity to w) in
  let insufficient := is_err (ensure_sufficient_balance from t amount w) in
  mkPortfolioValidityResult same no_sender no_receiver insufficient
    (negb same && negb no_sender && negb no_receiver && negb insufficient).

(** [ensure_portfolios_validity_and_permissions]. *)
Definition ensure_portfolios_validity_and_permissions (o : Origin)
    (from to : PortfolioId) : Chk IdentityId := λ w,
  data ← Identity.ensure_origin_call_permissions o w ;
  ensure (bool_decide (from ≠ to)) (EPortfolio DestinationIsSamePortfolio) ;;
  ensure (bool_decide (did from = did to)) (EPortfolio DifferentIdentityPortfolios) ;;
  ensure_portfolio_validity to w ;;
  ensure_portfolio_custody_and_permission from (primary_did data) (secondary_key data) w ;;
  ensure_user_portfolio_permission (secondary_key data) to ;;
  Ok (primary_did data).

Definition ensure_valid_nfts (p : PortfolioId) (t : Ticker) (ids : list NFTId)
    : Chk unit := λ w,
  for_check ids (λ i,
    ensure (has_nft p t i w) (EPortfolio InvalidTransferNFTNotOwned) ;;
    ensure (negb (nft_locked p t i w)) (EPortfolio InvalidTransferNFTIsLocked)).

(** One item of [ensure_valid_funds]; the accumulator is [unique_tickers]. *)
Definition ensure_valid_fund (p : PortfolioId) (w : World) (seen : gset Ticker) (f : Fund)
    : result DispatchError (gset Ticker) :=
  match description f with
  | FungibleFund t amount =>
      ensure (bool_decide (0 < amount)) (EPortfolio EmptyTransfer) ;;
      ensure (bool_decide (t ∉ seen)) (EPortfolio NoDuplicateAssetsAllowed) ;;
      ensure_sufficient_balance p t amount w ;;
      Ok ({[t]} ∪ seen)
  | NonFungibleFund nfts =>
      ensure (bool_decide (0 < nfts_len nfts)) (EPortfolio EmptyTransfer) ;;
      ensure_valid_nfts p (nfts_ticker nfts) (nfts_ids nfts) w ;;
      Ok seen
  end.

Definition ensure_valid_funds (p : PortfolioId) (funds : list Fund) : Chk unit := λ w,
  fold_check (ensure_valid_fund p w) ∅ funds ;; Ok tt.

(** [skip_portfolio_affirmation]. *)
Definition skip_portfolio_affirmation (p : PortfolioId) (t : Ticker) (w : World) : bool :=
  let pre_approved := getd false (PreApprovedPortfolios (portfolio w)) (p, t) in
  if has_key (PortfolioCustodian (portfolio w)) p then
    if ticker_affirmation_exemption t w then true else pre_approved
  else if skip_ticker_affirmation (did p) t w then true
  else pre_approved.

(* -------------------------------------------------------------- *)
(** ** Balances *)

Definition transition_count (p : PortfolioId) (old new : Balance) (m : gmap PortfolioId N)
    : gmap PortfolioId N :=
  match bool_decide (old = 0), bool_decide (new = 0) with
  | true, false => <[p := saturating_add u64_max (getd 0 m p) 1]> m
  | false, true => <[p := saturating_sub (getd 0 m p) 1]> m
  | _, _ => m
  end.
Definition transition_asset_count (p : PortfolioId) (old new : Balance) : M unit :=
  on_portfolio (λ s, s <| PortfolioAssetCount ::= transition_count p old new |>).

(** Writes a balance and keeps the count, in the order of
    [set_portfolio_balance]. *)
Definition set_portfolio_balance (p : PortfolioId) (t : Ticker) (new : Balance) : M unit :=
  old ← gets (portfolio_asset_balances p t) ;
  transition_asset_count p old new ;;
  on_portfolio (λ s, s <| PortfolioAssetBalances ::= <[(p, t) := new]> |>).

Definition unchecked_transfer_portfolio_balance (from to : PortfolioId) (t : Ticker)
    (amount : Balance) : M unit :=
  old ← gets (portfolio_asset_balances from t) ;
  let new := saturating_sub old amount in
  transition_asset_count from old new ;;
  on_portfolio (λ s, s <| PortfolioAssetBalances ::= <[(from, t) := new]> |>) ;;
  old ← gets (portfolio_asset_balances to t) ;
  let new := saturating_add u128_max old amount in
  transition_asset_count to old new ;;
  on_portfolio (λ s, s <| PortfolioAssetBalances ::= <[(to, t) := new]> |>).

Definition reduce_portfolio_balance (p : PortfolioId) (t : Ticker) (amount : Balance)
    : M unit :=
  total_balance ← gets (portfolio_asset_balances p t) ;
  locked_balance ← gets (locked_assets p t) ;
  remaining ← check (λ _,
    match checked_sub total_balance amount with
    | Some rb => if bool_decide (locked_balance ≤ rb) then Ok rb
                 else Err (EPortfolio InsufficientPortfolioBalance)
    | None => Err (EPortfolio InsufficientPortfolioBalance)
    end) ;
  on_portfolio (λ s, s <| PortfolioAssetBalances ::= <[(p, t) := remaining]> |>) ;;
  transition_asset_count p total_balance remaining.

(* -------------------------------------------------------------- *)
(** ** Locks *)

Definition unchecked_lock_tokens (p : PortfolioId) (t : Ticker) (amount : Balance)
    : M unit :=
  on_portfolio (λ s, s <| PortfolioLockedAssets ::= λ m,
    <[(p, t) := saturating_add u128_max (getd 0 m (p, t)) amount]> m |>).

Definition lock_tokens (p : PortfolioId) (t : Ticker) (amount : Balance) : M unit :=
  check (ensure_sufficient_balance p t amount) ;;
  unchecked_lock_tokens p t amount.

Definition unlock_tokens (p : PortfolioId) (t : Ticker) (amount : Balance) : M unit :=
  locked ← gets (locked_assets p t) ;
  check (λ _, ensure (bool_decide (amount ≤ locked))
                (EPortfolio InsufficientTokensLocked)) ;;
  on_portfolio (λ s, s <| PortfolioLockedAssets ::= <[(p, t) := locked - amount]> |>).

Definition lock_nft (p : PortfolioId) (t : Ticker) (i : NFTId) : M unit :=
  check (λ w, ensure (has_nft p t i w) (EPortfolio NFTNotFoundInPortfolio)) ;;
  check (λ w, ensure (negb (nft_locked p t i w)) (EPortfolio NFTAlreadyLocked)) ;;
  on_portfolio (λ s, s <| PortfolioLockedNFT ::= <[(p, (t, i)) := true]> |>).

Definition unlock_nft (p : PortfolioId) (t : Ticker) (i : NFTId) : M unit :=
  check (λ w, ensure (nft_locked p t i w) (EPortfolio NFTNotLocked)) ;;
  on_portfolio (λ s, s <| PortfolioLockedNFT ::= delete (p, (t, i)) |>).

(* -------------------------------------------------------------- *)
(** ** Dispatchables *)

(** The new number of [get_next_portfolio_number] and the increment. *)
Definition get_next_portfolio_number (d : IdentityId) : M PortfolioNumber :=
  num ← gets (next_number d) ;
  on_portfolio (λ s, s <| NextPortfolioNumber ::= <[d := wrapping_add u64_max num 1]> |>) ;;
  mret num.

Definition base_create_portfolio (owner : IdentityId) (name : PortfolioName) : M unit :=
  check (ensure_name_unique owner name) ;;
  num ← get_next_portfolio_number owner ;
  on_portfolio (λ s, s <| NameToNumber ::= <[(owner, name) := num]> |>
                       <| Portfolios ::= <[(owner, num) := name]> |>) ;;
  deposit_event (PortfolioCreated owner num name).

Definition create_portfolio (o : Origin) (name : PortfolioName) : M unit :=
  d ← check (Identity.ensure_perms o) ;
  base_create_portfolio d name.

Definition delete_portfolio (o : Origin) (num : PortfolioNumber) : M unit :=
  data ← check (Identity.ensure_origin_call_permissions o) ;
  let d := primary_did data in
  let pid := user_portfolio d num in
  check (λ w, ensure (bool_decide (asset_count pid w = 0)) (EPortfolio PortfolioNotEmpty)) ;;
  check (λ w, ensure (bool_decide (iter_prefix (PortfolioNFT (portfolio w)) pid = []))
                (EPortfolio PortfolioNotEmpty)) ;;
  check (λ w, ensure (bool_decide (iter_prefix (PortfolioLockedNFT (portfolio w)) pid = []))
                (EPortfolio PortfolioNotEmpty)) ;;
  name ← check (ensure_user_portfolio_validity d num) ;
  check (ensure_portfolio_custody_and_permission pid d (secondary_key data)) ;;
  c ← gets (custodian pid) ;
  on_portfolio (λ s,
    s <| Portfolios ::= delete (d, num) |>
      <| NameToNumber ::= delete (d, name) |>
      <| PortfolioAssetCount ::= delete pid |>
      <| PortfolioAssetBalances ::= remove_prefix pid |>
      <| PortfolioLockedAssets ::= remove_prefix pid |>
      <| PortfoliosInCustody ::= delete (c, pid) |>
      <| PortfolioCustodian ::= delete pid |>) ;;
  deposit_event (PortfolioDeleted d num).

Definition rename_portfolio (o : Origin) (num : PortfolioNumber) (to_name : PortfolioName)
    : M unit :=
  data ← check (Identity.ensure_origin_call_permissions o) ;
  let d := primary_did data in
  check (λ _, ensure_user_portfolio_permission (secondary_key data) (user_portfolio d num)) ;;
  old_name ← check (ensure_user_portfolio_validity d num) ;
  check (ensure_name_unique d to_name) ;;
  on_portfolio (λ s,
    s <| NameToNumber ::= delete (d, old_name) |>
      <| Portfolios ::= <[(d, num) := to_name]> |>
      <| NameToNumber ::= <[(d, to_name) := num]> |>) ;;
  deposit_event (PortfolioRenamed d num to_name).

Definition quit_portfolio_custody (o : Origin) (pid : PortfolioId) : M unit :=
  d ← check (Identity.ensure_perms o) ;
  c ← gets (custodian pid) ;
  check (λ _, ensure (bool_decide (d = c)) (EPortfolio UnauthorizedCustodian)) ;;
  on_portfolio (λ s, s <| PortfolioCustodian ::= delete pid |>
                       <| PortfoliosInCustody ::= delete (c, pid) |>) ;;
  deposit_event (PortfolioCustodianChanged d pid (did pid)).

Definition unverified_take_portfolio_custody (pid : PortfolioId) (c : IdentityId) : M unit :=
  on_portfolio (λ s, s <| PortfolioCustodian ::= <[pid := c]> |>
                       <| PortfoliosInCustody ::= <[(c, pid) := true]> |>).

(** [base_accept_portfolio_custody]. *)
Definition accept_portfolio_custody (o : Origin) (auth_id : N) : M unit :=
  to ← check (Identity.ensure_perms o) ;
  Identity.accept_auth_with (SigIdentity to) auth_id (λ data from,
    match data with
    | PortfolioCustody pid =>
        curr ← gets (custodian pid) ;
        check (λ _, Identity.ensure_auth_by from curr) ;;
        on_portfolio (λ s, s <| PortfoliosInCustody ::= delete (curr, pid) |>) ;;
        (if decide (did pid = to) then
           on_portfolio (λ s, s <| PortfolioCustodian ::= delete pid |>)
         else unverified_take_portfolio_custody pid to) ;;
        deposit_event (PortfolioCustodianChanged to pid to)
    | _ => throw (EAuth AuthBadType)
    end).

(** One NFT of [unchecked_move_funds]. *)
Definition move_nft (from to : PortfolioId) (t : Ticker) (i : NFTId) : M unit :=
  on_portfolio (λ s, s <| PortfolioNFT ::= delete (from, (t, i)) |>
                       <| PortfolioNFT ::= <[(to, (t, i)) := true]> |>) ;;
  modify (move_portfolio_owner t i to).

Definition unchecked_move_fund (d : IdentityId) (from to : PortfolioId) (f : Fund)
    : M unit :=
  match description f with
  | FungibleFund t amount =>
      unchecked_transfer_portfolio_balance from to t amount ;;
      deposit_event (FundsMovedBetweenPortfolios d from to (FungibleFund t amount)
                       (fund_memo f))
  | NonFungibleFund nfts =>
      for_each (nfts_ids nfts) (move_nft from to (nfts_ticker nfts)) ;;
      deposit_event (FundsMovedBetweenPortfolios d from to (NonFungibleFund nfts)
                       (fund_memo f))
  end.

Definition unchecked_move_funds (d : IdentityId) (from to : PortfolioId)
    (funds : list Fund) : M unit :=
  for_each funds (unchecked_move_fund d from to).

Definition move_portfolio_funds (o : Origin) (from to : PortfolioId) (funds : list Fund)
    : M unit :=
  d ← check (ensure_portfolios_validity_and_permissions o from to) ;
  check (ensure_valid_funds from funds) ;;
  unchecked_move_funds d from to funds.

(** [base_pre_approve_portfolio]. *)
Definition pre_approve_portfolio (o : Origin) (t : Ticker) (pid : PortfolioId) : M unit :=
  data ← check (Identity.ensure_origin_call_permissions o) ;
  check (ensure_portfolio_validity pid) ;;
  check (ensure_portfolio_custody_and_permission pid (primary_did data)
           (secondary_key data)) ;;
  on_portfolio (λ s, s <| PreApprovedPortfolios ::= <[(pid, t) := true]> |>) ;;
  deposit_event (PreApprovedPortfolio (primary_did data) pid t).

(** [base_remove_portfolio_pre_approval]. *)
Definition remove_portfolio_pre_approval (o : Origin) (t : Ticker) (pid : PortfolioId)
    : M unit :=
  data ← check (Identity.ensure_origin_call_permissions o) ;
  check (ensure_portfolio_validity pid) ;;
  check (ensure_portfolio_custody_and_permission pid (primary_did data)
           (secondary_key data)) ;;
  on_portfolio (λ s, s <| PreApprovedPortfolios ::= delete (pid, t) |>) ;;
  deposit_event (RevokePreApprovedPortfolio (primary_did data) pid t).

(** [base_allow_identity_to_create_portfolios]. *)
Definition allow_identity_to_create_portfolios (o : Origin) (trusted : IdentityId)
    : M unit :=
  d ← check (Identity.ensure_perms o) ;
  on_portfolio (λ s, s <| AllowedCustodians ::= <[(d, trusted) := true]> |>).

(** [base_revoke_create_portfolios_permission]. *)
Definition revoke_create_portfolios_permission (o : Origin) (i : IdentityId) : M unit :=
  d ← check (Identity.ensure_perms o) ;
  on_portfolio (λ s, s <| AllowedCustodians ::= delete (d, i) |>).

(** [base_create_custody_portfolio]. *)
Definition create_custody_portfolio (o : Origin) (owner : IdentityId)
    (name : PortfolioName) : M unit :=
  d ← check (Identity.ensure_perms o) ;
  check (λ w, ensure (getd false (AllowedCustodians (portfolio w)) (owner, d))
                (EPortfolio MissingOwnersPermission)) ;;
  num ← gets (next_number owner) ;
  let pid := mkPortfolioId owner (User num) in
  base_create_portfolio owner name ;;
  unverified_take_portfolio_custody pid d ;;
  deposit_event (PortfolioCustodianChanged d pid d).

(** The calls of the pallet. *)
Inductive call : Type :=
  | CreatePortfolio (name : PortfolioName)
  | DeletePortfolio (num : PortfolioNumber)
  | RenamePortfolio (num : PortfolioNumber) (to_name : PortfolioName)
  | QuitPortfolioCustody (pid : PortfolioId)
  | AcceptPortfolioCustody (auth_id : N)
  | MovePortfolioFunds (from to : PortfolioId) (funds : list Fund)
  | PreApprovePortfolio (t : Ticker) (pid : PortfolioId)
  | RemovePortfolioPreApproval (t : Ticker) (pid : PortfolioId)
  | AllowIdentityToCreatePortfolios (trusted : IdentityId)
  | RevokeCreatePortfoliosPermission (i : IdentityId)
  | CreateCustodyPortfolio (owner : IdentityId) (name : PortfolioName).

Definition dispatch (o : Origin) (c : call) : M unit :=
  match c with
  | CreatePortfolio name => create_portfolio o name
  | DeletePortfolio num => delete_portfolio o num
  | RenamePortfolio num name => rename_portfolio o num name
  | QuitPortfolioCustody pid => quit_portfolio_custody o pid
  | AcceptPortfolioCustody id => accept_portfolio_custody o id
  | MovePortfolioFunds from to funds => move_portfolio_funds o from to funds
  | PreApprovePortfolio t pid => pre_approve_portfolio o t pid
  | RemovePortfolioPreApproval t pid => remove_portfolio_pre_approval o t pid
  | AllowIdentityToCreatePortfolios i => allow_identity_to_create_portfolios o i
  | RevokeCreatePortfoliosPermission i => revoke_create_portfolios_permission o i
  | CreateCustodyPortfolio owner name => create_custody_portfolio o owner name
  end.

(* -------------------------------------------------------------- *)
(** ** Balances: invariant *)

(** The number of tickers of which a portfolio holds something. *)
Definition held (b : gmap (PortfolioId * Ticker) Balance) (p : PortfolioId) : N :=
  msum (λ k v, if decide (k.1 = p ∧ v ≠ 0) then 1 else 0) b.

(** [PortfolioAssetCount] counts the tickers held, a balance fits its type,
    and no more is locked than is there. *)
Record balances_ok (s : PortfolioStore) : Prop := {
  ok_asset_count : ∀ p, getd 0 (PortfolioAssetCount s) p = held (PortfolioAssetBalances s) p;
  ok_width : ∀ k, getd 0 (PortfolioAssetBalances s) k ≤ u128_max;
  ok_locked : ∀ k, getd 0 (PortfolioLockedAssets s) k ≤ getd 0 (PortfolioAssetBalances s) k;
}.

(** The storage has fewer than [2^64] balances. *)
Definition balances_fit (s : PortfolioStore) : Prop :=
  N.of_nat (size (PortfolioAssetBalances s)) ≤ u64_max.

(** The balance of [(p, t)] becomes [new] and the count follows. *)
Definition put_balance (p : PortfolioId) (t : Ticker) (new : Balance) (s : PortfolioStore)
    : PortfolioStore :=
  s <| PortfolioAssetCount ::=
         transition_count p (getd 0 (PortfolioAssetBalances s) (p, t)) new |>
    <| PortfolioAssetBalances ::= <[(p, t) := new]> |>.

Lemma held_insert b p t new p' :
  held (<[(p, t) := new]> b) p' +
    (if decide (p = p' ∧ getd 0 b (p, t) ≠ 0) then 1 else 0) =
  held b p' + (if decide (p = p' ∧ new ≠ 0) then 1 else 0).
Proof.
  unfold held.
  pose proof (msum_insert 0 (λ (k : PortfolioId * Ticker) v,
    if decide (k.1 = p' ∧ v ≠ 0) then 1 else 0) b (p, t) new) as Hi.
  apply Hi. rewrite decide_False by naive_solver. done.
Qed.

Lemma held_le_size b p : held b p ≤ N.of_nat (size b).
Proof. apply msum_le_size. intros k v. case_decide; lia. Qed.

Lemma size_insert_le {V} (m : gmap (PortfolioId * Ticker) V) k v :
  N.of_nat (size m) ≤ N.of_nat (size (<[k:=v]> m)).
Proof. rewrite map_size_insert. destruct (m !! k); simpl; lia. Qed.

Lemma transition_count_spec m p old new p' b :
  getd 0 m p' = held b p' → getd 0 b (p, new.1) = old →
  held (<[(p, new.1) := new.2]> b) p' ≤ u64_max →
  getd 0 (transition_count p old new.2 m) p' = held (<[(p, new.1) := new.2]> b) p'.
Proof.
  destruct new as [t new]; simpl. intros Hm Hold Hfit.
  pose proof (held_insert b p t new p') as Hi. rewrite Hold in Hi.
  unfold transition_count. repeat case_bool_decide; rewrite ?getd_insert;
    repeat case_decide; destruct_and?; subst; try tauto; try lia;
    try (unfold saturating_add, saturating_sub; lia); naive_solver lia.
Qed.

Lemma put_balance_ok p t new s :
  balances_ok s → new ≤ u128_max → getd 0 (PortfolioLockedAssets s) (p, t) ≤ new →
  balances_fit (put_balance p t new s) → balances_ok (put_balance p t new s).
Proof.
  intros [Hc Hw Hl] Hnew Hlock Hfit. unfold balances_fit in Hfit. simpl in Hfit.
  constructor; simpl.
  - intros p'. apply (transition_count_spec _ p _ (t, new) p'); [apply Hc|done|].
    simpl. etrans; [apply held_le_size|done].
  - intros k. rewrite getd_insert. by case_decide.
  - intros k. rewrite getd_insert. case_decide; subst; done.
Qed.

Lemma set_portfolio_balance_eq p t new w :
  set_portfolio_balance p t new w = (Ok tt, w <| portfolio ::= put_balance p t new |>).
Proof. done. Qed.

(** The two writes of a transfer between portfolios. *)
Definition put_transfer (from to : PortfolioId) (t : Ticker) (amount : Balance)
    (s : PortfolioStore) : PortfolioStore :=
  let s1 := put_balance from t (getd 0 (PortfolioAssetBalances s) (from, t) - amount) s in
  put_balance to t
    (saturating_add u128_max (getd 0 (PortfolioAssetBalances s1) (to, t)) amount) s1.

Lemma unchecked_transfer_eq from to t amount w :
  unchecked_transfer_portfolio_balance from to t amount w =
    (Ok tt, w <| portfolio ::= put_transfer from to t amount |>).
Proof. done. Qed.

Lemma put_transfer_balance from to t amount s k :
  from ≠ to →
  getd 0 (PortfolioAssetBalances (put_transfer from to t amount s)) k =
    if decide (k = (to, t)) then
      saturating_add u128_max (getd 0 (PortfolioAssetBalances s) (to, t)) amount
    else if decide (k = (from, t)) then getd 0 (PortfolioAssetBalances s) (from, t) - amount
    else getd 0 (PortfolioAssetBalances s) k.
Proof.
  intros Hne. unfold put_transfer, put_balance. simpl. rewrite !getd_insert.
  repeat case_decide; simplify_eq; done.
Qed.

Lemma put_transfer_ok from to t amount s :
  from ≠ to → balances_ok s →
  getd 0 (PortfolioLockedAssets s) (from, t) + amount ≤
    getd 0 (PortfolioAssetBalances s) (from, t) →
  balances_fit (put_transfer from to t amount s) →
  balances_ok (put_transfer from to t amount s).
Proof.
  intros Hne Hok Hamt Hfit. unfold put_transfer. apply put_balance_ok; [| | |exact Hfit].
  - apply put_balance_ok; [done| | |].
    + pose proof (ok_width _ Hok (from, t)). lia.
    + lia.
    + unfold balances_fit in *. simpl in *. etrans; [|exact Hfit]. apply size_insert_le.
  - apply saturating_add_bound.
  - simpl. rewrite getd_insert_ne by congruence.
    pose proof (ok_locked _ Hok (to, t)). pose proof (ok_width _ Hok (to, t)).
    unfold saturating_add. lia.
Qed.

(* -------------------------------------------------------------- *)
(** ** Names, custody and NFTs: invariants *)

(** Portfolio numbers and names of an identity are in bijection, and the
    numbers handed out are below the next one. *)
Record names_ok (s : PortfolioStore) : Prop := {
  ok_names : ∀ d n name,
    Portfolios s !! (d, n) = Some name ↔ NameToNumber s !! (d, name) = Some n;
  ok_fresh : ∀ d n, is_Some (Portfolios s !! (d, n)) → n < getd 1 (NextPortfolioNumber s) d;
}.

(** A custodian's portfolios are listed under the custodian. *)
Definition custody_ok (s : PortfolioStore) : Prop :=
  ∀ p c, PortfolioCustodian s !! p = Some c → PortfoliosInCustody s !! (c, p) = Some true.

(** A locked NFT is in the portfolio that locks it. *)
Definition nfts_ok (s : PortfolioStore) : Prop :=
  ∀ k, is_Some (PortfolioLockedNFT s !! k) → is_Some (PortfolioNFT s !! k).

Record portfolio_ok (s : PortfolioStore) : Prop := {
  ok_balances :> balances_ok s;
  ok_names_part :> names_ok s;
  ok_custody : custody_ok s;
}.

(** Fewer than [2^64] balances are stored and fewer than [2^64] portfolios
    were ever created for an identity. *)
Definition store_fits (s : PortfolioStore) : Prop :=
  balances_fit s ∧ ∀ d, getd 1 (NextPortfolioNumber s) d < u64_max.

(* -------------------------------------------------------------- *)
(** ** Moving funds *)

Definition put_nft (from to : PortfolioId) (t : Ticker) (s : PortfolioStore) (i : NFTId)
    : PortfolioStore :=
  s <| PortfolioNFT ::= λ m, <[(to, (t, i)) := true]> (delete (from, (t, i)) m) |>.

Definition put_fund (from to : PortfolioId) (s : PortfolioStore) (f : Fund)
    : PortfolioStore :=
  match description f with
  | FungibleFund t amount => put_transfer from to t amount s
  | NonFungibleFund nfts => foldl (put_nft from to (nfts_ticker nfts)) s (nfts_ids nfts)
  end.

Lemma move_nfts_eq from to t ids w :
  ∃ w', for_each ids (move_nft from to t) w = (Ok tt, w') ∧
    portfolio w' = foldl (put_nft from to t) (portfolio w) ids ∧
    asset w' = asset w ∧ settlement w' = settlement w.
Proof.
  revert w. induction ids as [|i ids IH]; intros w; simpl; [by exists w|].
  destruct (move_portfolio_owner_frame t i to
    (w <| portfolio ::= λ s, s <| PortfolioNFT ::= delete (from, (t, i)) |>
         <| PortfolioNFT ::= <[(to, (t, i)) := true]> |> |>)) as [g Hg].
  destruct (IH (move_portfolio_owner t i to
    (w <| portfolio ::= λ s, s <| PortfolioNFT ::= delete (from, (t, i)) |>
         <| PortfolioNFT ::= <[(to, (t, i)) := true]> |> |>))) as (w' & Hr & Hp & Ha & Hs).
  exists w'. split; [exact Hr|]. rewrite Hp, Ha, Hs, Hg. done.
Qed.

(** Moving funds never fails, and does exactly [put_fund] of each. *)
Lemma unchecked_move_funds_eq d from to funds w :
  ∃ w', unchecked_move_funds d from to funds w = (Ok tt, w') ∧
    portfolio w' = foldl (put_fund from to) (portfolio w) funds ∧
    asset w' = asset w ∧ settlement w' = settlement w.
Proof.
  unfold unchecked_move_funds.
  revert w. induction funds as [|f funds IH]; intros w; simpl; [by exists w|].
  destruct f as [[t amount|nfts] memo]; unfold unchecked_move_fund; simpl.
  - set (w1 := w <| portfolio ::= put_transfer from to t amount |>
                 <| events ::= λ l, l ++ [FundsMovedBetweenPortfolios d from to
                      (FungibleFund t amount) memo] |>).
    destruct (IH w1) as (w' & Hr & Hp & Ha & Hs). by exists w'.
  - destruct (move_nfts_eq from to (nfts_ticker nfts) (nfts_ids nfts) w)
      as (w1 & H1 & Hp1 & Ha1 & Hs1).
    destruct (IH (w1 <| events ::= λ l, l ++ [FundsMovedBetweenPortfolios d from to
                      (NonFungibleFund nfts) memo] |>)) as (w' & Hr & Hp & Ha & Hs).
    exists w'. simpl in *. rewrite Hp, Ha, Hs, Hp1. split_and!; try done.
    unfold mbind, SE_bind. rewrite H1. exact Hr.
Qed.

Lemma put_nfts_frame from to t ids s :
  ∃ m, foldl (put_nft from to t) s ids = s <| PortfolioNFT := m |>.
Proof.
  revert s. induction ids as [|i ids IH]; intros s; simpl.
  - exists (PortfolioNFT s). by destruct s.
  - destruct (IH (put_nft from to t s i)) as [m Hm]. exists m. by rewrite Hm.
Qed.

Lemma put_nfts_ok from to t ids s :
  nfts_ok s → (∀ i, i ∈ ids → PortfolioLockedNFT s !! (from, (t, i)) = None) →
  nfts_ok (foldl (put_nft from to t) s ids).
Proof.
  revert s. induction ids as [|i ids IH]; intros s Hok Hun; simpl; [done|].
  apply IH; [|intros j Hj; apply Hun; by right].
  intros k. simpl. rewrite lookup_insert. case_decide; [by eexists|].
  intros Hk. rewrite lookup_delete_ne; [by apply Hok|]. intros <-.
  rewrite (Hun i) in Hk by by left. by destruct Hk.
Qed.

Lemma put_fund_size from to s f :
  N.of_nat (size (PortfolioAssetBalances s)) ≤
  N.of_nat (size (PortfolioAssetBalances (put_fund from to s f))).
Proof.
  unfold put_fund. destruct (description f) as [t amount|nfts].
  - unfold put_transfer, put_balance. simpl. etrans; apply size_insert_le.
  - destruct (put_nfts_frame from to (nfts_ticker nfts) (nfts_ids nfts) s) as [m ->]. done.
Qed.

Lemma put_funds_size from to funds s :
  N.of_nat (size (PortfolioAssetBalances s)) ≤
  N.of_nat (size (PortfolioAssetBalances (foldl (put_fund from to) s funds))).
Proof.
  revert s. induction funds as [|f funds IH]; intros s; simpl; [lia|].
  etrans; [apply put_fund_size|apply IH].
Qed.

Lemma ensure_sufficient_balance_Ok p t amount w :
  ensure_sufficient_balance p t amount w = Ok tt →
  ensure_granular t amount w = Ok tt ∧
  (0 < amount → locked_assets p t w + amount ≤ portfolio_asset_balances p t w).
Proof.
  unfold ensure_sufficient_balance. intros H. ok_inv.
  match goal with H : checked_sub _ _ = Some _ |- _ =>
    apply checked_sub_Some in H as [_ ?] end.
  unfold saturating_sub in *. split; [done|lia].
Qed.

(** The amount of a ticker a list of funds moves. *)
Fixpoint moved (funds : list Fund) (t : Ticker) : Balance :=
  match funds with
  | [] => 0
  | f :: funds =>
      match description f with
      | FungibleFund t' amount => if decide (t' = t) then amount else 0
      | NonFungibleFund _ => 0
      end + moved funds t
  end.

(** The NFTs a list of funds moves. *)
Definition moves_nft (funds : list Fund) (t : Ticker) (i : NFTId) : Prop :=
  ∃ f nfts, f ∈ funds ∧ description f = NonFungibleFund nfts ∧
    nfts_ticker nfts = t ∧ i ∈ nfts_ids nfts.

(** What [ensure_valid_funds] promises of the whole list: the sender has the
    free balance of everything that moves, and moves unlocked NFTs it has. *)
Definition funds_covered (from : PortfolioId) (funds : list Fund) (s : PortfolioStore)
    : Prop :=
  (∀ t, 0 < moved funds t →
     getd 0 (PortfolioLockedAssets s) (from, t) + moved funds t ≤
     getd 0 (PortfolioAssetBalances s) (from, t)) ∧
  (∀ t i, moves_nft funds t i →
     is_Some (PortfolioNFT s !! (from, (t, i))) ∧
     PortfolioLockedNFT s !! (from, (t, i)) = None).

Lemma moved_seen p w seen funds seen' t :
  fold_check (ensure_valid_fund p w) seen funds = Ok seen' → t ∈ seen → moved funds t = 0.
Proof.
  revert seen. induction funds as [|f funds IH]; intros seen; simpl; [done|].
  intros H Ht. ok_inv. unfold ensure_valid_fund in *.
  destruct (description f) as [t' amount|nfts]; ok_inv.
  - rewrite decide_False by congruence. eapply IH; [done|set_solver].
  - by eapply IH.
Qed.

Lemma moves_nft_cons f funds t i :
  moves_nft (f :: funds) t i ↔
    (∃ nfts, description f = NonFungibleFund nfts ∧ nfts_ticker nfts = t ∧
       i ∈ nfts_ids nfts) ∨ moves_nft funds t i.
Proof.
  unfold moves_nft. split.
  - intros (g & nfts & [->|Hg]%elem_of_cons & Hd & ? & ?); [left|right]; by eauto 6.
  - intros [(nfts & ?)|(g & nfts & ? & ?)]; [exists f, nfts|exists g, nfts];
      (split; [by constructor|done]).
Qed.

Lemma ensure_valid_funds_covered p w seen funds seen' :
  fold_check (ensure_valid_fund p w) seen funds = Ok seen' →
  funds_covered p funds (portfolio w).
Proof.
  revert seen. induction funds as [|f funds IH]; intros seen; simpl.
  { intros _. split; [simpl; lia|]. intros t i (f & nfts & Hf & _).
    by apply elem_of_nil in Hf. }
  intros H. ok_inv.
  match goal with H : fold_check _ ?x _ = _ |- _ =>
    destruct (IH x H) as [IHb IHn]; pose proof (λ t, moved_seen p w x funds seen' t H) as Hs
  end.
  unfold ensure_valid_fund in *.
  destruct (description f) as [t' amount|nfts] eqn:Hf; ok_inv; split.
  - intros t. simpl. rewrite Hf. case_decide as Ht; [|simpl; apply IHb].
    subst t'. rewrite Hs by set_solver. rewrite N.add_0_r.
    match goal with H : ensure_sufficient_balance _ _ _ _ = _ |- _ =>
      by apply ensure_sufficient_balance_Ok in H as [_ ?] end.
  - intros t i. rewrite moves_nft_cons, Hf. intros [(? & ? & _)|?]; [done|by apply IHn].
  - intros t. simpl. rewrite Hf. apply IHb.
  - intros t i. rewrite moves_nft_cons, Hf. intros [(? & [= <-] & <- & Hi)|?]; [|by apply IHn].
    unfold ensure_valid_nfts in *.
    match goal with H : for_check _ _ = _ |- _ =>
      pose proof (proj1 (for_check_Ok _ _ _) H i Hi) as Hc end.
    simpl in Hc. ok_inv. unfold has_nft, nft_locked in *.
    split; [by apply has_key_true|by apply has_key_false].
Qed.

Lemma put_fund_locks from to s f :
  PortfolioLockedAssets (put_fund from to s f) = PortfolioLockedAssets s ∧
  PortfolioLockedNFT (put_fund from to s f) = PortfolioLockedNFT s ∧
  (Portfolios (put_fund from to s f), NameToNumber (put_fund from to s f),
   NextPortfolioNumber (put_fund from to s f), PortfolioCustodian (put_fund from to s f),
   PortfoliosInCustody (put_fund from to s f)) =
  (Portfolios s, NameToNumber s, NextPortfolioNumber s, PortfolioCustodian s,
   PortfoliosInCustody s).
Proof.
  unfold put_fund. destruct (description f) as [t amount|nfts]; [done|].
  by destruct (put_nfts_frame from to (nfts_ticker nfts) (nfts_ids nfts) s) as [m ->].
Qed.

Lemma put_funds_locks from to funds s :
  let s' := foldl (put_fund from to) s funds in
  PortfolioLockedAssets s' = PortfolioLockedAssets s ∧
  PortfolioLockedNFT s' = PortfolioLockedNFT s ∧
  (Portfolios s', NameToNumber s', NextPortfolioNumber s', PortfolioCustodian s',
   PortfoliosInCustody s') =
  (Portfolios s, NameToNumber s, NextPortfolioNumber s, PortfolioCustodian s,
   PortfoliosInCustody s).
Proof.
  revert s. induction funds as [|f funds IH]; intros s; simpl; [done|].
  destruct (IH (put_fund from to s f)) as (-> & -> & ->).
  apply put_fund_locks.
Qed.

Lemma put_fund_nonfungible_balances from to s f nfts :
  description f = NonFungibleFund nfts →
  PortfolioAssetBalances (put_fund from to s f) = PortfolioAssetBalances s ∧
  PortfolioAssetCount (put_fund from to s f) = PortfolioAssetCount s.
Proof.
  intros Hf. unfold put_fund. rewrite Hf.
  by destruct (put_nfts_frame from to (nfts_ticker nfts) (nfts_ids nfts) s) as [m ->].
Qed.

(** The balances after a move: the sender's go down and the receiver's up
    by what moved, no other balance changes. *)
Lemma put_funds_balances from to funds s :
  from ≠ to →
  (∀ t, moved funds t ≤ getd 0 (PortfolioAssetBalances s) (from, t)) →
  (∀ t, getd 0 (PortfolioAssetBalances s) (from, t) +
        getd 0 (PortfolioAssetBalances s) (to, t) ≤ u128_max) →
  ∀ p t, getd 0 (PortfolioAssetBalances (foldl (put_fund from to) s funds)) (p, t) =
    if decide (p = from) then getd 0 (PortfolioAssetBalances s) (p, t) - moved funds t
    else if decide (p = to) then getd 0 (PortfolioAssetBalances s) (p, t) + moved funds t
    else getd 0 (PortfolioAssetBalances s) (p, t).
Proof.
  intros Hne. revert s. induction funds as [|f funds IH]; intros s Hm Hw p t; simpl.
  { rewrite N.sub_0_r, N.add_0_r. by repeat case_decide. }
  destruct (description f) as [t0 amount|nfts] eqn:Hf.
  - assert (put_fund from to s f = put_transfer from to t0 amount s) as Hp
      by (unfold put_fund; by rewrite Hf).
    simpl in Hm. rewrite Hf in Hm.
    pose proof (Hm t0) as Hm0. pose proof (Hw t0) as Hw0. rewrite decide_True in Hm0 by done.
    rewrite IH; rewrite Hp.
    + rewrite !put_transfer_balance by done.
      repeat case_decide; simplify_eq; try lia; rewrite saturating_add_small; lia.
    + intros t'. specialize (Hm t'). rewrite put_transfer_balance by done.
      repeat case_decide; simplify_eq; lia.
    + intros t'. specialize (Hw t'). rewrite !put_transfer_balance by done.
      repeat case_decide; simplify_eq; rewrite ?saturating_add_small; lia.
  - destruct (put_fund_nonfungible_balances from to s f nfts Hf) as [Hb _].
    rewrite IH; rewrite Hb; try done.
    intros t'. specialize (Hm t'). simpl in Hm. rewrite Hf in Hm. lia.
Qed.

Lemma put_funds_balances_ok from to funds s :
  from ≠ to → balances_ok s →
  (∀ t, 0 < moved funds t →
     getd 0 (PortfolioLockedAssets s) (from, t) + moved funds t ≤
     getd 0 (PortfolioAssetBalances s) (from, t)) →
  balances_fit (foldl (put_fund from to) s funds) →
  balances_ok (foldl (put_fund from to) s funds).
Proof.
  intros Hne. revert s. induction funds as [|f funds IH]; intros s Hok Hm Hfit; simpl; [done|].
  simpl in Hm, Hfit.
  assert (balances_fit (put_fund from to s f)) as Hfit1.
  { unfold balances_fit in *. etrans; [apply put_funds_size|exact Hfit]. }
  destruct (description f) as [t0 amount|nfts] eqn:Hf.
  - assert (put_fund from to s f = put_transfer from to t0 amount s) as Hp
      by (unfold put_fund; by rewrite Hf).
    pose proof (Hm t0) as Hm0. rewrite decide_True in Hm0 by done.
    pose proof (ok_locked _ Hok (from, t0)) as Hl0.
    apply IH; [| |exact Hfit].
    + rewrite Hp in *. apply put_transfer_ok; try done.
      destruct (decide (0 < amount + moved funds t0)); [specialize (Hm0 l)|]; lia.
    + intros t Ht. specialize (Hm t). rewrite (proj1 (put_fund_locks from to s f)).
      rewrite Hp, put_transfer_balance by done.
      repeat case_decide; simplify_eq; specialize (Hm ltac:(lia)); lia.
  - destruct (put_fund_nonfungible_balances from to s f nfts Hf) as [Hb Hc].
    apply IH; [| |exact Hfit].
    + destruct Hok as [H1 H2 H3]. constructor;
        rewrite ?Hb, ?Hc, ?(proj1 (put_fund_locks from to s f)); done.
    + intros t Ht. rewrite Hb, (proj1 (put_fund_locks from to s f)). by apply Hm.
Qed.

Lemma put_funds_nfts_ok from to funds s :
  nfts_ok s → (∀ t i, moves_nft funds t i → PortfolioLockedNFT s !! (from, (t, i)) = None) →
  nfts_ok (foldl (put_fund from to) s funds).
Proof.
  revert s. induction funds as [|f funds IH]; intros s Hok Hun; simpl; [done|].
  apply IH.
  - unfold put_fund. destruct (description f) as [t amount|nfts] eqn:Hf; [done|].
    apply put_nfts_ok; [done|]. intros i Hi. apply Hun. rewrite moves_nft_cons. left. eauto.
  - intros t i Hi. destruct (put_fund_locks from to s f) as (_ & -> & _).
    apply Hun. rewrite moves_nft_cons. by right.
Qed.

Lemma put_funds_ok from to funds s :
  from ≠ to → portfolio_ok s → funds_covered from funds s →
  balances_fit (foldl (put_fund from to) s funds) →
  portfolio_ok (foldl (put_fund from to) s funds).
Proof.
  intros Hne [Hb [Hn Hfr] Hc] [Hcov _] Hfit.
  pose proof (put_funds_locks from to funds s) as (_ & _ & [= E1 E2 E3 E4 E5]).
  constructor.
  - by apply put_funds_balances_ok.
  - constructor; rewrite ?E1, ?E2, ?E3; done.
  - unfold custody_ok. by rewrite E4, E5.
Qed.

(** A successful move: the checks passed and the store is the one
    [put_fund] computes. *)
Lemma move_portfolio_funds_Ok o from to funds w w' :
  move_portfolio_funds o from to funds w = (Ok tt, w') →
  from ≠ to ∧ did from = did to ∧ ensure_portfolio_validity to w = Ok tt ∧
  funds_covered from funds (portfolio w) ∧
  portfolio w' = foldl (put_fund from to) (portfolio w) funds ∧
  asset w' = asset w ∧ settlement w' = settlement w.
Proof.
  unfold move_portfolio_funds, ensure_portfolios_validity_and_permissions,
    ensure_valid_funds. intros H. ok_inv.
  match goal with H : unchecked_move_funds ?d _ _ _ ?w = _ |- _ =>
    destruct (unchecked_move_funds_eq d from to funds w) as (w2 & Hr & Hp & Ha & Hs);
    rewrite H in Hr end. simplify_eq.
  split_and!; try done. by eapply ensure_valid_funds_covered.
Qed.

(* -------------------------------------------------------------- *)
(** ** Names *)

Lemma names_ok_create s d name :
  names_ok s → NameToNumber s !! (d, name) = None →
  getd 1 (NextPortfolioNumber s) d < u64_max →
  let num := getd 1 (NextPortfolioNumber s) d in
  names_ok (s <| NextPortfolioNumber ::= <[d := wrapping_add u64_max num 1]> |>
              <| NameToNumber ::= <[(d, name) := num]> |>
              <| Portfolios ::= <[(d, num) := name]> |>).
Proof.
  intros [Hn Hf] Hname Hlt num. rewrite wrapping_add_small by (subst num; lia).
  assert (Portfolios s !! (d, num) = None) as Hnum.
  { destruct (Portfolios s !! (d, num)) eqn:E; [|done].
    specialize (Hf d num). rewrite E in Hf. specialize (Hf ltac:(by eexists)). lia. }
  constructor; simpl.
  - intros d' n name'. rewrite !lookup_insert. repeat case_decide; simplify_eq; try done.
    + rewrite <- Hn, Hnum. split; [|done]. intros [= ->]. naive_solver.
    + rewrite Hn, Hname. split; [done|]. naive_solver.
  - intros d' n. rewrite lookup_insert, getd_insert.
    repeat case_decide; simplify_eq; intros Hs; try lia.
    + specialize (Hf d' n Hs). subst num. lia.
    + by apply Hf.
Qed.

Lemma names_ok_rename s d num old name :
  names_ok s → Portfolios s !! (d, num) = Some old → NameToNumber s !! (d, name) = None →
  names_ok (s <| NameToNumber ::= delete (d, old) |>
              <| Portfolios ::= <[(d, num) := name]> |>
              <| NameToNumber ::= <[(d, name) := num]> |>).
Proof.
  intros [Hn Hf] Hold Hname. constructor; simpl.
  - intros d' n name'. rewrite !lookup_insert, lookup_delete.
    pose proof (Hn d' n name') as Hn'. pose proof (Hn d num old) as Ho.
    repeat case_decide; simplify_eq; try done; naive_solver.
  - intros d' n. rewrite lookup_insert. case_decide; [|apply Hf].
    simplify_eq. intros _. apply Hf. by rewrite Hold.
Qed.

Lemma names_ok_delete s d num name :
  names_ok s → Portfolios s !! (d, num) = Some name →
  names_ok (s <| Portfolios ::= delete (d, num) |> <| NameToNumber ::= delete (d, name) |>).
Proof.
  intros [Hn Hf] Hnum. constructor; simpl.
  - intros d' n name'. rewrite !lookup_delete.
    pose proof (Hn d' n name') as Hn'. pose proof (Hn d num name) as Ho.
    repeat case_decide; simplify_eq; try done; naive_solver.
  - intros d' n. rewrite lookup_delete. case_decide; [by intros [? ?]|apply Hf].
Qed.

Lemma base_create_portfolio_Ok d name w w' :
  base_create_portfolio d name w = (Ok tt, w') →
  NameToNumber (portfolio w) !! (d, name) = None ∧
  w' = w <| portfolio ::= λ s,
         s <| NextPortfolioNumber ::= <[d := wrapping_add u64_max (next_number d w) 1]> |>
           <| NameToNumber ::= <[(d, name) := next_number d w]> |>
           <| Portfolios ::= <[(d, next_number d w) := name]> |> |>
         <| events ::= λ l, l ++ [PortfolioCreated d (next_number d w) name] |>.
Proof.
  unfold base_create_portfolio, get_next_portfolio_number, ensure_name_unique,
    on_portfolio, deposit_event. intros H. ok_inv.
  split; [by apply has_key_false|done].
Qed.

Lemma balances_ok_delete s p :
  balances_ok s → getd 0 (PortfolioAssetCount s) p = 0 →
  balances_ok (s <| PortfolioAssetCount ::= delete p |>
                 <| PortfolioAssetBalances ::= remove_prefix p |>
                 <| PortfolioLockedAssets ::= remove_prefix p |>).
Proof.
  intros [Hc Hw Hl] H0. constructor; simpl.
  - intros p'. rewrite getd_delete.
    pose proof (msum_remove_prefix (λ (k : PortfolioId * Ticker) v,
      if decide (k.1 = p' ∧ v ≠ 0) then 1 else 0) (PortfolioAssetBalances s) p) as Hr.
    case_decide as Hp.
    + subst p'. rewrite Hc in H0. unfold held in H0 |- *.
      lia.
    + rewrite Hc. unfold held. rewrite <- Hr.
      match goal with |- _ + msum ?g _ = _ =>
        rewrite (msum_zero g (PortfolioAssetBalances s)); [lia|] end.
      intros k v _. repeat case_decide; naive_solver.
  - intros [p' t]. rewrite getd_remove_prefix. case_decide; [lia|apply Hw].
  - intros [p' t]. rewrite !getd_remove_prefix. case_decide; [lia|apply Hl].
Qed.

(* -------------------------------------------------------------- *)
(** ** Every call keeps the invariant *)

Lemma create_ok d name w w' :
  portfolio_ok (portfolio w) → store_fits (portfolio w) →
  base_create_portfolio d name w = (Ok tt, w') → portfolio_ok (portfolio w').
Proof.
  intros [Hb Hn Hc] [_ Hfit] [Hname ->]%base_create_portfolio_Ok. simpl.
  destruct Hb. constructor; [by constructor|by apply names_ok_create|done].
Qed.

Lemma take_custody_ok pid c s :
  custody_ok s →
  custody_ok (s <| PortfolioCustodian ::= <[pid := c]> |>
                <| PortfoliosInCustody ::= <[(c, pid) := true]> |>).
Proof.
  intros Hc p c'. simpl. rewrite !lookup_insert.
  specialize (Hc p c'). repeat case_decide; naive_solver.
Qed.

Lemma drop_custody_ok pid c s :
  custody_ok s → default (did pid) (PortfolioCustodian s !! pid) = c →
  custody_ok (s <| PortfoliosInCustody ::= delete (c, pid) |>
                <| PortfolioCustodian ::= delete pid |>).
Proof.
  intros Hc Hd p c'. simpl. rewrite !lookup_delete.
  specialize (Hc p c'). repeat case_decide; naive_solver.
Qed.

Lemma retake_custody_ok pid c c' s :
  custody_ok s → default (did pid) (PortfolioCustodian s !! pid) = c →
  custody_ok (s <| PortfoliosInCustody ::= delete (c, pid) |>
                <| PortfolioCustodian ::= <[pid := c']> |>
                <| PortfoliosInCustody ::= <[(c', pid) := true]> |>).
Proof.
  intros Hc Hd p d. simpl. rewrite !lookup_insert, lookup_delete.
  specialize (Hc p d). repeat case_decide; naive_solver.
Qed.

Lemma delete_ok o num w w' :
  portfolio_ok (portfolio w) → delete_portfolio o num w = (Ok tt, w') →
  portfolio_ok (portfolio w').
Proof.
  intros [Hb Hn Hc]. unfold delete_portfolio, on_portfolio, deposit_event,
    ensure_user_portfolio_validity. intros H. ok_inv.
  constructor; simpl.
  - by destruct (balances_ok_delete (portfolio w) (user_portfolio (primary_did x) num) Hb).
  - by destruct (names_ok_delete _ _ _ _ Hn ltac:(eassumption)).
  - exact (drop_custody_ok (user_portfolio (primary_did x) num) _ _ Hc eq_refl).
Qed.

Lemma accept_custody_ok o id w w' :
  portfolio_ok (portfolio w) → accept_portfolio_custody o id w = (Ok tt, w') →
  portfolio_ok (portfolio w').
Proof.
  intros [Hb Hn Hc]. unfold accept_portfolio_custody. intros H. ok_inv.
  apply Identity.accept_auth_with_Ok in H as (auth & w1 & _ & _ & H & ->). simpl.
  unfold unverified_take_portfolio_custody, on_portfolio, deposit_event in H.
  destruct (authorization_data auth); ok_inv. destruct Hb, Hn.
  case_decide; ok_inv; (constructor; [by constructor|by constructor|]).
  - by apply drop_custody_ok.
  - by apply retake_custody_ok.
Qed.

Lemma create_custody_ok o owner name w w' :
  portfolio_ok (portfolio w) → store_fits (portfolio w) →
  create_custody_portfolio o owner name w = (Ok tt, w') → portfolio_ok (portfolio w').
Proof.
  intros Hok Hfit. unfold create_custody_portfolio, unverified_take_portfolio_custody,
    on_portfolio, deposit_event. intros H. ok_inv.
  match goal with H : base_create_portfolio _ _ _ = _ |- _ =>
    apply create_ok in H as [[] [] Hc]; [|done..] end.
  constructor; [by constructor|by constructor|]. by apply take_custody_ok.
Qed.

Lemma dispatch_ok o c w w' :
  portfolio_ok (portfolio w) → store_fits (portfolio w) → balances_fit (portfolio w') →
  dispatch o c w = (Ok tt, w') → portfolio_ok (portfolio w').
Proof.
  intros Hok Hfit Hfit'. destruct c; simpl; intros H.
  - unfold create_portfolio in H. ok_inv. by eapply create_ok.
  - by eapply delete_ok.
  - unfold rename_portfolio, ensure_user_portfolio_validity, ensure_name_unique,
      on_portfolio, deposit_event in H. ok_inv.
    destruct Hok as [[] Hn Hc]. constructor; [by constructor| |done].
    apply names_ok_rename; [done|done|by apply has_key_false].
  - unfold quit_portfolio_custody, on_portfolio, deposit_event in H. ok_inv.
    destruct Hok as [[] [] Hc]. constructor; [by constructor|by constructor|].
    exact (drop_custody_ok pid _ _ Hc eq_refl).
  - by eapply accept_custody_ok.
  - apply move_portfolio_funds_Ok in H as (Hne & _ & _ & Hcov & Hp & _).
    rewrite Hp in *. by apply put_funds_ok.
  - unfold pre_approve_portfolio, on_portfolio, deposit_event in H. ok_inv.
    by destruct Hok as [[] [] Hc].
  - unfold remove_portfolio_pre_approval, on_portfolio, deposit_event in H. ok_inv.
    by destruct Hok as [[] [] Hc].
  - unfold allow_identity_to_create_portfolios, on_portfolio in H. ok_inv.
    by destruct Hok as [[] [] Hc].
  - unfold revoke_create_portfolios_permission, on_portfolio in H. ok_inv.
    by destruct Hok as [[] [] Hc].
  - by eapply create_custody_ok.
Qed.

(** What the calls leave alone.  A balance that goes with a deleted portfolio
    was zero. *)
Lemma zero_balances s p :
  balances_ok s → getd 0 (PortfolioAssetCount s) p = 0 →
  ∀ t, getd 0 (PortfolioAssetBalances s) (p, t) = 0.
Proof.
  intros [Hc _ _] H0 t. rewrite Hc in H0. unfold held in H0.
  destruct (PortfolioAssetBalances s !! (p, t)) as [v|] eqn:Hv; unfold getd; rewrite Hv; [|done].
  simpl. pose proof (msum_lookup (λ (k : PortfolioId * Ticker) v,
    if decide (k.1 = p ∧ v ≠ 0) then 1 else 0) _ _ _ Hv) as Hm. simpl in Hm.
  rewrite H0 in Hm. destruct (decide (v = 0)) as [|Hne]; [done|].
  rewrite decide_True in Hm by done. lia.
Qed.

Lemma dispatch_frame o c w w' :
  balances_ok (portfolio w) → dispatch o c w = (Ok tt, w') →
  (∀ from to funds, c ≠ MovePortfolioFunds from to funds) →
  asset w' = asset w ∧ checkpoint w' = checkpoint w ∧ nft w' = nft w ∧
  settlement w' = settlement w ∧ agents w' = agents w ∧
  PortfolioNFT (portfolio w') = PortfolioNFT (portfolio w) ∧
  PortfolioLockedNFT (portfolio w') = PortfolioLockedNFT (portfolio w) ∧
  (∀ k, getd 0 (PortfolioAssetBalances (portfolio w')) k =
        getd 0 (PortfolioAssetBalances (portfolio w)) k) ∧
  (∀ k, getd 0 (PortfolioLockedAssets (portfolio w')) k =
        getd 0 (PortfolioLockedAssets (portfolio w)) k).
Proof.
  intros Hok H Hmove. destruct c; simpl in H; [..|by edestruct Hmove| | | | |].
  - unfold create_portfolio in H. ok_inv. apply base_create_portfolio_Ok in H as [_ ->]. done.
  - unfold delete_portfolio, on_portfolio, deposit_event in H. ok_inv.
    split_and!; try done; intros [p t]; simpl; rewrite getd_remove_prefix;
      (case_decide; [subst p|done]).
    + symmetry. by apply zero_balances.
    + pose proof (ok_locked _ Hok (user_portfolio (primary_did x) num, t)) as Hl.
      rewrite zero_balances in Hl by done. lia.
  - unfold rename_portfolio, on_portfolio, deposit_event in H. by ok_inv.
  - unfold quit_portfolio_custody, on_portfolio, deposit_event in H. by ok_inv.
  - unfold accept_portfolio_custody in H. ok_inv.
    apply Identity.accept_auth_with_Ok in H as (auth & w1 & _ & _ & H & ->).
    unfold unverified_take_portfolio_custody, on_portfolio, deposit_event in H.
    destruct (authorization_data auth); ok_inv. case_decide; by ok_inv.
  - unfold pre_approve_portfolio, on_portfolio, deposit_event in H. by ok_inv.
  - unfold remove_portfolio_pre_approval, on_portfolio, deposit_event in H. by ok_inv.
  - unfold allow_identity_to_create_portfolios, on_portfolio in H. by ok_inv.
  - unfold revoke_create_portfolios_permission, on_portfolio in H. by ok_inv.
  - unfold create_custody_portfolio, unverified_take_portfolio_custody, on_portfolio,
      deposit_event in H. ok_inv.
    match goal with H : base_create_portfolio _ _ _ = _ |- _ =>
      apply base_create_portfolio_Ok in H as [_ ->] end. done.
Qed.

(* -------------------------------------------------------------- *)
(** ** Locks *)

Lemma lock_tokens_Ok p t amount w w' :
  lock_tokens p t amount w = (Ok tt, w') →
  ensure_sufficient_balance p t amount w = Ok tt ∧
  w' = w <| portfolio ::= λ s, s <| PortfolioLockedAssets ::= λ m,
         <[(p, t) := saturating_add u128_max (getd 0 m (p, t)) amount]> m |> |>.
Proof. unfold lock_tokens, unchecked_lock_tokens, on_portfolio. intros H. by ok_inv. Qed.

Lemma unlock_tokens_Ok p t amount w w' :
  unlock_tokens p t amount w = (Ok tt, w') →
  amount ≤ locked_assets p t w ∧
  w' = w <| portfolio ::= λ s, s <| PortfolioLockedAssets ::=
         <[(p, t) := locked_assets p t w - amount]> |> |>.
Proof. unfold unlock_tokens, on_portfolio. intros H. by ok_inv. Qed.

Lemma unlock_tokens_run p t amount w :
  amount ≤ locked_assets p t w →
  unlock_tokens p t amount w =
    (Ok tt, w <| portfolio ::= λ s, s <| PortfolioLockedAssets ::=
              <[(p, t) := locked_assets p t w - amount]> |> |>).
Proof.
  intros Hle. unfold unlock_tokens, gets, check, ensure, on_portfolio, modify.
  unfold mbind, SE_bind. by rewrite bool_decide_eq_true_2.
Qed.

Lemma lock_nft_Ok p t i w w' :
  lock_nft p t i w = (Ok tt, w') →
  has_nft p t i w = true ∧ nft_locked p t i w = false ∧
  w' = w <| portfolio ::= λ s, s <| PortfolioLockedNFT ::= <[(p, (t, i)) := true]> |> |>.
Proof. unfold lock_nft, on_portfolio. intros H. ok_inv. by destruct (nft_locked p t i w). Qed.

Lemma unlock_nft_Ok p t i w w' :
  unlock_nft p t i w = (Ok tt, w') →
  nft_locked p t i w = true ∧
  w' = w <| portfolio ::= λ s, s <| PortfolioLockedNFT ::= delete (p, (t, i)) |> |>.
Proof. unfold unlock_nft, on_portfolio. intros H. by ok_inv. Qed.

Lemma unlock_nft_run p t i w :
  nft_locked p t i w = true →
  unlock_nft p t i w =
    (Ok tt, w <| portfolio ::= λ s, s <| PortfolioLockedNFT ::= delete (p, (t, i)) |> |>).
Proof.
  intros Hl. unfold unlock_nft, check, ensure, on_portfolio, modify, mbind, SE_bind.
  by rewrite Hl.
Qed.

Lemma balances_ok_lock s k amount :
  balances_ok s →
  getd 0 (PortfolioLockedAssets s) k + amount ≤ getd 0 (PortfolioAssetBalances s) k ∨
    amount = 0 →
  balances_ok (s <| PortfolioLockedAssets ::= λ m,
    <[k := saturating_add u128_max (getd 0 m k) amount]> m |>).
Proof.
  intros [Hc Hw Hl] Hle. constructor; simpl; try done.
  intros k'. rewrite getd_insert. case_decide; [subst k'|apply Hl].
  specialize (Hl k). unfold saturating_add. destruct Hle; lia.
Qed.

Lemma balances_ok_unlock s k amount :
  balances_ok s →
  balances_ok (s <| PortfolioLockedAssets ::=
    <[k := getd 0 (PortfolioLockedAssets s) k - amount]> |>).
Proof.
  intros [Hc Hw Hl]. constructor; simpl; try done.
  intros k'. rewrite getd_insert. case_decide; [subst k'|apply Hl].
  specialize (Hl k). lia.
Qed.

Lemma reduce_portfolio_balance_Ok p t amount w w' :
  reduce_portfolio_balance p t amount w = (Ok tt, w') →
  locked_assets p t w + amount ≤ portfolio_asset_balances p t w ∧
  w' = w <| portfolio ::= put_balance p t (portfolio_asset_balances p t w - amount) |>.
Proof.
  unfold reduce_portfolio_balance, transition_asset_count, on_portfolio. intros H.
  ok_inv. ok_case.
  match goal with H : checked_sub _ _ = Some _ |- _ =>
    apply checked_sub_Some in H as [-> ?] end.
  split; [lia|done].
Qed.
End portfolio.
End Portfolio.
