(* ===== verification/Checkpoint.v ===== *)
(** Checkpoints (src/pallets/asset/src/checkpoint/mod.rs): the balances of an
    asset's holders at past points, recorded lazily when a balance changes, and
    the schedules that create the points. *)

From stdpp Require Import base numbers list gmap sets strings sorting.
From S2P Require Import Prelude Subset Types SettlementTypes Schedules State Identity Agents.

Local Open Scope N_scope.

Module Checkpoint.
(* ---------------------------------------------------------------- *)
(** ** Binary search *)

(** [slice::binary_search], merged over its two results the way
    [find_ceiling] merges them: the index of [key], or of where it would be
    inserted.  The window [left, right) shrinks in every round, so a fuel of
    the slice's length suffices. *)
Fixpoint search (fuel : nat) (arr : list N) (key : N) (left right : nat) : nat :=
  match fuel with
  | O => left
  | S fuel =>
      if decide (left < right)%nat then
        let mid := (left + (right - left) / 2)%nat in
        match arr !! mid with
        | Some x =>
            if decide (x = key) then mid
            else if decide (x < key) then search fuel arr key (S mid) right
            else search fuel arr key left mid
        | None => left
        end
      else left
  end.

Definition binary_search (arr : list N) (key : N) : nat :=
  search (length arr) arr key 0 (length arr).

(** [find_ceiling]; indexing past the end panics, here [None]. *)
Definition find_ceiling (arr : list N) (key : N) : option N :=
  arr !! binary_search arr key.

(** The least element that is not below [key], by scanning. *)
Definition ceiling (arr : list N) (key : N) : option N :=
  head (filter (λ x, key ≤ x) arr).

(** *** Correctness of the search *)

Definition ascending (arr : list N) : Prop :=
  ∀ i j x y, (i < j)%nat → arr !! i = Some x → arr !! j = Some y → x < y.

(** Between the two ends of the window is where the key belongs. *)
Definition window (arr : list N) (key : N) (left right : nat) : Prop :=
  (left ≤ right ≤ length arr)%nat ∧
  (∀ j x, (j < left)%nat → arr !! j = Some x → x < key) ∧
  (∀ j x, (right ≤ j)%nat → arr !! j = Some x → key ≤ x).

Definition is_ceiling_index (arr : list N) (key : N) (i : nat) : Prop :=
  (∀ j x, (j < i)%nat → arr !! j = Some x → x < key) ∧
  (∀ j x, (i ≤ j)%nat → arr !! j = Some x → key ≤ x).

Lemma search_spec fuel arr key left right :
  ascending arr → window arr key left right → (right - left ≤ fuel)%nat →
  is_ceiling_index arr key (search fuel arr key left right).
Proof.
  intros Hasc. revert left right.
  induction fuel as [|fuel IH]; intros left right (Hlr & Hlo & Hhi) Hf; cbn [search].
  { split; [exact Hlo|]. intros j x Hj. apply Hhi. lia. }
  case_decide as Hlt; [|split; [exact Hlo|intros j x Hj; apply Hhi; lia]].
  pose proof (Nat.div_lt (right - left) 2 ltac:(lia) ltac:(lia)) as Hmid.
  set (mid := (left + (right - left) / 2)%nat) in *.
  destruct (arr !! mid) as [x|] eqn:Hx;
    [|apply lookup_ge_None in Hx; unfold mid in Hx; lia].
  case_decide as Heq; [|case_decide as Hlx].
  - subst x. split.
    + intros j y Hj Hy. by apply (Hasc j mid).
    + intros j y Hj Hy. destruct (decide (j = mid)) as [->|]; [by simplify_eq|].
      assert (key < y); [|lia]. apply (Hasc mid j); [lia|done..].
  - apply IH; [|lia]. split_and!; [lia|lia| |exact Hhi].
    intros j y Hj Hy. destruct (decide (j = mid)) as [->|]; [by simplify_eq|].
    assert (y < x); [|lia]. apply (Hasc j mid); [lia|done..].
  - apply IH; [|lia]. split_and!; [lia|lia|exact Hlo|].
    intros j y Hj Hy. destruct (decide (j = mid)) as [->|]; [simplify_eq; lia|].
    assert (x < y); [|lia]. apply (Hasc mid j); [lia|done..].
Qed.

Lemma is_ceiling_index_filter arr key i :
  is_ceiling_index arr key i → arr !! i = head (filter (λ x, key ≤ x) arr).
Proof.
  revert i. induction arr as [|a arr IH]; intros i [Hlo Hhi]; [done|].
  rewrite filter_cons. case_decide as Ha.
  - destruct i as [|i]; [done|].
    assert (a < key) by (apply (Hlo 0%nat); [lia|done]). lia.
  - destruct i as [|i].
    + destruct Ha. by apply (Hhi 0%nat).
    + simpl. apply IH. split.
      * intros j x Hj. apply (Hlo (S j)). lia.
      * intros j x Hj. apply (Hhi (S j)). lia.
Qed.

(** The binary search finds what the scan finds. *)
Lemma find_ceiling_eq arr key : ascending arr → find_ceiling arr key = ceiling arr key.
Proof.
  intros Hasc. unfold find_ceiling, ceiling, binary_search.
  apply is_ceiling_index_filter, search_spec; [done| |lia].
  split_and!; [lia|lia| |].
  - intros j x Hj. lia.
  - intros j x Hj Hx. apply lookup_lt_Some in Hx. lia.
Qed.

Lemma ceiling_Some_elem arr key id : ceiling arr key = Some id → id ∈ arr ∧ key ≤ id.
Proof.
  unfold ceiling. intros Hh. destruct (filter _ arr) as [|x l] eqn:Hf; [done|].
  simpl in Hh. simplify_eq. assert (id ∈ filter (λ x, key ≤ x) arr) as Hin
    by (rewrite Hf; by left).
  apply list_elem_of_filter in Hin. tauto.
Qed.

Lemma ceiling_None arr key : ceiling arr key = None ↔ ∀ x, x ∈ arr → x < key.
Proof.
  unfold ceiling. split.
  - intros Hh x Hx. destruct (decide (key ≤ x)) as [Hle|]; [|lia].
    assert (x ∈ filter (λ x, key ≤ x) arr) as Hin by by apply list_elem_of_filter.
    destruct (filter _ arr); [by apply elem_of_nil in Hin|done].
  - intros Hall. destruct (filter _ arr) as [|x l] eqn:Hf; [done|].
    assert (x ∈ filter (λ x, key ≤ x) arr) as Hin by (rewrite Hf; by left).
    apply list_elem_of_filter in Hin as [Hle Hin]. specialize (Hall x Hin). lia.
Qed.

Lemma ceiling_app arr key id :
  ceiling (arr ++ [id]) key =
    match ceiling arr key with
    | Some x => Some x
    | None => if decide (key ≤ id) then Some id else None
    end.
Proof.
  unfold ceiling. rewrite filter_app. destruct (filter _ arr) as [|x l]; [|done].
  simpl. rewrite filter_cons. by case_decide.
Qed.

Lemma ascending_app arr id :
  ascending arr → (∀ x, x ∈ arr → x < id) → ascending (arr ++ [id]).
Proof.
  intros Hasc Hall i j x y Hij Hi Hj.
  apply lookup_app_Some in Hi as [Hi|[Hi1 Hi]].
  - apply lookup_app_Some in Hj as [Hj|[Hj1 Hj]]; [by apply (Hasc i j)|].
    apply list_lookup_singleton_Some in Hj as [_ <-]. apply Hall.
    by eapply list_elem_of_lookup_2.
  - apply list_lookup_singleton_Some in Hi as [Hi _].
    apply lookup_lt_Some in Hj. rewrite length_app in Hj. simpl in Hj. lia.
Qed.

Section checkpoint.
Context {RT : Runtime} {EX : Externals}.

(* -------------------------------------------------------------- *)
(** ** Reads *)

Definition last_cp (t : Ticker) (w : World) : CheckpointId :=
  getd 0 (CheckpointIdSequence (checkpoint w)) t.
Definition updates_of (t : Ticker) (d : IdentityId) (w : World) : list CheckpointId :=
  getd [] (BalanceUpdates (checkpoint w)) (t, d).

Definition checkpoint_exists (t : Ticker) (cp : CheckpointId) (w : World) : bool :=
  bool_decide (0 < cp) && bool_decide (cp ≤ last_cp t w).

(** [None] of the outer option is the panic of [find_ceiling]. *)
Definition balance_at (t : Ticker) (d : IdentityId) (cp : CheckpointId) (w : World)
    : option (option Balance) :=
  if checkpoint_exists t cp w && has_key (BalanceUpdates (checkpoint w)) (t, d) then
    let balance_updates := updates_of t d w in
    if bool_decide (cp ≤ default 0 (last balance_updates)) then
      match find_ceiling balance_updates cp with
      | Some id => Some (Some (getd 0 (CheckpointBalance (checkpoint w)) ((t, id), d)))
      | None => None
      end
    else Some None
  else Some None.

(** [Asset::get_balance_at]. *)
Definition get_balance_at (t : Ticker) (d : IdentityId) (cp : CheckpointId) (w : World)
    : option Balance :=
  match balance_at t d cp w with
  | Some (Some b) => Some b
  | Some None => Some (getd 0 (BalanceOf (asset w)) (t, d))
  | None => None
  end.

(* -------------------------------------------------------------- *)
(** ** Creating checkpoints *)

Definition create_at (caller : option IdentityId) (t : Ticker) (id : CheckpointId)
    (at_ : Moment) : M unit :=
  supply ← gets (λ w, match Tokens (asset w) !! t with
                      | Some token => total_supply token
                      | None => 0
                      end) ;
  on_checkpoint (λ s, s <| TotalSupply ::= <[(t, id) := supply]> |>
                        <| Timestamps ::= <[(t, id) := at_]> |>) ;;
  deposit_event (CheckpointCreated caller t id supply at_).

Definition create_at_by (caller : IdentityId) (t : Ticker) (at_ : Moment)
    : M CheckpointId :=
  '(id, _) ← check (λ w, Base.try_next_pre u64_max (last_cp t w)) ;
  on_checkpoint (λ s, s <| CheckpointIdSequence ::= <[t := id]> |>) ;;
  create_at (Some caller) t id at_ ;;
  mret id.

(** [for at in checkpoints { .. }]: the counter after the loop. *)
Fixpoint create_points (t : Ticker) (sid : ScheduleId) (cp_id : CheckpointId)
    (ats : list Moment) : M CheckpointId :=
  match ats with
  | [] => mret cp_id
  | at_ :: ats =>
      '(id, cp_id) ← check (λ _, Base.try_next_pre u64_max cp_id) ;
      create_at None t id at_ ;;
      on_checkpoint (λ s, s <| SchedulePoints ::= λ m,
        <[(t, sid) := getd [] m (t, sid) ++ [id]]> m |>) ;;
      create_points t sid cp_id ats
  end.

(** One schedule of [advance_schedules]: the updated cache and counter. *)
Definition advance_schedule (t : Ticker) (at_now : Moment) (cached : NextCheckpoints)
    (cp_id : CheckpointId) (sid : ScheduleId) : M (NextCheckpoints * CheckpointId) :=
  found ← gets (λ w, ScheduledCheckpoints (checkpoint w) !! (t, sid)) ;
  match found with
  | None => mret (cached, cp_id)
  | Some schedule =>
      let '(checkpoints, schedule) := remove_expired schedule at_now in
      cached ← match schedule_next schedule with
               | Some next =>
                   on_checkpoint (λ s,
                     s <| ScheduledCheckpoints ::= <[(t, sid) := schedule]> |>) ;;
                   mret (add_schedule_next sid next cached)
               | None =>
                   on_checkpoint (λ s, s <| ScheduledCheckpoints ::= delete (t, sid) |>) ;;
                   mret cached
               end ;
      let cached := dec_total_pending (N.of_nat (length checkpoints)) cached in
      cp_id ← create_points t sid cp_id checkpoints ;
      mret (cached, cp_id)
  end.

Fixpoint advance_all (t : Ticker) (at_now : Moment) (cached : NextCheckpoints)
    (cp_id : CheckpointId) (sids : list ScheduleId) : M (NextCheckpoints * CheckpointId) :=
  match sids with
  | [] => mret (cached, cp_id)
  | sid :: sids =>
      '(cached, cp_id) ← advance_schedule t at_now cached cp_id sid ;
      advance_all t at_now cached cp_id sids
  end.

Definition advance_schedules (t : Ticker) : M unit :=
  found ← gets (λ w, CachedNextCheckpoints (checkpoint w) !! t) ;
  at_now ← gets now ;
  match found with
  | None => mret tt
  | Some cached =>
      if negb (expired cached at_now) then mret tt
      else
        cp_id ← gets (last_cp t) ;
        let '(sids, cached) := expired_schedules cached at_now in
        '(cached, cp_id) ← advance_all t at_now cached cp_id sids ;
        (if cache_is_empty cached
         then on_checkpoint (λ s, s <| CachedNextCheckpoints ::= delete t |>)
         else on_checkpoint (λ s, s <| CachedNextCheckpoints ::= <[t := cached]> |>)) ;;
        on_checkpoint (λ s, s <| CheckpointIdSequence ::= <[t := cp_id]> |>)
  end.

(* -------------------------------------------------------------- *)
(** ** Recording balances *)

(** One element of the loop of [update_balances]. *)
Definition record_balance (t : Ticker) (cp : CheckpointId) (db : IdentityId * Balance)
    (s : CheckpointStore) : CheckpointStore :=
  let '(d, b) := db in
  if has_key (CheckpointBalance s) ((t, cp), d) then s
  else s <| CheckpointBalance ::= <[((t, cp), d) := b]> |>
         <| BalanceUpdates ::= λ m, <[(t, d) := getd [] m (t, d) ++ [cp]]> m |>.

Definition update_balances (t : Ticker) (updates : list (IdentityId * Balance)) : M unit :=
  cp ← gets (last_cp t) ;
  if decide (cp < 1) then mret tt
  else on_checkpoint (λ s, foldl (λ s db, record_balance t cp db s) s updates).

Definition advance_update_balances (t : Ticker) (updates : list (IdentityId * Balance))
    : M unit :=
  advance_schedules t ;;
  update_balances t updates.

(* -------------------------------------------------------------- *)
(** ** Schedules *)

Definition base_create_schedule (caller : IdentityId) (t : Ticker)
    (schedule : ScheduleCheckpoints) (ref_count : N) : M (ScheduleId * Moment) :=
  next_at ← check (λ _, ok_or (schedule_next schedule) (ECheckpoint ScheduleIsEmpty)) ;
  let len := schedule_len schedule in
  check (λ _, ensure (bool_decide (len ≤ u64_max))
                (ECheckpoint SchedulesOverMaxComplexity)) ;;
  max_comp ← gets (λ w, SchedulesMaxComplexity (checkpoint w)) ;
  check (λ _, ensure (bool_decide (len ≤ max_comp))
                (ECheckpoint SchedulesOverMaxComplexity)) ;;
  cached ← gets (λ w, default NextCheckpoints_default
                        (CachedNextCheckpoints (checkpoint w) !! t)) ;
  check (λ _, ensure (bool_decide
                (saturating_add u64_max (total_pending cached) len ≤ max_comp))
                (ECheckpoint SchedulesOverMaxComplexity)) ;;
  check (λ w, ensure (schedule_ensure_no_expired schedule (now w))
                (ECheckpoint ScheduleHasExpiredCheckpoints)) ;;
  '(id, _) ← check (λ w, Base.try_next_pre u64_max
                           (getd 0 (ScheduleIdSequence (checkpoint w)) t)) ;
  external (charge_fees [CheckpointCreateSchedule]) ;;
  let cached := inc_total_pending len (add_schedule_next id next_at cached) in
  on_checkpoint (λ s,
    s <| CachedNextCheckpoints ::= <[t := cached]> |>
      <| ScheduledCheckpoints ::= <[(t, id) := schedule]> |>
      <| ScheduleRefCount ::= <[(t, id) := ref_count]> |>
      <| ScheduleIdSequence ::= <[t := id]> |>) ;;
  deposit_event (ScheduleCreated caller t id schedule) ;;
  mret (id, next_at).

Definition base_remove_schedule (caller : IdentityId) (t : Ticker) (id : ScheduleId)
    : M unit :=
  schedule ← check (λ w, ok_or (ScheduledCheckpoints (checkpoint w) !! (t, id))
                           (ECheckpoint NoSuchSchedule)) ;
  check (λ w, ensure (bool_decide (getd 0 (ScheduleRefCount (checkpoint w)) (t, id) = 0))
                (ECheckpoint ScheduleNotRemovable)) ;;
  on_checkpoint (λ s,
    s <| ScheduleRefCount ::= delete (t, id) |>
      <| CachedNextCheckpoints ::= alter (λ cached,
           dec_total_pending (schedule_len schedule) (remove_schedule id cached)) t |>
      <| ScheduledCheckpoints ::= delete (t, id) |>) ;;
  deposit_event (ScheduleRemoved caller t id schedule).

Definition inc_schedule_ref (t : Ticker) (id : ScheduleId) : M unit :=
  on_checkpoint (λ s, s <| ScheduleRefCount ::= λ m,
    <[(t, id) := saturating_add u32_max (getd 0 m (t, id)) 1]> m |>).
Definition dec_schedule_ref (t : Ticker) (id : ScheduleId) : M unit :=
  on_checkpoint (λ s, s <| ScheduleRefCount ::= λ m,
    <[(t, id) := saturating_sub (getd 0 m (t, id)) 1]> m |>).

Definition ensure_schedule_next_checkpoint (t : Ticker) (id : ScheduleId)
    : Chk (Moment * N) := λ w,
  schedule ← ok_or (ScheduledCheckpoints (checkpoint w) !! (t, id))
               (ECheckpoint NoSuchSchedule) ;
  cp_at ← ok_or (schedule_next schedule) (ECheckpoint ScheduleFinished) ;
  Ok (cp_at, N.of_nat (length (getd [] (SchedulePoints (checkpoint w)) (t, id)))).

(* -------------------------------------------------------------- *)
(** ** Dispatchables *)

Definition create_checkpoint (o : Origin) (t : Ticker) : M unit :=
  caller ← check (Agents.ensure_perms o t) ;
  at_ ← gets now ;
  create_at_by caller t at_ ;;
  mret tt.

Definition set_schedules_max_complexity (o : Origin) (max : N) : M unit :=
  check (λ _, ensure_root o) ;;
  on_checkpoint (λ s, s <| SchedulesMaxComplexity := max |>) ;;
  deposit_event (MaximumSchedulesComplexityChanged max).

Definition create_schedule (o : Origin) (t : Ticker) (schedule : ScheduleCheckpoints)
    : M unit :=
  caller ← check (Agents.ensure_perms o t) ;
  base_create_schedule caller t schedule 0 ;;
  mret tt.

Definition remove_schedule_call (o : Origin) (t : Ticker) (id : ScheduleId) : M unit :=
  caller ← check (Agents.ensure_perms o t) ;
  base_remove_schedule caller t id.

(* -------------------------------------------------------------- *)
(** ** Invariant and history *)

(** The update points of a holder are ascending ids handed out by the
    sequence, and they are where a balance is recorded. *)
Record checkpoint_ok (s : CheckpointStore) : Prop := {
  ok_ascending : ∀ k, ascending (getd [] (BalanceUpdates s) k);
  ok_bounded : ∀ t d id, id ∈ getd [] (BalanceUpdates s) (t, d) →
    1 ≤ id ≤ getd 0 (CheckpointIdSequence s) t;
  ok_recorded : ∀ t d id, is_Some (CheckpointBalance s !! ((t, id), d)) ↔
    id ∈ getd [] (BalanceUpdates s) (t, d);
}.

(** The balance a checkpoint stands for: the one recorded at the first
    update point that is not before it, and the current one otherwise. *)
Definition view (s : CheckpointStore) (bal : gmap (Ticker * IdentityId) Balance)
    (t : Ticker) (d : IdentityId) (cp : CheckpointId) : Balance :=
  match ceiling (getd [] (BalanceUpdates s) (t, d)) cp with
  | Some id => getd 0 (CheckpointBalance s) ((t, id), d)
  | None => getd 0 bal (t, d)
  end.

Lemma last_ge (arr : list N) key :
  ascending arr → key ≤ default 0 (last arr) → 0 < key → ∃ x, x ∈ arr ∧ key ≤ x.
Proof.
  intros _ Hle Hpos. destruct (last arr) as [x|] eqn:Hl; simpl in Hle; [|lia].
  exists x. split; [|done]. rewrite last_lookup in Hl.
  by eapply list_elem_of_lookup_2.
Qed.

Lemma last_lt (arr : list N) key :
  ascending arr → ¬ key ≤ default 0 (last arr) → ∀ x, x ∈ arr → x < key.
Proof.
  intros Hasc Hlt x [i Hi]%list_elem_of_lookup_1.
  pose proof (lookup_lt_Some _ _ _ Hi) as Hlen.
  destruct (last arr) as [y|] eqn:Hl; rewrite last_lookup in Hl.
  - simpl in Hlt. destruct (decide (i = pred (length arr))) as [->|]; [simplify_eq; lia|].
    assert (x < y); [|lia]. apply (Hasc i (pred (length arr))); [lia|done..].
  - apply lookup_ge_None in Hl. lia.
Qed.

(** Reading a checkpoint that exists never panics, and reads the view. *)
Lemma get_balance_at_view t d cp w :
  checkpoint_ok (checkpoint w) → checkpoint_exists t cp w = true →
  get_balance_at t d cp w = Some (view (checkpoint w) (BalanceOf (asset w)) t d cp).
Proof.
  intros [Hasc Hb Hr] Hex. unfold get_balance_at, balance_at, view, updates_of.
  rewrite Hex. simpl. unfold checkpoint_exists in Hex. ok_inv.
  specialize (Hasc (t, d)). unfold has_key.
  case_bool_decide as Hkey; simpl.
  - case_bool_decide as Hle.
    + rewrite find_ceiling_eq by done.
      destruct (ceiling _ cp) as [id|] eqn:Hc; [done|].
      rewrite ceiling_None in Hc.
      destruct (last_ge _ cp Hasc Hle ltac:(done)) as (x & Hx & Hcx).
      specialize (Hc x Hx). lia.
    + assert (ceiling (getd [] (BalanceUpdates (checkpoint w)) (t, d)) cp = None) as ->;
        [|done]. apply ceiling_None. by apply last_lt.
  - rewrite <- eq_None_not_Some in Hkey. unfold getd. by rewrite Hkey.
Qed.

(** Recording the balance a holder has now changes no view up to the last
    checkpoint. *)
Lemma record_balance_view t cp0 d0 b s bal :
  checkpoint_ok s → getd 0 (CheckpointIdSequence s) t = cp0 → 1 ≤ cp0 →
  b = getd 0 bal (t, d0) →
  let s' := record_balance t cp0 (d0, b) s in
  checkpoint_ok s' ∧ CheckpointIdSequence s' = CheckpointIdSequence s ∧
  cp0 ∈ getd [] (BalanceUpdates s') (t, d0) ∧
  (∀ d, cp0 ∈ getd [] (BalanceUpdates s) (t, d) →
        cp0 ∈ getd [] (BalanceUpdates s') (t, d)) ∧
  (∀ t' d cp, cp ≤ getd 0 (CheckpointIdSequence s) t' →
     view s' bal t' d cp = view s bal t' d cp).
Proof.
  intros [Hasc Hbd Hrec] Hseq Hpos -> s'. unfold record_balance in s'.
  destruct (has_key (CheckpointBalance s) (t, cp0, d0)) eqn:Hk; subst s'.
  { apply has_key_true in Hk. rewrite Hrec in Hk. split_and!; done. }
  apply has_key_false in Hk.
  assert (cp0 ∉ getd [] (BalanceUpdates s) (t, d0)) as Hnin.
  { rewrite <- Hrec, Hk. by intros [? ?]. }
  split_and!; simpl; try done.
  - constructor; simpl.
    + intros k. rewrite getd_insert. case_decide; [subst k|apply Hasc].
      apply ascending_app; [apply Hasc|]. intros x Hx. pose proof (Hbd t d0 x Hx).
      destruct (decide (x = cp0)); [by subst|lia].
    + intros t' d id. rewrite getd_insert. case_decide; [|apply Hbd].
      simplify_eq. rewrite elem_of_app, list_elem_of_singleton.
      intros [Hid| ->]; [by apply Hbd in Hid|lia].
    + intros t' d id. rewrite lookup_insert, getd_insert.
      repeat case_decide; simplify_eq;
        rewrite ?elem_of_app, ?list_elem_of_singleton, ?Hrec; try naive_solver.
      all: split; [intros _; by right|by eexists].
  - rewrite getd_insert_eq. apply elem_of_app. right. by apply list_elem_of_singleton.
  - intros d Hd. rewrite getd_insert. case_decide; simplify_eq; [|done].
    apply elem_of_app. by left.
  - intros t' d cp Hcp. unfold view. simpl. rewrite getd_insert.
    case_decide as Hkd; simplify_eq.
    + rewrite ceiling_app. destruct (ceiling _ cp) as [id|] eqn:Hc.
      * rewrite getd_insert_ne; [done|]. intros [= <-].
        apply ceiling_Some_elem in Hc. tauto.
      * rewrite decide_True by lia. by rewrite getd_insert_eq.
    + destruct (ceiling _ cp) as [id|] eqn:Hc; [|done].
      rewrite getd_insert_ne; [done|]. naive_solver.
Qed.

Local Arguments record_balance : simpl never.

Lemma record_balances_view t cp0 updates s bal :
  checkpoint_ok s → getd 0 (CheckpointIdSequence s) t = cp0 → 1 ≤ cp0 →
  (∀ d b, (d, b) ∈ updates → b = getd 0 bal (t, d)) →
  let s' := foldl (λ s db, record_balance t cp0 db s) s updates in
  checkpoint_ok s' ∧ CheckpointIdSequence s' = CheckpointIdSequence s ∧
  (∀ d, d ∈ updates.*1 ∨ cp0 ∈ getd [] (BalanceUpdates s) (t, d) →
        cp0 ∈ getd [] (BalanceUpdates s') (t, d)) ∧
  (∀ t' d cp, cp ≤ getd 0 (CheckpointIdSequence s) t' →
     view s' bal t' d cp = view s bal t' d cp).
Proof.
  revert s. induction updates as [|[d0 b] updates IH]; intros s Hok Hseq Hpos Hb; simpl.
  { split_and!; try done. intros d [Hd|Hd]; [by apply elem_of_nil in Hd|done]. }
  destruct (record_balance_view t cp0 d0 b s bal Hok Hseq Hpos
    ltac:(apply Hb; by left)) as (Hok1 & Hseq1 & Hd0 & Hkeep & Hview1).
  destruct (IH (record_balance t cp0 (d0, b) s)) as (Hok2 & Hseq2 & Hcov & Hview2);
    [done|by rewrite Hseq1|done|intros d b' Hd; apply Hb; by right|].
  split_and!; [done|by rewrite Hseq2, Hseq1| |].
  - intros d [[->|Hd]%elem_of_cons|Hd]; apply Hcov; [by right|by left|right; by apply Hkeep].
  - intros t' d cp Hcp. rewrite Hview2 by by rewrite Hseq1. by apply Hview1.
Qed.

(* -------------------------------------------------------------- *)
(** ** Advancing the schedules *)

(** Only events and the checkpoint store changed, and of the latter neither
    the recorded balances nor the id sequences. *)
Definition points_only (w w' : World) : Prop :=
  ∃ s evs, w' = w <| checkpoint := s |> <| events := evs |> ∧
    CheckpointBalance s = CheckpointBalance (checkpoint w) ∧
    BalanceUpdates s = BalanceUpdates (checkpoint w) ∧
    CheckpointIdSequence s = CheckpointIdSequence (checkpoint w).

#[local] Instance points_only_preorder : PreOrder points_only.
Proof.
  split.
  - intros w. exists (checkpoint w), (events w). by destruct w.
  - intros w1 w2 w3 (s1 & e1 & -> & H1 & H2 & H3) (s2 & e2 & -> & H4 & H5 & H6).
    simpl in *. exists s2, e2. split_and!; [done|congruence..].
Qed.

Lemma create_points_Ok t sid cp_id ats w cp w' :
  create_points t sid cp_id ats w = (Ok cp, w') → points_only w w' ∧ cp_id ≤ cp.
Proof.
  revert cp_id w. induction ats as [|at_ ats IH]; intros cp_id w; simpl.
  - intros H. ok_inv. split; [done|lia].
  - unfold create_at, on_checkpoint, deposit_event. intros H. ok_inv.
    destruct_product. ok_inv.
    match goal with H : Base.try_next_pre _ _ = _ |- _ =>
      apply Base.try_next_pre_Ok in H as (-> & -> & _) end.
    apply IH in H as [Hp Hle]. split; [|lia]. etrans; [|exact Hp].
    eexists _, _. split; [reflexivity|]. done.
Qed.

Lemma advance_schedule_Ok t at_now cached cp_id sid w r w' :
  advance_schedule t at_now cached cp_id sid w = (Ok r, w') →
  points_only w w' ∧ cp_id ≤ r.2.
Proof.
  unfold advance_schedule. intros H. ok_inv.
  destruct (ScheduledCheckpoints (checkpoint w) !! (t, sid)) as [sch|];
    [|ok_inv; split; [done|simpl; lia]].
  ok_inv. match goal with H : create_points _ _ _ _ _ = _ |- _ =>
    apply create_points_Ok in H as [Hp Hle] end.
  split; [|done]. etrans; [|exact Hp]. unfold on_checkpoint in *.
  ok_case; (eexists _, (events w); split; [reflexivity|done]).
Qed.

Lemma advance_all_Ok t at_now cached cp_id sids w r w' :
  advance_all t at_now cached cp_id sids w = (Ok r, w') →
  points_only w w' ∧ cp_id ≤ r.2.
Proof.
  revert cached cp_id w. induction sids as [|sid sids IH]; intros cached cp_id w; simpl.
  - intros H. ok_inv. split; [done|simpl; lia].
  - intros H. ok_inv. destruct_product.
    match goal with H : advance_schedule _ _ _ _ _ _ = _ |- _ =>
      apply advance_schedule_Ok in H as [Hp1 Hle1] end.
    apply IH in H as [Hp2 Hle2]. simpl in *. split; [by etrans|lia].
Qed.

(** What advancing the schedules leaves alone. *)
Lemma advance_schedules_Ok t w w' :
  advance_schedules t w = (Ok tt, w') →
  ∃ s evs, w' = w <| checkpoint := s |> <| events := evs |> ∧
    CheckpointBalance s = CheckpointBalance (checkpoint w) ∧
    BalanceUpdates s = BalanceUpdates (checkpoint w) ∧
    last_cp t w ≤ last_cp t w' ∧ (∀ t', t' ≠ t → last_cp t' w' = last_cp t' w).
Proof.
  unfold advance_schedules. intros H. ok_inv.
  destruct (CachedNextCheckpoints (checkpoint w) !! t) as [cached|];
    [|ok_inv; exists (checkpoint w), (events w); split_and!; [by destruct w|done|done|lia|done]].
  destruct (negb (expired cached (now w)));
    [ok_inv; exists (checkpoint w), (events w); split_and!; [by destruct w|done|done|lia|done]|].
  ok_inv. destruct_product. ok_inv.
  match goal with H : advance_all _ _ _ _ _ _ = _ |- _ =>
    apply advance_all_Ok in H as [(s & evs & -> & HB & HU & HS) Hle] end.
  simpl in Hle. unfold on_checkpoint in *.
  match goal with H : (if ?b then _ else _) _ = _ |- _ => destruct b end; ok_inv;
    (eexists _, _; split; [reflexivity|]);
    split_and!; try done; unfold last_cp in *; simpl.
  1,3: by rewrite getd_insert_eq.
  all: intros t' Hne; by rewrite getd_insert_ne, HS.
Qed.

Lemma advance_update_balances_frame t updates w w' :
  advance_update_balances t updates w = (Ok tt, w') →
  ∃ s evs, w' = w <| checkpoint := s |> <| events := evs |>.
Proof.
  unfold advance_update_balances, update_balances, on_checkpoint. intros H. ok_inv.
  match goal with H : advance_schedules _ _ = _ |- _ =>
    apply advance_schedules_Ok in H as (s1 & e1 & -> & _) end.
  case_decide; ok_inv; eexists _, _; reflexivity.
Qed.

Lemma checkpoint_ok_grow s s' :
  checkpoint_ok s → CheckpointBalance s' = CheckpointBalance s →
  BalanceUpdates s' = BalanceUpdates s →
  (∀ t, getd 0 (CheckpointIdSequence s) t ≤ getd 0 (CheckpointIdSequence s') t) →
  checkpoint_ok s'.
Proof.
  intros [Hasc Hb Hr] HB HU Hseq. constructor; rewrite ?HB, ?HU; try done.
  intros t d id Hid. specialize (Hseq t). apply Hb in Hid. lia.
Qed.

(** The past does not change.  [advance_update_balances] is told the
    balances the holders have before an update; whatever balances of those
    holders the update then writes, every checkpoint that exists afterwards
    reads as before, and a checkpoint the call created reads the balances
    from before the update. *)
Lemma advance_update_balances_history (t : Ticker)
    (updates : list (IdentityId * Balance)) (w w' : World)
    (bal' : gmap (Ticker * IdentityId) Balance) :
  checkpoint_ok (checkpoint w) →
  advance_update_balances t updates w = (Ok tt, w') →
  (∀ d b, (d, b) ∈ updates → b = getd 0 (BalanceOf (asset w)) (t, d)) →
  (∀ t' d, t' ≠ t ∨ d ∉ updates.*1 → getd 0 bal' (t', d) = getd 0 (BalanceOf (asset w)) (t', d)) →
  checkpoint_ok (checkpoint w') ∧
  (∀ t', last_cp t' w ≤ last_cp t' w') ∧
  (∃ s evs, w' = w <| checkpoint := s |> <| events := evs |>) ∧
  ∀ t' d cp, checkpoint_exists t' cp w' = true →
    view (checkpoint w') bal' t' d cp =
      if checkpoint_exists t' cp w
      then view (checkpoint w) (BalanceOf (asset w)) t' d cp
      else getd 0 (BalanceOf (asset w)) (t', d).
Proof.
  intros Hok H Hold Hbal. unfold advance_update_balances in H. ok_inv.
  match goal with H : advance_schedules _ _ = _ |- _ =>
    apply advance_schedules_Ok in H as (s1 & e1 & -> & HB & HU & Hle & Hoth) end.
  set (w1 := w <| checkpoint := s1 |> <| events := e1 |>) in *.
  assert (∀ t', last_cp t' w ≤ last_cp t' w1) as Hmono.
  { intros t'. destruct (decide (t' = t)) as [->|Hne]; [done|].
    rewrite (Hoth t' Hne). lia. }
  assert (checkpoint_ok s1) as Hok1 by by apply (checkpoint_ok_grow (checkpoint w)).
  assert (∀ t' d cp, cp ≤ last_cp t' w1 → 0 < cp →
    view s1 (BalanceOf (asset w)) t' d cp =
      if checkpoint_exists t' cp w then view (checkpoint w) (BalanceOf (asset w)) t' d cp
      else getd 0 (BalanceOf (asset w)) (t', d)) as Hview1.
  { intros t' d cp Hcp Hpos. unfold view. rewrite HU, HB.
    destruct (checkpoint_exists t' cp w) eqn:Hex; [done|].
    destruct (ceiling _ cp) as [id|] eqn:Hc; [|done].
    apply ceiling_Some_elem in Hc as [Hid Hcid]. apply (ok_bounded _ Hok) in Hid.
    unfold checkpoint_exists, last_cp in *. rewrite !bool_decide_eq_true_2 in Hex by lia.
    done. }
  unfold update_balances, on_checkpoint in H. ok_inv.
  unfold w1, checkpoint_exists, last_cp in *. simpl in *. case_decide as Hz; ok_inv.
  - split_and!; [done|done|by exists s1, e1|]. intros t' d cp Hex. ok_inv.
    rewrite <- Hview1 by done. unfold view.
    destruct (ceiling _ cp) eqn:Hc; [done|].
    apply Hbal. left. intros ->. lia.
  - destruct (record_balances_view t (getd 0 (CheckpointIdSequence s1) t) updates s1
      (BalanceOf (asset w))) as (Hok2 & Hseq2 & Hcov & Hview2); [done|done|lia|done|].
    split_and!; [done|by rewrite Hseq2|by eexists _, _|].
    intros t' d cp Hex. ok_inv. rewrite Hseq2 in Hex.
    rewrite <- Hview1 by done. rewrite <- Hview2 by done. unfold view.
    destruct (ceiling _ cp) eqn:Hc; [done|].
    apply Hbal. destruct (decide (t' = t)) as [->|]; [|by left].
    right. intros Hd. rewrite ceiling_None in Hc.
    specialize (Hc _ (Hcov d (or_introl Hd))). lia.
Qed.

(** Every checkpoint keeps existing and keeps the balances it stands for. *)
Definition keeps_history (w w' : World) : Prop :=
  ∀ t cp, checkpoint_exists t cp w = true →
    checkpoint_exists t cp w' = true ∧
    ∀ d, view (checkpoint w') (BalanceOf (asset w')) t d cp =
         view (checkpoint w) (BalanceOf (asset w)) t d cp.

#[global] Instance keeps_history_preorder : PreOrder keeps_history.
Proof.
  split.
  - intros w t cp Hex. by split.
  - intros w1 w2 w3 H12 H23 t cp Hex. destruct (H12 t cp Hex) as [Hex2 Hv2].
    destruct (H23 t cp Hex2) as [Hex3 Hv3]. split; [done|]. intros d. by rewrite Hv3.
Qed.

(** The checkpoint part of a step that records no balance and changes none. *)
Record quiet (w w' : World) : Prop := {
  quiet_balances : BalanceOf (asset w') = BalanceOf (asset w);
  quiet_recorded : CheckpointBalance (checkpoint w') = CheckpointBalance (checkpoint w);
  quiet_updates : BalanceUpdates (checkpoint w') = BalanceUpdates (checkpoint w);
  quiet_sequence : ∀ t, last_cp t w ≤ last_cp t w';
}.

Lemma checkpoint_exists_mono t cp w w' :
  last_cp t w ≤ last_cp t w' → checkpoint_exists t cp w = true →
  checkpoint_exists t cp w' = true.
Proof.
  unfold checkpoint_exists. intros Hle Hex. ok_inv. rewrite !bool_decide_eq_true_2 by lia. done.
Qed.

Lemma quiet_history w w' : quiet w w' → keeps_history w w'.
Proof.
  intros [HB HC HU HS] t cp Hex. split; [exact (checkpoint_exists_mono t cp w w' (HS t) Hex)|].
  intros d. unfold view. by rewrite HB, HC, HU.
Qed.

Lemma quiet_ok w w' : checkpoint_ok (checkpoint w) → quiet w w' → checkpoint_ok (checkpoint w').
Proof. intros Hok [_ HC HU HS]. by apply (checkpoint_ok_grow (checkpoint w)). Qed.

(* -------------------------------------------------------------- *)
(** ** The calls *)

Inductive call : Type :=
  | CreateCheckpoint (t : Ticker)
  | SetSchedulesMaxComplexity (max : N)
  | CreateSchedule (t : Ticker) (schedule : ScheduleCheckpoints)
  | RemoveSchedule (t : Ticker) (id : ScheduleId).

Definition dispatch (o : Origin) (c : call) : M unit :=
  match c with
  | CreateCheckpoint t => create_checkpoint o t
  | SetSchedulesMaxComplexity max => set_schedules_max_complexity o max
  | CreateSchedule t schedule => create_schedule o t schedule
  | RemoveSchedule t id => remove_schedule_call o t id
  end.

Lemma create_checkpoint_Ok o t w w' :
  create_checkpoint o t w = (Ok tt, w') →
  last_cp t w' = last_cp t w + 1 ∧ (∀ t', t' ≠ t → last_cp t' w' = last_cp t' w) ∧
  TotalSupply (checkpoint w') !! (t, last_cp t w') =
    Some (match Tokens (asset w) !! t with Some token => total_supply token | None => 0 end) ∧
  Timestamps (checkpoint w') !! (t, last_cp t w') = Some (now w) ∧
  CheckpointBalance (checkpoint w') = CheckpointBalance (checkpoint w) ∧
  BalanceUpdates (checkpoint w') = BalanceUpdates (checkpoint w) ∧
  ∃ s evs, w' = w <| checkpoint := s |> <| events := evs |>.
Proof.
  unfold create_checkpoint, create_at_by, create_at, on_checkpoint, deposit_event.
  intros H. ok_inv. destruct_product. ok_inv.
  match goal with H : Base.try_next_pre _ _ = _ |- _ =>
    apply Base.try_next_pre_Ok in H as (-> & -> & _) end.
  unfold last_cp. simpl. rewrite !getd_insert_eq, !lookup_insert_eq.
  split_and!; try done.
  - intros t' Hne. by rewrite getd_insert_ne.
  - by eexists _, _.
Qed.

Lemma dispatch_quiet o c w w' :
  dispatch o c w = (Ok tt, w') →
  quiet w w' ∧ asset w' = asset w ∧ portfolio w' = portfolio w ∧ agents w' = agents w ∧
  nft w' = nft w ∧ settlement w' = settlement w.
Proof.
  destruct c; simpl; intros H.
  - apply create_checkpoint_Ok in H as (Hc & Ho & _ & _ & HB & HU & s & evs & ->).
    split_and!; try done. constructor; try done.
    intros t'. destruct (decide (t' = t)) as [->|Hne]; [lia|]. rewrite Ho by done. lia.
  - unfold set_schedules_max_complexity, on_checkpoint, deposit_event in H. ok_inv. done.
  - unfold create_schedule, base_create_schedule, on_checkpoint, deposit_event in H. ok_inv.
    destruct_product. ok_inv.
    match goal with H : external _ _ = _ |- _ => apply external_Ok in H as (x' & m' & ->) end.
    done.
  - unfold remove_schedule_call, base_remove_schedule, on_checkpoint, deposit_event in H.
    ok_inv. done.
Qed.
End checkpoint.
End Checkpoint.
