(* ===== verification/Asset.v ===== *)
(** Assets (src/pallets/asset/src/lib.rs): tickers and their registration, the
    creation of assets, balances and supply, issuing, redeeming, transfers and
    controller transfers. *)

From stdpp Require Import base numbers list gmap sets strings.
From S2P Require Import Prelude Subset AssetIdentifier Types SettlementTypes Schedules State.
From S2P Require Import Identity Agents Portfolio Checkpoint.

Local Open Scope N_scope.

(* ------------------------------------------------------------------ *)
(** * Constants (src/pallets/common/src/constants.rs) *)

Definition ONE_UNIT : Balance := 1000000.
Definition MAX_SUPPLY : Balance := ONE_UNIT * 1000000000000.

Definition ERC1400_TRANSFER_SUCCESS : N := 0x51.
Definition ERC1400_TRANSFERS_HALTED : N := 0x54.
Definition COMPLIANCE_MANAGER_FAILURE : N := 0xa2.
Definition PORTFOLIO_FAILURE : N := 0xa9.
Definition TRANSFER_MANAGER_FAILURE : N := 0xac.

Module Asset.
(* ------------------------------------------------------------------ *)
(** ** Reads *)

Definition balance_of (t : Ticker) (d : IdentityId) (w : World) : Balance :=
  getd 0 (BalanceOf (asset w)) (t, d).
Definition frozen (t : Ticker) (w : World) : bool := getd false (Frozen (asset w)) t.

Definition token_details (t : Ticker) : Chk SecurityToken := λ w,
  ok_or (Tokens (asset w) !! t) (EAsset NoSuchAsset).
Definition supply (t : Ticker) (w : World) : Balance :=
  match Tokens (asset w) !! t with Some token => total_supply token | None => 0 end.
Definition is_divisible (t : Ticker) (w : World) : bool :=
  match Tokens (asset w) !! t with Some token => divisible token | None => false end.
Definition is_unit_multiple (value : Balance) : bool := bool_decide (value mod ONE_UNIT = 0).
Definition check_granularity (t : Ticker) (value : Balance) (w : World) : bool :=
  is_divisible t w || is_unit_multiple value.
Definition base_ensure_granular (t : Ticker) (value : Balance) : Chk unit := λ w,
  ensure (check_granularity t value w) (EAsset InvalidGranularity).

Definition base_ticker_affirmation_exemption (t : Ticker) (w : World) : bool :=
  getd false (TickersExemptFromAffirmation (asset w)) t.
Definition base_skip_ticker_affirmation (d : IdentityId) (t : Ticker) (w : World) : bool :=
  if getd false (TickersExemptFromAffirmation (asset w)) t then true
  else getd false (PreApprovedTicker (asset w)) (d, t).

Lemma base_ensure_granular_frame t v w w' :
  asset w = asset w' → base_ensure_granular t v w = base_ensure_granular t v w'.
Proof.
  intros Ha. unfold base_ensure_granular, check_granularity, is_divisible. by rewrite Ha.
Qed.

(** The asset pallet is the portfolio pallet's [T::Asset]. *)
#[global] Instance asset_fns : AssetFnTrait := {
  ensure_granular := base_ensure_granular;
  skip_ticker_affirmation := base_skip_ticker_affirmation;
  ticker_affirmation_exemption := base_ticker_affirmation_exemption;
  ensure_granular_frame := base_ensure_granular_frame;
}.

(** [nft_asset]. *)
Definition nft_asset (t : Ticker) (w : World) : option bool :=
  match Tokens (asset w) !! t with
  | Some token => Some (negb (is_fungible (asset_type token)))
  | None => None
  end.

Definition check_asset_metadata_key_exists (t : Ticker) (k : AssetMetadataKey) (w : World)
    : bool :=
  match k with
  | GlobalKey id => has_key (AssetMetadataGlobalKeyToName (asset w)) id
  | LocalKey id => has_key (AssetMetadataLocalKeyToName (asset w)) (t, id)
  end.

Definition is_owner (t : Ticker) (d : IdentityId) (w : World) : bool :=
  match getd NotOwned (AssetOwnershipRelations (asset w)) (d, t) with
  | AssetOwned | TickerOwned => true
  | NotOwned => false
  end.

(* ------------------------------------------------------------------ *)
(** ** Tickers *)

(** [Ticker::len]: one past the last byte that is not zero. *)
Fixpoint ticker_len (t : Ticker) : N :=
  match t with
  | [] => 0
  | b :: t => let n := ticker_len t in
              if bool_decide (n = 0) then (if bool_decide (b = 0) then 0 else 1) else n + 1
  end.

Definition ticker_char (b : N) : bool :=
  Ident.is_ascii_uppercase b || Ident.is_ascii_digit b
  || bool_decide (b ∈ ([95; 45; 46; 47] : list N)).

Fixpoint verify_ticker_bytes (bytes : list N) : result DispatchError unit :=
  match bytes with
  | [] => Ok tt
  | b :: rest =>
      if ticker_char b then verify_ticker_bytes rest
      else if forallb (λ b, bool_decide (b = 0)) bytes then Ok tt
      else Err (EAsset InvalidTickerCharacter)
  end.

Definition verify_ticker_characters (t : Ticker) : result DispatchError unit :=
  if bool_decide (default 0 (head t) = 0) then Err (EAsset TickerFirstByteNotValid)
  else verify_ticker_bytes t.

Definition is_ticker_available (t : Ticker) (w : World) : bool :=
  match Tickers (asset w) !! t with
  | Some reg => match reg_expiry reg with
                | Some e => bool_decide (e < now w)
                | None => false
                end
  | None => true
  end.

Definition is_ticker_registry_valid (t : Ticker) (d : IdentityId) (w : World) : bool :=
  match Tickers (asset w) !! t with
  | Some reg => bool_decide (reg_owner reg = d) &&
                match reg_expiry reg with
                | Some e => negb (bool_decide (e < now w))
                | None => true
                end
  | None => false
  end.

Definition is_ticker_available_or_registered_to (t : Ticker) (d : IdentityId) (w : World)
    : TickerRegistrationStatus :=
  match Tickers (asset w) !! t with
  | Some reg =>
      let registered := if bool_decide (reg_owner reg = d) then RegisteredByDid
                        else RegisteredByOther in
      match reg_expiry reg with
      | Some e => if bool_decide (e < now w) then Available else registered
      | None => registered
      end
  | None => Available
  end.

Definition ensure_asset_fresh (t : Ticker) : Chk unit := λ w,
  ensure (negb (has_key (Tokens (asset w)) t)) (EAsset AssetAlreadyCreated).
Definition ensure_asset_exists (t : Ticker) : Chk unit := λ w,
  ensure (has_key (Tokens (asset w)) t) (EAsset NoSuchAsset).
Definition ensure_ticker_length (t : Ticker) (config : TickerRegistrationConfig)
    : result DispatchError unit :=
  ensure (bool_decide (ticker_len t ≤ max_ticker_length config)) (EAsset TickerTooLong).
Definition ensure_within_max_supply (s : Balance) : result DispatchError unit :=
  ensure (bool_decide (s ≤ MAX_SUPPLY)) (EAsset TotalSupplyAboveLimit).

(** [ticker_registration_checks]: the expiry of the registration. *)
Definition ticker_registration_checks (t : Ticker) (to_did : IdentityId)
    (no_re_register : bool) (config : TickerRegistrationConfig) : Chk (option Moment) := λ w,
  verify_ticker_characters t ;;
  ensure_asset_fresh t w ;;
  ensure_ticker_length t config ;;
  (if match is_ticker_available_or_registered_to t to_did w with
      | RegisteredByOther => true
      | RegisteredByDid => no_re_register
      | Available => false
      end
   then Err (EAsset TickerAlreadyRegistered) else Ok tt) ;;
  Ok ((λ exp, wrapping_add u64_max (now w) exp) <$> registration_length config).

Definition unverified_register_ticker (t : Ticker) (owner : IdentityId)
    (expiry : option Moment) : M unit :=
  old ← gets (λ w, Tickers (asset w) !! t) ;
  (if old is Some details then
     on_asset (λ s, s <| AssetOwnershipRelations ::= delete (reg_owner details, t) |>)
   else mret tt) ;;
  on_asset (λ s, s <| Tickers ::= <[t := mkTickerRegistration owner expiry]> |>
                   <| AssetOwnershipRelations ::= <[(owner, t) := TickerOwned]> |>) ;;
  deposit_event (TickerRegistered owner t expiry).

Definition transfer_ticker (reg : TickerRegistration) (t : Ticker) (to : IdentityId) : M unit :=
  let from := reg_owner reg in
  on_asset (λ s, s <| AssetOwnershipRelations ::= delete (from, t) |>
                   <| AssetOwnershipRelations ::= <[(to, t) := TickerOwned]> |>
                   <| Tickers ::= <[t := reg <| reg_owner := to |>]> |>) ;;
  deposit_event (TickerTransferred to t from).

Section asset.
Context {RT : Runtime} {EX : Externals}.

(** [base_register_ticker]. *)
Definition register_ticker (o : Origin) (t : Ticker) : M unit :=
  to_did ← check (Identity.ensure_perms o) ;
  config ← gets (λ w, TickerConfig (asset w)) ;
  expiry ← check (ticker_registration_checks t to_did false config) ;
  external (charge_fees [AssetRegisterTicker]) ;;
  unverified_register_ticker t to_did expiry.

(** [base_accept_ticker_transfer]. *)
Definition accept_ticker_transfer (o : Origin) (auth_id : N) : M unit :=
  to ← check (Identity.ensure_perms o) ;
  Identity.accept_auth_with (SigIdentity to) auth_id (λ data auth_by,
    match data with
    | TransferTicker t =>
        check (ensure_asset_fresh t) ;;
        reg ← check (λ w, ok_or (Tickers (asset w) !! t) (EAsset TickerRegistrationExpired)) ;
        check (λ _, Identity.ensure_auth_by auth_by (reg_owner reg)) ;;
        transfer_ticker reg t to
    | _ => throw (EAuth AuthBadType)
    end).

(** [base_accept_token_ownership_transfer]. *)
Definition accept_asset_ownership_transfer (o : Origin) (id : N) : M unit :=
  to ← check (Identity.ensure_perms o) ;
  Identity.accept_auth_with (SigIdentity to) id (λ data auth_by,
    match data with
    | TransferAssetOwnership t =>
        token ← check (token_details t) ;
        check (Agents.ensure_agent_permissioned t auth_by) ;;
        reg ← check (λ w, ok_or (Tickers (asset w) !! t) (EAsset NoSuchAsset)) ;
        let old_owner := reg_owner reg in
        on_asset (λ s,
          s <| AssetOwnershipRelations ::= delete (old_owner, t) |>
            <| AssetOwnershipRelations ::= <[(to, t) := AssetOwned]> |>
            <| Tickers ::= <[t := reg <| reg_owner := to |>]> |>
            <| Tokens ::= <[t := token <| owner_did := to |>]> |>) ;;
        deposit_event (AssetOwnershipTransferred to t old_owner)
    | _ => throw (EAuth AuthBadType)
    end).

(* ------------------------------------------------------------------ *)
(** ** Creating assets *)

Definition ensure_asset_name_bounded (name : AssetName) : result DispatchError unit :=
  ensure (bool_decide (Base.len name mod (u32_max + 1) ≤ AssetNameMaxLength))
    (EAsset MaxLengthOfAssetNameExceeded).
Definition ensure_funding_round_name_bounded (name : FundingRoundName)
    : result DispatchError unit :=
  ensure (bool_decide (Base.len name mod (u32_max + 1) ≤ FundingRoundNameMaxLength))
    (EAsset FundingRoundNameMaxLengthExceeded).
Definition ensure_asset_idents_valid (idents : list AssetIdentifier)
    : result DispatchError unit :=
  ensure (forallb Ident.is_valid idents) (EAsset InvalidAssetIdentifier).
Definition ensure_asset_type_valid (ty : AssetType) : Chk unit := λ w,
  match ty with
  | Custom id => ensure (has_key (CustomTypes (asset w)) id) (EAsset InvalidCustomAssetTypeId)
  | _ => Ok tt
  end.
Definition ensure_create_asset_parameters (t : Ticker) : Chk unit := λ w,
  ensure_asset_fresh t w ;;
  ensure_ticker_length t (TickerConfig (asset w)).

Definition unverified_update_idents (d : IdentityId) (t : Ticker)
    (idents : list AssetIdentifier) : M unit :=
  on_asset (λ s, s <| Identifiers ::= <[t := idents]> |>) ;;
  deposit_event (IdentifiersUpdated d t idents).

(** The [unwrap] of adding the first agent panics when the full count of the
    ticker is exhausted; a panic aborts the block, here it is an error. *)
Definition unsafe_create_asset (d : IdentityId) (sk : option SecondaryKey) (name : AssetName)
    (t : Ticker) (div : bool) (ty : AssetType) (identifiers : list AssetIdentifier)
    (funding_round : option FundingRoundName) : M IdentityId :=
  check (λ _, ensure_asset_name_bounded name) ;;
  check (λ _, if funding_round is Some fr then ensure_funding_round_name_bounded fr else Ok tt) ;;
  check (λ _, ensure_asset_idents_valid identifiers) ;;
  check (ensure_asset_type_valid ty) ;;
  check (ensure_create_asset_parameters t) ;;
  available ← check (λ w,
    match is_ticker_available_or_registered_to t d w with
    | RegisteredByOther => Err (EAsset TickerAlreadyRegistered)
    | RegisteredByDid => Ok false
    | Available => Ok true
    end) ;
  check (λ _, if available : bool then verify_ticker_characters t else Ok tt) ;;
  check (ensure_token_did_fresh t) ;;
  check (Portfolio.ensure_portfolio_custody_and_permission (default_portfolio d) d sk) ;;
  external (charge_fees (if available then [AssetRegisterTicker; AssetCreateAsset] else [])) ;;
  modify (λ w, w <| rest := commit_token_did t w |>) ;;
  deposit_event (AssetDidRegistered (get_token_did t) t) ;;
  (if available : bool then unverified_register_ticker t d None
   else on_asset (λ s, s <| Tickers ::= alter (λ tr, tr <| reg_expiry := None |>) t |>)) ;;
  on_asset (λ s,
    s <| Tokens ::= <[t := mkSecurityToken 0 d div ty]> |>
      <| AssetNames ::= <[t := name]> |>
      <| AssetOwnershipRelations ::= <[(d, t) := AssetOwned]> |>) ;;
  deposit_event (AssetCreated d t div ty d name identifiers funding_round) ;;
  (if funding_round is Some fr then on_asset (λ s, s <| FundingRound ::= <[t := fr]> |>)
   else mret tt) ;;
  unverified_update_idents d t identifiers ;;
  Agents.unchecked_add_agent t d Full ;;
  mret d.

(** [base_create_asset]. *)
Definition create_asset (o : Origin) (name : AssetName) (t : Ticker) (div : bool)
    (ty : AssetType) (identifiers : list AssetIdentifier)
    (funding_round : option FundingRoundName) : M unit :=
  data ← check (Identity.ensure_origin_call_permissions o) ;
  unsafe_create_asset (primary_did data) (secondary_key data) name t div ty identifiers
    funding_round ;;
  mret tt.

Definition unsafe_register_custom_asset_type (d : IdentityId) (ty : list N)
    : M CustomAssetTypeId :=
  check (λ _, Base.ensure_string_limited ty) ;;
  found ← gets (λ w, CustomTypesInverse (asset w) !! ty) ;
  match found with
  | Some id => deposit_event (CustomAssetTypeExists d id ty) ;; mret id
  | None =>
      '(id, seq) ← check (λ w, Base.try_next_pre u32_max (CustomTypeIdSequence (asset w))) ;
      on_asset (λ s, s <| CustomTypeIdSequence := seq |>
                       <| CustomTypesInverse ::= <[ty := id]> |>
                       <| CustomTypes ::= <[id := ty]> |>) ;;
      deposit_event (CustomAssetTypeRegistered d id ty) ;;
      mret id
  end.

(** [base_register_custom_asset_type]. *)
Definition register_custom_asset_type (o : Origin) (ty : list N) : M unit :=
  d ← check (Identity.ensure_perms o) ;
  unsafe_register_custom_asset_type d ty ;; mret tt.

Definition create_asset_with_custom_type (o : Origin) (name : AssetName) (t : Ticker)
    (div : bool) (custom_type : list N) (identifiers : list AssetIdentifier)
    (funding_round : option FundingRoundName) : M unit :=
  data ← check (Identity.ensure_origin_call_permissions o) ;
  id ← unsafe_register_custom_asset_type (primary_did data) custom_type ;
  unsafe_create_asset (primary_did data) (secondary_key data) name t div (Custom id)
    identifiers funding_round ;;
  mret tt.

(* ------------------------------------------------------------------ *)
(** ** Transfers *)

Definition portfolio_failure (from to : PortfolioId) (t : Ticker) (value : Balance)
    (w : World) : bool :=
  is_err (Portfolio.ensure_portfolio_transfer_validity from to t value w).

(** [statistics_failures]: the check may consume weight. *)
Definition statistics_failures (from to : IdentityId) (t : Ticker) (value : Balance)
    : M bool :=
  from_balance ← gets (balance_of t from) ;
  to_balance ← gets (balance_of t to) ;
  total ← gets (supply t) ;
  r ← catch (external (verify_transfer_restrictions t from to from_balance to_balance value
                         total)) ;
  mret (is_err r).

(** [_is_valid_transfer]: the ERC-1400 status code. *)
Definition is_valid_transfer (t : Ticker) (from to : PortfolioId) (value : Balance) : M N :=
  halted ← gets (frozen t) ;
  if halted : bool then mret ERC1400_TRANSFERS_HALTED
  else
    failure ← gets (portfolio_failure from to t value) ;
    if failure : bool then mret PORTFOLIO_FAILURE
    else
      failure ← statistics_failures (did from) (did to) t value ;
      if failure : bool then mret TRANSFER_MANAGER_FAILURE
      else
        compliant ← external (is_compliant t (did from) (did to)) ;
        if compliant : bool then mret ERC1400_TRANSFER_SUCCESS
        else mret COMPLIANCE_MANAGER_FAILURE.

Definition unsafe_transfer (from to : PortfolioId) (t : Ticker) (value : Balance)
    (instruction_id : option InstructionId) (instruction_memo : option Memo)
    (caller : IdentityId) : M unit :=
  check (base_ensure_granular t value) ;;
  token ← check (token_details t) ;
  check (λ _, ensure (is_fungible (asset_type token)) (EAsset UnexpectedNonFungibleToken)) ;;
  check (λ _, ensure (bool_decide (did from ≠ did to)) (EAsset SenderSameAsReceiver)) ;;
  from_total_balance ← gets (balance_of t (did from)) ;
  check (λ _, ensure (bool_decide (value ≤ from_total_balance)) (EAsset InsufficientBalance)) ;;
  let updated_from_total_balance := from_total_balance - value in
  to_total_balance ← gets (balance_of t (did to)) ;
  updated_to_total_balance ← check (λ _,
    ok_or (checked_add u128_max to_total_balance value) (EAsset BalanceOverflow)) ;
  check (Portfolio.ensure_sufficient_balance from t value) ;;
  Checkpoint.advance_update_balances t
    [(did from, from_total_balance); (did to, to_total_balance)] ;;
  on_asset (λ s, s <| BalanceOf ::= <[(t, did from) := updated_from_total_balance]> |>
                   <| BalanceOf ::= <[(t, did to) := updated_to_total_balance]> |>) ;;
  Portfolio.unchecked_transfer_portfolio_balance from to t value ;;
  external (update_asset_stats t (Some (did from)) (Some (did to))
              (Some updated_from_total_balance) (Some updated_to_total_balance) value) ;;
  deposit_event (AssetBalanceUpdated caller t value (Some from) (Some to)
                   (Transferred instruction_id instruction_memo)).

Definition base_transfer (from to : PortfolioId) (t : Ticker) (value : Balance)
    (instruction_id : option InstructionId) (instruction_memo : option Memo)
    (caller : IdentityId) : M unit :=
  status ← is_valid_transfer t from to value ;
  check (λ _, ensure (bool_decide (status = ERC1400_TRANSFER_SUCCESS))
                (EAsset InvalidTransfer)) ;;
  unsafe_transfer from to t value instruction_id instruction_memo caller.

(* ------------------------------------------------------------------ *)
(** ** Issuing and redeeming *)

Definition ensure_origin_ticker_and_portfolio_permissions (o : Origin) (t : Ticker)
    (k : PortfolioKind) (ensure_custody : bool) : Chk PortfolioId := λ w,
  data ← Agents.ensure_agent_asset_perms o t w ;
  let pid := mkPortfolioId (primary_did data) k in
  Portfolio.ensure_portfolio_validity pid w ;;
  (if ensure_custody then Portfolio.ensure_portfolio_custody pid (primary_did data) w
   else Ok tt) ;;
  Portfolio.ensure_user_portfolio_permission (secondary_key data) pid ;;
  Ok pid.

(** [_mint]; the unchecked additions wrap. *)
Definition mint (t : Ticker) (issuer : PortfolioId) (value : Balance)
    (protocol_fee_data : option ProtocolOp) : M unit :=
  check (base_ensure_granular t value) ;;
  token ← check (token_details t) ;
  check (λ _, ensure (is_fungible (asset_type token)) (EAsset UnexpectedNonFungibleToken)) ;;
  updated_total_supply ← check (λ _,
    ok_or (checked_add u128_max (total_supply token) value) (EAsset TotalSupplyOverflow)) ;
  check (λ _, ensure_within_max_supply updated_total_supply) ;;
  current_to_balance ← gets (balance_of t (did issuer)) ;
  let updated_to_balance := wrapping_add u128_max current_to_balance value in
  portfolio_balance ← gets (Portfolio.portfolio_asset_balances issuer t) ;
  let updated_to_def_balance := wrapping_add u128_max portfolio_balance value in
  with_storage_transaction (
    (if protocol_fee_data is Some op then external (charge_fees [op]) else mret tt) ;;
    Checkpoint.advance_update_balances t [(did issuer, current_to_balance)]) ;;
  on_asset (λ s, s <| BalanceOf ::= <[(t, did issuer) := updated_to_balance]> |>) ;;
  Portfolio.set_portfolio_balance issuer t updated_to_def_balance ;;
  on_asset (λ s, s <| Tokens ::= <[t := token <| total_supply := updated_total_supply |>]> |>) ;;
  external (update_asset_stats t None (Some (did issuer)) None (Some updated_to_balance)
              value) ;;
  round ← gets (λ w, getd [] (FundingRound (asset w)) t) ;
  issued ← gets (λ w, getd 0 (IssuedInFundingRound (asset w)) (t, round)) ;
  on_asset (λ s, s <| IssuedInFundingRound ::=
                      <[(t, round) := wrapping_add u128_max issued value]> |>) ;;
  deposit_event (AssetBalanceUpdated (did issuer) t value None (Some issuer)
                   (Issued (Some round))).

(** [base_issue]. *)
Definition issue (o : Origin) (t : Ticker) (amount : Balance) (k : PortfolioKind) : M unit :=
  pid ← check (ensure_origin_ticker_and_portfolio_permissions o t k false) ;
  set_meter max_limit_no_minimum ;;
  mint t pid amount (Some AssetIssue).

Definition base_redeem (o : Origin) (t : Ticker) (value : Balance) (k : PortfolioKind)
    : M unit :=
  pid ← check (ensure_origin_ticker_and_portfolio_permissions o t k true) ;
  check (base_ensure_granular t value) ;;
  token ← check (token_details t) ;
  check (λ _, ensure (is_fungible (asset_type token)) (EAsset UnexpectedNonFungibleToken)) ;;
  new_supply ← with_storage_transaction (
    Portfolio.reduce_portfolio_balance pid t value ;;
    new_supply ← check (λ _, ok_or (checked_sub (total_supply token) value)
                                (EAsset TotalSupplyOverflow)) ;
    balance ← gets (balance_of t (did pid)) ;
    Checkpoint.advance_update_balances t [(did pid, balance)] ;;
    mret new_supply) ;
  balance ← gets (balance_of t (did pid)) ;
  let updated_balance := wrapping_sub u128_max balance value in
  on_asset (λ s, s <| BalanceOf ::= <[(t, did pid) := updated_balance]> |>
                   <| Tokens ::= <[t := token <| total_supply := new_supply |>]> |>) ;;
  external (update_asset_stats t (Some (did pid)) None (Some updated_balance) None value) ;;
  deposit_event (AssetBalanceUpdated (did pid) t value (Some pid) None Redeemed).

Definition redeem (o : Origin) (t : Ticker) (value : Balance) : M unit :=
  set_meter max_limit_no_minimum ;;
  base_redeem o t value Default.

Definition redeem_from_portfolio (o : Origin) (t : Ticker) (value : Balance)
    (k : PortfolioKind) : M unit :=
  set_meter max_limit_no_minimum ;;
  base_redeem o t value k.

(** [base_controller_transfer]. *)
Definition controller_transfer (o : Origin) (t : Ticker) (value : Balance)
    (from : PortfolioId) : M unit :=
  set_meter max_limit_no_minimum ;;
  to ← check (ensure_origin_ticker_and_portfolio_permissions o t Default false) ;
  unsafe_transfer from to t value None None (did to) ;;
  deposit_event (ControllerTransfer (did to) t from value).

(* ------------------------------------------------------------------ *)
(** ** Other dispatchables *)

Definition set_freeze (o : Origin) (t : Ticker) (freeze : bool) : M unit :=
  d ← check (Agents.ensure_perms o t) ;
  check (ensure_asset_exists t) ;;
  let '(event, error) := if freeze then (AssetFrozen d t, AlreadyFrozen)
                         else (AssetUnfrozen d t, NotFrozen) in
  check (λ w, ensure (negb (eqb (frozen t w) freeze)) (EAsset error)) ;;
  on_asset (λ s, s <| Frozen ::= <[t := freeze]> |>) ;;
  deposit_event event.

(** [base_rename_asset]. *)
Definition rename_asset (o : Origin) (t : Ticker) (name : AssetName) : M unit :=
  check (λ _, ensure_asset_name_bounded name) ;;
  check (ensure_asset_exists t) ;;
  d ← check (Agents.ensure_perms o t) ;
  on_asset (λ s, s <| AssetNames ::= <[t := name]> |>) ;;
  deposit_event (AssetRenamed d t name).

(** [base_make_divisible]. *)
Definition make_divisible (o : Origin) (t : Ticker) : M unit :=
  d ← check (Agents.ensure_perms o t) ;
  token ← check (token_details t) ;
  check (λ _, ensure (is_fungible (asset_type token)) (EAsset UnexpectedNonFungibleToken)) ;;
  check (λ _, ensure (negb (divisible token)) (EAsset AssetAlreadyDivisible)) ;;
  deposit_event (DivisibilityChanged d t true) ;;
  on_asset (λ s, s <| Tokens ::= <[t := token <| divisible := true |>]> |>).

(** [base_set_funding_round]. *)
Definition set_funding_round (o : Origin) (t : Ticker) (name : FundingRoundName) : M unit :=
  check (λ _, ensure_funding_round_name_bounded name) ;;
  d ← check (Agents.ensure_perms o t) ;
  on_asset (λ s, s <| FundingRound ::= <[t := name]> |>) ;;
  deposit_event (FundingRoundSet d t name).

(** [base_update_identifiers]. *)
Definition update_identifiers (o : Origin) (t : Ticker) (idents : list AssetIdentifier)
    : M unit :=
  d ← check (Agents.ensure_perms o t) ;
  check (λ _, ensure_asset_idents_valid idents) ;;
  unverified_update_idents d t idents.

(** [base_update_asset_type]. *)
Definition update_asset_type (o : Origin) (t : Ticker) (ty : AssetType) : M unit :=
  check (ensure_asset_exists t) ;;
  check (ensure_asset_type_valid ty) ;;
  d ← check (Agents.ensure_perms o t) ;
  token ← check (token_details t) ;
  check (λ _, ensure (eqb (is_fungible (asset_type token)) (is_fungible ty))
                (EAsset IncompatibleAssetTypeUpdate)) ;;
  on_asset (λ s, s <| Tokens ::= <[t := token <| asset_type := ty |>]> |>) ;;
  deposit_event (AssetTypeChanged d t ty).

Definition exempt_ticker_affirmation (o : Origin) (t : Ticker) : M unit :=
  check (λ _, ensure_root o) ;;
  on_asset (λ s, s <| TickersExemptFromAffirmation ::= <[t := true]> |>) ;;
  deposit_event (AssetAffirmationExemption t).

Definition remove_ticker_affirmation_exemption (o : Origin) (t : Ticker) : M unit :=
  check (λ _, ensure_root o) ;;
  on_asset (λ s, s <| TickersExemptFromAffirmation ::= delete t |>) ;;
  deposit_event (RemoveAssetAffirmationExemption t).

Definition pre_approve_ticker (o : Origin) (t : Ticker) : M unit :=
  d ← check (Identity.ensure_perms o) ;
  on_asset (λ s, s <| PreApprovedTicker ::= <[(d, t) := true]> |>) ;;
  deposit_event (PreApprovedAsset d t).

Definition remove_ticker_pre_approval (o : Origin) (t : Ticker) : M unit :=
  d ← check (Identity.ensure_perms o) ;
  on_asset (λ s, s <| PreApprovedTicker ::= delete (d, t) |>) ;;
  deposit_event (RemovePreApprovedAsset d t).

(** [BoundedBTreeSet::try_insert]. *)
Definition try_insert_mediator (s : gset IdentityId) (d : IdentityId)
    : result DispatchError (gset IdentityId) :=
  if decide (d ∈ s) then Ok s
  else if bool_decide (gset_len s < MaxAssetMediators) then Ok ({[d]} ∪ s)
  else Err (EAsset NumberOfAssetMediatorsExceeded).

(** [base_add_mandatory_mediators]. *)
Definition add_mandatory_mediators (o : Origin) (t : Ticker) (new : gset IdentityId) : M unit :=
  d ← check (Agents.ensure_perms o t) ;
  mediators ← check (λ w, fold_check try_insert_mediator
                            (getd ∅ (MandatoryMediators (asset w)) t) (elements new)) ;
  on_asset (λ s, s <| MandatoryMediators ::= <[t := mediators]> |>) ;;
  deposit_event (AssetMediatorsAdded d t new).

(** [base_remove_mandatory_mediators]. *)
Definition remove_mandatory_mediators (o : Origin) (t : Ticker) (old : gset IdentityId)
    : M unit :=
  d ← check (Agents.ensure_perms o t) ;
  on_asset (λ s, s <| MandatoryMediators ::= λ m, <[t := getd ∅ m t ∖ old]> m |>) ;;
  deposit_event (AssetMediatorsRemoved d t old).

(* ------------------------------------------------------------------ *)
(** ** What the operations do *)

(** A successful transfer, exactly: its checks held, checkpoints were advanced
    and told the old balances, and the balances of the identities and of the
    portfolios moved by [value]. *)
Lemma unsafe_transfer_Ok from to t value iid memo caller w w' :
  unsafe_transfer from to t value iid memo caller w = (Ok tt, w') →
  (∃ token, Tokens (asset w) !! t = Some token ∧ is_fungible (asset_type token) = true) ∧
  did from ≠ did to ∧ value ≤ balance_of t (did from) w ∧
  balance_of t (did to) w + value ≤ u128_max ∧
  Portfolio.ensure_sufficient_balance from t value w = Ok tt ∧
  (∃ w1, Checkpoint.advance_update_balances t
      [(did from, balance_of t (did from) w); (did to, balance_of t (did to) w)] w
      = (Ok tt, w1) ∧ checkpoint w' = checkpoint w1) ∧
  asset w' = (asset w) <| BalanceOf ::= λ b,
                <[(t, did to) := balance_of t (did to) w + value]>
                  (<[(t, did from) := balance_of t (did from) w - value]> b) |> ∧
  portfolio w' = Portfolio.put_transfer from to t value (portfolio w) ∧
  untouched w w'.
Proof.
  unfold unsafe_transfer, token_details, on_asset, deposit_event. intros H. ok_inv.
  match goal with H : checked_add _ _ _ = Some _ |- _ =>
    apply checked_add_Some in H as [-> Hadd] end.
  match goal with H : Checkpoint.advance_update_balances _ _ _ = _ |- _ => rename H into Hcp end.
  match goal with H : external _ _ = _ |- _ => apply external_Ok in H as (x & m & ->) end.
  match goal with H : Portfolio.unchecked_transfer_portfolio_balance _ _ _ _ _ = _ |- _ =>
    rewrite Portfolio.unchecked_transfer_eq in H; injection H as <- end.
  pose proof (Checkpoint.advance_update_balances_frame _ _ _ _ Hcp) as (s1 & e1 & ->).
  split_and!; try done; by eexists.
Qed.

(** The checkpoint step of an update of [(t, d)]'s balance: the store after
    [advance_update_balances] was told the balance from before. *)
Definition checkpointed (t : Ticker) (old : list (IdentityId * Balance)) (w w' : World)
    : Prop :=
  ∃ w0 w1, checkpoint w0 = checkpoint w ∧ asset w0 = asset w ∧ now w0 = now w ∧
    Checkpoint.advance_update_balances t old w0 = (Ok tt, w1) ∧
    checkpoint w' = checkpoint w1.

Definition round_of (t : Ticker) (w : World) : FundingRoundName :=
  getd [] (FundingRound (asset w)) t.

Lemma mint_Ok t issuer value fee w w' :
  mint t issuer value fee w = (Ok tt, w') →
  ∃ token, Tokens (asset w) !! t = Some token ∧ is_fungible (asset_type token) = true ∧
    total_supply token + value ≤ MAX_SUPPLY ∧ check_granularity t value w = true ∧
    checkpointed t [(did issuer, balance_of t (did issuer) w)] w w' ∧
    asset w' = (asset w)
      <| BalanceOf ::= <[(t, did issuer) :=
            wrapping_add u128_max (balance_of t (did issuer) w) value]> |>
      <| Tokens ::= <[t := token <| total_supply := total_supply token + value |>]> |>
      <| IssuedInFundingRound ::= λ m, <[(t, round_of t w) :=
            wrapping_add u128_max (getd 0 m (t, round_of t w)) value]> m |> ∧
    portfolio w' = Portfolio.put_balance issuer t
      (wrapping_add u128_max (Portfolio.portfolio_asset_balances issuer t w) value)
      (portfolio w) ∧
    untouched w w'.
Proof.
  unfold mint, token_details, ensure_within_max_supply, base_ensure_granular, on_asset,
    deposit_event. intros H. ok_inv.
  match goal with H : checked_add _ _ _ = Some _ |- _ =>
    apply checked_add_Some in H as [-> _] end.
  match goal with H : with_storage_transaction _ _ = _ |- _ =>
    apply with_storage_transaction_Ok in H end.
  ok_inv.
  match goal with H : Checkpoint.advance_update_balances _ _ ?w0 = (_, ?w1) |- _ =>
    rename H into Hcp; assert (∃ x m, w0 = w <| rest := x |> <| meter := m |>) as (x & m & ->)
  end.
  { destruct fee; [by eapply external_Ok|]. ok_inv. exists (rest w), (meter w). by destruct w. }
  match goal with H : external (update_asset_stats _ _ _ _ _ _) _ = _ |- _ =>
    apply external_Ok in H as (x' & m' & ->) end.
  match goal with H : Portfolio.set_portfolio_balance _ _ _ _ = _ |- _ =>
    rewrite Portfolio.set_portfolio_balance_eq in H; injection H as <- end.
  pose proof (Checkpoint.advance_update_balances_frame _ _ _ _ Hcp) as (s1 & e1 & ->).
  eexists. split_and!; try done.
  eexists _, _. split_and!; [| | |exact Hcp|]; done.
Qed.

Lemma base_redeem_Ok o t value k w w' :
  base_redeem o t value k w = (Ok tt, w') →
  ∃ pid token,
    ensure_origin_ticker_and_portfolio_permissions o t k true w = Ok pid ∧
    Tokens (asset w) !! t = Some token ∧ is_fungible (asset_type token) = true ∧
    value ≤ total_supply token ∧
    Portfolio.locked_assets pid t w + value ≤ Portfolio.portfolio_asset_balances pid t w ∧
    checkpointed t [(did pid, balance_of t (did pid) w)] w w' ∧
    asset w' = (asset w)
      <| BalanceOf ::= <[(t, did pid) :=
            wrapping_sub u128_max (balance_of t (did pid) w) value]> |>
      <| Tokens ::= <[t := token <| total_supply := total_supply token - value |>]> |> ∧
    portfolio w' = Portfolio.put_balance pid t
      (Portfolio.portfolio_asset_balances pid t w - value) (portfolio w) ∧
    untouched w w'.
Proof.
  unfold base_redeem, token_details, base_ensure_granular, on_asset, deposit_event.
  intros H. ok_inv.
  match goal with H : with_storage_transaction _ _ = _ |- _ =>
    apply with_storage_transaction_Ok in H end.
  ok_inv.
  match goal with H : checked_sub _ _ = Some _ |- _ => apply checked_sub_Some in H as [-> ?] end.
  match goal with H : Portfolio.reduce_portfolio_balance _ _ _ _ = _ |- _ =>
    apply Portfolio.reduce_portfolio_balance_Ok in H as [Hfree ->] end.
  match goal with H : external (update_asset_stats _ _ _ _ _ _) _ = _ |- _ =>
    apply external_Ok in H as (x' & m' & ->) end.
  match goal with H : Checkpoint.advance_update_balances _ _ _ = _ |- _ => rename H into Hcp end.
  pose proof (Checkpoint.advance_update_balances_frame _ _ _ _ Hcp) as (s1 & e1 & ->).
  eexists _, _. split_and!; try done.
  eexists _, _. split_and!; [| | |exact Hcp|]; done.
Qed.

(* ------------------------------------------------------------------ *)
(** ** The supply invariant *)

(** The sum of the identities' balances of a ticker. *)
Definition total_held (b : gmap (Ticker * IdentityId) Balance) (t : Ticker) : Balance :=
  msum (λ k v, if decide (k.1 = t) then v else 0) b.

(** The sum of the balances of an identity's portfolios. *)
Definition portfolios_held (b : gmap (PortfolioId * Ticker) Balance) (t : Ticker)
    (d : IdentityId) : Balance :=
  msum (λ k v, if decide (did k.1 = d ∧ k.2 = t) then v else 0) b.

(** Every unit of the supply is held by one identity, and by one portfolio of
    it; the supply is within the limit. *)
Record supply_ok (w : World) : Prop := {
  ok_supply : ∀ t, supply t w = total_held (BalanceOf (asset w)) t;
  ok_identity : ∀ t d, balance_of t d w =
    portfolios_held (PortfolioAssetBalances (portfolio w)) t d;
  ok_max : ∀ t, supply t w ≤ MAX_SUPPLY;
}.

Lemma total_held_insert b t d v t' :
  total_held (<[(t, d) := v]> b) t' + (if decide (t = t') then getd 0 b (t, d) else 0) =
  total_held b t' + (if decide (t = t') then v else 0).
Proof.
  unfold total_held.
  pose proof (msum_insert 0 (λ (k : Ticker * IdentityId) v, if decide (k.1 = t') then v else 0)
    b (t, d) v) as Hi. simpl in Hi. apply Hi. by case_decide.
Qed.

Lemma portfolios_held_insert b p t v t' d :
  portfolios_held (<[(p, t) := v]> b) t' d +
    (if decide (did p = d ∧ t = t') then getd 0 b (p, t) else 0) =
  portfolios_held b t' d + (if decide (did p = d ∧ t = t') then v else 0).
Proof.
  unfold portfolios_held.
  pose proof (msum_insert 0 (λ (k : PortfolioId * Ticker) v,
    if decide (did k.1 = d ∧ k.2 = t') then v else 0) b (p, t) v) as Hi.
  simpl in Hi. apply Hi. by case_decide.
Qed.

Lemma total_held_ge b t d : getd 0 b (t, d) ≤ total_held b t.
Proof.
  unfold total_held.
  pose proof (msum_getd_le 0 (λ (k : Ticker * IdentityId) v, if decide (k.1 = t) then v else 0)
    b (t, d)) as Hg. simpl in Hg. rewrite !decide_True in Hg by done. by apply Hg.
Qed.

Lemma portfolios_held_ge b t p : getd 0 b (p, t) ≤ portfolios_held b t (did p).
Proof.
  unfold portfolios_held.
  pose proof (msum_getd_le 0 (λ (k : PortfolioId * Ticker) v,
    if decide (did k.1 = did p ∧ k.2 = t) then v else 0) b (p, t)) as Hg.
  simpl in Hg. rewrite !decide_True in Hg by done. by apply Hg.
Qed.

(** A portfolio's balance is at most the identity's, which is at most the
    supply: the reason the unchecked additions of the pallet do not wrap. *)
Lemma supply_bounds w :
  supply_ok w →
  (∀ t d, balance_of t d w ≤ supply t w) ∧
  (∀ t p, Portfolio.portfolio_asset_balances p t w ≤ balance_of t (did p) w).
Proof.
  intros [Hs Hi _]. split.
  - intros t d. rewrite Hs. apply total_held_ge.
  - intros t p. rewrite Hi. apply portfolios_held_ge.
Qed.

Lemma max_supply_fits : MAX_SUPPLY + MAX_SUPPLY ≤ u128_max.
Proof. by vm_compute. Qed.

Lemma supply_ok_transfer w w' from to t value :
  supply_ok w → did from ≠ did to → value ≤ Portfolio.portfolio_asset_balances from t w →
  asset w' = (asset w) <| BalanceOf ::= λ b,
      <[(t, did to) := balance_of t (did to) w + value]>
        (<[(t, did from) := balance_of t (did from) w - value]> b) |> →
  portfolio w' = Portfolio.put_transfer from to t value (portfolio w) →
  supply_ok w'.
Proof.
  intros Hok Hne Hval Ha Hp. destruct (supply_bounds w Hok) as [Hb1 Hb2].
  destruct Hok as [Hs Hi Hm]. unfold Portfolio.portfolio_asset_balances in *.
  pose proof (Hb2 t from) as Hf. pose proof (Hb2 t to) as Ht.
  pose proof (Hb1 t (did to)). pose proof (Hm t). pose proof max_supply_fits.
  pose proof (Hb1 t (did from)).
  constructor; unfold supply, balance_of in *; rewrite Ha; simpl.
  - intros t'. rewrite Hs.
    pose proof (total_held_insert (BalanceOf (asset w)) t (did from)
      (getd 0 (BalanceOf (asset w)) (t, did from) - value) t') as HA.
    pose proof (total_held_insert (<[(t, did from) :=
      getd 0 (BalanceOf (asset w)) (t, did from) - value]> (BalanceOf (asset w))) t (did to)
      (getd 0 (BalanceOf (asset w)) (t, did to) + value) t') as HB.
    rewrite getd_insert_ne in HB by congruence. case_decide; lia.
  - intros t' d. rewrite Hp. unfold Portfolio.put_transfer, Portfolio.put_balance. simpl.
    set (b := PortfolioAssetBalances (portfolio w)) in *.
    pose proof (portfolios_held_insert b from t (getd 0 b (from, t) - value) t' d) as HA.
    pose proof (portfolios_held_insert (<[(from, t) := getd 0 b (from, t) - value]> b) to t
      (saturating_add u128_max (getd 0 b (to, t)) value) t' d) as HB.
    rewrite (getd_insert_ne 0 b (from, t) (to, t)) in * by congruence.
    rewrite saturating_add_small in * by lia. pose proof (Hi t' d) as Hi'.
    destruct (decide (t = t')) as [<-|Ht'].
    + destruct (decide (d = did to)) as [->|Hto]; [|destruct (decide (d = did from)) as [->|Hfr]].
      * rewrite getd_insert_eq. rewrite !decide_False in HA by naive_solver.
        rewrite !decide_True in HB by done. lia.
      * rewrite getd_insert_ne, getd_insert_eq by congruence.
        rewrite !decide_True in HA by done. rewrite !decide_False in HB by naive_solver. lia.
      * rewrite !getd_insert_ne by congruence.
        rewrite !decide_False in HA by naive_solver. rewrite !decide_False in HB by naive_solver.
        lia.
    + rewrite !getd_insert_ne by congruence.
      rewrite !decide_False in HA by naive_solver. rewrite !decide_False in HB by naive_solver.
      lia.
  - intros t'. apply Hm.
Qed.

(** One holder's balance and the supply change by the same amount. *)
Lemma supply_ok_adjust w w' t p token nb np ns :
  supply_ok w → Tokens (asset w) !! t = Some token →
  BalanceOf (asset w') = <[(t, did p) := nb]> (BalanceOf (asset w)) →
  Tokens (asset w') = <[t := token <| total_supply := ns |>]> (Tokens (asset w)) →
  PortfolioAssetBalances (portfolio w') =
    <[(p, t) := np]> (PortfolioAssetBalances (portfolio w)) →
  ns + balance_of t (did p) w = total_supply token + nb →
  np + balance_of t (did p) w = Portfolio.portfolio_asset_balances p t w + nb →
  ns ≤ MAX_SUPPLY →
  supply_ok w'.
Proof.
  intros [Hs Hi Hm] Htok HB HT HP Hns Hnp Hmax.
  unfold Portfolio.portfolio_asset_balances in *.
  constructor; unfold supply, balance_of in *; rewrite ?HB, ?HT, ?HP.
  - intros t'. pose proof (total_held_insert (BalanceOf (asset w)) t (did p) nb t') as HA.
    specialize (Hs t'). rewrite lookup_insert. case_decide as Ht.
    + subst t'. rewrite Htok in Hs. simpl. lia.
    + rewrite Hs. lia.
  - intros t' d.
    pose proof (portfolios_held_insert (PortfolioAssetBalances (portfolio w)) p t np t' d) as HA.
    specialize (Hi t' d). destruct (decide (did p = d ∧ t = t')) as [[<- <-]|Hne].
    + rewrite getd_insert_eq. lia.
    + rewrite getd_insert_ne by naive_solver. lia.
  - intros t'. rewrite lookup_insert. case_decide; [done|apply Hm].
Qed.

Lemma unsafe_transfer_supply_ok from to t value iid memo caller w w' :
  supply_ok w → Portfolio.balances_ok (portfolio w) →
  unsafe_transfer from to t value iid memo caller w = (Ok tt, w') → supply_ok w'.
Proof.
  intros Hok Hbal (_ & Hne & Hval & _ & Hsuf & _ & Ha & Hp & _)%unsafe_transfer_Ok.
  apply (supply_ok_transfer w w' from to t value); try done.
  apply Portfolio.ensure_sufficient_balance_Ok in Hsuf as [_ Hsuf].
  destruct (decide (0 < value)) as [Hpos|]; [specialize (Hsuf Hpos)|]; lia.
Qed.

Lemma mint_supply_ok t issuer value fee w w' :
  supply_ok w → mint t issuer value fee w = (Ok tt, w') → supply_ok w'.
Proof.
  intros Hok (token & Htok & _ & Hmax & _ & _ & Ha & Hp & _)%mint_Ok.
  destruct (supply_bounds w Hok) as [Hb1 Hb2].
  specialize (Hb1 t (did issuer)). specialize (Hb2 t issuer).
  assert (supply t w = total_supply token) as Hs by (unfold supply; by rewrite Htok).
  pose proof max_supply_fits as Hfit.
  rewrite !wrapping_add_small in Ha, Hp by lia.
  eapply (supply_ok_adjust w w' t issuer token
    (balance_of t (did issuer) w + value)
    (Portfolio.portfolio_asset_balances issuer t w + value) (total_supply token + value));
    try done; rewrite ?Ha, ?Hp; try done; lia.
Qed.

Lemma base_redeem_supply_ok o t value k w w' :
  supply_ok w → base_redeem o t value k w = (Ok tt, w') → supply_ok w'.
Proof.
  intros Hok (pid & token & _ & Htok & _ & Hle & Hfree & _ & Ha & Hp & _)%base_redeem_Ok.
  destruct (supply_bounds w Hok) as [Hb1 Hb2].
  specialize (Hb1 t (did pid)). specialize (Hb2 t pid).
  assert (supply t w = total_supply token) as Hs by (unfold supply; by rewrite Htok).
  pose proof max_supply_fits as Hfit. pose proof (ok_max _ Hok t) as Hmax.
  rewrite wrapping_sub_small in Ha by lia.
  eapply (supply_ok_adjust w w' t pid token (balance_of t (did pid) w - value)
    (Portfolio.portfolio_asset_balances pid t w - value) (total_supply token - value));
    try done; rewrite ?Ha, ?Hp; try done; lia.
Qed.

Lemma supply_ok_ext w w' :
  supply_ok w → (∀ t, supply t w' = supply t w) →
  BalanceOf (asset w') = BalanceOf (asset w) →
  PortfolioAssetBalances (portfolio w') = PortfolioAssetBalances (portfolio w) →
  supply_ok w'.
Proof.
  intros [Hs Hi Hm] HS HB HP. constructor; unfold balance_of in *; rewrite ?HB, ?HP; try done.
  - intros t. rewrite HS. apply Hs.
  - intros t. rewrite HS. apply Hm.
Qed.

(** *** Moving between the portfolios of one identity *)

Lemma supply_ok_move w from to t value :
  supply_ok w → from ≠ to → did from = did to →
  value ≤ Portfolio.portfolio_asset_balances from t w →
  supply_ok (w <| portfolio ::= Portfolio.put_transfer from to t value |>).
Proof.
  intros Hok Hne Hdid Hval. destruct (supply_bounds w Hok) as [Hb1 Hb2].
  destruct Hok as [Hs Hi Hm]. unfold Portfolio.portfolio_asset_balances in *.
  pose proof (Hb2 t from). pose proof (Hb2 t to). pose proof (Hb1 t (did to)).
  pose proof (Hb1 t (did from)). pose proof (Hm t). pose proof max_supply_fits.
  constructor; [exact Hs| |exact Hm].
  intros t' d. unfold balance_of in *. simpl.
  unfold Portfolio.put_transfer, Portfolio.put_balance. simpl.
  set (b := PortfolioAssetBalances (portfolio w)) in *.
  pose proof (portfolios_held_insert b from t (getd 0 b (from, t) - value) t' d) as HA.
  pose proof (portfolios_held_insert (<[(from, t) := getd 0 b (from, t) - value]> b) to t
    (saturating_add u128_max (getd 0 b (to, t)) value) t' d) as HB.
  rewrite (getd_insert_ne 0 b (from, t) (to, t)) in * by congruence.
  rewrite saturating_add_small in * by lia. rewrite (Hi t' d). rewrite Hdid in HA.
  case_decide; lia.
Qed.

Lemma put_funds_supply_ok from to funds w :
  from ≠ to → did from = did to →
  (∀ t, Portfolio.moved funds t ≤ Portfolio.portfolio_asset_balances from t w) →
  supply_ok w →
  supply_ok (w <| portfolio ::= λ s, foldl (Portfolio.put_fund from to) s funds |>).
Proof.
  intros Hne Hdid. revert w. induction funds as [|f funds IH]; intros w Hmoved Hok; simpl.
  { by apply (supply_ok_ext w). }
  simpl in Hmoved.
  assert (supply_ok (w <| portfolio ::= λ s, Portfolio.put_fund from to s f |>) ∧
    ∀ t, Portfolio.moved funds t ≤ Portfolio.portfolio_asset_balances from t
      (w <| portfolio ::= λ s, Portfolio.put_fund from to s f |>)) as [Hok1 Hm1].
  { unfold Portfolio.portfolio_asset_balances in *. simpl.
    destruct (description f) as [t0 amount|nfts] eqn:Hf.
    - assert (∀ s, Portfolio.put_fund from to s f = Portfolio.put_transfer from to t0 amount s)
        as Hp by (intros s; unfold Portfolio.put_fund; by rewrite Hf).
      split.
      + pose proof (Hmoved t0) as H0. rewrite decide_True in H0 by done.
        pose proof (supply_ok_move w from to t0 amount Hok Hne Hdid) as Hmv.
        unfold Portfolio.portfolio_asset_balances in Hmv.
        eapply supply_ok_ext; [apply Hmv; lia|done|done|]. simpl. by rewrite Hp.
      + intros t. rewrite Hp, Portfolio.put_transfer_balance by done.
        specialize (Hmoved t). repeat case_decide; simplify_eq; lia.
    - destruct (Portfolio.put_fund_nonfungible_balances from to (portfolio w) f nfts Hf)
        as [Hb _]. split.
      + by apply (supply_ok_ext w).
      + intros t. rewrite Hb. specialize (Hmoved t). lia. }
  by apply (supply_ok_ext _ _ (IH _ Hm1 Hok1)).
Qed.

(** *** Other calls *)

Lemma supply_insert_same s t token token' w w' :
  Tokens (asset w) !! t = Some token → total_supply token' = total_supply token →
  Tokens (asset w') = <[t := token']> (Tokens (asset w)) → supply s w' = supply s w.
Proof.
  intros Ht Hs HT. unfold supply. rewrite HT, lookup_insert. case_decide; [|done].
  subst. by rewrite Ht.
Qed.

Lemma unverified_register_ticker_frame t d e w w' :
  unverified_register_ticker t d e w = (Ok tt, w') →
  Tokens (asset w') = Tokens (asset w) ∧ BalanceOf (asset w') = BalanceOf (asset w) ∧
  portfolio w' = portfolio w ∧ checkpoint w' = checkpoint w ∧ agents w' = agents w ∧
  nft w' = nft w ∧ settlement w' = settlement w.
Proof.
  unfold unverified_register_ticker, on_asset, deposit_event. intros H. ok_inv.
  destruct (Tickers (asset w) !! t); ok_inv; split_and!; done.
Qed.

(** Creating an asset: the ticker had none, and now has one without supply
    whose creator is a full agent. *)
Lemma unsafe_create_asset_Ok d sk name t div ty ids round w r w' :
  unsafe_create_asset d sk name t div ty ids round w = (Ok r, w') →
  Tokens (asset w) !! t = None ∧
  Tokens (asset w') = <[t := mkSecurityToken 0 d div ty]> (Tokens (asset w)) ∧
  BalanceOf (asset w') = BalanceOf (asset w) ∧
  portfolio w' = portfolio w ∧ checkpoint w' = checkpoint w ∧
  nft w' = nft w ∧ settlement w' = settlement w ∧
  GroupOfAgent (agents w') = <[(t, d) := Full]> (GroupOfAgent (agents w)) ∧
  (GroupOfAgent (agents w) !! (t, d) = None → Agents.update (agents w) (agents w')).
Proof.
  unfold unsafe_create_asset, ensure_create_asset_parameters, ensure_asset_fresh,
    unverified_update_idents, on_asset, deposit_event.
  intros H. ok_inv.
  match goal with H : has_key (Tokens _) _ = false |- _ => apply has_key_false in H as Hfresh end.
  match goal with H : external _ _ = _ |- _ => apply external_Ok in H as (x' & m' & ->) end.
  match goal with H : (if ?b then unverified_register_ticker _ _ _ else _) _ = (_, ?w1) |- _ =>
    assert (Tokens (asset w1) = Tokens (asset w) ∧ BalanceOf (asset w1) = BalanceOf (asset w) ∧
      portfolio w1 = portfolio w ∧ checkpoint w1 = checkpoint w ∧ agents w1 = agents w ∧
      nft w1 = nft w ∧ settlement w1 = settlement w) as (HT & HB & HP & HC & HG & HN & HS)
  end.
  { match goal with H : (if ?b then unverified_register_ticker _ _ _ else _) _ = _ |- _ =>
      destruct b; [|ok_inv; done] end.
    match goal with H : unverified_register_ticker _ _ _ _ = _ |- _ =>
      apply unverified_register_ticker_frame in H end. done. }
  match goal with H : Agents.unchecked_add_agent _ _ _ _ = _ |- _ =>
    pose proof (Agents.unchecked_add_agent_Ok _ _ _ _ _ H) as [(EA & EP & EC & EN & ES & _) EG];
    pose proof (λ Hg, Agents.unchecked_add_agent_update _ _ Full _ _ I Hg H) as Hu end.
  destruct round; ok_inv; simpl in *; rewrite EA, EP, EC, EN, ES, EG; simpl;
    rewrite ?HT, ?HB, ?HP, ?HC, ?HN, ?HS, ?HG in *; split_and!; done.
Qed.

(* ------------------------------------------------------------------ *)
(** ** The calls *)

Inductive call : Type :=
  | RegisterTicker (t : Ticker)
  | AcceptTickerTransfer (auth_id : N)
  | AcceptAssetOwnershipTransfer (auth_id : N)
  | CreateAsset (name : AssetName) (t : Ticker) (div : bool) (ty : AssetType)
      (identifiers : list AssetIdentifier) (funding_round : option FundingRoundName)
  | RegisterCustomAssetType (ty : list N)
  | CreateAssetWithCustomType (name : AssetName) (t : Ticker) (div : bool)
      (custom_type : list N) (identifiers : list AssetIdentifier)
      (funding_round : option FundingRoundName)
  | Issue (t : Ticker) (amount : Balance) (k : PortfolioKind)
  | Redeem (t : Ticker) (value : Balance)
  | RedeemFromPortfolio (t : Ticker) (value : Balance) (k : PortfolioKind)
  | AssetControllerTransfer (t : Ticker) (value : Balance) (from : PortfolioId)
  | SetFreeze (t : Ticker) (freeze : bool)
  | RenameAsset (t : Ticker) (name : AssetName)
  | MakeDivisible (t : Ticker)
  | SetFundingRound (t : Ticker) (name : FundingRoundName)
  | UpdateIdentifiers (t : Ticker) (idents : list AssetIdentifier)
  | UpdateAssetType (t : Ticker) (ty : AssetType)
  | ExemptTickerAffirmation (t : Ticker)
  | RemoveTickerAffirmationExemption (t : Ticker)
  | PreApproveTicker (t : Ticker)
  | RemoveTickerPreApproval (t : Ticker)
  | AddMandatoryMediators (t : Ticker) (new : gset IdentityId)
  | RemoveMandatoryMediators (t : Ticker) (old : gset IdentityId).

Definition dispatch (o : Origin) (c : call) : M unit :=
  match c with
  | RegisterTicker t => register_ticker o t
  | AcceptTickerTransfer id => accept_ticker_transfer o id
  | AcceptAssetOwnershipTransfer id => accept_asset_ownership_transfer o id
  | CreateAsset name t div ty idents round => create_asset o name t div ty idents round
  | RegisterCustomAssetType ty => register_custom_asset_type o ty
  | CreateAssetWithCustomType name t div ty idents round =>
      create_asset_with_custom_type o name t div ty idents round
  | Issue t amount k => issue o t amount k
  | Redeem t value => redeem o t value
  | RedeemFromPortfolio t value k => redeem_from_portfolio o t value k
  | AssetControllerTransfer t value from => controller_transfer o t value from
  | SetFreeze t freeze => set_freeze o t freeze
  | RenameAsset t name => rename_asset o t name
  | MakeDivisible t => make_divisible o t
  | SetFundingRound t name => set_funding_round o t name
  | UpdateIdentifiers t idents => update_identifiers o t idents
  | UpdateAssetType t ty => update_asset_type o t ty
  | ExemptTickerAffirmation t => exempt_ticker_affirmation o t
  | RemoveTickerAffirmationExemption t => remove_ticker_affirmation_exemption o t
  | PreApproveTicker t => pre_approve_ticker o t
  | RemoveTickerPreApproval t => remove_ticker_pre_approval o t
  | AddMandatoryMediators t new => add_mandatory_mediators o t new
  | RemoveMandatoryMediators t old => remove_mandatory_mediators o t old
  end.

(** The calls that change a balance. *)
Definition moves_balance (c : call) : bool :=
  match c with
  | Issue _ _ _ | Redeem _ _ | RedeemFromPortfolio _ _ _ | AssetControllerTransfer _ _ _ => true
  | _ => false
  end.

(** What the other calls leave alone: the supplies, the balances and all but
    the asset store; only creating an asset makes an agent, the first of a
    ticker that had no asset. *)
Record administrative (w w' : World) : Prop := {
  adm_supply : ∀ t, supply t w' = supply t w;
  adm_tokens : ∀ t, is_Some (Tokens (asset w) !! t) → is_Some (Tokens (asset w') !! t);
  adm_balances : BalanceOf (asset w') = BalanceOf (asset w);
  adm_portfolio : portfolio w' = portfolio w;
  adm_checkpoint : checkpoint w' = checkpoint w;
  adm_nft : nft w' = nft w;
  adm_settlement : settlement w' = settlement w;
  adm_agents : agents w' = agents w ∨ ∃ t d,
    Tokens (asset w) !! t = None ∧ is_Some (Tokens (asset w') !! t) ∧
    GroupOfAgent (agents w') = <[(t, d) := Full]> (GroupOfAgent (agents w)) ∧
    (GroupOfAgent (agents w) !! (t, d) = None → Agents.update (agents w) (agents w'));
}.

Lemma administrative_frame w w' :
  Tokens (asset w') = Tokens (asset w) → BalanceOf (asset w') = BalanceOf (asset w) →
  portfolio w' = portfolio w → checkpoint w' = checkpoint w → nft w' = nft w →
  settlement w' = settlement w → agents w' = agents w → administrative w w'.
Proof.
  intros HT HB HP HC HN HS HG.
  constructor; unfold supply; rewrite ?HT; try done. by left.
Qed.

Lemma administrative_token w w' t token token' :
  Tokens (asset w) !! t = Some token →
  Tokens (asset w') = <[t := token']> (Tokens (asset w)) →
  total_supply token' = total_supply token →
  BalanceOf (asset w') = BalanceOf (asset w) →
  portfolio w' = portfolio w → checkpoint w' = checkpoint w → nft w' = nft w →
  settlement w' = settlement w → agents w' = agents w → administrative w w'.
Proof.
  intros Ht HT Hs HB HP HC HN HS HG. constructor; try done; [| |by left].
  - intros t'. by eapply supply_insert_same.
  - intros t' Hsome. rewrite HT, lookup_insert. by case_decide.
Qed.

Lemma unsafe_create_asset_administrative d sk name t div ty ids round w r w' :
  unsafe_create_asset d sk name t div ty ids round w = (Ok r, w') → administrative w w'.
Proof.
  intros (Hn & HT & HB & HP & HC & HN & HS & HG & Hu)%unsafe_create_asset_Ok.
  constructor; try done.
  - intros t'. unfold supply. rewrite HT, lookup_insert. case_decide; [|done].
    subst t'. by rewrite Hn.
  - intros t' Hsome. rewrite HT, lookup_insert. by case_decide.
  - right. exists t, d. split_and!; try done. by rewrite HT, lookup_insert_eq.
Qed.

Lemma unsafe_register_custom_asset_type_frame d ty w id w' :
  unsafe_register_custom_asset_type d ty w = (Ok id, w') →
  ∃ f e, w' = w <| asset ::= f |> <| events ::= e |> ∧
    Tokens (f (asset w)) = Tokens (asset w) ∧ BalanceOf (f (asset w)) = BalanceOf (asset w).
Proof.
  unfold unsafe_register_custom_asset_type, on_asset, deposit_event. intros H. ok_inv.
  destruct (CustomTypesInverse (asset w) !! ty); ok_inv; destruct_product; ok_inv.
  - exists id, (λ l, l ++ [CustomAssetTypeExists d n ty]). split_and!; done.
  - eexists (λ s, s <| CustomTypeIdSequence := _ |> <| CustomTypesInverse ::= _ |>
                    <| CustomTypes ::= _ |>), _. split_and!; done.
Qed.

Lemma accept_asset_ownership_administrative o id w w' :
  accept_asset_ownership_transfer o id w = (Ok tt, w') → administrative w w'.
Proof.
  unfold accept_asset_ownership_transfer, token_details, on_asset, deposit_event.
  intros H. ok_inv.
  apply Identity.accept_auth_with_Ok in H as (auth & w1 & _ & _ & H & ->).
  destruct (authorization_data auth); ok_inv. eapply administrative_token; [done|reflexivity|done..].
Qed.

Lemma accept_ticker_transfer_administrative o id w w' :
  accept_ticker_transfer o id w = (Ok tt, w') → administrative w w'.
Proof.
  unfold accept_ticker_transfer, transfer_ticker, on_asset, deposit_event. intros H. ok_inv.
  apply Identity.accept_auth_with_Ok in H as (auth & w1 & _ & _ & H & ->).
  destruct (authorization_data auth); ok_inv. by apply administrative_frame.
Qed.

Lemma create_with_custom_type_administrative o name t div ty ids round w w' :
  create_asset_with_custom_type o name t div ty ids round w = (Ok tt, w') →
  administrative w w'.
Proof.
  unfold create_asset_with_custom_type. intros H. ok_inv.
  match goal with H : unsafe_register_custom_asset_type _ _ _ = _ |- _ =>
    apply unsafe_register_custom_asset_type_frame in H as (f & e & -> & HT & HB) end.
  match goal with H : unsafe_create_asset _ _ _ _ _ _ _ _ _ = _ |- _ =>
    apply unsafe_create_asset_administrative in H as [H1 H2 H3 H4 H5 H6 H7 H8] end.
  unfold supply in *. simpl in *. rewrite HT, HB in *.
  constructor; unfold supply; try done.
Qed.

Lemma dispatch_administrative o c w w' :
  moves_balance c = false → dispatch o c w = (Ok tt, w') → administrative w w'.
Proof.
  destruct c; try done; intros _ H; simpl in H.
  - unfold register_ticker in H. ok_inv.
    match goal with H : external _ _ = _ |- _ => apply external_Ok in H as (x' & m' & ->) end.
    apply unverified_register_ticker_frame in H as (HT & HB & HP & HC & HG & HN & HS).
    by apply administrative_frame.
  - by eapply accept_ticker_transfer_administrative.
  - by eapply accept_asset_ownership_administrative.
  - unfold create_asset in H. ok_inv. by eapply unsafe_create_asset_administrative.
  - unfold register_custom_asset_type in H. ok_inv.
    match goal with H : unsafe_register_custom_asset_type _ _ _ = _ |- _ =>
      apply unsafe_register_custom_asset_type_frame in H as (f & e & -> & HT & HB) end.
    by apply administrative_frame.
  - by eapply create_with_custom_type_administrative.
  - unfold set_freeze, on_asset, deposit_event in H. ok_inv.
    destruct freeze; ok_inv; by apply administrative_frame.
  - unfold rename_asset, on_asset, deposit_event in H. ok_inv. by apply administrative_frame.
  - unfold make_divisible, token_details, on_asset, deposit_event in H. ok_inv.
    eapply administrative_token; [done|reflexivity|done..].
  - unfold set_funding_round, on_asset, deposit_event in H. ok_inv.
    by apply administrative_frame.
  - unfold update_identifiers, unverified_update_idents, on_asset, deposit_event in H. ok_inv.
    by apply administrative_frame.
  - unfold update_asset_type, token_details, on_asset, deposit_event in H. ok_inv.
    eapply administrative_token; [done|reflexivity|done..].
  - unfold exempt_ticker_affirmation, on_asset, deposit_event in H. ok_inv.
    by apply administrative_frame.
  - unfold remove_ticker_affirmation_exemption, on_asset, deposit_event in H. ok_inv.
    by apply administrative_frame.
  - unfold pre_approve_ticker, on_asset, deposit_event in H. ok_inv.
    by apply administrative_frame.
  - unfold remove_ticker_pre_approval, on_asset, deposit_event in H. ok_inv.
    by apply administrative_frame.
  - unfold add_mandatory_mediators, on_asset, deposit_event in H. ok_inv.
    by apply administrative_frame.
  - unfold remove_mandatory_mediators, on_asset, deposit_event in H. ok_inv.
    by apply administrative_frame.
Qed.
End asset.
End Asset.
