(* ===== verification/Nft.v ===== *)
(** Non-fungible tokens (src/pallets/nft/src/lib.rs): collections, issuing,
    redeeming, transfers and controller transfers. *)

From stdpp Require Import base numbers list gmap sets strings.
From S2P Require Import Prelude Subset AssetIdentifier Types SettlementTypes Schedules State.
From S2P Require Import Identity Agents Portfolio Checkpoint Asset.

Local Open Scope N_scope.

Record NFTMetadataAttribute : Type := mkNFTMetadataAttribute {
  attr_key : AssetMetadataKey;
  attr_value : list N;
}.

Module Nft.
(* ------------------------------------------------------------------ *)
(** ** Reads and checks *)

Definition balance_of (t : Ticker) (d : IdentityId) (w : World) : N :=
  getd 0 (NumberOfNFTs (nft w)) (t, d).
Definition nfts_in_collection (t : Ticker) (w : World) : N :=
  getd 0 (NFTsInCollection (nft w)) t.

Definition is_collection_key (t : Ticker) (k : AssetMetadataKey) (w : World) : bool :=
  match CollectionTicker (nft w) !! t with
  | Some id => bool_decide (k ∈ getd ∅ (CollectionKeys (nft w)) id)
  | None => false
  end.

Definition base_move_portfolio_owner (t : Ticker) (i : NFTId) (p : PortfolioId) (w : World)
    : World :=
  w <| nft ::= λ s, s <| NFTOwner ::= <[(t, i) := p]> |> |>.

Lemma base_move_portfolio_owner_frame t i p w :
  ∃ f, base_move_portfolio_owner t i p w = w <| nft ::= f |>.
Proof. by eexists. Qed.

(** The NFT pallet is the portfolio pallet's [T::NFT]. *)
#[global] Instance nft_fns : NFTTrait := {
  move_portfolio_owner := base_move_portfolio_owner;
  move_portfolio_owner_frame := base_move_portfolio_owner_frame;
}.

Section nft.
Context {RT : Runtime} {EX : Externals}.

Definition ensure_within_nfts_transfer_limits (nfts : NFTs) : result DispatchError unit :=
  ensure (bool_decide (0 < nfts_len nfts)) (ENft ZeroCount) ;;
  ensure (bool_decide (nfts_len nfts ≤ MaxNumberOfNFTsCount))
    (ENft MaxNumberOfNFTsPerLegExceeded).

Definition ensure_no_duplicate_nfts (nfts : NFTs) : result DispatchError unit :=
  ensure (bool_decide (size (list_to_set (nfts_ids nfts) : gset NFTId)
                       = length (nfts_ids nfts)))
    (ENft DuplicatedNFTId).

Definition validate_nft_ownership (from to : PortfolioId) (nfts : NFTs) : Chk unit := λ w,
  let t := nfts_ticker nfts in
  ok_or (CollectionTicker (nft w) !! t) (ENft InvalidNFTTransferCollectionNotFound) ;;
  ensure (bool_decide (from ≠ to)) (ENft InvalidNFTTransferSamePortfolio) ;;
  ensure (bool_decide (nfts_len nfts ≤ balance_of t (did from) w))
    (ENft InvalidNFTTransferInsufficientCount) ;;
  ensure_within_nfts_transfer_limits nfts ;;
  ensure_no_duplicate_nfts nfts ;;
  for_check (nfts_ids nfts) (λ i,
    ensure (Portfolio.has_nft from t i w) (ENft InvalidNFTTransferNFTNotOwned) ;;
    ensure (negb (Portfolio.nft_locked from t i w)) (ENft InvalidNFTTransferNFTIsLocked)) ;;
  ok_or (checked_add u64_max (balance_of t (did to) w) (nfts_len nfts))
    (ENft InvalidNFTTransferCountOverflow) ;;
  Ok tt.

Definition validate_nft_transfer (from to : PortfolioId) (nfts : NFTs) : M unit :=
  check (λ w, ensure (negb (Asset.frozen (nfts_ticker nfts) w))
                (ENft InvalidNFTTransferFrozenAsset)) ;;
  check (validate_nft_ownership from to nfts) ;;
  compliant ← external (is_compliant (nfts_ticker nfts) (did from) (did to)) ;
  check (λ _, ensure compliant (ENft InvalidNFTTransferComplianceFailure)).

(* ------------------------------------------------------------------ *)
(** ** Transfers *)

(** One NFT of [unverified_nfts_transfer]. *)
Definition transfer_nft (from to : PortfolioId) (t : Ticker) (i : NFTId) : M unit :=
  on_portfolio (λ s, s <| PortfolioNFT ::= delete (from, (t, i)) |>
                       <| PortfolioNFT ::= <[(to, (t, i)) := true]> |>) ;;
  on_nft (λ s, s <| NFTOwner ::= <[(t, i) := to]> |>).

(** The plain [-=] and [+=] wrap. *)
Definition unverified_nfts_transfer (from to : PortfolioId) (nfts : NFTs) : M unit :=
  let t := nfts_ticker nfts in
  let transferred_amount := nfts_len nfts in
  on_nft (λ s, s <| NumberOfNFTs ::= λ m,
    <[(t, did from) := wrapping_sub u64_max (getd 0 m (t, did from)) transferred_amount]> m |>) ;;
  on_nft (λ s, s <| NumberOfNFTs ::= λ m,
    <[(t, did to) := wrapping_add u64_max (getd 0 m (t, did to)) transferred_amount]> m |>) ;;
  for_each (nfts_ids nfts) (transfer_nft from to t).

Definition base_nft_transfer (from to : PortfolioId) (nfts : NFTs)
    (instruction_id : InstructionId) (instruction_memo : option Memo) (caller : IdentityId)
    : M unit :=
  validate_nft_transfer from to nfts ;;
  unverified_nfts_transfer from to nfts ;;
  deposit_event (NFTPortfolioUpdated caller nfts (Some from) (Some to)
                   (Transferred (Some instruction_id) instruction_memo)).

(** [base_controller_transfer]. *)
Definition controller_transfer (o : Origin) (t : Ticker) (nfts : NFTs) (source : PortfolioId)
    (k : PortfolioKind) : M unit :=
  caller ← check (Asset.ensure_origin_ticker_and_portfolio_permissions o t k true) ;
  check (validate_nft_ownership source caller nfts) ;;
  unverified_nfts_transfer source caller nfts ;;
  deposit_event (NFTPortfolioUpdated (did caller) nfts (Some source) (Some caller)
                   ControllerTransferReason).

(* ------------------------------------------------------------------ *)
(** ** Collections, issuing, redeeming *)

(** [base_create_nft_collection]. *)
Definition create_nft_collection (o : Origin) (t : Ticker) (nft_type : option NonFungibleType)
    (keys : list AssetMetadataKey) : M unit :=
  '(create, caller) ← check (λ w,
    match Asset.nft_asset t w with
    | Some is_nft_asset =>
        ensure is_nft_asset (ENft InvalidAssetType) ;;
        data ← Agents.ensure_agent_asset_perms o t w ;
        Ok (false, primary_did data)
    | None => d ← Identity.ensure_perms o w ; Ok (true, d)
    end) ;
  check (λ w, ensure (negb (has_key (CollectionTicker (nft w)) t))
                (ENft CollectionAlredyRegistered)) ;;
  check (λ _, ensure (bool_decide (Base.len keys ≤ MaxNumberOfCollectionKeys))
                (ENft MaxNumberOfKeysExceeded)) ;;
  let key_set : gset AssetMetadataKey := list_to_set keys in
  check (λ _, ensure (bool_decide (length keys = size key_set)) (ENft DuplicateMetadataKey)) ;;
  check (λ w, for_check (elements key_set) (λ k,
    ensure (Asset.check_asset_metadata_key_exists t k w) (ENft UnregisteredMetadataKey))) ;;
  (if create : bool then
     ty ← check (λ _, ok_or nft_type (ENft InvalidAssetType)) ;
     Asset.create_asset o t t false (NonFungible ty) [] None
   else mret tt) ;;
  '(id, seq) ← check (λ w, Base.try_next_pre u64_max (NextCollectionId (nft w))) ;
  on_nft (λ s, s <| NextCollectionId := seq |>
                 <| Collection ::= <[id := mkNFTCollection id t]> |>
                 <| CollectionKeys ::= <[id := key_set]> |>
                 <| CollectionTicker ::= <[t := id]> |>) ;;
  deposit_event (NftCollectionCreated caller t id).

(** The attributes as a map; a later entry of a key replaces an earlier one. *)
Definition attributes_map (l : list NFTMetadataAttribute) : gmap AssetMetadataKey (list N) :=
  foldl (λ m a, <[attr_key a := attr_value a]> m) ∅ l.

(** [base_issue_nft]. *)
Definition issue_nft (o : Origin) (t : Ticker) (attributes : list NFTMetadataAttribute)
    (k : PortfolioKind) : M unit :=
  c ← check (λ w, ok_or (CollectionTicker (nft w) !! t) (ENft CollectionNotFound)) ;
  pid ← check (Asset.ensure_origin_ticker_and_portfolio_permissions o t k false) ;
  check (Portfolio.ensure_portfolio_validity pid) ;;
  mandatory ← gets (λ w, getd ∅ (CollectionKeys (nft w)) c) ;
  check (λ _, ensure (bool_decide (size mandatory = length attributes))
                (ENft InvalidMetadataAttribute)) ;;
  let nft_attributes := attributes_map attributes in
  check (λ _, ensure (bool_decide (length attributes = size nft_attributes))
                (ENft DuplicateMetadataKey)) ;;
  check (λ _, for_check (map_to_list nft_attributes).*1 (λ key,
    ensure (bool_decide (key ∈ mandatory)) (ENft InvalidMetadataAttribute))) ;;
  new_supply ← check (λ w, ok_or (checked_add u64_max (nfts_in_collection t w) 1)
                             (ENft SupplyOverflow)) ;
  new_balance ← check (λ w, ok_or (checked_add u64_max (balance_of t (did pid) w) 1)
                              (ENft NftBalanceOverflow)) ;
  '(i, seq) ← check (λ w, Base.try_next_pre u64_max (getd 0 (NextNFTId (nft w)) c)) ;
  on_nft (λ s,
    s <| NextNFTId ::= <[c := seq]> |>
      <| NFTsInCollection ::= <[t := new_supply]> |>
      <| NumberOfNFTs ::= <[(t, did pid) := new_balance]> |>
      <| MetadataValue ::= λ m, map_fold (λ key v m, <[((c, i), key) := v]> m) m nft_attributes |>) ;;
  on_portfolio (λ s, s <| PortfolioNFT ::= <[(pid, (t, i)) := true]> |>) ;;
  on_nft (λ s, s <| NFTOwner ::= <[(t, i) := pid]> |>) ;;
  deposit_event (NFTPortfolioUpdated (did pid) (mkNFTs t [i]) None (Some pid) (Issued None)).

(** [base_redeem_nft]. *)
Definition redeem_nft (o : Origin) (t : Ticker) (i : NFTId) (k : PortfolioKind) : M unit :=
  c ← check (λ w, ok_or (CollectionTicker (nft w) !! t) (ENft CollectionNotFound)) ;
  pid ← check (Asset.ensure_origin_ticker_and_portfolio_permissions o t k true) ;
  check (λ w, ensure (Portfolio.has_nft pid t i w) (ENft NFTNotFound)) ;;
  new_supply ← check (λ w, ok_or (checked_sub (nfts_in_collection t w) 1)
                             (ENft SupplyUnderflow)) ;
  new_balance ← check (λ w, ok_or (checked_sub (balance_of t (did pid) w) 1)
                              (ENft NftBalanceUnderflow)) ;
  on_nft (λ s, s <| NFTsInCollection ::= <[t := new_supply]> |>
                 <| NumberOfNFTs ::= <[(t, did pid) := new_balance]> |>) ;;
  on_portfolio (λ s, s <| PortfolioNFT ::= delete (pid, (t, i)) |>) ;;
  on_nft (λ s, s <| MetadataValue ::= remove_prefix (c, i) |>
                 <| NFTOwner ::= delete (t, i) |>) ;;
  deposit_event (NFTPortfolioUpdated (did pid) (mkNFTs t [i]) (Some pid) None Redeemed).

(** The calls of the pallet. *)
Inductive call : Type :=
  | CreateNftCollection (t : Ticker) (ty : option NonFungibleType)
      (keys : list AssetMetadataKey)
  | IssueNft (t : Ticker) (attributes : list NFTMetadataAttribute) (k : PortfolioKind)
  | RedeemNft (t : Ticker) (i : NFTId) (k : PortfolioKind)
  | NftControllerTransfer (t : Ticker) (nfts : NFTs) (source : PortfolioId)
      (k : PortfolioKind).

Definition dispatch (o : Origin) (c : call) : M unit :=
  match c with
  | CreateNftCollection t ty keys => create_nft_collection o t ty keys
  | IssueNft t attributes k => issue_nft o t attributes k
  | RedeemNft t i k => redeem_nft o t i k
  | NftControllerTransfer t nfts source k => controller_transfer o t nfts source k
  end.

(* ------------------------------------------------------------------ *)
(** ** Invariant *)

(** The NFTs of a ticker in the portfolios of an identity, and in all. *)
Definition nfts_of (m : gmap (Ticker * NFTId) PortfolioId) (t : Ticker) (d : IdentityId) : N :=
  msum (λ k p, if decide (k.1 = t ∧ did p = d) then 1 else 0) m.
Definition nfts_total (m : gmap (Ticker * NFTId) PortfolioId) (t : Ticker) : N :=
  msum (λ k _, if decide (k.1 = t) then 1 else 0) m.

(** [NFTOwner] names the one portfolio an NFT is in. *)
Definition owners_ok (ps : gmap (PortfolioId * (Ticker * NFTId)) bool)
    (ow : gmap (Ticker * NFTId) PortfolioId) : Prop :=
  ∀ t i p, ow !! (t, i) = Some p ↔ is_Some (ps !! (p, (t, i))).

Record nft_ok (w : World) : Prop := {
  ok_owner : owners_ok (PortfolioNFT (portfolio w)) (NFTOwner (nft w));
  ok_number : ∀ t d, balance_of t d w = nfts_of (NFTOwner (nft w)) t d;
  ok_collection : ∀ t, nfts_in_collection t w = nfts_total (NFTOwner (nft w)) t;
  ok_ids : ∀ t i, is_Some (NFTOwner (nft w) !! (t, i)) →
    ∃ c, CollectionTicker (nft w) !! t = Some c ∧ i ≤ getd 0 (NextNFTId (nft w)) c;
  ok_nft_width : ∀ t d, balance_of t d w ≤ u64_max;
}.

Definition one_if (P : Prop) `{Decision P} : N := if decide P then 1 else 0.

(** The default of the owner map in the counting lemmas; it is never counted
    because the lemmas say who the owner was. *)
Lemma nfts_of_insert m t i p t' d :
  nfts_of (<[(t, i) := p]> m) t' d +
    match m !! (t, i) with Some q => one_if (t = t' ∧ did q = d) | None => 0 end =
  nfts_of m t' d + one_if (t = t' ∧ did p = d).
Proof.
  unfold nfts_of, one_if. destruct (m !! (t, i)) as [q|] eqn:Hq.
  - rewrite <- insert_delete_eq, msum_insert_fresh by apply lookup_delete_eq.
    rewrite (msum_lookup _ m (t, i) q) by done. simpl. lia.
  - rewrite msum_insert_fresh by done. simpl. lia.
Qed.

Lemma nfts_of_delete m t i q t' d :
  m !! (t, i) = Some q →
  nfts_of (delete (t, i) m) t' d + one_if (t = t' ∧ did q = d) = nfts_of m t' d.
Proof.
  intros Hq. unfold nfts_of, one_if. rewrite (msum_lookup _ m (t, i) q) by done. simpl. lia.
Qed.

Lemma nfts_total_insert m t i p t' :
  nfts_total (<[(t, i) := p]> m) t' +
    match m !! (t, i) with Some _ => one_if (t = t') | None => 0 end =
  nfts_total m t' + one_if (t = t').
Proof.
  unfold nfts_total, one_if. destruct (m !! (t, i)) as [q|] eqn:Hq.
  - rewrite <- insert_delete_eq, msum_insert_fresh by apply lookup_delete_eq.
    rewrite (msum_lookup _ m (t, i) q) by done. simpl. lia.
  - rewrite msum_insert_fresh by done. simpl. lia.
Qed.

Lemma nfts_total_delete m t i q t' :
  m !! (t, i) = Some q → nfts_total (delete (t, i) m) t' + one_if (t = t') = nfts_total m t'.
Proof.
  intros Hq. unfold nfts_total, one_if. rewrite (msum_lookup _ m (t, i) q) by done. simpl. lia.
Qed.

Lemma owners_ok_move ps ow from to t i :
  owners_ok ps ow → ow !! (t, i) = Some from ∨ ow !! (t, i) = Some to →
  owners_ok (<[(to, (t, i)) := true]> (delete (from, (t, i)) ps)) (<[(t, i) := to]> ow).
Proof.
  intros Hok Hold t' i' p. specialize (Hok t' i' p).
  rewrite !lookup_insert, lookup_delete.
  repeat case_decide; simplify_eq; try done.
  - split; [intros [= <-]|]; naive_solver.
  - split; [naive_solver|]. intros Hs%Hok. naive_solver.
Qed.

(** *** A run of moves *)

Definition set_owner (to : PortfolioId) (t : Ticker) (m : gmap (Ticker * NFTId) PortfolioId)
    (i : NFTId) : gmap (Ticker * NFTId) PortfolioId := <[(t, i) := to]> m.

Lemma moves_owners_ok from to t ids s ow :
  owners_ok (PortfolioNFT s) ow →
  (∀ i, i ∈ ids → ow !! (t, i) = Some from ∨ ow !! (t, i) = Some to) →
  owners_ok (PortfolioNFT (foldl (Portfolio.put_nft from to t) s ids))
    (foldl (set_owner to t) ow ids).
Proof.
  revert s ow. induction ids as [|i ids IH]; intros s ow Hok Hin; simpl; [done|].
  apply IH.
  - simpl. apply owners_ok_move; [done|]. apply Hin. by left.
  - intros j Hj. unfold set_owner. rewrite lookup_insert. case_decide; [by right|].
    apply Hin. by right.
Qed.

Lemma moves_lookup to t ids ow t' i :
  foldl (set_owner to t) ow ids !! (t', i) =
    if decide (t' = t ∧ i ∈ ids) then Some to else ow !! (t', i).
Proof.
  revert ow. induction ids as [|j ids IH]; intros ow; simpl.
  { rewrite decide_False; [done|]. intros [_ ?%elem_of_nil]. done. }
  rewrite IH. unfold set_owner. rewrite lookup_insert.
  destruct (decide (t' = t ∧ i ∈ ids)) as [[-> Hi]|Hn].
  { rewrite decide_True; [done|]. split; [done|by right]. }
  case_decide as He; simplify_eq.
  - rewrite decide_True; [done|]. split; [done|by left].
  - rewrite decide_False; [done|]. rewrite elem_of_cons. naive_solver.
Qed.

Lemma moves_total to t ids ow t' :
  (∀ i, i ∈ ids → is_Some (ow !! (t, i))) →
  nfts_total (foldl (set_owner to t) ow ids) t' = nfts_total ow t'.
Proof.
  revert ow. induction ids as [|i ids IH]; intros ow Hin; simpl; [done|].
  rewrite IH.
  - unfold set_owner. pose proof (nfts_total_insert ow t i to t') as Hi.
    destruct (Hin i) as [q Hq]; [by left|]. rewrite Hq in Hi. lia.
  - intros j Hj. unfold set_owner. rewrite lookup_insert. case_decide; [done|].
    apply Hin. by right.
Qed.

(** Within one identity a move changes no count. *)
Lemma moves_same_identity from to t ids ow t' d :
  did from = did to →
  (∀ i, i ∈ ids → ow !! (t, i) = Some from ∨ ow !! (t, i) = Some to) →
  nfts_of (foldl (set_owner to t) ow ids) t' d = nfts_of ow t' d.
Proof.
  intros Hdid. revert ow. induction ids as [|i ids IH]; intros ow Hin; simpl; [done|].
  rewrite IH.
  - unfold set_owner. pose proof (nfts_of_insert ow t i to t' d) as Hi.
    destruct (Hin i) as [Hq|Hq]; [by left|..]; rewrite Hq in Hi; rewrite ?Hdid in Hi; lia.
  - intros j Hj. unfold set_owner. rewrite lookup_insert. case_decide; [by right|].
    apply Hin. by right.
Qed.

(** Between identities, one per id. *)
Lemma moves_count from to t ids ow t' d :
  NoDup ids → (∀ i, i ∈ ids → ow !! (t, i) = Some from) →
  nfts_of (foldl (set_owner to t) ow ids) t' d +
    N.of_nat (length ids) * one_if (t = t' ∧ did from = d) =
  nfts_of ow t' d + N.of_nat (length ids) * one_if (t = t' ∧ did to = d).
Proof.
  revert ow. induction ids as [|i ids IH]; intros ow Hnd Hin; simpl length; [simpl; lia|].
  apply NoDup_cons in Hnd as [Hni Hnd]. simpl foldl.
  specialize (IH (set_owner to t ow i) Hnd).
  assert (∀ j, j ∈ ids → set_owner to t ow i !! (t, j) = Some from) as Hj.
  { intros j Hj. unfold set_owner. rewrite lookup_insert_ne; [apply Hin; by right|].
    intros [= ->]. done. }
  specialize (IH Hj). pose proof (nfts_of_insert ow t i to t' d) as Hi.
  rewrite (Hin i) in Hi by by left. unfold set_owner in *.
  rewrite !Nat2N.inj_succ. lia.
Qed.

(** The stores an NFT operation has no business with. *)
Definition untouched_by_nft (w w' : World) : Prop :=
  block_number w' = block_number w ∧ now w' = now w ∧ agenda w' = agenda w ∧
  identity w' = identity w ∧ agents w' = agents w ∧ asset w' = asset w ∧
  checkpoint w' = checkpoint w ∧ settlement w' = settlement w.

Lemma transfer_nfts_eq from to t ids w :
  ∃ w', for_each ids (transfer_nft from to t) w = (Ok tt, w') ∧
    portfolio w' = foldl (Portfolio.put_nft from to t) (portfolio w) ids ∧
    nft w' = (nft w) <| NFTOwner ::= λ m, foldl (set_owner to t) m ids |> ∧
    untouched_by_nft w w'.
Proof.
  revert w. induction ids as [|i ids IH]; intros w; simpl.
  { exists w. split_and!; try done. by destruct w as [? ? ? ? ? ? ? ? ? ? [] ?]. }
  destruct (IH (w <| portfolio ::= λ s, s <| PortfolioNFT ::= delete (from, (t, i)) |>
             <| PortfolioNFT ::= <[(to, (t, i)) := true]> |> |>
             <| nft ::= λ s, s <| NFTOwner ::= <[(t, i) := to]> |> |>))
    as (w' & Hr & Hp & Hn & Hu).
  exists w'. split; [exact Hr|]. rewrite Hp, Hn. split_and!; try done; apply Hu.
Qed.

(** What moving NFTs between portfolios does. *)
Lemma unverified_nfts_transfer_Ok from to nfts w w' :
  unverified_nfts_transfer from to nfts w = (Ok tt, w') →
  let t := nfts_ticker nfts in
  portfolio w' = foldl (Portfolio.put_nft from to t) (portfolio w) (nfts_ids nfts) ∧
  nft w' = (nft w)
    <| NumberOfNFTs ::= λ m,
         <[(t, did from) := wrapping_sub u64_max (getd 0 m (t, did from)) (nfts_len nfts)]> m |>
    <| NumberOfNFTs ::= λ m,
         <[(t, did to) := wrapping_add u64_max (getd 0 m (t, did to)) (nfts_len nfts)]> m |>
    <| NFTOwner ::= λ m, foldl (set_owner to t) m (nfts_ids nfts) |> ∧
  untouched_by_nft w w'.
Proof.
  unfold unverified_nfts_transfer, on_nft. intros H. ok_inv.
  match type of H with for_each _ _ ?w0 = _ =>
    destruct (transfer_nfts_eq from to (nfts_ticker nfts) (nfts_ids nfts) w0)
      as (w2 & Hr & Hp & Hn & Hu) end.
  rewrite H in Hr. injection Hr as <-. rewrite Hp, Hn. done.
Qed.

(** What the checks of a transfer establish. *)
Lemma validate_nft_ownership_Ok from to nfts w :
  validate_nft_ownership from to nfts w = Ok tt →
  let t := nfts_ticker nfts in
  from ≠ to ∧ NoDup (nfts_ids nfts) ∧ nfts_ids nfts ≠ [] ∧
  nfts_len nfts ≤ balance_of t (did from) w ∧
  balance_of t (did to) w + nfts_len nfts ≤ u64_max ∧
  (∀ i, i ∈ nfts_ids nfts → Portfolio.has_nft from t i w = true ∧
     Portfolio.nft_locked from t i w = false).
Proof.
  unfold validate_nft_ownership, ensure_within_nfts_transfer_limits, ensure_no_duplicate_nfts.
  intros H. ok_inv.
  match goal with H : checked_add _ _ _ = Some _ |- _ =>
    apply checked_add_Some in H as [-> ?] end.
  match goal with H : for_check _ _ = _ |- _ =>
    pose proof (proj1 (for_check_Ok _ _ _) H) as Hall end.
  split_and!; try done.
  - by apply size_list_to_set_NoDup.
  - unfold nfts_len in *. intros He. rewrite He in *. simpl in *. lia.
  - intros i Hi. specialize (Hall i Hi). simpl in Hall. ok_inv. done.
Qed.

(** A decrement and an increment of a table of counts, possibly of one entry. *)
Lemma counts_move (m : gmap (Ticker * IdentityId) N) t a b n t' d :
  n ≤ getd 0 m (t, a) →
  getd 0 (<[(t, b) := getd 0 (<[(t, a) := getd 0 m (t, a) - n]> m) (t, b) + n]>
            (<[(t, a) := getd 0 m (t, a) - n]> m)) (t', d) + n * one_if (t = t' ∧ a = d) =
  getd 0 m (t', d) + n * one_if (t = t' ∧ b = d).
Proof.
  intros Hle. rewrite !getd_insert. unfold one_if.
  destruct (decide (t = t')) as [<-|Ht].
  2:{ rewrite !decide_False by naive_solver. lia. }
  destruct (decide (a = d)) as [-> |Ha]; destruct (decide (b = d)) as [-> |Hb];
    repeat case_decide; simplify_eq; destruct_and?; try lia; tauto.
Qed.

Lemma nft_ok_transfer from to nfts w w' :
  nft_ok w → validate_nft_ownership from to nfts w = Ok tt →
  unverified_nfts_transfer from to nfts w = (Ok tt, w') → nft_ok w'.
Proof.
  intros [Hown Hnum Hcol Hids Hwid] Hv (Hp & Hn & _)%unverified_nfts_transfer_Ok.
  apply validate_nft_ownership_Ok in Hv as (_ & Hnd & _ & Hfrom & Hto & Hall).
  set (t := nfts_ticker nfts) in *. set (ids := nfts_ids nfts) in *.
  assert (∀ i, i ∈ ids → NFTOwner (nft w) !! (t, i) = Some from) as Hlk.
  { intros i Hi. apply Hown. apply has_key_true. by apply Hall. }
  assert (∀ t' d, getd 0 (NumberOfNFTs (nft w')) (t', d) +
      nfts_len nfts * one_if (t = t' ∧ did from = d) =
      balance_of t' d w + nfts_len nfts * one_if (t = t' ∧ did to = d)) as Hbal.
  { intros t' d. rewrite Hn. simpl. unfold balance_of in *.
    rewrite (wrapping_sub_small u64_max (getd 0 _ (t, did from))) by (done || apply Hwid).
    rewrite wrapping_add_small.
    - apply (counts_move (NumberOfNFTs (nft w))). done.
    - pose proof (Hwid t (did to)). rewrite getd_insert. case_decide; simplify_eq; [|done].
      match goal with He : did _ = did _ |- _ => rewrite He in * end. lia. }
  constructor.
  - rewrite Hp, Hn. apply moves_owners_ok; [done|]. intros i Hi. left. by apply Hlk.
  - intros t' d. unfold balance_of at 1. specialize (Hbal t' d). rewrite Hnum in Hbal.
    pose proof (moves_count from to t ids (NFTOwner (nft w)) t' d Hnd Hlk) as Hc.
    assert (NFTOwner (nft w') = foldl (set_owner to t) (NFTOwner (nft w)) ids) as -> by by rewrite Hn.
    clear -Hbal Hc. unfold nfts_len in Hbal. fold ids in Hbal. lia.
  - intros t'. unfold nfts_in_collection. rewrite Hn. simpl.
    rewrite moves_total; [apply Hcol|]. intros i Hi. by rewrite Hlk.
  - intros t' i. rewrite Hn. simpl. rewrite moves_lookup. intros Hs. apply Hids.
    case_decide as Hc; [|done]. destruct Hc as [-> Hi]. by rewrite Hlk.
  - intros t' d. unfold balance_of. specialize (Hbal t' d). specialize (Hwid t' d).
    unfold one_if in Hbal. unfold balance_of in *. repeat case_decide; destruct_and?; subst; lia.
Qed.

(* ------------------------------------------------------------------ *)
(** ** Every call keeps the invariant *)

Lemma nft_ok_frame w w' :
  nft_ok w → nft w' = nft w → PortfolioNFT (portfolio w') = PortfolioNFT (portfolio w) →
  nft_ok w'.
Proof.
  intros [H1 H2 H3 H4 H5] Hn Hp. unfold balance_of, nfts_in_collection in *.
  constructor; unfold balance_of, nfts_in_collection; rewrite ?Hn, ?Hp; done.
Qed.

(** A successful issue: the id is fresh, and the NFT is in the portfolio. *)
Lemma issue_nft_Ok o t attributes k w w' :
  issue_nft o t attributes k w = (Ok tt, w') →
  ∃ c pid, let i := getd 0 (NextNFTId (nft w)) c + 1 in
    CollectionTicker (nft w) !! t = Some c ∧
    Asset.ensure_origin_ticker_and_portfolio_permissions o t k false w = Ok pid ∧
    NFTOwner (nft w') = <[(t, i) := pid]> (NFTOwner (nft w)) ∧
    portfolio w' = (portfolio w) <| PortfolioNFT ::= <[(pid, (t, i)) := true]> |> ∧
    NumberOfNFTs (nft w') = <[(t, did pid) := balance_of t (did pid) w + 1]>
      (NumberOfNFTs (nft w)) ∧
    NFTsInCollection (nft w') = <[t := nfts_in_collection t w + 1]> (NFTsInCollection (nft w)) ∧
    CollectionTicker (nft w') = CollectionTicker (nft w) ∧
    NextNFTId (nft w') = <[c := i]> (NextNFTId (nft w)) ∧
    balance_of t (did pid) w + 1 ≤ u64_max ∧ untouched_by_nft w w'.
Proof.
  unfold issue_nft, on_nft, on_portfolio, deposit_event. intros H. ok_inv.
  repeat match goal with H : checked_add _ _ _ = Some _ |- _ =>
    apply checked_add_Some in H as [-> ?] end.
  destruct_product. ok_inv.
  match goal with H : Base.try_next_pre _ _ = _ |- _ =>
    apply Base.try_next_pre_Ok in H as (-> & -> & _) end.
  eexists _, _. split_and!; done.
Qed.

Lemma issue_nft_ok o t attributes k w w' :
  nft_ok w → issue_nft o t attributes k w = (Ok tt, w') → nft_ok w'.
Proof.
  intros [Hown Hnum Hcol Hids Hwid]
    (c & pid & Hc & _ & Ho & Hp & Hn & Hs & Ht & Hi & Hmax & _)%issue_nft_Ok.
  set (i := getd 0 (NextNFTId (nft w)) c + 1) in *.
  assert (NFTOwner (nft w) !! (t, i) = None) as Hfresh.
  { destruct (NFTOwner (nft w) !! (t, i)) eqn:He; [|done].
    destruct (Hids t i ltac:(by eexists)) as (c' & Hc' & Hle). simplify_eq. subst i. lia. }
  constructor.
  - rewrite Ho, Hp. simpl. intros t' i' p. rewrite !lookup_insert. specialize (Hown t' i' p).
    repeat case_decide; simplify_eq; try done; try naive_solver.
  - intros t' d. unfold balance_of. rewrite Hn, Ho, getd_insert.
    pose proof (nfts_of_insert (NFTOwner (nft w)) t i pid t' d) as Hi'. rewrite Hfresh in Hi'.
    rewrite N.add_0_r in Hi'. rewrite Hi'. unfold one_if. rewrite <- !Hnum.
    repeat case_decide; simplify_eq; unfold balance_of; try lia; naive_solver.
  - intros t'. unfold nfts_in_collection. rewrite Hs, Ho, getd_insert.
    pose proof (nfts_total_insert (NFTOwner (nft w)) t i pid t') as Hi'. rewrite Hfresh in Hi'.
    rewrite N.add_0_r in Hi'. rewrite Hi'. unfold one_if. rewrite <- !Hcol.
    repeat case_decide; simplify_eq; unfold nfts_in_collection; lia.
  - intros t' i'. rewrite Ho, Ht, Hi, lookup_insert. case_decide; simplify_eq.
    + intros _. exists c. by rewrite getd_insert_eq.
    + intros (c' & Hc' & Hle)%Hids. exists c'. split; [done|]. rewrite getd_insert.
      case_decide; [subst c'; lia|done].
  - intros t' d. unfold balance_of. rewrite Hn, getd_insert. case_decide; [done|apply Hwid].
Qed.

Lemma redeem_nft_Ok o t i k w w' :
  redeem_nft o t i k w = (Ok tt, w') →
  ∃ c pid,
    CollectionTicker (nft w) !! t = Some c ∧
    Asset.ensure_origin_ticker_and_portfolio_permissions o t k true w = Ok pid ∧
    Portfolio.has_nft pid t i w = true ∧
    NFTOwner (nft w') = delete (t, i) (NFTOwner (nft w)) ∧
    portfolio w' = (portfolio w) <| PortfolioNFT ::= delete (pid, (t, i)) |> ∧
    NumberOfNFTs (nft w') = <[(t, did pid) := balance_of t (did pid) w - 1]>
      (NumberOfNFTs (nft w)) ∧
    NFTsInCollection (nft w') = <[t := nfts_in_collection t w - 1]> (NFTsInCollection (nft w)) ∧
    CollectionTicker (nft w') = CollectionTicker (nft w) ∧
    NextNFTId (nft w') = NextNFTId (nft w) ∧
    MetadataValue (nft w') = remove_prefix (c, i) (MetadataValue (nft w)) ∧
    untouched_by_nft w w'.
Proof.
  unfold redeem_nft, on_nft, on_portfolio, deposit_event. intros H. ok_inv.
  repeat match goal with H : checked_sub _ _ = Some _ |- _ =>
    apply checked_sub_Some in H as [-> ?] end.
  eexists _, _. split_and!; done.
Qed.

Lemma redeem_nft_ok o t i k w w' :
  nft_ok w → redeem_nft o t i k w = (Ok tt, w') → nft_ok w'.
Proof.
  intros [Hown Hnum Hcol Hids Hwid]
    (c & pid & Hc & _ & Hhas & Ho & Hp & Hn & Hs & Ht & Hi & _ & _)%redeem_nft_Ok.
  assert (NFTOwner (nft w) !! (t, i) = Some pid) as Hpid.
  { apply Hown. by apply has_key_true. }
  constructor.
  - rewrite Ho, Hp. simpl. intros t' i' p. rewrite !lookup_delete. specialize (Hown t' i' p).
    repeat case_decide; simplify_eq; try done; naive_solver.
  - intros t' d. unfold balance_of. rewrite Hn, Ho, getd_insert.
    pose proof (nfts_of_delete (NFTOwner (nft w)) t i pid t' d Hpid) as Hi'.
    rewrite <- Hnum in Hi'. unfold one_if in Hi'.
    repeat case_decide; simplify_eq; unfold balance_of in *; try lia; naive_solver.
  - intros t'. unfold nfts_in_collection. rewrite Hs, Ho, getd_insert.
    pose proof (nfts_total_delete (NFTOwner (nft w)) t i pid t' Hpid) as Hi'.
    rewrite <- Hcol in Hi'. unfold one_if in Hi'.
    repeat case_decide; simplify_eq; unfold nfts_in_collection in *; lia.
  - intros t' i'. rewrite Ho, Ht, Hi, lookup_delete. case_decide; [by intros [? ?]|]. apply Hids.
  - intros t' d. unfold balance_of. rewrite Hn, getd_insert. specialize (Hwid t' d).
    case_decide; simplify_eq; unfold balance_of in *; lia.
Qed.

Lemma controller_transfer_ok o t nfts source k w w' :
  nft_ok w → controller_transfer o t nfts source k w = (Ok tt, w') → nft_ok w'.
Proof.
  intros Hok. unfold controller_transfer, deposit_event. intros H. ok_inv.
  match goal with H : unverified_nfts_transfer _ _ _ _ = (_, ?w1) |- _ =>
    apply (nft_ok_frame w1); [|done..]; by eapply (nft_ok_transfer _ _ _ w) end.
Qed.

Lemma base_nft_transfer_ok from to nfts id memo caller w w' :
  nft_ok w → base_nft_transfer from to nfts id memo caller w = (Ok tt, w') → nft_ok w'.
Proof.
  intros Hok. unfold base_nft_transfer, validate_nft_transfer, deposit_event.
  intros H. ok_inv.
  match goal with H : external _ _ = _ |- _ => apply external_Ok in H as (x' & m' & ->) end.
  match goal with H : unverified_nfts_transfer _ _ _ ?w0 = (_, ?w1) |- _ =>
    apply (nft_ok_frame w1); [|done..]; apply (nft_ok_transfer from to nfts w0); [|done|done] end.
  by apply (nft_ok_frame w).
Qed.

Lemma create_nft_collection_ok o t ty keys w w' :
  nft_ok w → create_nft_collection o t ty keys w = (Ok tt, w') → nft_ok w'.
Proof.
  intros Hok. unfold create_nft_collection, on_nft, deposit_event. intros H. ok_inv.
  destruct_product. ok_inv.
  match goal with H : has_key (CollectionTicker _) _ = false |- _ =>
    apply has_key_false in H as Hnone end.
  match goal with H : (if ?b then _ else _) w = (Ok _, ?w2) |- _ =>
    assert (nft w2 = nft w ∧ portfolio w2 = portfolio w) as [Hn Hp] end.
  { match goal with H : (if ?b then _ else _) w = _ |- _ => destruct b; [|by ok_inv] end.
    unfold Asset.create_asset in *. ok_inv.
    match goal with H : Asset.unsafe_create_asset _ _ _ _ _ _ _ _ _ = _ |- _ =>
      apply Asset.unsafe_create_asset_Ok in H end. naive_solver. }
  destruct_product. ok_inv.
  match goal with H : Base.try_next_pre _ _ = _ |- _ =>
    apply Base.try_next_pre_Ok in H as (-> & -> & _) end.
  destruct Hok as [Hown Hnum Hcol Hids Hwid].
  unfold balance_of, nfts_in_collection in *.
  constructor; unfold balance_of, nfts_in_collection; simpl; rewrite ?Hn, ?Hp; try done.
  intros t' i (c & Hc & Hle)%Hids. exists c. split; [|done].
  rewrite lookup_insert_ne; [done|]. intros ->. congruence.
Qed.

(** *** Moving funds between the portfolios of an identity *)

Lemma move_nfts_Ok from to t ids w w' :
  for_each ids (Portfolio.move_nft from to t) w = (Ok tt, w') →
  portfolio w' = foldl (Portfolio.put_nft from to t) (portfolio w) ids ∧
  nft w' = (nft w) <| NFTOwner ::= λ m, foldl (set_owner to t) m ids |> ∧
  untouched_by_nft w w'.
Proof.
  revert w. induction ids as [|i ids IH]; intros w; simpl.
  { intros H. ok_inv. split_and!; try done. by destruct w as [? ? ? ? ? ? ? ? ? ? [] ?]. }
  intros H. ok_inv.
  match goal with H : Portfolio.move_nft _ _ _ _ _ = _ |- _ =>
    unfold Portfolio.move_nft, on_portfolio in H; ok_inv end.
  apply IH in H as (Hp & Hn & Hu). rewrite Hp, Hn. split_and!; try done; apply Hu.
Qed.

Lemma nft_ok_move from to t ids w w' :
  nft_ok w → did from = did to →
  (∀ i, i ∈ ids → NFTOwner (nft w) !! (t, i) = Some from ∨ NFTOwner (nft w) !! (t, i) = Some to) →
  portfolio w' = foldl (Portfolio.put_nft from to t) (portfolio w) ids →
  nft w' = (nft w) <| NFTOwner ::= λ m, foldl (set_owner to t) m ids |> →
  nft_ok w'.
Proof.
  intros [Hown Hnum Hcol Hids Hwid] Hdid Hin Hp Hn.
  assert (∀ i, i ∈ ids → is_Some (NFTOwner (nft w) !! (t, i))) as Hsome.
  { intros i Hi. destruct (Hin i Hi) as [-> | ->]; by eexists. }
  unfold balance_of, nfts_in_collection in *.
  constructor; unfold balance_of, nfts_in_collection; rewrite ?Hp, ?Hn; simpl; try done.
  - by apply moves_owners_ok.
  - intros t' d. by rewrite (moves_same_identity from).
  - intros t'. by rewrite moves_total.
  - intros t' i. rewrite moves_lookup. intros Hs. apply Hids.
    destruct (decide (t' = t ∧ i ∈ ids)) as [[-> Hi]|]; [by apply Hsome|done].
Qed.

Lemma unchecked_move_funds_nft_ok d from to funds w w' :
  nft_ok w → did from = did to →
  (∀ t i, Portfolio.moves_nft funds t i →
     NFTOwner (nft w) !! (t, i) = Some from ∨ NFTOwner (nft w) !! (t, i) = Some to) →
  Portfolio.unchecked_move_funds d from to funds w = (Ok tt, w') →
  nft_ok w' ∧ untouched_by_nft w w'.
Proof.
  intros Hok Hdid. revert w Hok. unfold Portfolio.unchecked_move_funds.
  induction funds as [|f funds IH]; intros w Hok Hin; simpl.
  { intros H. by ok_inv. }
  intros H. ok_inv.
  match goal with H : Portfolio.unchecked_move_fund _ _ _ _ _ = _ |- _ =>
    unfold Portfolio.unchecked_move_fund, deposit_event in H end.
  destruct (description f) as [t amount|nfts] eqn:Hf; ok_inv.
  - match goal with H : Portfolio.unchecked_transfer_portfolio_balance _ _ _ _ _ = _ |- _ =>
      rewrite Portfolio.unchecked_transfer_eq in H; injection H as <- end.
    apply IH in H; [done|by apply (nft_ok_frame w)|].
    intros t' i Hi. apply Hin. apply Portfolio.moves_nft_cons. by right.
  - match goal with H : for_each _ _ w = _ |- _ =>
      apply move_nfts_Ok in H as (Hp & Hn & Hu) end.
    apply IH in H as [Hok' Hu'].
    + split; [done|]. unfold untouched_by_nft in *. simpl in *. destruct_and!.
      split_and!; congruence.
    + match goal with H : for_each _ _ ?w2 = _ |- nft_ok ?w2 =>
        apply (nft_ok_move from to (nfts_ticker nfts) (nfts_ids nfts) w w2); try done end.
      intros i Hi. apply Hin. apply Portfolio.moves_nft_cons. left. eauto.
    + intros t' i Hi. simpl. rewrite Hn. simpl. rewrite moves_lookup.
      case_decide; [by right|]. apply Hin. apply Portfolio.moves_nft_cons. by right.
Qed.

Lemma move_portfolio_funds_nft_ok o from to funds w w' :
  nft_ok w → Portfolio.move_portfolio_funds o from to funds w = (Ok tt, w') →
  nft_ok w' ∧ untouched_by_nft w w'.
Proof.
  intros Hok H. pose proof H as (_ & Hdid & _ & [_ Hcov] & _)%Portfolio.move_portfolio_funds_Ok.
  unfold Portfolio.move_portfolio_funds in H. ok_inv.
  eapply (unchecked_move_funds_nft_ok _ from to funds w); [done..| |done].
  intros t i Hi. left. apply (ok_owner _ Hok). by apply Hcov.
Qed.

Lemma portfolio_dispatch_nft_ok o c w w' :
  nft_ok w → Portfolio.balances_ok (portfolio w) →
  Portfolio.dispatch o c w = (Ok tt, w') → nft_ok w'.
Proof.
  intros Hok Hb H. destruct c eqn:Hc; simpl in H;
    first [by apply move_portfolio_funds_nft_ok in H as [? _] |
      apply (nft_ok_frame w); [done|
        by eapply (Portfolio.dispatch_frame o c w w' Hb);
          [by rewrite Hc|by rewrite Hc]..]].
Qed.

Lemma dispatch_nft_ok o c w w' :
  nft_ok w → dispatch o c w = (Ok tt, w') → nft_ok w'.
Proof.
  intros Hok. destruct c; simpl; intros H.
  - by eapply create_nft_collection_ok.
  - by eapply issue_nft_ok.
  - by eapply redeem_nft_ok.
  - by eapply controller_transfer_ok.
Qed.
End nft.
End Nft.
