(* ===== verification/Metadata.v ===== *)
(** Documents and metadata of assets (src/pallets/asset/src/lib.rs): documents
    numbered per asset, metadata keys registered for one asset or for all of
    them, and the values of the keys with their locks. *)

From stdpp Require Import base numbers list gmap sets strings.
From S2P Require Import Prelude Subset AssetIdentifier Types SettlementTypes Schedules State.
From S2P Require Import Identity Agents Portfolio Checkpoint Asset Nft.

Local Open Scope N_scope.

Module Metadata.
Section metadata.
Context {RT : Runtime} {EX : Externals}.

(* ------------------------------------------------------------------ *)
(** ** Documents *)

(** The ids from [n] on, next to the documents; the ids are of 32 bits. *)
Fixpoint zip_ids {A : Type} (n : N) (l : list A) : list (N * A) :=
  match l with
  | [] => []
  | a :: l => (n, a) :: zip_ids (wrapping_add u32_max n 1) l
  end.

Definition ensure_doc_exists (t : Ticker) (doc : N) : Chk unit := λ w,
  ensure (has_key (AssetDocuments (asset w)) (t, doc)) (EAsset NoSuchDoc).

Definition ensure_document_limited (doc : Document) : result DispatchError unit :=
  Base.ensure_string_limited (uri doc) ;;
  Base.ensure_string_limited (doc_name doc) ;;
  Base.ensure_opt_string_limited (doc_type doc).

(** [base_add_documents]. *)
Definition add_documents (o : Origin) (docs : list Document) (t : Ticker) : M unit :=
  d ← check (Agents.ensure_perms o t) ;
  check (λ _, for_check docs ensure_document_limited) ;;
  pre ← gets (λ w, getd 0 (AssetDocumentsIdSequence (asset w)) t) ;
  new ← check (λ _, ok_or (checked_add u32_max pre (Base.len docs mod (u32_max + 1)))
                      (EBase CounterOverflow)) ;
  on_asset (λ s, s <| AssetDocumentsIdSequence ::= <[t := new]> |>) ;;
  external (batch_charge_fee AssetAddDocuments (Base.len docs)) ;;
  for_each (zip_ids pre docs) (λ '(id, doc),
    on_asset (λ s, s <| AssetDocuments ::= <[(t, id) := doc]> |>) ;;
    deposit_event (DocumentAdded d t id doc)).

(** [base_remove_documents]. *)
Definition remove_documents (o : Origin) (ids : list N) (t : Ticker) : M unit :=
  d ← check (Agents.ensure_perms o t) ;
  for_each ids (λ id,
    on_asset (λ s, s <| AssetDocuments ::= delete (t, id) |>) ;;
    deposit_event (DocumentRemoved d t id)).

(* ------------------------------------------------------------------ *)
(** ** Metadata *)

Definition is_asset_metadata_locked (t : Ticker) (k : AssetMetadataKey) (w : World) : bool :=
  match AssetMetadataValueDetails (asset w) !! (t, k) with
  | Some details => is_locked details (now w)
  | None => false
  end.

Definition ensure_asset_metadata_value_limited (value : list N) : result DispatchError unit :=
  ensure (bool_decide (Base.len value ≤ AssetMetadataValueMaxLength))
    (EAsset AssetMetadataValueMaxLengthExceeded).
Definition ensure_asset_metadata_name_limited (name : list N) : result DispatchError unit :=
  ensure (bool_decide (Base.len name ≤ AssetMetadataNameMaxLength))
    (EAsset AssetMetadataNameMaxLengthExceeded).
Definition ensure_asset_metadata_spec_limited (spec : AssetMetadataSpec)
    : result DispatchError unit :=
  Base.ensure_opt_string_limited (spec_url spec) ;;
  Base.ensure_opt_string_limited (spec_description spec) ;;
  match spec_type_def spec with
  | Some type_def =>
      ensure (bool_decide (Base.len type_def ≤ AssetMetadataTypeDefMaxLength))
        (EAsset AssetMetadataTypeDefMaxLengthExceeded)
  | None => Ok tt
  end.

Definition unverified_set_asset_metadata (d : IdentityId) (t : Ticker) (k : AssetMetadataKey)
    (value : list N) (detail : option AssetMetadataValueDetail) : M unit :=
  check (λ _, ensure_asset_metadata_value_limited value) ;;
  check (λ w, ensure (Asset.check_asset_metadata_key_exists t k w)
                (EAsset AssetMetadataKeyIsMissing)) ;;
  check (λ w, ensure (negb (is_asset_metadata_locked t k w))
                (EAsset AssetMetadataValueIsLocked)) ;;
  on_asset (λ s, s <| AssetMetadataValues ::= <[(t, k) := value]> |>) ;;
  (if detail is Some x then
     on_asset (λ s, s <| AssetMetadataValueDetails ::= <[(t, k) := x]> |>)
   else mret tt) ;;
  deposit_event (SetAssetMetadataValue d t value detail).

(** [base_set_asset_metadata]. *)
Definition set_asset_metadata (o : Origin) (t : Ticker) (k : AssetMetadataKey)
    (value : list N) (detail : option AssetMetadataValueDetail) : M unit :=
  d ← check (Agents.ensure_perms o t) ;
  unverified_set_asset_metadata d t k value detail.

(** [base_set_asset_metadata_details]. *)
Definition set_asset_metadata_details (o : Origin) (t : Ticker) (k : AssetMetadataKey)
    (detail : AssetMetadataValueDetail) : M unit :=
  d ← check (Agents.ensure_perms o t) ;
  check (λ w, ensure (Asset.check_asset_metadata_key_exists t k w)
                (EAsset AssetMetadataKeyIsMissing)) ;;
  check (λ w, ensure (negb (is_asset_metadata_locked t k w))
                (EAsset AssetMetadataValueIsLocked)) ;;
  check (λ w, if is_locked detail (now w)
              then ensure (has_key (AssetMetadataValues (asset w)) (t, k))
                     (EAsset AssetMetadataValueIsEmpty)
              else Ok tt) ;;
  on_asset (λ s, s <| AssetMetadataValueDetails ::= <[(t, k) := detail]> |>) ;;
  deposit_event (SetAssetMetadataValueDetails d t detail).

Definition unverified_register_asset_metadata_local_type (d : IdentityId) (t : Ticker)
    (name : list N) (spec : AssetMetadataSpec) : M AssetMetadataKey :=
  check (λ _, ensure_asset_metadata_name_limited name) ;;
  check (λ _, ensure_asset_metadata_spec_limited spec) ;;
  check (λ w, ensure (negb (has_key (AssetMetadataLocalNameToKey (asset w)) (t, name)))
                (EAsset AssetMetadataLocalKeyAlreadyExists)) ;;
  '(key, seq) ← check (λ w, Base.try_next_pre u64_max
                              (getd 0 (AssetMetadataNextLocalKey (asset w)) t)) ;
  on_asset (λ s, s <| AssetMetadataNextLocalKey ::= <[t := seq]> |>
                   <| AssetMetadataLocalNameToKey ::= <[(t, name) := key]> |>
                   <| AssetMetadataLocalKeyToName ::= <[(t, key) := name]> |>
                   <| AssetMetadataLocalSpecs ::= <[(t, key) := spec]> |>) ;;
  deposit_event (RegisterAssetMetadataLocalType d t name key spec) ;;
  mret (LocalKey key).

(** [base_register_and_set_local_asset_metadata]. *)
Definition register_and_set_local_asset_metadata (o : Origin) (t : Ticker) (name : list N)
    (spec : AssetMetadataSpec) (value : list N) (detail : option AssetMetadataValueDetail)
    : M unit :=
  d ← check (Agents.ensure_perms o t) ;
  key ← unverified_register_asset_metadata_local_type d t name spec ;
  unverified_set_asset_metadata d t key value detail.

(** [base_register_asset_metadata_local_type]. *)
Definition register_asset_metadata_local_type (o : Origin) (t : Ticker) (name : list N)
    (spec : AssetMetadataSpec) : M unit :=
  d ← check (Agents.ensure_perms o t) ;
  unverified_register_asset_metadata_local_type d t name spec ;;
  mret tt.

(** [base_register_asset_metadata_global_type]. *)
Definition register_asset_metadata_global_type (o : Origin) (name : list N)
    (spec : AssetMetadataSpec) : M unit :=
  check (λ _, ensure_asset_metadata_name_limited name) ;;
  check (λ _, ensure_asset_metadata_spec_limited spec) ;;
  check (λ _, Identity.ensure_root o) ;;
  check (λ w, ensure (negb (has_key (AssetMetadataGlobalNameToKey (asset w)) name))
                (EAsset AssetMetadataGlobalKeyAlreadyExists)) ;;
  '(key, seq) ← check (λ w, Base.try_next_pre u64_max (AssetMetadataNextGlobalKey (asset w))) ;
  on_asset (λ s, s <| AssetMetadataNextGlobalKey := seq |>
                   <| AssetMetadataGlobalNameToKey ::= <[name := key]> |>
                   <| AssetMetadataGlobalKeyToName ::= <[key := name]> |>
                   <| AssetMetadataGlobalSpecs ::= <[key := spec]> |>) ;;
  deposit_event (RegisterAssetMetadataGlobalType name key spec).

(** [base_remove_local_metadata_key]. *)
Definition remove_local_metadata_key (o : Origin) (t : Ticker) (local_key : N) : M unit :=
  d ← check (Agents.ensure_perms o t) ;
  name ← check (λ w, ok_or (AssetMetadataLocalKeyToName (asset w) !! (t, local_key))
                       (EAsset AssetMetadataKeyIsMissing)) ;
  let k := LocalKey local_key in
  check (λ w, ensure (negb (is_asset_metadata_locked t k w))
                (EAsset AssetMetadataValueIsLocked)) ;;
  check (λ w, ensure (negb (Nft.is_collection_key t k w))
                (EAsset AssetMetadataKeyBelongsToNFTCollection)) ;;
  on_asset (λ s, s <| AssetMetadataValues ::= delete (t, k) |>
                   <| AssetMetadataValueDetails ::= delete (t, k) |>
                   <| AssetMetadataLocalNameToKey ::= delete (t, name) |>
                   <| AssetMetadataLocalKeyToName ::= delete (t, local_key) |>
                   <| AssetMetadataLocalSpecs ::= delete (t, local_key) |>) ;;
  deposit_event (LocalMetadataKeyDeleted d t local_key).

(** [base_remove_metadata_value]. *)
Definition remove_metadata_value (o : Origin) (t : Ticker) (k : AssetMetadataKey) : M unit :=
  d ← check (Agents.ensure_perms o t) ;
  check (λ w, ensure (Asset.check_asset_metadata_key_exists t k w)
                (EAsset AssetMetadataKeyIsMissing)) ;;
  check (λ w, ensure (negb (is_asset_metadata_locked t k w))
                (EAsset AssetMetadataValueIsLocked)) ;;
  on_asset (λ s, s <| AssetMetadataValues ::= delete (t, k) |>
                   <| AssetMetadataValueDetails ::= delete (t, k) |>) ;;
  deposit_event (MetadataValueDeleted d t k).

(** The calls. *)
Inductive call : Type :=
  | AddDocuments (docs : list Document) (t : Ticker)
  | RemoveDocuments (ids : list N) (t : Ticker)
  | SetMetadata (t : Ticker) (k : AssetMetadataKey) (value : list N)
      (detail : option AssetMetadataValueDetail)
  | SetMetadataDetails (t : Ticker) (k : AssetMetadataKey) (detail : AssetMetadataValueDetail)
  | RegisterAndSetLocal (t : Ticker) (name : list N) (spec : AssetMetadataSpec)
      (value : list N) (detail : option AssetMetadataValueDetail)
  | RegisterLocalType (t : Ticker) (name : list N) (spec : AssetMetadataSpec)
  | RegisterGlobalType (name : list N) (spec : AssetMetadataSpec)
  | RemoveLocalKey (t : Ticker) (local_key : N)
  | RemoveValue (t : Ticker) (k : AssetMetadataKey).

Definition dispatch (o : Origin) (c : call) : M unit :=
  match c with
  | AddDocuments docs t => add_documents o docs t
  | RemoveDocuments ids t => remove_documents o ids t
  | SetMetadata t k value detail => set_asset_metadata o t k value detail
  | SetMetadataDetails t k detail => set_asset_metadata_details o t k detail
  | RegisterAndSetLocal t name spec value detail =>
      register_and_set_local_asset_metadata o t name spec value detail
  | RegisterLocalType t name spec => register_asset_metadata_local_type o t name spec
  | RegisterGlobalType name spec => register_asset_metadata_global_type o name spec
  | RemoveLocalKey t local_key => remove_local_metadata_key o t local_key
  | RemoveValue t k => remove_metadata_value o t k
  end.

(* ------------------------------------------------------------------ *)
(** ** What the calls do *)

(** Documents and metadata, and the collections that refer to them. *)
Definition catalog (s : AssetStore) :=
  (AssetDocuments s, AssetDocumentsIdSequence s, AssetMetadataValues s,
   AssetMetadataValueDetails s, (AssetMetadataLocalNameToKey s, AssetMetadataLocalKeyToName s,
   AssetMetadataLocalSpecs s, AssetMetadataNextLocalKey s),
   (AssetMetadataGlobalNameToKey s, AssetMetadataGlobalKeyToName s,
    AssetMetadataGlobalSpecs s, AssetMetadataNextGlobalKey s)).
Definition collections (s : NftStore) :=
  (CollectionTicker s, Collection s, CollectionKeys s, NextCollectionId s).

Definition catalog_same (w w' : World) : Prop :=
  catalog (asset w') = catalog (asset w) ∧ collections (nft w') = collections (nft w).

#[global] Instance catalog_same_preorder : PreOrder catalog_same.
Proof. split; [done|]. intros w1 w2 w3 [] []. split; congruence. Qed.

(** Documents under their ids. *)
Definition put_documents (t : Ticker) (l : list (N * Document))
    (m : gmap (Ticker * N) Document) : gmap (Ticker * N) Document :=
  foldl (λ m p, <[(t, p.1) := p.2]> m) m l.

Definition put_detail (key : Ticker * AssetMetadataKey) (detail : option AssetMetadataValueDetail)
    (m : gmap (Ticker * AssetMetadataKey) AssetMetadataValueDetail) :=
  match detail with Some x => <[key := x]> m | None => m end.

(** What a call leaves: a new catalogue, and the traces of fees and events. *)
Definition recatalogued (w : World) (s : AssetStore) (w' : World) : Prop :=
  ∃ e x m, w' = w <| asset := s |> <| events := e |> <| rest := x |> <| meter := m |>.

(** One change of the catalogue, with the checks that led to it. *)
Inductive change : World → World → Prop :=
  | change_add t docs w w' :
      let pre := getd 0 (AssetDocumentsIdSequence (asset w)) t in
      let n := Base.len docs mod (u32_max + 1) in
      pre + n ≤ u32_max →
      recatalogued w ((asset w)
        <| AssetDocumentsIdSequence ::= <[t := pre + n]> |>
        <| AssetDocuments ::= put_documents t (zip_ids pre docs) |>) w' →
      change w w'
  | change_drop t ids w w' :
      recatalogued w ((asset w)
        <| AssetDocuments ::= λ m, foldl (λ m id, delete (t, id) m) m ids |>) w' →
      change w w'
  | change_set t k value detail w w' :
      Asset.check_asset_metadata_key_exists t k w = true →
      is_asset_metadata_locked t k w = false →
      recatalogued w ((asset w)
        <| AssetMetadataValues ::= <[(t, k) := value]> |>
        <| AssetMetadataValueDetails ::= put_detail (t, k) detail |>) w' →
      change w w'
  | change_details t k detail w w' :
      Asset.check_asset_metadata_key_exists t k w = true →
      is_asset_metadata_locked t k w = false →
      (is_locked detail (now w) = true → is_Some (AssetMetadataValues (asset w) !! (t, k))) →
      recatalogued w ((asset w) <| AssetMetadataValueDetails ::= <[(t, k) := detail]> |>) w' →
      change w w'
  | change_local t name spec w w' :
      let key := getd 0 (AssetMetadataNextLocalKey (asset w)) t + 1 in
      AssetMetadataLocalNameToKey (asset w) !! (t, name) = None →
      recatalogued w ((asset w)
        <| AssetMetadataNextLocalKey ::= <[t := key]> |>
        <| AssetMetadataLocalNameToKey ::= <[(t, name) := key]> |>
        <| AssetMetadataLocalKeyToName ::= <[(t, key) := name]> |>
        <| AssetMetadataLocalSpecs ::= <[(t, key) := spec]> |>) w' →
      change w w'
  | change_global name spec w w' :
      let key := AssetMetadataNextGlobalKey (asset w) + 1 in
      AssetMetadataGlobalNameToKey (asset w) !! name = None →
      recatalogued w ((asset w)
        <| AssetMetadataNextGlobalKey := key |>
        <| AssetMetadataGlobalNameToKey ::= <[name := key]> |>
        <| AssetMetadataGlobalKeyToName ::= <[key := name]> |>
        <| AssetMetadataGlobalSpecs ::= <[key := spec]> |>) w' →
      change w w'
  | change_forget t key name w w' :
      AssetMetadataLocalKeyToName (asset w) !! (t, key) = Some name →
      is_asset_metadata_locked t (LocalKey key) w = false →
      Nft.is_collection_key t (LocalKey key) w = false →
      recatalogued w ((asset w)
        <| AssetMetadataValues ::= delete (t, LocalKey key) |>
        <| AssetMetadataValueDetails ::= delete (t, LocalKey key) |>
        <| AssetMetadataLocalNameToKey ::= delete (t, name) |>
        <| AssetMetadataLocalKeyToName ::= delete (t, key) |>
        <| AssetMetadataLocalSpecs ::= delete (t, key) |>) w' →
      change w w'
  | change_unset t k w w' :
      is_asset_metadata_locked t k w = false →
      recatalogued w ((asset w)
        <| AssetMetadataValues ::= delete (t, k) |>
        <| AssetMetadataValueDetails ::= delete (t, k) |>) w' →
      change w w'.

Ltac recatalog :=
  match goal with |- recatalogued _ _ ?w' => exists (events w'), (rest w'), (meter w'); reflexivity end.

Lemma put_documents_Ok d t l w w' :
  for_each l (λ '(id, doc),
    on_asset (λ s, s <| AssetDocuments ::= <[(t, id) := doc]> |>) ;;
    deposit_event (DocumentAdded d t id doc)) w = (Ok tt, w') →
  recatalogued w ((asset w) <| AssetDocuments ::= put_documents t l |>) w'.
Proof.
  revert w. induction l as [|[id doc] l IH]; intros w H; simpl in H;
    unfold on_asset, deposit_event in H; ok_inv.
  - exists (events w), (rest w), (meter w). by destruct w as [? ? ? ? ? ? ? ? ? [] ? ?].
  - apply IH in H as (e & x & m & ->). recatalog.
Qed.

Lemma drop_documents_Ok d t ids w w' :
  for_each ids (λ id,
    on_asset (λ s, s <| AssetDocuments ::= delete (t, id) |>) ;;
    deposit_event (DocumentRemoved d t id)) w = (Ok tt, w') →
  recatalogued w ((asset w)
    <| AssetDocuments ::= λ m, foldl (λ m id, delete (t, id) m) m ids |>) w'.
Proof.
  revert w. induction ids as [|id ids IH]; intros w H; simpl in H;
    unfold on_asset, deposit_event in H; ok_inv.
  - exists (events w), (rest w), (meter w). by destruct w as [? ? ? ? ? ? ? ? ? [] ? ?].
  - apply IH in H as (e & x & m & ->). recatalog.
Qed.

Lemma set_asset_metadata_Ok d t k value detail w w' :
  unverified_set_asset_metadata d t k value detail w = (Ok tt, w') → change w w'.
Proof.
  unfold unverified_set_asset_metadata, on_asset, deposit_event. intros H. ok_inv.
  apply (change_set t k value detail); [done|done|].
  destruct detail; ok_inv; recatalog.
Qed.

Lemma register_local_Ok d t name spec w key w' :
  unverified_register_asset_metadata_local_type d t name spec w = (Ok key, w') →
  change w w'.
Proof.
  unfold unverified_register_asset_metadata_local_type, on_asset, deposit_event. intros H.
  ok_inv. destruct_product. ok_inv.
  match goal with H : Base.try_next_pre _ _ = _ |- _ =>
    apply Base.try_next_pre_Ok in H as (-> & -> & _) end.
  apply (change_local t name spec); [by apply has_key_false|recatalog].
Qed.

(** Every call is made of such changes. *)
Lemma dispatch_changes o c w w' : dispatch o c w = (Ok tt, w') → rtc change w w'.
Proof.
  intros H. destruct c; simpl in H.
  - unfold add_documents, on_asset in H. ok_inv.
    match goal with H : checked_add _ _ _ = Some _ |- _ =>
      apply checked_add_Some in H as [-> Hle] end.
    match goal with H : external _ _ = _ |- _ => apply external_Ok in H as (y & m & ->) end.
    apply put_documents_Ok in H as (e & y' & m' & ->).
    apply rtc_once, (change_add t docs); [done|recatalog].
  - unfold remove_documents in H. ok_inv. apply drop_documents_Ok in H.
    by apply rtc_once, (change_drop t ids).
  - unfold set_asset_metadata in H. ok_inv. by eapply rtc_once, set_asset_metadata_Ok.
  - unfold set_asset_metadata_details, on_asset, deposit_event in H. ok_inv.
    apply rtc_once, (change_details t k detail); [done|done| |recatalog].
    intros Hl. rewrite Hl in *. ok_inv. by apply has_key_true.
  - unfold register_and_set_local_asset_metadata in H. ok_inv.
    eapply rtc_l; [by eapply register_local_Ok|]. by eapply rtc_once, set_asset_metadata_Ok.
  - unfold register_asset_metadata_local_type in H. ok_inv. by eapply rtc_once, register_local_Ok.
  - unfold register_asset_metadata_global_type, on_asset, deposit_event in H. ok_inv.
    destruct_product. ok_inv.
    match goal with H : Base.try_next_pre _ _ = _ |- _ =>
      apply Base.try_next_pre_Ok in H as (-> & -> & _) end.
    apply rtc_once, (change_global name spec); [by apply has_key_false|recatalog].
  - unfold remove_local_metadata_key, on_asset, deposit_event in H. ok_inv.
    eapply rtc_once, (change_forget t local_key); [done..|recatalog].
  - unfold remove_metadata_value, on_asset, deposit_event in H. ok_inv.
    eapply rtc_once, (change_unset t k); [done..|recatalog].
Qed.

(** The calls write nothing else. *)
Lemma change_frame w w' : change w w' → ∃ s, recatalogued w s w' ∧
  Tokens s = Tokens (asset w) ∧ BalanceOf s = BalanceOf (asset w).
Proof. destruct 1; eexists; (split; [done|]); done. Qed.

Lemma change_administrative w w' : change w w' → Asset.administrative w w'.
Proof.
  intros (s & (e & x & m & ->) & ET & EB)%change_frame. by apply Asset.administrative_frame.
Qed.

Lemma administrative_trans w1 w2 w3 :
  agents w2 = agents w1 → agents w3 = agents w2 →
  Asset.administrative w1 w2 → Asset.administrative w2 w3 → Asset.administrative w1 w3.
Proof.
  intros EA EA' [S1 T1 B1 P1 C1 N1 L1 _] [S2 T2 B2 P2 C2 N2 L2 _].
  constructor; try congruence.
  - intros t Ht. by apply T2, T1.
  - left. congruence.
Qed.

Lemma changes_administrative w w' :
  rtc change w w' → Asset.administrative w w' ∧ agents w' = agents w.
Proof.
  induction 1 as [w|w1 w2 w3 H _ [IH EA]]; [by split; [apply Asset.administrative_frame|]|].
  assert (agents w2 = agents w1) as EA2
    by (by apply change_frame in H as (s & (e & x & m & ->) & _)).
  apply change_administrative in H. split; [by eapply administrative_trans|congruence].
Qed.

Lemma metadata_administrative o c w w' :
  dispatch o c w = (Ok tt, w') → Asset.administrative w w'.
Proof. by intros [? _]%dispatch_changes%changes_administrative. Qed.

(* ------------------------------------------------------------------ *)
(** ** The catalogue stays consistent *)

(** Names and keys of metadata correspond one to one, each key has a
    specification and was handed out by the counter; values and details belong
    to keys that exist, and a value that is locked for good is there; the keys
    an NFT collection requires exist. *)
Record catalog_ok (w : World) : Prop := {
  co_local : ∀ t n k, AssetMetadataLocalNameToKey (asset w) !! (t, n) = Some k ↔
    AssetMetadataLocalKeyToName (asset w) !! (t, k) = Some n;
  co_local_spec : ∀ t k, is_Some (AssetMetadataLocalKeyToName (asset w) !! (t, k)) ↔
    is_Some (AssetMetadataLocalSpecs (asset w) !! (t, k));
  co_local_next : ∀ t k, is_Some (AssetMetadataLocalKeyToName (asset w) !! (t, k)) →
    k ≤ getd 0 (AssetMetadataNextLocalKey (asset w)) t;
  co_global : ∀ n k, AssetMetadataGlobalNameToKey (asset w) !! n = Some k ↔
    AssetMetadataGlobalKeyToName (asset w) !! k = Some n;
  co_global_spec : ∀ k, is_Some (AssetMetadataGlobalKeyToName (asset w) !! k) ↔
    is_Some (AssetMetadataGlobalSpecs (asset w) !! k);
  co_global_next : ∀ k, is_Some (AssetMetadataGlobalKeyToName (asset w) !! k) →
    k ≤ AssetMetadataNextGlobalKey (asset w);
  co_values : ∀ t k, is_Some (AssetMetadataValues (asset w) !! (t, k)) →
    Asset.check_asset_metadata_key_exists t k w = true;
  co_details : ∀ t k, is_Some (AssetMetadataValueDetails (asset w) !! (t, k)) →
    Asset.check_asset_metadata_key_exists t k w = true;
  co_locked : ∀ t k d, AssetMetadataValueDetails (asset w) !! (t, k) = Some d →
    lock_status d = Locked → is_Some (AssetMetadataValues (asset w) !! (t, k));
  co_collections : ∀ t c, CollectionTicker (nft w) !! t = Some c →
    c ≤ NextCollectionId (nft w) ∧ Collection (nft w) !! c = Some (mkNFTCollection c t);
  co_keys : ∀ t c k, CollectionTicker (nft w) !! t = Some c →
    k ∈ getd ∅ (CollectionKeys (nft w)) c →
    Asset.check_asset_metadata_key_exists t k w = true;
}.

Lemma key_exists_local t k w :
  Asset.check_asset_metadata_key_exists t (LocalKey k) w = true ↔
  is_Some (AssetMetadataLocalKeyToName (asset w) !! (t, k)).
Proof. apply has_key_true. Qed.
Lemma key_exists_global t k w :
  Asset.check_asset_metadata_key_exists t (GlobalKey k) w = true ↔
  is_Some (AssetMetadataGlobalKeyToName (asset w) !! k).
Proof. apply has_key_true. Qed.

Lemma catalog_ok_same w w' : catalog_same w w' → catalog_ok w → catalog_ok w'.
Proof.
  intros [[= E1 E2 E3 E4 E5 E6 E7 E8 E9 E10 E11 E12] [= F1 F2 F3 F4]] [].
  assert (∀ t k, Asset.check_asset_metadata_key_exists t k w' =
    Asset.check_asset_metadata_key_exists t k w) as Ek
    by (intros t []; simpl; congruence).
  constructor; intros; rewrite ?Ek, ?E1, ?E2, ?E3, ?E4, ?E5, ?E6, ?E7, ?E8, ?E9, ?E10, ?E11,
    ?E12, ?F1, ?F2, ?F3, ?F4 in *; eauto.
Qed.

Lemma empty_catalog_ok keys : catalog_ok (empty_world keys).
Proof. constructor; intros; simpl in *; rewrite ?lookup_empty in *; naive_solver. Qed.

(** The part of the invariant about values only. *)
Lemma catalog_ok_values w w' :
  catalog_ok w →
  (∃ v d e x m, w' = w <| asset ::= λ s, s <| AssetMetadataValues := v |>
                            <| AssetMetadataValueDetails := d |> |>
                     <| events := e |> <| rest := x |> <| meter := m |>) →
  (∀ t k, is_Some (AssetMetadataValues (asset w') !! (t, k)) →
     Asset.check_asset_metadata_key_exists t k w = true) →
  (∀ t k, is_Some (AssetMetadataValueDetails (asset w') !! (t, k)) →
     Asset.check_asset_metadata_key_exists t k w = true) →
  (∀ t k d, AssetMetadataValueDetails (asset w') !! (t, k) = Some d →
     lock_status d = Locked → is_Some (AssetMetadataValues (asset w') !! (t, k))) →
  catalog_ok w'.
Proof. intros [] (v & d & e & x & m & ->) Hv Hd Hl. by constructor. Qed.

Lemma change_set_ok t k value detail w w' :
  catalog_ok w → Asset.check_asset_metadata_key_exists t k w = true →
  recatalogued w ((asset w)
    <| AssetMetadataValues ::= <[(t, k) := value]> |>
    <| AssetMetadataValueDetails ::= put_detail (t, k) detail |>) w' → catalog_ok w'.
Proof.
  intros Hok Hk (e & x & m & ->). eapply catalog_ok_values; [done|by eexists _, _, _, _, _|..]; simpl.
  - intros t' k'. rewrite lookup_insert. case_decide; [by simplify_eq|]. apply (co_values _ Hok).
  - intros t' k'. destruct detail; simpl; [|apply (co_details _ Hok)].
    rewrite lookup_insert. case_decide; [by simplify_eq|]. apply (co_details _ Hok).
  - intros t' k' d. rewrite !lookup_insert. case_decide; [by eauto|].
    destruct detail; simpl; rewrite ?lookup_insert_ne by done; apply (co_locked _ Hok).
Qed.

Lemma change_details_ok t k detail w w' :
  catalog_ok w → Asset.check_asset_metadata_key_exists t k w = true →
  (is_locked detail (now w) = true → is_Some (AssetMetadataValues (asset w) !! (t, k))) →
  recatalogued w ((asset w) <| AssetMetadataValueDetails ::= <[(t, k) := detail]> |>) w' →
  catalog_ok w'.
Proof.
  intros Hok Hk Hl (e & x & m & ->). eapply catalog_ok_values; [done|by eexists _, _, _, _, _|..]; simpl.
  - apply (co_values _ Hok).
  - intros t' k'. rewrite lookup_insert. case_decide; [by simplify_eq|]. apply (co_details _ Hok).
  - intros t' k' d. rewrite !lookup_insert. case_decide; [|apply (co_locked _ Hok)].
    intros [= <-] Hlk. simplify_eq. apply Hl. unfold is_locked. by rewrite Hlk.
Qed.

Lemma change_unset_ok t k w w' :
  catalog_ok w →
  recatalogued w ((asset w)
    <| AssetMetadataValues ::= delete (t, k) |>
    <| AssetMetadataValueDetails ::= delete (t, k) |>) w' → catalog_ok w'.
Proof.
  intros Hok (e & x & m & ->). eapply catalog_ok_values; [done|by eexists _, _, _, _, _|..]; simpl.
  - intros t' k'. rewrite lookup_delete. case_decide; [by intros []|]. apply (co_values _ Hok).
  - intros t' k'. rewrite lookup_delete. case_decide; [by intros []|]. apply (co_details _ Hok).
  - intros t' k' d. rewrite !lookup_delete. case_decide; [done|]. apply (co_locked _ Hok).
Qed.

(** A change of the keys of one kind leaves what depends on the others. *)
Lemma change_local_ok t name spec w w' :
  let key := getd 0 (AssetMetadataNextLocalKey (asset w)) t + 1 in
  catalog_ok w → AssetMetadataLocalNameToKey (asset w) !! (t, name) = None →
  recatalogued w ((asset w)
    <| AssetMetadataNextLocalKey ::= <[t := key]> |>
    <| AssetMetadataLocalNameToKey ::= <[(t, name) := key]> |>
    <| AssetMetadataLocalKeyToName ::= <[(t, key) := name]> |>
    <| AssetMetadataLocalSpecs ::= <[(t, key) := spec]> |>) w' → catalog_ok w'.
Proof.
  intros key Hok Hn (e & x & m & ->).
  assert (AssetMetadataLocalKeyToName (asset w) !! (t, key) = None) as Hf.
  { apply eq_None_not_Some. intros Hs%(co_local_next _ Hok). lia. }
  assert (∀ t' k, Asset.check_asset_metadata_key_exists t' k w = true →
    Asset.check_asset_metadata_key_exists t' k (w <| asset ::= λ s,
      s <| AssetMetadataLocalKeyToName ::= <[(t, key) := name]> |> |>) = true) as Hmono.
  { intros t' [i|i]; [done|]. rewrite !key_exists_local. simpl. intros Hs.
    rewrite lookup_insert. by case_decide. }
  destruct Hok as [H1 H2 H3 H4 H5 H6 H7 H8 H9 H10 H11].
  constructor; simpl; try done;
    try (intros; apply Hmono; by eauto).
  - intros t' n k. rewrite !lookup_insert.
    destruct (decide ((t, name) = (t', n))), (decide ((t, key) = (t', k))); simplify_eq; try done.
    + split; [naive_solver|]. intros Hc%H1. congruence.
    + split; [|naive_solver]. intros Hc%H1. congruence.
  - intros t' k. rewrite !lookup_insert. case_decide; [by split; eexists|apply H2].
  - intros t' k. rewrite lookup_insert, getd_insert. case_decide.
    { simplify_eq. rewrite decide_True by done. lia. }
    intros Hs%H3. case_decide; subst; lia.
Qed.

Lemma change_global_ok name spec w w' :
  let key := AssetMetadataNextGlobalKey (asset w) + 1 in
  catalog_ok w → AssetMetadataGlobalNameToKey (asset w) !! name = None →
  recatalogued w ((asset w)
    <| AssetMetadataNextGlobalKey := key |>
    <| AssetMetadataGlobalNameToKey ::= <[name := key]> |>
    <| AssetMetadataGlobalKeyToName ::= <[key := name]> |>
    <| AssetMetadataGlobalSpecs ::= <[key := spec]> |>) w' → catalog_ok w'.
Proof.
  intros key Hok Hn (e & x & m & ->).
  assert (AssetMetadataGlobalKeyToName (asset w) !! key = None) as Hf.
  { apply eq_None_not_Some. intros Hs%(co_global_next _ Hok). lia. }
  assert (∀ t k, Asset.check_asset_metadata_key_exists t k w = true →
    Asset.check_asset_metadata_key_exists t k (w <| asset ::= λ s,
      s <| AssetMetadataGlobalKeyToName ::= <[key := name]> |> |>) = true) as Hmono.
  { intros t [i|i]; [|done]. rewrite !key_exists_global. simpl. intros Hs.
    rewrite lookup_insert. by case_decide. }
  destruct Hok as [H1 H2 H3 H4 H5 H6 H7 H8 H9 H10 H11].
  constructor; simpl; try done;
    try (intros; apply Hmono; by eauto).
  - intros n k. rewrite !lookup_insert.
    destruct (decide (name = n)), (decide (key = k)); simplify_eq; try done.
    + split; [naive_solver|]. intros Hc%H4. congruence.
    + split; [|naive_solver]. intros Hc%H4. congruence.
  - intros k. rewrite !lookup_insert. case_decide; [by split; eexists|apply H5].
  - intros k. rewrite lookup_insert. case_decide; [subst; lia|]. intros Hs%H6. lia.
Qed.

Lemma change_forget_ok t key name w w' :
  catalog_ok w → AssetMetadataLocalKeyToName (asset w) !! (t, key) = Some name →
  Nft.is_collection_key t (LocalKey key) w = false →
  recatalogued w ((asset w)
    <| AssetMetadataValues ::= delete (t, LocalKey key) |>
    <| AssetMetadataValueDetails ::= delete (t, LocalKey key) |>
    <| AssetMetadataLocalNameToKey ::= delete (t, name) |>
    <| AssetMetadataLocalKeyToName ::= delete (t, key) |>
    <| AssetMetadataLocalSpecs ::= delete (t, key) |>) w' → catalog_ok w'.
Proof.
  intros Hok Hk Hnft (e & x & m & ->).
  assert (∀ t' k, (t, LocalKey key) ≠ (t', k) →
    Asset.check_asset_metadata_key_exists t' k w = true →
    Asset.check_asset_metadata_key_exists t' k (w <| asset ::= λ s,
      s <| AssetMetadataLocalKeyToName ::= delete (t, key) |> |>) = true) as Hmono.
  { intros t' [i|i] Hne; [done|]. rewrite !key_exists_local. simpl. intros Hs.
    rewrite lookup_delete_ne; [done|congruence]. }
  destruct Hok as [H1 H2 H3 H4 H5 H6 H7 H8 H9 H10 H11].
  constructor; simpl; try done.
  - intros t' n k. rewrite !lookup_delete.
    destruct (decide ((t, name) = (t', n))), (decide ((t, key) = (t', k))); simplify_eq; try done.
    + split; [done|]. intros Hc. apply H1 in Hc, Hk. congruence.
    + split; [|done]. intros Hc%H1. congruence.
  - intros t' k. rewrite !lookup_delete. case_decide; [by split; intros []|apply H2].
  - intros t' k. rewrite lookup_delete. case_decide; [by intros []|apply H3].
  - intros t' k. rewrite lookup_delete. case_decide; [by intros []|]. intros Hs. by apply Hmono, H7.
  - intros t' k. rewrite lookup_delete. case_decide; [by intros []|]. intros Hs. by apply Hmono, H8.
  - intros t' k d. rewrite !lookup_delete. case_decide; [done|]. apply H9.
  - intros t' c k Hc Hin. apply Hmono; [|by eapply H11]. intros [= <- <-].
    unfold Nft.is_collection_key in Hnft. rewrite Hc in Hnft. by apply bool_decide_eq_false in Hnft.
Qed.

Lemma change_catalog_ok w w' : change w w' → catalog_ok w → catalog_ok w'.
Proof.
  intros H Hok. destruct H.
  - destruct H0 as (e & x & m & ->). destruct Hok. by constructor.
  - destruct H as (e & x & m & ->). destruct Hok. by constructor.
  - by eapply change_set_ok.
  - by eapply change_details_ok.
  - by eapply change_local_ok.
  - by eapply change_global_ok.
  - by eapply change_forget_ok.
  - by eapply change_unset_ok.
Qed.

Lemma dispatch_catalog_ok o c w w' :
  catalog_ok w → dispatch o c w = (Ok tt, w') → catalog_ok w'.
Proof.
  intros Hok H%dispatch_changes. induction H as [|w1 w2 w3 H _ IH]; [done|].
  by eapply IH, change_catalog_ok.
Qed.

(* ------------------------------------------------------------------ *)
(** ** Locks *)

(** While the value of a key is locked no change touches it. *)
Lemma change_locked t k w w' :
  change w w' → is_asset_metadata_locked t k w = true →
  AssetMetadataValues (asset w') !! (t, k) = AssetMetadataValues (asset w) !! (t, k) ∧
  AssetMetadataValueDetails (asset w') !! (t, k) = AssetMetadataValueDetails (asset w) !! (t, k) ∧
  now w' = now w.
Proof.
  intros H Hl.
  destruct H as
    [t' docs w w' pre n Hle (e & x & m & ->)|t' ids w w' (e & x & m & ->)
    |t' k' v d w w' Hk Hf (e & x & m & ->)|t' k' d w w' Hk Hf Hd (e & x & m & ->)
    |t' n s w w' key Hn (e & x & m & ->)|n s w w' key Hn (e & x & m & ->)
    |t' key n w w' Hk Hf Hc (e & x & m & ->)|t' k' w w' Hf (e & x & m & ->)]; simpl; try done.
  - assert ((t', k') ≠ (t, k)) as Hne by (intros [= -> ->]; congruence).
    split_and!; [by rewrite lookup_insert_ne| |done].
    destruct d; simpl; by rewrite ?lookup_insert_ne by done.
  - assert ((t', k') ≠ (t, k)) as Hne by (intros [= -> ->]; congruence).
    by rewrite lookup_insert_ne.
  - assert ((t', LocalKey key) ≠ (t, k)) as Hne by (intros [= -> <-]; congruence).
    by rewrite !lookup_delete_ne.
  - assert ((t', k') ≠ (t, k)) as Hne by (intros [= -> ->]; congruence).
    by rewrite !lookup_delete_ne.
Qed.

Lemma dispatch_locked o c t k w w' :
  dispatch o c w = (Ok tt, w') → is_asset_metadata_locked t k w = true →
  AssetMetadataValues (asset w') !! (t, k) = AssetMetadataValues (asset w) !! (t, k) ∧
  AssetMetadataValueDetails (asset w') !! (t, k) = AssetMetadataValueDetails (asset w) !! (t, k).
Proof.
  intros H%dispatch_changes. induction H as [|w1 w2 w3 H _ IH]; [done|]. intros Hl.
  apply (change_locked t k) in H as (E1 & E2 & E3); [|done]. rewrite <- E1, <- E2. apply IH.
  unfold is_asset_metadata_locked in *. by rewrite E2, E3.
Qed.

(* ------------------------------------------------------------------ *)
(** ** Documents *)

(** The ids in use are below the counter. *)
Definition documents_ok (w : World) : Prop :=
  ∀ t i, is_Some (AssetDocuments (asset w) !! (t, i)) →
    i < getd 0 (AssetDocumentsIdSequence (asset w)) t.

(** Documents are found under consecutive ids. *)
Lemma put_documents_lookup t docs pre m t' i :
  pre + Base.len docs ≤ u32_max →
  put_documents t (zip_ids pre docs) m !! (t', i) =
    if decide (t' = t ∧ pre ≤ i < pre + Base.len docs) then docs !! N.to_nat (i - pre)
    else m !! (t', i).
Proof.
  unfold put_documents, Base.len. revert pre m.
  induction docs as [|doc docs IH]; intros pre m Hle; simpl.
  { case_decide; [lia|done]. }
  cbn [length] in Hle. rewrite wrapping_add_small by lia. rewrite IH by lia.
  rewrite lookup_insert.
  destruct (decide (t' = t)) as [->|]; [|rewrite !decide_False by naive_solver; done].
  destruct (decide (i = pre)) as [->|].
  { rewrite decide_False by (naive_solver lia). rewrite !decide_True by (naive_solver lia). by rewrite N.sub_diag. }
  rewrite (decide_False (P := (t, pre) = (t, i))) by congruence.
  destruct (decide (pre + 1 ≤ i < pre + N.of_nat (S (length docs)))).
  - rewrite !decide_True by (naive_solver lia).
    replace (N.to_nat (i - pre)) with (S (N.to_nat (i - (pre + 1)))) by lia. done.
  - rewrite !decide_False by (naive_solver lia). done.
Qed.

(** Adding documents numbers them on from the counter and keeps those that are
    there. *)
Theorem documents_are_numbered o docs t w w' :
  documents_ok w → Base.len docs ≤ u32_max →
  add_documents o docs t w = (Ok tt, w') →
  let pre := getd 0 (AssetDocumentsIdSequence (asset w)) t in
  documents_ok w' ∧
  (∀ j doc, docs !! j = Some doc → AssetDocuments (asset w') !! (t, pre + N.of_nat j) = Some doc) ∧
  (∀ t' i doc, AssetDocuments (asset w) !! (t', i) = Some doc →
     AssetDocuments (asset w') !! (t', i) = Some doc).
Proof.
  intros Hok Hlen H. unfold add_documents, on_asset in H. ok_inv.
  match goal with H : checked_add _ _ _ = Some _ |- _ =>
    apply checked_add_Some in H as [-> Hle] end.
  match goal with H : external _ _ = _ |- _ => apply external_Ok in H as (y & m & ->) end.
  apply put_documents_Ok in H as (e & y' & m' & ->). simpl.
  rewrite N.mod_small in Hle |- * by lia. split_and!.
  - intros t' i. simpl. rewrite put_documents_lookup by done. rewrite getd_insert.
    repeat case_decide; subst; try lia.
    + naive_solver.
    + intros Hs%Hok. lia.
    + intros Hs%Hok. done.
  - intros j doc Hj. pose proof (lookup_lt_Some _ _ _ Hj). unfold Base.len in *.
    rewrite put_documents_lookup by done. rewrite decide_True by (split; [done|unfold Base.len; lia]).
    by replace (N.to_nat _) with j by lia.
  - intros t' i doc Hd. rewrite put_documents_lookup by done.
    pose proof (Hok t' i ltac:(by eexists)). rewrite decide_False; [done|]. naive_solver lia.
Qed.

(* ------------------------------------------------------------------ *)
(** ** The calls of the other pallets *)

Lemma catalog_same_stores w w' :
  asset w' = asset w → collections (nft w') = collections (nft w) → catalog_same w w'.
Proof. intros E E'. split; congruence. Qed.

Lemma register_ticker_catalog t d e w w' :
  Asset.unverified_register_ticker t d e w = (Ok tt, w') → catalog_same w w'.
Proof.
  unfold Asset.unverified_register_ticker, on_asset, deposit_event. intros H. ok_inv.
  destruct (Tickers (asset w) !! t); ok_inv; done.
Qed.

Lemma create_asset_catalog d sk name t div ty ids round w r w' :
  Asset.unsafe_create_asset d sk name t div ty ids round w = (Ok r, w') → catalog_same w w'.
Proof.
  unfold Asset.unsafe_create_asset, Asset.unverified_update_idents, on_asset, deposit_event.
  intros H. ok_inv.
  match goal with H : external _ _ = _ |- _ => apply external_Ok in H as (x' & m' & ->) end.
  match goal with H : (if ?b then Asset.unverified_register_ticker _ _ _ else _) _ = (_, ?w1) |- _ =>
    assert (catalog_same w w1) as Hc
      by (destruct b; [by apply register_ticker_catalog in H|by ok_inv]) end.
  match goal with H : Agents.unchecked_add_agent _ _ _ _ = _ |- _ =>
    apply Agents.unchecked_add_agent_Ok in H as [(EA & _ & _ & EN & _) _] end.
  destruct round; ok_inv; (etrans; [exact Hc|]); split; rewrite ?EA, ?EN; done.
Qed.

Lemma custom_type_catalog d ty w id w' :
  Asset.unsafe_register_custom_asset_type d ty w = (Ok id, w') → catalog_same w w'.
Proof.
  unfold Asset.unsafe_register_custom_asset_type, on_asset, deposit_event. intros H. ok_inv.
  destruct (CustomTypesInverse (asset w) !! ty); ok_inv; destruct_product; ok_inv; done.
Qed.

Lemma unsafe_transfer_catalog from to t value iid memo caller w w' :
  Asset.unsafe_transfer from to t value iid memo caller w = (Ok tt, w') → catalog_same w w'.
Proof.
  intros (_ & _ & _ & _ & _ & _ & EA & _ & Hu)%Asset.unsafe_transfer_Ok.
  destruct Hu as (_ & _ & _ & _ & _ & EN & _). split; by rewrite ?EA, ?EN.
Qed.

Lemma asset_moves_catalog o c w w' :
  Asset.moves_balance c = true → Asset.dispatch o c w = (Ok tt, w') → catalog_same w w'.
Proof.
  intros Hm H. destruct c; try done; simpl in H.
  - unfold Asset.issue, set_meter in H. ok_inv.
    apply Asset.mint_Ok in H as (token & _ & _ & _ & _ & _ & EA & _ & Hu).
    destruct Hu as (_ & _ & _ & _ & _ & EN & _). split; by rewrite ?EA, ?EN.
  - unfold Asset.redeem, set_meter in H. ok_inv.
    apply Asset.base_redeem_Ok in H as (pid & token & _ & _ & _ & _ & _ & _ & EA & _ & Hu).
    destruct Hu as (_ & _ & _ & _ & _ & EN & _). split; by rewrite ?EA, ?EN.
  - unfold Asset.redeem_from_portfolio, set_meter in H. ok_inv.
    apply Asset.base_redeem_Ok in H as (pid & token & _ & _ & _ & _ & _ & _ & EA & _ & Hu).
    destruct Hu as (_ & _ & _ & _ & _ & EN & _). split; by rewrite ?EA, ?EN.
  - unfold Asset.controller_transfer, set_meter, deposit_event in H. ok_inv.
    match goal with H : Asset.unsafe_transfer _ _ _ _ _ _ _ _ = _ |- _ =>
      apply unsafe_transfer_catalog in H end. done.
Qed.

Lemma asset_catalog o c w w' : Asset.dispatch o c w = (Ok tt, w') → catalog_same w w'.
Proof.
  intros H. destruct (Asset.moves_balance c) eqn:Hm; [by eapply asset_moves_catalog|].
  destruct c; try done; simpl in H;
    unfold Asset.register_ticker, Asset.accept_ticker_transfer,
      Asset.accept_asset_ownership_transfer, Asset.create_asset, Asset.register_custom_asset_type,
      Asset.create_asset_with_custom_type, Asset.set_freeze, Asset.rename_asset,
      Asset.make_divisible, Asset.set_funding_round, Asset.update_identifiers,
      Asset.unverified_update_idents, Asset.update_asset_type, Asset.exempt_ticker_affirmation,
      Asset.remove_ticker_affirmation_exemption, Asset.pre_approve_ticker,
      Asset.remove_ticker_pre_approval, Asset.add_mandatory_mediators,
      Asset.remove_mandatory_mediators, Asset.transfer_ticker, on_asset, deposit_event in H;
    ok_inv; try done.
  - match goal with H : external _ _ = _ |- _ => apply external_Ok in H as (x' & m' & ->) end.
    by apply register_ticker_catalog in H.
  - apply Identity.accept_auth_with_Ok in H as (auth & w1 & _ & _ & H & ->).
    by destruct (authorization_data auth); ok_inv.
  - apply Identity.accept_auth_with_Ok in H as (auth & w1 & _ & _ & H & ->).
    by destruct (authorization_data auth); ok_inv.
  - by eapply create_asset_catalog.
  - by eapply custom_type_catalog.
  - etrans; [by eapply custom_type_catalog|by eapply create_asset_catalog].
  - destruct freeze; by ok_inv.
Qed.

Lemma move_funds_catalog o from to funds w w' :
  Portfolio.move_portfolio_funds o from to funds w = (Ok tt, w') → catalog_same w w'.
Proof.
  unfold Portfolio.move_portfolio_funds, Portfolio.unchecked_move_funds. intros H. ok_inv.
  clear -H. revert w H. induction funds as [|f funds IH]; intros w H; simpl in H; ok_inv; [done|].
  etrans; [|by eapply IH]. clear H IH.
  match goal with H : Portfolio.unchecked_move_fund _ _ _ _ _ = _ |- _ =>
    unfold Portfolio.unchecked_move_fund, deposit_event in H; rename H into Hm end.
  destruct (description f) as [t amount|nfts]; ok_inv.
  - match goal with H : Portfolio.unchecked_transfer_portfolio_balance _ _ _ _ _ = _ |- _ =>
      rewrite Portfolio.unchecked_transfer_eq in H; injection H as <- end. done.
  - match goal with H : for_each _ _ w = _ |- _ =>
      apply Nft.move_nfts_Ok in H as (_ & Hn & Hu) end.
    destruct Hu as (_ & _ & _ & _ & _ & EA & _). split; simpl; by rewrite ?EA, ?Hn.
Qed.

Lemma portfolio_catalog o c w w' :
  Portfolio.balances_ok (portfolio w) → Portfolio.dispatch o c w = (Ok tt, w') →
  catalog_same w w'.
Proof.
  intros Hb H.
  assert ((∃ from to funds, c = Portfolio.MovePortfolioFunds from to funds) ∨
    ∀ from to funds, c ≠ Portfolio.MovePortfolioFunds from to funds)
    as [(from & to & funds & ->)|Hno] by (destruct c; solve [left; eauto | by right]).
  - by eapply move_funds_catalog.
  - destruct (Portfolio.dispatch_frame o c w w' Hb H Hno) as (EA & _ & EN & _).
    split; congruence.
Qed.

Lemma nfts_transfer_catalog from to nfts w w' :
  Nft.unverified_nfts_transfer from to nfts w = (Ok tt, w') → catalog_same w w'.
Proof.
  intros (_ & EN & Hu)%Nft.unverified_nfts_transfer_Ok.
  destruct Hu as (_ & _ & _ & _ & _ & EA & _). split; by rewrite ?EA, ?EN.
Qed.

(** A new collection requires keys that exist. *)
Lemma create_collection_catalog_ok o t ty keys w w' :
  catalog_ok w → Nft.create_nft_collection o t ty keys w = (Ok tt, w') → catalog_ok w'.
Proof.
  intros Hok H. unfold Nft.create_nft_collection, on_nft, deposit_event in H. ok_inv.
  destruct_product. ok_inv. destruct_product. ok_inv.
  match goal with H : Base.try_next_pre _ _ = _ |- _ =>
    apply Base.try_next_pre_Ok in H as (-> & -> & _) end.
  match goal with H : for_check _ _ = Ok _ |- _ => rename H into Hkeys end.
  match goal with H : has_key (CollectionTicker _) _ = false |- _ => rename H into Hnew end.
  match goal with H : (if ?b then _ else _) w = (_, ?w1) |- _ =>
    assert (catalog_same w w1) as Hs; [destruct b; [unfold Asset.create_asset in H|]; ok_inv|] end;
    [by eapply create_asset_catalog|done|].
  assert (∀ k, k ∈ (list_to_set keys : gset AssetMetadataKey) →
    Asset.check_asset_metadata_key_exists t k w = true) as Hex.
  { intros k Hk. rewrite for_check_Ok in Hkeys.
    by apply (ensure_Ok _ (ENft UnregisteredMetadataKey) tt), Hkeys, elem_of_elements. }
  pose proof (catalog_ok_same _ _ Hs Hok) as Hok1.
  match type of Hok1 with catalog_ok ?w1 =>
    assert (∀ t k, Asset.check_asset_metadata_key_exists t k w1 =
      Asset.check_asset_metadata_key_exists t k w) as Ek
      by (destruct Hs as [[= E1 E2 E3 E4 E5 E6 E7 E8 E9 E10 E11 E12] _]; intros ? []; simpl; congruence);
    assert (CollectionTicker (nft w1) !! t = None) as Hnone
      by (destruct Hs as [_ [= -> _ _ _]]; by apply has_key_false);
    revert Hok1 Ek Hnone; clear -Hex; generalize w1; intros w1' [H1 H2 H3 H4 H5 H6 H7 H8 H9 H10 H11] Ek Hnone
  end.
  constructor; simpl; try done.
  - intros t' c. rewrite !lookup_insert. case_decide.
    { intros [= <-]. subst. rewrite decide_True by done. split; [lia|done]. }
    intros Hc. destruct (H10 t' c Hc) as [Hle HC]. rewrite decide_False by lia. split; [lia|done].
  - intros t' c k. rewrite lookup_insert, getd_insert. case_decide.
    { intros [= <-] Hk. subst. rewrite decide_True in Hk by done.
      transitivity (Asset.check_asset_metadata_key_exists t' k w1'); [done|]. rewrite Ek. by apply Hex. }
    intros Hc. destruct (H10 t' c Hc) as [Hle _]. rewrite decide_False by lia.
    intros Hk. by apply (H11 t' c k Hc).
Qed.

Lemma nft_catalog_ok o c w w' :
  catalog_ok w → Nft.dispatch o c w = (Ok tt, w') → catalog_ok w'.
Proof.
  intros Hok H. destruct c; simpl in H; [by eapply create_collection_catalog_ok|..];
    apply (catalog_ok_same w); try done.
  - unfold Nft.issue_nft, on_nft, on_portfolio, deposit_event in H. ok_inv. destruct_product.
    by ok_inv.
  - unfold Nft.redeem_nft, on_nft, on_portfolio, deposit_event in H. by ok_inv.
  - unfold Nft.controller_transfer, deposit_event in H. ok_inv.
    match goal with H : Nft.unverified_nfts_transfer _ _ _ _ = _ |- _ =>
      apply nfts_transfer_catalog in H end. done.
Qed.

(** No call on NFTs touches the values of the metadata. *)
Lemma nft_values o c w w' :
  Nft.dispatch o c w = (Ok tt, w') → catalog (asset w') = catalog (asset w).
Proof.
  intros H. destruct c; simpl in H.
  - unfold Nft.create_nft_collection, on_nft, deposit_event in H. ok_inv.
    destruct_product. ok_inv. destruct_product. ok_inv.
    match goal with H : (if ?b then _ else _) w = _ |- _ => destruct b; [|by ok_inv] end.
    unfold Asset.create_asset in *. ok_inv. simpl.
    match goal with H : Asset.unsafe_create_asset _ _ _ _ _ _ _ _ _ = _ |- _ =>
      by apply create_asset_catalog in H as [? _] end.
  - unfold Nft.issue_nft, on_nft, on_portfolio, deposit_event in H. ok_inv. destruct_product.
    by ok_inv.
  - unfold Nft.redeem_nft, on_nft, on_portfolio, deposit_event in H. by ok_inv.
  - unfold Nft.controller_transfer, deposit_event in H. ok_inv.
    match goal with H : Nft.unverified_nfts_transfer _ _ _ _ = _ |- _ =>
      apply nfts_transfer_catalog in H as [? _] end. done.
Qed.
End metadata.
End Metadata.
