(* ===== verification/Ledger.v ===== *)
(** The ledger: the invariant that ties the asset, portfolio, checkpoint, NFT
    and agent stores together, and the lemmas that the operations on balances
    keep it and keep the history of balances. *)

From stdpp Require Import base numbers list gmap sets strings.
From S2P Require Import Prelude Subset AssetIdentifier Types SettlementTypes Schedules State.
From S2P Require Import Identity Agents Portfolio Checkpoint Asset Nft.

Local Open Scope N_scope.

Module Ledger.
(** The invariant of the chain's books. *)
Record ledger_ok (w : World) : Prop := {
  ok_agents : Agents.agents_ok (agents w);
  ok_agents_assets : ∀ t, Agents.has_agent (agents w) t → is_Some (Tokens (asset w) !! t);
  ok_portfolio : Portfolio.portfolio_ok (portfolio w);
  ok_checkpoint : Checkpoint.checkpoint_ok (checkpoint w);
  ok_supplies : Asset.supply_ok w;
  ok_nft : Nft.nft_ok w;
}.

Section ledger.
Context {RT : Runtime} {EX : Externals}.

(** The balances of a holder, as the checkpoints see a change of them: what
    was recorded is the balance from before the change, for everyone whose
    balance changes. *)
Lemma checkpointed_history (t : Ticker) (old : list (IdentityId * Balance)) (w w' : World) :
  Checkpoint.checkpoint_ok (checkpoint w) → Asset.checkpointed t old w w' →
  (∀ d b, (d, b) ∈ old → b = Asset.balance_of t d w) →
  (∀ t' d, t' ≠ t ∨ d ∉ old.*1 → Asset.balance_of t' d w' = Asset.balance_of t' d w) →
  Checkpoint.checkpoint_ok (checkpoint w') ∧ Checkpoint.keeps_history w w'.
Proof.
  intros Hok (w0 & w1 & Hc0 & Ha0 & _ & Hadv & Hc1) Hold Hnew.
  destruct (Checkpoint.advance_update_balances_history t old w0 w1 (BalanceOf (asset w')))
    as (Hok1 & Hle & (s & e & Hw1) & Hview).
  - by rewrite Hc0.
  - done.
  - rewrite Ha0. exact Hold.
  - rewrite Ha0. exact Hnew.
  - rewrite <- Hc1 in *. split; [done|]. intros t' cp Hex.
    assert (Checkpoint.last_cp t' w ≤ Checkpoint.last_cp t' w') as Hl.
    { specialize (Hle t'). unfold Checkpoint.last_cp in *. by rewrite Hc0, <- Hc1 in Hle. }
    assert (Checkpoint.checkpoint_exists t' cp w1 = true) as Hex1.
    { unfold Checkpoint.checkpoint_exists, Checkpoint.last_cp in *. rewrite <- Hc1.
      ok_inv. rewrite !bool_decide_eq_true_2 by lia. done. }
    split.
    { unfold Checkpoint.checkpoint_exists, Checkpoint.last_cp in *. by rewrite Hc1. }
    intros d. rewrite (Hview t' d cp Hex1).
    assert (Checkpoint.checkpoint_exists t' cp w0 = true) as ->.
    { unfold Checkpoint.checkpoint_exists, Checkpoint.last_cp in *. by rewrite Hc0. }
    by rewrite Hc0, Ha0.
Qed.

(** What an operation on fungible balances leaves alone. *)
Lemma ledger_ok_untouched w w' :
  ledger_ok w → untouched w w' → PortfolioNFT (portfolio w') = PortfolioNFT (portfolio w) →
  (∀ t, is_Some (Tokens (asset w) !! t) → is_Some (Tokens (asset w') !! t)) →
  Portfolio.portfolio_ok (portfolio w') → Checkpoint.checkpoint_ok (checkpoint w') →
  Asset.supply_ok w' → ledger_ok w'.
Proof.
  intros [Ha Hat _ _ _ Hn] (_ & _ & _ & _ & HA & HN & _) HP HT Hp Hc Hs.
  constructor; try done.
  - by rewrite HA.
  - rewrite HA. intros t Ht. by apply HT, Hat.
  - by apply (Nft.nft_ok_frame w).
Qed.

Lemma put_balance_portfolio_ok p t new s :
  Portfolio.portfolio_ok s → new ≤ u128_max →
  getd 0 (PortfolioLockedAssets s) (p, t) ≤ new →
  Portfolio.balances_fit (Portfolio.put_balance p t new s) →
  Portfolio.portfolio_ok (Portfolio.put_balance p t new s).
Proof.
  intros [Hb [] Hc] Hnew Hl Hfit. constructor; [by apply Portfolio.put_balance_ok|by constructor|done].
Qed.

Lemma put_transfer_portfolio_ok from to t amount s :
  from ≠ to → Portfolio.portfolio_ok s →
  getd 0 (PortfolioLockedAssets s) (from, t) + amount ≤
    getd 0 (PortfolioAssetBalances s) (from, t) →
  Portfolio.balances_fit (Portfolio.put_transfer from to t amount s) →
  Portfolio.portfolio_ok (Portfolio.put_transfer from to t amount s).
Proof.
  intros Hne [Hb [] Hc] Hl Hfit.
  constructor; [by apply Portfolio.put_transfer_ok|by constructor|done].
Qed.

(** A transfer keeps the books and the history. *)
Lemma unsafe_transfer_ledger from to t value iid memo caller w w' :
  ledger_ok w → Portfolio.balances_fit (portfolio w') →
  Asset.unsafe_transfer from to t value iid memo caller w = (Ok tt, w') →
  ledger_ok w' ∧ Checkpoint.keeps_history w w'.
Proof.
  intros Hok Hfit H.
  pose proof (Asset.unsafe_transfer_supply_ok _ _ _ _ _ _ _ _ _ (ok_supplies _ Hok)
    (Portfolio.ok_balances _ (ok_portfolio _ Hok)) H) as Hsup.
  apply Asset.unsafe_transfer_Ok in H
    as (_ & Hne & Hval & Hmax & Hsuf & (w1 & Hadv & Hc) & Ha & Hp & Hu).
  destruct (checkpointed_history t
    [(did from, Asset.balance_of t (did from) w); (did to, Asset.balance_of t (did to) w)] w w')
    as [Hcp Hh].
  - apply Hok.
  - by exists w, w1.
  - intros d b. rewrite !elem_of_cons, elem_of_nil. naive_solver.
  - intros t' d Hd. unfold Asset.balance_of. rewrite Ha. simpl.
    rewrite !getd_insert_ne; [done|..]; intros He; simplify_eq; destruct Hd as [?|Hd];
      try done; apply Hd; simpl; rewrite !elem_of_cons; naive_solver.
  - split; [|done]. apply (ledger_ok_untouched w); try done.
    + by rewrite Hp.
    + by rewrite Ha.
    + rewrite Hp in *. apply put_transfer_portfolio_ok; [naive_solver|apply Hok| |done].
      apply Portfolio.ensure_sufficient_balance_Ok in Hsuf as [_ Hsuf].
      pose proof (Portfolio.ok_locked _ (Portfolio.ok_balances _ (ok_portfolio _ Hok)) (from, t)) as Hl.
      unfold Portfolio.locked_assets, Portfolio.portfolio_asset_balances in Hsuf.
      destruct (decide (0 < value)) as [Hpos|]; [specialize (Hsuf Hpos)|]; lia.
Qed.

Lemma mint_ledger t issuer value fee w w' :
  ledger_ok w → Portfolio.balances_fit (portfolio w') →
  Asset.mint t issuer value fee w = (Ok tt, w') →
  ledger_ok w' ∧ Checkpoint.keeps_history w w'.
Proof.
  intros Hok Hfit H.
  pose proof (Asset.mint_supply_ok _ _ _ _ _ _ (ok_supplies _ Hok) H) as Hsup.
  apply Asset.mint_Ok in H as (token & Htok & _ & Hmax & _ & Hcp & Ha & Hp & Hu).
  destruct (checkpointed_history t [(did issuer, Asset.balance_of t (did issuer) w)] w w')
    as [Hc Hh]; [apply Hok|done|..].
  { intros d b. rewrite list_elem_of_singleton. naive_solver. }
  { intros t' d Hd. unfold Asset.balance_of. rewrite Ha. simpl.
    rewrite getd_insert_ne; [done|]. intros He. simplify_eq. destruct Hd as [?|Hd]; [done|].
    apply Hd. by left. }
  split; [|done]. apply (ledger_ok_untouched w); try done.
  - by rewrite Hp.
  - rewrite Ha. simpl. intros t' Ht. rewrite lookup_insert. by case_decide.
  - rewrite Hp in *. destruct (Asset.supply_bounds w (ok_supplies _ Hok)) as [Hb1 Hb2].
    specialize (Hb1 t (did issuer)). specialize (Hb2 t issuer).
    pose proof (Asset.ok_max _ (ok_supplies _ Hok) t) as Hm. pose proof Asset.max_supply_fits.
    assert (Asset.supply t w = total_supply token) as Hs
      by (unfold Asset.supply; by rewrite Htok).
    pose proof (Portfolio.ok_locked _ (Portfolio.ok_balances _ (ok_portfolio _ Hok)) (issuer, t)) as Hl.
    unfold Portfolio.portfolio_asset_balances in *.
    rewrite wrapping_add_small in * by lia.
    apply put_balance_portfolio_ok; [apply Hok|lia|lia|done].
Qed.

Lemma base_redeem_ledger o t value k w w' :
  ledger_ok w → Portfolio.balances_fit (portfolio w') →
  Asset.base_redeem o t value k w = (Ok tt, w') →
  ledger_ok w' ∧ Checkpoint.keeps_history w w'.
Proof.
  intros Hok Hfit H.
  pose proof (Asset.base_redeem_supply_ok _ _ _ _ _ _ (ok_supplies _ Hok) H) as Hsup.
  apply Asset.base_redeem_Ok in H
    as (pid & token & _ & Htok & _ & Hmax & Hfree & Hcp & Ha & Hp & Hu).
  destruct (checkpointed_history t [(did pid, Asset.balance_of t (did pid) w)] w w')
    as [Hc Hh]; [apply Hok|done|..].
  { intros d b. rewrite list_elem_of_singleton. naive_solver. }
  { intros t' d Hd. unfold Asset.balance_of. rewrite Ha. simpl.
    rewrite getd_insert_ne; [done|]. intros He. simplify_eq. destruct Hd as [?|Hd]; [done|].
    apply Hd. by left. }
  split; [|done]. apply (ledger_ok_untouched w); try done.
  - by rewrite Hp.
  - rewrite Ha. simpl. intros t' Ht. rewrite lookup_insert. by case_decide.
  - rewrite Hp in *.
    pose proof (Portfolio.ok_width _ (Portfolio.ok_balances _ (ok_portfolio _ Hok)) (pid, t)) as Hw.
    unfold Portfolio.portfolio_asset_balances, Portfolio.locked_assets in *.
    apply put_balance_portfolio_ok; [apply Hok|lia|lia|done].
Qed.

(* ------------------------------------------------------------------ *)
(** ** The calls of each pallet *)

Lemma agents_ledger o c w w' :
  ledger_ok w → Agents.dispatch o c w = (Ok tt, w') →
  ledger_ok w' ∧ Checkpoint.keeps_history w w'.
Proof.
  intros [Ha Hat Hp Hc Hs Hn] H.
  pose proof (Agents.agents_dispatch_frame o c w w' H) as [(EA & EP & EC & EN & _) Ht].
  pose proof (Agents.dispatch_update o c w w' Ha H) as Hu.
  split.
  - constructor.
    + by eapply Agents.updates_ok.
    + intros t Hag. rewrite EA. by apply Hat, Ht.
    + by rewrite EP.
    + by rewrite EC.
    + apply (Asset.supply_ok_ext w); [done|..]; unfold Asset.supply; rewrite ?EA, ?EP; done.
    + apply (Nft.nft_ok_frame w); [done..|by rewrite EP].
  - apply Checkpoint.quiet_history.
    constructor; unfold Checkpoint.last_cp; rewrite ?EA, ?EC; try done; lia.
Qed.

Lemma checkpoint_ledger o c w w' :
  ledger_ok w → Checkpoint.dispatch o c w = (Ok tt, w') →
  ledger_ok w' ∧ Checkpoint.keeps_history w w'.
Proof.
  intros [Ha Hat Hp Hc Hs Hn] (Hq & EA & EP & EG & EN & _)%Checkpoint.dispatch_quiet.
  split; [|by apply Checkpoint.quiet_history]. constructor; rewrite ?EA, ?EP, ?EG; try done.
  - by apply (Checkpoint.quiet_ok w).
  - apply (Asset.supply_ok_ext w); [done|..]; unfold Asset.supply; rewrite ?EA, ?EP; done.
  - apply (Nft.nft_ok_frame w); [done..|by rewrite EP].
Qed.

(** The administrative calls of the asset pallet. *)
Lemma administrative_ledger w w' :
  ledger_ok w → Asset.administrative w w' → ledger_ok w' ∧ Checkpoint.keeps_history w w'.
Proof.
  intros [Ha Hat Hp Hc Hs Hn] [HS HT HB EP EC EN _ HG]. split.
  - assert (Agents.agents_ok (agents w') ∧
      ∀ t, Agents.has_agent (agents w') t → is_Some (Tokens (asset w') !! t)) as [Ha' Hat'].
    { destruct HG as [->|(t & d & Hnone & Hsome & HG & Hu)].
      { split; [done|]. intros t Ht. by apply HT, Hat. }
      split.
      - eapply Agents.update_ok; [exact Ha|]. apply Hu.
        destruct (GroupOfAgent (agents w) !! (t, d)) as [g|] eqn:Hg; [|done].
        destruct (Hat t) as [? ?]; [by exists d, g|congruence].
      - intros t' [d' Hd']. rewrite HG, lookup_insert in Hd'. case_decide; simplify_eq; [done|].
        apply HT, Hat. by exists d'. }
    constructor; rewrite ?EP, ?EC; try done.
    + apply (Asset.supply_ok_ext w); [done|done|done|by rewrite EP].
    + apply (Nft.nft_ok_frame w); [done..|by rewrite EP].
  - apply Checkpoint.quiet_history.
    constructor; unfold Checkpoint.last_cp; rewrite ?EC; try done; lia.
Qed.

Lemma ledger_ok_meter w m : ledger_ok w → ledger_ok (w <| meter := m |>).
Proof.
  intros [Ha Hat Hp Hc Hs Hn]. constructor; try done.
  - by apply (Asset.supply_ok_ext w).
  - by apply (Nft.nft_ok_frame w).
Qed.

Lemma asset_ledger o c w w' :
  ledger_ok w → Portfolio.balances_fit (portfolio w') →
  Asset.dispatch o c w = (Ok tt, w') →
  ledger_ok w' ∧ Checkpoint.keeps_history w w'.
Proof.
  intros Hok Hfit H. destruct (Asset.moves_balance c) eqn:Hm;
    [|apply administrative_ledger; [done|]; by eapply Asset.dispatch_administrative].
  destruct c; try done; simpl in H.
  - unfold Asset.issue, set_meter in H. ok_inv.
    by apply mint_ledger in H; [|by apply ledger_ok_meter|].
  - unfold Asset.redeem, set_meter in H. ok_inv.
    by apply base_redeem_ledger in H; [|by apply ledger_ok_meter|].
  - unfold Asset.redeem_from_portfolio, set_meter in H. ok_inv.
    by apply base_redeem_ledger in H; [|by apply ledger_ok_meter|].
  - unfold Asset.controller_transfer, set_meter, deposit_event in H. ok_inv.
    match goal with H : Asset.unsafe_transfer _ _ _ _ _ _ _ _ = _ |- _ =>
      apply unsafe_transfer_ledger in H as [[Ha Hat Hp Hc Hs Hn] Hh];
        [|by apply ledger_ok_meter|done] end.
    split; [|done]. constructor; try done.
    + by eapply Asset.supply_ok_ext.
    + by eapply Nft.nft_ok_frame.
Qed.

Lemma portfolio_ledger o c w w' :
  ledger_ok w → Portfolio.store_fits (portfolio w) → Portfolio.balances_fit (portfolio w') →
  Portfolio.dispatch o c w = (Ok tt, w') →
  ledger_ok w' ∧ Checkpoint.keeps_history w w'.
Proof.
  intros [Ha Hat Hp Hc Hs Hn] Hfit Hfit' H.
  pose proof (Portfolio.dispatch_ok o c w w' Hp Hfit Hfit' H) as Hp'.
  pose proof (Nft.portfolio_dispatch_nft_ok o c w w' Hn (Portfolio.ok_balances _ Hp) H) as Hn'.
  assert (asset w' = asset w ∧ checkpoint w' = checkpoint w ∧ agents w' = agents w ∧
    Asset.supply_ok w') as (EA & EC & EG & Hs').
  { assert ((∃ from to funds, c = Portfolio.MovePortfolioFunds from to funds) ∨
      ∀ from to funds, c ≠ Portfolio.MovePortfolioFunds from to funds)
      as [(from & to & funds & ->)|Hno] by (destruct c; solve [left; eauto | by right]).
    - simpl in H. pose proof H as [_ (_ & _ & _ & _ & EG & EA & EC & _)]
        %(Nft.move_portfolio_funds_nft_ok _ _ _ _ _ _ Hn).
      apply Portfolio.move_portfolio_funds_Ok in H as (Hne & Hdid & _ & [Hcov _] & EP & _).
      split_and!; try done.
      eapply Asset.supply_ok_ext;
        [apply (Asset.put_funds_supply_ok from to funds w); try done| | |].
      + intros t. specialize (Hcov t). unfold Portfolio.portfolio_asset_balances.
        destruct (decide (0 < Portfolio.moved funds t)) as [Hpos|]; [specialize (Hcov Hpos)|]; lia.
      + intros t. unfold Asset.supply. by rewrite EA.
      + simpl. by rewrite EA.
      + simpl. by rewrite EP.
    - destruct (Portfolio.dispatch_frame o c w w' (Portfolio.ok_balances _ Hp) H)
        as (EA & EC & _ & _ & EG & _ & _ & EB & _); [done|].
      split_and!; try done. destruct Hs as [H1 H2 H3].
      constructor; unfold Asset.supply, Asset.balance_of in *; rewrite EA; try done.
      intros t d. rewrite H2. unfold Asset.portfolios_held. symmetry.
      apply (msum_getd_ext 0); [|done]. intros k. by case_decide. }
  split; [constructor; rewrite ?EA, ?EC, ?EG; done|].
  apply Checkpoint.quiet_history.
  constructor; unfold Checkpoint.last_cp; rewrite ?EA, ?EC; try done; lia.
Qed.

(** A step of the NFT pallet. *)
Lemma nft_step_ledger w w' m :
  ledger_ok w → Nft.nft_ok w' → Nft.untouched_by_nft w w' →
  portfolio w' = (portfolio w) <| PortfolioNFT := m |> →
  ledger_ok w' ∧ Checkpoint.keeps_history w w'.
Proof.
  intros [Ha Hat Hp Hc Hs _] Hn (_ & _ & _ & _ & EG & EA & EC & _) EP. split.
  - constructor; rewrite ?EG, ?EA, ?EC; try done.
    + rewrite EP. destruct Hp as [[] [] Hcu]. constructor; [by constructor..|done].
    + apply (Asset.supply_ok_ext w); [done|..]; unfold Asset.supply; rewrite ?EA, ?EP; done.
  - apply Checkpoint.quiet_history.
    constructor; unfold Checkpoint.last_cp; rewrite ?EA, ?EC; try done; lia.
Qed.

Lemma base_nft_transfer_ledger from to nfts id memo caller w w' :
  ledger_ok w → Nft.base_nft_transfer from to nfts id memo caller w = (Ok tt, w') →
  ledger_ok w' ∧ Checkpoint.keeps_history w w'.
Proof.
  intros Hok H. pose proof (Nft.base_nft_transfer_ok _ _ _ _ _ _ _ _ (ok_nft _ Hok) H) as Hn.
  unfold Nft.base_nft_transfer, Nft.validate_nft_transfer, deposit_event in H. ok_inv.
  match goal with H : external _ _ = _ |- _ => apply external_Ok in H as (x' & m' & ->) end.
  match goal with H : Nft.unverified_nfts_transfer _ _ _ _ = _ |- _ =>
    apply Nft.unverified_nfts_transfer_Ok in H as (HP & _ & Hu) end.
  destruct (Portfolio.put_nfts_frame from to (nfts_ticker nfts) (nfts_ids nfts) (portfolio w))
    as [m Hm]. simpl in HP. rewrite Hm in HP. by eapply nft_step_ledger.
Qed.

Lemma create_nft_collection_ledger o t ty keys w w' :
  ledger_ok w → Nft.create_nft_collection o t ty keys w = (Ok tt, w') →
  ledger_ok w' ∧ Checkpoint.keeps_history w w'.
Proof.
  intros Hok H. pose proof (Nft.create_nft_collection_ok _ _ _ _ _ _ (ok_nft _ Hok) H) as Hn.
  unfold Nft.create_nft_collection, on_nft, deposit_event in H. ok_inv.
  destruct_product. ok_inv. destruct_product. ok_inv.
  match goal with H : (if ?b then _ else _) w = (Ok _, ?w1) |- _ =>
    assert (ledger_ok w1 ∧ Checkpoint.keeps_history w w1) as [[Ha Hat Hp Hc Hs _] Hh] end.
  { match goal with H : (if ?b then _ else _) w = _ |- _ => destruct b; [|by ok_inv] end.
    unfold Asset.create_asset in *. ok_inv.
    match goal with H : Asset.unsafe_create_asset _ _ _ _ _ _ _ _ _ = _ |- _ =>
      apply Asset.unsafe_create_asset_administrative in H end.
    by apply administrative_ledger. }
  split; [|done]. constructor; try done. by eapply Asset.supply_ok_ext.
Qed.

Lemma nft_ledger o c w w' :
  ledger_ok w → Nft.dispatch o c w = (Ok tt, w') →
  ledger_ok w' ∧ Checkpoint.keeps_history w w'.
Proof.
  intros Hok H. pose proof (Nft.dispatch_nft_ok o c w w' (ok_nft _ Hok) H) as Hn.
  destruct c; simpl in H.
  - by eapply create_nft_collection_ledger.
  - apply Nft.issue_nft_Ok in H as (c & pid & _ & _ & _ & EP & _ & _ & _ & _ & _ & Hu).
    apply (nft_step_ledger w w' (PortfolioNFT (portfolio w'))); try done. by rewrite EP.
  - apply Nft.redeem_nft_Ok in H as (c & pid & _ & _ & _ & _ & EP & _ & _ & _ & _ & _ & Hu).
    apply (nft_step_ledger w w' (PortfolioNFT (portfolio w'))); try done. by rewrite EP.
  - unfold Nft.controller_transfer, deposit_event in H. ok_inv.
    match goal with H : Nft.unverified_nfts_transfer ?f ?t _ _ = _ |- _ =>
      apply Nft.unverified_nfts_transfer_Ok in H as (HP & _ & Hu);
      destruct (Portfolio.put_nfts_frame f t (nfts_ticker nfts) (nfts_ids nfts) (portfolio w))
        as [m Hm] end.
    simpl in HP. rewrite Hm in HP. by eapply nft_step_ledger.
Qed.
End ledger.
End Ledger.
