(* ===== verification/Sorting.v ===== *)
(** Sorted vectors as the pallets keep them: [slice::binary_search] with both
    of its answers, insertion at the place it names, sorting by a key and
    removing repetitions. *)

From stdpp Require Import base numbers list sets sorting.
From S2P Require Import Prelude Checkpoint.

Local Open Scope N_scope.

Module Sorting.
Import Checkpoint.

(** [Result<usize, usize>] of [binary_search]: [inl] where the key is, [inr]
    where it would have to be inserted. *)
Fixpoint find (fuel : nat) (arr : list N) (key : N) (left right : nat) : nat + nat :=
  match fuel with
  | O => inr left
  | S fuel =>
      if decide (left < right)%nat then
        let mid := (left + (right - left) / 2)%nat in
        match arr !! mid with
        | Some x =>
            if decide (x = key) then inl mid
            else if decide (x < key) then find fuel arr key (S mid) right
            else find fuel arr key left mid
        | None => inr left
        end
      else inr left
  end.

Definition binary_search_by_key {A : Type} (f : A → N) (l : list A) (key : N) : nat + nat :=
  find (length l) (f <$> l) key 0 (length l).
Definition binary_search (l : list N) (key : N) : nat + nat := binary_search_by_key id l key.

(** [Vec::insert] and [Vec::remove]. *)
Definition vec_insert {A : Type} (i : nat) (x : A) (l : list A) : list A :=
  take i l ++ x :: drop i l.
Definition vec_remove {A : Type} (i : nat) (l : list A) : list A := delete i l.

(** [Vec::swap_remove]. *)
Definition swap_remove {A : Type} (i : nat) (l : list A) : list A :=
  match last l with
  | Some x => <[i := x]> (take (length l - 1) l)
  | None => []
  end.

Lemma swap_remove_perm {A} (l : list A) i x :
  l !! i = Some x → l ≡ₚ x :: swap_remove i l.
Proof.
  intros Hi. unfold swap_remove. destruct l as [|y l _] using rev_ind; [done|].
  rewrite last_snoc, length_app, Nat.add_sub, take_app_length.
  apply lookup_app_Some in Hi as [Hi|[Hlen Hi]].
  - rewrite <- (take_drop_middle l i x) at 1 by done.
    rewrite insert_take_drop by (by eapply lookup_lt_Some). solve_Permutation.
  - apply list_lookup_singleton_Some in Hi as [Hz ->].
    rewrite list_insert_ge by lia. by rewrite (comm (++)).
Qed.

(** [Vec::dedup_by_key]: of equal neighbours only the first stays. *)
Fixpoint dedup_by_key {A K : Type} `{EqDecision K} (f : A → K) (l : list A) : list A :=
  match l with
  | [] => []
  | x :: l =>
      match dedup_by_key f l with
      | [] => [x]
      | y :: l' => if decide (f x = f y) then x :: l' else x :: y :: l'
      end
  end.

(** [sort_by_key]. *)
Definition key_le {A : Type} (f : A → N) (x y : A) : Prop := f x ≤ f y.
#[global] Instance key_le_dec {A} (f : A → N) : RelDecision (key_le f).
Proof. intros x y. unfold key_le. apply _. Defined.
Definition sort_by_key {A : Type} (f : A → N) (l : list A) : list A := merge_sort (key_le f) l.

(* ------------------------------------------------------------------ *)
(** ** The search *)

(** Everything left of the window is below the key, everything right of it
    above. *)
Definition around (arr : list N) (key : N) (left right : nat) : Prop :=
  (left ≤ right ≤ length arr)%nat ∧
  (∀ j x, (j < left)%nat → arr !! j = Some x → x < key) ∧
  (∀ j x, (right ≤ j)%nat → arr !! j = Some x → key < x).

(** On an ascending vector the search decides membership and, when the key is
    missing, names the one place that keeps the order. *)
Lemma find_spec fuel arr key left right :
  ascending arr → around arr key left right → (right - left ≤ fuel)%nat →
  match find fuel arr key left right with
  | inl i => arr !! i = Some key
  | inr i => around arr key i i
  end.
Proof.
  intros Hasc. revert left right. induction fuel as [|fuel IH];
    intros left right (Hlr & Hlo & Hhi) Hf; cbn [find].
  { assert (left = right) as -> by lia. done. }
  case_decide as Hlt; [|assert (left = right) as -> by lia; done].
  pose proof (Nat.div_lt (right - left) 2 ltac:(lia) ltac:(lia)) as Hmid.
  set (mid := (left + (right - left) / 2)%nat) in *.
  destruct (arr !! mid) as [x|] eqn:Hx; [|apply lookup_ge_None in Hx; unfold mid in Hx; lia].
  case_decide as Heq; [by subst|]. case_decide as Hlx; (apply IH; [|lia]); split_and!; try lia; try done.
  - intros j y Hj Hy. destruct (decide (j = mid)) as [->|]; [by simplify_eq|].
    assert (y < x); [|lia]. apply (Hasc j mid); [lia|done..].
  - intros j y Hj Hy. destruct (decide (j = mid)) as [->|]; [simplify_eq; lia|].
    assert (x < y); [|lia]. apply (Hasc mid j); [lia|done..].
Qed.

Lemma search_spec_by_key {A} (f : A → N) l key :
  ascending (f <$> l) →
  match binary_search_by_key f l key with
  | inl i => ∃ x, l !! i = Some x ∧ f x = key
  | inr i => around (f <$> l) key i i
  end.
Proof.
  intros Hasc. unfold binary_search_by_key.
  pose proof (find_spec (length l) (f <$> l) key 0 (length l) Hasc) as H.
  destruct (find _ _ _ _ _) as [i|i].
  - rewrite list_lookup_fmap in H. destruct (l !! i) as [x|] eqn:E; simpl in H.
    + exists x. split; [done|]. apply (inj Some), H; [|lia].
      split_and!; [lia|by rewrite length_fmap|lia|].
      intros j y Hj Hy. apply lookup_lt_Some in Hy. rewrite length_fmap in Hy. lia.
    + assert (None = Some key); [|done]. apply H; [|lia].
      split_and!; [lia|by rewrite length_fmap|lia|].
      intros j y Hj Hy. apply lookup_lt_Some in Hy. rewrite length_fmap in Hy. lia.
  - apply H; [|lia]. split_and!; [lia|by rewrite length_fmap|lia|].
    intros j y Hj Hy. apply lookup_lt_Some in Hy. rewrite length_fmap in Hy. lia.
Qed.

Lemma around_not_in arr key i : around arr key i i → key ∉ arr.
Proof.
  intros (_ & Hlo & Hhi) [j Hj]%list_elem_of_lookup.
  destruct (decide (j < i)%nat) as [Hlt|Hge].
  - specialize (Hlo j key Hlt Hj). lia.
  - specialize (Hhi j key ltac:(lia) Hj). lia.
Qed.

Lemma search_hit l key : ascending l → key ∈ l → ∃ i, binary_search l key = inl i ∧ l !! i = Some key.
Proof.
  intros Hasc Hin. pose proof (search_spec_by_key id l key) as H. rewrite list_fmap_id in H.
  specialize (H Hasc). unfold binary_search. destruct (binary_search_by_key id l key) as [i|i].
  - destruct H as (x & Hx & <-). eauto.
  - by apply around_not_in in H.
Qed.

Lemma search_miss l key :
  ascending l → key ∉ l → ∃ i, binary_search l key = inr i ∧ around l key i i.
Proof.
  intros Hasc Hin. pose proof (search_spec_by_key id l key) as H. rewrite list_fmap_id in H.
  specialize (H Hasc). unfold binary_search. destruct (binary_search_by_key id l key) as [i|i]; [|eauto].
  destruct H as (x & Hx & <-). destruct Hin. by eapply list_elem_of_lookup_2.
Qed.

(** A hit is where the key is, on any vector at all. *)
Lemma find_hit fuel arr key left right i :
  find fuel arr key left right = inl i → arr !! i = Some key.
Proof.
  revert left right. induction fuel as [|fuel IH]; intros left right; [done|]. cbn [find].
  case_decide; [|done]. destruct (arr !! (left + (right - left) / 2)%nat) eqn:E; [|done]. case_decide as Hk; [|case_decide; apply IH].
  intros Hi. injection Hi as <-. rewrite <- Hk. exact E.
Qed.

Lemma search_by_key_hit {A} (f : A → N) l key i :
  binary_search_by_key f l key = inl i → ∃ x, l !! i = Some x ∧ f x = key.
Proof.
  intros H%find_hit. rewrite list_lookup_fmap in H. destruct (l !! i); naive_solver.
Qed.

(* ------------------------------------------------------------------ *)
(** ** Ascending vectors *)

Lemma ascending_nil : ascending [].
Proof. intros i j x y _ H. done. Qed.

Lemma ascending_sorted l : ascending l ↔ StronglySorted N.lt l.
Proof.
  induction l as [|a l IH].
  { split; [constructor|intros _; apply ascending_nil]. }
  split.
  - intros Hasc. constructor.
    + apply IH. intros i j x y Hij Hi Hj. by apply (Hasc (S i) (S j) x y ltac:(lia)).
    + apply Forall_forall. intros x [j Hj]%list_elem_of_lookup.
      by apply (Hasc 0%nat (S j) a x ltac:(lia)).
  - intros Hs. apply StronglySorted_inv in Hs as [Hs Hf]. apply IH in Hs.
    intros [|i] [|j] x y Hij Hi Hj; [lia| |lia|].
    + simpl in *. simplify_eq. rewrite Forall_forall in Hf. apply Hf. by eapply list_elem_of_lookup_2.
    + simpl in *. eapply (Hs i j); [lia|done..].
Qed.

Lemma ascending_NoDup l : ascending l → NoDup l.
Proof.
  intros Hasc. apply NoDup_alt. intros i j x Hi Hj.
  destruct (lt_eq_lt_dec i j) as [[Hlt|Heq]|Hgt]; [|done|].
  - pose proof (Hasc _ _ _ _ Hlt Hi Hj). lia.
  - pose proof (Hasc _ _ _ _ Hgt Hj Hi). lia.
Qed.

Lemma ascending_snoc l x : ascending l → (∀ y, y ∈ l → y < x) → ascending (l ++ [x]).
Proof.
  rewrite !ascending_sorted. intros Hs Hx. induction l as [|a l IH]; simpl.
  { by repeat constructor. }
  apply StronglySorted_inv in Hs as [Hs Hf]. constructor.
  - apply IH; [done|]. intros y Hy. apply Hx. by right.
  - apply Forall_app. split; [done|]. constructor; [|done]. apply Hx. by left.
Qed.

Lemma ascending_last l x y : ascending l → last l = Some x → y ∈ l → y ≤ x.
Proof.
  intros Hasc Hl [j Hj]%list_elem_of_lookup. rewrite last_lookup in Hl.
  pose proof (lookup_lt_Some _ _ _ Hj). destruct (decide (j = pred (length l))) as [->|].
  - simplify_eq. done.
  - pose proof (Hasc j (pred (length l)) y x ltac:(lia) Hj Hl). lia.
Qed.

Lemma ascending_sublist l l' : sublist l' l → ascending l → ascending l'.
Proof.
  rewrite !ascending_sorted. induction 1 as [|x l1 l2 H IH|x l1 l2 H IH]; intros Hs; [constructor| |].
  - apply StronglySorted_inv in Hs as [Hs Hf]. constructor; [by apply IH|].
    rewrite Forall_forall in *. intros y Hy. apply Hf. by eapply elem_of_sublist.
  - apply StronglySorted_inv in Hs as [Hs _]. by apply IH.
Qed.

Lemma sublist_fmap_filter {A} (P : A → Prop) `{∀ x, Decision (P x)} (f : A → N) l :
  sublist (f <$> filter P l) (f <$> l).
Proof.
  induction l as [|x l IH]; [constructor|]. rewrite filter_cons. case_decide; simpl;
    by constructor.
Qed.

Lemma ascending_insert l x i : ascending l → around l x i i → ascending (vec_insert i x l).
Proof.
  intros Hasc (Hle & Hlo & Hhi). unfold vec_insert. intros a b u v Hab Ha Hb.
  assert (length (take i l) = i) as Ht by (rewrite length_take; lia).
  destruct (decide (a < i)%nat) as [Hai|Hai].
  - rewrite lookup_app_l, lookup_take_lt in Ha by lia.
    destruct (decide (b < i)%nat) as [Hbi|Hbi].
    + rewrite lookup_app_l, lookup_take_lt in Hb by lia. eapply (Hasc a b); [lia|done..].
    + rewrite lookup_app_r, Ht in Hb by lia. pose proof (Hlo a u Hai Ha) as Hux.
      destruct (b - i)%nat as [|k] eqn:Ek; simpl in Hb; [by simplify_eq|].
      rewrite lookup_drop in Hb. pose proof (Hhi (i + k)%nat v ltac:(lia) Hb). lia.
  - rewrite lookup_app_r, Ht in Ha by lia. rewrite lookup_app_r, Ht in Hb by lia.
    destruct (b - i)%nat as [|k] eqn:Ek; [lia|]. simpl in Hb. rewrite lookup_drop in Hb.
    destruct (a - i)%nat as [|k'] eqn:Ek'; simpl in Ha.
    + simplify_eq. by eapply Hhi; [|done]; lia.
    + rewrite lookup_drop in Ha. eapply (Hasc (i + k')%nat (i + k)%nat); [lia|done..].
Qed.

Lemma vec_insert_perm {A} i (x : A) l : vec_insert i x l ≡ₚ x :: l.
Proof. unfold vec_insert. rewrite <- Permutation_middle. by rewrite take_drop. Qed.

(* ------------------------------------------------------------------ *)
(** ** Sorting and removing repetitions *)

Lemma sort_by_key_perm {A} (f : A → N) l : sort_by_key f l ≡ₚ l.
Proof. apply merge_sort_Permutation. Qed.

Lemma sort_by_key_sorted {A} (f : A → N) l : StronglySorted N.le (f <$> sort_by_key f l).
Proof.
  assert (StronglySorted (key_le f) (sort_by_key f l)) as H.
  { apply Sorted_StronglySorted; [intros x y z; unfold key_le; lia|].
    apply Sorted_merge_sort. intros x y. unfold key_le. lia. }
  induction H as [|x l' H IH Hf]; simpl; constructor; [done|].
  apply Forall_fmap. eapply Forall_impl; [done|]. done.
Qed.

Lemma sorted_ascending l : StronglySorted N.le l → NoDup l → ascending l.
Proof.
  rewrite ascending_sorted. induction 1 as [|x l H IH Hf]; [constructor|].
  intros [Hx Hn]%NoDup_cons. constructor; [by apply IH|].
  rewrite Forall_forall in *. intros y Hy. specialize (Hf y Hy).
  assert (x ≠ y) by (intros ->; done). lia.
Qed.

Section dedup.
Context {A : Type} (f : A → N).

Lemma dedup_by_key_head x l : ∃ l', dedup_by_key f (x :: l) = x :: l'.
Proof. simpl. destruct (dedup_by_key f l); [eauto|]. case_decide; eauto. Qed.

Lemma dedup_by_key_length l : (length (dedup_by_key f l) ≤ length l)%nat.
Proof.
  induction l as [|x l IH]; [done|]. simpl. destruct (dedup_by_key f l); simpl in *; [lia|].
  case_decide; simpl; lia.
Qed.

(** If nothing was removed, nothing was there to remove: a sorted vector whose
    length the deduplication keeps has no two equal keys, and is kept. *)
Lemma dedup_by_key_same l :
  StronglySorted N.le (f <$> l) → length (dedup_by_key f l) = length l →
  dedup_by_key f l = l ∧ NoDup (f <$> l).
Proof.
  induction l as [|x l IH]; intros Hs Hl; [split; [done|constructor]|].
  simpl in Hs. apply StronglySorted_inv in Hs as [Hs Hf]. simpl in Hl.
  destruct l as [|y l].
  { simpl. split; [done|]. constructor; [by intros ?%elem_of_nil|constructor]. }
  pose proof (dedup_by_key_length (y :: l)) as Hle.
  destruct (dedup_by_key_head y l) as [l' E].
  change (length (match dedup_by_key f (y :: l) with [] => [x] | z :: l'' =>
    if decide (f x = f z) then x :: l'' else x :: z :: l'' end) = S (length (y :: l))) in Hl.
  change (dedup_by_key f (x :: y :: l)) with (match dedup_by_key f (y :: l) with [] => [x] | z :: l'' =>
    if decide (f x = f z) then x :: l'' else x :: z :: l'' end).
  rewrite E in *. case_decide as Hxy; simpl in Hl, Hle; [lia|].
  assert (y :: l' = y :: l ∧ NoDup (f <$> y :: l)) as [E' Hn] by (apply IH; [done|simpl; lia]).
  rewrite E'. split; [done|]. constructor; [|done].
  apply Forall_inv in Hf as Hxy'. simpl in Hs. apply StronglySorted_inv in Hs as [_ Hys].
  intros [?|Hin]%elem_of_cons; [done|]. rewrite Forall_forall in Hys. specialize (Hys _ Hin). lia.
Qed.
End dedup.

Lemma elem_of_dedup {A} `{EqDecision A} (l : list A) x : x ∈ dedup_by_key id l ↔ x ∈ l.
Proof.
  induction l as [|y l IH]; simpl; [done|]. rewrite elem_of_cons, <- IH.
  destruct (dedup_by_key id l) as [|z l']; [set_solver|].
  case_decide as E; unfold id in E; [subst|]; set_solver.
Qed.

(** A sorted vector without repetitions ascends. *)
Lemma dedup_ascending l : StronglySorted N.le l → ascending (dedup_by_key id l).
Proof.
  rewrite ascending_sorted. induction 1 as [|x l Hs IH Hf]; simpl; [constructor|].
  assert (∀ y, y ∈ dedup_by_key id l → x ≤ y) as Hx.
  { intros y Hy. apply (proj1 (elem_of_dedup l y)) in Hy. rewrite Forall_forall in Hf. by apply Hf. }
  destruct (dedup_by_key id l) as [|z l']; [by repeat constructor|].
  apply StronglySorted_inv in IH as [IH Hz]. unfold id. case_decide as E.
  - subst z. by constructor.
  - pose proof (Hx z (list_elem_of_here _ _)). constructor; [by constructor|]. constructor; [lia|].
    eapply Forall_impl; [done|]. intros y Hy. simpl in Hy. lia.
Qed.
End Sorting.
