(* ===== verification/Compliance.v ===== *)
(** The compliance manager (src/pallets/compliance-manager/src/lib.rs, with
    src/primitives/src/condition.rs, compliance_manager.rs and proposition/):
    the requirements an asset places on the two sides of a transfer, how a
    transfer is checked against them and how they are administered. *)

From stdpp Require Import base numbers list gmap sets strings sorting.
From S2P Require Import Prelude Subset Types ClaimTypes SettlementTypes Schedules State Identity.
From S2P Require Import Claims Keys Agents Checkpoint Metering Sorting.

Local Open Scope N_scope.

(** The constants and weights of the pallet's configuration. *)
Class ComplianceConfig := {
  MaxConditionComplexity : N;
  weight_is_condition_satisfied : N → N → Weight;
  weight_is_identity_condition : N → Weight;
}.

Module Compliance.
Import Sorting Metering.

(* ------------------------------------------------------------------ *)
(** * Conditions (src/primitives) *)

(** [ConditionType::count]. *)
Definition count (t : ConditionType) : N :=
  match t with
  | IsIdentity _ | IsPresent _ | IsAbsent _ => 1
  | IsNoneOf cs | IsAnyOf cs => Base.len cs
  end.

(** The order of claim types, and sorting by it. *)
Definition claim_type_le (a b : ClaimType) : Prop :=
  (claim_type_rank a).1 < (claim_type_rank b).1 ∨
  ((claim_type_rank a).1 = (claim_type_rank b).1 ∧ (claim_type_rank a).2 ≤ (claim_type_rank b).2).
#[global] Instance claim_type_le_dec : RelDecision claim_type_le.
Proof. intros a b. unfold claim_type_le. apply _. Defined.

(** [TrustedIssuer::dedup] and [TrustedIssuer::is_trusted_for]. *)
Definition dedup_issuer (i : TrustedIssuer) : TrustedIssuer :=
  match trusted_for i with
  | TrustedAny => i
  | TrustedSpecific types =>
      i <| trusted_for := TrustedSpecific (dedup_by_key id (merge_sort claim_type_le types)) |>
  end.
Definition is_trusted_for (i : TrustedIssuer) (ty : ClaimType) : bool :=
  match trusted_for i with
  | TrustedAny => true
  | TrustedSpecific ok_types => bool_decide (ty ∈ ok_types)
  end.

(** [Condition::complexity]. *)
Definition complexity (c : Condition) (default_issuer_count : N) : N :=
  let n := match issuers c with [] => default_issuer_count | l => Base.len l end in
  N.min (count (condition_type c) * N.max n 1) u32_max.

(** [Condition::claims]. *)
Definition condition_claims (c : Condition) : list ClaimTypes.Claim :=
  match condition_type c with
  | IsPresent c | IsAbsent c => [c]
  | IsAnyOf cs | IsNoneOf cs => cs
  | IsIdentity _ => []
  end.

(** [ComplianceRequirement::dedup] and [ComplianceRequirement::conditions]. *)
Definition dedup_condition (c : Condition) : Condition := c <| issuers ::= fmap dedup_issuer |>.
Definition dedup_requirement (r : ComplianceRequirement) : ComplianceRequirement :=
  r <| sender_conditions ::= fmap dedup_condition |>
    <| receiver_conditions ::= fmap dedup_condition |>.
Definition conditions (r : ComplianceRequirement) : list Condition :=
  sender_conditions r ++ receiver_conditions r.

(** [proposition::Context]. *)
Record Context : Type := mkContext {
  ctx_claims : list ClaimTypes.Claim;
  ctx_id : IdentityId;
}.

(** [CddId::is_default_cdd]: the id is all zeros. *)
Definition is_default_cdd (id : CddId) : bool := bool_decide (id = 0).

(** [ExistentialProposition] and [AnyProposition]. *)
Definition exists_ (c : ClaimTypes.Claim) (ctx : Context) : bool :=
  match c with
  | CustomerDueDiligence id =>
      if is_default_cdd id
      then existsb (λ x, match x with CustomerDueDiligence _ => true | _ => false end)
             (ctx_claims ctx)
      else existsb (λ x, bool_decide (x = c)) (ctx_claims ctx)
  | _ => existsb (λ x, bool_decide (x = c)) (ctx_claims ctx)
  end.
Definition any (cs : list ClaimTypes.Claim) (ctx : Context) : bool :=
  existsb (λ x, existsb (λ valid, bool_decide (x = valid)) cs) (ctx_claims ctx).

(** [proposition::run]. *)
Definition run (c : Condition) (ctx : Context) (ea_prop : Context → bool) : bool :=
  match condition_type c with
  | IsPresent claim => exists_ claim ctx
  | IsAbsent claim => negb (exists_ claim ctx)
  | IsAnyOf claims => any claims ctx
  | IsNoneOf claims => negb (any claims ctx)
  | IsIdentity (Specific id) => bool_decide (ctx_id ctx = id)
  | IsIdentity ExternalAgent => ea_prop ctx
  end.

(** The results of a granular check (src/primitives/src/compliance_manager.rs). *)
Record ConditionResult : Type := mkConditionResult {
  cr_condition : Condition;
  cr_result : bool;
}.
Record ComplianceRequirementResult : Type := mkComplianceRequirementResult {
  crr_sender_conditions : list ConditionResult;
  crr_receiver_conditions : list ConditionResult;
  crr_id : N;
  crr_result : bool;
}.
Record AssetComplianceResult : Type := mkAssetComplianceResult {
  acr_paused : bool;
  acr_requirements : list ComplianceRequirementResult;
  acr_result : bool;
}.
Definition condition_result_from (c : Condition) : ConditionResult := mkConditionResult c true.
Definition requirement_result_from (r : ComplianceRequirement) : ComplianceRequirementResult :=
  mkComplianceRequirementResult (condition_result_from <$> sender_conditions r)
    (condition_result_from <$> receiver_conditions r) (requirement_id r) true.
Definition compliance_result_from (c : AssetCompliance) : AssetComplianceResult :=
  mkAssetComplianceResult (compliance_paused c)
    (requirement_result_from <$> compliance_requirements c) (compliance_paused c).

(* ------------------------------------------------------------------ *)
(** * Checking a transfer *)

Definition default_compliance : AssetCompliance := mkAssetCompliance false [].
Definition asset_compliance (t : Ticker) (w : World) : AssetCompliance :=
  getd default_compliance (AssetCompliances (compliance (rest w))) t.
Definition trusted_claim_issuer (t : Ticker) (w : World) : list TrustedIssuer :=
  getd [] (TrustedClaimIssuer (compliance (rest w))) t.

Definition fetch_claims (target : IdentityId) (c : ClaimTypes.Claim) (l : list TrustedIssuer)
    (w : World) : list ClaimTypes.Claim :=
  omap (λ i, claim <$> Claim.fetch_claim target (claim_type c) (issuer i) (as_scope c) w)
    (filter (λ i, is_trusted_for i (claim_type c) = true) l).

(** [issuers_for]: the issuers, and the cache after the call. *)
Definition issuers_for (t : Ticker) (c : Condition) (slot : option (list TrustedIssuer))
    (w : World) : list TrustedIssuer * option (list TrustedIssuer) :=
  match issuers c with
  | [] => let l := default (trusted_claim_issuer t w) slot in (l, Some l)
  | l => (l, slot)
  end.

(** [as u32] of a length, and of a condition. *)
Definition as_u32 (n : N) : N := n mod (u32_max + 1).
Definition no_issuers (c : Condition) : N := match issuers c with [] => 1 | _ => 0 end.

Section compliance.
Context {RT : Runtime} {FE : Fees} {FM : FrameMeter} {CC : ComplianceConfig}.

Definition consume (weight : Weight) : M unit :=
  consume_weight_meter (ECompliance ComplianceWeightLimitExceeded) weight.

Definition fetch_context (id : IdentityId) (t : Ticker) (slot : option (list TrustedIssuer))
    (c : Condition) : M (Context * option (list TrustedIssuer)) :=
  match condition_type c with
  | IsPresent cl | IsAbsent cl =>
      '(l, slot) ← gets (issuers_for t c slot) ;
      consume (weight_is_condition_satisfied (as_u32 (Base.len l)) (no_issuers c)) ;;
      claims ← gets (fetch_claims id cl l) ;
      mret (mkContext claims id, slot)
  | IsAnyOf cls | IsNoneOf cls =>
      '(l, slot) ← gets (issuers_for t c slot) ;
      consume (weight_is_condition_satisfied (as_u32 (Base.len l * Base.len cls))
                 (no_issuers c)) ;;
      claims ← gets (λ w, mjoin ((λ cl, fetch_claims id cl l w) <$> cls)) ;
      mret (mkContext claims id, slot)
  | IsIdentity ExternalAgent =>
      consume (weight_is_identity_condition 1) ;;
      mret (mkContext [] id, slot)
  | IsIdentity (Specific _) =>
      consume (weight_is_identity_condition 0) ;;
      mret (mkContext [] id, slot)
  end.

Definition is_condition_satisfied (t : Ticker) (d : IdentityId) (c : Condition)
    (slot : option (list TrustedIssuer)) : M (bool * option (list TrustedIssuer)) :=
  '(ctx, slot) ← fetch_context d t slot c ;
  b ← gets (λ w, run c ctx (λ ctx, has_key (GroupOfAgent (agents w)) (t, ctx_id ctx))) ;
  mret (b, slot).

(** The loop of [are_all_conditions_satisfied]. *)
Fixpoint all_satisfied (t : Ticker) (d : IdentityId) (slot : option (list TrustedIssuer))
    (l : list Condition) : M bool :=
  match l with
  | [] => mret true
  | c :: l =>
      '(b, slot) ← is_condition_satisfied t d c slot ;
      if b : bool then all_satisfied t d slot l else mret false
  end.
Definition are_all_conditions_satisfied (t : Ticker) (d : IdentityId) (l : list Condition)
    : M bool := all_satisfied t d None l.

Fixpoint is_any_requirement_compliant (t : Ticker) (l : list ComplianceRequirement)
    (sender receiver : IdentityId) : M bool :=
  match l with
  | [] => mret false
  | r :: l =>
      s ← are_all_conditions_satisfied t sender (sender_conditions r) ;
      b ← (if s : bool then are_all_conditions_satisfied t receiver (receiver_conditions r)
           else mret false) ;
      if b : bool then mret true else is_any_requirement_compliant t l sender receiver
  end.

Definition is_compliant (t : Ticker) (sender receiver : IdentityId) : M bool :=
  c ← gets (asset_compliance t) ;
  if compliance_paused c : bool then mret true
  else is_any_requirement_compliant t (compliance_requirements c) sender receiver.

(** [evaluate_conditions]: the conditions with their results, and whether all
    hold. *)
Fixpoint evaluate_conditions (t : Ticker) (d : IdentityId) (l : list ConditionResult)
    : M (list ConditionResult * bool) :=
  match l with
  | [] => mret ([], true)
  | c :: l =>
      '(b, _) ← is_condition_satisfied t d (cr_condition c) None ;
      '(rs, all) ← evaluate_conditions t d l ;
      mret (mkConditionResult (cr_condition c) b :: rs, b && all)
  end.

Definition all_conditions_hold (t : Ticker) (d : option IdentityId) (l : list ConditionResult)
    : M (list ConditionResult * bool) :=
  match d with
  | Some d => evaluate_conditions t d l
  | None => mret (l, false)
  end.

(** The loop of [verify_restriction_granular]. *)
Fixpoint granular (t : Ticker) (from to : option IdentityId)
    (l : list ComplianceRequirementResult) : M (list ComplianceRequirementResult * bool) :=
  match l with
  | [] => mret ([], false)
  | r :: l =>
      '(ss, sb) ← all_conditions_hold t from (crr_sender_conditions r) ;
      '(rs, rb) ← all_conditions_hold t to (crr_receiver_conditions r) ;
      let b := crr_result r && sb && rb in
      '(rest, bs) ← granular t from to l ;
      mret (mkComplianceRequirementResult ss rs (crr_id r) b :: rest, b || bs)
  end.

Definition verify_restriction_granular (t : Ticker) (from to : option IdentityId)
    : M AssetComplianceResult :=
  c ← gets (λ w, compliance_result_from (asset_compliance t w)) ;
  '(rs, b) ← granular t from to (acr_requirements c) ;
  mret (mkAssetComplianceResult (acr_paused c) rs (acr_result c || b)).

(* ------------------------------------------------------------------ *)
(** * Administering the requirements *)

Definition total_complexity (l : list ComplianceRequirement) (default_issuer_count : N) : N :=
  N.max (foldl (λ total c, saturating_add u32_max total (complexity c default_issuer_count)) 0
           (l ≫= conditions))
    (as_u32 (Base.len l)).
Definition base_verify_compliance_complexity (l : list ComplianceRequirement)
    (default_issuer_count : N) : result DispatchError unit :=
  ensure (bool_decide (total_complexity l default_issuer_count ≤ MaxConditionComplexity))
    (ECompliance ComplianceRequirementTooComplex).
Definition verify_compliance_complexity (l : list ComplianceRequirement) (t : Ticker)
    (add : N) : Chk unit := λ w,
  base_verify_compliance_complexity l
    (saturating_add u32_max (Base.len (trusted_claim_issuer t w)) add).

Definition ensure_custom_scopes_limited (l : list Condition) : result DispatchError unit :=
  for_check (l ≫= condition_claims) Claim.ensure_custom_scopes_limited.
Definition ensure_issuer_limited (i : TrustedIssuer) : result DispatchError unit :=
  match trusted_for i with
  | TrustedAny => Ok tt
  | TrustedSpecific cts => Base.ensure_length_ok (Base.len cts)
  end.
Definition ensure_issuers_in_req_limited (r : ComplianceRequirement)
    : result DispatchError unit :=
  for_check (conditions r) (λ c,
    Base.ensure_length_ok (Base.len (issuers c)) ;;
    for_check (issuers c) ensure_issuer_limited).
Definition dedup_and_ensure_requirement_limited (r : ComplianceRequirement)
    : result DispatchError ComplianceRequirement :=
  let r := dedup_requirement r in
  ensure_issuers_in_req_limited r ;;
  Ok r.
Fixpoint dedup_and_ensure_all (l : list ComplianceRequirement)
    : result DispatchError (list ComplianceRequirement) :=
  match l with
  | [] => Ok []
  | r :: l =>
      r ← dedup_and_ensure_requirement_limited r ;
      l ← dedup_and_ensure_all l ;
      Ok (r :: l)
  end.

Definition get_latest_requirement_id (t : Ticker) (w : World) : N :=
  default 0 (requirement_id <$> last (compliance_requirements (asset_compliance t w))).

Definition set_compliance (t : Ticker) (c : AssetCompliance) : M unit :=
  on_compliance (λ s, s <| AssetCompliances ::= <[t := c]> |>).

Definition base_add_compliance_requirement (caller : IdentityId) (t : Ticker)
    (sender receiver : list Condition) : M unit :=
  check (λ _, ensure_custom_scopes_limited sender) ;;
  check (λ _, ensure_custom_scopes_limited receiver) ;;
  id ← gets (λ w, wrapping_add u32_max (get_latest_requirement_id t w) 1) ;
  new_req ← check (λ _, dedup_and_ensure_requirement_limited
                          (mkComplianceRequirement sender receiver id)) ;
  c ← gets (asset_compliance t) ;
  let c := c <| compliance_requirements ::= λ l, l ++ [new_req] |> in
  check (verify_compliance_complexity (compliance_requirements c) t 0) ;;
  call_elsewhere (charge_protocol_fees [ComplianceManagerAddComplianceRequirement]) ;;
  set_compliance t c ;;
  deposit_event (ComplianceRequirementCreated caller t new_req).

Definition add_compliance_requirement (o : Origin) (t : Ticker)
    (sender receiver : list Condition) : M unit :=
  caller ← check (Agents.ensure_perms o t) ;
  base_add_compliance_requirement caller t sender receiver.

Definition remove_compliance_requirement (o : Origin) (t : Ticker) (id : N) : M unit :=
  d ← check (Agents.ensure_perms o t) ;
  c ← gets (asset_compliance t) ;
  let l := filter (λ r, requirement_id r ≠ id) (compliance_requirements c) in
  check (λ _, ensure (bool_decide (length (compliance_requirements c) ≠ length l))
                (ECompliance InvalidComplianceRequirementId)) ;;
  set_compliance t (c <| compliance_requirements := l |>) ;;
  deposit_event (ComplianceRequirementRemoved d t id).

Definition replace_asset_compliance (o : Origin) (t : Ticker) (l : list ComplianceRequirement)
    : M unit :=
  d ← check (Agents.ensure_perms o t) ;
  check (λ _, ensure_custom_scopes_limited (l ≫= conditions)) ;;
  let l' := dedup_by_key requirement_id (sort_by_key requirement_id l) in
  check (λ _, ensure (bool_decide (length l = length l'))
                (ECompliance DuplicateComplianceRequirements)) ;;
  l' ← check (λ _, dedup_and_ensure_all l') ;
  check (verify_compliance_complexity l' t 0) ;;
  c ← gets (asset_compliance t) ;
  set_compliance t (c <| compliance_requirements := l' |>) ;;
  deposit_event (AssetComplianceReplaced d t l').

Definition reset_asset_compliance (o : Origin) (t : Ticker) : M unit :=
  d ← check (Agents.ensure_perms o t) ;
  on_compliance (λ s, s <| AssetCompliances ::= delete t |>) ;;
  deposit_event (AssetComplianceReset d t).

Definition pause_resume_asset_compliance (o : Origin) (t : Ticker) (pause : bool)
    : M IdentityId :=
  d ← check (Agents.ensure_perms o t) ;
  c ← gets (asset_compliance t) ;
  set_compliance t (c <| compliance_paused := pause |>) ;;
  mret d.
Definition pause_asset_compliance (o : Origin) (t : Ticker) : M unit :=
  d ← pause_resume_asset_compliance o t true ;
  deposit_event (AssetCompliancePaused d t).
Definition resume_asset_compliance (o : Origin) (t : Ticker) : M unit :=
  d ← pause_resume_asset_compliance o t false ;
  deposit_event (AssetComplianceResumed d t).

Definition base_add_default_trusted_claim_issuer (caller : IdentityId) (t : Ticker)
    (i : TrustedIssuer) : M unit :=
  check (λ w, ensure (Keys.is_identity_exists (issuer i) w) (ECompliance DidNotExist)) ;;
  check (λ _, ensure_issuer_limited i) ;;
  l ← gets (trusted_claim_issuer t) ;
  let new_count := saturating_add u32_max (Base.len l) 1 in
  check (λ _, Base.ensure_length_ok new_count) ;;
  check (λ _, ensure (bool_decide (i ∉ l)) (ECompliance IncorrectOperationOnTrustedIssuer)) ;;
  check (λ w, base_verify_compliance_complexity
                (compliance_requirements (asset_compliance t w)) new_count) ;;
  on_compliance (λ s, s <| TrustedClaimIssuer ::= <[t := l ++ [i]]> |>) ;;
  deposit_event (TrustedDefaultClaimIssuerAdded caller t i).

Definition add_default_trusted_claim_issuer (o : Origin) (t : Ticker) (i : TrustedIssuer)
    : M unit :=
  caller ← check (Agents.ensure_perms o t) ;
  base_add_default_trusted_claim_issuer caller t i.

Definition remove_default_trusted_claim_issuer (o : Origin) (t : Ticker) (i : IdentityId)
    : M unit :=
  d ← check (Agents.ensure_perms o t) ;
  l ← gets (trusted_claim_issuer t) ;
  let l' := filter (λ ti, issuer ti ≠ i) l in
  check (λ _, ensure (bool_decide (length l ≠ length l'))
                (ECompliance IncorrectOperationOnTrustedIssuer)) ;;
  on_compliance (λ s, s <| TrustedClaimIssuer ::= <[t := l']> |>) ;;
  deposit_event (TrustedDefaultClaimIssuerRemoved d t i).

Definition change_compliance_requirement (o : Origin) (t : Ticker) (r : ComplianceRequirement)
    : M unit :=
  d ← check (Agents.ensure_perms o t) ;
  check (λ _, ensure_custom_scopes_limited (conditions r)) ;;
  c ← gets (asset_compliance t) ;
  pos ← check (λ _,
    match binary_search_by_key requirement_id (compliance_requirements c) (requirement_id r) with
    | inl pos => Ok pos
    | inr _ => Err (ECompliance InvalidComplianceRequirementId)
    end) ;
  r ← check (λ _, dedup_and_ensure_requirement_limited r) ;
  let c := c <| compliance_requirements ::= <[pos := r]> |> in
  check (verify_compliance_complexity (compliance_requirements c) t 0) ;;
  set_compliance t c ;;
  deposit_event (ComplianceRequirementChanged d t r).

Inductive call : Type :=
  | AddComplianceRequirement (t : Ticker) (sender receiver : list Condition)
  | RemoveComplianceRequirement (t : Ticker) (id : N)
  | ReplaceAssetCompliance (t : Ticker) (l : list ComplianceRequirement)
  | ResetAssetCompliance (t : Ticker)
  | PauseAssetCompliance (t : Ticker)
  | ResumeAssetCompliance (t : Ticker)
  | AddDefaultTrustedClaimIssuer (t : Ticker) (i : TrustedIssuer)
  | RemoveDefaultTrustedClaimIssuer (t : Ticker) (i : IdentityId)
  | ChangeComplianceRequirement (t : Ticker) (r : ComplianceRequirement).

Definition dispatch (o : Origin) (c : call) : M unit :=
  match c with
  | AddComplianceRequirement t s r => add_compliance_requirement o t s r
  | RemoveComplianceRequirement t id => remove_compliance_requirement o t id
  | ReplaceAssetCompliance t l => replace_asset_compliance o t l
  | ResetAssetCompliance t => reset_asset_compliance o t
  | PauseAssetCompliance t => pause_asset_compliance o t
  | ResumeAssetCompliance t => resume_asset_compliance o t
  | AddDefaultTrustedClaimIssuer t i => add_default_trusted_claim_issuer o t i
  | RemoveDefaultTrustedClaimIssuer t i => remove_default_trusted_claim_issuer o t i
  | ChangeComplianceRequirement t r => change_compliance_requirement o t r
  end.
End compliance.
End Compliance.
