(* ===== verification/ComplianceInv.v ===== *)
(** What the compliance manager decides, and what its calls keep. *)

From stdpp Require Import base numbers list gmap sets strings sorting.
From S2P Require Import Prelude Subset Types ClaimTypes SettlementTypes Schedules State Identity.
From S2P Require Import Claims Keys Agents Checkpoint Metering Sorting Compliance.

Local Open Scope N_scope.

Module ComplianceInv.
Import Compliance Sorting Metering Checkpoint.

(* ------------------------------------------------------------------ *)
(** * What a requirement asks for *)

(** One of [l], trusted for claims like [c], has made the claim [c'] about [d],
    and it has not expired. *)
Definition attested (w : World) (l : list TrustedIssuer) (d : IdentityId)
    (c c' : ClaimTypes.Claim) : Prop :=
  ∃ i ic, i ∈ l ∧ is_trusted_for i (claim_type c) = true ∧
    Claims (records (rest w)) !! (mkClaim1stKey d (claim_type c),
                                 mkClaim2ndKey (issuer i) (as_scope c)) = Some ic ∧
    (∀ e, claim_expiry ic = Some e → now w < e) ∧ claim ic = c'.

(** The issuers a condition listens to: its own, or those of the asset. *)
Definition issuers_of (w : World) (t : Ticker) (c : Condition) : list TrustedIssuer :=
  match issuers c with [] => trusted_claim_issuer t w | l => l end.

(** A claim about customer due diligence without an id stands for any. *)
Definition matches (c c' : ClaimTypes.Claim) : Prop :=
  c' = c ∨ (c = CustomerDueDiligence 0 ∧ ∃ id, c' = CustomerDueDiligence id).

Definition present (w : World) (l : list TrustedIssuer) (d : IdentityId) (c : ClaimTypes.Claim)
    : Prop := ∃ c', attested w l d c c' ∧ matches c c'.
Definition present_of (w : World) (l : list TrustedIssuer) (d : IdentityId)
    (cs : list ClaimTypes.Claim) : Prop :=
  ∃ c c', c ∈ cs ∧ attested w l d c c' ∧ c' ∈ cs.

Definition satisfied (w : World) (t : Ticker) (d : IdentityId) (c : Condition) : Prop :=
  match condition_type c with
  | IsPresent cl => present w (issuers_of w t c) d cl
  | IsAbsent cl => ¬ present w (issuers_of w t c) d cl
  | IsAnyOf cls => present_of w (issuers_of w t c) d cls
  | IsNoneOf cls => ¬ present_of w (issuers_of w t c) d cls
  | IsIdentity (Specific d') => d = d'
  | IsIdentity ExternalAgent => is_Some (GroupOfAgent (agents w) !! (t, d))
  end.

(** A transfer is compliant if the rules are paused or one of the requirements
    has all its conditions met on both sides. *)
Definition meets (w : World) (t : Ticker) (sender receiver : IdentityId)
    (r : ComplianceRequirement) : Prop :=
  Forall (satisfied w t sender) (sender_conditions r) ∧
  Forall (satisfied w t receiver) (receiver_conditions r).
Definition compliant (w : World) (t : Ticker) (sender receiver : IdentityId) : Prop :=
  compliance_paused (asset_compliance t w) = true ∨
  Exists (meets w t sender receiver) (compliance_requirements (asset_compliance t w)).

Lemma satisfied_meter w w' t d c : same_but_meter w w' → satisfied w' t d c ↔ satisfied w t d c.
Proof. intros [-> _]. done. Qed.
Lemma meets_meter w w' t s r q : same_but_meter w w' → meets w' t s r q ↔ meets w t s r q.
Proof. intros [-> _]. done. Qed.

Lemma Forall_satisfied_meter w w' t d l :
  same_but_meter w w' → Forall (satisfied w' t d) l ↔ Forall (satisfied w t d) l.
Proof. intros [-> _]. done. Qed.
Lemma Exists_meets_meter w w' t s r l :
  same_but_meter w w' → Exists (meets w' t s r) l ↔ Exists (meets w t s r) l.
Proof. intros [-> _]. done. Qed.

Lemma elem_of_fetch_claims d c l w c' : c' ∈ fetch_claims d c l w ↔ attested w l d c c'.
Proof.
  unfold fetch_claims, attested. rewrite list_elem_of_omap. split.
  - intros (i & Hi & H). apply list_elem_of_filter in Hi as [Ht Hi].
    unfold Claim.fetch_claim, Claim.fetch_base_claim_with_issuer in H.
    destruct (Claims _ !! _) as [ic|] eqn:E; simpl in H; [|done].
    unfold Claim.is_identity_claim_not_expired_at in H. exists i, ic.
    destruct (claim_expiry ic) as [e|] eqn:Ee; [|simplify_eq/=; naive_solver].
    case_bool_decide; simplify_eq/=. split_and!; try done. by intros ? [= <-].
  - intros (i & ic & Hi & Ht & E & He & <-). exists i.
    split; [by apply list_elem_of_filter|].
    unfold Claim.fetch_claim, Claim.fetch_base_claim_with_issuer. rewrite E.
    unfold Claim.is_identity_claim_not_expired_at. destruct (claim_expiry ic); [|done].
    rewrite bool_decide_true; [done|]. by apply He.
Qed.

Lemma existsb_decide {A} (P : A → Prop) `{∀ x, Decision (P x)} l :
  existsb (λ x, bool_decide (P x)) l = true ↔ ∃ x, x ∈ l ∧ P x.
Proof.
  rewrite existsb_exists. split; intros (x & Hx & H'); exists x.
  - split; [by apply list_elem_of_In|]. by apply bool_decide_eq_true in H'.
  - split; [by apply list_elem_of_In|]. by apply bool_decide_eq_true.
Qed.

Lemma exists_spec c l d :
  exists_ c (mkContext l d) = true ↔ ∃ c', c' ∈ l ∧ matches c c'.
Proof.
  unfold exists_, matches, is_default_cdd. simpl.
  assert (existsb (λ x, bool_decide (x = c)) l = true ↔ ∃ c', c' ∈ l ∧ c' = c) as Heq
    by apply (existsb_decide (λ x, x = c)).
  destruct c as [| | | |id| | | | |]; try (rewrite Heq; naive_solver).
  case_bool_decide as Hid; [|rewrite Heq; naive_solver].
  rewrite existsb_exists. setoid_rewrite <- list_elem_of_In. subst id. split.
  - intros (x & Hx & H). exists x. split; [done|]. destruct x; naive_solver.
  - intros (x & Hx & [->|[_ [id ->]]]); eauto.
Qed.

Lemma any_spec cs l d : any cs (mkContext l d) = true ↔ ∃ c', c' ∈ l ∧ c' ∈ cs.
Proof.
  unfold any. simpl. rewrite existsb_exists. setoid_rewrite <- list_elem_of_In.
  setoid_rewrite existsb_decide. naive_solver.
Qed.

Lemma negb_iff (b : bool) (P : Prop) : (b = true ↔ P) → (negb b = true ↔ ¬ P).
Proof. destruct b; simpl; naive_solver. Qed.

Section decision.
Context {RT : Runtime} {FE : Fees} {FM : FrameMeter} {CC : ComplianceConfig}.

Notation full := (ECompliance ComplianceWeightLimitExceeded).

(** The cache holds nothing but the issuers of the asset. *)
Definition slot_ok (w : World) (t : Ticker) (slot : option (list TrustedIssuer)) : Prop :=
  ∀ l, slot = Some l → l = trusted_claim_issuer t w.

Lemma issuers_for_ok w t c slot :
  slot_ok w t slot →
  (issuers_for t c slot w).1 = issuers_of w t c ∧ slot_ok w t (issuers_for t c slot w).2.
Proof.
  intros Hs. unfold issuers_for, issuers_of. destruct (issuers c); [|done]. simpl.
  destruct slot as [l'|]; simpl; [rewrite (Hs l' eq_refl)|]; (split; [done|]); by intros ? [= <-].
Qed.

Lemma slot_ok_meter w w' t slot : same_but_meter w w' → slot_ok w t slot → slot_ok w' t slot.
Proof. by intros [-> _]. Qed.

Lemma metered_condition t d c slot : metered full (is_condition_satisfied t d c slot).
Proof.
  unfold is_condition_satisfied, fetch_context, consume. apply metered_bind.
  - destruct (condition_type c) as [| | | |[]]; eauto 10 using metered_bind, metered_consume,
      metered_ret; apply metered_bind; try apply metered_gets; intros [];
      eauto 10 with storage.
  - intros []. eauto with storage.
Qed.

(** The context of a condition holds what its issuers attest about its claims. *)
Lemma fetch_context_Ok t d c slot w ctx slot' w' :
  slot_ok w t slot → fetch_context d t slot c w = (Ok (ctx, slot'), w') →
  ctx_id ctx = d ∧ slot_ok w t slot' ∧ w' = w <| meter := meter w' |> ∧
  ∀ c', c' ∈ ctx_claims ctx ↔
    ∃ c0, c0 ∈ condition_claims c ∧ attested w (issuers_of w t c) d c0 c'.
Proof.
  intros Hs H. destruct (issuers_for_ok w t c slot Hs) as [E1 Hs1].
  unfold fetch_context in H. unfold condition_claims.
  destruct (issuers_for t c slot w) as [l s1] eqn:Ei. simpl in E1, Hs1. subst l.
  destruct (condition_type c) as [cl|cl|cls|cls|[|d']]; ok_inv; rewrite ?Ei in H; ok_inv;
    match goal with H : consume _ _ = _ |- _ =>
      apply (metered_Ok _ _ _ _ _ (metered_consume full _)) in H as [E _] end; simplify_eq/=;
    (split; [done|]); (split; [done|]); (split; [exact E|]); intros c'; try rewrite E.
  - rewrite elem_of_fetch_claims. set_solver.
  - rewrite elem_of_fetch_claims. set_solver.
  - rewrite list_elem_of_join. setoid_rewrite list_elem_of_fmap. split.
    + intros (l' & Hl & (c0 & -> & Hc0)). exists c0. by rewrite elem_of_fetch_claims in Hl.
    + intros (c0 & Hc0 & Ha). eexists. split; [|eauto]. by apply elem_of_fetch_claims.
  - rewrite list_elem_of_join. setoid_rewrite list_elem_of_fmap. split.
    + intros (l' & Hl & (c0 & -> & Hc0)). exists c0. by rewrite elem_of_fetch_claims in Hl.
    + intros (c0 & Hc0 & Ha). eexists. split; [|eauto]. by apply elem_of_fetch_claims.
  - set_solver.
  - set_solver.
Qed.

(** A condition that can be checked is decided as it says. *)
Lemma condition_Ok t d c slot w b slot' w' :
  slot_ok w t slot → is_condition_satisfied t d c slot w = (Ok (b, slot'), w') →
  (b = true ↔ satisfied w t d c) ∧ slot_ok w t slot' ∧ same_but_meter w w'.
Proof.
  intros Hs H. pose proof (metered_Ok _ _ _ _ _ (metered_condition t d c slot) H) as Hm.
  unfold is_condition_satisfied in H. ok_inv. destruct_product. ok_inv.
  match goal with H : fetch_context _ _ _ _ _ = _ |- _ =>
    apply fetch_context_Ok in H as (Eid & Hs' & E & Hctx); [|done] end.
  injection H as -> ->. split; [|done]. destruct c0 as [l d0]. simpl in *. subst d0.
  unfold run, satisfied, condition_claims in *.
  destruct (condition_type c) as [cl|cl|cls|cls|[|d']]; try apply negb_iff;
    rewrite ?exists_spec, ?any_spec; unfold present, present_of; try (setoid_rewrite Hctx).
  - set_solver.
  - set_solver.
  - naive_solver.
  - naive_solver.
  - rewrite E. apply has_key_true.
  - apply bool_decide_eq_true.
Qed.

Lemma all_satisfied_Ok t d slot l w b w' :
  slot_ok w t slot → all_satisfied t d slot l w = (Ok b, w') →
  (b = true ↔ Forall (satisfied w t d) l) ∧ same_but_meter w w'.
Proof.
  revert slot w. induction l as [|c l IH]; intros slot w Hs H; simpl in H.
  { ok_inv. rewrite Forall_nil. done. }
  ok_inv. destruct_product.
  match goal with H : is_condition_satisfied _ _ _ _ _ = _ |- _ =>
    apply condition_Ok in H as (Hb & Hs' & Hm); [|done] end.
  destruct b0.
  - apply IH in H as [Hl Hm']; [|by eapply slot_ok_meter]. rewrite Forall_cons. split; [|by etrans].
    rewrite Hl, (Forall_satisfied_meter w) by done. tauto.
  - ok_inv. rewrite Forall_cons. split; [|done]. split; [done|]. intros [H _]. by apply Hb in H.
Qed.

Lemma any_requirement_Ok t l s r w b w' :
  is_any_requirement_compliant t l s r w = (Ok b, w') →
  (b = true ↔ Exists (meets w t s r) l) ∧ same_but_meter w w'.
Proof.
  revert w. induction l as [|q l IH]; intros w H; simpl in H.
  { ok_inv. rewrite Exists_nil. done. }
  unfold are_all_conditions_satisfied in H. apply SE_bind_Ok in H as (sb & w1 & H1 & H).
  apply SE_bind_Ok in H as (rb & w2 & H2 & H). apply all_satisfied_Ok in H1 as [Hsb Hm1]; [|done].
  assert ((rb = true ↔ meets w t s r q) ∧ same_but_meter w w2) as [Hrb Hm2].
  { unfold meets. destruct sb.
    - apply all_satisfied_Ok in H2 as [Hrb Hm2]; [|done]. split; [|by etrans].
      rewrite Hrb, (Forall_satisfied_meter w) by done. tauto.
    - apply ret_Ok in H2 as [-> ->]. split; [|done]. split; [done|]. intros [H' _].
      by apply Hsb in H'. }
  rewrite Exists_cons. destruct rb.
  - apply ret_Ok in H as [-> ->]. split; [|done]. tauto.
  - apply IH in H as [Hb Hm]. split; [|by etrans]. rewrite Hb, (Exists_meets_meter w) by done. naive_solver.
Qed.

(** The check decides compliance. *)
Lemma is_compliant_Ok t s r w b w' :
  is_compliant t s r w = (Ok b, w') →
  (b = true ↔ compliant w t s r) ∧ same_but_meter w w'.
Proof.
  unfold is_compliant, compliant. intros H. apply SE_bind_Ok in H as (c & w1 & H1 & H).
  apply gets_Ok in H1 as [-> ->]. destruct (compliance_paused _) eqn:Ep.
  - apply ret_Ok in H as [-> ->]. split; [|done]. naive_solver.
  - apply any_requirement_Ok in H as [Hb Hm]. split; [|done]. naive_solver.
Qed.

(** It changes nothing but the meter, and fails only when that is exhausted. *)
Lemma metered_all_satisfied t d slot l : metered full (all_satisfied t d slot l).
Proof.
  revert slot. induction l as [|c l IH]; intros slot; simpl; [apply metered_ret|].
  apply metered_bind; [apply metered_condition|]. intros [[] slot']; [done|apply metered_ret].
Qed.
Lemma metered_any_requirement t l s r : metered full (is_any_requirement_compliant t l s r).
Proof.
  induction l as [|q l IH]; simpl; [apply metered_ret|].
  apply metered_bind; [apply metered_all_satisfied|]. intros [].
  - apply metered_bind; [apply metered_all_satisfied|]. intros []; [apply metered_ret|done].
  - apply metered_bind; [apply metered_ret|]. intros []; [apply metered_ret|done].
Qed.
Lemma metered_is_compliant t s r : metered full (is_compliant t s r).
Proof.
  unfold is_compliant. apply metered_bind; [apply metered_gets|]. intros c.
  destruct (compliance_paused c); [apply metered_ret|apply metered_any_requirement].
Qed.

(* ------------------------------------------------------------------ *)
(** * The granular check *)

Lemma evaluate_Ok t d l w rs b w' :
  evaluate_conditions t d l w = (Ok (rs, b), w') →
  (b = true ↔ Forall (λ c, satisfied w t d (cr_condition c)) l) ∧ same_but_meter w w' ∧
  Forall2 (λ c r, cr_condition r = cr_condition c ∧
                  (cr_result r = true ↔ satisfied w t d (cr_condition c))) l rs.
Proof.
  revert w rs b. induction l as [|c l IH]; intros w rs b H; simpl in H.
  { ok_inv. simplify_eq. rewrite Forall_nil. split_and!; [done|done|constructor]. }
  ok_inv. destruct_product.
  match goal with H : is_condition_satisfied _ _ _ _ _ = _ |- _ =>
    apply condition_Ok in H as (Hb & _ & Hm); [|done] end.
  ok_inv. destruct_product. ok_inv. simplify_eq.
  match goal with H : evaluate_conditions _ _ _ _ = _ |- _ => apply IH in H as (Hl & Hm' & Hrs) end.
  rewrite (proj1 Hm) in Hl, Hrs. rewrite Forall_cons, andb_true_iff, Hb, Hl.
  split_and!; [done|by etrans|]. constructor; [done|]. exact Hrs.
Qed.

Lemma granular_Ok t s r l w rs b w' :
  granular t (Some s) (Some r) (requirement_result_from <$> l) w = (Ok (rs, b), w') →
  (b = true ↔ Exists (meets w t s r) l) ∧ same_but_meter w w' ∧
  Forall2 (λ q res, crr_id res = requirement_id q ∧ (crr_result res = true ↔ meets w t s r q)) l rs.
Proof.
  revert w rs b. induction l as [|q l IH]; intros w rs b H; simpl in H.
  { ok_inv. simplify_eq. rewrite Exists_nil. split_and!; [done|done|constructor]. }
  ok_inv. destruct_product.
  match goal with H : evaluate_conditions _ s _ _ = _ |- _ => apply evaluate_Ok in H as (Hs & Hm1 & _) end.
  ok_inv. destruct_product.
  match goal with H : evaluate_conditions _ r _ _ = _ |- _ => apply evaluate_Ok in H as (Hr & Hm2 & _) end.
  ok_inv. destruct_product. ok_inv. simplify_eq.
  match goal with H : granular _ _ _ _ _ = _ |- _ => apply IH in H as (Hl & Hm3 & Hrs) end.
  match type of Hm2 with same_but_meter _ ?w2 =>
    assert (same_but_meter w w2) as Hm by (by etrans) end.
  rewrite Forall_fmap in Hs, Hr. rewrite (proj1 Hm1) in Hr. rewrite (proj1 Hm) in Hl, Hrs.
  match goal with |- context [?b0 && ?b1] =>
    assert (b0 && b1 = true ↔ meets w t s r q) as Hq by (rewrite andb_true_iff, Hs, Hr; done) end.
  rewrite Exists_cons, orb_true_iff, Hq, Hl. split_and!; [done|by etrans|].
  constructor; [done|exact Hrs].
Qed.

(** Checking requirement by requirement gives the answer of the fast check. *)
Lemma granular_compliant t s r w res w' :
  verify_restriction_granular t (Some s) (Some r) w = (Ok res, w') →
  acr_result res = true ↔ compliant w t s r.
Proof.
  unfold verify_restriction_granular, compliant. intros H. ok_inv. destruct_product. ok_inv.
  match goal with H : granular _ _ _ _ _ = _ |- _ => apply granular_Ok in H as (Hb & _ & _) end.
  simplify_eq/=. rewrite orb_true_iff, Hb. done.
Qed.
End decision.

(* ------------------------------------------------------------------ *)
(** * What the calls keep *)

Fixpoint sum (l : list N) : N :=
  match l with [] => 0 | x :: l => x + sum l end.

Lemma saturating_fold {A} (f : A → N) max l a :
  a ≤ max → foldl (λ total x, saturating_add max total (f x)) a l = N.min (a + sum (f <$> l)) max.
Proof.
  revert a. induction l as [|x l IH]; intros a Ha.
  { change (a = N.min (a + 0) max). lia. }
  rewrite fmap_cons. simpl. rewrite IH by apply saturating_add_bound. unfold saturating_add. lia.
Qed.

Lemma sum_sublist l l' : sublist l' l → sum l' ≤ sum l.
Proof. induction 1; simpl; lia. Qed.
Lemma sum_mono {A} (f g : A → N) l : (∀ x, f x ≤ g x) → sum (f <$> l) ≤ sum (g <$> l).
Proof.
  intros H. induction l as [|x l IH]; [done|]. rewrite !fmap_cons. simpl. specialize (H x). lia.
Qed.

Lemma sublist_bind {A B} (f : A → list B) l l' : sublist l' l → sublist (l' ≫= f) (l ≫= f).
Proof.
  induction 1 as [|x l1 l2 H IH|x l1 l2 H IH]; simpl; [constructor|by apply sublist_app|].
  by apply sublist_inserts_l.
Qed.

Lemma sublist_fmap {A B} (f : A → B) l l' : sublist l' l → sublist (f <$> l') (f <$> l).
Proof. induction 1; [constructor|by constructor..]. Qed.

Lemma complexity_mono c n m : n ≤ m → complexity c n ≤ complexity c m.
Proof.
  intros H. unfold complexity. destruct (issuers c); [|lia].
  assert (count (condition_type c) * N.max n 1 ≤ count (condition_type c) * N.max m 1); [|lia].
  apply N.mul_le_mono_l. lia.
Qed.

(** What the conditions add up to. *)
Definition weight_of (l : list ComplianceRequirement) (n : N) : N :=
  sum ((λ c, complexity c n) <$> (l ≫= conditions)).

Lemma total_complexity_eq l n :
  total_complexity l n = N.max (N.min (weight_of l n) u32_max) (as_u32 (Base.len l)).
Proof. unfold total_complexity, weight_of. by rewrite saturating_fold by lia. Qed.

Lemma weight_of_sublist l l' n : sublist l' l → weight_of l' n ≤ weight_of l n.
Proof.
  intros H. unfold weight_of. apply sum_sublist. by apply sublist_fmap, sublist_bind.
Qed.
Lemma weight_of_mono l n m : n ≤ m → weight_of l n ≤ weight_of l m.
Proof. intros H. apply sum_mono. intros c. by apply complexity_mono. Qed.

(** Removing repeated claim types changes nothing an issuer is trusted for. *)
Lemma dedup_issuer_trusted i ty : is_trusted_for (dedup_issuer i) ty = is_trusted_for i ty.
Proof.
  unfold is_trusted_for, dedup_issuer. destruct i as [d [|l]]; simpl; [done|].
  apply bool_decide_ext. rewrite elem_of_dedup. by rewrite merge_sort_Permutation.
Qed.
Lemma dedup_issuer_issuer i : issuer (dedup_issuer i) = issuer i.
Proof. unfold dedup_issuer. by destruct (trusted_for i). Qed.

Lemma attested_dedup w l d c c' : attested w (dedup_issuer <$> l) d c c' ↔ attested w l d c c'.
Proof.
  unfold attested. split.
  - intros (i & ic & (j & -> & Hj)%list_elem_of_fmap & Ht & H).
    rewrite dedup_issuer_trusted in Ht. rewrite dedup_issuer_issuer in H. eauto.
  - intros (i & ic & Hi & Ht & H). exists (dedup_issuer i), ic.
    rewrite dedup_issuer_trusted, dedup_issuer_issuer. split; [|done].
    apply list_elem_of_fmap. eauto.
Qed.

Lemma satisfied_dedup w t d c : satisfied w t d (dedup_condition c) ↔ satisfied w t d c.
Proof.
  assert (∀ c0 c', attested w (issuers_of w t (dedup_condition c)) d c0 c' ↔
                   attested w (issuers_of w t c) d c0 c') as Ha.
  { intros c0 c'. unfold issuers_of, dedup_condition. simpl. destruct (issuers c) as [|i l]; [done|].
    rewrite fmap_cons, <- fmap_cons. apply attested_dedup. }
  unfold satisfied, present, present_of. change (condition_type (dedup_condition c)) with
    (condition_type c). destruct (condition_type c) as [| | | |[]]; try done; by setoid_rewrite Ha.
Qed.

Lemma meets_dedup w t s r q : meets w t s r (dedup_requirement q) ↔ meets w t s r q.
Proof.
  unfold meets, dedup_requirement. simpl. rewrite !Forall_fmap.
  split; intros [H1 H2]; (split; (eapply Forall_impl; [eassumption|])); intros c; simpl;
    by rewrite satisfied_dedup.
Qed.

Section calls.
Context {RT : Runtime} {FE : Fees} {FM : FrameMeter} {CC : ComplianceConfig}.

(** The rules of one asset: requirements in the order of their ids, issuers
    without repetition, and a bounded cost of checking a transfer, even with the
    issuers of the asset standing in for every condition that names none. *)
Record rules_ok (c : AssetCompliance) (l : list TrustedIssuer) : Prop := {
  ro_ids : ascending (requirement_id <$> compliance_requirements c);
  ro_limited : Forall (λ r, ensure_issuers_in_req_limited r = Ok tt) (compliance_requirements c);
  ro_len : Base.len (compliance_requirements c) ≤ MaxConditionComplexity;
  ro_cost : weight_of (compliance_requirements c) (Base.len l) ≤ MaxConditionComplexity;
  ro_issuers : NoDup l ∧ Base.len l ≤ MaxLen;
}.
Definition compliance_ok (w : World) : Prop :=
  ∀ t, rules_ok (asset_compliance t w) (trusted_claim_issuer t w).

Hypothesis complexity_small : MaxConditionComplexity < u32_max.
Hypothesis max_len_small : MaxLen < u32_max.

Lemma within_limit l n u :
  Base.len l ≤ u32_max → base_verify_compliance_complexity l n = Ok u →
  Base.len l ≤ MaxConditionComplexity ∧ weight_of l n ≤ MaxConditionComplexity.
Proof.
  unfold base_verify_compliance_complexity. intros Hl H. ok_inv.
  rewrite total_complexity_eq in H. unfold as_u32 in H. rewrite N.mod_small in H by lia. lia.
Qed.

Lemma verify_within t l w u :
  compliance_ok w → Base.len l ≤ u32_max → verify_compliance_complexity l t 0 w = Ok u →
  Base.len l ≤ MaxConditionComplexity ∧
  weight_of l (Base.len (trusted_claim_issuer t w)) ≤ MaxConditionComplexity.
Proof.
  intros Hok Hl H. unfold verify_compliance_complexity in H. apply within_limit in H; [|done].
  destruct (ro_issuers _ _ (Hok t)) as [_ Hlen].
  rewrite saturating_add_small, N.add_0_r in H by lia. done.
Qed.

(** Writing the rules of one asset. *)
Lemma set_compliance_ok t c w w' :
  compliance_ok w → set_compliance t c w = (Ok tt, w') →
  rules_ok c (trusted_claim_issuer t w) → compliance_ok w'.
Proof.
  unfold set_compliance, on_compliance, on_rest. intros Hok H Hc. ok_inv. intros t'.
  unfold asset_compliance, trusted_claim_issuer. simpl. rewrite getd_insert.
  case_decide; [by subst|apply Hok].
Qed.

Lemma compliance_ok_ext w w' :
  compliance_ok w → compliance (rest w') = compliance (rest w) → compliance_ok w'.
Proof.
  intros Hok E t. unfold asset_compliance, trusted_claim_issuer. rewrite E. apply Hok.
Qed.

Lemma dedup_limited r r' :
  dedup_and_ensure_requirement_limited r = Ok r' →
  requirement_id r' = requirement_id r ∧ ensure_issuers_in_req_limited r' = Ok tt.
Proof. unfold dedup_and_ensure_requirement_limited. intros H. ok_inv. done. Qed.

Lemma dedup_all_limited l l' :
  dedup_and_ensure_all l = Ok l' →
  requirement_id <$> l' = requirement_id <$> l ∧
  Forall (λ r, ensure_issuers_in_req_limited r = Ok tt) l'.
Proof.
  revert l'. induction l as [|r l IH]; intros l' H; simpl in H; ok_inv; [done|].
  match goal with H : dedup_and_ensure_requirement_limited _ = _ |- _ =>
    apply dedup_limited in H as [E1 E2] end.
  match goal with H : dedup_and_ensure_all _ = _ |- _ => apply IH in H as [E3 E4] end.
  rewrite !fmap_cons, E1, E3. by split; [|constructor].
Qed.

Lemma len_app {A} (l l' : list A) : Base.len (l ++ l') = Base.len l + Base.len l'.
Proof. unfold Base.len. rewrite length_app. lia. Qed.
Lemma len_fmap {A B} (f : A → B) l : Base.len (f <$> l) = Base.len l.
Proof. unfold Base.len. by rewrite length_fmap. Qed.
Lemma len_sublist {A} (l l' : list A) : sublist l' l → Base.len l' ≤ Base.len l.
Proof. intros H%sublist_length. unfold Base.len. lia. Qed.

Lemma sublist_filter {A} (P : A → Prop) `{∀ x, Decision (P x)} (l : list A) :
  sublist (filter P l) l.
Proof. induction l; [constructor|]. rewrite filter_cons. case_decide; by constructor. Qed.

(** A new requirement gets the next id, as long as there is one. *)
Lemma add_requirement_ok caller t s r w w' :
  compliance_ok w → get_latest_requirement_id t w < u32_max →
  base_add_compliance_requirement caller t s r w = (Ok tt, w') → compliance_ok w'.
Proof.
  unfold base_add_compliance_requirement, deposit_event. intros Hok Hid H. ok_inv.
  pose proof (Hok t) as [Hids Hlim Hlen Hcost Hiss].
  match goal with H : dedup_and_ensure_requirement_limited _ = _ |- _ =>
    apply dedup_limited in H as [E1 E2] end. simpl in E1.
  rewrite wrapping_add_small in E1 by lia.
  match goal with H : verify_compliance_complexity _ _ _ _ = _ |- _ =>
    apply verify_within in H as [Hlen' Hcost'];
      [|done|rewrite len_app; unfold Base.len at 2; simpl; lia] end.
  match goal with H : call_elsewhere _ _ = _ |- _ => apply call_elsewhere_Ok in H as [x ->] end.
  match goal with H : set_compliance _ _ ?w1 = (_, ?w2) |- _ =>
    apply (set_compliance_ok t) in H as Hok2;
      [by eapply compliance_ok_ext|by eapply compliance_ok_ext|] end.
  constructor; simpl; try done.
  - rewrite fmap_app. simpl. apply ascending_snoc; [done|]. rewrite E1. intros y Hy.
    unfold get_latest_requirement_id. destruct (last _) as [r'|] eqn:El; simpl.
    + assert (y ≤ requirement_id r'); [|lia]. eapply ascending_last; [exact Hids| |done].
      by rewrite fmap_last, El.
    + apply last_None in El. rewrite El in Hy. by apply elem_of_nil in Hy.
  - apply Forall_app. by repeat constructor.
Qed.

(** A new requirement widens what is compliant by exactly what it asks for. *)
Lemma add_requirement_meaning o t ss rs w w' s r :
  add_compliance_requirement o t ss rs w = (Ok tt, w') →
  compliant w' t s r ↔ compliant w t s r ∨ meets w t s r (mkComplianceRequirement ss rs 0).
Proof.
  unfold add_compliance_requirement, base_add_compliance_requirement, set_compliance,
    on_compliance, on_rest, deposit_event, dedup_and_ensure_requirement_limited. intros H. ok_inv.
  match goal with H : call_elsewhere _ _ = _ |- _ => apply call_elsewhere_Ok in H as [x' ->] end.
  unfold compliant. match goal with |- context [asset_compliance t ?w2] =>
    assert (asset_compliance t w2 = (asset_compliance t w) <| compliance_requirements ::= λ l,
      l ++ [dedup_requirement (mkComplianceRequirement ss rs
             (wrapping_add u32_max (get_latest_requirement_id t w) 1))] |>) as ->
      by (unfold asset_compliance at 1; simpl; by rewrite getd_insert_eq);
    change (meets w2 t s r) with (meets w t s r) end.
  simpl. rewrite Exists_app, Exists_cons, Exists_nil, meets_dedup. unfold meets. simpl. tauto.
Qed.

Lemma remove_requirement_ok o t id w w' :
  compliance_ok w → remove_compliance_requirement o t id w = (Ok tt, w') → compliance_ok w'.
Proof.
  unfold remove_compliance_requirement, deposit_event. intros Hok H. ok_inv.
  pose proof (Hok t) as [Hids Hlim Hlen Hcost Hiss].
  match goal with H : set_compliance _ _ _ = _ |- _ =>
    apply (set_compliance_ok t) in H; [by eapply compliance_ok_ext|done|] end.
  pose proof (sublist_filter (λ r, requirement_id r ≠ id)
    (compliance_requirements (asset_compliance t w))) as Hsub.
  constructor; simpl; try done.
  - eapply ascending_sublist; [|done]. by apply sublist_fmap.
  - rewrite Forall_forall in *. intros r [_ Hr]%list_elem_of_filter. by apply Hlim.
  - etrans; [by apply len_sublist|done].
  - etrans; [by apply weight_of_sublist|done].
Qed.

Lemma replace_ok o t l w w' :
  compliance_ok w → Base.len l ≤ u32_max →
  replace_asset_compliance o t l w = (Ok tt, w') → compliance_ok w'.
Proof.
  unfold replace_asset_compliance, deposit_event. intros Hok Hl H. ok_inv.
  pose proof (Hok t) as [_ _ _ _ Hiss].
  match goal with H : length l = _ |- _ => rename H into Elen end.
  assert (length l = length (sort_by_key requirement_id l)) as Esort
    by by rewrite sort_by_key_perm.
  destruct (dedup_by_key_same requirement_id (sort_by_key requirement_id l)) as [Ed Hnd];
    [apply sort_by_key_sorted|congruence|]. rewrite Ed in *.
  match goal with H : dedup_and_ensure_all _ = _ |- _ => apply dedup_all_limited in H as [E1 E2] end.
  match goal with H : verify_compliance_complexity ?l' _ _ _ = _ |- _ =>
    assert (Base.len l' = Base.len l) as El
      by (unfold Base.len; rewrite Esort, <- (length_fmap requirement_id l'), E1, length_fmap; done);
    apply verify_within in H as [Hlen Hcost]; [|done|lia] end.
  match goal with H : set_compliance _ _ _ = _ |- _ =>
    apply (set_compliance_ok t) in H; [by eapply compliance_ok_ext|done|] end.
  constructor; simpl; try done. rewrite E1. apply sorted_ascending; [apply sort_by_key_sorted|done].
Qed.

Lemma change_ok o t r w w' :
  compliance_ok w → change_compliance_requirement o t r w = (Ok tt, w') → compliance_ok w'.
Proof.
  unfold change_compliance_requirement, deposit_event. intros Hok H. ok_inv.
  pose proof (Hok t) as [Hids Hlim Hlen Hcost Hiss].
  destruct (binary_search_by_key _ _ _) as [pos|] eqn:Es; ok_inv.
  apply search_by_key_hit in Es as (r0 & Hr0 & Eid).
  match goal with H : dedup_and_ensure_requirement_limited _ = _ |- _ =>
    apply dedup_limited in H as [E1 E2] end.
  match goal with H : verify_compliance_complexity _ _ _ _ = _ |- _ =>
    apply verify_within in H as [Hlen' Hcost'];
      [|done|unfold Base.len in *; rewrite length_insert; lia] end.
  match goal with H : set_compliance _ _ _ = _ |- _ =>
    apply (set_compliance_ok t) in H; [by eapply compliance_ok_ext|done|] end.
  constructor; simpl; try done.
  - rewrite list_fmap_insert, list_insert_id; [done|].
    rewrite list_lookup_fmap, Hr0. simpl. congruence.
  - by apply Forall_insert.
Qed.

Lemma trust_ok t l w w' :
  compliance_ok w →
  w' = w <| rest ::= λ r, r <| compliance ::= λ s, s <| TrustedClaimIssuer ::= <[t := l]> |> |> |> →
  weight_of (compliance_requirements (asset_compliance t w)) (Base.len l)
    ≤ MaxConditionComplexity → NoDup l → Base.len l ≤ MaxLen → compliance_ok w'.
Proof.
  intros Hok -> Hc Hn Hl t'. unfold asset_compliance, trusted_claim_issuer. simpl.
  rewrite getd_insert. pose proof (Hok t') as []. case_decide; [subst|done]. by constructor.
Qed.

Lemma add_trusted_ok caller t i w w' :
  compliance_ok w → base_add_default_trusted_claim_issuer caller t i w = (Ok tt, w') →
  compliance_ok w'.
Proof.
  unfold base_add_default_trusted_claim_issuer, on_compliance, on_rest, deposit_event, Base.ensure_length_ok.
  intros Hok H. ok_inv. pose proof (Hok t) as [Hids Hlim Hlen Hcost [Hnd Hiss]].
  assert (Base.len (trusted_claim_issuer t w ++ [i]) = Base.len (trusted_claim_issuer t w) + 1) as El
    by (rewrite len_app; done).
  rewrite saturating_add_small in * by lia.
  match goal with H : base_verify_compliance_complexity _ _ = _ |- _ =>
    apply within_limit in H as [_ Hc]; [|lia] end.
  eapply compliance_ok_ext; [eapply (trust_ok t (trusted_claim_issuer t w ++ [i]) w); try done|done].
  - by rewrite El.
  - apply NoDup_app. split_and!; [done|set_solver|apply NoDup_singleton].
  - by rewrite El.
Qed.

Lemma remove_trusted_ok o t i w w' :
  compliance_ok w → remove_default_trusted_claim_issuer o t i w = (Ok tt, w') → compliance_ok w'.
Proof.
  unfold remove_default_trusted_claim_issuer, on_compliance, on_rest, deposit_event.
  intros Hok H. ok_inv. pose proof (Hok t) as [Hids Hlim Hlen Hcost [Hnd Hiss]].
  pose proof (len_sublist _ _ (sublist_filter (λ ti, issuer ti ≠ i) (trusted_claim_issuer t w))) as Hle.
  eapply compliance_ok_ext; [eapply (trust_ok t _ w); [done|done|..]|done].
  - etrans; [by apply weight_of_mono|done].
  - by apply NoDup_filter.
  - lia.
Qed.

(** The calls whose input fits the machine: a vector has at most 2^32 entries,
    and the last requirement does not have the last id. *)
Definition fits (c : Compliance.call) (w : World) : Prop :=
  match c with
  | AddComplianceRequirement t _ _ => get_latest_requirement_id t w < u32_max
  | ReplaceAssetCompliance _ l => Base.len l ≤ u32_max
  | _ => True
  end.

Lemma compliance_dispatch_ok o c w w' :
  compliance_ok w → fits c w → Compliance.dispatch o c w = (Ok tt, w') → compliance_ok w'.
Proof.
  intros Hok Hf H. destruct c; simpl in Hf, H.
  - unfold add_compliance_requirement in H. ok_inv. by eapply add_requirement_ok.
  - by eapply remove_requirement_ok.
  - by eapply replace_ok.
  - unfold reset_asset_compliance, on_compliance, on_rest, deposit_event in H. ok_inv. intros t'.
    unfold asset_compliance, trusted_claim_issuer. simpl. rewrite getd_delete.
    pose proof (Hok t') as Ht'. case_decide; [|apply Ht']. constructor; simpl.
    + apply ascending_nil.
    + constructor.
    + apply N.le_0_l.
    + apply N.le_0_l.
    + apply Ht'.
  - unfold pause_asset_compliance, pause_resume_asset_compliance, deposit_event in H. ok_inv.
    match goal with H : set_compliance _ _ _ = _ |- _ =>
      apply (set_compliance_ok t) in H; [by eapply compliance_ok_ext|done|] end.
    destruct (Hok t). by constructor.
  - unfold resume_asset_compliance, pause_resume_asset_compliance, deposit_event in H. ok_inv.
    match goal with H : set_compliance _ _ _ = _ |- _ =>
      apply (set_compliance_ok t) in H; [by eapply compliance_ok_ext|done|] end.
    destruct (Hok t). by constructor.
  - unfold add_default_trusted_claim_issuer in H. ok_inv. by eapply add_trusted_ok.
  - by eapply remove_trusted_ok.
  - by eapply change_ok.
Qed.
End calls.
End ComplianceInv.
