(* ===== verification/Statistics.v ===== *)
(** Asset statistics and transfer restrictions
    (src/pallets/statistics/src/lib.rs): how many investors hold an asset and
    how much of it, counted by claim, and the conditions on a transfer that are
    stated over these numbers.

    A [BTreeSet] is a [gset]; its elements are visited in the order of
    [elements], which nothing below relies on.  The updates of a batch, where
    the last of two values for one key wins, are the list of the set's elements
    in the order the set has. *)

From stdpp Require Import base numbers list gmap sets strings.
From S2P Require Import Prelude Subset Types ClaimTypes SettlementTypes Schedules State Identity.
From S2P Require Import Claims Agents Metering.

Local Open Scope N_scope.

(** The constants and weights of the pallet's configuration, and
    [Permill::from_rational] of the arithmetic library. *)
Class StatisticsConfig := {
  MaxStatsPerAsset : N;
  MaxTransferConditionsPerAsset : N;
  permill_from_rational : N → N → Percentage;
  weight_active_asset_statistics_load : N → Weight;
  weight_update_asset_balance_stats : N → Weight;
  weight_update_asset_count_stats : N → Weight;
  weight_max_investor_count_restriction : N → Weight;
  weight_claim_count_restriction_no_stats : N → Weight;
  weight_claim_count_restriction_with_stats : Weight;
  weight_max_investor_ownership_restriction : Weight;
  weight_claim_ownership_restriction : N → Weight;
  weight_is_exempt : Weight;
}.

Module Statistics.
Import Metering.

Definition active_asset_stats (a : AssetScope) (w : World) : gset StatType :=
  getd ∅ (ActiveAssetStats (statistics (rest w))) a.
Definition asset_stats (k1 : Stat1stKey) (k2 : Stat2ndKey) (w : World) : N :=
  getd 0 (AssetStats (statistics (rest w))) (k1, k2).
Definition default_transfer_compliance : AssetTransferCompliance :=
  mkAssetTransferCompliance false ∅.
Definition asset_transfer_compliance (a : AssetScope) (w : World) : AssetTransferCompliance :=
  getd default_transfer_compliance (AssetTransferCompliances (statistics (rest w))) a.
Definition is_asset_stat_active (a : AssetScope) (s : StatType) (w : World) : bool :=
  bool_decide (s ∈ active_asset_stats a w).

(** [AssetStats::mutate]. *)
Definition mutate_stat (k1 : Stat1stKey) (k2 : Stat2ndKey) (f : N → N) : M unit :=
  on_statistics (λ s, s <| AssetStats ::= λ m, <[(k1, k2) := f (getd 0 m (k1, k2))]> m |>).

(** [as u32] of a condition. *)
Definition as_u32 (b : bool) : N := if b then 1 else 0.

Definition set_len {A : Type} `{Countable A} (X : gset A) : N := N.of_nat (size X).

(** [fetch_claim_as_key] and [has_matching_claim]; the scope of the claim is
    the asset. *)
Definition fetch_claim_as_key (d : option IdentityId) (k1 : Stat1stKey) (w : World)
    : Stat2ndKey :=
  match stat_claim_issuer (stat_stat_type k1) with
  | Some (t, iss) =>
      new_from t (d ≫= λ d, claim <$> Claim.fetch_claim d t iss
                                        (Some (ScopeTicker (stat_asset k1))) w)
  | None => NoClaimStat
  end.
Definition has_matching_claim (d : IdentityId) (k1 : Stat1stKey) (k2 : Stat2ndKey) (w : World)
    : bool := bool_decide (fetch_claim_as_key (Some d) k1 w = k2).

Definition investor_count_changes (from_balance to_balance : option Balance) (amount : Balance)
    : option (bool * bool) :=
  match bool_decide (from_balance = Some 0), bool_decide (to_balance = Some amount) with
  | false, false => None
  | a, b => Some (a, b)
  end.

Definition is_exempt (a : AssetScope) (c : TransferCondition) (sender receiver : IdentityId)
    (w : World) : bool :=
  let k := get_exempt_key c a in
  match exempt_op k with
  | OpCount => getd false (TransferConditionExemptEntities (statistics (rest w))) (k, sender)
  | OpBalance => getd false (TransferConditionExemptEntities (statistics (rest w))) (k, receiver)
  end.

Definition investor_count (t : Ticker) (w : World) : N :=
  asset_stats (mkStat1stKey t investor_count_stat) NoClaimStat w.

(** [TransferConditionResult] (src/primitives/src/transfer_compliance.rs). *)
Record TransferConditionResult : Type := mkTransferConditionResult {
  tcr_condition : TransferCondition;
  tcr_result : bool;
}.

Section statistics.
Context {RT : Runtime} {FM : FrameMeter} {SC : StatisticsConfig}.

Definition consume (weight : Weight) : M unit :=
  consume_weight_meter (EStatistics StatWeightLimitExceeded) weight.

(* ------------------------------------------------------------------ *)
(** * Keeping the numbers *)

Definition update_asset_balance_stats (k1 : Stat1stKey) (from_key2 to_key2 : Stat2ndKey)
    (from_balance to_balance : option Balance) (amount : Balance) : M unit :=
  if bool_decide (from_key2 = to_key2) && bool_decide (is_Some from_balance)
     && bool_decide (is_Some to_balance)
  then consume (weight_update_asset_balance_stats 0)
  else
    consume (weight_update_asset_balance_stats
               (as_u32 (bool_decide (is_Some from_balance)) +
                as_u32 (bool_decide (is_Some to_balance)))) ;;
    (if from_balance is Some _ then mutate_stat k1 from_key2 (λ b, saturating_sub b amount)
     else mret tt) ;;
    (if to_balance is Some _ then mutate_stat k1 to_key2 (λ b, saturating_add u128_max b amount)
     else mret tt).

Definition update_asset_count_stats (k1 : Stat1stKey) (from_key2 to_key2 : Stat2ndKey)
    (changes : bool * bool) : M unit :=
  let '(from_change, to_change) := changes in
  if (from_change && to_change && bool_decide (from_key2 = to_key2))
     || (negb from_change && negb to_change)
  then consume (weight_update_asset_count_stats 0)
  else
    consume (weight_update_asset_count_stats (as_u32 from_change + as_u32 to_change)) ;;
    (if from_change then mutate_stat k1 from_key2 (λ c, saturating_sub c 1) else mret tt) ;;
    (if to_change then mutate_stat k1 to_key2 (λ c, saturating_add u128_max c 1) else mret tt).

(** The update of one statistic, the body of the loop of [update_asset_stats]. *)
Definition update_one (t : Ticker) (from_did to_did : option IdentityId)
    (from_balance to_balance : option Balance) (amount : Balance) (s : StatType) : M unit :=
  let k1 := mkStat1stKey t s in
  match stat_op s with
  | OpCount =>
      match investor_count_changes from_balance to_balance amount with
      | Some changes =>
          from_key2 ← gets (fetch_claim_as_key from_did k1) ;
          to_key2 ← gets (fetch_claim_as_key to_did k1) ;
          update_asset_count_stats k1 from_key2 to_key2 changes
      | None => mret tt
      end
  | OpBalance =>
      from_key2 ← gets (fetch_claim_as_key from_did k1) ;
      to_key2 ← gets (fetch_claim_as_key to_did k1) ;
      update_asset_balance_stats k1 from_key2 to_key2 from_balance to_balance amount
  end.

Definition update_asset_stats (t : Ticker) (from_did to_did : option IdentityId)
    (from_balance to_balance : option Balance) (amount : Balance) : M unit :=
  if bool_decide (amount = 0) then mret tt
  else
    consume (weight_active_asset_statistics_load MaxStatsPerAsset) ;;
    l ← gets (λ w, elements (active_asset_stats t w)) ;
    for_each l (update_one t from_did to_did from_balance to_balance amount).

(* ------------------------------------------------------------------ *)
(** * Checking a transfer *)

Definition verify_asset_count_restriction (k1 : Stat1stKey) (changes : option (bool * bool))
    (max_count : N) : M bool :=
  match changes with
  | Some (true, true) | Some (false, false) | None | Some (true, false) =>
      consume (weight_max_investor_count_restriction 0) ;; mret true
  | Some (false, true) =>
      consume (weight_max_investor_count_restriction 1) ;;
      current_count ← gets (asset_stats k1 NoClaimStat) ;
      mret (bool_decide (current_count < max_count))
  end.

Definition verify_claim_count_restriction (k1 : Stat1stKey) (k2 : Stat2ndKey)
    (from_did to_did : IdentityId) (changes : option (bool * bool)) (min : N) (max : option N)
    : M bool :=
  match changes with
  | None => consume (weight_claim_count_restriction_no_stats 0) ;; mret true
  | Some (from_change, to_change) =>
      from_matches ← gets (has_matching_claim from_did k1 k2) ;
      to_matches ← gets (has_matching_claim to_did k1 k2) ;
      if (from_change && to_change && eqb from_matches to_matches)
         || (negb from_change && negb to_change)
      then consume (weight_claim_count_restriction_no_stats 1) ;; mret true
      else
        consume weight_claim_count_restriction_with_stats ;;
        count ← gets (asset_stats k1 k2) ;
        if bool_decide (0 < min) && from_change && from_matches && bool_decide (count ≤ min)
        then mret false
        else
          match max with
          | Some max =>
              if to_change && to_matches && bool_decide (max ≤ count) then mret false
              else mret true
          | None => mret true
          end
  end.

Definition verify_ownership_restriction (value receiver_balance total_supply : Balance)
    (max_percentage : Percentage) : M bool :=
  consume weight_max_investor_ownership_restriction ;;
  let new_percentage :=
    permill_from_rational (wrapping_add u128_max receiver_balance value) total_supply in
  mret (bool_decide (new_percentage ≤ max_percentage)).

Definition verify_claim_ownership_restriction (k1 : Stat1stKey) (k2 : Stat2ndKey)
    (from_did to_did : IdentityId) (value total_supply : Balance)
    (min_percentage max_percentage : Percentage) : M bool :=
  from_matches ← gets (has_matching_claim from_did k1 k2) ;
  to_matches ← gets (has_matching_claim to_did k1 k2) ;
  match (from_matches, to_matches) : bool * bool with
  | (true, true) | (false, false) => consume (weight_claim_ownership_restriction 0) ;; mret true
  | (false, true) =>
      consume (weight_claim_ownership_restriction 1) ;;
      claim_balance ← gets (asset_stats k1 k2) ;
      mret (bool_decide (permill_from_rational (saturating_add u128_max claim_balance value)
                           total_supply ≤ max_percentage))
  | (true, false) =>
      consume (weight_claim_ownership_restriction 1) ;;
      claim_balance ← gets (asset_stats k1 k2) ;
      mret (bool_decide (min_percentage ≤
                         permill_from_rational (saturating_sub claim_balance value) total_supply))
  end.

Definition check_transfer_condition (c : TransferCondition) (a : AssetScope)
    (from_did to_did : IdentityId) (to_balance amount total_supply : Balance)
    (count_changes : option (bool * bool)) : M bool :=
  let k1 := mkStat1stKey a (get_stat_type c) in
  passed ← match c with
           | MaxInvestorCount max_count => verify_asset_count_restriction k1 count_changes max_count
           | MaxInvestorOwnership max_percentage =>
               verify_ownership_restriction amount to_balance total_supply max_percentage
           | ClaimCount claim _ min max =>
               verify_claim_count_restriction k1 (ClaimStat claim) from_did to_did count_changes
                 min max
           | ClaimOwnership claim _ min max =>
               verify_claim_ownership_restriction k1 (ClaimStat claim) from_did to_did amount
                 total_supply min max
           end ;
  if passed : bool then mret true
  else
    consume weight_is_exempt ;;
    gets (is_exempt a c from_did to_did).

Definition verify_requirements (conditions : gset TransferCondition) (a : AssetScope)
    (sender receiver : IdentityId)
    (sender_balance receiver_balance transfer_amount total_supply : Balance) : M unit :=
  let changes := investor_count_changes (Some (saturating_sub sender_balance transfer_amount))
                   (Some (saturating_add u128_max receiver_balance transfer_amount))
                   transfer_amount in
  for_each (elements conditions) (λ c,
    b ← check_transfer_condition c a sender receiver receiver_balance transfer_amount
          total_supply changes ;
    check (λ _, ensure b (EStatistics StatInvalidTransfer))).

Definition verify_transfer_restrictions (t : Ticker) (sender receiver : IdentityId)
    (sender_balance receiver_balance transfer_amount total_supply : Balance) : M unit :=
  tm ← gets (asset_transfer_compliance t) ;
  if transfer_paused tm : bool then mret tt
  else verify_requirements (transfer_requirements tm) t sender receiver sender_balance
         receiver_balance transfer_amount total_supply.

(** [get_transfer_restrictions_results]: its loop, and the call. *)
Fixpoint condition_results (l : list TransferCondition) (a : AssetScope)
    (from_did to_did : IdentityId) (to_balance amount total_supply : Balance)
    (count_changes : option (bool * bool)) : M (list TransferConditionResult) :=
  match l with
  | [] => mret []
  | c :: l =>
      b ← check_transfer_condition c a from_did to_did to_balance amount total_supply
            count_changes ;
      rs ← condition_results l a from_did to_did to_balance amount total_supply count_changes ;
      mret (mkTransferConditionResult c b :: rs)
  end.
Definition get_transfer_restrictions_results (t : Ticker) (from_did to_did : IdentityId)
    (from_balance to_balance amount total_supply : Balance) : M (list TransferConditionResult) :=
  tm ← gets (asset_transfer_compliance t) ;
  condition_results (elements (transfer_requirements tm)) t from_did to_did to_balance amount
    total_supply
    (investor_count_changes (Some (saturating_sub from_balance amount))
       (Some (saturating_add u128_max to_balance amount)) amount).

(* ------------------------------------------------------------------ *)
(** * Administration *)

(** [base_set_active_asset_stats]. *)
Definition set_active_asset_stats (o : Origin) (a : AssetScope) (stat_types : gset StatType)
    : M unit :=
  d ← check (Agents.ensure_perms o a) ;
  check (λ _, ensure (bool_decide (set_len stat_types ≤ MaxStatsPerAsset))
                (EStatistics StatTypeLimitReached)) ;;
  required_types ← gets (λ w, list_to_set (get_stat_type <$>
                     elements (transfer_requirements (asset_transfer_compliance a w)))
                     : gset StatType) ;
  active ← gets (λ w, elements (active_asset_stats a w)) ;
  let remove_types := filter (λ s, s ∉ stat_types) active in
  check (λ _, for_check remove_types (λ s,
    ensure (bool_decide (s ∉ required_types)) (EStatistics CannotRemoveStatTypeInUse))) ;;
  for_each remove_types (λ s,
    on_statistics (λ st, st <| AssetStats ::= remove_prefix (mkStat1stKey a s) |>)) ;;
  on_statistics (λ st, st <| ActiveAssetStats ::= <[a := stat_types]> |>) ;;
  (if remove_types is _ :: _ then deposit_event (StatTypesRemoved d a remove_types)
   else mret tt) ;;
  (if elements stat_types is _ :: _ then deposit_event (StatTypesAdded d a (elements stat_types))
   else mret tt).

(** [base_batch_update_asset_stats]. *)
Definition batch_update_asset_stats (o : Origin) (a : AssetScope) (s : StatType)
    (values : list StatUpdate) : M unit :=
  d ← check (Agents.ensure_perms o a) ;
  check (λ w, ensure (is_asset_stat_active a s w) (EStatistics StatTypeMissing)) ;;
  let k1 := mkStat1stKey a s in
  for_each values (λ u,
    match update_value u with
    | Some v => on_statistics (λ st, st <| AssetStats ::= <[(k1, update_key2 u) := v]> |>)
    | None => on_statistics (λ st, st <| AssetStats ::= delete (k1, update_key2 u) |>)
    end) ;;
  deposit_event (AssetStatsUpdated d a s values).

(** [base_set_asset_transfer_compliance]. *)
Definition set_asset_transfer_compliance (o : Origin) (a : AssetScope)
    (conditions : gset TransferCondition) : M unit :=
  d ← check (Agents.ensure_perms o a) ;
  check (λ _, ensure (bool_decide (set_len conditions ≤ MaxTransferConditionsPerAsset))
                (EStatistics TransferConditionLimitReached)) ;;
  (if bool_decide (0 < set_len conditions) then
     check (λ w, for_check (elements conditions) (λ c,
       ensure (is_asset_stat_active a (get_stat_type c) w) (EStatistics StatTypeMissing))) ;;
     tm ← gets (asset_transfer_compliance a) ;
     on_statistics (λ st, st <| AssetTransferCompliances ::=
                              <[a := tm <| transfer_requirements := conditions |>]> |>)
   else on_statistics (λ st, st <| AssetTransferCompliances ::= delete a |>)) ;;
  deposit_event (SetAssetTransferCompliance d a (elements conditions)).

(** [base_set_entities_exempt]. *)
Definition set_entities_exempt (o : Origin) (exempt : bool) (k : TransferConditionExemptKey)
    (entities : gset IdentityId) : M unit :=
  d ← check (Agents.ensure_perms o (exempt_asset k)) ;
  if exempt then
    for_each (elements entities) (λ e,
      on_statistics (λ st, st <| TransferConditionExemptEntities ::= <[(k, e) := true]> |>)) ;;
    deposit_event (TransferConditionExemptionsAdded d k (elements entities))
  else
    for_each (elements entities) (λ e,
      on_statistics (λ st, st <| TransferConditionExemptEntities ::= delete (k, e) |>)) ;;
    deposit_event (TransferConditionExemptionsRemoved d k (elements entities)).

Inductive call : Type :=
  | SetActiveAssetStats (a : AssetScope) (l : gset StatType)
  | BatchUpdateAssetStats (a : AssetScope) (s : StatType) (l : list StatUpdate)
  | SetAssetTransferComplianceCall (a : AssetScope) (l : gset TransferCondition)
  | SetEntitiesExempt (exempt : bool) (k : TransferConditionExemptKey) (l : gset IdentityId).

Definition dispatch (o : Origin) (c : call) : M unit :=
  match c with
  | SetActiveAssetStats a l => set_active_asset_stats o a l
  | BatchUpdateAssetStats a s l => batch_update_asset_stats o a s l
  | SetAssetTransferComplianceCall a l => set_asset_transfer_compliance o a l
  | SetEntitiesExempt b k l => set_entities_exempt o b k l
  end.
End statistics.
End Statistics.
