(* ===== verification/StatisticsInv.v ===== *)
(** What the statistics count, and what the restrictions over them enforce. *)

From stdpp Require Import base numbers list gmap sets strings.
From S2P Require Import Prelude Subset Types ClaimTypes SettlementTypes Schedules State Identity.
From S2P Require Import Claims Agents Metering Statistics.

Local Open Scope N_scope.

Module StatisticsInv.
Import Statistics Metering.

(* ------------------------------------------------------------------ *)
(** * What a statistic stands for *)

(** A statistic counts investors or what they hold. *)
Definition measure (op : StatOpType) (b : Balance) : N :=
  match op with OpCount => if decide (b = 0) then 0 else 1 | OpBalance => b end.

(** The class of investors an identity belongs to, by its claim. *)
Definition class_of (w : World) (t : Ticker) (s : StatType) (d : IdentityId) : Stat2ndKey :=
  fetch_claim_as_key (Some d) (mkStat1stKey t s) w.

Definition class_sum (cls : IdentityId → Stat2ndKey) (op : StatOpType)
    (bal : gmap IdentityId Balance) (k : Stat2ndKey) : N :=
  msum (λ d b, if decide (cls d = k) then measure op b else 0) bal.

(** The statistic is exact for these balances. *)
Definition tracks (w : World) (t : Ticker) (s : StatType) (bal : gmap IdentityId Balance) : Prop :=
  ∀ k, asset_stats (mkStat1stKey t s) k w = class_sum (class_of w t s) (stat_op s) bal k.

(** Balances after an amount left one investor and reached another; one of the
    two is missing when tokens are issued or redeemed. *)
Definition take_from (from : option IdentityId) (amount : Balance)
    (bal : gmap IdentityId Balance) : gmap IdentityId Balance :=
  match from with Some d => <[d := getd 0 bal d - amount]> bal | None => bal end.
Definition give_to (to : option IdentityId) (amount : Balance)
    (bal : gmap IdentityId Balance) : gmap IdentityId Balance :=
  match to with Some d => <[d := getd 0 bal d + amount]> bal | None => bal end.

(** By how much the two sides move a statistic. *)
Definition loss (op : StatOpType) (from_balance : option Balance) (amount : Balance) : N :=
  match op with
  | OpCount => as_u32 (bool_decide (from_balance = Some 0))
  | OpBalance => if from_balance is Some _ then amount else 0
  end.
Definition gain (op : StatOpType) (to_balance : option Balance) (amount : Balance) : N :=
  match op with
  | OpCount => as_u32 (bool_decide (to_balance = Some amount))
  | OpBalance => if to_balance is Some _ then amount else 0
  end.

Lemma measure_0 op : measure op 0 = 0.
Proof. by destruct op. Qed.
Lemma measure_le op b : measure op b ≤ b.
Proof. destruct op; simpl; [case_decide; lia|lia]. Qed.

Lemma class_sum_le cls op bal k : class_sum cls op bal k ≤ msum (λ _ b, b) bal.
Proof.
  apply msum_mono. intros d b _. case_decide; [apply measure_le|lia].
Qed.

Lemma class_sum_insert cls op bal d b k :
  class_sum cls op (<[d := b]> bal) k + (if decide (cls d = k) then measure op (getd 0 bal d) else 0)
  = class_sum cls op bal k + (if decide (cls d = k) then measure op b else 0).
Proof.
  apply (msum_insert 0 (λ d b, if decide (cls d = k) then measure op b else 0)).
  rewrite measure_0. by case_decide.
Qed.

(** The sums move by exactly what the two sides lose and gain. *)
Lemma class_sum_take cls op bal from amount k :
  0 < amount → (∀ d, from = Some d → amount ≤ getd 0 bal d) →
  class_sum cls op (take_from from amount bal) k +
    (if decide (cls <$> from = Some k)
     then loss op ((λ d, getd 0 bal d - amount) <$> from) amount else 0)
  = class_sum cls op bal k.
Proof.
  intros Ha Hle. destruct from as [d|]; simpl; [|try rewrite decide_False by done; lia].
  pose proof (class_sum_insert cls op bal d (getd 0 bal d - amount) k) as H.
  specialize (Hle d eq_refl). destruct (decide (cls d = k)) as [E|E].
  - rewrite decide_True by congruence. destruct op; simpl in *; [|lia].
    rewrite (decide_False (P := getd 0 bal d = 0)) in H by lia.
    destruct (decide (getd 0 bal d - amount = 0)) as [E0|E0];
      [rewrite bool_decide_true by congruence|rewrite bool_decide_false by congruence]; simpl; lia.
  - rewrite decide_False by congruence. lia.
Qed.

Lemma class_sum_give cls op bal to amount k :
  0 < amount →
  class_sum cls op (give_to to amount bal) k =
  class_sum cls op bal k +
    (if decide (cls <$> to = Some k)
     then gain op ((λ d, getd 0 bal d + amount) <$> to) amount else 0).
Proof.
  intros Ha. destruct to as [d|]; simpl; [|try rewrite decide_False by done; lia].
  pose proof (class_sum_insert cls op bal d (getd 0 bal d + amount) k) as H.
  destruct (decide (cls d = k)) as [E|E].
  - rewrite decide_True by congruence. destruct op; simpl in *; [|lia].
    rewrite (decide_False (P := getd 0 bal d + amount = 0)) in H by lia.
    destruct (decide (getd 0 bal d = 0)) as [E0|E0].
    + rewrite bool_decide_true by (f_equal; lia). simpl. lia.
    + rewrite bool_decide_false by (intros [= ?]; lia). simpl. lia.
  - rewrite decide_False by congruence. lia.
Qed.

(* ------------------------------------------------------------------ *)
(** * Updating the statistics *)

(** Only the numbers and the meter change. *)
Definition stats_only (w w' : World) : Prop :=
  w' = w <| meter := meter w' |>
         <| rest ::= λ r, r <| statistics ::= λ s,
              s <| AssetStats := AssetStats (statistics (rest w')) |> |> |>.
#[global] Instance stats_only_preorder : PreOrder stats_only.
Proof.
  split.
  - intros [? ? ? ? ? ? ? ? ? ? ? ? [? ? [] ? ? ?]]. done.
  - intros x y z E1 E2. unfold stats_only in *.
    transitivity (y <| meter := meter z |> <| rest ::= λ r, r <| statistics ::= λ s,
              s <| AssetStats := AssetStats (statistics (rest z)) |> |> |>); [exact E2|].
    rewrite E1. by destruct x.
Qed.

Lemma stats_only_meter w w' : same_but_meter w w' → stats_only w w'.
Proof.
  intros [E _]. unfold stats_only. rewrite E.
  by destruct w as [? ? ? ? ? ? ? ? ? ? ? ? [? ? [] ? ? ?]].
Qed.

Lemma stats_only_class w w' t s d : stats_only w w' → class_of w' t s d = class_of w t s d.
Proof. intros ->. done. Qed.
Lemma stats_only_key w w' d k : stats_only w w' → fetch_claim_as_key d k w' = fetch_claim_as_key d k w.
Proof. intros ->. done. Qed.
Lemma stats_only_active w w' t : stats_only w w' → active_asset_stats t w' = active_asset_stats t w.
Proof. intros ->. done. Qed.
Lemma meter_stats w w' k1 k2 : same_but_meter w w' → asset_stats k1 k2 w' = asset_stats k1 k2 w.
Proof. intros [-> _]. done. Qed.

Lemma mutate_stat_Ok k1 k2 f w u w' :
  mutate_stat k1 k2 f w = (Ok u, w') →
  stats_only w w' ∧ ∀ k1' k2', asset_stats k1' k2' w' =
    if decide ((k1, k2) = (k1', k2')) then f (asset_stats k1 k2 w) else asset_stats k1' k2' w.
Proof.
  unfold mutate_stat, on_statistics, on_rest. intros H. ok_inv. split.
  - by destruct w as [? ? ? ? ? ? ? ? ? ? ? ? [? ? [] ? ? ?]].
  - intros k1' k2'. unfold asset_stats. simpl. by rewrite getd_insert.
Qed.

Section updates.
Context {RT : Runtime} {FM : FrameMeter} {SC : StatisticsConfig}.

Lemma consume_Ok weight w u w' :
  consume weight w = (Ok u, w') →
  stats_only w w' ∧ ∀ k1 k2, asset_stats k1 k2 w' = asset_stats k1 k2 w.
Proof.
  unfold consume. intros H. apply (metered_Ok _ _ _ _ _ (metered_consume _ _)) in H.
  split; [by apply stats_only_meter|]. intros k1 k2. by apply meter_stats.
Qed.

(** Both kinds of statistics move by the loss of one class and the gain of
    another. *)
Definition shifted (k1 : Stat1stKey) (from_key to_key : Stat2ndKey) (df dt : N) (w w' : World)
    : Prop :=
  stats_only w w' ∧
  (∀ k1' k2, k1' ≠ k1 → asset_stats k1' k2 w' = asset_stats k1' k2 w) ∧
  ∀ k2, asset_stats k1 k2 w' =
    N.min (asset_stats k1 k2 w - (if decide (from_key = k2) then df else 0)
           + (if decide (to_key = k2) then dt else 0)) u128_max.

Lemma shifted_steps k1 fk tk (cf ct : bool) df dt w1 w2 w3 w u u' :
  stats_only w w1 → (∀ k1 k2, asset_stats k1 k2 w1 = asset_stats k1 k2 w) →
  (∀ k2, asset_stats k1 k2 w ≤ u128_max) →
  (if cf then mutate_stat k1 fk (λ b, saturating_sub b df) else mret tt) w1 = (Ok u, w2) →
  (if ct then mutate_stat k1 tk (λ b, saturating_add u128_max b dt) else mret tt) w2 = (Ok u', w3) →
  shifted k1 fk tk (if cf then df else 0) (if ct then dt else 0) w w3.
Proof.
  intros Hs Ha Hb H1 H2.
  assert (stats_only w w2 ∧ ∀ k1' k2, asset_stats k1' k2 w2 = asset_stats k1' k2 w -
    (if decide ((k1, fk) = (k1', k2)) then if cf then df else 0 else 0)) as [Hs2 Ha2].
  { destruct cf.
    - apply mutate_stat_Ok in H1 as [Hs1 E]. split; [by etrans|]. intros k1' k2. rewrite E, !Ha.
      unfold saturating_sub. case_decide as Hd; [simplify_eq; done|lia].
    - apply ret_Ok in H1 as [_ ->]. split; [done|]. intros. rewrite Ha. case_decide; lia. }
  assert (stats_only w w3 ∧ ∀ k1' k2, asset_stats k1' k2 w3 =
    if decide ((k1, tk) = (k1', k2)) then
      N.min (asset_stats k1' k2 w2 + (if ct then dt else 0)) u128_max
    else asset_stats k1' k2 w2) as [Hs3 Ha3].
  { destruct ct.
    - apply mutate_stat_Ok in H2 as [Hs2' E]. split; [by etrans|]. intros k1' k2. rewrite E.
      unfold saturating_add. by case_decide; simplify_eq.
    - apply ret_Ok in H2 as [_ ->]. split; [done|]. intros. case_decide; [|done].
      simplify_eq. rewrite Ha2. specialize (Hb k2). lia. }
  split; [done|]. split.
  - intros k1' k2 Hne. rewrite Ha3, Ha2, !decide_False by naive_solver. lia.
  - intros k2. rewrite Ha3, !Ha2. specialize (Hb k2).
    repeat case_decide; simplify_eq; try lia; naive_solver lia.
Qed.

Lemma shifted_same k1 k df w w' :
  stats_only w w' → (∀ k1 k2, asset_stats k1 k2 w' = asset_stats k1 k2 w) →
  (∀ k2, asset_stats k1 k2 w ≤ u128_max) → df ≤ asset_stats k1 k w →
  shifted k1 k k df df w w'.
Proof.
  intros Hs Ha Hb Hd. split; [done|]. split; [done|]. intros k2. rewrite Ha. specialize (Hb k2).
  case_decide; simplify_eq; lia.
Qed.

Lemma update_one_shifts t from to fb tb amount s w u w' :
  (∀ k2, asset_stats (mkStat1stKey t s) k2 w ≤ u128_max) →
  let fk := fetch_claim_as_key from (mkStat1stKey t s) w in
  let tk := fetch_claim_as_key to (mkStat1stKey t s) w in
  loss (stat_op s) fb amount ≤ asset_stats (mkStat1stKey t s) fk w →
  update_one t from to fb tb amount s w = (Ok u, w') →
  shifted (mkStat1stKey t s) fk tk (loss (stat_op s) fb amount) (gain (stat_op s) tb amount) w w'.
Proof.
  intros Hb fk tk Hl H. unfold update_one in H. destruct (stat_op s) eqn:Eo; simpl in Hl.
  - unfold investor_count_changes in H. simpl.
    assert (∀ cf ct : bool, as_u32 cf ≤ asset_stats (mkStat1stKey t s) fk w →
      update_asset_count_stats (mkStat1stKey t s) fk tk (cf, ct) w = (Ok u, w') →
      shifted (mkStat1stKey t s) fk tk (as_u32 cf) (as_u32 ct) w w') as Hcount.
    { clear H Hl. intros cf ct Hl H. unfold update_asset_count_stats in H.
      destruct (_ || _) eqn:Ec.
      - apply consume_Ok in H as [Hs Ha]. apply orb_true_iff in Ec as [Ec|Ec].
        + apply andb_true_iff in Ec as [[-> ->]%andb_true_iff ->%bool_decide_eq_true].
          by apply shifted_same.
        + apply andb_true_iff in Ec as [->%negb_true_iff ->%negb_true_iff].
          split; [done|]. split; [done|]. intros k2. rewrite Ha. specialize (Hb k2).
          repeat case_decide; simpl; lia.
      - apply SE_bind_Ok in H as ([] & w1 & H1 & H). apply SE_bind_Ok in H as ([] & w2 & H2 & H).
        apply consume_Ok in H1 as [Hs Ha].
        eapply (shifted_steps _ _ _ cf ct 1 1) in H; [|done|done|done|exact H2].
        by destruct cf, ct. }
    destruct (bool_decide (fb = Some 0)), (bool_decide (tb = Some amount));
      try (apply SE_bind_Ok in H as (x & w1 & [-> ->]%gets_Ok & H);
           apply SE_bind_Ok in H as (x & w1 & [-> ->]%gets_Ok & H); by apply Hcount).
    apply ret_Ok in H as [_ ->]. split; [done|]. split; [done|]. intros k2. specialize (Hb k2).
    repeat case_decide; simpl; lia.
  - apply SE_bind_Ok in H as (x & w1 & [-> ->]%gets_Ok & H).
    apply SE_bind_Ok in H as (x & w1 & [-> ->]%gets_Ok & H).
    unfold update_asset_balance_stats in H. fold fk tk in H. simpl.
    destruct (_ && _) eqn:Ec.
    + apply consume_Ok in H as [Hs Ha].
      apply andb_true_iff in Ec as [[Ek Ef]%andb_true_iff Et].
      apply bool_decide_eq_true in Ek, Ef, Et. destruct Ef as [? ->], Et as [? ->].
      rewrite Ek in *. by apply shifted_same.
    + apply SE_bind_Ok in H as ([] & w1 & H1 & H). apply SE_bind_Ok in H as ([] & w2 & H2 & H).
      apply consume_Ok in H1 as [Hs Ha].
      eapply (shifted_steps _ _ _ (bool_decide (is_Some fb)) (bool_decide (is_Some tb)) amount
        amount w1 w2 w') in Ha as Hsh; [|done|done|..].
      * by destruct fb, tb.
      * by destruct fb.
      * by destruct tb.
Qed.

(** A move of tokens between the balances of an asset, as it is reported to the
    statistics. *)
Record move : Type := mkMove {
  mv_from : option IdentityId;
  mv_to : option IdentityId;
  mv_amount : Balance;
}.
Definition after_move (m : move) (bal : gmap IdentityId Balance) : gmap IdentityId Balance :=
  give_to (mv_to m) (mv_amount m) (take_from (mv_from m) (mv_amount m) bal).
Record move_ok (m : move) (bal : gmap IdentityId Balance) : Prop := {
  mo_funds : ∀ d, mv_from m = Some d → mv_amount m ≤ getd 0 bal d;
  mo_two : ∀ d, mv_from m = Some d → mv_to m ≠ Some d;
  mo_before : msum (λ _ b, b) bal ≤ u128_max;
  mo_after : msum (λ _ b, b) (after_move m bal) ≤ u128_max;
}.
Definition report (t : Ticker) (m : move) (bal : gmap IdentityId Balance) : M unit :=
  update_asset_stats t (mv_from m) (mv_to m)
    ((λ d, getd 0 bal d - mv_amount m) <$> mv_from m)
    ((λ d, getd 0 bal d + mv_amount m) <$> mv_to m) (mv_amount m).

Lemma getd_take_from m bal d :
  mv_to m = Some d → (∀ d, mv_from m = Some d → mv_to m ≠ Some d) →
  getd 0 (take_from (mv_from m) (mv_amount m) bal) d = getd 0 bal d.
Proof.
  intros Ht Hne. unfold take_from. destruct (mv_from m) as [d'|]; [|done].
  apply getd_insert_ne. specialize (Hne d' eq_refl). congruence.
Qed.

Lemma class_sum_move cls op m bal k :
  0 < mv_amount m → move_ok m bal →
  class_sum cls op (after_move m bal) k =
  class_sum cls op bal k -
    (if decide (cls <$> mv_from m = Some k)
     then loss op ((λ d, getd 0 bal d - mv_amount m) <$> mv_from m) (mv_amount m) else 0) +
    (if decide (cls <$> mv_to m = Some k)
     then gain op ((λ d, getd 0 bal d + mv_amount m) <$> mv_to m) (mv_amount m) else 0).
Proof.
  intros Ha [Hf Ht _ _]. unfold after_move. rewrite class_sum_give by done.
  rewrite <- (class_sum_take cls op bal (mv_from m) (mv_amount m) k) by done.
  assert ((λ d, getd 0 (take_from (mv_from m) (mv_amount m) bal) d + mv_amount m) <$> mv_to m =
          (λ d, getd 0 bal d + mv_amount m) <$> mv_to m) as ->; [|lia].
  destruct (mv_to m) as [d|] eqn:E; [|done]. simpl. f_equal. rewrite getd_take_from; [done|done|].
  by rewrite E.
Qed.

Lemma update_one_tracks t m bal s w u w' :
  0 < mv_amount m → move_ok m bal → tracks w t s bal →
  update_one t (mv_from m) (mv_to m)
    ((λ d, getd 0 bal d - mv_amount m) <$> mv_from m)
    ((λ d, getd 0 bal d + mv_amount m) <$> mv_to m) (mv_amount m) s w = (Ok u, w') →
  tracks w' t s (after_move m bal) ∧ stats_only w w' ∧
  ∀ s' k, s' ≠ s → asset_stats (mkStat1stKey t s') k w' = asset_stats (mkStat1stKey t s') k w.
Proof.
  intros Ha Hm Htr H.
  assert (∀ k2, asset_stats (mkStat1stKey t s) k2 w ≤ u128_max) as Hb.
  { intros k2. rewrite Htr. etrans; [apply class_sum_le|apply Hm]. }
  apply update_one_shifts in H as (Hso & Hother & Hsh); [|done|].
  - split; [|split; [done|]]; [|intros s' k Hne; apply Hother; congruence].
    intros k. rewrite Hsh, Htr.
    assert (class_sum (class_of w t s) (stat_op s) (after_move m bal) k ≤ u128_max) as Hle
      by (etrans; [apply class_sum_le|apply Hm]).
    replace (class_of w' t s) with (class_of w t s) by (by rewrite Hso).
    rewrite class_sum_move in * by done. unfold class_of in *.
    destruct (mv_from m) as [d1|], (mv_to m) as [d2|]; simpl in *;
      repeat case_decide; simplify_eq; try congruence; try lia; destruct (stat_op s); simpl in *; lia.
  - rewrite Htr. destruct (mv_from m) as [d|] eqn:Ef; [|destruct (stat_op s); simpl; lia].
    pose proof (class_sum_take (class_of w t s) (stat_op s) bal (Some d) (mv_amount m)
      (class_of w t s d) Ha) as Hc. rewrite decide_True in Hc by done. unfold class_of in *.
    rewrite <- Hc; [simpl; lia|]. intros d' [= <-]. by apply (mo_funds _ _ Hm).
Qed.

Lemma update_all_tracks t m bal l w u w' :
  0 < mv_amount m → move_ok m bal → NoDup l → (∀ s, s ∈ l → tracks w t s bal) →
  for_each l (update_one t (mv_from m) (mv_to m)
    ((λ d, getd 0 bal d - mv_amount m) <$> mv_from m)
    ((λ d, getd 0 bal d + mv_amount m) <$> mv_to m) (mv_amount m)) w = (Ok u, w') →
  stats_only w w' ∧ (∀ s, s ∈ l → tracks w' t s (after_move m bal)) ∧
  ∀ s k, s ∉ l → asset_stats (mkStat1stKey t s) k w' = asset_stats (mkStat1stKey t s) k w.
Proof.
  intros Ha Hm. revert w. induction l as [|s l IH]; intros w Hnd Htr H; simpl in H.
  { apply ret_Ok in H as [_ ->]. split_and!; [done| |done]. by intros s ?%elem_of_nil. }
  apply NoDup_cons in Hnd as [Hs Hnd]. apply SE_bind_Ok in H as ([] & w1 & H1 & H).
  apply (update_one_tracks t m bal) in H1 as (Ht1 & Hso1 & Hother1); [|done|done|apply Htr; by left].
  apply IH in H as (Hso & Htl & Hother); [|done|].
  - split_and!; [by etrans| |].
    + intros s' [->|Hin]%elem_of_cons; [|by apply Htl]. intros k. rewrite Hother, Ht1 by done.
      by rewrite Hso.
    + intros s' k [Hne Hnin]%not_elem_of_cons. by rewrite Hother, Hother1.
  - intros s' Hin k. rewrite Hother1 by (intros ->; done). rewrite Htr by (by right).
    by rewrite Hso1.
Qed.

(** Reporting a move keeps every active statistic exact. *)
Lemma report_tracks t m bal w u w' :
  move_ok m bal → (∀ s, s ∈ active_asset_stats t w → tracks w t s bal) →
  report t m bal w = (Ok u, w') →
  stats_only w w' ∧ ∀ s, s ∈ active_asset_stats t w' → tracks w' t s (after_move m bal).
Proof.
  unfold report, update_asset_stats. intros Hm Htr H. case_bool_decide as Ha.
  { apply ret_Ok in H as [_ ->]. split; [done|]. intros s Hs k. rewrite (Htr s Hs).
    apply (msum_getd_ext 0).
    - intros d. rewrite measure_0. by case_decide.
    - intros d. unfold after_move, give_to, take_from. rewrite Ha.
      destruct (mv_from m), (mv_to m); rewrite ?getd_insert; repeat case_decide; subst;
        rewrite ?getd_insert_eq; lia. }
  apply SE_bind_Ok in H as ([] & w1 & H1 & H). apply consume_Ok in H1 as [Hso1 Ha1].
  apply SE_bind_Ok in H as (l & w2 & [-> ->]%gets_Ok & H).
  apply (update_all_tracks t m bal) in H as (Hso & Htl & _); [|lia|done|apply NoDup_elements|].
  - split; [by etrans|]. intros s Hs. apply Htl. apply elem_of_elements.
    rewrite <- (stats_only_active _ _ _ Hso). done.
  - intros s Hs%elem_of_elements k. rewrite Ha1. rewrite (stats_only_active _ _ _ Hso1) in Hs.
    rewrite (Htr s Hs). by rewrite Hso1.
Qed.
End updates.

(* ------------------------------------------------------------------ *)
(** * What a transfer condition asks for *)

Section restrictions.
Context {RT : Runtime} {FM : FrameMeter} {SC : StatisticsConfig}.

Notation full := (EStatistics StatWeightLimitExceeded).

(** A transfer as the conditions see it. *)
Record transfer : Type := mkTransfer {
  tr_sender : IdentityId;
  tr_receiver : IdentityId;
  tr_receiver_balance : Balance;
  tr_amount : Balance;
  tr_supply : Balance;
  (** the sender gives up the last of the asset, the receiver gets the first *)
  tr_changes : option (bool * bool);
}.
Definition leaves (x : transfer) : bool := default false (fst <$> tr_changes x).
Definition arrives (x : transfer) : bool := default false (snd <$> tr_changes x).

(** Members of the class a claim condition speaks of. *)
Definition belongs (w : World) (a : AssetScope) (c : TransferCondition) (k : StatClaim)
    (d : IdentityId) : Prop := class_of w a (get_stat_type c) d = ClaimStat k.

Definition passes (w : World) (a : AssetScope) (x : transfer) (c : TransferCondition) : Prop :=
  let stat k := asset_stats (mkStat1stKey a (get_stat_type c)) k w in
  match c with
  | MaxInvestorCount max =>
      leaves x = false → arrives x = true → stat NoClaimStat < max
  | MaxInvestorOwnership max =>
      permill_from_rational (wrapping_add u128_max (tr_receiver_balance x) (tr_amount x))
        (tr_supply x) ≤ max
  | ClaimCount k _ min max =>
      let out := leaves x = true ∧ belongs w a c k (tr_sender x) in
      let into := arrives x = true ∧ belongs w a c k (tr_receiver x) in
      (out → ¬ into → 0 < min → min < stat (ClaimStat k)) ∧
      (into → ¬ out → ∀ m, max = Some m → stat (ClaimStat k) < m)
  | ClaimOwnership k _ min max =>
      (belongs w a c k (tr_sender x) → ¬ belongs w a c k (tr_receiver x) →
       min ≤ permill_from_rational (stat (ClaimStat k) - tr_amount x) (tr_supply x)) ∧
      (belongs w a c k (tr_receiver x) → ¬ belongs w a c k (tr_sender x) →
       permill_from_rational (saturating_add u128_max (stat (ClaimStat k)) (tr_amount x))
         (tr_supply x) ≤ max)
  end.

Definition allowed (w : World) (a : AssetScope) (x : transfer) (c : TransferCondition) : Prop :=
  passes w a x c ∨ is_exempt a c (tr_sender x) (tr_receiver x) w = true.

Lemma metered_verify c a s r tb amt supply ch :
  metered full
    match c with
    | MaxInvestorCount max =>
        verify_asset_count_restriction (mkStat1stKey a (get_stat_type c)) ch max
    | MaxInvestorOwnership max => verify_ownership_restriction amt tb supply max
    | ClaimCount k _ min max =>
        verify_claim_count_restriction (mkStat1stKey a (get_stat_type c)) (ClaimStat k) s r ch
          min max
    | ClaimOwnership k _ min max =>
        verify_claim_ownership_restriction (mkStat1stKey a (get_stat_type c)) (ClaimStat k) s r
          amt supply min max
    end.
Proof.
  destruct c; unfold verify_asset_count_restriction, verify_ownership_restriction,
    verify_claim_count_restriction, verify_claim_ownership_restriction, consume;
    repeat match goal with
    | |- metered _ (mbind _ _) => apply metered_bind; [|intros ?]
    | |- metered _ (mret _) => apply metered_ret
    | |- metered _ (gets _) => apply metered_gets
    | |- metered _ (consume_weight_meter _ _) => apply metered_consume
    | |- metered _ (if ?b then _ else _) => destruct b
    | |- metered _ (match ?b with _ => _ end) => destruct b
    end.
Qed.

Lemma metered_check c a s r tb amt supply ch :
  metered full (check_transfer_condition c a s r tb amt supply ch).
Proof.
  unfold check_transfer_condition, consume. apply metered_bind; [apply metered_verify|].
  intros []; [apply metered_ret|]. apply metered_bind; [apply metered_consume|].
  intros []. apply metered_gets.
Qed.

Ltac open_meter :=
  repeat match goal with
  | H : consume _ _ = (Ok _, _) |- _ =>
      let E := fresh "E" in
      apply (metered_Ok _ _ _ _ _ (metered_consume full _)) in H as [E _]
  end.

Lemma asset_count_Ok a x max w b w' :
  verify_asset_count_restriction (mkStat1stKey a investor_count_stat) (tr_changes x) max w
    = (Ok b, w') → b = true ↔ passes w a x (MaxInvestorCount max).
Proof.
  unfold verify_asset_count_restriction, passes, leaves, arrives. intros H. simpl.
  destruct (tr_changes x) as [[[] []]|]; simpl; ok_inv; open_meter; try naive_solver.
  rewrite bool_decide_eq_true, E. split; [done|]. auto.
Qed.

Lemma class_of_key w a s d : fetch_claim_as_key (Some d) (mkStat1stKey a s) w = class_of w a s d.
Proof. done. Qed.

Lemma claim_count_Ok a x k i min max w b w' :
  verify_claim_count_restriction (mkStat1stKey a (get_stat_type (ClaimCount k i min max)))
    (ClaimStat k) (tr_sender x) (tr_receiver x) (tr_changes x) min max w = (Ok b, w') →
  b = true ↔ passes w a x (ClaimCount k i min max).
Proof.
  unfold verify_claim_count_restriction, passes, leaves, arrives, belongs. intros H. simpl.
  destruct (tr_changes x) as [[fc tc]|]; simpl; [|ok_inv; naive_solver].
  apply SE_bind_Ok in H as (fm & w1 & [-> ->]%gets_Ok & H).
  apply SE_bind_Ok in H as (tm & w1 & [-> ->]%gets_Ok & H).
  unfold has_matching_claim in H. rewrite !class_of_key in H. simpl in H.
  set (P := class_of w a _ (tr_sender x) = ClaimStat k) in *.
  set (Q := class_of w a _ (tr_receiver x) = ClaimStat k) in *.
  pose proof (bool_decide_eq_true P) as HP. pose proof (bool_decide_eq_true Q) as HQ.
  set (p := bool_decide P) in *. set (q := bool_decide Q) in *. clearbody p q P Q.
  assert (∀ w1, same_but_meter w w1 → asset_stats (mkStat1stKey a (mkStatType OpCount
    (Some (stat_claim_type k, i)))) (ClaimStat k) w1 = asset_stats (mkStat1stKey a
    (mkStatType OpCount (Some (stat_claim_type k, i)))) (ClaimStat k) w) as Hst
    by (intros w1 Hm; by apply meter_stats).
  set (stat := asset_stats _ (ClaimStat k)) in *. clearbody stat.
  destruct (_ || _) eqn:Ec.
  - apply SE_bind_Ok in H as ([] & w1 & _ & [-> _]%ret_Ok). split; [intros _|done].
    destruct fc, tc, p, q; simpl in Ec; try done; naive_solver.
  - apply SE_bind_Ok in H as ([] & w1 & Hc & H). apply SE_bind_Ok in H as (c & w2 & [-> ->]%gets_Ok & H).
    apply (metered_Ok _ _ _ _ _ (metered_consume full _)) in Hc. rewrite (Hst w1 Hc) in H.
    set (n := stat w) in *. clearbody n. clear Hst Hc.
    destruct fc, tc, p, q; simpl in Ec; try done; rewrite ?andb_true_r, ?andb_false_r in H; simpl in H;
      destruct max as [m|]; repeat (case_bool_decide; simpl in H); apply ret_Ok in H as [-> _];
      naive_solver lia.
Qed.

Lemma ownership_Ok a x max w b w' :
  verify_ownership_restriction (tr_amount x) (tr_receiver_balance x) (tr_supply x) max w
    = (Ok b, w') → b = true ↔ passes w a x (MaxInvestorOwnership max).
Proof. unfold verify_ownership_restriction. intros H. ok_inv. apply bool_decide_eq_true. Qed.

Lemma claim_ownership_Ok a x k i min max w b w' :
  verify_claim_ownership_restriction (mkStat1stKey a (get_stat_type (ClaimOwnership k i min max)))
    (ClaimStat k) (tr_sender x) (tr_receiver x) (tr_amount x) (tr_supply x) min max w = (Ok b, w') →
  b = true ↔ passes w a x (ClaimOwnership k i min max).
Proof.
  unfold verify_claim_ownership_restriction, passes, belongs, saturating_sub. intros H. simpl.
  apply SE_bind_Ok in H as (fm & w1 & [-> ->]%gets_Ok & H).
  apply SE_bind_Ok in H as (tm & w1 & [-> ->]%gets_Ok & H).
  unfold has_matching_claim in H. rewrite !class_of_key in H. simpl in H.
  do 2 case_bool_decide; apply SE_bind_Ok in H as ([] & w1 & Hc & H);
    try (apply ret_Ok in H as [-> _]; split; [intros _; split; intros; done|done]);
    apply SE_bind_Ok in H as (n & w2 & [-> ->]%gets_Ok & [-> _]%ret_Ok);
    apply (metered_Ok _ _ _ _ _ (metered_consume full _)) in Hc;
    rewrite bool_decide_eq_true, (meter_stats _ _ _ _ Hc).
  - split; [intros Hle; split; [intros; exact Hle|done]|intros [Hle _]; by apply Hle].
  - split; [intros Hle; split; [done|intros; exact Hle]|intros [_ Hle]; by apply Hle].
Qed.

(** Checking a condition decides it. *)
Lemma check_condition_Ok a x c w b w' :
  check_transfer_condition c a (tr_sender x) (tr_receiver x) (tr_receiver_balance x) (tr_amount x)
    (tr_supply x) (tr_changes x) w = (Ok b, w') →
  (b = true ↔ allowed w a x c) ∧ same_but_meter w w'.
Proof.
  intros H. split; [|by eapply metered_Ok; [apply metered_check|]].
  unfold check_transfer_condition in H. apply SE_bind_Ok in H as (p & w1 & H1 & H).
  assert ((p = true ↔ passes w a x c) ∧ same_but_meter w w1) as [Hp Hm1].
  { split.
    - destruct c; eauto using asset_count_Ok, ownership_Ok, claim_count_Ok, claim_ownership_Ok.
    - eapply metered_Ok; [apply metered_verify|exact H1]. }
  unfold allowed. destruct p.
  - apply ret_Ok in H as [-> _]. naive_solver.
  - apply SE_bind_Ok in H as ([] & w2 & Hc & [-> ->]%gets_Ok). open_meter.
    replace (is_exempt a c (tr_sender x) (tr_receiver x) w2) with
      (is_exempt a c (tr_sender x) (tr_receiver x) w) by (rewrite E, (proj1 Hm1); done).
    naive_solver.
Qed.

Lemma allowed_meter w w' a x c : same_but_meter w w' → allowed w' a x c ↔ allowed w a x c.
Proof. intros [-> _]. done. Qed.

(** The transfer the pallet is asked about. *)
Definition asked (sender receiver : IdentityId) (sb rb amount supply : Balance) : transfer :=
  mkTransfer sender receiver rb amount supply
    (investor_count_changes (Some (sb - amount)) (Some (saturating_add u128_max rb amount)) amount).

Definition unrestricted (w : World) (t : Ticker) (x : transfer) : Prop :=
  transfer_paused (asset_transfer_compliance t w) = true ∨
  set_Forall (allowed w t x) (transfer_requirements (asset_transfer_compliance t w)).

Lemma for_conditions_Ok l a x w u w' :
  for_each l (λ c,
    b ← check_transfer_condition c a (tr_sender x) (tr_receiver x) (tr_receiver_balance x)
          (tr_amount x) (tr_supply x) (tr_changes x) ;
    check (λ _, ensure b (EStatistics StatInvalidTransfer))) w = (Ok u, w') →
  (∀ c, c ∈ l → allowed w a x c) ∧ same_but_meter w w'.
Proof.
  revert w. induction l as [|c l IH]; intros w H; simpl in H.
  { apply ret_Ok in H as [_ ->]. split; [|done]. by intros c ?%elem_of_nil. }
  ok_inv. match goal with H : check_transfer_condition _ _ _ _ _ _ _ _ _ = _ |- _ =>
    apply check_condition_Ok in H as [Hb Hm] end.
  apply IH in H as [Hl Hm']. split; [|by etrans].
  intros c' [->|Hin]%elem_of_cons; [by apply Hb|]. apply Hl in Hin. by rewrite <- allowed_meter.
Qed.

Lemma for_conditions_Err l a x w e w' :
  for_each l (λ c,
    b ← check_transfer_condition c a (tr_sender x) (tr_receiver x) (tr_receiver_balance x)
          (tr_amount x) (tr_supply x) (tr_changes x) ;
    check (λ _, ensure b (EStatistics StatInvalidTransfer))) w = (Err e, w') →
  same_but_meter w w' ∧
  ((e = EStatistics StatInvalidTransfer ∧ ∃ c, c ∈ l ∧ ¬ allowed w a x c) ∨
   (e = full ∧ consumed_weight (meter w') = weight_limit (meter w'))).
Proof.
  intros H. apply for_each_Err in H as (c & l1 & l2 & w1 & -> & H1 & H).
  apply for_conditions_Ok in H1 as [_ Hm1]. apply SE_bind_Err in H as [H|(b & w2 & H2 & H)].
  - pose proof (metered_check c a (tr_sender x) (tr_receiver x) (tr_receiver_balance x)
      (tr_amount x) (tr_supply x) (tr_changes x) w1) as Hm. rewrite H in Hm.
    destruct Hm as [Hm [-> ?]]. split; [by etrans|]. by right.
  - apply check_condition_Ok in H2 as [Hb Hm2]. apply check_Err in H as [H ->].
    apply ensure_Err in H as [-> ->]. split; [by etrans|]. left. split; [done|].
    exists c. split; [set_solver|]. rewrite <- (allowed_meter w w1) by done.
    intros Ha. by apply Hb in Ha.
Qed.

(** A transfer is let through exactly if nothing forbids it; the only other way
    out is a full meter. *)
Lemma verify_restrictions_spec t s r sb rb amount supply w res w' :
  verify_transfer_restrictions t s r sb rb amount supply w = (res, w') →
  same_but_meter w w' ∧
  match res with
  | Ok _ => unrestricted w t (asked s r sb rb amount supply)
  | Err e =>
      (e = EStatistics StatInvalidTransfer ∧ ¬ unrestricted w t (asked s r sb rb amount supply)) ∨
      (e = full ∧ consumed_weight (meter w') = weight_limit (meter w'))
  end.
Proof.
  unfold verify_transfer_restrictions, verify_requirements, unrestricted. intros H.
  unfold mbind, SE_bind, gets in H. destruct (transfer_paused _) eqn:Ep.
  { injection H as <- <-. split; [done|]. by left. }
  destruct res as [[]|e].
  - apply (for_conditions_Ok _ t (asked s r sb rb amount supply)) in H as [Hall Hm]. split; [done|].
    right. intros c Hc. apply Hall. by apply elem_of_elements.
  - apply (for_conditions_Err _ t (asked s r sb rb amount supply)) in H
      as [Hm [[-> (c & Hc & Hn)]|?]]; (split; [done|]); [|by right].
    left. split; [done|]. intros [?|Hall]; [congruence|]. apply Hn, Hall. by apply elem_of_elements.
Qed.

(** The detailed report agrees with the check. *)
Lemma condition_results_Ok l a x w rs w' :
  condition_results l a (tr_sender x) (tr_receiver x) (tr_receiver_balance x) (tr_amount x)
    (tr_supply x) (tr_changes x) w = (Ok rs, w') →
  Forall2 (λ c r, tcr_condition r = c ∧ (tcr_result r = true ↔ allowed w a x c)) l rs ∧
  same_but_meter w w'.
Proof.
  revert w rs. induction l as [|c l IH]; intros w rs H; simpl in H.
  { apply ret_Ok in H as [-> ->]. split; [constructor|done]. }
  ok_inv. match goal with H : check_transfer_condition _ _ _ _ _ _ _ _ _ = _ |- _ =>
    apply check_condition_Ok in H as [Hb Hm] end.
  match goal with H : condition_results _ _ _ _ _ _ _ _ _ = _ |- _ => apply IH in H as [Hl Hm'] end.
  split; [|by etrans]. constructor; [done|]. rewrite (proj1 Hm) in Hl. exact Hl.
Qed.

Lemma results_agree t s r sb rb amount supply w rs w' :
  get_transfer_restrictions_results t s r sb rb amount supply w = (Ok rs, w') →
  forallb tcr_result rs = true ↔
  set_Forall (allowed w t (asked s r sb rb amount supply))
    (transfer_requirements (asset_transfer_compliance t w)).
Proof.
  unfold get_transfer_restrictions_results. intros H.
  apply SE_bind_Ok in H as (tm & w1 & [-> ->]%gets_Ok & H).
  apply (condition_results_Ok _ t (asked s r sb rb amount supply)) in H as [Hl _].
  assert (forallb tcr_result rs = true ↔
    ∀ c, c ∈ elements (transfer_requirements (asset_transfer_compliance t w)) →
         allowed w t (asked s r sb rb amount supply) c) as ->.
  { induction Hl as [|c r' l rs' [_ Hc] Hl IH]; simpl.
    - split; [intros _ c ?%elem_of_nil; done|done].
    - rewrite andb_true_iff, Hc, IH. setoid_rewrite elem_of_cons. naive_solver. }
  unfold set_Forall. by setoid_rewrite elem_of_elements.
Qed.

(* ------------------------------------------------------------------ *)
(** * The limit on the number of investors *)

(** Investors: the identities with a balance. *)
Definition holders (bal : gmap IdentityId Balance) : N :=
  msum (λ _ b, if decide (b = 0) then 0 else 1) bal.

Lemma tracks_holders w t bal :
  tracks w t investor_count_stat bal → investor_count t w = holders bal.
Proof.
  intros H. unfold investor_count. rewrite (H NoClaimStat). unfold class_sum, holders.
  apply msum_ext. intros d b _. simpl. done.
Qed.

Lemma holders_class cls bal : (∀ d, cls d = NoClaimStat) →
  class_sum cls OpCount bal NoClaimStat = holders bal.
Proof.
  intros H. apply msum_ext. intros d b _. rewrite H, decide_True by done. done.
Qed.

(** A transfer that passed the check does not take the number of investors
    above the limit of the asset. *)
Lemma investor_limit t s r bal amount supply max w res w' :
  let m := mkMove (Some s) (Some r) amount in
  move_ok m bal → 0 < amount → tracks w t investor_count_stat bal →
  transfer_paused (asset_transfer_compliance t w) = false →
  MaxInvestorCount max ∈ transfer_requirements (asset_transfer_compliance t w) →
  is_exempt t (MaxInvestorCount max) s r w = false →
  verify_transfer_restrictions t s r (getd 0 bal s) (getd 0 bal r) amount supply w = (Ok res, w') →
  holders (after_move m bal) ≤ N.max (holders bal) max.
Proof.
  intros m Hm Ha Htr Hp Hin Hex H.
  apply verify_restrictions_spec in H as [_ [Hp'|Hall]]; [congruence|].
  destruct (Hall _ Hin) as [Hpass|He]; [|simpl in He; congruence].
  simpl in Hpass. fold (investor_count t w) in Hpass.
  change (asset_stats (mkStat1stKey t (mkStatType OpCount None)) NoClaimStat w)
    with (investor_count t w) in Hpass.
  rewrite (tracks_holders _ _ _ Htr) in Hpass.
  assert (getd 0 bal r + amount ≤ u128_max) as Hrb.
  { etrans; [|apply (mo_after _ _ Hm)]. unfold after_move, give_to, take_from. simpl.
    pose proof (mo_two _ _ Hm s eq_refl) as Hne. simpl in Hne.
    rewrite (getd_insert_ne 0 bal s r) by congruence.
    etrans; [|by apply (msum_getd_le 0 (λ _ b, b) _ r)]. by rewrite getd_insert_eq. }
  assert (1 ≤ holders bal) as Hs.
  { pose proof (msum_getd_le 0 (λ _ b, if decide (b = 0) then 0 else 1) bal s eq_refl) as Hle.
    pose proof (mo_funds _ _ Hm s eq_refl) as Hf. simpl in Hf, Hle.
    rewrite decide_False in Hle by lia. exact Hle. }
  rewrite <- (holders_class (λ _, NoClaimStat) (after_move m bal)) by done.
  rewrite (class_sum_move _ OpCount m bal NoClaimStat Ha Hm), holders_class by done.
  unfold leaves, arrives, asked, investor_count_changes in Hpass. simpl in Hpass |- *.
  rewrite saturating_add_small in Hpass by done.
  destruct (bool_decide (Some (getd 0 bal s - amount) = Some 0)),
    (bool_decide (Some (getd 0 bal r + amount) = Some amount)); simpl in *; try lia.
Qed.
End restrictions.

(* ------------------------------------------------------------------ *)
(** * What the calls keep *)

Section calls.
Context {RT : Runtime} {FM : FrameMeter} {SC : StatisticsConfig}.

(** Every condition has the statistic it reads, numbers are kept only for the
    statistics of an asset, and both lists are bounded. *)
Record stats_ok (s : StatisticsStore) : Prop := {
  so_needed : ∀ a c, c ∈ transfer_requirements
      (getd default_transfer_compliance (AssetTransferCompliances s) a) →
    get_stat_type c ∈ getd ∅ (ActiveAssetStats s) a;
  so_active : ∀ k1 k2, is_Some (AssetStats s !! (k1, k2)) →
    stat_stat_type k1 ∈ getd ∅ (ActiveAssetStats s) (stat_asset k1);
  so_stats : ∀ a, set_len (getd ∅ (ActiveAssetStats s) a) ≤ MaxStatsPerAsset;
  so_conditions : ∀ a, set_len (transfer_requirements
      (getd default_transfer_compliance (AssetTransferCompliances s) a))
    ≤ MaxTransferConditionsPerAsset;
}.
Notation ok w := (stats_ok (statistics (rest w))).

Lemma stats_ok_numbers s f :
  stats_ok s →
  (∀ k, is_Some (f !! k) → stat_stat_type k.1 ∈ getd ∅ (ActiveAssetStats s) (stat_asset k.1)) →
  stats_ok (s <| AssetStats := f |>).
Proof. intros [] Hf. constructor; simpl; try done. intros k1 k2 H. by apply (Hf (k1, k2)). Qed.

Lemma mutate_stat_ok k1 k2 f w u w' :
  ok w → stat_stat_type k1 ∈ active_asset_stats (stat_asset k1) w →
  mutate_stat k1 k2 f w = (Ok u, w') → ok w'.
Proof.
  unfold mutate_stat, on_statistics, on_rest. intros Hok Ha H. ok_inv.
  apply stats_ok_numbers; [done|]. intros [k1' k2'] Hk. simpl.
  destruct (decide ((k1, k2) = (k1', k2'))) as [E|E]; [by simplify_eq|].
  rewrite lookup_insert_ne in Hk by done. by eapply so_active.
Qed.

Lemma consume_keeps weight w u w' : consume weight w = (Ok u, w') → statistics (rest w') = statistics (rest w).
Proof. intros H. by apply (metered_Ok _ _ _ _ _ (metered_consume _ _)) in H as [-> _]. Qed.

(** Updating the numbers after a transfer. *)
Lemma update_asset_stats_ok t f g fb tb amount w u w' :
  ok w → update_asset_stats t f g fb tb amount w = (Ok u, w') →
  ok w' ∧ ActiveAssetStats (statistics (rest w')) = ActiveAssetStats (statistics (rest w)).
Proof.
  unfold update_asset_stats. intros Hok H. case_bool_decide; [by apply ret_Ok in H as [_ ->]|].
  apply SE_bind_Ok in H as ([] & w1 & H1 & H). apply consume_keeps in H1.
  apply SE_bind_Ok in H as (l & w2 & [-> ->]%gets_Ok & H).
  eapply (for_each_ind _ _ (λ w2, ok w2 ∧
    ActiveAssetStats (statistics (rest w2)) = ActiveAssetStats (statistics (rest w)))) in H;
    [done|by rewrite H1|].
  intros s w2 w3 Hs [Hok2 E2] Hu. apply elem_of_elements in Hs.
  assert (s ∈ active_asset_stats t w2) as Hact.
  { unfold active_asset_stats in *. rewrite E2, <- H1. done. }
  assert (∀ m w4 w5, m = mret tt ∨ (∃ k2 h, m = mutate_stat (mkStat1stKey t s) k2 h) → ok w4 →
    ActiveAssetStats (statistics (rest w4)) = ActiveAssetStats (statistics (rest w)) →
    m w4 = (Ok tt, w5) →
    ok w5 ∧ ActiveAssetStats (statistics (rest w5)) = ActiveAssetStats (statistics (rest w))) as Hstep.
  { intros m w4 w5 [->|(k2 & h & ->)] Hok4 E4 H4; [by apply ret_Ok in H4 as [_ ->]|]. split.
    - eapply mutate_stat_ok; [exact Hok4| |exact H4]. unfold active_asset_stats in *.
      simpl. by rewrite E4, <- E2.
    - unfold mutate_stat, on_statistics, on_rest in H4. by ok_inv. }
  unfold update_one, update_asset_count_stats, update_asset_balance_stats in Hu.
  destruct (stat_op s); [destruct (investor_count_changes fb tb amount) as [[cf ct]|]|]; ok_inv;
    [destruct (_ || _)|done|destruct (_ && _)].
  - apply consume_keeps in Hu. by rewrite Hu.
  - ok_inv. match goal with H : consume _ _ = _ |- _ => apply consume_keeps in H end.
    match goal with H : (if cf then _ else _) _ = _ |- _ =>
      apply Hstep in H as [??]; [|destruct cf; eauto|congruence..] end.
    eapply Hstep; [| | |exact Hu]; [destruct ct; eauto|congruence..].
  - apply consume_keeps in Hu. by rewrite Hu.
  - ok_inv. match goal with H : consume _ _ = _ |- _ => apply consume_keeps in H end.
    match goal with H : _ = (Ok tt, ?v) , H' : _ ?v = (Ok tt, w3) |- _ =>
      apply Hstep in H as [??]; [|destruct fb; eauto|congruence..] end.
    eapply Hstep; [| | |exact Hu]; [destruct tb; eauto|congruence..].
Qed.

(** Dropping the numbers of some statistics. *)
Lemma drop_stats_Ok a l w u w' :
  for_each l (λ s, on_statistics (λ st, st <| AssetStats ::= remove_prefix (mkStat1stKey a s) |>)) w
    = (Ok u, w') →
  statistics (rest w') =
    (statistics (rest w)) <| AssetStats := AssetStats (statistics (rest w')) |> ∧
  ∀ k1 k2 v, AssetStats (statistics (rest w')) !! (k1, k2) = Some v →
    AssetStats (statistics (rest w)) !! (k1, k2) = Some v ∧
    ¬ (stat_asset k1 = a ∧ stat_stat_type k1 ∈ l).
Proof.
  revert w. induction l as [|s l IH]; intros w H; simpl in H.
  { apply ret_Ok in H as [_ ->]. split; [by destruct (statistics (rest w))|]. set_solver. }
  apply SE_bind_Ok in H as ([] & w1 & H1 & H). unfold on_statistics, on_rest in H1. ok_inv.
  apply IH in H as [E Hl]. simpl in E. split; [exact E|]. intros k1 k2 v Hv.
  apply Hl in Hv as [Hv Hn]. simpl in Hv. rewrite lookup_remove_prefix in Hv.
  case_decide as Hk; [done|]. split; [done|]. intros [Ha [Es|Hin]%elem_of_cons]; [|by apply Hn].
  apply Hk. destruct k1; simpl in *; congruence.
Qed.

(** The calls of the pallet. *)
Lemma set_active_ok o a l w w' :
  ok w → set_active_asset_stats o a l w = (Ok tt, w') → ok w'.
Proof.
  unfold set_active_asset_stats. intros Hok H. ok_inv.
  match goal with H : for_each _ _ _ = _ |- _ => apply drop_stats_Ok in H as [Er Hr] end.
  match goal with H : for_check _ _ = _ |- _ => rename H into Hchk end.
  match goal with H : on_statistics _ ?w1 = (_, ?w2) |- _ =>
    unfold on_statistics, on_rest in H; ok_inv; rename w1 into wr end.
  assert (statistics (rest w') = (statistics (rest wr)) <| ActiveAssetStats ::= <[a := l]> |>) as ->.
  { unfold deposit_event in *. destruct (filter _ _), (elements l); ok_inv; done. }
  rewrite Er. destruct Hok as [Hn Ha Hs Hc]. constructor; simpl.
  - intros a' c Hin. rewrite getd_insert. case_decide as E; [subst a'|by apply Hn].
    destruct (decide (get_stat_type c ∈ l)) as [|Hnin]; [done|]. exfalso.
    eapply for_check_Ok in Hchk.
    2: { apply list_elem_of_filter. split; [exact Hnin|]. apply elem_of_elements. by apply Hn. }
    ok_inv. apply Hchk. apply elem_of_list_to_set, list_elem_of_fmap. exists c.
    split; [done|]. by apply elem_of_elements.
  - intros k1 k2 [v Hv]. apply Hr in Hv as [Hv Hnr]. rewrite getd_insert.
    assert (stat_stat_type k1 ∈ getd ∅ (ActiveAssetStats (statistics (rest w))) (stat_asset k1)) as Hact
      by (by eapply Ha).
    case_decide as E; [|done]. destruct (decide (stat_stat_type k1 ∈ l)) as [|Hnin]; [done|].
    exfalso. apply Hnr. split; [done|]. apply list_elem_of_filter. split; [done|].
    apply elem_of_elements. by rewrite E.
  - intros a'. rewrite getd_insert. by case_decide.
  - done.
Qed.

Lemma batch_update_ok o a s l w w' :
  ok w → batch_update_asset_stats o a s l w = (Ok tt, w') → ok w'.
Proof.
  unfold batch_update_asset_stats, is_asset_stat_active, deposit_event. intros Hok H. ok_inv.
  match goal with H : s ∈ _ |- _ => rename H into Hact end.
  match goal with H : for_each _ _ _ = _ |- _ =>
    eapply (for_each_ind _ _ (λ w2, ok w2 ∧ active_asset_stats a w2 = active_asset_stats a w)) in H
      as [? _]; [done|done|] end.
  intros u w1 w2 _ [Hok1 E1] Hu. rewrite <- E1 in Hact. unfold on_statistics, on_rest in Hu.
  destruct (update_value u); ok_inv; (split; [|done]); apply stats_ok_numbers; try done;
    intros [k1 k2] Hk; simpl.
  - apply lookup_insert_is_Some in Hk as [E|[_ Hk]]; [by simplify_eq|]. by eapply so_active.
  - destruct Hk as [v Hk]. apply lookup_delete_Some in Hk as [_ Hk]. by eapply so_active.
Qed.

Lemma set_conditions_ok o a l w w' :
  ok w → set_asset_transfer_compliance o a l w = (Ok tt, w') → ok w'.
Proof.
  unfold set_asset_transfer_compliance, on_statistics, on_rest, deposit_event. intros Hok H. ok_inv.
  destruct Hok as [Hn Ha Hs Hc]. case_bool_decide as Hl; ok_inv; constructor; simpl; try done.
  - intros a' c. rewrite getd_insert. case_decide; [subst a'|by apply Hn]. simpl. intros Hin.
    match goal with H : for_check _ _ = _ |- _ =>
      eapply for_check_Ok in H; [|by apply elem_of_elements] end.
    unfold is_asset_stat_active in *. ok_inv. done.
  - intros a'. rewrite getd_insert. by case_decide.
  - intros a' c. rewrite getd_delete. case_decide; [subst a'; simpl; set_solver|by apply Hn].
  - intros a'. rewrite getd_delete. case_decide; [|done]. simpl. unfold set_len. rewrite size_empty.
    apply N.le_0_l.
Qed.

Lemma set_exempt_ok o b k l w w' : ok w → set_entities_exempt o b k l w = (Ok tt, w') → ok w'.
Proof.
  unfold set_entities_exempt, deposit_event. intros Hok H. ok_inv. destruct b; ok_inv;
    (match goal with H : for_each _ _ _ = _ |- _ => eapply (for_each_ind _ _ (λ w2, ok w2)) in H end;
     [done|done|]); intros e w1 w2 _ [] He; unfold on_statistics, on_rest in He; ok_inv;
    by constructor.
Qed.

Lemma statistics_dispatch_ok o c w w' : ok w → dispatch o c w = (Ok tt, w') → ok w'.
Proof.
  intros Hok H. destruct c; simpl in H;
    eauto using set_active_ok, batch_update_ok, set_conditions_ok, set_exempt_ok.
Qed.
End calls.
End StatisticsInv.
