(* ===== verification/Restrictions.v ===== *)
(** The books with the modelled neighbours: statistics, compliance, the
    identity records of assets and protocol fees implement what the books
    expect of them, and what follows for transfers. *)

From stdpp Require Import base numbers list gmap sets strings sorting.
From S2P Require Import Prelude Subset AssetIdentifier Types ClaimTypes SettlementTypes Schedules.
From S2P Require Import State Identity Claims Keys Agents Portfolio Checkpoint Asset Metering.
From S2P Require Import Sorting Compliance ComplianceInv Statistics StatisticsInv.

Local Open Scope N_scope.

(** The interface of the books, implemented. *)
Definition modelled_externals {RT : Runtime} {FE : Fees} {IC : IdentityConfig} {FM : FrameMeter}
    {CC : ComplianceConfig} {SC : StatisticsConfig} : Externals := {|
  charge_fees := λ ops, as_ext (call_elsewhere (charge_protocol_fees ops));
  batch_charge_fee := λ op n, as_ext (call_elsewhere (batch_charge_protocol_fee op n));
  get_token_did := token_did;
  ensure_token_did_fresh := Keys.ensure_asset_did_fresh;
  commit_token_did := Keys.commit_asset_did;
  verify_transfer_restrictions := λ t s r sb rb amount supply,
    as_ext (Statistics.verify_transfer_restrictions t s r sb rb amount supply);
  update_asset_stats := λ t f g fb tb amount,
    as_ext (Statistics.update_asset_stats t f g fb tb amount);
  is_compliant := λ t s r, as_ext (Compliance.is_compliant t s r);
|}.

Module Restrictions.
Import Metering StatisticsInv ComplianceInv.

(** The balances of one asset. *)
Definition holdings (t : Ticker) (b : gmap (Ticker * IdentityId) Balance)
    : gmap IdentityId Balance := list_to_map (iter_prefix b t).

Lemma lookup_holdings t b d : holdings t b !! d = b !! (t, d).
Proof.
  unfold holdings. apply option_eq. intros v. rewrite <- elem_of_iter_prefix.
  symmetry. apply elem_of_list_to_map. apply NoDup_iter_prefix.
Qed.
Lemma getd_holdings t b d : getd 0 (holdings t b) d = getd 0 b (t, d).
Proof. unfold getd. by rewrite lookup_holdings. Qed.

Lemma holdings_insert t b d v : holdings t (<[(t, d) := v]> b) = <[d := v]> (holdings t b).
Proof.
  apply map_eq. intros d'. rewrite lookup_holdings, !lookup_insert, lookup_holdings.
  repeat case_decide; naive_solver.
Qed.

Lemma msum_holdings (g : IdentityId → Balance → N) t b :
  msum g (holdings t b) = msum (λ k v, if decide (k.1 = t) then g k.2 v else 0) b.
Proof.
  induction b as [|[t' d] v b Hk IH] using map_ind; [done|].
  rewrite msum_insert_fresh by done. simpl. case_decide as E.
  - subst t'. rewrite holdings_insert, msum_insert_fresh by (by rewrite lookup_holdings). by rewrite IH.
  - rewrite <- IH, N.add_0_l. f_equal. apply map_eq. intros d'. rewrite !lookup_holdings, lookup_insert_ne; congruence.
Qed.

Section restrictions.
Context {RT : Runtime} {FE : Fees} {IC : IdentityConfig} {FM : FrameMeter}.
Context {CC : ComplianceConfig} {SC : StatisticsConfig}.
#[local] Existing Instance modelled_externals.

Lemma external_as_ext {A} (m : M A) w r w' :
  external (as_ext m) w = (r, w') →
  ∃ w1, m w = (r, w1) ∧ w' = w <| rest := rest w1 |> <| meter := meter w1 |>.
Proof.
  unfold external, as_ext. destruct (m w) as [r1 w1]. intros [= -> <-]. by exists w1.
Qed.

Lemma same_meter_external w w1 :
  same_but_meter w w1 → w <| rest := rest w1 |> <| meter := meter w1 |> = w1.
Proof. intros [E _]. rewrite E. by destruct w. Qed.

(** The validity check of a transfer consumes weight and nothing else; the
    status of success means compliance and no restriction in the way. *)
Lemma is_valid_transfer_Ok t from to value w status w' :
  Asset.is_valid_transfer t from to value w = (Ok status, w') →
  same_but_meter w w' ∧
  (status = ERC1400_TRANSFER_SUCCESS →
   Asset.frozen t w = false ∧ compliant w t (did from) (did to) ∧
   unrestricted w t (asked (did from) (did to) (Asset.balance_of t (did from) w)
                       (Asset.balance_of t (did to) w) value (Asset.supply t w))).
Proof.
  unfold Asset.is_valid_transfer, Asset.statistics_failures. intros H. ok_inv.
  destruct (Asset.frozen t w); [by ok_inv|]. ok_inv.
  destruct (Asset.portfolio_failure _ _ _ _ _); [by ok_inv|]. ok_inv.
  match goal with H : external _ w = _ |- _ => apply external_as_ext in H as (w1 & H1 & ->) end.
  apply verify_restrictions_spec in H1 as [Hm Hu]. rewrite (same_meter_external _ _ Hm) in H.
  match goal with H : (if is_err ?r then _ else _) _ = _ |- _ => destruct r as [[]|] end; simpl in H;
    ok_inv; [|done].
  match goal with H : external _ _ = _ |- _ => apply external_as_ext in H as (w2 & H2 & ->) end.
  apply is_compliant_Ok in H2 as [Hc Hm2]. rewrite (same_meter_external _ _ Hm2) in H.
  assert (same_but_meter w w2) as Hm' by (by etrans).
  destruct x; ok_inv; (split; [done|]); [|done]. intros _. split; [done|]. split; [|done].
  pose proof (proj1 Hc eq_refl) as Hcomp. rewrite (proj1 Hm) in Hcomp. exact Hcomp.
Qed.

(** A transfer that went through was compliant and within the restrictions of
    the asset. *)
Lemma transfer_checked from to t value iid memo caller w w' :
  Asset.base_transfer from to t value iid memo caller w = (Ok tt, w') →
  Asset.frozen t w = false ∧
  compliant w t (did from) (did to) ∧
  unrestricted w t (asked (did from) (did to) (Asset.balance_of t (did from) w)
                      (Asset.balance_of t (did to) w) value (Asset.supply t w)).
Proof.
  unfold Asset.base_transfer. intros H. ok_inv.
  match goal with H : Asset.is_valid_transfer _ _ _ _ _ = _ |- _ =>
    apply is_valid_transfer_Ok in H as [_ Hok] end. by apply Hok.
Qed.

(* ------------------------------------------------------------------ *)
(** ** The statistics follow the balances *)

(** All active statistics of the asset are exact for its balances. *)
Definition exact (t : Ticker) (w : World) : Prop :=
  ∀ s, s ∈ Statistics.active_asset_stats t w → tracks w t s (holdings t (BalanceOf (asset w))).

Lemma tracks_ext w w' t s bal :
  records (rest w') = records (rest w) → statistics (rest w') = statistics (rest w) →
  now w' = now w → tracks w t s bal → tracks w' t s bal.
Proof.
  intros E0 E1 E2 H k. specialize (H k). unfold Statistics.asset_stats, class_of,
    Statistics.fetch_claim_as_key, Claim.fetch_claim, Claim.fetch_base_claim_with_issuer in *.
  by rewrite E0, E1, E2.
Qed.

Lemma external_report t m bal w u w' :
  move_ok m bal → (∀ s, s ∈ Statistics.active_asset_stats t w → tracks w t s bal) →
  external (update_asset_stats t (mv_from m) (mv_to m)
    ((λ d, getd 0 bal d - mv_amount m) <$> mv_from m)
    ((λ d, getd 0 bal d + mv_amount m) <$> mv_to m) (mv_amount m)) w = (Ok u, w') →
  (∀ s, s ∈ Statistics.active_asset_stats t w' → tracks w' t s (after_move m bal)) ∧
  ∃ x mt, w' = w <| rest := x |> <| meter := mt |>.
Proof.
  intros Hm Htr H. apply external_as_ext in H as (w1 & H1 & ->). split; [|eauto].
  apply (report_tracks t m bal) in H1 as [Hso Ht]; [|done|done]. intros s Hs.
  apply (tracks_ext w1); [done|done| |by apply Ht]. rewrite Hso. done.
Qed.

Lemma total_holdings t w :
  Asset.supply_ok w → msum (λ _ b, b) (holdings t (BalanceOf (asset w))) ≤ Asset.MAX_SUPPLY.
Proof.
  intros [Hs _ Hm]. rewrite msum_holdings. specialize (Hs t). specialize (Hm t).
  unfold Asset.total_held in Hs. lia.
Qed.

Lemma max_supply_u128 : Asset.MAX_SUPPLY ≤ u128_max.
Proof. vm_compute. done. Qed.

(** A move of balances that is reported keeps the statistics exact. *)
Lemma move_exact t m w w0 w1 w' u :
  Asset.supply_ok w → Asset.supply_ok w' → exact t w →
  (∀ d, mv_from m = Some d → mv_amount m ≤ Asset.balance_of t d w ∧ mv_to m ≠ Some d) →
  holdings t (BalanceOf (asset w')) = after_move m (holdings t (BalanceOf (asset w))) →
  records (rest w0) = records (rest w) → statistics (rest w0) = statistics (rest w) →
  now w0 = now w →
  external (update_asset_stats t (mv_from m) (mv_to m)
    ((λ d, Asset.balance_of t d w - mv_amount m) <$> mv_from m)
    ((λ d, Asset.balance_of t d w + mv_amount m) <$> mv_to m) (mv_amount m)) w0 = (Ok u, w1) →
  rest w' = rest w1 → now w' = now w1 → exact t w'.
Proof.
  intros Hs Hs' Hex Hm Eb E0 E1 E2 H E3 E4. set (bal := holdings t (BalanceOf (asset w))) in *.
  pose proof (total_holdings t w Hs) as Ht. pose proof (total_holdings t w' Hs') as Ht'.
  pose proof max_supply_u128 as Hmax. rewrite Eb in Ht'.
  assert (∀ d, getd 0 bal d = Asset.balance_of t d w) as Hb by (intros d; apply getd_holdings).
  assert (move_ok m bal) as Hmo.
  { constructor.
    - intros d Hd. rewrite Hb. by apply Hm.
    - intros d Hd. by apply Hm.
    - unfold bal. lia.
    - lia. }
  assert (∀ h : N → N, ((λ d, h (getd 0 bal d)) <$> mv_from m) =
    ((λ d, h (Asset.balance_of t d w)) <$> mv_from m)) as Ef.
  { intros h. destruct (mv_from m); [|done]. simpl. by rewrite Hb. }
  assert (∀ h : N → N, ((λ d, h (getd 0 bal d)) <$> mv_to m) =
    ((λ d, h (Asset.balance_of t d w)) <$> mv_to m)) as Eg.
  { intros h. destruct (mv_to m); [|done]. simpl. by rewrite Hb. }
  rewrite <- (Ef (λ b, b - mv_amount m)), <- (Eg (λ b, b + mv_amount m)) in H.
  apply (external_report t m bal) in H as [Hall _]; [|done|].
  - intros s Hsa. unfold Statistics.active_asset_stats in *. rewrite E3 in Hsa. rewrite Eb.
    eapply tracks_ext; [by rewrite E3|by rewrite E3|exact E4|]. by apply Hall.
  - intros s Hsa. unfold Statistics.active_asset_stats in *. rewrite E1 in Hsa.
    eapply tracks_ext; [exact E0|exact E1|exact E2|]. by apply Hex.
Qed.

Lemma unsafe_transfer_exact from to t value iid memo caller w w' :
  Asset.supply_ok w → Asset.supply_ok w' → exact t w →
  Asset.unsafe_transfer from to t value iid memo caller w = (Ok tt, w') → exact t w'.
Proof.
  intros Hs Hs' Hex H. pose proof (Asset.unsafe_transfer_Ok _ _ _ _ _ _ _ _ _ H)
    as (_ & Hne & Hle & Hto & _ & _ & EA & _ & _).
  assert (holdings t (BalanceOf (asset w')) =
    after_move (mkMove (Some (did from)) (Some (did to)) value) (holdings t (BalanceOf (asset w))))
    as Eb.
  { rewrite EA. unfold after_move, give_to, take_from. simpl.
    rewrite !holdings_insert, getd_insert_ne, !getd_holdings by done. done. }
  clear EA. unfold Asset.unsafe_transfer, on_asset, deposit_event in H. ok_inv.
  match goal with H : checked_add _ _ _ = Some _ |- _ => apply checked_add_Some in H as [-> _] end.
  match goal with H : Checkpoint.advance_update_balances _ _ _ = _ |- _ =>
    apply Checkpoint.advance_update_balances_frame in H as (s1 & e1 & ->) end.
  match goal with H : Portfolio.unchecked_transfer_portfolio_balance _ _ _ _ _ = _ |- _ =>
    rewrite Portfolio.unchecked_transfer_eq in H; injection H as <- end.
  match goal with H : external _ _ = _ |- _ =>
    eapply (move_exact t (mkMove (Some (did from)) (Some (did to)) value) w);
      [done|done|done| |exact Eb| | | |exact H| |]; try done end.
  simpl. intros d [= <-]. split; [done|]. congruence.
Qed.

(** Issuing. *)
Lemma mint_exact t issuer value fee w w' :
  Asset.supply_ok w → Asset.supply_ok w' → exact t w →
  Asset.mint t issuer value fee w = (Ok tt, w') → exact t w'.
Proof.
  intros Hs Hs' Hex H. pose proof (Asset.mint_Ok _ _ _ _ _ _ H)
    as (token & Et & _ & Hmax & _ & _ & EA & _ & _).
  assert (Asset.balance_of t (did issuer) w + value ≤ u128_max) as Hle.
  { pose proof (total_holdings t w Hs) as Ht. pose proof max_supply_u128.
    destruct Hs as [Hsup _ _]. specialize (Hsup t). unfold Asset.supply in Hsup. rewrite Et in Hsup.
    simpl in Hsup.
    pose proof (msum_getd_le 0 (λ _ b, b) (holdings t (BalanceOf (asset w))) (did issuer) eq_refl) as Hd.
    rewrite getd_holdings in Hd. rewrite msum_holdings in Hd. unfold Asset.total_held in Hsup.
    unfold Asset.balance_of in *. lia. }
  assert (holdings t (BalanceOf (asset w')) =
    after_move (mkMove None (Some (did issuer)) value) (holdings t (BalanceOf (asset w)))) as Eb.
  { rewrite EA. unfold after_move, give_to, take_from. simpl.
    rewrite wrapping_add_small by done. by rewrite !holdings_insert, !getd_holdings. }
  clear EA. unfold Asset.mint, on_asset, deposit_event in H. ok_inv.
  match goal with H : with_storage_transaction _ _ = _ |- _ => apply with_storage_transaction_Ok in H end.
  ok_inv. match goal with H : Checkpoint.advance_update_balances _ _ _ = _ |- _ =>
    apply Checkpoint.advance_update_balances_frame in H as (s1 & e1 & ->) end.
  match goal with H : Portfolio.set_portfolio_balance _ _ _ _ = _ |- _ =>
    rewrite Portfolio.set_portfolio_balance_eq in H; injection H as <- end.
  rewrite wrapping_add_small in * by done.
  match goal with H : (match fee with _ => _ end) w = (_, ?w0) |- _ =>
    assert (records (rest w0) = records (rest w) ∧ statistics (rest w0) = statistics (rest w) ∧
      now w0 = now w) as (E1 & E2 & E3) end.
  { destruct fee; [|by ok_inv].
    match goal with H : external _ w = _ |- _ =>
      apply external_as_ext in H as (w1 & Hc & ->) end.
    by apply call_elsewhere_Ok in Hc as [x ->]. }
  match goal with H : external _ _ = _ |- _ =>
    eapply (move_exact t (mkMove None (Some (did issuer)) value) w);
      [done|done|done| |exact Eb| | | |exact H| |]; try done end.
Qed.

(** Redeeming. *)
Lemma redeem_exact o t value k w w' :
  Asset.supply_ok w → Asset.supply_ok w' → Portfolio.balances_ok (portfolio w) → exact t w →
  Asset.base_redeem o t value k w = (Ok tt, w') → exact t w'.
Proof.
  intros Hs Hs' Hb Hex H. pose proof (Asset.base_redeem_Ok _ _ _ _ _ _ H)
    as (pid & token & Hp & Et & _ & _ & Hfree & _ & EA & _ & _).
  assert (value ≤ Asset.balance_of t (did pid) w ∧ Asset.balance_of t (did pid) w ≤ u128_max)
    as [Hle Hle'].
  { pose proof (Asset.portfolios_held_ge (PortfolioAssetBalances (portfolio w)) t pid) as Hge.
    rewrite <- (Asset.ok_identity _ Hs) in Hge. unfold Portfolio.portfolio_asset_balances in Hfree.
    split; [lia|]. pose proof (total_holdings t w Hs). pose proof max_supply_u128.
    pose proof (msum_getd_le 0 (λ _ b, b) (holdings t (BalanceOf (asset w))) (did pid) eq_refl) as Hd.
    rewrite getd_holdings in Hd. unfold Asset.balance_of. lia. }
  assert (holdings t (BalanceOf (asset w')) =
    after_move (mkMove (Some (did pid)) None value) (holdings t (BalanceOf (asset w)))) as Eb.
  { rewrite EA. unfold after_move, give_to, take_from. simpl.
    rewrite wrapping_sub_small by done. by rewrite !holdings_insert, !getd_holdings. }
  clear EA. unfold Asset.base_redeem, on_asset, deposit_event in H. ok_inv.
  match goal with H : with_storage_transaction _ _ = _ |- _ => apply with_storage_transaction_Ok in H end.
  ok_inv. match goal with H : Checkpoint.advance_update_balances _ _ _ = _ |- _ =>
    apply Checkpoint.advance_update_balances_frame in H as (s1 & e1 & ->) end.
  match goal with H : Portfolio.reduce_portfolio_balance _ _ _ _ = _ |- _ =>
    apply Portfolio.reduce_portfolio_balance_Ok in H as [_ ->] end.
  match goal with H : Asset.ensure_origin_ticker_and_portfolio_permissions _ _ _ _ _ = Ok ?p |- _ =>
    assert (p = pid) as -> by congruence end.
  match goal with H : external _ _ = _ |- _ => rename H into Hx end.
  change (Asset.balance_of t (did pid) _) with (Asset.balance_of t (did pid) w) in Hx.
  rewrite wrapping_sub_small in Hx by done.
  eapply (move_exact t (mkMove (Some (did pid)) None value) w);
    [done|done|done| |exact Eb| | | |exact Hx| |]; try done.
  simpl. intros d [= <-]. done.
Qed.
(** The asset a call moves balances of. *)
Definition moved_asset (c : Asset.call) : option Ticker :=
  match c with
  | Asset.Issue t _ _ | Asset.Redeem t _ | Asset.RedeemFromPortfolio t _ _
  | Asset.AssetControllerTransfer t _ _ => Some t
  | _ => None
  end.

Lemma exact_meter t w m : exact t w → exact t (w <| meter := m |>).
Proof. done. Qed.

(** Issuing, redeeming and forced transfers keep the statistics of their asset
    exact. *)
Lemma asset_moves_exact o c t w w' :
  moved_asset c = Some t → Asset.supply_ok w → Portfolio.balances_ok (portfolio w) → exact t w →
  Asset.dispatch o c w = (Ok tt, w') → exact t w'.
Proof.
  intros Hc Hs Hb Hex H.
  assert (∀ m, Asset.supply_ok (w <| meter := m |>)) as Hs' by (intros m; by destruct Hs).
  destruct c; simplify_eq/=.
  - unfold Asset.issue, set_meter in H. ok_inv.
    eapply mint_exact; [apply Hs'|..|exact H]; [|by apply exact_meter].
    eapply Asset.mint_supply_ok; [apply Hs'|exact H].
  - unfold Asset.redeem, set_meter in H. ok_inv.
    eapply redeem_exact; [apply Hs'|..|exact H]; [|done|by apply exact_meter].
    eapply Asset.base_redeem_supply_ok; [apply Hs'|exact H].
  - unfold Asset.redeem_from_portfolio, set_meter in H. ok_inv.
    eapply redeem_exact; [apply Hs'|..|exact H]; [|done|by apply exact_meter].
    eapply Asset.base_redeem_supply_ok; [apply Hs'|exact H].
  - unfold Asset.controller_transfer, set_meter, deposit_event in H. ok_inv.
    match goal with H : Asset.unsafe_transfer _ _ _ _ _ _ _ _ = _ |- _ => rename H into Ht end.
    eapply unsafe_transfer_exact in Ht as Hx; [exact Hx|apply Hs'| |by apply exact_meter].
    eapply Asset.unsafe_transfer_supply_ok; [apply Hs'|done|exact Ht].
Qed.

(** So does a checked transfer, the one a settlement makes. *)
Lemma base_transfer_exact from to t value iid memo caller w w' :
  Asset.supply_ok w → Portfolio.balances_ok (portfolio w) → exact t w →
  Asset.base_transfer from to t value iid memo caller w = (Ok tt, w') → exact t w'.
Proof.
  intros Hs Hb Hex H. unfold Asset.base_transfer in H. ok_inv.
  match goal with H : Asset.is_valid_transfer _ _ _ _ _ = _ |- _ =>
    apply is_valid_transfer_Ok in H as [[E _] _] end.
  rewrite E in H.
  match type of H with _ (w <| meter := ?m |>) = _ =>
    assert (Asset.supply_ok (w <| meter := m |>)) as Hs' by (by destruct Hs) end.
  eapply unsafe_transfer_exact; [exact Hs'|..|exact H]; [|by apply exact_meter].
  eapply Asset.unsafe_transfer_supply_ok; [exact Hs'|done|exact H].
Qed.
End restrictions.
End Restrictions.
