(* ===== verification/TransferReport.v ===== *)
(** The reports on a transfer before it is made (src/pallets/asset/src/lib.rs,
    [unsafe_can_transfer] and [unsafe_can_transfer_granular], which the node's
    RPC calls): every check with its own answer, next to the checks a transfer
    makes itself. *)

From stdpp Require Import base numbers list gmap sets strings sorting.
From S2P Require Import Prelude Subset AssetIdentifier Types ClaimTypes SettlementTypes Schedules.
From S2P Require Import State Identity Metering Claims Keys Agents Portfolio Checkpoint Asset.
From S2P Require Import Sorting Compliance ComplianceInv Statistics StatisticsInv Restrictions.

Local Open Scope N_scope.

(** Codes of src/pallets/common/src/constants.rs. *)
Definition ERC1400_TRANSFER_FAILURE : N := 0x50.
Definition ERC1400_INSUFFICIENT_BALANCE : N := 0x52.
Definition INVALID_SENDER_DID : N := 0xa0.
Definition INVALID_RECEIVER_DID : N := 0xa1.
Definition INVALID_GRANULARITY : N := 0xa4.
Definition CUSTODIAN_ERROR : N := 0xaa.

Module TransferReport.
Import Metering Compliance Statistics ComplianceInv StatisticsInv Restrictions.

(** src/primitives/src/asset.rs. *)
Record GranularCanTransferResult : Type := mkGranularCanTransferResult {
  invalid_granularity : bool;
  self_transfer : bool;
  invalid_receiver_cdd : bool;
  invalid_sender_cdd : bool;
  receiver_custodian_error : bool;
  sender_custodian_error : bool;
  sender_insufficient_balance : bool;
  portfolio_validity_result : PortfolioValidityResult;
  asset_frozen : bool;
  transfer_condition_result : list TransferConditionResult;
  compliance_result : AssetComplianceResult;
  report_result : bool;
  report_consumed_weight : option Weight;
}.

Definition invalid_granularity_of (t : Ticker) (value : Balance) (w : World) : bool :=
  negb (Asset.check_granularity t value w).
Definition self_transfer_of (from to : PortfolioId) : bool := bool_decide (did from = did to).
Definition invalid_cdd (d : IdentityId) (w : World) : bool := negb (Claim.has_valid_cdd d w).
Definition custodian_error (p : PortfolioId) (custodian : IdentityId) (w : World) : bool :=
  is_err (Portfolio.ensure_portfolio_custody p custodian w).
Definition insufficient_balance (t : Ticker) (d : IdentityId) (value : Balance) (w : World)
    : bool :=
  bool_decide (Asset.balance_of t d w < value).

Section report.
Context {RT : Runtime} {FE : Fees} {IC : IdentityConfig} {FM : FrameMeter}.
Context {CC : ComplianceConfig} {SC : StatisticsConfig}.
#[local] Existing Instance modelled_externals.

Definition transfer_condition_failures_granular (from_did to_did : IdentityId) (t : Ticker)
    (value : Balance) : M (list TransferConditionResult) :=
  total_supply ← gets (Asset.supply t) ;
  from_balance ← gets (Asset.balance_of t from_did) ;
  to_balance ← gets (Asset.balance_of t to_did) ;
  Statistics.get_transfer_restrictions_results t from_did to_did from_balance to_balance value
    total_supply.

(** [unsafe_can_transfer]; the weight meter is that of the state. *)
Definition unsafe_can_transfer (from_custodian : option IdentityId) (from : PortfolioId)
    (to_custodian : option IdentityId) (to : PortfolioId) (t : Ticker) (value : Balance) : M N :=
  λ w,
  if invalid_granularity_of t value w then (Ok INVALID_GRANULARITY, w)
  else if self_transfer_of from to then (Ok INVALID_RECEIVER_DID, w)
  else if invalid_cdd (did from) w then (Ok INVALID_SENDER_DID, w)
  else if custodian_error from (default (did from) from_custodian) w then (Ok CUSTODIAN_ERROR, w)
  else if invalid_cdd (did to) w then (Ok INVALID_RECEIVER_DID, w)
  else if custodian_error to (default (did to) to_custodian) w then (Ok CUSTODIAN_ERROR, w)
  else if insufficient_balance t (did from) value w then (Ok ERC1400_INSUFFICIENT_BALANCE, w)
  else if Asset.portfolio_failure from to t value w then (Ok PORTFOLIO_FAILURE, w)
  else match Asset.is_valid_transfer t from to value w with
       | (Ok status, w') => (Ok status, w')
       | (Err _, w') => (Ok ERC1400_TRANSFER_FAILURE, w')
       end.

Definition unsafe_can_transfer_granular (from_custodian : option IdentityId)
    (from : PortfolioId) (to_custodian : option IdentityId) (to : PortfolioId) (t : Ticker)
    (value : Balance) : M GranularCanTransferResult :=
  granularity ← gets (invalid_granularity_of t value) ;
  let self := self_transfer_of from to in
  receiver_cdd ← gets (invalid_cdd (did to)) ;
  sender_cdd ← gets (invalid_cdd (did from)) ;
  receiver_custodian ← gets (custodian_error to (default (did to) to_custodian)) ;
  sender_custodian ← gets (custodian_error from (default (did from) from_custodian)) ;
  insufficient ← gets (insufficient_balance t (did from) value) ;
  validity ← gets (Portfolio.ensure_portfolio_transfer_validity_granular from to t value) ;
  frozen ← gets (Asset.frozen t) ;
  conditions ← transfer_condition_failures_granular (did from) (did to) t value ;
  compliance ← Compliance.verify_restriction_granular t (Some (did from)) (Some (did to)) ;
  weight ← gets (λ w, consumed (meter w)) ;
  mret (mkGranularCanTransferResult granularity self receiver_cdd sender_cdd receiver_custodian
    sender_custodian insufficient validity frozen conditions compliance
    (negb granularity && negb self && negb receiver_cdd && negb sender_cdd &&
     negb receiver_custodian && negb sender_custodian && negb insufficient &&
     pv_result validity && negb frozen && forallb tcr_result conditions &&
     acr_result compliance)
    (Some weight)).

(* ------------------------------------------------------------------ *)
(** ** What the report says *)

Lemma portfolio_validity_agrees from to t value w :
  pv_result (Portfolio.ensure_portfolio_transfer_validity_granular from to t value w) =
  negb (Asset.portfolio_failure from to t value w).
Proof.
  unfold Asset.portfolio_failure, Portfolio.ensure_portfolio_transfer_validity_granular,
    Portfolio.ensure_portfolio_transfer_validity. simpl.
  destruct (decide (from = to)) as [->|Hne].
  { rewrite bool_decide_eq_true_2 by done. rewrite bool_decide_eq_false_2 by naive_solver. done. }
  rewrite bool_decide_eq_false_2 by done. rewrite bool_decide_eq_true_2 by done. simpl.
  destruct (Portfolio.ensure_portfolio_validity from w), (Portfolio.ensure_portfolio_validity to w),
    (Portfolio.ensure_sufficient_balance from t value w); done.
Qed.

Lemma conditions_Ok s r t value w rs w' :
  transfer_condition_failures_granular s r t value w = (Ok rs, w') →
  same_but_meter w w' ∧
  (forallb tcr_result rs = true ↔
   set_Forall (allowed w t (asked s r (Asset.balance_of t s w) (Asset.balance_of t r w) value
                              (Asset.supply t w)))
     (transfer_requirements (Statistics.asset_transfer_compliance t w))).
Proof.
  unfold transfer_condition_failures_granular. intros H.
  apply SE_bind_Ok in H as (a & w1 & [-> ->]%gets_Ok & H).
  apply SE_bind_Ok in H as (b & w1 & [-> ->]%gets_Ok & H).
  apply SE_bind_Ok in H as (c & w1 & [-> ->]%gets_Ok & H).
  split; [|by eapply results_agree].
  unfold Statistics.get_transfer_restrictions_results in H.
  apply SE_bind_Ok in H as (tm & w1 & [-> ->]%gets_Ok & H).
  by apply (condition_results_Ok _ t (asked s r (Asset.balance_of t s w)
    (Asset.balance_of t r w) value (Asset.supply t w))) in H as [_ ?].
Qed.

(** The fields of a report. *)
Lemma report_Ok fc from tc to t value w r w' :
  unsafe_can_transfer_granular fc from tc to t value w = (Ok r, w') →
  invalid_granularity r = invalid_granularity_of t value w ∧
  self_transfer r = self_transfer_of from to ∧
  invalid_receiver_cdd r = invalid_cdd (did to) w ∧
  invalid_sender_cdd r = invalid_cdd (did from) w ∧
  receiver_custodian_error r = custodian_error to (default (did to) tc) w ∧
  sender_custodian_error r = custodian_error from (default (did from) fc) w ∧
  sender_insufficient_balance r = insufficient_balance t (did from) value w ∧
  pv_result (portfolio_validity_result r) = negb (Asset.portfolio_failure from to t value w) ∧
  asset_frozen r = Asset.frozen t w ∧
  (forallb tcr_result (transfer_condition_result r) = true ↔
   set_Forall (allowed w t (asked (did from) (did to) (Asset.balance_of t (did from) w)
                              (Asset.balance_of t (did to) w) value (Asset.supply t w)))
     (transfer_requirements (Statistics.asset_transfer_compliance t w))) ∧
  (acr_result (compliance_result r) = true ↔ compliant w t (did from) (did to)) ∧
  report_result r =
    negb (invalid_granularity r) && negb (self_transfer r) && negb (invalid_receiver_cdd r) &&
    negb (invalid_sender_cdd r) && negb (receiver_custodian_error r) &&
    negb (sender_custodian_error r) && negb (sender_insufficient_balance r) &&
    pv_result (portfolio_validity_result r) && negb (asset_frozen r) &&
    forallb tcr_result (transfer_condition_result r) && acr_result (compliance_result r).
Proof.
  unfold unsafe_can_transfer_granular. intros H.
  do 8 (apply SE_bind_Ok in H as (? & ? & [-> ->]%gets_Ok & H)).
  apply SE_bind_Ok in H as (cs & w1 & [Hm Hcs]%conditions_Ok & H).
  apply SE_bind_Ok in H as (res & w2 & Hres%granular_compliant & H).
  apply SE_bind_Ok in H as (? & ? & [-> ->]%gets_Ok & H).
  apply ret_Ok in H as [-> ->]. simpl. rewrite (proj1 Hm) in Hres.
  split_and!; try done. apply portfolio_validity_agrees.
Qed.

(** What a transfer that goes through found. *)
Lemma valid_transfer_portfolio t from to value w w' :
  Asset.is_valid_transfer t from to value w = (Ok ERC1400_TRANSFER_SUCCESS, w') →
  Asset.portfolio_failure from to t value w = false.
Proof.
  unfold Asset.is_valid_transfer. intros H.
  apply SE_bind_Ok in H as (? & ? & [-> ->]%gets_Ok & H).
  destruct (Asset.frozen t w); [by apply ret_Ok in H as [? _]|].
  apply SE_bind_Ok in H as (? & ? & [-> ->]%gets_Ok & H).
  destruct (Asset.portfolio_failure from to t value w); [by apply ret_Ok in H as [? _]|done].
Qed.

Lemma transfer_found from to t value iid memo caller w w' :
  Asset.base_transfer from to t value iid memo caller w = (Ok tt, w') →
  invalid_granularity_of t value w = false ∧ self_transfer_of from to = false ∧
  insufficient_balance t (did from) value w = false ∧
  Asset.portfolio_failure from to t value w = false.
Proof.
  unfold Asset.base_transfer. intros H. ok_inv.
  match goal with H : Asset.is_valid_transfer _ _ _ _ _ = _ |- _ =>
    pose proof (valid_transfer_portfolio _ _ _ _ _ _ H) as Hp;
    apply is_valid_transfer_Ok in H as [[E _] _] end.
  rewrite E in H. unfold Asset.unsafe_transfer in H.
  apply SE_bind_Ok in H as ([] & ? & [Hg ->]%check_Ok & H). ok_inv.
  unfold Asset.base_ensure_granular in Hg. apply ensure_Ok in Hg.
  unfold invalid_granularity_of, self_transfer_of, insufficient_balance.
  split_and!; [|by apply bool_decide_eq_false_2| |done].
  - unfold Asset.check_granularity, Asset.is_divisible in *. simpl in Hg. by rewrite Hg.
  - apply bool_decide_eq_false_2. unfold Asset.balance_of in *. simpl in *. lia.
Qed.
End report.
End TransferReport.
