(* ===== verification/Committee.v ===== *)
(** The committees (src/pallets/committee/src/lib.rs): members propose calls,
    vote on them, and a call that reaches the threshold is dispatched with the
    origin of the committee.  The chain runs three instances of the pallet; the
    instance is an argument of every operation.

    The calls themselves, their hash and the comparison of two sorted lists of
    members are not part of the repository (the outer call type of the runtime,
    sp_runtime and frame_support): they are the class [Governance]. *)

From stdpp Require Import base numbers list gmap sets strings.
From S2P Require Import Prelude Subset Types ClaimTypes SettlementTypes Schedules State Identity.
From S2P Require Import Claims Checkpoint Sorting.

Local Open Scope N_scope.

(** [dispatch_proposal c p] is [p.dispatch(RawOrigin::Endorsed)] for the
    committee [c]; what the call did before it failed is rolled back by the
    call itself.  [compute_members_diff_sorted new old] is the function of
    frame_support that [ChangeMembers::set_members_sorted] uses: incoming and
    outgoing members. *)
Class Governance := {
  hash_of : Proposal → ProposalHash;
  dispatch_proposal : CommitteeInstance → Proposal → M unit;
  compute_members_diff_sorted :
    list IdentityId → list IdentityId → list IdentityId * list IdentityId;
}.

(** [Iterator::position]. *)
Definition position (x : IdentityId) (l : list IdentityId) : option nat :=
  fst <$> list_find (λ a, a = x) l.

(** Arithmetic on [u32]: the release build wraps. *)
Definition wrapping_mul (max a b : N) : N := (a * b) mod (max + 1).

Module Committee.
Import Sorting.

(** The maximum number of concurrently active proposals. *)
Definition PROPOSALS_MAX : N := 500.

Definition committee (c : CommitteeInstance) (w : World) : CommitteeStore :=
  getd empty_committee (committees (rest w)) c.
Definition on_committee (c : CommitteeInstance) (f : CommitteeStore → CommitteeStore) : M unit :=
  on_rest (λ r, r <| committees ::= λ m, <[c := f (getd empty_committee m c)]> m |>).

(** The getters of the storage items. *)
Definition proposals (c : CommitteeInstance) (w : World) := Proposals (committee c w).
Definition voting (c : CommitteeInstance) (h : ProposalHash) (w : World) : option PolymeshVotes :=
  Voting (committee c w) !! h.
Definition members (c : CommitteeInstance) (w : World) := Members (committee c w).

Definition current_identity (w : World) : option IdentityId := CurrentDid (identity w).

(** [EnsureThresholdMet::try_origin]. *)
Definition ensure_endorsed (c : CommitteeInstance) (o : Origin) : result DispatchError unit :=
  match o with
  | Endorsed c' => ensure (bool_decide (c' = c)) BadOrigin
  | _ => Err BadOrigin
  end.

Definition ensure_proposal (c : CommitteeInstance) (h : ProposalHash) (idx : N)
    : Chk PolymeshVotes := λ w,
  v ← ok_or (voting c h w) (ECommittee NoSuchProposal) ;
  ensure (bool_decide (votes_index v = idx)) (ECommittee MismatchedVotingIndex) ;;
  Ok v.

Definition ensure_did_is_member (c : CommitteeInstance) (who : IdentityId) : Chk unit := λ w,
  match binary_search (members c w) who with
  | inl _ => Ok tt
  | inr _ => Err (ECommittee NotAMember)
  end.

Definition ensure_is_member (c : CommitteeInstance) (o : Origin) : Chk IdentityId := λ w,
  did ← Identity.ensure_perms o w ;
  ensure_did_is_member c did w ;;
  Ok did.

(** [len() as u32]. *)
Definition count {A : Type} (l : list A) : N := Base.len l mod (u32_max + 1).

Definition seats (c : CommitteeInstance) (w : World) : N := count (members c w).

Definition is_threshold_satisfied (votes total : N) (threshold : N * N) : bool :=
  let '(n, d) := threshold in
  bool_decide (wrapping_mul u32_max n total ≤ wrapping_mul u32_max votes d).

(** Removes a vote from one of the two lists of a proposal. *)
Definition remove_vote_from (c : CommitteeInstance) (id : IdentityId) (h : ProposalHash)
    : M bool :=
  v ← gets (voting c h) ;
  match v with
  | None => mret false
  | Some v =>
      match position id (ayes v) with
      | Some pos =>
          deposit_event (VoteRetracted id (votes_index v) h true) ;;
          on_committee c (λ s, s <| Voting ::= <[h := v <| ayes ::= swap_remove pos |>]> |>) ;;
          mret true
      | None =>
          match position id (nays v) with
          | Some pos =>
              deposit_event (VoteRetracted id (votes_index v) h false) ;;
              on_committee c (λ s, s <| Voting ::= <[h := v <| nays ::= swap_remove pos |>]> |>) ;;
              mret true
          | None => mret false
          end
      end
  end.

Definition clear_proposal (c : CommitteeInstance) (h : ProposalHash) : M unit :=
  on_committee c (λ s, s <| Voting ::= delete h |>) ;;
  on_committee c (λ s, s <| Proposals ::= filter (λ h', h' ≠ h) |>).

(** The error is a value for the caller: what was pruned is written by then. *)
Definition ensure_not_expired (c : CommitteeInstance) (h : ProposalHash) (expiry : MaybeBlock)
    : M unit :=
  t ← gets block_number ;
  match expiry with
  | Some e =>
      if bool_decide (e ≤ t) then
        clear_proposal c h ;;
        on_committee c (λ s, s <| ProposalOf ::= delete h |>) ;;
        throw (ECommittee ProposalExpired)
      else mret tt
  | None => mret tt
  end.

Section committee.
Context {RT : Runtime} {FE : Fees} {GOV : Governance}.

Definition execute (c : CommitteeInstance) (did : IdentityId) (p : Proposal) (h : ProposalHash)
    : M unit :=
  res ← catch (dispatch_proposal c p) ;
  deposit_event (Executed did h res).

Definition finalize_proposal (c : CommitteeInstance) (approved : bool)
    (total yes_votes no_votes : N) (h : ProposalHash) (current_did : IdentityId) : M unit :=
  deposit_event ((if approved then Approved else ProposalRejected)
                   current_did h yes_votes no_votes total) ;;
  proposal_of ← gets (λ w, ProposalOf (committee c w) !! h) ;
  on_committee c (λ s, s <| ProposalOf ::= delete h |>) ;;
  (if approved then
     match proposal_of with
     | Some p => execute c current_did p h
     | None => mret tt
     end
   else mret tt) ;;
  clear_proposal c h.

(** The closure [satisfied] of [execute_if_passed]. *)
Definition satisfied (main other total : N) (threshold : N * N) : bool :=
  bool_decide (other ≤ main) && is_threshold_satisfied main total threshold.

Definition execute_if_passed (c : CommitteeInstance) (h : ProposalHash) : M unit :=
  v ← gets (voting c h) ;
  match v with
  | None => mret tt
  | Some v =>
      r ← catch (ensure_not_expired c h (votes_expiry v)) ;
      if is_ok r then
        let yes := count (ayes v) in
        let no := count (nays v) in
        threshold ← gets (λ w, VoteThreshold (committee c w)) ;
        total ← gets (seats c) ;
        let approved := satisfied yes no total threshold in
        let rejected := satisfied no yes total threshold in
        if negb approved && negb rejected then mret tt
        else
          did ← gets (λ w, default 0 (current_identity w)) ;
          finalize_proposal c approved total yes no h did ;;
          deposit_event (FinalVotes did (votes_index v) h (ayes v) (nays v))
      else mret tt
  end.

Definition propose (c : CommitteeInstance) (o : Origin) (p : Proposal) : M unit :=
  did ← check (ensure_is_member c o) ;
  check (λ w, ensure (bool_decide (ProposalCount (committee c w) < PROPOSALS_MAX))
                (ECommittee ProposalsLimitReached)) ;;
  let h := hash_of p in
  check (λ w, ensure (negb (has_key (ProposalOf (committee c w)) h))
                (ECommittee DuplicateProposal)) ;;
  total ← gets (seats c) ;
  if bool_decide (total < 2) then execute c did p h
  else
    index ← gets (λ w, ProposalCount (committee c w)) ;
    on_committee c (λ s, s <| ProposalCount ::= λ i, i + 1 |>) ;;
    on_committee c (λ s, s <| Proposals ::= λ l, l ++ [h] |>) ;;
    on_committee c (λ s, s <| ProposalOf ::= <[h := p]> |>) ;;
    t ← gets block_number ;
    after ← gets (λ w, ExpiresAfter (committee c w)) ;
    let expiry := (λ e, wrapping_add u32_max e t) <$> after in
    on_committee c (λ s, s <| Voting ::= <[h := mkPolymeshVotes index [did] [] expiry]> |>) ;;
    deposit_event (Proposed did index h).

(** ** The dispatchables *)

Definition set_vote_threshold (c : CommitteeInstance) (o : Origin) (n d : N) : M unit :=
  check (λ _, ensure_endorsed c o) ;;
  check (λ _, ensure (bool_decide (0 < d) && bool_decide (n ≤ d))
                (ECommittee InvalidProportion)) ;;
  on_committee c (λ s, s <| VoteThreshold := (n, d) |>) ;;
  deposit_event (VoteThresholdUpdated Claim.GC_DID n d).

Definition set_release_coordinator (c : CommitteeInstance) (o : Origin) (id : IdentityId)
    : M unit :=
  check (λ _, ensure_endorsed c o) ;;
  check (ensure_did_is_member c id) ;;
  on_committee c (λ s, s <| ReleaseCoordinator := Some id |>) ;;
  deposit_event (ReleaseCoordinatorUpdated Claim.GC_DID (Some id)).

Definition set_expires_after (c : CommitteeInstance) (o : Origin) (expiry : MaybeBlock)
    : M unit :=
  check (λ _, ensure_endorsed c o) ;;
  on_committee c (λ s, s <| ExpiresAfter := expiry |>) ;;
  deposit_event (ExpiresAfterUpdated Claim.GC_DID expiry).

(** [other.1.swap_remove(pos)], where there is a position. *)
Definition retract (pos : option nat) (l : list IdentityId) : list IdentityId :=
  match pos with Some pos => swap_remove pos l | None => l end.

Definition vote (c : CommitteeInstance) (o : Origin) (h : ProposalHash) (index : N)
    (approve : bool) : M unit :=
  did ← check (ensure_is_member c o) ;
  v ← check (ensure_proposal c h index) ;
  ensure_not_expired c h (votes_expiry v) ;;
  let aye := position did (ayes v) in
  let nay := position did (nays v) in
  check (λ _, ensure (bool_decide ((if approve then aye else nay) = None))
                (ECommittee DuplicateVote)) ;;
  let v' := if approve
            then v <| ayes ::= λ l, l ++ [did] |> <| nays ::= retract nay |>
            else v <| nays ::= λ l, l ++ [did] |> <| ayes ::= retract aye |> in
  on_committee c (λ s, s <| Voting ::= <[h := v']> |>) ;;
  total ← gets (seats c) ;
  deposit_event (Voted did index h approve (count (ayes v')) (count (nays v')) total) ;;
  execute_if_passed c h.

Definition vote_or_propose (c : CommitteeInstance) (o : Origin) (approve : bool) (p : Proposal)
    : M unit :=
  let h := hash_of p in
  v ← gets (voting c h) ;
  match v with
  | Some v => vote c o h (votes_index v) approve
  | None => if approve then propose c o p else throw (ECommittee FirstVoteReject)
  end.

(** ** Changes of the membership *)

(** [outgoing.iter().any(...)] stops at the first vote it removes. *)
Fixpoint any_vote_removed (c : CommitteeInstance) (outgoing : list IdentityId)
    (h : ProposalHash) : M bool :=
  match outgoing with
  | [] => mret false
  | id :: outgoing =>
      r ← remove_vote_from c id h ;
      if (r : bool) then mret true else any_vote_removed c outgoing h
  end.

(** The chain [proposals().into_iter().filter(..).for_each(..)] visits one
    proposal after the other. *)
Definition retract_and_recount (c : CommitteeInstance) (outgoing : list IdentityId)
    (h : ProposalHash) : M unit :=
  r ← any_vote_removed c outgoing h ;
  if (r : bool) then execute_if_passed c h else mret tt.

Definition change_members_sorted (c : CommitteeInstance)
    (incoming outgoing new : list IdentityId) : M unit :=
  on_committee c (λ s, s <| Members := new |>) ;;
  l ← gets (proposals c) ;
  for_each l (retract_and_recount c outgoing) ;;
  rc ← gets (λ w, ReleaseCoordinator (committee c w)) ;
  (match rc with
   | Some curr_rc =>
       if bool_decide (curr_rc ∈ outgoing) then
         on_committee c (λ s, s <| ReleaseCoordinator := None |>) ;;
         did ← gets (λ w, default 0 (current_identity w)) ;
         deposit_event (ReleaseCoordinatorUpdated did None)
       else mret tt
   | None => mret tt
   end) ;;
  Claim.add_systematic_cdd_claims incoming Claim.GC_DID ;;
  Claim.revoke_systematic_cdd_claims outgoing Claim.GC_DID.

(** At genesis; the assertion that there are no members yet is the guard. *)
Definition initialize_members (c : CommitteeInstance) (new : list IdentityId) : M unit :=
  if bool_decide (new = []) then mret tt
  else
    check (λ w, ensure (bool_decide (members c w = [])) (EOther 0)) ;;
    Claim.add_systematic_cdd_claims new Claim.GC_DID ;;
    on_committee c (λ s, s <| Members := new |>).

(** ** The calls of the pallet *)
Inductive call : Type :=
  | SetVoteThreshold (n d : N)
  | SetReleaseCoordinator (id : IdentityId)
  | SetExpiresAfter (expiry : MaybeBlock)
  | VoteOrPropose (approve : bool) (p : Proposal)
  | Vote (h : ProposalHash) (index : N) (approve : bool).

Definition dispatch (c : CommitteeInstance) (o : Origin) (x : call) : M unit :=
  with_storage_transaction
    match x with
    | SetVoteThreshold n d => set_vote_threshold c o n d
    | SetReleaseCoordinator id => set_release_coordinator c o id
    | SetExpiresAfter expiry => set_expires_after c o expiry
    | VoteOrPropose approve p => vote_or_propose c o approve p
    | Vote h index approve => vote c o h index approve
    end.
End committee.
End Committee.
