(* ===== verification/Group.v ===== *)
(** The groups (src/pallets/group/src/lib.rs): the active and the revoked
    members of the CDD providers and of the three committees.  A change of the
    membership is reported to the committee the group belongs to, or to the
    identity pallet for the CDD providers, as the runtimes configure it
    (src/pallets/runtime/mainnet/src/runtime.rs; the test networks do the
    same). *)

From stdpp Require Import base numbers list gmap sets strings sorting.
From S2P Require Import Prelude Subset Types ClaimTypes SettlementTypes Schedules State Identity.
From S2P Require Import Claims Keys Checkpoint Sorting Committee.

Local Open Scope N_scope.

Module Group.
Import Sorting Members.

(** src/primitives/src/committee.rs. *)
Definition COMMITTEE_MEMBERS_MAX : N := 500.

Definition on_group (i : GroupInstance) (f : GroupStore → GroupStore) : M unit :=
  on_rest (λ r, r <| groups ::= λ m, <[i := f (getd empty_group m i)]> m |>).

(** [LimitOrigin], [AddOrigin] and [ResetOrigin] of the instances;
    [RemoveOrigin] and [SwapOrigin] are [AddOrigin] everywhere. *)
Definition ensure_limit_origin (i : GroupInstance) (o : Origin) : result DispatchError unit :=
  Identity.ensure_root o.
Definition ensure_add_origin (i : GroupInstance) (o : Origin) : result DispatchError unit :=
  match i with
  | CddServiceProviders | CommitteeMembership PolymeshCommittee => Identity.ensure_root o
  | CommitteeMembership c => Committee.ensure_endorsed c o
  end.
Definition ensure_reset_origin (i : GroupInstance) (o : Origin) : result DispatchError unit :=
  match i with
  | CddServiceProviders | CommitteeMembership PolymeshCommittee => Identity.ensure_root o
  | CommitteeMembership _ => Committee.ensure_endorsed PolymeshCommittee o
  end.

(** [current_identity().unwrap_or(GC_DID)]. *)
Definition actor (w : World) : IdentityId :=
  default Claim.GC_DID (Committee.current_identity w).

Definition active_members_limit (i : GroupInstance) (w : World) : N :=
  ActiveMembersLimit (group i w).

Definition ensure_within_active_members_limit (i : GroupInstance) (l : list IdentityId)
    : Chk unit := λ w,
  ensure (bool_decide (Committee.count l ≤ active_members_limit i w))
    (EGroup ActiveMembersLimitExceeded).

Definition get_valid_members (i : GroupInstance) (w : World) : list IdentityId :=
  get_valid_members_at i (now w) w.

(** [InactiveMember::from]. *)
Definition inactive_from (who : IdentityId) : InactiveMember := mkInactiveMember who 0 None.

Section group.
Context {RT : Runtime} {FE : Fees} {GOV : Governance}.

(** [T::MembershipChanged::change_members_sorted]. *)
Definition membership_changed (i : GroupInstance) (incoming outgoing new : list IdentityId)
    : M unit :=
  match i with
  | CddServiceProviders => Claim.change_members_sorted incoming outgoing new
  | CommitteeMembership c => Committee.change_members_sorted c incoming outgoing new
  end.

(** [ChangeMembers::set_members_sorted]. *)
Definition set_members_sorted (i : GroupInstance) (new old : list IdentityId) : M unit :=
  let '(incoming, outgoing) := compute_members_diff_sorted new old in
  membership_changed i incoming outgoing new.

(** [T::MembershipInitialized::initialize_members]. *)
Definition initialize_members (i : GroupInstance) (l : list IdentityId) : M unit :=
  match i with
  | CddServiceProviders => Claim.add_systematic_cdd_claims l Claim.CDD_PROVIDERS_DID
  | CommitteeMembership c => Committee.initialize_members c l
  end.

(** [build] of the genesis configuration: the limit and the members are
    configured values, and the assertion is the guard. *)
Definition build (i : GroupInstance) (active_members : list IdentityId) (limit : N) : M unit :=
  on_group i (λ s, s <| ActiveMembersLimit := limit |>) ;;
  check (λ _, ensure (bool_decide (Committee.count active_members ≤ limit)) (EOther 0)) ;;
  let sorted := sort_by_key id active_members in
  initialize_members i sorted ;;
  on_group i (λ s, s <| ActiveMembers := sorted |>).

Definition base_remove_inactive_member (i : GroupInstance) (who : IdentityId) : M unit :=
  l ← gets (λ w, InactiveMembers (group i w)) ;
  match binary_search_by_key inactive_id l (inactive_id (inactive_from who)) with
  | inr _ => throw (EGroup NoSuchMember)
  | inl pos =>
      on_group i (λ s, s <| InactiveMembers := swap_remove pos l |>) ;;
      current_did ← check (λ w, ok_or (Committee.current_identity w)
                                  (EGroup GroupMissingCurrentIdentity)) ;
      deposit_event (MemberRemoved current_did who)
  end.

Definition base_remove_active_member (i : GroupInstance) (who : IdentityId) : M unit :=
  l ← gets (get_members i) ;
  match binary_search l who with
  | inr _ => throw (EGroup NoSuchMember)
  | inl location =>
      let l' := vec_remove location l in
      on_group i (λ s, s <| ActiveMembers := l' |>) ;;
      membership_changed i [] [who] l' ;;
      current_did ← gets actor ;
      deposit_event (MemberRemoved current_did who)
  end.

(** [Result::or_else]. *)
Definition or_else (m m' : M unit) : M unit :=
  r ← catch m ;
  match r with Ok _ => mret tt | Err _ => m' end.

Definition base_remove_member (i : GroupInstance) (who : IdentityId) : M unit :=
  or_else (base_remove_active_member i who) (base_remove_inactive_member i who).

(** [GroupTrait::add_member] and [GroupTrait::disable_member]. *)
Definition base_add_member (i : GroupInstance) (who : IdentityId) : M unit :=
  l ← gets (get_members i) ;
  match binary_search l who with
  | inl _ => throw (EGroup DuplicateMember)
  | inr location =>
      let l' := vec_insert location who l in
      check (ensure_within_active_members_limit i l') ;;
      on_group i (λ s, s <| ActiveMembers := l' |>) ;;
      membership_changed i [who] [] l' ;;
      current_did ← gets actor ;
      deposit_event (MemberAdded current_did who)
  end.

Definition base_disable_member (i : GroupInstance) (who : IdentityId)
    (expiry at_ : option Moment) : M unit :=
  base_remove_active_member i who ;;
  current_did ← gets actor ;
  deactivated ← gets (λ w, default (now w) at_) ;
  let m := mkInactiveMember who deactivated expiry in
  t ← gets now ;
  l ← gets (λ w, InactiveMembers (group i w)) ;
  for_each (filter (λ m, is_member_expired m t = true) l)
    (λ _, deposit_event (MemberRemoved current_did who)) ;;
  let kept := filter (λ m, is_member_expired m t = false) l in
  let updated := match binary_search_by_key inactive_id kept (inactive_id m) with
                 | inl idx => <[idx := m]> kept
                 | inr _ => sort_by_key inactive_id (kept ++ [m])
                 end in
  on_group i (λ s, s <| InactiveMembers := updated |>) ;;
  deposit_event (MemberRevoked current_did who).

(** ** The dispatchables *)

Definition set_active_members_limit (i : GroupInstance) (o : Origin) (limit : N) : M unit :=
  check (λ _, ensure_limit_origin i o) ;;
  check (λ _, ensure (bool_decide (limit ≤ COMMITTEE_MEMBERS_MAX))
                (EGroup ActiveMembersLimitOverflow)) ;;
  old ← gets (active_members_limit i) ;
  on_group i (λ s, s <| ActiveMembersLimit := limit |>) ;;
  deposit_event (ActiveLimitChanged Claim.GC_DID limit old).

Definition disable_member (i : GroupInstance) (o : Origin) (who : IdentityId)
    (expiry at_ : option Moment) : M unit :=
  check (λ _, ensure_add_origin i o) ;;
  base_disable_member i who expiry at_.

Definition add_member (i : GroupInstance) (o : Origin) (who : IdentityId) : M unit :=
  check (λ _, ensure_add_origin i o) ;;
  base_add_member i who.

Definition remove_member (i : GroupInstance) (o : Origin) (who : IdentityId) : M unit :=
  check (λ _, ensure_add_origin i o) ;;
  base_remove_member i who.

Definition swap_member (i : GroupInstance) (o : Origin) (remove add : IdentityId) : M unit :=
  check (λ _, ensure_add_origin i o) ;;
  if bool_decide (remove = add) then mret tt
  else
    l ← gets (get_members i) ;
    match binary_search l remove with
    | inr _ => throw (EGroup NoSuchMember)
    | inl remove_location =>
        match binary_search l add with
        | inl _ => throw (EGroup DuplicateMember)
        | inr _ =>
            let l' := sort_by_key id (<[remove_location := add]> l) in
            on_group i (λ s, s <| ActiveMembers := l' |>) ;;
            membership_changed i [add] [remove] l' ;;
            current_did ← gets actor ;
            deposit_event (MembersSwapped current_did remove add)
        end
    end.

(** [ActiveMembers::mutate]: the members that were read before the change is
    reported are overwritten after it. *)
Definition reset_members (i : GroupInstance) (o : Origin) (l : list IdentityId) : M unit :=
  check (λ _, ensure_reset_origin i o) ;;
  check (ensure_within_active_members_limit i l) ;;
  let new := sort_by_key id l in
  old ← gets (get_members i) ;
  set_members_sorted i new old ;;
  on_group i (λ s, s <| ActiveMembers := new |>) ;;
  current_did ← gets actor ;
  deposit_event (MembersReset current_did l).

Definition abdicate_membership (i : GroupInstance) (o : Origin) : M unit :=
  '(who, remove_id) ← check (Keys.ensure_did o) ;
  check (λ w, ensure (Keys.is_primary_key remove_id who w) (EGroup OnlyPrimaryKeyAllowed)) ;;
  l ← gets (get_members i) ;
  check (λ _, ensure (bool_decide (1 < length l)%nat) (EGroup LastMemberCannotQuit)) ;;
  check (λ _, match binary_search l remove_id with
              | inl _ => Ok tt
              | inr _ => Err (EGroup NoSuchMember)
              end) ;;
  let l' := filter (λ d, d ≠ remove_id) l in
  on_group i (λ s, s <| ActiveMembers := l' |>) ;;
  membership_changed i [] [remove_id] l'.

(** ** The calls of the pallet *)
Inductive call : Type :=
  | SetActiveMembersLimit (limit : N)
  | DisableMember (who : IdentityId) (expiry at_ : option Moment)
  | AddMember (who : IdentityId)
  | RemoveMember (who : IdentityId)
  | SwapMember (remove add : IdentityId)
  | ResetMembers (l : list IdentityId)
  | AbdicateMembership.

Definition dispatch (i : GroupInstance) (o : Origin) (x : call) : M unit :=
  with_storage_transaction
    match x with
    | SetActiveMembersLimit limit => set_active_members_limit i o limit
    | DisableMember who expiry at_ => disable_member i o who expiry at_
    | AddMember who => add_member i o who
    | RemoveMember who => remove_member i o who
    | SwapMember remove add => swap_member i o remove add
    | ResetMembers l => reset_members i o l
    | AbdicateMembership => abdicate_membership i o
    end.

(** [GroupTrait] of the CDD providers, as the identity pallet calls it. *)
#[global] Instance cdd_service_providers : CddGroup :=
  Build_CddGroup (base_disable_member CddServiceProviders).
End group.
End Group.
