(* ===== verification/Providers.v ===== *)
(** The CDD providers seen from the identity pallet: their group may lose and
    gain members, which adds and revokes claims, without disturbing the records
    of keys, identities and claims.  This is the promise the identity pallet
    relies on ([KeysInv.group_keeps_identities]). *)

From stdpp Require Import base numbers list gmap sets strings.
From S2P Require Import Prelude Subset Types ClaimTypes SettlementTypes Schedules State Identity.
From S2P Require Import Claims Keys KeysInv Checkpoint Sorting Committee Group.

Local Open Scope N_scope.

Module Providers.
Import KeysInv.

(** A computation that leaves the identities in order, whether it fails or not. *)
Definition in_order {A} (m : M A) : Prop := ∀ w, identity_ok w → identity_ok (m w).2.

Lemma in_order_bind {A B} (m : M A) (k : A → M B) :
  in_order m → (∀ a, in_order (k a)) → in_order (m ≫= k).
Proof.
  intros Hm Hk w Hw. specialize (Hm w Hw). unfold mbind, SE_bind.
  destruct (m w) as [[a|e] w1]; [by apply Hk|done].
Qed.
Lemma in_order_catch {A} (m : M A) : in_order m → in_order (catch m).
Proof. intros Hm w Hw. specialize (Hm w Hw). unfold catch. by destruct (m w). Qed.
Lemma in_order_for_each {X} (l : list X) (f : X → M unit) :
  (∀ x, in_order (f x)) → in_order (for_each l f).
Proof. intros Hf. induction l as [|x l IH]; simpl; [by intros w|]. by apply in_order_bind. Qed.
Lemma in_order_transaction {A} (m : M A) : in_order m → in_order (with_storage_transaction m).
Proof.
  intros Hm w Hw. specialize (Hm w Hw). unfold with_storage_transaction.
  by destruct (m w) as [[a|e] w1].
Qed.

(** What writes neither keys nor records. *)
Lemma in_order_same {A} (m : M A) :
  (∀ w, KeyRecords (identity (m w).2) = KeyRecords (identity w) ∧
        records (rest (m w).2) = records (rest w)) → in_order m.
Proof. intros Hm w Hw. destruct (Hm w). by eapply identity_ok_ext. Qed.

Ltac in_order :=
  repeat match goal with
  | |- in_order (_ ≫= _) => apply in_order_bind
  | |- in_order (catch _) => apply in_order_catch
  | |- in_order (for_each _ _) => apply in_order_for_each
  | |- in_order (with_storage_transaction _) => apply in_order_transaction
  | |- in_order (match ?x with _ => _ end) => destruct x
  | |- ∀ _, in_order _ => intros ?
  | |- in_order _ => solve [auto with nocore | by apply in_order_same]
  end.

Section providers.
Context {RT : Runtime} {FE : Fees} {IC : IdentityConfig} {GOV : Governance}.

Lemma systematic_in_order l iss :
  in_order (Claim.add_systematic_cdd_claims l iss) ∧ in_order (Claim.revoke_systematic_cdd_claims l iss).
Proof.
  split; (apply in_order_for_each; intros x; apply in_order_bind; [|by intros _ w]);
    apply in_order_catch; intros w Hw.
  - destruct (Claim.base_add_claim _ _ _ _ w) as [[[]|e] w1] eqn:H; simpl.
    + by eapply base_add_claim_ok.
    + by apply base_add_claim_err in H as ->.
  - destruct (Claim.base_revoke_claim _ _ _ _ w) as [[[]|e] w1] eqn:H; simpl.
    + by eapply base_revoke_claim_ok.
    + by apply base_revoke_claim_err in H as ->.
Qed.

Lemma changed_in_order incoming outgoing new :
  in_order (Group.membership_changed CddServiceProviders incoming outgoing new).
Proof.
  simpl. unfold Claim.change_members_sorted.
  destruct (systematic_in_order incoming Claim.CDD_PROVIDERS_DID) as [Hi _].
  destruct (systematic_in_order outgoing Claim.CDD_PROVIDERS_DID) as [_ Ho]. in_order.
Qed.

Lemma disable_in_order cdd expiry at_ :
  in_order (Group.base_disable_member CddServiceProviders cdd expiry at_).
Proof.
  pose proof changed_in_order as Hc.
  unfold Group.base_disable_member, Group.base_remove_active_member. in_order.
Qed.

(** Every call of the group of CDD providers. *)
Lemma providers_in_order o x : in_order (Group.dispatch CddServiceProviders o x).
Proof.
  pose proof changed_in_order as Hc. pose proof disable_in_order as Hd. unfold Group.dispatch.
  apply in_order_transaction. destruct x;
    unfold Group.set_active_members_limit, Group.disable_member, Group.add_member,
      Group.remove_member, Group.swap_member, Group.reset_members, Group.abdicate_membership,
      Group.set_members_sorted, Group.base_add_member, Group.base_remove_member, Group.or_else,
      Group.base_remove_active_member, Group.base_remove_inactive_member; in_order.
Qed.

Lemma providers_keep_identities : group_keeps_identities (CG := Group.cdd_service_providers).
Proof.
  intros cdd expiry at_ w w' Hw H. pose proof (disable_in_order cdd expiry at_ w Hw) as Hd.
  unfold disable_member in H. simpl in H. by rewrite H in Hd.
Qed.
End providers.
End Providers.
