(* ===== verification/Utility.v ===== *)
(** The utility pallet (src/pallets/utility/src/lib.rs): calls that dispatch
    other calls, in batches that stop, go on or are undone at the first error,
    under the origin of the batch or, for root and for signed requests, under
    another one.

    The outer call type of the runtime is the class [RuntimeCall]; how a call is
    dispatched is the argument [dispatch_bypass_filter] of the operations, so
    that the runtime can tie the knot.  Weights are not modelled. *)

From stdpp Require Import base numbers list gmap sets strings.
From S2P Require Import Prelude Subset Types ClaimTypes SettlementTypes Schedules State Identity.
From S2P Require Import Claims Keys.

Local Open Scope N_scope.

(** A call with the nonce that makes it unique. *)
Record UniqueCall (C : Type) : Type := mkUniqueCall {
  unique_nonce : N;
  unique_call : C;
}.
Arguments mkUniqueCall {C}.
Arguments unique_nonce {C}.
Arguments unique_call {C}.

(** The origin a call is dispatched with, and whether a [batch_all] has added its
    filter to it.  The base filter of the runtimes accepts every call
    (src/pallets/runtime/common/src/runtime.rs), so that this is the only one. *)
Record RuntimeOrigin : Type := mkRuntimeOrigin {
  caller : Origin;
  refuses_batch_all : bool;
}.

(** What the pallet asks of calls: their names, whether they are a [batch_all],
    and whether a signature of a unique call is one of the target. *)
Class RuntimeCall (C : Type) := {
  get_call_metadata : C → PalletName * DispatchableName;
  is_batch_all : C → bool;
  verify_call : N → UniqueCall C → AccountId → bool;
}.

(** [batched_calls_limit] depends on the size of calls and on the allocator;
    [derivative_account] decodes the hash of the account and the index. *)
Class UtilityConfig := {
  batched_calls_limit : N;
  derivative_account : AccountId → N → option AccountId;
}.

Module Utility.

(** ** The calls of the pallet *)
Inductive call (C : Type) : Type :=
  | Batch (calls : list C)
  | RelayTx (target : AccountId) (signature : N) (u : UniqueCall C)
  | BatchAll (calls : list C)
  | DispatchAs (as_origin : Origin) (c : C)
  | ForceBatch (calls : list C)
  | WithWeight (c : C) (weight : Weight)
  | BatchOld (calls : list C)
  | BatchAtomic (calls : list C)
  | BatchOptimistic (calls : list C)
  | AsDerivative (index : N) (c : C).
Arguments Batch {C}.
Arguments RelayTx {C}.
Arguments BatchAll {C}.
Arguments DispatchAs {C}.
Arguments ForceBatch {C}.
Arguments WithWeight {C}.
Arguments BatchOld {C}.
Arguments BatchAtomic {C}.
Arguments BatchOptimistic {C}.
Arguments AsDerivative {C}.

(** [Pallet::nonce], the getter of [Nonces], and [System::event_count]. *)
Definition nonce (target : AccountId) (w : World) : N := getd 0 (Nonces (rest w)) target.
Definition event_count (w : World) : N := Base.len (events w).

(** [CddChecker::check_key_cdd] (src/pallets/runtime/common/src/cdd_check.rs). *)
Definition check_key_cdd (k : AccountId) (w : World) : bool :=
  match Identity.get_identity k w with
  | Some d => Claim.has_valid_cdd d w
  | None => false
  end.

(** [ensure_none(origin).is_ok()] is refused; [ensure_root(origin).is_ok()]. *)
Definition ensure_some_origin (o : RuntimeOrigin) : result DispatchError unit :=
  match caller o with Unsigned => Err BadOrigin | _ => Ok tt end.
Definition is_root (o : RuntimeOrigin) : bool :=
  match caller o with Root => true | _ => false end.

Definition ensure_root_or_signed (o : RuntimeOrigin) : result DispatchError bool :=
  if is_root o then Ok true
  else
    ensure_signed (caller o) ;;
    Ok false.

(** The result of a call as a value; a panic is not one. *)
Definition attempt {A : Type} (m : M A) : M (result DispatchError A) :=
  r ← catch m ;
  match r with
  | Err EPanic => throw EPanic
  | _ => mret r
  end.

(** [with_transaction] of frame_support with a closure that decides by its
    result. *)
Definition commit_if {A : Type} (commit : A → bool) (m : M A) : M A := λ w,
  match m w with
  | (Ok a, w') => (Ok a, if commit a then w' else w <| meter := meter w' |>)
  | (Err e, w') => (Err e, w <| meter := meter w' |>)
  end.

Definition set_current_identity (d : option IdentityId) : M unit :=
  on_identity (λ s, s <| CurrentDid := d |>).
Definition set_current_payer (p : option AccountId) : M unit :=
  on_identity (λ s, s <| CurrentPayer := p |>).

Section utility.
Context {UC : UtilityConfig} {C : Type} {RC : RuntimeCall C}.
Context (dispatch_bypass_filter : RuntimeOrigin → C → M unit).

Definition ensure_batch_size (calls : list C) : result DispatchError unit :=
  ensure (bool_decide (Base.len calls ≤ batched_calls_limit)) (EUtility TooManyCalls).

(** The filter of [batch_all]; root bypasses every filter. *)
Definition filter_call (o : RuntimeOrigin) (c : C) : bool :=
  match caller o with
  | Root => true
  | _ => negb (refuses_batch_all o && is_batch_all c)
  end.
Definition dispatch_filtered (o : RuntimeOrigin) (c : C) : M unit :=
  if filter_call o c then dispatch_bypass_filter o c else throw CallFiltered.

Definition dispatch_call (o : RuntimeOrigin) (root : bool) (c : C) : M unit :=
  Identity.with_call_metadata (get_call_metadata c).1 (get_call_metadata c).2
    (if root then dispatch_bypass_filter o c else dispatch_filtered o c).

(** [batch]: stops at the first error and keeps what was done. *)
Fixpoint batch_loop (o : RuntimeOrigin) (index : N) (calls : list C) : M unit :=
  match calls with
  | [] => deposit_event BatchCompleted
  | c :: calls =>
      r ← attempt (dispatch_call o (is_root o) c) ;
      match r with
      | Err e => deposit_event (BatchInterrupted index e)
      | Ok _ =>
          deposit_event ItemCompleted ;;
          batch_loop o (index + 1) calls
      end
  end.
Definition batch (o : RuntimeOrigin) (calls : list C) : M unit :=
  check (λ _, ensure_some_origin o) ;;
  check (λ _, ensure_batch_size calls) ;;
  batch_loop o 0 calls.

(** [relay_tx]: the nonce is used up whether the call succeeds or not. *)
Definition relay_tx (o : RuntimeOrigin) (target : AccountId) (signature : N) (u : UniqueCall C)
    : M unit :=
  sender ← check (λ _, ensure_signed (caller o)) ;
  caller_did ← check (λ w, acp_primary_did <$> Identity.ensure_call_permissions sender w) ;
  target_nonce ← gets (nonce target) ;
  check (λ _, ensure (bool_decide (target_nonce = unique_nonce u)) (EUtility InvalidNonce)) ;;
  check (λ _, ensure (verify_call signature u target) (EUtility UtilityInvalidSignature)) ;;
  check (λ w, ensure (check_key_cdd target w) (EUtility TargetCddMissing)) ;;
  on_rest (λ r, r <| Nonces ::= <[target := wrapping_add u64_max target_nonce 1]> |>) ;;
  r ← attempt (dispatch_call (mkRuntimeOrigin (Signed target) false) false (unique_call u)) ;
  deposit_event (RelayedTx caller_did target r).

(** [batch_all]: the first error is the error of the batch. *)
Definition filtered_origin (o : RuntimeOrigin) : RuntimeOrigin :=
  if is_root o then o else mkRuntimeOrigin (caller o) true.
Fixpoint batch_all_loop (o : RuntimeOrigin) (root : bool) (calls : list C) : M unit :=
  match calls with
  | [] => deposit_event BatchCompleted
  | c :: calls =>
      dispatch_call o root c ;;
      deposit_event ItemCompleted ;;
      batch_all_loop o root calls
  end.
Definition batch_all (o : RuntimeOrigin) (calls : list C) : M unit :=
  check (λ _, ensure_some_origin o) ;;
  check (λ _, ensure_batch_size calls) ;;
  batch_all_loop (filtered_origin o) (is_root o) calls.

(** [force_batch]: goes on after an error. *)
Fixpoint force_batch_loop (o : RuntimeOrigin) (has_error : bool) (calls : list C) : M unit :=
  match calls with
  | [] => deposit_event (if has_error then BatchCompletedWithErrors else BatchCompleted)
  | c :: calls =>
      r ← attempt (dispatch_call o (is_root o) c) ;
      match r with
      | Err e =>
          deposit_event (ItemFailed e) ;;
          force_batch_loop o true calls
      | Ok _ =>
          deposit_event ItemCompleted ;;
          force_batch_loop o has_error calls
      end
  end.
Definition force_batch (o : RuntimeOrigin) (calls : list C) : M unit :=
  check (λ _, ensure_some_origin o) ;;
  check (λ _, ensure_batch_size calls) ;;
  force_batch_loop o false calls.

Definition with_weight (o : RuntimeOrigin) (c : C) (weight : Weight) : M unit :=
  check (λ _, ensure_root (caller o)) ;;
  dispatch_bypass_filter (mkRuntimeOrigin Root false) c.

(** The older batches: the event tells how many events each call deposited. *)
Fixpoint run_batch (o : RuntimeOrigin) (root : bool) (stop_on_errors : bool) (index : N)
    (counts : list N) (errors : list (N * DispatchError)) (calls : list C) : M Event :=
  match calls with
  | [] =>
      mret (match errors with
            | [] => BatchCompletedOld counts
            | _ => BatchOptimisticFailed counts errors
            end)
  | c :: calls =>
      count ← gets event_count ;
      res ← attempt (dispatch_call o root c) ;
      count' ← gets event_count ;
      let counts := counts ++ [saturating_sub count' count] in
      match res with
      | Err e =>
          if stop_on_errors then mret (BatchInterruptedOld counts (index, e))
          else run_batch o root stop_on_errors (index + 1) counts (errors ++ [(index, e)]) calls
      | Ok _ => run_batch o root stop_on_errors (index + 1) counts errors calls
      end
  end.

Definition batch_old (o : RuntimeOrigin) (calls : list C) : M unit :=
  root ← check (λ _, ensure_root_or_signed o) ;
  ev ← run_batch o root true 0 [] [] calls ;
  deposit_event ev.

Definition batch_atomic (o : RuntimeOrigin) (calls : list C) : M unit :=
  root ← check (λ _, ensure_root_or_signed o) ;
  ev ← commit_if (λ ev, match ev with BatchCompletedOld _ => true | _ => false end)
         (run_batch o root true 0 [] [] calls) ;
  deposit_event ev.

Definition batch_optimistic (o : RuntimeOrigin) (calls : list C) : M unit :=
  root ← check (λ _, ensure_root_or_signed o) ;
  ev ← run_batch o root false 0 [] [] calls ;
  deposit_event ev.

(** The identity and the payer are put back whether the call fails or not. *)
Definition run_with_temporary_did_and_payer (o : RuntimeOrigin) (account_id : option AccountId)
    (did : option IdentityId) (c : C) (bypass_filter : bool) : M unit :=
  original_payer ← gets (λ w, CurrentPayer (identity w)) ;
  original_did ← gets (λ w, CurrentDid (identity w)) ;
  set_current_identity did ;;
  set_current_payer account_id ;;
  r ← catch (dispatch_call o bypass_filter c) ;
  set_current_payer original_payer ;;
  set_current_identity original_did ;;
  check (λ _, r).

Definition base_dispatch_as (o : RuntimeOrigin) (as_origin : Origin) (c : C) : M unit :=
  check (λ _, ensure_root (caller o)) ;;
  let behalf_account_id := match as_origin with Signed a => Some a | _ => None end in
  behalf_identity ← gets (λ w, a ← behalf_account_id ; Identity.get_identity a w) ;
  r ← attempt (run_with_temporary_did_and_payer (mkRuntimeOrigin as_origin false)
                 behalf_account_id behalf_identity c true) ;
  deposit_event (DispatchedAs r).

Definition derivative_account_id (who : AccountId) (index : N) : result DispatchError AccountId :=
  ok_or (derivative_account who index) (EUtility UnableToDeriveAccountId).

Definition base_as_derivative (o : RuntimeOrigin) (index : N) (c : C) : M unit :=
  who ← check (λ _, ensure_signed (caller o)) ;
  derivative ← check (λ _, derivative_account_id who index) ;
  did ← gets (Identity.get_identity derivative) ;
  run_with_temporary_did_and_payer (mkRuntimeOrigin (Signed derivative) (refuses_batch_all o))
    (Some derivative) did c false.

(** A call that fails is rolled back. *)
Definition dispatch (o : RuntimeOrigin) (x : call C) : M unit :=
  with_storage_transaction
    match x with
    | Batch calls => batch o calls
    | RelayTx target signature u => relay_tx o target signature u
    | BatchAll calls => batch_all o calls
    | DispatchAs as_origin c => base_dispatch_as o as_origin c
    | ForceBatch calls => force_batch o calls
    | WithWeight c weight => with_weight o c weight
    | BatchOld calls => batch_old o calls
    | BatchAtomic calls => batch_atomic o calls
    | BatchOptimistic calls => batch_optimistic o calls
    | AsDerivative index c => base_as_derivative o index c
    end.
End utility.
End Utility.
