(* ===== verification/UtilityInv.v ===== *)
(** What can be said of the calls of the utility pallet from what is known of
    the calls they dispatch.

    [RunLogic] states what a relation between two runs must satisfy to be carried
    from the dispatched calls to the batch: the same proof then gives invariants
    (one run against itself) and the comparison of two ways of dispatching. *)

From stdpp Require Import base numbers list gmap sets strings.
From S2P Require Import Prelude Subset Types ClaimTypes SettlementTypes Schedules State Identity.
From S2P Require Import Claims Keys Utility.

Local Open Scope N_scope.

Module UtilityInv.
Import Utility.

(** What the pallet itself writes: events, the names and the payer of the
    current call, nonces. *)
Definition aside {A} (m : M A) : Prop := ∀ w, ∃ ev ids ns mt,
  (m w).2 = w <| events := ev |> <| identity := ids |>
              <| rest ::= λ r, r <| Nonces := ns |> |> <| meter := mt |>.

(** [rel n m1 m2]: two runs that are related and cost at most [n]. *)
Class RunLogic (rel : nat → ∀ {A : Type}, M A → M A → Prop) : Prop := {
  rel_aside {A} (m : M A) : aside m → rel 0%nat m m;
  rel_bind {A B} n n' (m1 m2 : M A) (k1 k2 : A → M B) :
    rel n m1 m2 → (∀ a, rel n' (k1 a) (k2 a)) → rel (n + n')%nat (m1 ≫= k1) (m2 ≫= k2);
  rel_catch {A} n (m1 m2 : M A) : rel n m1 m2 → rel n (catch m1) (catch m2);
  rel_transaction {A} n (m1 m2 : M A) :
    rel n m1 m2 → rel n (with_storage_transaction m1) (with_storage_transaction m2);
  rel_commit {A} n commit (m1 m2 : M A) :
    rel n m1 m2 → rel n (commit_if commit m1) (commit_if commit m2);
  rel_ext {A} n (m1 m2 m1' m2' : M A) :
    (∀ w, m1 w = m1' w) → (∀ w, m2 w = m2' w) → rel n m1 m2 → rel n m1' m2';
  rel_le {A} n n' (m1 m2 : M A) : (n ≤ n')%nat → rel n m1 m2 → rel n' m1 m2;
}.

(** The calls a call of the pallet dispatches, and the origins it gives them. *)
Definition calls {C} (x : call C) : list C :=
  match x with
  | Batch l | BatchAll l | ForceBatch l | BatchOld l | BatchAtomic l | BatchOptimistic l => l
  | RelayTx _ _ u => [unique_call u]
  | DispatchAs _ c | WithWeight c _ | AsDerivative _ c => [c]
  end.

Definition passes_on {C} (o : RuntimeOrigin) (x : call C) (o' : RuntimeOrigin) : Prop :=
  match x with
  | Batch _ | ForceBatch _ | BatchOld _ | BatchAtomic _ | BatchOptimistic _ => o' = o
  | BatchAll _ => o' = filtered_origin o
  | DispatchAs as_origin _ => caller o = Root ∧ o' = mkRuntimeOrigin as_origin false
  | WithWeight _ _ => caller o = Root ∧ o' = mkRuntimeOrigin Root false
  | RelayTx target _ _ =>
      (∃ who, caller o = Signed who) ∧ o' = mkRuntimeOrigin (Signed target) false
  | AsDerivative _ _ =>
      ∃ who derivative, caller o = Signed who ∧
        o' = mkRuntimeOrigin (Signed derivative) (refuses_batch_all o)
  end.

(** A test of all the dispatched calls, and a sum over them, for functions that
    recurse into calls. *)
Definition every {C} (p : C → bool) (x : call C) : bool :=
  match x with
  | Batch l | BatchAll l | ForceBatch l | BatchOld l | BatchAtomic l | BatchOptimistic l => forallb p l
  | RelayTx _ _ u => p (unique_call u)
  | DispatchAs _ c | WithWeight c _ | AsDerivative _ c => p c
  end.
Definition altogether {C} (f : C → nat) (x : call C) : nat :=
  match x with
  | Batch l | BatchAll l | ForceBatch l | BatchOld l | BatchAtomic l | BatchOptimistic l =>
      sum_list_with f l
  | RelayTx _ _ u => f (unique_call u)
  | DispatchAs _ c | WithWeight c _ | AsDerivative _ c => f c
  end.

Lemma every_calls {C} (p : C → bool) x c : every p x = true → c ∈ calls x → p c = true.
Proof.
  assert (∀ l, forallb p l = true → c ∈ l → p c = true) as Hl.
  { intros l H Hc. rewrite forallb_forall in H. apply H. by apply list_elem_of_In. }
  destruct x; simpl; eauto; by intros Hp ->%list_elem_of_singleton.
Qed.

Lemma altogether_calls {C} (f : C → nat) x : altogether f x = sum_list_with f (calls x).
Proof. destruct x; simpl; try done; lia. Qed.

Lemma total_zero {C} (l : list C) : sum_list_with (λ _, 0%nat) l = 0%nat.
Proof. by induction l. Qed.

(** A committee passes on its own origin and no other. *)
Lemma passes_on_endorsed {C} o (x : call C) o' c :
  caller o = Endorsed c → passes_on o x o' → caller o' = Endorsed c.
Proof.
  intros Ho. destruct x; simpl; rewrite ?Ho; try (by intros ->); try naive_solver.
  intros ->. unfold filtered_origin, is_root. by rewrite Ho.
Qed.

Section logic.
Context (rel : nat → ∀ {A : Type}, M A → M A → Prop) {RL : RunLogic (@rel)}.
Arguments rel _ {_}.

Lemma aside_bind {A B} n (m : M A) (k1 k2 : A → M B) :
  aside m → (∀ a, rel n (k1 a) (k2 a)) → rel n (m ≫= k1) (m ≫= k2).
Proof. intros Hm Hk. exact (rel_bind 0%nat n m m k1 k2 (rel_aside m Hm) Hk). Qed.

Lemma bind_aside {A B} n (m1 m2 : M A) (k1 k2 : A → M B) :
  rel n m1 m2 → (∀ a, rel 0%nat (k1 a) (k2 a)) → rel n (m1 ≫= k1) (m2 ≫= k2).
Proof. intros Hm Hk. eapply (rel_le (n + 0)); [lia|]. by apply rel_bind. Qed.

Lemma aside_any {A} n (m : M A) : aside m → rel n m m.
Proof. intros Hm. apply (rel_le 0); [lia|]. by apply rel_aside. Qed.

Lemma aside_by {A} (m : M A) :
  (∀ w, (m w).2 = w <| events := events (m w).2 |> <| identity := identity (m w).2 |>
                    <| rest ::= λ r, r <| Nonces := Nonces (rest (m w).2) |> |>
                    <| meter := meter (m w).2 |>) → aside m.
Proof. intros H w. specialize (H w). by eexists _, _, _, _. Qed.
Ltac aside := apply aside_by; intros [? ? ? ? ? ? ? ? ? ? ? ? []]; reflexivity.

Lemma aside_check {A} (f : World → result DispatchError A) : aside (check f).
Proof. aside. Qed.
Lemma aside_gets {A} (f : World → A) : aside (gets f).
Proof. aside. Qed.
Lemma aside_throw {A} e : aside (throw e : M A).
Proof. aside. Qed.
Lemma aside_ret {A} (a : A) : aside (mret a).
Proof. aside. Qed.
Lemma aside_event e : aside (deposit_event e).
Proof. aside. Qed.
Lemma aside_identity f : aside (on_identity f).
Proof. aside. Qed.
Lemma aside_nonces f : aside (on_rest (λ r, r <| Nonces ::= f |>)).
Proof. aside. Qed.
Lemma aside_names p d : aside (Identity.swap_call_metadata p d).
Proof. aside. Qed.

Hint Resolve aside_check aside_gets aside_throw aside_ret aside_event aside_identity aside_nonces
  aside_names : core.

(** A guard that fails: what follows does not matter. *)
Lemma refused {A B} n (f : World → result DispatchError A) (k1 k2 : A → M B) e :
  (∀ w, f w = Err e) → rel n (check f ≫= k1) (check f ≫= k2).
Proof.
  intros Hf. apply (rel_ext n (throw e) (throw e)); [..|by apply aside_any];
    intros w; unfold mbind, SE_bind, check; by rewrite Hf.
Qed.

(** Steps of the pallet itself before and after a dispatch. *)
Ltac own_steps :=
  repeat match goal with
  | |- rel _ (_ ≫= _) _ => apply aside_bind; [solve [auto]|intros ?]
  | |- rel _ (match ?x with _ => _ end) _ => destruct x
  end.

Lemma attempt_rel {A} n (m1 m2 : M A) : rel n m1 m2 → rel n (attempt m1) (attempt m2).
Proof.
  intros Hm. apply bind_aside; [by apply rel_catch|]. intros [a|e]; [by apply aside_any|].
  destruct e; by apply aside_any.
Qed.

Section dispatch.
Context {UC : UtilityConfig} {C : Type} {RC : RuntimeCall C}.
Context (d1 d2 : RuntimeOrigin → C → M unit) (cost : C → nat).

Notation total := (sum_list_with cost).

Section calls.
Context (o : RuntimeOrigin).

Lemma dispatch_call_rel root c :
  rel (cost c) (d1 o c) (d2 o c) → rel (cost c) (dispatch_call d1 o root c) (dispatch_call d2 o root c).
Proof.
  intros Hc. unfold dispatch_call, Identity.with_call_metadata. own_steps.
  apply bind_aside.
  - apply rel_catch. destruct root; [done|]. unfold dispatch_filtered.
    destruct (filter_call _ _); [done|by apply aside_any].
  - intros r. own_steps. by apply aside_any.
Qed.

Lemma temporary_rel account did c bypass :
  rel (cost c) (d1 o c) (d2 o c) →
  rel (cost c) (run_with_temporary_did_and_payer d1 o account did c bypass)
               (run_with_temporary_did_and_payer d2 o account did c bypass).
Proof.
  intros Hc. unfold run_with_temporary_did_and_payer, set_current_identity, set_current_payer.
  own_steps. apply bind_aside; [by apply rel_catch, dispatch_call_rel|].
  intros r. own_steps. by apply aside_any.
Qed.

Context (l : list C).
Hypothesis Hl : ∀ c, c ∈ l → rel (cost c) (d1 o c) (d2 o c).

Lemma batch_loop_rel index :
  rel (total l) (batch_loop d1 o index l) (batch_loop d2 o index l).
Proof.
  revert index. induction l as [|c l' IH]; intros index; simpl; [by apply aside_any|].
  apply rel_bind; [apply attempt_rel, dispatch_call_rel, Hl; by left|].
  intros r. own_steps; [|by apply aside_any]. apply IH. intros. apply Hl. by right.
Qed.

Lemma batch_all_loop_rel root :
  rel (total l) (batch_all_loop d1 o root l) (batch_all_loop d2 o root l).
Proof.
  induction l as [|c l' IH]; simpl; [by apply aside_any|].
  apply rel_bind; [apply dispatch_call_rel, Hl; by left|].
  intros r. own_steps. apply IH. intros. apply Hl. by right.
Qed.

Lemma force_batch_loop_rel has_error :
  rel (total l) (force_batch_loop d1 o has_error l) (force_batch_loop d2 o has_error l).
Proof.
  revert has_error. induction l as [|c l' IH]; intros has_error; simpl; [by apply aside_any|].
  apply rel_bind; [apply attempt_rel, dispatch_call_rel, Hl; by left|].
  intros r. own_steps; apply IH; intros; apply Hl; by right.
Qed.

Lemma run_batch_rel root stop index counts errors :
  rel (total l) (run_batch d1 o root stop index counts errors l)
                (run_batch d2 o root stop index counts errors l).
Proof.
  revert index counts errors. induction l as [|c l' IH]; intros index counts errors; simpl;
    [by apply aside_any|].
  apply aside_bind; [auto|]. intros count. apply rel_bind; [apply attempt_rel, dispatch_call_rel, Hl; by left|].
  intros r. own_steps; [..|by apply aside_any|]; apply IH; intros; apply Hl; by right.
Qed.
End calls.

(** What holds of every call a batch passes on holds of the batch. *)
Lemma utility_rel o x :
  (∀ c o', c ∈ calls x → passes_on o x o' → rel (cost c) (d1 o' c) (d2 o' c)) →
  rel (total (calls x)) (dispatch d1 o x) (dispatch d2 o x).
Proof.
  intros Hx. apply rel_transaction. destruct x; simpl in *.
  - unfold batch. own_steps. apply batch_loop_rel. auto.
  - unfold relay_tx. apply rel_le with (n := cost (unique_call u)); [simpl; lia|].
    destruct (caller o) as [|who| |] eqn:Ho;
      [by eapply refused|..|by eapply refused|by eapply refused].
    own_steps. apply bind_aside; [|intros r; by apply aside_any]. apply attempt_rel, dispatch_call_rel.
    apply Hx; [by left|]. split; [by exists who|done].
  - unfold batch_all. own_steps. apply batch_all_loop_rel. auto.
  - unfold base_dispatch_as. apply rel_le with (n := cost c); [simpl; lia|].
    destruct (caller o) eqn:Ho; [|by eapply refused..]. own_steps.
    apply bind_aside; [|intros r; by apply aside_any]. apply attempt_rel, temporary_rel.
    apply Hx; [by left|done].
  - unfold force_batch. own_steps. apply force_batch_loop_rel. auto.
  - unfold with_weight. apply rel_le with (n := cost c); [simpl; lia|].
    destruct (caller o) eqn:Ho; [|by eapply refused..]. own_steps. apply Hx; [by left|done].
  - unfold batch_old. own_steps. apply bind_aside; [|intros r; by apply aside_any].
    apply run_batch_rel. auto.
  - unfold batch_atomic. own_steps. apply bind_aside; [|intros r; by apply aside_any].
    apply rel_commit, run_batch_rel. auto.
  - unfold batch_optimistic. own_steps. apply bind_aside; [|intros r; by apply aside_any].
    apply run_batch_rel. auto.
  - unfold base_as_derivative. apply rel_le with (n := cost c); [simpl; lia|].
    destruct (caller o) as [|who| |] eqn:Ho;
      [by eapply refused|..|by eapply refused|by eapply refused].
    own_steps. apply temporary_rel. apply Hx; [by left|]. by eexists _, _.
Qed.
End dispatch.
End logic.
End UtilityInv.
