(* ===== verification/GovernanceInv.v ===== *)
(** What the groups and committees keep: the members of a committee are those
    of its group, in ascending order; the list of proposals, their votes and
    their calls describe the same proposals; and only members have votes. *)

From stdpp Require Import base numbers list gmap sets strings sorting.
From S2P Require Import Prelude Subset Types ClaimTypes SettlementTypes Schedules State Identity.
From S2P Require Import Claims Keys KeysInv Checkpoint Sorting Committee Group.

Local Open Scope N_scope.

Module GovernanceInv.
Import Checkpoint Sorting Members Committee.

(* ------------------------------------------------------------------ *)
(** * Vectors *)

Lemma position_Some x l i : position x l = Some i → l !! i = Some x.
Proof.
  unfold position. rewrite fmap_Some. intros ([j y] & H & ->).
  by apply list_find_Some in H as (? & -> & _).
Qed.

Lemma position_None x l : position x l = None → x ∉ l.
Proof.
  unfold position. rewrite fmap_None, list_find_None, Forall_forall. intros H Hin. by apply (H x).
Qed.

(** [Vec::sort] of elements that are all different. *)
Lemma sort_ascending l : NoDup l → ascending (sort_by_key id l).
Proof.
  intros H. apply sorted_ascending.
  - pose proof (sort_by_key_sorted id l) as Hs. by rewrite list_fmap_id in Hs.
  - by rewrite (sort_by_key_perm id l).
Qed.

(* ------------------------------------------------------------------ *)
(** * The state of one committee *)

Definition voters (v : PolymeshVotes) : list IdentityId := ayes v ++ nays v.

(** Two votes of one member never coexist, and proposals are numbered below
    the count. *)
Definition votes_ok (s : CommitteeStore) (v : PolymeshVotes) : Prop :=
  NoDup (voters v) ∧ votes_index v < ProposalCount s.

Record store_ok (s : CommitteeStore) : Prop := {
  ok_members : ascending (Members s);
  ok_proposals : NoDup (Proposals s);
  ok_listed : ∀ h, h ∈ Proposals s ↔ is_Some (Voting s !! h);
  ok_votes : ∀ h v, Voting s !! h = Some v → votes_ok s v;
  ok_count : ProposalCount s ≤ PROPOSALS_MAX;
}.

(** What must not be left behind: the vote of somebody who is not a member, a
    proposal without a call, a call without a proposal. *)
Definition stale (s : CommitteeStore) (h : ProposalHash) (x : IdentityId) : Prop :=
  ∃ v, Voting s !! h = Some v ∧ x ∈ voters v ∧ x ∉ Members s.
Definition orphan (s : CommitteeStore) (h : ProposalHash) : Prop :=
  is_Some (Voting s !! h) ∧ ProposalOf s !! h = None.
Definition dangling (s : CommitteeStore) (h : ProposalHash) : Prop :=
  is_Some (ProposalOf s !! h) ∧ Voting s !! h = None.

(** [s'] has no such leftovers that [s] has not, except for votes of [gone] on
    [left]; and it has no new proposals. *)
Record calm_but (gone : list IdentityId) (left : list ProposalHash) (s s' : CommitteeStore)
    : Prop := {
  calm_stale : ∀ h x, stale s' h x → stale s h x ∨ (x ∈ gone ∧ h ∈ left);
  calm_orphan : ∀ h, orphan s' h → orphan s h;
  calm_dangling : ∀ h, dangling s' h → dangling s h;
  calm_calls : ∀ h, ProposalOf s !! h = None → ProposalOf s' !! h = None;
}.
Notation calm := (calm_but [] []).

#[export] Instance calm_preorder : PreOrder calm.
Proof.
  split.
  - intros s. split; auto.
  - intros s1 s2 s3 [A1 A2 A3 A4] [B1 B2 B3 B4]. split; eauto.
    intros h x [Hx|[Hx _]]%B1; [eauto|set_solver].
Qed.

(** The leftovers of a change of members shrink along calm steps. *)
Lemma calm_but_trans gone left s1 s2 s3 :
  calm_but gone left s1 s2 → calm s2 s3 → calm_but gone left s1 s3.
Proof.
  intros [A1 A2 A3 A4] [B1 B2 B3 B4]. split; eauto.
  intros h x [Hx|[Hx _]]%B1; [eauto|set_solver].
Qed.

(* ------------------------------------------------------------------ *)
(** * The state of all of them *)

Record gov_ok (w : World) : Prop := {
  gov_stores : ∀ c, store_ok (committee c w);
  gov_synced : ∀ c, get_members (CommitteeMembership c) w = members c w;
  gov_cdd : ascending (get_members CddServiceProviders w);
}.

Definition clean (w : World) : Prop :=
  ∀ c, (∀ h x, ¬ stale (committee c w) h x) ∧ (∀ h, ¬ orphan (committee c w) h) ∧
       (∀ h, ¬ dangling (committee c w) h).

(** What a proposal may do to the committees when it is dispatched. *)
Definition quiet (w w' : World) : Prop :=
  gov_ok w → gov_ok w' ∧ ∀ c, calm (committee c w) (committee c w').

#[export] Instance quiet_preorder : PreOrder quiet.
Proof.
  split.
  - intros w Hok. split; [done|]. intros c. reflexivity.
  - intros w1 w2 w3 H12 H23 Hok. destruct (H12 Hok) as [Hok2 C2]. destruct (H23 Hok2) as [Hok3 C3].
    split; [done|]. intros c. etrans; [apply C2|apply C3].
Qed.

Lemma quiet_clean w w' : gov_ok w → quiet w w' → clean w → clean w'.
Proof.
  intros Hok Hq Hc c. destruct (Hq Hok) as [_ C]. destruct (C c) as [C1 C2 C3 _].
  destruct (Hc c) as (H1 & H2 & H3). split_and!.
  - intros h x [Hs|[Hs _]]%C1; [by eapply H1|set_solver].
  - intros h Hs%C2. by eapply H2.
  - intros h Hs%C3. by eapply H3.
Qed.

(** Steps that have nothing to do with committees and active members. *)
Definition same_gov (w w' : World) : Prop :=
  committees (rest w') = committees (rest w) ∧
  (∀ i, get_members i w' = get_members i w) ∧ block_number w' = block_number w.

#[export] Instance same_gov_preorder : PreOrder same_gov.
Proof.
  split; [done|]. intros w1 w2 w3 (A1 & A2 & A3) (B1 & B2 & B3). split_and!; [congruence| |congruence].
  intros i. by rewrite B2, A2.
Qed.

Lemma same_gov_committee w w' c : same_gov w w' → committee c w' = committee c w.
Proof. intros [H _]. unfold committee. by rewrite H. Qed.

Lemma same_gov_ok w w' : same_gov w w' → gov_ok w → gov_ok w'.
Proof.
  intros Hs [H1 H2 H3]. split.
  - intros c. by rewrite (same_gov_committee _ _ _ Hs).
  - intros c. unfold members. rewrite (same_gov_committee _ _ _ Hs), (proj1 (proj2 Hs)). apply H2.
  - by rewrite (proj1 (proj2 Hs)).
Qed.

Lemma same_gov_quiet w w' : same_gov w w' → quiet w w'.
Proof.
  intros Hs Hok. split; [by eapply same_gov_ok|]. intros c. by rewrite (same_gov_committee _ _ _ Hs).
Qed.

(* ------------------------------------------------------------------ *)
(** * Steps of a single committee *)

Definition only_committee (c : CommitteeInstance) (w w' : World) : Prop :=
  (∀ c', c' ≠ c → committee c' w' = committee c' w) ∧
  (∀ i, get_members i w' = get_members i w) ∧ block_number w' = block_number w.

#[export] Instance only_committee_preorder c : PreOrder (only_committee c).
Proof.
  split; [done|]. intros w1 w2 w3 (A1 & A2 & A3) (B1 & B2 & B3). split_and!.
  - intros c' Hne. by rewrite B1, A1.
  - intros i. by rewrite B2, A2.
  - congruence.
Qed.

Lemma same_gov_only c w w' : same_gov w w' → only_committee c w w'.
Proof. intros Hs. split; [intros; by apply same_gov_committee|apply Hs]. Qed.

Lemma on_committee_Ok c f w u w' :
  on_committee c f w = (Ok u, w') →
  committee c w' = f (committee c w) ∧ only_committee c w w'.
Proof.
  intros H. apply modify_Ok in H as ->. unfold only_committee, committee. simpl. split_and!.
  - by rewrite getd_insert_eq.
  - intros c' Hne. by rewrite getd_insert_ne.
  - done.
  - done.
Qed.

Lemma deposit_event_Ok e w u w' :
  deposit_event e w = (Ok u, w') → same_gov w w' ∧ events w' = events w ++ [e].
Proof. intros H. by apply modify_Ok in H as ->. Qed.

Lemma only_committee_ok c w w' :
  only_committee c w w' → Members (committee c w') = Members (committee c w) →
  store_ok (committee c w') → gov_ok w → gov_ok w'.
Proof.
  intros (Ho & Hg & _) Hm Hs [H1 H2 H3]. split.
  - intros c'. destruct (decide (c' = c)) as [->|Hne]; [done|]. by rewrite Ho.
  - intros c'. rewrite Hg, H2. unfold members.
    destruct (decide (c' = c)) as [->|Hne]; [done|]. by rewrite Ho.
  - by rewrite Hg.
Qed.

Lemma only_committee_quiet c w w' :
  only_committee c w w' → Members (committee c w') = Members (committee c w) →
  (store_ok (committee c w) → store_ok (committee c w') ∧ calm (committee c w) (committee c w')) →
  quiet w w'.
Proof.
  intros O Hm Hs Hok. destruct (Hs (gov_stores _ Hok c)) as [Hs' Hc].
  split; [by eapply only_committee_ok|].
  intros c'. destruct (decide (c' = c)) as [->|Hne]; [done|]. by rewrite (proj1 O).
Qed.

(** Dropping a proposal: its call first, its votes later. *)
Definition taken (h : ProposalHash) (s : CommitteeStore) : CommitteeStore :=
  s <| ProposalOf ::= delete h |>.
Definition cleared (h : ProposalHash) (s : CommitteeStore) : CommitteeStore :=
  s <| Voting ::= delete h |> <| Proposals ::= filter (λ h', h' ≠ h) |>.

Lemma taken_ok h s : store_ok s → store_ok (taken h s).
Proof. intros [H1 H2 H3 H4 H5]. by split. Qed.

Lemma cleared_ok h s : store_ok s → store_ok (cleared h s).
Proof.
  intros [H1 H2 H3 H4 H5]. split; try done.
  - by apply NoDup_filter.
  - intros h'. simpl. rewrite list_elem_of_filter, H3.
    destruct (decide (h' = h)) as [->|Hne].
    + rewrite lookup_delete_eq, is_Some_alt. naive_solver.
    + rewrite lookup_delete_ne by done. naive_solver.
  - intros h' v. simpl. rewrite lookup_delete_Some. intros [_ Hv]. by eapply H4.
Qed.

Lemma taken_cleared_calm h s s' : calm (taken h s) s' → calm s (cleared h s').
Proof.
  intros [C1 C2 C3 C4].
  assert (ProposalOf s' !! h = None) as Hnone by (apply C4, lookup_delete_eq).
  split; simpl.
  - intros h' x (v & Hv & Hx & Hm). simpl in Hv. apply lookup_delete_Some in Hv as [_ Hv].
    apply C1. by exists v.
  - intros h' [Hv Hp]. simpl in Hv, Hp. assert (h' ≠ h) as Hne.
    { intros ->. by rewrite lookup_delete_eq, is_Some_alt in Hv. }
    rewrite lookup_delete_ne in Hv by done.
    destruct (C2 h') as [Hv' Hp']; [done|]. simpl in Hp'. by rewrite lookup_delete_ne in Hp'.
  - intros h' [Hp Hv]. simpl in *. assert (h' ≠ h) as Hne by (intros ->; rewrite Hnone in Hp; by destruct Hp).
    rewrite lookup_delete_ne in Hv by done.
    destruct (C3 h') as [Hp' Hv']; [done|]. simpl in *. by rewrite lookup_delete_ne in Hp'.
  - intros h' Hp. apply C4. simpl. by apply lookup_delete_None; right.
Qed.

Lemma clear_proposal_Ok c h w u w' :
  clear_proposal c h w = (Ok u, w') →
  committee c w' = cleared h (committee c w) ∧ only_committee c w w'.
Proof.
  intros H. unfold clear_proposal in H. apply SE_bind_Ok in H as (u1 & w1 & H1 & H).
  apply on_committee_Ok in H1 as [E1 O1]. apply on_committee_Ok in H as [E2 O2].
  split; [by rewrite E2, E1|by etrans].
Qed.

Lemma bind_gets {A B} (f : World → A) (k : A → M B) w : (gets f ≫= k) w = k (f w) w.
Proof. done. Qed.
Lemma bind_run {A B} (m : M A) (k : A → M B) w a w' :
  m w = (Ok a, w') → (m ≫= k) w = k a w'.
Proof. unfold mbind, SE_bind. by intros ->. Qed.

(** What is left after an expired proposal was pruned. *)
Lemma ensure_not_expired_run c h e w r w' :
  ensure_not_expired c h e w = (r, w') →
  (r = Ok tt ∧ w' = w) ∨
  (r = Err (ECommittee ProposalExpired) ∧ only_committee c w w' ∧
   committee c w' = taken h (cleared h (committee c w))).
Proof.
  unfold ensure_not_expired. intros H. rewrite bind_gets in H.
  destruct e as [e|]; [|by left; injection H as <- <-].
  destruct (bool_decide _); [|by left; injection H as <- <-]. right.
  destruct (clear_proposal c h w) as [r1 w1] eqn:H1. assert (r1 = Ok tt) as -> by (by injection H1).
  rewrite (bind_run _ _ _ _ _ H1) in H.
  destruct (on_committee c (λ s, s <| ProposalOf ::= delete h |>) w1) as [r2 w2] eqn:H2. assert (r2 = Ok tt) as -> by (by injection H2).
  rewrite (bind_run _ _ _ _ _ H2) in H. injection H as <- <-. split; [done|].
  apply clear_proposal_Ok in H1 as [E1 O1]. apply on_committee_Ok in H2 as [E2 O2].
  split; [by etrans|]. by rewrite E2, E1.
Qed.

Lemma pruned_calm h s : calm s (taken h (cleared h s)).
Proof. apply (taken_cleared_calm h s (taken h s)). reflexivity. Qed.

Lemma ensure_not_expired_quiet c h e w r w' :
  ensure_not_expired c h e w = (r, w') → quiet w w'.
Proof.
  intros [[_ ->]|(_ & O & E)]%ensure_not_expired_run; [reflexivity|].
  apply (only_committee_quiet c); [done|by rewrite E|]. rewrite E. intros Hok.
  split; [by apply taken_ok, cleared_ok|apply pruned_calm].
Qed.

(** Replacing the votes of a proposal. *)
Definition revoted (h : ProposalHash) (v : PolymeshVotes) (s : CommitteeStore) : CommitteeStore :=
  s <| Voting ::= <[h := v]> |>.

Lemma revoted_ok h v v' s :
  store_ok s → Voting s !! h = Some v → NoDup (voters v') → votes_index v' = votes_index v →
  store_ok (revoted h v' s).
Proof.
  intros [H1 H2 H3 H4 H5] Hv Hnd Hi. split; try done.
  - intros h'. simpl. rewrite H3. destruct (decide (h' = h)) as [->|Hne].
    + rewrite lookup_insert_eq, Hv. done.
    + by rewrite lookup_insert_ne.
  - intros h' v''. simpl. rewrite lookup_insert_Some. intros [[-> <-]|[_ Hv']]; [|by eapply H4].
    split; [done|]. simpl. rewrite Hi. by apply (H4 _ _ Hv).
Qed.

Lemma revoted_calm h v v' s :
  Voting s !! h = Some v → (∀ x, x ∈ voters v' → x ∈ voters v ∨ x ∈ Members s) →
  calm s (revoted h v' s).
Proof.
  intros Hv Hx. split; simpl.
  - intros h' x (v'' & Hv' & Hin & Hm). simpl in *. left.
    apply lookup_insert_Some in Hv' as [[<- <-]|[_ Hv']]; [|by exists v''].
    exists v. destruct (Hx x Hin); naive_solver.
  - intros h' [Hs Hp]. simpl in *. split; [|done].
    destruct (decide (h' = h)) as [->|Hne]; [by rewrite Hv|by rewrite lookup_insert_ne in Hs].
  - intros h' [Hs Hp]. simpl in *. split; [done|]. by apply lookup_insert_None in Hp as [Hp _].
  - done.
Qed.

(** Voting adds the voter to one list and takes them from the other. *)
Definition cast (did : IdentityId) (approve : bool) (v : PolymeshVotes) : PolymeshVotes :=
  if approve
  then v <| ayes ::= λ l, l ++ [did] |> <| nays ::= retract (position did (nays v)) |>
  else v <| nays ::= λ l, l ++ [did] |> <| ayes ::= retract (position did (ayes v)) |>.

Lemma retract_spec did l :
  NoDup l → NoDup (retract (position did l) l) ∧
  ∀ x, x ∈ retract (position did l) l ↔ x ∈ l ∧ x ≠ did.
Proof.
  intros Hl. destruct (position did l) as [i|] eqn:Hi; simpl.
  - apply position_Some, swap_remove_perm in Hi. set (r := swap_remove i l) in *. clearbody r.
    rewrite Hi in Hl. apply NoDup_cons in Hl as [Hd Hl].
    split; [done|]. intros x. rewrite Hi. set_solver.
  - apply position_None in Hi. set_solver.
Qed.

Lemma cast_lists did main other :
  NoDup (main ++ other) → did ∉ main →
  NoDup ((main ++ [did]) ++ retract (position did other) other) ∧
  ∀ x, x ∈ (main ++ [did]) ++ retract (position did other) other → x ∈ main ++ other ∨ x = did.
Proof.
  rewrite !NoDup_app. intros (Hm & Hmo & Ho) Hd. destruct (retract_spec did other Ho) as [Hr Hin].
  split.
  - split_and!; [done|set_solver|apply NoDup_singleton| |done].
    intros x Hx. rewrite Hin. set_solver.
  - intros x. rewrite !elem_of_app, Hin. set_solver.
Qed.

Lemma cast_ok s h v did approve :
  store_ok s → Voting s !! h = Some v → did ∈ Members s →
  position did (if approve : bool then ayes v else nays v) = None →
  store_ok (revoted h (cast did approve v) s) ∧ calm s (revoted h (cast did approve v) s).
Proof.
  intros Hok Hv Hdid Hpos%position_None. pose proof (ok_votes _ Hok _ _ Hv) as [Hnd _].
  assert (NoDup (voters (cast did approve v)) ∧
          ∀ x, x ∈ voters (cast did approve v) → x ∈ voters v ∨ x = did) as [H1 H2].
  { unfold cast, voters in *. destruct approve; simpl.
    - by apply cast_lists.
    - rewrite (comm (++) (ayes v)) in Hnd. apply (cast_lists did _ _ Hnd) in Hpos as [Hc Hi].
      split; [by rewrite (comm (++))|]. intros x Hx. specialize (Hi x). set_solver. }
  split.
  - eapply revoted_ok; [done..|]. by destruct approve.
  - eapply revoted_calm; [done|]. intros x [?| ->]%H2; auto.
Qed.

Lemma remove_vote_from_Ok c id h w b w' :
  remove_vote_from c id h w = (Ok b, w') →
  only_committee c w w' ∧
  ((committee c w' = committee c w ∧
    ∀ v, Voting (committee c w) !! h = Some v → id ∉ voters v) ∨
   ∃ v v', Voting (committee c w) !! h = Some v ∧ voters v ≡ₚ id :: voters v' ∧
     votes_index v' = votes_index v ∧ committee c w' = revoted h v' (committee c w)).
Proof.
  unfold remove_vote_from. rewrite bind_gets. unfold voting.
  destruct (Voting (committee c w) !! h) as [v|] eqn:Hv.
  2: { intros H. apply ret_Ok in H as [_ <-]. split; [done|]. left. naive_solver. }
  destruct (position id (ayes v)) as [i|] eqn:Ha; [|destruct (position id (nays v)) as [i|] eqn:Hn].
  - intros H. apply SE_bind_Ok in H as (u1 & w1 & H1 & H). apply deposit_event_Ok in H1 as [S1 _].
    apply SE_bind_Ok in H as (u2 & w2 & H2 & H). apply ret_Ok in H as [_ <-].
    apply on_committee_Ok in H2 as [E2 O2]. split; [etrans; [by apply same_gov_only|done]|].
    right. exists v, (v <| ayes ::= swap_remove i |>). split_and!; [done| |done|].
    + unfold voters. simpl. by rewrite (swap_remove_perm (ayes v) i id) at 1 by by apply position_Some.
    + by rewrite E2, (same_gov_committee _ _ _ S1).
  - intros H. apply SE_bind_Ok in H as (u1 & w1 & H1 & H). apply deposit_event_Ok in H1 as [S1 _].
    apply SE_bind_Ok in H as (u2 & w2 & H2 & H). apply ret_Ok in H as [_ <-].
    apply on_committee_Ok in H2 as [E2 O2]. split; [etrans; [by apply same_gov_only|done]|].
    right. exists v, (v <| nays ::= swap_remove i |>). split_and!; [done| |done|].
    + unfold voters. simpl. rewrite (swap_remove_perm (nays v) i id) at 1 by by apply position_Some.
      by rewrite Permutation_middle.
    + by rewrite E2, (same_gov_committee _ _ _ S1).
  - intros H. apply ret_Ok in H as [_ <-]. split; [done|]. left. split; [done|].
    intros v' [= <-]. unfold voters. rewrite elem_of_app.
    apply position_None in Ha, Hn. naive_solver.
Qed.

(** Afterwards the vote is gone, and nobody else's. *)
Lemma remove_vote_from_ok c id h w b w' :
  remove_vote_from c id h w = (Ok b, w') → store_ok (committee c w) →
  store_ok (committee c w') ∧ calm (committee c w) (committee c w') ∧
  ¬ stale (committee c w') h id.
Proof.
  intros [O [[E Hno]|(v & v' & Hv & Hp & Hi & E)]]%remove_vote_from_Ok Hok; rewrite E.
  - split_and!; [done|reflexivity|]. intros (v & Hv & Hin & _). by eapply Hno.
  - pose proof (ok_votes _ Hok _ _ Hv) as [Hnd _]. rewrite Hp, NoDup_cons in Hnd. destruct Hnd as [Hid Hnd].
    split_and!.
    + by eapply revoted_ok.
    + eapply revoted_calm; [done|]. intros x Hx. left. rewrite Hp. set_solver.
    + intros (v'' & Hv'' & Hin & _). simpl in Hv''. rewrite lookup_insert_eq in Hv''. naive_solver.
Qed.

(* ------------------------------------------------------------------ *)
(** * What cannot fail *)

Definition infallible {A} (m : M A) : Prop := ∀ w, ∃ a w', m w = (Ok a, w').

Lemma infallible_bind {A B} (m : M A) (k : A → M B) :
  infallible m → (∀ a, infallible (k a)) → infallible (m ≫= k).
Proof.
  intros Hm Hk w. destruct (Hm w) as (a & w1 & H). destruct (Hk a w1) as (b & w2 & H2).
  exists b, w2. by rewrite (bind_run _ _ _ _ _ H).
Qed.
Lemma infallible_ret {A} (a : A) : infallible (mret a).
Proof. intros w. by exists a, w. Qed.
Lemma infallible_gets {A} (f : World → A) : infallible (gets f).
Proof. intros w. by eexists _, _. Qed.
Lemma infallible_modify (f : World → World) : infallible (modify f).
Proof. intros w. by eexists _, _. Qed.
Lemma infallible_catch {A} (m : M A) : infallible (catch m).
Proof. intros w. unfold catch. destruct (m w) as [r w']. by eexists _, _. Qed.
Lemma infallible_for_each {X} (l : list X) (f : X → M unit) :
  (∀ x, infallible (f x)) → infallible (for_each l f).
Proof.
  intros Hf. induction l as [|x l IH]; simpl; [apply infallible_ret|]. by apply infallible_bind.
Qed.

Lemma infallible_not_Err {A} (m : M A) w e w' : infallible m → m w ≠ (Err e, w').
Proof. intros Hm H. destruct (Hm w) as (a & w1 & H1). congruence. Qed.

(** Walks through the binds and branches of a function without [?]. *)
Ltac cannot_fail :=
  repeat match goal with
  | |- infallible (_ ≫= _) => apply infallible_bind
  | |- infallible (mret _) => apply infallible_ret
  | |- infallible (gets _) => apply infallible_gets
  | |- infallible (modify _) => apply infallible_modify
  | |- infallible (catch _) => apply infallible_catch
  | |- infallible (for_each _ _) => apply infallible_for_each
  | |- infallible (deposit_event _) => apply infallible_modify
  | |- infallible (on_committee _ _) => apply infallible_modify
  | |- infallible (match ?x with _ => _ end) => destruct x
  | |- ∀ _, infallible _ => intros ?
  | |- infallible _ => solve [auto]
  end.

(* ------------------------------------------------------------------ *)
(** * The operations of the committees *)

Section governance.
Context {RT : Runtime} {FE : Fees} {GOV : Governance}.
(** Every proposal leaves the committees in order. *)
Hypothesis dispatch_quiet : ∀ c p w r w', dispatch_proposal c p w = (r, w') → quiet w w'.

Lemma deposit_event_quiet e w u w' : deposit_event e w = (Ok u, w') → quiet w w'.
Proof. intros [H _]%deposit_event_Ok. by apply same_gov_quiet. Qed.

Lemma execute_quiet c did p h w u w' : execute c did p h w = (Ok u, w') → quiet w w'.
Proof.
  unfold execute. intros (r & w1 & H1 & H)%SE_bind_Ok. rewrite catch_Ok in H1.
  etrans; [by eapply dispatch_quiet|by eapply deposit_event_quiet].
Qed.

(** The call is taken before it is run, the votes are cleared afterwards. *)
Lemma finalize_proposal_quiet c approved total yes no h did w u w' :
  finalize_proposal c approved total yes no h did w = (Ok u, w') → quiet w w'.
Proof.
  unfold finalize_proposal. intros (u1 & w1 & H1 & H)%SE_bind_Ok.
  etrans; [by eapply deposit_event_quiet|]. clear H1 w.
  rewrite bind_gets in H. apply SE_bind_Ok in H as (u2 & w2 & H2 & H).
  apply on_committee_Ok in H2 as [E2 O2]. apply SE_bind_Ok in H as (u3 & w3 & H3 & H).
  assert (quiet w2 w3) as Q3.
  { destruct approved; [destruct (ProposalOf (committee c w1) !! h)|].
    - by eapply execute_quiet.
    - apply ret_Ok in H3 as [_ <-]. reflexivity.
    - apply ret_Ok in H3 as [_ <-]. reflexivity. }
  apply clear_proposal_Ok in H as [E4 O4]. intros Hok.
  assert (gov_ok w2) as Hok2.
  { eapply (only_committee_ok c); [done|by rewrite E2| |done].
    rewrite E2. by apply (taken_ok h), gov_stores. }
  destruct (Q3 Hok2) as [Hok3 C3]. split.
  - eapply (only_committee_ok c); [done|by rewrite E4| |done].
    rewrite E4. by apply cleared_ok, gov_stores.
  - intros c'. destruct (decide (c' = c)) as [->|Hne].
    + rewrite E4. apply taken_cleared_calm. specialize (C3 c). by rewrite E2 in C3.
    + rewrite (proj1 O4), <- (proj1 O2) by done. apply C3.
Qed.

Lemma execute_if_passed_quiet c h w u w' : execute_if_passed c h w = (Ok u, w') → quiet w w'.
Proof.
  unfold execute_if_passed. rewrite bind_gets. destruct (voting c h w) as [v|].
  2: { intros [_ <-]%ret_Ok. reflexivity. }
  intros (r & w1 & H1 & H)%SE_bind_Ok. rewrite catch_Ok in H1.
  etrans; [by eapply ensure_not_expired_quiet|]. clear H1.
  destruct (is_ok r). 2: { apply ret_Ok in H as [_ <-]. reflexivity. }
  rewrite !bind_gets in H. destruct (_ && _).
  { apply ret_Ok in H as [_ <-]. reflexivity. }
  rewrite bind_gets in H. apply SE_bind_Ok in H as (u2 & w2 & H2 & H).
  etrans; [by eapply finalize_proposal_quiet|by eapply deposit_event_quiet].
Qed.


(** ** What happens to a proposal when its votes are counted *)

(** The two answers of the count. *)
Definition passes (v : PolymeshVotes) (c : CommitteeInstance) (w : World) : bool :=
  satisfied (count (ayes v)) (count (nays v)) (seats c w) (VoteThreshold (committee c w)).
Definition fails (v : PolymeshVotes) (c : CommitteeInstance) (w : World) : bool :=
  satisfied (count (nays v)) (count (ayes v)) (seats c w) (VoteThreshold (committee c w)).

Definition gone (c : CommitteeInstance) (h : ProposalHash) (w : World) : Prop :=
  voting c h w = None ∧ h ∉ proposals c w ∧ ProposalOf (committee c w) !! h = None.

(** The states a vote goes through: the vote is recorded; the call is taken out
    when the votes decide; the rest of the proposal is cleared in the end. *)
Definition on_store (c : CommitteeInstance) (f : CommitteeStore → CommitteeStore) (w : World) : World :=
  w <| rest ::= λ r, r <| committees ::= λ m, <[c := f (getd empty_committee m c)]> m |> |>.
Definition with_event (e : Event) (w : World) : World := w <| events ::= λ l, l ++ [e] |>.

Definition voted (c : CommitteeInstance) (h : ProposalHash) (did : IdentityId) (approve : bool)
    (v : PolymeshVotes) (w : World) : World :=
  let v' := cast did approve v in
  with_event (Voted did (votes_index v) h approve (count (ayes v')) (count (nays v')) (seats c w))
    (on_store c (revoted h v') w).
Definition decided (c : CommitteeInstance) (h : ProposalHash) (v : PolymeshVotes) (approved : bool)
    (w : World) : World :=
  on_store c (taken h)
    (with_event ((if approved then Approved else ProposalRejected) (default 0 (current_identity w)) h
                   (count (ayes v)) (count (nays v)) (seats c w)) w).
Definition finished (c : CommitteeInstance) (h : ProposalHash) (did : IdentityId) (v : PolymeshVotes)
    (w : World) : World :=
  with_event (FinalVotes did (votes_index v) h (ayes v) (nays v)) (on_store c (cleared h) w).

Lemma committee_on_store c f w : committee c (on_store c f w) = f (committee c w).
Proof. unfold committee, on_store. simpl. by rewrite getd_insert_eq. Qed.

Lemma on_store_only c f w : only_committee c w (on_store c f w).
Proof.
  unfold only_committee, committee, on_store. simpl. split_and!; [|done..].
  intros c' Hne. by rewrite getd_insert_ne.
Qed.

Lemma on_store_twice c f g w : on_store c g (on_store c f w) = on_store c (λ s, g (f s)) w.
Proof.
  set (m := committees (rest w)). set (m1 := <[c := f (getd empty_committee m c)]> m).
  transitivity (w <| rest := (rest w) <| committees := <[c := g (getd empty_committee m1 c)]> m1 |> |>);
    [reflexivity|]. unfold m1. by rewrite getd_insert_eq, insert_insert_eq.
Qed.

Lemma clear_proposal_run c h w : clear_proposal c h w = (Ok tt, on_store c (cleared h) w).
Proof.
  transitivity (Ok tt : result DispatchError unit,
    on_store c (λ s, s <| Proposals ::= filter (λ h', h' ≠ h) |>)
      (on_store c (λ s, s <| Voting ::= delete h |>) w)); [reflexivity|].
  by rewrite on_store_twice.
Qed.

(** What is left of a proposal that is finished. *)
Lemma finished_gone c h did v w :
  ProposalOf (committee c w) !! h = None → gone c h (finished c h did v w).
Proof.
  intros Hp. unfold gone, voting, proposals. change (committee c (finished c h did v w)) with
    (committee c (on_store c (cleared h) w)). rewrite committee_on_store. simpl. split_and!; [| |done].
  - apply lookup_delete_eq.
  - rewrite list_elem_of_filter. naive_solver.
Qed.

(** The two ways a proposal ends. *)
Lemma finalize_proposal_run c (approved : bool) v h w u w' :
  finalize_proposal c approved (seats c w) (count (ayes v)) (count (nays v)) h
    (default 0 (current_identity w)) w = (Ok u, w') →
  match (if approved then ProposalOf (committee c w) !! h else None) with
  | None => w' = on_store c (cleared h) (decided c h v approved w)
  | Some p => ∃ r w2, dispatch_proposal c p (decided c h v approved w) = (r, w2) ∧
      w' = on_store c (cleared h) (with_event (Executed (default 0 (current_identity w)) h r) w2)
  end.
Proof.
  unfold finalize_proposal. intros (u1 & w1 & H1 & H)%SE_bind_Ok. apply modify_Ok in H1 as ->.
  rewrite bind_gets in H. apply SE_bind_Ok in H as (u2 & w2 & H2 & H). apply modify_Ok in H2 as ->.
  change (committee c (w <| events ::= _ |>)) with (committee c w) in H.
  apply SE_bind_Ok in H as (u3 & w3 & H3 & H). rewrite clear_proposal_run in H. injection H as _ <-.
  destruct approved; [destruct (ProposalOf (committee c w) !! h) as [p|]|].
  - unfold execute in H3. apply SE_bind_Ok in H3 as (r & w4 & H4 & H3). rewrite catch_Ok in H4.
    apply modify_Ok in H3 as ->. by exists r, w4.
  - apply ret_Ok in H3 as [_ H3]. by subst w3.
  - apply ret_Ok in H3 as [_ H3]. by subst w3.
Qed.

(** The votes are counted: the proposal is dispatched, dropped or left alone. *)
Lemma execute_if_passed_run c h v w u w' :
  voting c h w = Some v → ensure_not_expired c h (votes_expiry v) w = (Ok tt, w) →
  execute_if_passed c h w = (Ok u, w') →
  let did := default 0 (current_identity w) in
  if negb (passes v c w) && negb (fails v c w) then w' = w
  else match (if passes v c w then ProposalOf (committee c w) !! h else None) with
       | None => w' = finished c h did v (decided c h v (passes v c w) w)
       | Some p => ∃ r w2, dispatch_proposal c p (decided c h v (passes v c w) w) = (r, w2) ∧
           w' = finished c h did v (with_event (Executed did h r) w2)
       end.
Proof.
  intros Hv Hexp. unfold execute_if_passed. rewrite bind_gets, Hv.
  intros (r & w1 & H1 & H)%SE_bind_Ok. rewrite catch_Ok, Hexp in H1. injection H1 as <- <-.
  simpl in H. rewrite !bind_gets in H. fold (passes v c w) (fails v c w) in H.
  destruct (_ && _); [by apply ret_Ok in H as [_ <-]|].
  rewrite bind_gets in H. apply SE_bind_Ok in H as (u2 & w2 & H2 & H). apply modify_Ok in H as ->.
  apply finalize_proposal_run in H2.
  destruct (if passes v c w then _ else _) as [p|]; [|by subst w2].
  destruct H2 as (r & w3 & H3 & ->). by exists r, w3.
Qed.

Lemma ensure_is_member_Ok c o w did :
  ensure_is_member c o w = Ok did → did ∈ members c w.
Proof.
  unfold ensure_is_member, ensure_did_is_member. intros (d & _ & H)%bind_Ok.
  apply bind_Ok in H as (u & H & H'). injection H' as ->.
  destruct (binary_search _ did) as [i|] eqn:Hs; [|done].
  apply search_by_key_hit in Hs as (x & Hx & <-). by eapply list_elem_of_lookup_2.
Qed.

(** A successful vote: who voted on what, and what is counted afterwards. *)
Lemma vote_Ok c o h index approve w u w' :
  vote c o h index approve w = (Ok u, w') →
  ∃ did v, ensure_is_member c o w = Ok did ∧ voting c h w = Some v ∧ votes_index v = index ∧
    position did (if approve then ayes v else nays v) = None ∧
    ensure_not_expired c h (votes_expiry v) w = (Ok tt, w) ∧
    execute_if_passed c h (voted c h did approve v w) = (Ok tt, w').
Proof.
  clear dispatch_quiet. unfold vote. intros (did & w0 & H0 & H)%SE_bind_Ok. apply check_Ok in H0 as [Hdid ->].
  apply SE_bind_Ok in H as (v & w0 & H0 & H). apply check_Ok in H0 as [Hv ->].
  apply SE_bind_Ok in H as (u1 & w1 & H1 & H).
  pose proof H1 as Hexp. apply ensure_not_expired_run in H1 as [[_ ->]|[? _]]; [|done].
  apply SE_bind_Ok in H as (u2 & w2 & H2 & H). apply check_Ok in H2 as [Hp ->].
  unfold ensure_proposal in Hv. apply bind_Ok in Hv as (v0 & Hv & Hv').
  apply ok_or_Ok in Hv. apply bind_Ok in Hv' as (u3 & Hi & Hv'). injection Hv' as ->.
  apply ensure_Ok, bool_decide_eq_true_1 in Hi, Hp.
  apply SE_bind_Ok in H as (u4 & w4 & H4 & H). pose proof (on_committee_Ok _ _ _ _ _ H4) as [E4 _].
  apply modify_Ok in H4. rewrite bind_gets in H.
  apply SE_bind_Ok in H as (u5 & w5 & H5 & H). apply modify_Ok in H5. destruct u, u1.
  exists did, v. split_and!; try done; [by destruct approve|]. rewrite <- H. f_equal. subst w5 index.
  unfold voted, with_event. rewrite H4.
  assert (seats c w4 = seats c w) as Es by (unfold seats, members; by rewrite E4). rewrite H4 in Es.
  rewrite Es. by destruct approve.
Qed.

Lemma voted_only c h did approve v w : only_committee c w (voted c h did approve v w).
Proof. apply (on_store_only c (revoted h (cast did approve v)) w). Qed.
Lemma committee_voted c h did approve v w :
  committee c (voted c h did approve v w) = revoted h (cast did approve v) (committee c w).
Proof. apply (committee_on_store c (revoted h (cast did approve v)) w). Qed.

Lemma voted_in_order c h did approve v w :
  gov_ok w → voting c h w = Some v → did ∈ members c w →
  position did (if approve : bool then ayes v else nays v) = None →
  gov_ok (voted c h did approve v w).
Proof.
  intros Hok Hv Hm Hp. pose proof (committee_voted c h did approve v w) as E.
  eapply (only_committee_ok c); [apply voted_only|by rewrite E| |done]. rewrite E.
  apply cast_ok; [by apply gov_stores|done..].
Qed.

(** A decided proposal is gone: the call that ran did not bring it back. *)
Lemma finished_is_gone c h v w w' :
  gov_ok w →
  (let did := default 0 (current_identity w) in
   if negb (passes v c w) && negb (fails v c w) then w' = w
   else match (if passes v c w then ProposalOf (committee c w) !! h else None) with
        | None => w' = finished c h did v (decided c h v (passes v c w) w)
        | Some p => ∃ r w2, dispatch_proposal c p (decided c h v (passes v c w) w) = (r, w2) ∧
            w' = finished c h did v (with_event (Executed did h r) w2)
        end) →
  passes v c w || fails v c w = true → gone c h w'.
Proof.
  intros Hok H Hd. assert (∀ b, ProposalOf (committee c (decided c h v b w)) !! h = None) as Hn.
  { intros b. unfold decided. rewrite committee_on_store. apply lookup_delete_eq. }
  assert (negb (passes v c w) && negb (fails v c w) = false) as E by (by destruct (passes v c w), (fails v c w)).
  simpl in H. rewrite E in H. destruct (if passes v c w then _ else _) as [p|].
  - destruct H as (r & w2 & Hr & ->). apply finished_gone.
    assert (gov_ok (decided c h v (passes v c w) w)) as Hokd.
    { eapply (only_committee_ok c w); [|..|exact Hok].
      - unfold decided. match goal with |- only_committee _ _ (on_store _ _ (with_event ?e _)) =>
          exact (on_store_only c (taken h) (with_event e w)) end.
      - unfold decided. by rewrite committee_on_store.
      - unfold decided. rewrite committee_on_store. by apply taken_ok, (gov_stores _ Hok c). }
    apply dispatch_quiet in Hr. destruct (Hr Hokd) as [_ Hc]. by apply (calm_calls _ _ _ _ (Hc c)).
  - subst w'. by apply finished_gone.
Qed.

Lemma vote_quiet c o h index approve w u w' :
  vote c o h index approve w = (Ok u, w') → quiet w w'.
Proof.
  intros (did & v & Hdid & Hv & _ & Hp & _ & H)%vote_Ok.
  etrans; [|by eapply execute_if_passed_quiet].
  pose proof (committee_voted c h did approve v w) as E.
  eapply (only_committee_quiet c); [apply voted_only|by rewrite E|]. intros Hok. rewrite E.
  apply cast_ok; [done..| |done]. by eapply ensure_is_member_Ok.
Qed.

(** ** Proposing *)

Definition proposed (h : ProposalHash) (p : Proposal) (v : PolymeshVotes) (s : CommitteeStore)
    : CommitteeStore :=
  s <| ProposalCount ::= λ i, i + 1 |> <| Proposals ::= λ l, l ++ [h] |>
    <| ProposalOf ::= <[h := p]> |> <| Voting ::= <[h := v]> |>.

Lemma proposed_ok h p did e s :
  store_ok s → Voting s !! h = None → ProposalCount s < PROPOSALS_MAX →
  store_ok (proposed h p (mkPolymeshVotes (ProposalCount s) [did] [] e) s).
Proof.
  intros [H1 H2 H3 H4 H5] Hv Hlt. split; simpl; try done.
  - apply NoDup_app. split_and!; [done| |apply NoDup_singleton].
    intros h' Hin ->%list_elem_of_singleton. apply H3 in Hin. rewrite Hv in Hin. by destruct Hin.
  - intros h'. rewrite elem_of_app, H3, list_elem_of_singleton.
    destruct (decide (h' = h)) as [->|Hne].
    + rewrite lookup_insert_eq. naive_solver.
    + rewrite lookup_insert_ne by done. naive_solver.
  - intros h' v. rewrite lookup_insert_Some. intros [[_ <-]|[_ Hv']].
    + split; simpl; [apply NoDup_singleton|lia].
    + destruct (H4 _ _ Hv'). split; [done|]. simpl. lia.
  - unfold PROPOSALS_MAX in *. lia.
Qed.

Definition store_clean (s : CommitteeStore) : Prop :=
  (∀ h x, ¬ stale s h x) ∧ (∀ h, ¬ orphan s h) ∧ (∀ h, ¬ dangling s h).

Lemma proposed_clean h p did i e s :
  did ∈ Members s → store_clean s → store_clean (proposed h p (mkPolymeshVotes i [did] [] e) s).
Proof.
  intros Hd (H1 & H2 & H3). split_and!; unfold stale, orphan, dangling; simpl.
  - intros h' x (v & Hv & Hin & Hm). apply lookup_insert_Some in Hv as [[_ <-]|[_ Hv]].
    + simpl in Hin. set_solver.
    + by apply (H1 h' x); exists v.
  - intros h'. destruct (decide (h' = h)) as [->|Hne].
    + rewrite !lookup_insert_eq. naive_solver.
    + rewrite !lookup_insert_ne by done. apply H2.
  - intros h'. destruct (decide (h' = h)) as [->|Hne].
    + rewrite !lookup_insert_eq. naive_solver.
    + rewrite !lookup_insert_ne by done. apply H3.
Qed.

(** Either the committee has one seat and the call runs at once, or it is
    recorded with the vote of the proposer. *)
Lemma propose_Ok c o p w u w' :
  propose c o p w = (Ok u, w') →
  ∃ did, ensure_is_member c o w = Ok did ∧ ProposalCount (committee c w) < PROPOSALS_MAX ∧
    ProposalOf (committee c w) !! hash_of p = None ∧
    ((seats c w < 2 ∧ execute c did p (hash_of p) w = (Ok tt, w')) ∨
     (2 ≤ seats c w ∧ only_committee c w w' ∧ ∃ e,
      committee c w' =
        proposed (hash_of p) p (mkPolymeshVotes (ProposalCount (committee c w)) [did] [] e)
          (committee c w))).
Proof.
  clear dispatch_quiet. unfold propose. intros (did & w0 & H0 & H)%SE_bind_Ok. apply check_Ok in H0 as [Hdid ->].
  apply SE_bind_Ok in H as (u1 & w0 & H0 & H). apply check_Ok in H0 as [Hc ->].
  apply ensure_Ok, bool_decide_eq_true_1 in Hc.
  apply SE_bind_Ok in H as (u2 & w0 & H0 & H). apply check_Ok in H0 as [Hp ->].
  apply ensure_Ok, negb_true_iff, has_key_false in Hp. exists did. split_and!; [done..|].
  rewrite bind_gets in H. case_bool_decide as Hs; [left; by destruct u|right].
  rewrite bind_gets in H. apply SE_bind_Ok in H as (u3 & w3 & H3 & H).
  apply on_committee_Ok in H3 as [E3 O3]. apply SE_bind_Ok in H as (u4 & w4 & H4 & H).
  apply on_committee_Ok in H4 as [E4 O4]. apply SE_bind_Ok in H as (u5 & w5 & H5 & H).
  apply on_committee_Ok in H5 as [E5 O5]. rewrite !bind_gets in H.
  apply SE_bind_Ok in H as (u6 & w6 & H6 & H). apply on_committee_Ok in H6 as [E6 O6].
  apply deposit_event_Ok in H as [S7 _]. split_and!; [lia| |].
  - do 4 (etrans; [eassumption|]). by apply same_gov_only.
  - rewrite (same_gov_committee _ _ _ S7), E6, E5, E4, E3. by eexists.
Qed.

(** What a call of the pallets keeps. *)
Definition tidy (w w' : World) : Prop := gov_ok w → clean w → gov_ok w' ∧ clean w'.

Lemma quiet_tidy w w' : quiet w w' → tidy w w'.
Proof. intros Hq Hok Hc. split; [by apply Hq|by eapply quiet_clean]. Qed.

Lemma propose_tidy c o p w u w' :
  voting c (hash_of p) w = None → propose c o p w = (Ok u, w') → tidy w w'.
Proof.
  intros Hv (did & Hdid & Hlt & _ & [[_ H]|(_ & O & e & E)])%propose_Ok.
  { by eapply quiet_tidy, execute_quiet. }
  intros Hok Hc. split.
  - eapply (only_committee_ok c); [done|by rewrite E| |done]. rewrite E.
    apply proposed_ok; [by apply gov_stores|done..].
  - intros c'. destruct (decide (c' = c)) as [->|Hne]; [|by rewrite (proj1 O)].
    rewrite E. apply proposed_clean; [by eapply ensure_is_member_Ok|apply Hc].
Qed.

(** Settings: everything the votes depend on stays. *)
Lemma setting_quiet c f e w u w' :
  (∀ s, Proposals (f s) = Proposals s ∧ ProposalOf (f s) = ProposalOf s ∧
        Voting (f s) = Voting s ∧ ProposalCount (f s) = ProposalCount s ∧
        Members (f s) = Members s) →
  (on_committee c f ;; deposit_event e) w = (Ok u, w') → quiet w w'.
Proof.
  intros Hf (u1 & w1 & [E O]%on_committee_Ok & H)%SE_bind_Ok.
  etrans; [|by eapply deposit_event_quiet].
  destruct (Hf (committee c w)) as (H1 & H2 & H3 & H4 & H5). rewrite <- E in *.
  eapply (only_committee_quiet c); [done..|]. intros [K1 K2 K3 K4 K5]. split.
  - split; unfold votes_ok; rewrite ?H1, ?H3, ?H4, ?H5; done.
  - split; unfold stale, orphan, dangling; rewrite ?H2, ?H3, ?H5; auto.
Qed.

Definition is_setting (x : Committee.call) : bool :=
  match x with VoteOrPropose _ _ | Vote _ _ _ => false | _ => true end.

Lemma setting_dispatch_quiet c o x w u w' :
  is_setting x = true → Committee.dispatch c o x w = (Ok u, w') → quiet w w'.
Proof.
  intros Hx H%with_storage_transaction_Ok. destruct x; [..|done|done].
  - do 2 (apply SE_bind_Ok in H as (? & ? & [_ ->]%check_Ok & H)).
    eapply setting_quiet; [|exact H]. done.
  - do 2 (apply SE_bind_Ok in H as (? & ? & [_ ->]%check_Ok & H)).
    eapply setting_quiet; [|exact H]. done.
  - apply SE_bind_Ok in H as (? & ? & [_ ->]%check_Ok & H).
    eapply setting_quiet; [|exact H]. done.
Qed.

Lemma committee_dispatch_tidy c o x w u w' :
  Committee.dispatch c o x w = (Ok u, w') → tidy w w'.
Proof.
  intros H. destruct (is_setting x) eqn:Hx; [by eapply quiet_tidy, setting_dispatch_quiet|].
  apply with_storage_transaction_Ok in H. destruct x as [| | |approve p|h index approve]; try done.
  - unfold vote_or_propose in H. rewrite bind_gets in H.
    destruct (voting c (hash_of p) w) as [v|] eqn:Hv.
    + by eapply quiet_tidy, vote_quiet.
    + destruct approve; [by eapply propose_tidy|done].
  - by eapply quiet_tidy, vote_quiet.
Qed.

(* ------------------------------------------------------------------ *)
(** * Changes of the membership *)

(** One proposal after the other loses the vote of the member who left. *)
Lemma retract_and_recount_calm c x h l s0 w u w' :
  retract_and_recount c [x] h w = (Ok u, w') → gov_ok w →
  calm_but [x] (h :: l) s0 (committee c w) →
  gov_ok w' ∧ calm_but [x] l s0 (committee c w') ∧
  ∀ c', c' ≠ c → calm (committee c' w) (committee c' w').
Proof.
  unfold retract_and_recount. intros (b & w1 & H1 & H)%SE_bind_Ok Hok Hc.
  assert (∃ b', remove_vote_from c x h w = (Ok b', w1)) as (b' & H1').
  { simpl in H1. apply SE_bind_Ok in H1 as (b' & w2 & H1 & H2).
    destruct b'; apply ret_Ok in H2 as [_ <-]; eauto. }
  pose proof (remove_vote_from_Ok _ _ _ _ _ _ H1') as [O1 _].
  assert (Members (committee c w1) = Members (committee c w)) as Hm.
  { apply remove_vote_from_Ok in H1' as [_ [[-> _]|(? & ? & _ & _ & _ & ->)]]; done. }
  apply remove_vote_from_ok in H1' as (Hs1 & C1 & Hgone); [|by apply gov_stores].
  assert (gov_ok w1) as Hok1 by (by eapply (only_committee_ok c)).
  assert (quiet w1 w') as Q.
  { destruct b; [by eapply execute_if_passed_quiet|]. apply ret_Ok in H as [_ <-]. reflexivity. }
  destruct (Q Hok1) as [Hok' C']. split_and!; [done| |].
  - eapply calm_but_trans; [|apply C']. destruct (calm_but_trans _ _ _ _ _ Hc C1) as [A1 A2 A3 A4].
    split; [|done..]. intros h' x' Hst. destruct (A1 _ _ Hst) as [?|[Hx Hin]]; [by left|].
    apply list_elem_of_singleton in Hx as ->. apply elem_of_cons in Hin as [->|Hin]; [done|].
    right. set_solver.
  - intros c' Hne. rewrite <- (proj1 O1) by done. apply C'.
Qed.

Lemma retract_all_calm c x l s0 w u w' :
  for_each l (retract_and_recount c [x]) w = (Ok u, w') → gov_ok w →
  calm_but [x] l s0 (committee c w) →
  gov_ok w' ∧ calm s0 (committee c w') ∧
  ∀ c', c' ≠ c → calm (committee c' w) (committee c' w').
Proof.
  revert w. induction l as [|h l IH]; intros w H Hok Hc; simpl in H.
  - apply ret_Ok in H as [_ <-]. split_and!; [done| |done].
    destruct Hc as [A1 A2 A3 A4]. split; [|done..]. intros h y [?|[_ ?]]%A1; [by left|set_solver].
  - apply SE_bind_Ok in H as (u1 & w1 & H1 & H).
    apply (retract_and_recount_calm _ _ _ l s0) in H1 as (Hok1 & Hc1 & Ho1); [|done..].
    destruct (IH _ H Hok1 Hc1) as (Hok' & Hc' & Ho'). split_and!; [done..|].
    intros c' Hne. etrans; [by apply Ho1|by apply Ho'].
Qed.

Lemma retract_none c l w u w' :
  for_each l (retract_and_recount c []) w = (Ok u, w') → w' = w.
Proof.
  revert w. induction l as [|h l IH]; intros w H; simpl in H; [by apply ret_Ok in H as [_ <-]|].
  apply SE_bind_Ok in H as (u1 & w1 & H1 & H). apply IH in H as ->. by injection H1.
Qed.

(** Claims are records of the identity pallet. *)
Lemma systematic_same_gov l iss (add : bool) w u w' :
  (if add then Claim.add_systematic_cdd_claims l iss
   else Claim.revoke_systematic_cdd_claims l iss) w = (Ok u, w') → same_gov w w'.
Proof.
  destruct add; (apply for_each_ind; [done|]); intros x w1 w2 _ Hs (r & w3 & H1 & H)%SE_bind_Ok;
    apply ret_Ok in H as [_ <-]; rewrite catch_Ok in H1; (etrans; [exact Hs|]); clear Hs.
  - destruct r as [[]|e]; [|by apply KeysInv.base_add_claim_err in H1 as ->].
    unfold Claim.base_add_claim, Claim.unverified_add_claim_with_scope, on_records, on_rest,
      deposit_event in H1. ok_inv. done.
  - destruct r as [[]|e]; [|by apply KeysInv.base_revoke_claim_err in H1 as ->].
    unfold Claim.base_revoke_claim, on_records, on_rest, deposit_event in H1. ok_inv. done.
Qed.

(** The members of a group were replaced by [new], and nothing else changed. *)
Definition regrouped (i : GroupInstance) (new : list IdentityId) (w w' : World) : Prop :=
  committees (rest w') = committees (rest w) ∧
  ∀ j, get_members j w' = if decide (j = i) then new else get_members j w.

(** One member leaves at most; the others are in the new list. *)
Definition covers (old outgoing new : list IdentityId) : Prop :=
  (length outgoing ≤ 1)%nat ∧ ∀ x, x ∈ old → x ∈ new ∨ x ∈ outgoing.

Lemma change_members_sorted_calm c incoming outgoing new w0 w1 u w' :
  gov_ok w0 → ascending new → covers (members c w0) outgoing new →
  regrouped (CommitteeMembership c) new w0 w1 →
  change_members_sorted c incoming outgoing new w1 = (Ok u, w') →
  gov_ok w' ∧ ∀ c', calm (committee c' w0) (committee c' w').
Proof.
  intros Hok Hasc [Hlen Hcov] [Rc Rg].
  assert (∀ c', committee c' w1 = committee c' w0) as Hsame by (intros c'; unfold committee; by rewrite Rc).
  unfold change_members_sorted. intros (u2 & w2 & H2 & H)%SE_bind_Ok.
  apply on_committee_Ok in H2 as [E2 (O2 & G2 & _)]. rewrite Hsame in E2.
  assert (gov_ok w2) as Hok2.
  { destruct Hok as [K1 K2 K3]. split.
    - intros c'. destruct (decide (c' = c)) as [->|Hne]; [|by rewrite O2, Hsame].
      rewrite E2. by destruct (K1 c).
    - intros c'. unfold members. rewrite G2, Rg. case_decide as Hd; simplify_eq.
      + by rewrite E2.
      + rewrite O2, Hsame by congruence. apply K2.
    - rewrite G2, Rg. by rewrite decide_False. }
  assert (calm_but outgoing (proposals c w2) (committee c w0) (committee c w2)) as C2.
  { unfold proposals. rewrite E2. split; simpl; try done.
    intros h x (v & Hv & Hin & Hm). simpl in *.
    destruct (decide (x ∈ Members (committee c w0))) as [Hx|Hx]; [|left; by exists v].
    right. split; [destruct (Hcov x Hx); naive_solver|].
    apply (ok_listed _ (gov_stores _ Hok c)). by rewrite Hv. }
  rewrite bind_gets in H. apply SE_bind_Ok in H as (u3 & w3 & H3 & H).
  assert (gov_ok w3 ∧ ∀ c', calm (committee c' w0) (committee c' w3)) as [Hok3 C3].
  { destruct outgoing as [|x [|]]; [| |simpl in Hlen; lia].
    - apply retract_none in H3 as ->. split; [done|]. intros c'.
      destruct (decide (c' = c)) as [->|Hne]; [|by rewrite O2, Hsame].
      destruct C2 as [A1 A2 A3 A4]. split; [|done..]. intros h y [?|[? _]]%A1; [by left|set_solver].
    - eapply (retract_all_calm _ _ _ (committee c w0)) in H3 as (Hok3 & C3 & Co); [|done..].
      split; [done|]. intros c'. destruct (decide (c' = c)) as [->|Hne]; [done|].
      rewrite <- Hsame, <- O2 by done. by apply Co. }
  assert (quiet w3 w') as Q; [|destruct (Q Hok3) as [? C4]; split; [done|intros c'; by etrans; [apply C3|apply C4]]].
  rewrite bind_gets in H. apply SE_bind_Ok in H as (u4 & w4 & H4 & H).
  apply SE_bind_Ok in H as (u5 & w5 & H5 & H).
  apply (systematic_same_gov _ _ true) in H5. apply (systematic_same_gov _ _ false) in H.
  etrans; [|apply same_gov_quiet; etrans; [exact H5|exact H]].
  destruct (ReleaseCoordinator _); [|apply ret_Ok in H4 as [_ <-]; reflexivity].
  case_bool_decide; [|apply ret_Ok in H4 as [_ <-]; reflexivity].
  apply SE_bind_Ok in H4 as (u6 & w6 & H6 & H4). rewrite bind_gets in H4.
  eapply (setting_quiet c (λ s, s <| ReleaseCoordinator := None |>)); [done|].
  unfold mbind, SE_bind. rewrite H6. exact H4.
Qed.

(** Telling a committee about its new members always succeeds. *)
Lemma execute_if_passed_infallible c h : infallible (execute_if_passed c h).
Proof. unfold execute_if_passed, finalize_proposal, execute, clear_proposal. cannot_fail. Qed.

Lemma remove_vote_from_infallible c x h : infallible (remove_vote_from c x h).
Proof. unfold remove_vote_from. cannot_fail. Qed.

Lemma change_members_sorted_infallible c incoming outgoing new :
  infallible (change_members_sorted c incoming outgoing new).
Proof.
  pose proof execute_if_passed_infallible as He. pose proof remove_vote_from_infallible as Hr.
  assert (∀ l h, infallible (any_vote_removed c l h)) as Ha.
  { intros l h. induction l as [|x l IH]; simpl; cannot_fail. }
  unfold change_members_sorted, retract_and_recount, Claim.add_systematic_cdd_claims,
    Claim.revoke_systematic_cdd_claims. cannot_fail.
Qed.

Lemma membership_changed_infallible i incoming outgoing new :
  infallible (Group.membership_changed i incoming outgoing new).
Proof.
  destruct i; simpl; [|apply change_members_sorted_infallible].
  unfold Claim.change_members_sorted, Claim.add_systematic_cdd_claims,
    Claim.revoke_systematic_cdd_claims. cannot_fail.
Qed.

(** ** The operations of the groups *)

Lemma gov_members_ascending w i : gov_ok w → ascending (get_members i w).
Proof. intros [H1 H2 H3]. destruct i as [|c]; [done|]. rewrite H2. apply H1. Qed.

Lemma membership_changed_calm i incoming outgoing new w0 w1 u w' :
  gov_ok w0 → ascending new → covers (get_members i w0) outgoing new →
  regrouped i new w0 w1 →
  Group.membership_changed i incoming outgoing new w1 = (Ok u, w') →
  gov_ok w' ∧ ∀ c', calm (committee c' w0) (committee c' w').
Proof.
  intros Hok Hasc Hcov Hr H. destruct i as [|c]; simpl in H.
  - unfold Claim.change_members_sorted in H. apply SE_bind_Ok in H as (u1 & w2 & H1 & H).
    apply (systematic_same_gov _ _ true) in H1. apply (systematic_same_gov _ _ false) in H.
    assert (same_gov w1 w') as Hs by (by etrans). clear H1 H. destruct Hr as [Rc Rg].
    assert (gov_ok w1) as Hok1.
    { destruct Hok as [K1 K2 K3]. split; unfold members, committee in *; rewrite ?Rc; try done.
      - intros c. by rewrite Rg, decide_False.
      - by rewrite Rg, decide_True. }
    split; [by eapply same_gov_ok|]. intros c'. rewrite (same_gov_committee _ _ _ Hs).
    unfold committee. by rewrite Rc.
  - eapply change_members_sorted_calm; [done..| |done|done]. by rewrite <- (gov_synced _ Hok).
Qed.

Lemma on_group_active i l w u w' :
  Group.on_group i (λ s, s <| ActiveMembers := l |>) w = (Ok u, w') → regrouped i l w w'.
Proof.
  intros H. apply modify_Ok in H as ->. split; [done|]. intros j. unfold get_members, group. simpl.
  rewrite getd_insert. by repeat case_decide; simplify_eq.
Qed.

Lemma on_group_same i f w u w' :
  (∀ s, ActiveMembers (f s) = ActiveMembers s) →
  Group.on_group i f w = (Ok u, w') → same_gov w w'.
Proof.
  intros Hf H. apply modify_Ok in H as ->. split_and!; [done| |done]. intros j.
  unfold get_members, group. simpl. rewrite getd_insert. case_decide; simplify_eq; by rewrite ?Hf.
Qed.

(** The shape all changes of members have: store, report, announce. *)
Lemma regroup_quiet i incoming outgoing new e w u w' :
  (gov_ok w → ascending new ∧ covers (get_members i w) outgoing new) →
  (Group.on_group i (λ s, s <| ActiveMembers := new |>) ;;
   Group.membership_changed i incoming outgoing new ;;
   did ← gets Group.actor ; deposit_event (e did)) w = (Ok u, w') → quiet w w'.
Proof.
  intros Hnew (u1 & w1 & H1 & H)%SE_bind_Ok Hok. apply on_group_active in H1.
  destruct (Hnew Hok) as [Hasc Hcov].
  apply SE_bind_Ok in H as (u2 & w2 & H2 & H). rewrite bind_gets in H.
  eapply membership_changed_calm in H2 as [Hok2 C2]; [|done..].
  apply deposit_event_Ok in H as [S _]. split; [by eapply same_gov_ok|].
  intros c'. by rewrite (same_gov_committee _ _ _ S).
Qed.

Lemma removed_covers l i who :
  ascending l → l !! i = Some who →
  ascending (vec_remove i l) ∧ covers l [who] (vec_remove i l).
Proof.
  intros Hasc Hi. unfold vec_remove. split; [eapply ascending_sublist, Hasc; apply sublist_delete|].
  split; [simpl; lia|]. intros x Hx. rewrite <- (take_drop_middle l i who) in Hx by done.
  rewrite delete_take_drop. set_solver.
Qed.

Lemma base_remove_active_member_quiet i who w u w' :
  Group.base_remove_active_member i who w = (Ok u, w') → quiet w w'.
Proof.
  unfold Group.base_remove_active_member. rewrite bind_gets.
  destruct (binary_search (get_members i w) who) as [loc|] eqn:Hs; [|done].
  apply search_by_key_hit in Hs as (x & Hx & <-).
  apply (regroup_quiet i [] _ _ (λ d, MemberRemoved d (id x))). intros Hok. unfold id.
  apply removed_covers; [by apply gov_members_ascending|done].
Qed.

(** It fails before it writes anything. *)
Lemma base_remove_active_member_Err i who w e w' :
  Group.base_remove_active_member i who w = (Err e, w') → w' = w.
Proof.
  unfold Group.base_remove_active_member. rewrite bind_gets.
  destruct (binary_search (get_members i w) who) as [loc|]; [|by intros [= _ <-]].
  intros H. exfalso. revert H. apply infallible_not_Err.
  pose proof membership_changed_infallible as Hm. unfold Group.on_group, on_rest. cannot_fail.
Qed.

Lemma base_remove_inactive_member_quiet i who w u w' :
  Group.base_remove_inactive_member i who w = (Ok u, w') → quiet w w'.
Proof.
  unfold Group.base_remove_inactive_member. rewrite bind_gets.
  destruct (binary_search_by_key _ _ _) as [pos|]; [|done].
  intros (u1 & w1 & H1 & H)%SE_bind_Ok. apply on_group_same in H1; [|done].
  apply SE_bind_Ok in H as (d & w2 & [_ ->]%check_Ok & H). apply deposit_event_Ok in H as [S _].
  apply same_gov_quiet. by etrans.
Qed.

Lemma base_remove_member_quiet i who w u w' :
  Group.base_remove_member i who w = (Ok u, w') → quiet w w'.
Proof.
  unfold Group.base_remove_member, Group.or_else. intros (r & w1 & H1 & H)%SE_bind_Ok.
  rewrite catch_Ok in H1. destruct r as [[]|e].
  - apply ret_Ok in H as [_ <-]. by eapply base_remove_active_member_quiet.
  - apply base_remove_active_member_Err in H1 as ->. by eapply base_remove_inactive_member_quiet.
Qed.

Lemma base_add_member_quiet i who w u w' :
  Group.base_add_member i who w = (Ok u, w') → quiet w w'.
Proof.
  unfold Group.base_add_member. rewrite bind_gets.
  destruct (binary_search (get_members i w) who) as [|loc] eqn:Hs; [done|].
  intros (u1 & w1 & [_ ->]%check_Ok & H)%SE_bind_Ok. revert H.
  apply (regroup_quiet i [who] _ _ (λ d, MemberAdded d who)). intros Hok.
  apply (gov_members_ascending _ i) in Hok. pose proof (search_spec_by_key id (get_members i w) who) as Ha.
  rewrite list_fmap_id in Ha. specialize (Ha Hok). unfold binary_search in Hs. rewrite Hs in Ha.
  split; [by apply ascending_insert|]. split; [simpl; lia|].
  intros x Hx. left. rewrite vec_insert_perm. by right.
Qed.

(** After the removal only the list of revoked members changes. *)
Lemma base_disable_rest i who expiry at_ w u w' :
  (current_did ← gets Group.actor ;
   deactivated ← gets (λ w, default (now w) at_) ;
   let m := mkInactiveMember who deactivated expiry in
   t ← gets now ;
   l ← gets (λ w, InactiveMembers (group i w)) ;
   for_each (filter (λ m, is_member_expired m t = true) l)
     (λ _, deposit_event (MemberRemoved current_did who)) ;;
   let kept := filter (λ m, is_member_expired m t = false) l in
   let updated := match binary_search_by_key inactive_id kept (inactive_id m) with
                  | inl idx => <[idx := m]> kept
                  | inr _ => sort_by_key inactive_id (kept ++ [m])
                  end in
   Group.on_group i (λ s, s <| InactiveMembers := updated |>) ;;
   deposit_event (MemberRevoked current_did who)) w = (Ok u, w') → same_gov w w'.
Proof.
  intros H. rewrite !bind_gets in H. apply SE_bind_Ok in H as (u2 & w2 & H2 & H).
  assert (same_gov w w2) as S2.
  { revert H2. apply for_each_ind; [done|]. intros x w3 w4 _ S3 [S4 _]%deposit_event_Ok. by etrans. }
  etrans; [exact S2|]. clear S2 H2. apply SE_bind_Ok in H as (u3 & w3 & H3 & H).
  apply on_group_same in H3; [|done]. apply deposit_event_Ok in H as [S _]. by etrans.
Qed.

Lemma base_disable_member_quiet i who expiry at_ w u w' :
  Group.base_disable_member i who expiry at_ w = (Ok u, w') → quiet w w'.
Proof.
  unfold Group.base_disable_member. intros (u1 & w1 & H1 & H)%SE_bind_Ok.
  etrans; [by eapply base_remove_active_member_quiet|].
  by eapply same_gov_quiet, base_disable_rest.
Qed.

Lemma swapped_covers l i remove add :
  ascending l → l !! i = Some remove → add ∉ l →
  ascending (sort_by_key id (<[i := add]> l)) ∧
  covers l [remove] (sort_by_key id (<[i := add]> l)).
Proof.
  intros Hasc Hi Hadd. pose proof (ascending_NoDup _ Hasc) as Hnd.
  assert (<[i := add]> l ≡ₚ add :: delete i l) as Hp.
  { rewrite insert_take_drop by (by eapply lookup_lt_Some). rewrite delete_take_drop.
    by rewrite Permutation_middle. }
  split.
  - apply sort_ascending. rewrite Hp. apply NoDup_cons. split.
    + intros Hin. apply Hadd. eapply elem_of_sublist, sublist_delete. exact Hin.
    + eapply sublist_NoDup; [exact Hnd|apply sublist_delete].
  - split; [simpl; lia|]. intros x Hx. rewrite sort_by_key_perm, Hp.
    destruct (removed_covers l i remove Hasc Hi) as [_ [_ Hc]]. unfold vec_remove in Hc.
    destruct (Hc x Hx); [left; by right|by right].
Qed.

Lemma swap_member_quiet i o remove add w u w' :
  Group.swap_member i o remove add w = (Ok u, w') → quiet w w'.
Proof.
  unfold Group.swap_member. intros (u1 & w1 & [_ ->]%check_Ok & H)%SE_bind_Ok.
  case_bool_decide as Hne; [apply ret_Ok in H as [_ <-]; reflexivity|]. rewrite bind_gets in H.
  destruct (binary_search _ remove) as [loc|] eqn:Hr; [|done].
  destruct (binary_search _ add) as [|loc'] eqn:Ha; [done|]. revert H.
  apply (regroup_quiet i [add] _ _ (λ d, MembersSwapped d remove add)). intros Hok.
  apply (gov_members_ascending _ i) in Hok. apply search_by_key_hit in Hr as (x & Hx & <-).
  apply swapped_covers; [done..|]. intros Hin. destruct (search_hit _ _ Hok Hin) as (j & Hj & _). congruence.
Qed.

Lemma abdicate_membership_quiet i o w u w' :
  Group.abdicate_membership i o w = (Ok u, w') → quiet w w'.
Proof.
  unfold Group.abdicate_membership. intros ([who d] & w1 & [_ ->]%check_Ok & H)%SE_bind_Ok.
  apply SE_bind_Ok in H as (u1 & w1 & [_ ->]%check_Ok & H). rewrite bind_gets in H.
  do 2 (apply SE_bind_Ok in H as (? & ? & [_ ->]%check_Ok & H)).
  apply SE_bind_Ok in H as (u2 & w2 & H2 & H). apply on_group_active in H2. intros Hok.
  eapply membership_changed_calm; [done| | |done|done].
  - eapply ascending_sublist; [apply sublist_filter|by apply gov_members_ascending].
  - split; [simpl; lia|]. intros y Hy. rewrite list_elem_of_filter, list_elem_of_singleton.
    destruct (decide (y = d)); auto.
Qed.

Definition resets (x : Group.call) : bool :=
  match x with Group.ResetMembers _ => true | _ => false end.

Lemma group_dispatch_quiet i o x w u w' :
  resets x = false → Group.dispatch i o x w = (Ok u, w') → quiet w w'.
Proof.
  intros Hr H%with_storage_transaction_Ok. destruct x; simpl in Hr; try done.
  - unfold Group.set_active_members_limit in H.
    do 2 (apply SE_bind_Ok in H as (? & ? & [_ ->]%check_Ok & H)). rewrite bind_gets in H.
    apply SE_bind_Ok in H as (u1 & w1 & H1 & H). apply on_group_same in H1; [|done].
    apply deposit_event_Ok in H as [S _]. apply same_gov_quiet. by etrans.
  - apply SE_bind_Ok in H as (? & ? & [_ ->]%check_Ok & H). by eapply base_disable_member_quiet.
  - apply SE_bind_Ok in H as (? & ? & [_ ->]%check_Ok & H). by eapply base_add_member_quiet.
  - apply SE_bind_Ok in H as (? & ? & [_ ->]%check_Ok & H). by eapply base_remove_member_quiet.
  - by eapply swap_member_quiet.
  - by eapply abdicate_membership_quiet.
Qed.
End governance.

(** A block that has not changed does not expire a proposal. *)
Lemma not_expired_same c h e w w1 :
  block_number w1 = block_number w → ensure_not_expired c h e w = (Ok tt, w) →
  ensure_not_expired c h e w1 = (Ok tt, w1).
Proof.
  unfold ensure_not_expired. rewrite !bind_gets. intros ->. destruct e; [|done].
  by case_bool_decide.
Qed.

Lemma rolled_back_quiet {A} (m : M A) w e w' :
  with_storage_transaction m w = (Err e, w') → quiet w w'.
Proof. intros ->%with_storage_transaction_Err. by apply same_gov_quiet. Qed.
End GovernanceInv.
