(* ===== verification/RuntimeCalls.v ===== *)
(** The calls of the runtime that concern groups and committees, and how a
    committee dispatches the proposals it passes.

    A proposal is any call of the runtime.  The ones that matter here are those of
    the groups, of the committees themselves, of the identity pallet where it
    removes a CDD provider, and the batches of the utility pallet, which may hold
    any of them: they may change the members of the very committee that is
    counting votes.  [runtime_governance] ties the knot, with the depth to which
    proposals trigger each other as fuel. *)

From stdpp Require Import base numbers list gmap sets strings.
From S2P Require Import Prelude Subset Types ClaimTypes SettlementTypes Schedules State Identity.
From S2P Require Import Claims Keys KeysInv Checkpoint Sorting Committee Group Utility UtilityInv.
From S2P Require Import GovernanceInv.

Local Open Scope N_scope.

Module RuntimeCalls.
Import Committee GovernanceInv UtilityInv.

(** [OtherCall] stands for the calls of the other pallets that dispatch no further
    calls, and for the other calls of the identity pallet. *)
#[local] Unset Elimination Schemes.
Inductive gov_call : Type :=
  | GroupCall (i : GroupInstance) (x : Group.call)
  | CommitteeCall (c : CommitteeInstance) (x : Committee.call)
  | InvalidateCddClaims (cdd : IdentityId) (disable_from : Moment) (expiry : option Moment)
  | UtilityCall (x : Utility.call gov_call)
  | OtherCall (n : N).
#[local] Set Elimination Schemes.

Section induction.
Context (P : gov_call → Prop).
Hypothesis case_group : ∀ i x, P (GroupCall i x).
Hypothesis case_committee : ∀ c x, P (CommitteeCall c x).
Hypothesis case_invalidate : ∀ cdd from expiry, P (InvalidateCddClaims cdd from expiry).
Hypothesis case_utility : ∀ x, Forall P (calls x) → P (UtilityCall x).
Hypothesis case_other : ∀ n, P (OtherCall n).

Fixpoint gov_call_ind (x : gov_call) : P x :=
  let one c (H : P c) : Forall P [c] := Forall_cons_2 P c [] H (Forall_nil_2 P) in
  let all := fix all (l : list gov_call) : Forall P l :=
    match l with
    | [] => Forall_nil_2 P
    | c :: l => Forall_cons_2 P c l (gov_call_ind c) (all l)
    end in
  match x with
  | GroupCall i x => case_group i x
  | CommitteeCall c x => case_committee c x
  | InvalidateCddClaims cdd from expiry => case_invalidate cdd from expiry
  | UtilityCall x => case_utility x
      match x with
      | Utility.Batch l | Utility.BatchAll l | Utility.ForceBatch l | Utility.BatchOld l
      | Utility.BatchAtomic l | Utility.BatchOptimistic l => all l
      | Utility.RelayTx _ _ u =>
          match u with mkUniqueCall _ c => one c (gov_call_ind c) end
      | Utility.DispatchAs _ c | Utility.WithWeight c _ | Utility.AsDerivative _ c =>
          one c (gov_call_ind c)
      end
  | OtherCall n => case_other n
  end.
End induction.

(** The names of calls, and the signatures of the calls that are relayed. *)
Class CallConfig := {
  call_names : gov_call → PalletName * DispatchableName;
  call_signed : N → UniqueCall gov_call → AccountId → bool;
}.
#[export] Instance runtime_call {CC : CallConfig} : RuntimeCall gov_call := {|
  get_call_metadata := call_names;
  is_batch_all x := match x with UtilityCall (Utility.BatchAll _) => true | _ => false end;
  verify_call := call_signed;
|}.

(** No call of it resets the membership of a group. *)
Fixpoint resets_nothing (x : gov_call) : bool :=
  match x with
  | GroupCall _ x => negb (resets x)
  | UtilityCall x => every resets_nothing x
  | _ => true
  end.

Section runtime.
Context {RT : Runtime} {FE : Fees} {UC : UtilityConfig} {CC : CallConfig}.
(** The hash of a proposal, the call it stands for, the calls of other pallets,
    and the comparison of two sorted lists of members. *)
Context (hash : Proposal → ProposalHash) (decode : Proposal → gov_call).
Context (other : Origin → N → M unit).
Context (diff : list IdentityId → list IdentityId → list IdentityId * list IdentityId).

(** [UnfilteredDispatchable] of the outer call. *)
Fixpoint dispatch_bypass_filter (GOV : Governance) (o : RuntimeOrigin) (x : gov_call) : M unit :=
  match x with
  | GroupCall i x => Group.dispatch i (caller o) x
  | CommitteeCall c x => Committee.dispatch c (caller o) x
  | InvalidateCddClaims cdd from expiry =>
      with_storage_transaction (Keys.base_invalidate_cdd_claims (caller o) cdd from expiry)
  | UtilityCall x => Utility.dispatch (dispatch_bypass_filter GOV) o x
  | OtherCall n => other (caller o) n
  end.

Fixpoint runtime_governance (depth : nat) : Governance := {|
  hash_of := hash;
  compute_members_diff_sorted := diff;
  dispatch_proposal c p :=
    match depth with
    | O => throw (EOther 1)
    | S depth =>
        dispatch_bypass_filter (runtime_governance depth) (mkRuntimeOrigin (Endorsed c) false) (decode p)
    end;
|}.

Definition gov_dispatch (depth : nat) (o : Origin) (x : gov_call) : M unit :=
  dispatch_bypass_filter (runtime_governance depth) (mkRuntimeOrigin o false) x.

(** Calls follow each other, in a block or in later ones; a call that fails
    leaves everything as it was. *)
Inductive gov_step : Type :=
  | CallStep (o : Origin) (x : gov_call)
  | BlockStep (number : BlockNumber) (time : Moment).

Definition perform (depth : nat) (w : World) (st : gov_step) : World :=
  match st with
  | CallStep o x => (gov_dispatch depth o x w).2
  | BlockStep number time => w <| block_number := number |> <| now := time |>
  end.
Definition run (depth : nat) (l : list gov_step) (w : World) : World :=
  foldl (perform depth) w l.

Definition step_resets_nothing (st : gov_step) : bool :=
  match st with CallStep _ x => resets_nothing x | BlockStep _ _ => true end.

(* ------------------------------------------------------------------ *)
(** ** What a batch keeps *)

(** Holds of a state before and after a call, and of what the utility pallet
    itself writes. *)
Definition lasts {A} (R : relation World) (m : M A) : Prop := ∀ w, R w (m w).2.

Definition unary (R : relation World) (n : nat) (A : Type) (m1 m2 : M A) : Prop :=
  (∀ w, m1 w = m2 w) ∧ lasts R m1.

Lemma aside_same_gov {A} (m : M A) w : aside m → same_gov w (m w).2.
Proof. intros Hm. destruct (Hm w) as (ev & ids & ns & mt & ->). done. Qed.

Lemma unary_logic (R : relation World) :
  PreOrder R → (∀ w w', same_gov w w' → R w w') → RunLogic (unary R).
Proof.
  intros HR Hs. split.
  - intros A m Hm. split; [done|]. intros w. by apply Hs, aside_same_gov.
  - intros A B n n' m1 m2 k1 k2 [Em Lm] Hk. split.
    + intros w. unfold mbind, SE_bind. rewrite <- Em. destruct (m1 w) as [[a|e] w1]; [apply Hk|done].
    + intros w. specialize (Lm w). unfold mbind, SE_bind. destruct (m1 w) as [[a|e] w1]; [|done].
      etrans; [exact Lm|]. apply (proj2 (Hk a)).
  - intros A n m1 m2 [Em Lm]. split; intros w.
    + unfold catch. by rewrite Em.
    + specialize (Lm w). unfold catch. by destruct (m1 w).
  - intros A n m1 m2 [Em Lm]. split; intros w.
    + unfold with_storage_transaction. by rewrite Em.
    + specialize (Lm w). unfold with_storage_transaction. destruct (m1 w) as [[a|e] w1]; [done|by apply Hs].
  - intros A n commit m1 m2 [Em Lm]. split; intros w.
    + unfold Utility.commit_if. by rewrite Em.
    + specialize (Lm w). unfold Utility.commit_if. destruct (m1 w) as [[a|e] w1]; simpl; [|by apply Hs].
      destruct (commit a); [done|by apply Hs].
  - intros A n m1 m2 m1' m2' E1 E2 [Em Lm]. split; intros w.
    + by rewrite <- E1, <- E2.
    + rewrite <- E1. apply Lm.
  - by intros A n n' m1 m2 _ H.
Qed.

Lemma utility_lasts GOV R o x :
  PreOrder R → (∀ w w', same_gov w w' → R w w') →
  (∀ c o', c ∈ calls x → passes_on o x o' → lasts R (dispatch_bypass_filter GOV o' c)) →
  lasts R (dispatch_bypass_filter GOV o (UtilityCall x)).
Proof.
  intros HR Hs Hx. pose proof (unary_logic R HR Hs) as HL.
  apply (utility_rel (unary R) (dispatch_bypass_filter GOV) (dispatch_bypass_filter GOV) (λ _, 0%nat) o x).
  intros c o' Hc Ho'. split; [done|by apply Hx].
Qed.

#[export] Instance tidy_preorder : PreOrder tidy.
Proof. split; [by intros w|]. intros w1 w2 w3 H12 H23 Hok Hc. destruct (H12 Hok Hc). by apply H23. Qed.

(** Other pallets do not write the stores of these two, and no proposal resets
    the membership of a committee. *)
Hypothesis other_same : ∀ o n w r w', other o n w = (r, w') → same_gov w w'.
Hypothesis decode_resets_nothing : ∀ p, resets_nothing (decode p) = true.

Lemma other_quiet o n : lasts quiet (other o n).
Proof.
  intros w. destruct (other o n w) as [r w'] eqn:H. by eapply same_gov_quiet, other_same.
Qed.

(** The origin of a committee neither votes nor proposes. *)
Lemma endorsed_committee_quiet depth c c' x w u w' :
  Committee.dispatch (GOV := runtime_governance depth) c' (Endorsed c) x w = (Ok u, w') → quiet w w'.
Proof.
  intros H. destruct (is_setting x) eqn:Hx; [by eapply setting_dispatch_quiet|].
  apply with_storage_transaction_Ok in H. destruct x as [| | |approve p|h index approve]; try done.
  unfold vote_or_propose in H. rewrite bind_gets in H.
  by destruct (voting _ _ _); [|destruct approve].
Qed.

Section depth.
Context (depth : nat).
Hypothesis nested_quiet : ∀ c p w r w',
  dispatch_proposal (Governance := runtime_governance depth) c p w = (r, w') → quiet w w'.
Notation dispatched := (dispatch_bypass_filter (runtime_governance depth)).

Lemma group_quiet o i x : resets x = false → lasts quiet (dispatched o (GroupCall i x)).
Proof.
  intros Hx w. simpl. destruct (Group.dispatch _ _ _ w) as [[u|e] w'] eqn:H; [|by eapply rolled_back_quiet].
  eapply group_dispatch_quiet; [exact nested_quiet|done|exact H].
Qed.

Lemma invalidate_quiet o cdd from expiry : lasts quiet (dispatched o (InvalidateCddClaims cdd from expiry)).
Proof.
  intros w. simpl. destruct (with_storage_transaction _ w) as [[u|e] w'] eqn:H; [|by eapply rolled_back_quiet].
  apply with_storage_transaction_Ok in H. unfold Keys.base_invalidate_cdd_claims in H.
  apply SE_bind_Ok in H as (? & ? & [_ ->]%check_Ok & H). rewrite bind_gets in H.
  apply SE_bind_Ok in H as (? & ? & [_ ->]%check_Ok & H). apply SE_bind_Ok in H as (? & w1 & H1 & H).
  etrans; [eapply base_disable_member_quiet; [exact nested_quiet|exact H1]|by eapply deposit_event_quiet].
Qed.

(** Under the origin of a committee: whatever the batch, nothing is left behind. *)
Lemma endorsed_quiet x : ∀ o c,
  caller o = Endorsed c → resets_nothing x = true → lasts quiet (dispatched o x).
Proof.
  induction x as [i x|c' x|cdd from expiry|x IH|n] using gov_call_ind; intros o c Ho Hr.
  - apply group_quiet. by apply negb_true_iff in Hr.
  - intros w. simpl. rewrite Ho. destruct (Committee.dispatch _ _ _ w) as [[u|e] w'] eqn:H;
      [by eapply endorsed_committee_quiet|by eapply rolled_back_quiet].
  - apply invalidate_quiet.
  - apply utility_lasts; [apply _|apply same_gov_quiet|]. intros y o' Hy Ho'.
    rewrite Forall_forall in IH. apply (IH y Hy o' c).
    + exact (passes_on_endorsed o x o' c Ho Ho').
    + exact (every_calls resets_nothing x y Hr Hy).
  - apply other_quiet.
Qed.

(** Under any origin: what was in order stays so. *)
Lemma dispatched_tidy x : ∀ o, resets_nothing x = true → lasts tidy (dispatched o x).
Proof.
  induction x as [i x|c' x|cdd from expiry|x IH|n] using gov_call_ind; intros o Hr.
  - intros w. apply quiet_tidy, group_quiet. by apply negb_true_iff in Hr.
  - intros w. simpl. destruct (Committee.dispatch _ _ _ w) as [[u|e] w'] eqn:H;
      [eapply committee_dispatch_tidy; [exact nested_quiet|exact H]|by eapply quiet_tidy, rolled_back_quiet].
  - intros w. apply quiet_tidy, invalidate_quiet.
  - apply utility_lasts; [apply _|intros; by apply quiet_tidy, same_gov_quiet|]. intros y o' Hy _.
    rewrite Forall_forall in IH. apply (IH y Hy). exact (every_calls resets_nothing x y Hr Hy).
  - intros w. apply quiet_tidy, other_quiet.
Qed.
End depth.

Lemma nested_dispatch_quiet depth c p w r w' :
  dispatch_proposal (Governance := runtime_governance depth) c p w = (r, w') → quiet w w'.
Proof.
  revert c p w r w'. induction depth as [|depth IH]; intros c p w r w'; simpl.
  { intros [= _ <-]. reflexivity. }
  intros H. pose proof (endorsed_quiet depth IH (decode p) (mkRuntimeOrigin (Endorsed c) false) c
    eq_refl (decode_resets_nothing p) w) as Hq. by rewrite H in Hq.
Qed.

Lemma block_tidy number time w : tidy w (w <| block_number := number |> <| now := time |>).
Proof. intros [H1 H2 H3] Hc. by split. Qed.

Lemma perform_tidy depth w st : step_resets_nothing st = true → tidy w (perform depth w st).
Proof.
  destruct st as [o x|number time]; intros Hr; [|apply block_tidy].
  by apply dispatched_tidy; [apply nested_dispatch_quiet|].
Qed.

Lemma run_tidy depth l w : forallb step_resets_nothing l = true → tidy w (run depth l w).
Proof.
  revert w. induction l as [|st l IH]; intros w Hl; [done|].
  simpl in Hl. apply andb_true_iff in Hl as [Hst Hl].
  simpl. etrans; [by apply perform_tidy|by apply IH].
Qed.
End runtime.
End RuntimeCalls.
