(* ===== verification/GovernanceFuel.v ===== *)
(** Proposals that set off other proposals come to an end: the call of a
    proposal is taken out of the storage before it runs, so the number of
    recorded calls bounds how deep they can nest.  With more fuel than that the
    model of the runtime computes the same whatever the fuel is. *)

From stdpp Require Import base numbers list gmap sets strings.
From S2P Require Import Prelude Subset Types ClaimTypes SettlementTypes Schedules State Identity.
From S2P Require Import Claims Keys KeysInv Checkpoint Sorting Committee Group Utility UtilityInv.
From S2P Require Import GovernanceInv RuntimeCalls.

Local Open Scope N_scope.

Module GovernanceFuel.
Import Sorting Members Committee GovernanceInv UtilityInv RuntimeCalls.

(** The calls the three committees have recorded. *)
Definition recorded (c : CommitteeInstance) (w : World) : nat := size (ProposalOf (committee c w)).
Definition pending (w : World) : nat :=
  (recorded PolymeshCommittee w + recorded TechnicalCommittee w + recorded UpgradeCommittee w)%nat.

(** The same result from every state with fewer than [k] recorded calls, and
    none recorded on the way. *)
Definition agree {A} (k : nat) (m1 m2 : M A) : Prop := ∀ w,
  (pending w < k)%nat → m1 w = m2 w ∧ (pending (m1 w).2 ≤ pending w)%nat.

Definition steady {A} (m : M A) : Prop := ∀ w, (pending (m w).2 ≤ pending w)%nat.

Lemma agree_steady {A} k (m : M A) : steady m → agree k m m.
Proof. intros H w _. by split. Qed.

Lemma agree_bind {A B} k (m1 m2 : M A) (f1 f2 : A → M B) :
  agree k m1 m2 → (∀ a, agree k (f1 a) (f2 a)) → agree k (m1 ≫= f1) (m2 ≫= f2).
Proof.
  intros Hm Hf w Hw. destruct (Hm w Hw) as [Heq Hle]. unfold mbind, SE_bind. rewrite <- Heq.
  destruct (m1 w) as [[a|e] w1]; simpl in *; [|done].
  destruct (Hf a w1) as [Heq' Hle']; [lia|]. split; [done|lia].
Qed.

Lemma agree_catch {A} k (m1 m2 : M A) : agree k m1 m2 → agree k (catch m1) (catch m2).
Proof.
  intros Hm w Hw. destruct (Hm w Hw) as [Heq Hle]. unfold catch. rewrite <- Heq.
  by destruct (m1 w).
Qed.

Lemma agree_for_each {X} k (l : list X) (f1 f2 : X → M unit) :
  (∀ x, agree k (f1 x) (f2 x)) → agree k (for_each l f1) (for_each l f2).
Proof.
  intros Hf. induction l as [|x l IH]; simpl; [by apply agree_steady; intros w|]. by apply agree_bind.
Qed.

Lemma agree_transaction {A} k (m1 m2 : M A) :
  agree k m1 m2 → agree k (with_storage_transaction m1) (with_storage_transaction m2).
Proof.
  intros Hm w Hw. destruct (Hm w Hw) as [Heq Hle]. unfold with_storage_transaction. rewrite <- Heq.
  by destruct (m1 w) as [[a|e] w1].
Qed.

(** ** Steps that record no call *)

Lemma steady_ret {A} (a : A) : steady (mret a).
Proof. intros w. apply Nat.le_refl. Qed.
Lemma steady_gets {A} (f : World → A) : steady (gets f).
Proof. intros w. apply Nat.le_refl. Qed.
Lemma steady_check {A} (f : World → result DispatchError A) : steady (check f).
Proof. intros w. apply Nat.le_refl. Qed.
Lemma steady_throw {A} e : steady (throw e : M A).
Proof. intros w. apply Nat.le_refl. Qed.
Lemma steady_event e : steady (deposit_event e).
Proof. intros w. apply Nat.le_refl. Qed.
Lemma steady_records f : steady (on_records f).
Proof. intros w. apply Nat.le_refl. Qed.
Lemma steady_group i f : steady (Group.on_group i f).
Proof. intros w. apply Nat.le_refl. Qed.

Lemma recorded_other c c' f w :
  c' ≠ c → recorded c' (on_committee c f w).2 = recorded c' w.
Proof.
  intros Hne. unfold recorded.
  destruct (on_committee c f w) as [r w'] eqn:H. assert (r = Ok tt) as -> by (by injection H).
  apply on_committee_Ok in H as [_ [Ho _]]. simpl. by rewrite Ho.
Qed.

Lemma recorded_self c f w :
  recorded c (on_committee c f w).2 = size (ProposalOf (f (committee c w))).
Proof.
  unfold recorded. destruct (on_committee c f w) as [r w'] eqn:H.
  assert (r = Ok tt) as -> by (by injection H). apply on_committee_Ok in H as [E _]. simpl. by rewrite E.
Qed.

Lemma pending_on_committee c f w :
  (pending (on_committee c f w).2 + recorded c w =
   pending w + size (ProposalOf (f (committee c w))))%nat.
Proof.
  unfold pending. destruct c; rewrite recorded_self, !recorded_other by done; lia.
Qed.

Lemma steady_committee c f :
  (∀ s, (size (ProposalOf (f s)) ≤ size (ProposalOf s))%nat) → steady (on_committee c f).
Proof.
  intros Hf w. pose proof (pending_on_committee c f w). specialize (Hf (committee c w)).
  unfold recorded in *. lia.
Qed.

Lemma size_delete_le {K V} `{Countable K} (m : gmap K V) i : (size (delete i m) ≤ size m)%nat.
Proof. rewrite map_size_delete. destruct (m !! i); simpl; lia. Qed.

Create HintDb fuel discriminated.
#[export] Hint Resolve steady_ret steady_gets steady_check steady_throw steady_event steady_records
  steady_group : fuel.

(** Walks through two runs of the same function. *)
Ltac side_by_side :=
  repeat match goal with
  | |- agree _ (_ ≫= _) (_ ≫= _) => apply agree_bind
  | |- agree _ (catch _) (catch _) => apply agree_catch
  | |- agree _ (for_each _ _) (for_each _ _) => apply agree_for_each
  | |- agree _ (on_committee _ _) _ =>
      apply agree_steady, steady_committee; intros ?; simpl; first [lia | apply size_delete_le]
  | |- agree _ (let '_ := ?x in _) _ => destruct x
  | |- agree _ (match ?x with _ => _ end) _ => destruct x
  | |- ∀ _, agree _ _ _ => intros ?
  | |- agree _ _ _ => solve [apply agree_steady; auto with fuel nocore | auto with nocore]
  end.

(** The same result from every state in which [n] more calls could be recorded
    without reaching [k], and no more than [n] recorded on the way. *)
Definition within (k n : nat) (A : Type) (m1 m2 : M A) : Prop := ∀ w,
  (pending w + n < k)%nat → m1 w = m2 w ∧ (pending (m1 w).2 ≤ pending w + n)%nat.
Arguments within k n {A}.

Lemma agree_within {A} k n (m1 m2 : M A) : agree k m1 m2 → within k n m1 m2.
Proof. intros H w Hw. destruct (H w) as [E L]; [lia|]. split; [done|lia]. Qed.
Lemma agree_less {A} k (m1 m2 : M A) : agree (S k) m1 m2 → agree k m1 m2.
Proof. intros H w Hw. apply H. lia. Qed.

Lemma pending_same w w' : committees (rest w') = committees (rest w) → pending w' = pending w.
Proof. intros E. unfold pending, recorded, committee. by rewrite E. Qed.

#[export] Instance within_logic k : RunLogic (@within k).
Proof.
  split.
  - intros A m Hm w Hw. split; [done|]. destruct (Hm w) as (ev & ids & ns & mt & ->).
    rewrite (pending_same w _) by done. lia.
  - intros A B n n' m1 m2 k1 k2 Hm Hk w Hw. destruct (Hm w) as [E L]; [lia|].
    unfold mbind, SE_bind. rewrite <- E. destruct (m1 w) as [[a|e] w1]; simpl in *; [|by split; [|lia]].
    destruct (Hk a w1) as [E' L']; [lia|]. split; [done|lia].
  - intros A n m1 m2 Hm w Hw. destruct (Hm w Hw) as [E L]. unfold catch. rewrite <- E. by destruct (m1 w).
  - intros A n m1 m2 Hm w Hw. destruct (Hm w Hw) as [E L]. unfold with_storage_transaction. rewrite <- E.
    destruct (m1 w) as [[a|e] w1]; simpl in *; [done|]. split; [done|].
    rewrite (pending_same w _) by done. lia.
  - intros A n commit m1 m2 Hm w Hw. destruct (Hm w Hw) as [E L]. unfold Utility.commit_if. rewrite <- E.
    destruct (m1 w) as [[a|e] w1]; simpl in *; [destruct (commit a); [done|]|];
      (split; [done|rewrite (pending_same w _) by done; lia]).
  - intros A n m1 m2 m1' m2' E1 E2 Hm w Hw. rewrite <- E1, <- E2. by apply Hm.
  - intros A n n' m1 m2 Hle Hm w Hw. destruct (Hm w) as [E L]; [lia|]. split; [done|lia].
Qed.

Section fuel.
Context {RT : Runtime} {FE : Fees}.
(** Two ways of dispatching proposals that agree below [k]. *)
Context (G1 G2 : Governance) (k : nat).
Hypothesis same_hash : ∀ p, hash_of (Governance := G1) p = hash_of (Governance := G2) p.
Hypothesis same_diff : ∀ l l', compute_members_diff_sorted (Governance := G1) l l' =
                               compute_members_diff_sorted (Governance := G2) l l'.
Hypothesis same_dispatch : ∀ c p,
  agree k (dispatch_proposal (Governance := G1) c p) (dispatch_proposal (Governance := G2) c p).

Lemma execute_agree c did p h : agree k (execute (GOV := G1) c did p h) (execute (GOV := G2) c did p h).
Proof. unfold execute. side_by_side. Qed.

Lemma clear_proposal_agree n c h : agree n (clear_proposal c h) (clear_proposal c h).
Proof. unfold clear_proposal. side_by_side. Qed.

(** The proposal that is run is no longer recorded: one step less is left. *)
Lemma finalize_proposal_agree c approved total yes no h did :
  agree (S k) (finalize_proposal (GOV := G1) c approved total yes no h did)
              (finalize_proposal (GOV := G2) c approved total yes no h did).
Proof.
  unfold finalize_proposal. apply agree_bind; [by apply agree_steady, steady_event|]. intros _.
  intros w Hw. rewrite !bind_gets.
  set (f := λ s, s <| ProposalOf ::= delete h |>).
  pose proof (pending_on_committee c f w) as Hp. pose proof (clear_proposal_agree (S k) c h) as Hc.
  destruct (on_committee c f w) as [r w1] eqn:H1. assert (r = Ok tt) as -> by (by injection H1).
  rewrite !(bind_run _ _ _ _ _ H1). simpl in Hp. unfold recorded in Hp.
  destruct (ProposalOf (committee c w) !! h) as [p|] eqn:Hh.
  - rewrite map_size_delete_Some in Hp by done.
    assert (size (ProposalOf (committee c w)) ≠ 0%nat) as Hn.
    { intros Hz%map_size_empty_iff. by rewrite Hz in Hh. }
    destruct approved.
    + assert (agree k (execute (GOV := G1) c did p h ;; clear_proposal c h)
                      (execute (GOV := G2) c did p h ;; clear_proposal c h)) as Ha.
      { apply agree_bind; [apply execute_agree|]. intros _. apply clear_proposal_agree. }
      destruct (Ha w1) as [Heq Hle]; [lia|]. split; [exact Heq|lia].
    + destruct (Hc w1) as [_ Hle]; [lia|]. split; [done|]. etrans; [exact Hle|lia].
  - rewrite delete_id in Hp by done. destruct (Hc w1) as [_ Hle]; [lia|].
    destruct approved; (split; [done|]); (etrans; [exact Hle|lia]).
Qed.

Lemma execute_if_passed_agree c h :
  agree (S k) (execute_if_passed (GOV := G1) c h) (execute_if_passed (GOV := G2) c h).
Proof.
  pose proof finalize_proposal_agree as Hf. pose proof clear_proposal_agree as Hc.
  unfold execute_if_passed, ensure_not_expired. side_by_side.
Qed.

Lemma any_vote_removed_agree n c l h : agree n (any_vote_removed c l h) (any_vote_removed c l h).
Proof. induction l as [|x l IH]; simpl; unfold remove_vote_from; side_by_side. Qed.

Lemma systematic_agree n l iss :
  agree n (Claim.add_systematic_cdd_claims l iss) (Claim.add_systematic_cdd_claims l iss) ∧
  agree n (Claim.revoke_systematic_cdd_claims l iss) (Claim.revoke_systematic_cdd_claims l iss).
Proof.
  unfold Claim.add_systematic_cdd_claims, Claim.revoke_systematic_cdd_claims, Claim.base_add_claim,
    Claim.unverified_add_claim_with_scope, Claim.base_revoke_claim. split; side_by_side.
Qed.

Lemma change_members_sorted_agree c incoming outgoing new :
  agree (S k) (change_members_sorted (GOV := G1) c incoming outgoing new)
              (change_members_sorted (GOV := G2) c incoming outgoing new).
Proof.
  pose proof execute_if_passed_agree as He. pose proof any_vote_removed_agree as Ha.
  destruct (systematic_agree (S k) incoming Claim.GC_DID) as [Hi _].
  destruct (systematic_agree (S k) outgoing Claim.GC_DID) as [_ Ho].
  unfold change_members_sorted, retract_and_recount. side_by_side.
Qed.

Lemma membership_changed_agree i incoming outgoing new :
  agree (S k) (Group.membership_changed (GOV := G1) i incoming outgoing new)
              (Group.membership_changed (GOV := G2) i incoming outgoing new).
Proof.
  destruct i; [|apply change_members_sorted_agree]. simpl. unfold Claim.change_members_sorted.
  destruct (systematic_agree (S k) incoming Claim.CDD_PROVIDERS_DID) as [Hi _].
  destruct (systematic_agree (S k) outgoing Claim.CDD_PROVIDERS_DID) as [_ Ho]. side_by_side.
Qed.

Lemma set_members_sorted_agree i new old :
  agree (S k) (Group.set_members_sorted (GOV := G1) i new old)
              (Group.set_members_sorted (GOV := G2) i new old).
Proof.
  unfold Group.set_members_sorted. rewrite same_diff.
  destruct (compute_members_diff_sorted new old). apply membership_changed_agree.
Qed.

Lemma group_dispatch_agree i o x :
  agree (S k) (Group.dispatch (GOV := G1) i o x) (Group.dispatch (GOV := G2) i o x).
Proof.
  pose proof membership_changed_agree as Hm. pose proof set_members_sorted_agree as Hs.
  apply agree_transaction.
  destruct x;
    unfold Group.set_active_members_limit, Group.disable_member, Group.add_member,
      Group.remove_member, Group.swap_member, Group.reset_members, Group.abdicate_membership,
      Group.base_disable_member, Group.base_add_member, Group.base_remove_member, Group.or_else,
      Group.base_remove_active_member, Group.base_remove_inactive_member; side_by_side.
Qed.

Lemma vote_agree c o h index approve :
  agree (S k) (vote (GOV := G1) c o h index approve) (vote (GOV := G2) c o h index approve).
Proof.
  pose proof execute_if_passed_agree as He. unfold vote, ensure_not_expired, clear_proposal. side_by_side.
Qed.

(** One call is recorded at most. *)
Lemma record_within c h p :
  within k 1 (on_committee c (λ s, s <| ProposalOf ::= <[h := p]> |>))
             (on_committee c (λ s, s <| ProposalOf ::= <[h := p]> |>)).
Proof.
  intros w _. split; [done|]. set (f := λ s, s <| ProposalOf ::= <[h := p]> |>).
  pose proof (pending_on_committee c f w) as Hp. unfold recorded in Hp.
  assert (size (ProposalOf (f (committee c w))) ≤ S (size (ProposalOf (committee c w))))%nat.
  { unfold f. simpl. rewrite map_size_insert. destruct (_ !! h); simpl; lia. }
  lia.
Qed.

Lemma propose_within c o p : within k 1 (propose (GOV := G1) c o p) (propose (GOV := G2) c o p).
Proof.
  pose proof (within_logic k) as HL. pose proof (execute_agree c) as He.
  unfold propose. rewrite !same_hash.
  do 3 (apply (rel_bind 0); [apply agree_within; side_by_side|intros ?]).
  apply (rel_bind 0); [apply agree_within; side_by_side|intros total].
  destruct (bool_decide _); [by apply agree_within|].
  do 3 (apply (rel_bind 0); [apply agree_within; side_by_side|intros ?]).
  apply (rel_bind 1 0); [apply record_within|intros ?]. apply agree_within. side_by_side.
Qed.

Lemma propose_same c o p w :
  (pending w < k)%nat → propose (GOV := G1) c o p w = propose (GOV := G2) c o p w.
Proof.
  intros Hw. unfold propose. rewrite !same_hash.
  destruct (check (ensure_is_member c o) w) as [[did|e] w1] eqn:H1.
  2: { unfold mbind, SE_bind. by rewrite H1. }
  rewrite !(bind_run _ _ _ _ _ H1). apply check_Ok in H1 as [_ ->].
  unfold mbind, SE_bind, check, gets. destruct (ensure _ _); [|done]. destruct (ensure _ _); [|done].
  case_bool_decide; [|done]. by apply execute_agree.
Qed.

Lemma committee_dispatch_same c o x w :
  (pending w < k)%nat →
  Committee.dispatch (GOV := G1) c o x w = Committee.dispatch (GOV := G2) c o x w.
Proof.
  intros Hw. unfold Committee.dispatch, with_storage_transaction.
  destruct x as [| | |approve p|h index approve]; try done.
  - unfold vote_or_propose. rewrite !bind_gets, same_hash. destruct (voting _ _ _) as [v|].
    + by rewrite (proj1 (vote_agree c o (hash_of p) (votes_index v) approve w ltac:(lia))).
    + destruct approve; [|done]. by rewrite propose_same.
  - by rewrite (proj1 (vote_agree c o h index approve w ltac:(lia))).
Qed.

(** Under the origin of a committee the pallet only changes settings. *)
Lemma endorsed_agree n c c' x :
  agree n (Committee.dispatch (GOV := G1) c' (Endorsed c) x)
          (Committee.dispatch (GOV := G2) c' (Endorsed c) x).
Proof.
  apply agree_transaction. destruct x as [| | |approve p|h index approve].
  - unfold set_vote_threshold. side_by_side.
  - unfold set_release_coordinator. side_by_side.
  - unfold set_expires_after. side_by_side.
  - intros w _. unfold vote_or_propose. rewrite !bind_gets, same_hash.
    by destruct (voting _ _ _); [|destruct approve].
  - by intros w _.
Qed.

(** How many calls a call may record. *)
Definition records_calls (x : Committee.call) : nat :=
  match x with VoteOrPropose _ _ => 1 | _ => 0 end.

Lemma committee_within c o x :
  within k (records_calls x) (Committee.dispatch (GOV := G1) c o x) (Committee.dispatch (GOV := G2) c o x).
Proof.
  pose proof (within_logic k) as HL. apply rel_transaction. destruct x as [| | |approve p|h index approve].
  - apply agree_within. unfold set_vote_threshold. side_by_side.
  - apply agree_within. unfold set_release_coordinator. side_by_side.
  - apply agree_within. unfold set_expires_after. side_by_side.
  - unfold vote_or_propose. rewrite same_hash. apply (rel_bind 0); [apply agree_within; side_by_side|].
    intros [v|]; [apply agree_within, agree_less, vote_agree|].
    destruct approve; [|apply agree_within; side_by_side].
    apply propose_within.
  - apply agree_within, agree_less, vote_agree.
Qed.
End fuel.

(** How many calls a batch may record, and what that adds to the bound. *)
Fixpoint records (x : gov_call) : nat :=
  match x with
  | CommitteeCall _ x => records_calls x
  | UtilityCall x => altogether records x
  | _ => 0%nat
  end.
Definition newly (x : gov_call) : nat :=
  match x with UtilityCall _ => records x | _ => 0%nat end.

Section runtime.
Context {RT : Runtime} {FE : Fees} {UC : UtilityConfig} {CC : CallConfig}.
Context (hash : Proposal → ProposalHash) (decode : Proposal → gov_call).
Context (other : Origin → N → M unit).
Context (diff : list IdentityId → list IdentityId → list IdentityId * list IdentityId).
(** Calls of other pallets record no proposals. *)
Hypothesis other_steady : ∀ o n, steady (other o n).

Notation governance := (runtime_governance hash decode other diff).
Notation dispatched := (dispatch_bypass_filter other).

Section two.
(** Two ways of dispatching proposals that agree below [k]. *)
Context (G1 G2 : Governance) (k : nat).
Hypothesis same_hash : ∀ p, hash_of (Governance := G1) p = hash_of (Governance := G2) p.
Hypothesis same_diff : ∀ l l', compute_members_diff_sorted (Governance := G1) l l' =
                               compute_members_diff_sorted (Governance := G2) l l'.
Hypothesis same_dispatch : ∀ c p,
  agree k (dispatch_proposal (Governance := G1) c p) (dispatch_proposal (Governance := G2) c p).

Lemma invalidate_agree o cdd from expiry :
  agree (S k) (dispatched G1 o (InvalidateCddClaims cdd from expiry))
              (dispatched G2 o (InvalidateCddClaims cdd from expiry)).
Proof.
  pose proof (membership_changed_agree G1 G2 k same_dispatch) as Hm. simpl. apply agree_transaction.
  unfold Keys.base_invalidate_cdd_claims. simpl.
  unfold Group.base_disable_member, Group.base_remove_active_member. side_by_side.
Qed.

(** A committee's batch records nothing. *)
Lemma endorsed_within x : ∀ o c,
  caller o = Endorsed c → within (S k) 0 (dispatched G1 o x) (dispatched G2 o x).
Proof.
  induction x as [i x|c' x|cdd from expiry|x IH|n] using gov_call_ind; intros o c Ho.
  - by apply agree_within, group_dispatch_agree.
  - simpl. rewrite Ho. by apply agree_within, endorsed_agree.
  - apply agree_within, invalidate_agree.
  - rewrite Forall_forall in IH.
    pose proof (utility_rel (@within (S k)) (dispatched G1) (dispatched G2) (λ _, 0%nat) o x) as Hu.
    rewrite (total_zero (calls x)) in Hu. apply Hu. intros y o' Hy Ho'.
    apply (IH y Hy o' c). exact (passes_on_endorsed o x o' c Ho Ho').
  - apply agree_within, agree_steady, other_steady.
Qed.

Lemma dispatched_within x : ∀ o, within k (records x) (dispatched G1 o x) (dispatched G2 o x).
Proof.
  induction x as [i x|c' x|cdd from expiry|x IH|n] using gov_call_ind; intros o.
  - by apply agree_within, agree_less, group_dispatch_agree.
  - by apply committee_within.
  - apply agree_within, agree_less, invalidate_agree.
  - rewrite Forall_forall in IH. simpl. rewrite altogether_calls.
    apply (utility_rel (@within k) (dispatched G1) (dispatched G2) records o x).
    intros y o' Hy _. by apply IH.
  - apply agree_within, agree_steady, other_steady.
Qed.

(** More fuel than recorded calls is enough. *)
Lemma dispatched_same o x w :
  (pending w + newly x < k)%nat → dispatched G1 o x w = dispatched G2 o x w.
Proof.
  intros Hw. destruct x as [i x|c x|cdd from expiry|x|n]; simpl in Hw.
  - apply (group_dispatch_agree G1 G2 k same_diff same_dispatch). lia.
  - simpl. apply (committee_dispatch_same G1 G2 k same_hash same_dispatch). lia.
  - apply invalidate_agree. lia.
  - by apply dispatched_within.
  - done.
Qed.
End two.

Lemma dispatch_agree n n' c p :
  (n ≤ n')%nat →
  agree n (dispatch_proposal (Governance := governance n) c p)
          (dispatch_proposal (Governance := governance n') c p).
Proof.
  revert n' c p. induction n as [|n IH]; intros [|n'] c p Hle; [intros w ?; lia..|lia|].
  intros w Hw.
  destruct (endorsed_within (governance n) (governance n') n) with (x := decode p)
    (o := mkRuntimeOrigin (Endorsed c) false) (c := c) (w := w) as [E L];
    [by destruct n, n'|by destruct n, n'|intros; apply IH; lia|done|lia|].
  split; [exact E|]. simpl in *. lia.
Qed.

Lemma gov_dispatch_same n n' o x w :
  (pending w + newly x < n)%nat → (n ≤ n')%nat →
  gov_dispatch hash decode other diff n o x w = gov_dispatch hash decode other diff n' o x w.
Proof.
  intros Hw Hle. apply (dispatched_same (governance n) (governance n') n);
    [by destruct n, n'|by destruct n, n'|intros; by apply dispatch_agree|done].
Qed.
End runtime.
End GovernanceFuel.
