(* ===== verification/Locks.v ===== *)
(** Locks on POLYX (src/pallets/balances/src/lib.rs, [LockableCurrencyExt]): an
    account has a list of locks, each under the name of the pallet that needs it;
    the largest one is the amount that has to stay.  Of the balances pallet only
    the locks are modelled, without the reference counters of the system pallet. *)

From stdpp Require Import base numbers list gmap.
From S2P Require Import Prelude Types State Sorting.

Local Open Scope N_scope.

(** [LockIdentifier]: eight bytes. *)
Notation LockIdentifier := (list N) (only parsing).

(** [Reasons] and [BalanceLock]. *)
Inductive Reasons : Type := ReasonFee | ReasonMisc | ReasonAll.
#[global] Instance Reasons_eq_dec : EqDecision Reasons.
Proof. solve_decision. Defined.

Record BalanceLock : Type := mkBalanceLock {
  lock_id : LockIdentifier;
  lock_amount : Balance;
  lock_reasons : Reasons;
}.
#[global] Instance eta_BalanceLock : Eta BalanceLock := λ r,
  mkBalanceLock (lock_id r) (lock_amount r) (lock_reasons r).

(** The storage item, and what the account entries say is frozen. *)
Record BalancesStore : Type := mkBalancesStore {
  Locks : gmap AccountId (list BalanceLock);
  misc_frozen : gmap AccountId Balance;
  fee_frozen : gmap AccountId Balance;
}.
#[global] Instance eta_BalancesStore : Eta BalancesStore := λ r,
  mkBalancesStore (Locks r) (misc_frozen r) (fee_frozen r).

Module Locks.
Import Sorting.

(** [BitOr for Reasons]. *)
Definition reasons_or (a b : Reasons) : Reasons := if decide (a = b) then a else ReasonAll.

(** The largest lock that counts for one of the two kinds of withdrawals. *)
Definition frozen_by (kind : Reasons) (locks : list BalanceLock) : Balance :=
  foldl (λ m l, if decide (lock_reasons l = ReasonAll ∨ lock_reasons l = kind)
                then N.max m (lock_amount l) else m) 0 locks.

Definition update_locks (who : AccountId) (locks : list BalanceLock) (s : BalancesStore)
    : BalancesStore :=
  s <| misc_frozen ::= <[who := frozen_by ReasonMisc locks]> |>
    <| fee_frozen ::= <[who := frozen_by ReasonFee locks]> |>
    <| Locks ::= match locks with [] => delete who | _ => <[who := locks]> end |>.

Definition reduce_lock (id : LockIdentifier) (who : AccountId) (amount : Balance) (s : BalancesStore)
    : result DispatchError BalancesStore :=
  if decide (amount = 0) then Ok s
  else
    let locks := getd [] (Locks s) who in
    match list_find (λ l, lock_id l = id) locks with
    | Some (p, l) =>
        n ← ok_or (checked_sub (lock_amount l) amount) (EBalances BalancesInsufficientBalance) ;
        let locks := if decide (n = 0) then swap_remove p locks
                     else <[p := l <| lock_amount := n |>]> locks in
        Ok (update_locks who locks s)
    | None => Err (EBalances BalancesInsufficientBalance)
    end.

(** [check_sum] may refuse the new total of the lock; the callers never give an
    empty set of reasons. *)
Definition increase_lock (id : LockIdentifier) (who : AccountId) (amount : Balance) (reasons : Reasons)
    (check_sum : Balance → result DispatchError unit) (s : BalancesStore)
    : result DispatchError BalancesStore :=
  if decide (amount = 0) then Ok s
  else
    let locks := getd [] (Locks s) who in
    match list_find (λ l, lock_id l = id) locks with
    | Some (p, l) =>
        n ← ok_or (checked_add u128_max (lock_amount l) amount) (EBalances BalancesOverflow) ;
        check_sum n ;;
        Ok (update_locks who
              (<[p := mkBalanceLock (lock_id l) n (reasons_or (lock_reasons l) reasons)]> locks) s)
    | None =>
        check_sum amount ;;
        Ok (update_locks who (locks ++ [mkBalanceLock id amount reasons]) s)
    end.

(* ------------------------------------------------------------------ *)
(** ** One lock for each name *)

(** What an account has locked under a name. *)
Definition amount_of (id : LockIdentifier) (l : BalanceLock) : Balance :=
  if decide (lock_id l = id) then lock_amount l else 0.
Definition named (id : LockIdentifier) (locks : list BalanceLock) : Balance :=
  foldr (λ l acc, amount_of id l + acc) 0 locks.
Definition locked_under (id : LockIdentifier) (who : AccountId) (s : BalancesStore) : Balance :=
  named id (getd [] (Locks s) who).

(** The names of the locks of an account are different. *)
Definition locks_ok (s : BalancesStore) : Prop :=
  ∀ who, NoDup (lock_id <$> getd [] (Locks s) who).

Lemma named_app id l1 l2 : named id (l1 ++ l2) = named id l1 + named id l2.
Proof. induction l1 as [|l l1 IH]; simpl; [done|]. rewrite IH. lia. Qed.

#[local] Instance named_perm id : Proper ((≡ₚ) ==> (=)) (named id).
Proof. induction 1; simpl; lia. Qed.

Lemma named_insert id locks p l l' :
  locks !! p = Some l → named id (<[p := l']> locks) + amount_of id l = named id locks + amount_of id l'.
Proof.
  revert p. induction locks as [|m locks IH]; intros [|p] H; simpl in *; [done|done|by simplify_eq; lia|].
  specialize (IH p H). lia.
Qed.

Lemma named_absent id locks : id ∉ lock_id <$> locks → named id locks = 0.
Proof.
  induction locks as [|l locks IH]; simpl; [done|]. rewrite not_elem_of_cons. intros [Hne Hin].
  rewrite IH by done. unfold amount_of. by rewrite decide_False.
Qed.

Lemma named_unique id locks p l :
  NoDup (lock_id <$> locks) → locks !! p = Some l → lock_id l = id → named id locks = lock_amount l.
Proof.
  intros Hnd Hp Hid. rewrite <- (take_drop_middle locks p l Hp) in Hnd |- *.
  rewrite fmap_app, fmap_cons in Hnd. apply NoDup_app in Hnd as (_ & Hd & [Hn _]%NoDup_cons).
  rewrite named_app. simpl. unfold amount_of at 1. rewrite decide_True by done.
  subst id. rewrite !named_absent; [lia|done|]. intros Hin. apply (Hd (lock_id l)); [done|]. left.
Qed.

Lemma update_locks_get who locks s who' :
  getd [] (Locks (update_locks who locks s)) who' =
  if decide (who' = who) then locks else getd [] (Locks s) who'.
Proof.
  unfold update_locks. simpl. case_decide as E; [subst who'|]; unfold getd.
  - destruct locks; [by rewrite lookup_delete_eq|by rewrite lookup_insert_eq].
  - destruct locks; [by rewrite lookup_delete_ne|by rewrite lookup_insert_ne].
Qed.

Lemma update_locks_ok who locks s :
  locks_ok s → NoDup (lock_id <$> locks) → locks_ok (update_locks who locks s).
Proof. intros Hok Hnd who'. rewrite update_locks_get. by case_decide. Qed.

(** One lock of one account changes. *)
Definition changes (id : LockIdentifier) (who : AccountId) (s s' : BalancesStore) (old new : Balance) : Prop :=
  ∀ id' who', locked_under id' who' s' + (if decide (id' = id ∧ who' = who) then old else 0) =
              locked_under id' who' s + (if decide (id' = id ∧ who' = who) then new else 0).

Lemma update_locks_changes id who locks s old new :
  (∀ id', named id' locks + (if decide (id' = id) then old else 0) =
          named id' (getd [] (Locks s) who) + (if decide (id' = id) then new else 0)) →
  changes id who s (update_locks who locks s) old new.
Proof.
  intros H id' who'. unfold locked_under. rewrite update_locks_get.
  destruct (decide (who' = who)) as [->|Hne].
  - specialize (H id'). repeat case_decide; naive_solver lia.
  - rewrite !decide_False by naive_solver. done.
Qed.

Lemma increase_lock_Ok id who amount reasons check_sum s s' :
  locks_ok s → increase_lock id who amount reasons check_sum s = Ok s' →
  locks_ok s' ∧ changes id who s s' 0 amount ∧
  (amount ≠ 0 → check_sum (locked_under id who s + amount) = Ok tt).
Proof.
  intros Hok H. unfold increase_lock in H. case_decide as Ha.
  { injection H as <-. subst. split_and!; [done| |done]. intros id' who'. lia. }
  destruct (list_find _ _) as [[p l]|] eqn:Hf; ok_inv.
  - apply list_find_Some in Hf as (Hp & Hid & _).
    match goal with H : checked_add _ _ _ = Some _ |- _ => apply checked_add_Some in H as [-> _] end.
    set (l' := mkBalanceLock _ _ _). split_and!.
    + apply update_locks_ok; [done|]. rewrite list_fmap_insert, list_insert_id; [apply Hok|].
      rewrite list_lookup_fmap, Hp. done.
    + apply update_locks_changes. intros id'. pose proof (named_insert id' _ p l l' Hp) as Hn.
      unfold amount_of in Hn. simpl in Hn. repeat case_decide; subst; try done; lia.
    + intros _. unfold locked_under. rewrite (named_unique id _ p l); [done|apply Hok|done|done].
  - apply list_find_None in Hf. assert (id ∉ lock_id <$> getd [] (Locks s) who) as Hin.
    { intros (l & -> & Hl)%list_elem_of_fmap. rewrite Forall_forall in Hf. by eapply Hf. }
    split_and!.
    + apply update_locks_ok; [done|]. rewrite fmap_app. apply NoDup_app. split_and!; [apply Hok| |].
      * intros x Hx [->|Hx']%elem_of_cons; [done|by apply elem_of_nil in Hx'].
      * apply NoDup_singleton.
    + apply update_locks_changes. intros id'. rewrite named_app. simpl. unfold amount_of. simpl.
      repeat case_decide; subst; try done; lia.
    + intros _. unfold locked_under. by rewrite named_absent.
Qed.

Lemma reduce_lock_Ok id who amount s s' :
  locks_ok s → reduce_lock id who amount s = Ok s' →
  locks_ok s' ∧ changes id who s s' amount 0.
Proof.
  intros Hok H. unfold reduce_lock in H. case_decide as Ha.
  { injection H as <-. subst. split; [done|]. intros id' who'. lia. }
  destruct (list_find _ _) as [[p l]|] eqn:Hf; ok_inv. apply list_find_Some in Hf as (Hp & Hid & _).
  match goal with H : checked_sub _ _ = Some _ |- _ => apply checked_sub_Some in H as [-> Hle] end.
  case_decide as Hz.
  - pose proof (swap_remove_perm _ p l Hp) as Hperm. split.
    + apply update_locks_ok; [done|]. specialize (Hok who). rewrite Hperm in Hok.
      by apply NoDup_cons in Hok as [_ ?].
    + apply update_locks_changes. intros id'. rewrite Hperm at 2. simpl. unfold amount_of.
      repeat case_decide; subst; try done; lia.
  - split.
    + apply update_locks_ok; [done|]. rewrite list_fmap_insert, list_insert_id; [apply Hok|].
      rewrite list_lookup_fmap, Hp. done.
    + apply update_locks_changes. intros id'.
      pose proof (named_insert id' _ p l (l <| lock_amount := lock_amount l - amount |>) Hp) as Hn.
      unfold amount_of in Hn. simpl in Hn. repeat case_decide; subst; try done; lia.
Qed.

(** What is locked can be released. *)
Lemma reduce_lock_run id who amount s :
  locks_ok s → amount ≤ locked_under id who s → ∃ s', reduce_lock id who amount s = Ok s'.
Proof.
  intros Hok Hle. unfold reduce_lock. case_decide as Ha; [by eexists|].
  destruct (list_find _ _) as [[p l]|] eqn:Hf.
  - apply list_find_Some in Hf as (Hp & Hid & _). unfold locked_under in Hle.
    rewrite (named_unique id _ p l) in Hle; [|apply Hok|done|done]. unfold checked_sub.
    rewrite decide_True by done. simpl. by eexists.
  - apply list_find_None in Hf. unfold locked_under in Hle. rewrite named_absent in Hle; [lia|].
    intros (l & -> & Hl)%list_elem_of_fmap. rewrite Forall_forall in Hf. by eapply Hf.
Qed.
End Locks.
