(* ===== verification/PipsQueue.v ===== *)
(** The priority queues of the improvement proposals (src/pallets/pips/src/lib.rs):
    the order of the proposals, the binary search by it, and what inserting and
    removing do to a sorted queue. *)

From stdpp Require Import base numbers list sorting.
From S2P Require Import Prelude Types PipsTypes Sorting.

Local Open Scope N_scope.

Module PipsQueue.
Import Sorting.

(** [Ordering::then]. *)
Definition then_cmp (c d : comparison) : comparison := match c with Eq => d | _ => c end.
Definition bool_cmp (a b : bool) : comparison :=
  match a, b with
  | false, true => Lt
  | true, false => Gt
  | _, _ => Eq
  end.

(** The highest priority comes last. *)
Definition compare_spip (l r : SnapshottedPip) : comparison :=
  let '(l_dir, l_stake) := spip_weight l in
  let '(r_dir, r_stake) := spip_weight r in
  then_cmp (then_cmp (bool_cmp l_dir r_dir)
                     (if l_dir then l_stake ?= r_stake else r_stake ?= l_stake))
           (spip_id r ?= spip_id l).

(** [slice::binary_search_by]; the window shrinks in every round. *)
Fixpoint find_by (fuel : nat) (cmp : SnapshottedPip → comparison) (arr : list SnapshottedPip)
    (left right : nat) : nat + nat :=
  match fuel with
  | O => inr left
  | S fuel =>
      if decide (left < right)%nat then
        let mid := (left + (right - left) / 2)%nat in
        match arr !! mid with
        | Some x =>
            match cmp x with
            | Eq => inl mid
            | Lt => find_by fuel cmp arr (S mid) right
            | Gt => find_by fuel cmp arr left mid
            end
        | None => inr left
        end
      else inr left
  end.
Definition binary_search_by (cmp : SnapshottedPip → comparison) (l : list SnapshottedPip) : nat + nat :=
  find_by (length l) cmp l 0 (length l).

(* ------------------------------------------------------------------ *)
(** ** The order *)

Definition before (l r : SnapshottedPip) : Prop := compare_spip l r = Lt.
#[global] Instance before_dec : RelDecision before.
Proof. intros l r. unfold before. apply _. Defined.

(** The order is the one of a number: the signed weight, then the age. *)
Definition prio (s : SnapshottedPip) : Z * Z :=
  ((if (spip_weight s).1 then Z.of_N (spip_weight s).2
    else - Z.of_N (spip_weight s).2 - 1)%Z, (- Z.of_N (spip_id s))%Z).

Lemma compare_spip_prio l r :
  compare_spip l r = match (prio l).1 ?= (prio r).1 with Eq => (prio l).2 ?= (prio r).2 | c => c end%Z.
Proof.
  destruct l as [i [[] a]], r as [j [[] b]]; unfold compare_spip, prio; simpl;
    repeat match goal with |- context [(?x ?= ?y)%N] => destruct (N.compare_spec x y) end;
    repeat match goal with |- context [(?x ?= ?y)%Z] => destruct (Z.compare_spec x y) end;
    try done; lia.
Qed.

Lemma compare_spip_Eq l r : compare_spip l r = Eq ↔ l = r.
Proof.
  rewrite compare_spip_prio. split.
  - destruct (Z.compare_spec (prio l).1 (prio r).1) as [E1| |]; [|done|done].
    intros E2%Z.compare_eq. destruct l as [i [[] a]], r as [j [[] b]]; unfold prio in *; simpl in *;
      try lia; repeat f_equal; lia.
  - intros ->. by rewrite !Z.compare_refl.
Qed.

Lemma before_prio l r :
  before l r ↔ ((prio l).1 < (prio r).1 ∨ (prio l).1 = (prio r).1 ∧ (prio l).2 < (prio r).2)%Z.
Proof.
  unfold before. rewrite compare_spip_prio.
  destruct (Z.compare_spec (prio l).1 (prio r).1).
  - rewrite Z.compare_lt_iff. lia.
  - split; [by left|done].
  - split; [done|lia].
Qed.

#[global] Instance before_trans : Transitive before.
Proof. intros x y z. rewrite !before_prio. lia. Qed.
#[global] Instance before_irrefl : Irreflexive before.
Proof. intros x. unfold complement. rewrite before_prio. lia. Qed.

Lemma compare_spip_Gt l r : compare_spip l r = Gt ↔ before r l.
Proof.
  rewrite before_prio, compare_spip_prio.
  destruct (Z.compare_spec (prio l).1 (prio r).1).
  - rewrite Z.compare_gt_iff. lia.
  - split; [done|lia].
  - split; [by left|done].
Qed.

Lemma before_total l r : l ≠ r → before l r ∨ before r l.
Proof.
  intros Hne. destruct (compare_spip l r) eqn:E.
  - by apply compare_spip_Eq in E.
  - by left.
  - right. by apply compare_spip_Gt.
Qed.

(* ------------------------------------------------------------------ *)
(** ** Sorted queues *)

Definition sorted (q : list SnapshottedPip) : Prop := StronglySorted before q.

Lemma sorted_lookup q i j x y :
  sorted q → q !! i = Some x → q !! j = Some y → (i < j)%nat → before x y.
Proof.
  intros Hs. revert i j. induction Hs as [|z q Hs IH Hz]; intros [|i] [|j] Hi Hj Hlt; simpl in *; try lia; try done.
  - injection Hi as <-. rewrite Forall_forall in Hz. by eapply Hz, list_elem_of_lookup_2.
  - apply (IH i j); [done|done|lia].
Qed.

Lemma sorted_NoDup q : sorted q → NoDup q.
Proof.
  induction 1 as [|x q Hs IH Hx]; constructor; [|done]. intros Hin. rewrite Forall_forall in Hx.
  by apply (irreflexivity before x), Hx.
Qed.

Lemma sorted_app q1 q2 :
  sorted (q1 ++ q2) ↔ sorted q1 ∧ sorted q2 ∧ ∀ x y, x ∈ q1 → y ∈ q2 → before x y.
Proof. unfold sorted. rewrite StronglySorted_app. naive_solver. Qed.

Lemma sorted_sublist q1 q2 : q1 `sublist_of` q2 → sorted q2 → sorted q1.
Proof.
  induction 1 as [|x q1 q2 Hsub IH|x q1 q2 Hsub IH]; [done|..]; intros Hs; inversion Hs as [|? ? Hs' Hx]; subst.
  - constructor; [by apply IH|]. rewrite Forall_forall in Hx |- *. intros y Hy. apply Hx.
    by eapply elem_of_sublist.
  - by apply IH.
Qed.

(** Everything left of the window comes before [key], everything right of it
    after. *)
Definition around_by (arr : list SnapshottedPip) (key : SnapshottedPip) (left right : nat) : Prop :=
  (left ≤ right ≤ length arr)%nat ∧
  (∀ j x, (j < left)%nat → arr !! j = Some x → before x key) ∧
  (∀ j x, (right ≤ j)%nat → arr !! j = Some x → before key x).

Lemma find_by_spec fuel arr key left right :
  sorted arr → around_by arr key left right → (right - left ≤ fuel)%nat →
  match find_by fuel (λ x, compare_spip x key) arr left right with
  | inl i => arr !! i = Some key
  | inr i => around_by arr key i i
  end.
Proof.
  intros Hs. revert left right.
  induction fuel as [|fuel IH]; intros left right (Hlr & Hlo & Hhi) Hf; cbn [find_by].
  { assert (left = right) as -> by lia. done. }
  case_decide as Hlt; [|assert (left = right) as -> by lia; done].
  pose proof (Nat.div_lt (right - left) 2 ltac:(lia) ltac:(lia)) as Hmid.
  set (mid := (left + (right - left) / 2)%nat) in *.
  destruct (arr !! mid) as [x|] eqn:Hx; [|apply lookup_ge_None in Hx; unfold mid in Hx; lia].
  destruct (compare_spip x key) eqn:Hc; [by apply compare_spip_Eq in Hc as ->|..];
    (apply IH; [|lia]); split_and!; try lia; try done.
  - intros j y Hj Hy. destruct (decide (j = mid)) as [->|]; [by simplify_eq|].
    transitivity x; [|done]. apply (sorted_lookup arr j mid); [done..|lia].
  - apply compare_spip_Gt in Hc. intros j y Hj Hy. destruct (decide (j = mid)) as [->|]; [by simplify_eq|].
    transitivity x; [done|]. apply (sorted_lookup arr mid j); [done..|lia].
Qed.

Lemma binary_search_by_spec q key :
  sorted q →
  match binary_search_by (λ x, compare_spip x key) q with
  | inl i => q !! i = Some key
  | inr i => around_by q key i i
  end.
Proof.
  intros Hs. apply find_by_spec; [done| |lia]. split_and!; [lia|done|lia|].
  intros j x Hj Hx. apply lookup_lt_Some in Hx. lia.
Qed.

Lemma around_by_not_in q key i : around_by q key i i → key ∉ q.
Proof.
  intros (_ & Hlo & Hhi) [j Hj]%list_elem_of_lookup. apply (irreflexivity before key).
  destruct (decide (j < i)%nat); [by eapply Hlo|]. eapply Hhi; [|done]. lia.
Qed.

(** Removing a queued element, and inserting one that is not queued. *)
Lemma search_queued q x :
  sorted q → x ∈ q → ∃ i, binary_search_by (λ y, compare_spip y x) q = inl i ∧ q !! i = Some x.
Proof.
  intros Hs Hin. pose proof (binary_search_by_spec q x Hs) as H.
  destruct (binary_search_by _ q) as [i|i]; [eauto|]. by apply around_by_not_in in H.
Qed.

Lemma search_new q x :
  sorted q → x ∉ q → ∃ i, binary_search_by (λ y, compare_spip y x) q = inr i ∧
    sorted (vec_insert i x q) ∧ vec_insert i x q ≡ₚ x :: q.
Proof.
  intros Hs Hin. pose proof (binary_search_by_spec q x Hs) as H.
  destruct (binary_search_by _ q) as [i|i]; [by apply list_elem_of_lookup_2 in H|].
  exists i. split; [done|]. destruct H as (Hle & Hlo & Hhi). unfold vec_insert. split.
  - rewrite <- (take_drop i q) in Hs. apply sorted_app in Hs as (H1 & H2 & H12). apply sorted_app.
    assert (∀ y, y ∈ take i q → before y x) as Hl.
    { intros y [j Hj]%list_elem_of_lookup. apply lookup_take_Some in Hj as [Hj ?]. by eapply Hlo. }
    split_and!; [done| |].
    + constructor; [done|]. apply Forall_forall. intros y [j Hj]%list_elem_of_lookup.
      rewrite lookup_drop in Hj. eapply Hhi; [|done]. lia.
    + intros y z Hy [->|Hz]%elem_of_cons; [by apply Hl|by apply H12].
  - rewrite <- Permutation_middle. by rewrite take_drop.
Qed.

Lemma remove_queued q i x :
  sorted q → q !! i = Some x → sorted (vec_remove i q) ∧ x :: vec_remove i q ≡ₚ q.
Proof.
  intros Hs Hi. unfold vec_remove. split; [by eapply sorted_sublist, Hs; apply sublist_delete|].
  symmetry. by apply delete_Permutation.
Qed.

(** A queue is determined by what is in it: it is the sorted list of that. *)
Lemma sorted_unique q1 q2 : sorted q1 → sorted q2 → q1 ≡ₚ q2 → q1 = q2.
Proof.
  apply (StronglySorted_unique_strong before). intros x y _ _ Hxy Hyx.
  destruct (irreflexivity before x). by transitivity y.
Qed.
End PipsQueue.
