(* ===== verification/Pips.v ===== *)
(** Improvement proposals (src/pallets/pips/src/lib.rs): community members and
    committees propose calls; community members signal for or against a proposal
    with deposits, which order the queue of pending proposals; the governance
    committee takes snapshots of the queue and approves, rejects or skips what is
    in it; an approved call is executed later.

    The calls that are proposed, their encoding, the scheduler and the balances
    are the class [PipsConfig]; a call of this pallet that is proposed is
    dispatched like any other. *)

From stdpp Require Import base numbers list gmap sets strings sorting.
From S2P Require Import Prelude Subset Types ClaimTypes SettlementTypes Schedules PipsTypes State.
From S2P Require Import Identity Claims Sorting Committee Locks PipsQueue.

Local Open Scope N_scope.

Module Pips.
Import Sorting PipsQueue.

(* ------------------------------------------------------------------ *)
(** ** Storage *)

Record PipsStore : Type := mkPipsStore {
  PruneHistoricalPips : bool;
  MinimumProposalDeposit : Balance;
  DefaultEnactmentPeriod : BlockNumber;
  PendingPipExpiry : MaybeBlock;
  MaxPipSkipCount : SkippedCount;
  ActivePipLimit : N;
  PipIdSequence : PipId;
  SnapshotIdSequence : SnapshotId;
  ActivePipCount : N;
  ProposalMetadata : gmap PipId PipsMetadata;
  Deposits : gmap (PipId * AccountId) DepositInfo;
  Proposals : gmap PipId Pip;
  ProposalResult : gmap PipId VotingResult;
  ProposalVotes : gmap (PipId * AccountId) PipVote;
  PipToSchedule : gmap PipId BlockNumber;
  LiveQueue : list SnapshottedPip;
  SnapshotQueue : list SnapshottedPip;
  SnapshotMeta : option SnapshotMetadata;
  PipSkipCount : gmap PipId SkippedCount;
  CommitteePips : list PipId;
  ProposalStates : gmap PipId ProposalState;
}.
#[global] Instance eta_PipsStore : Eta PipsStore := λ r,
  mkPipsStore (PruneHistoricalPips r) (MinimumProposalDeposit r) (DefaultEnactmentPeriod r)
    (PendingPipExpiry r) (MaxPipSkipCount r) (ActivePipLimit r) (PipIdSequence r)
    (SnapshotIdSequence r) (ActivePipCount r) (ProposalMetadata r) (Deposits r) (Proposals r)
    (ProposalResult r) (ProposalVotes r) (PipToSchedule r) (LiveQueue r) (SnapshotQueue r)
    (SnapshotMeta r) (PipSkipCount r) (CommitteePips r) (ProposalStates r).

(** The storage of the pallet, the locks of the balances and the pallet's tasks of
    the scheduler, beside the state of the other pallets. *)
Record Gov : Type := mkGov {
  gov_world : World;
  pips : PipsStore;
  balances : BalancesStore;
  tasks : gmap PipTask BlockNumber;
}.
#[global] Instance eta_Gov : Eta Gov := λ r,
  mkGov (gov_world r) (pips r) (balances r) (tasks r).
Notation P := (SE Gov DispatchError).

Definition lift {A : Type} (m : M A) : P A := λ g,
  let '(r, w) := m (gov_world g) in (r, g <| gov_world := w |>).
Definition on_pips (f : PipsStore → PipsStore) : P unit := modify (λ g, g <| pips ::= f |>).
Definition event (e : Event) : P unit := lift (deposit_event e).

(** The calls of the pallet. *)
Inductive call : Type :=
  | SetPruneHistoricalPips (prune : bool)
  | SetMinProposalDeposit (deposit : Balance)
  | SetDefaultEnactmentPeriod (duration : BlockNumber)
  | SetPendingPipExpiry (expiry : MaybeBlock)
  | SetMaxPipSkipCount (max : SkippedCount)
  | SetActivePipLimit (limit : N)
  | Propose (proposal : Proposal) (deposit : Balance) (url : option Url)
      (description : option PipDescription)
  | Vote (id : PipId) (aye_or_nay : bool) (deposit : Balance)
  | ApproveCommitteeProposal (id : PipId)
  | RejectProposal (id : PipId)
  | PruneProposal (id : PipId)
  | RescheduleExecution (id : PipId) (until : option BlockNumber)
  | ClearSnapshot
  | Snapshot
  | EnactSnapshotResults (results : list (PipId * SnapshotResult))
  | ExecuteScheduledPip (id : PipId)
  | ExpireScheduledPip (did : IdentityId) (id : PipId).

(** [own_call] tells the calls of this pallet from the others, which [perform]
    dispatches with an origin and which act on the other pallets only: a call of
    the utility pallet that dispatches calls of this one is not covered.  The functions of the scheduler
    fail with [None]. *)
Class PipsConfig := {
  transaction_version : N;
  encode : Proposal → list N;
  blake2_256 : list N → N;
  free_balance : AccountId → World → Balance;
  schedule_named : PipTask → BlockNumber → gmap PipTask BlockNumber → option (gmap PipTask BlockNumber);
  reschedule_named : PipTask → BlockNumber → gmap PipTask BlockNumber → option (gmap PipTask BlockNumber);
  cancel_named : PipTask → gmap PipTask BlockNumber → option (gmap PipTask BlockNumber);
  own_call : Proposal → option call;
  perform : Origin → Proposal → M unit;
}.

Definition epips {A : Type} (e : PipsError) : result DispatchError A := Err (EPips e).
Definition gc_did : IdentityId := Claim.GC_DID.

(** [b"pips    "]. *)
Definition PIPS_LOCK_ID : LockIdentifier := [112; 105; 112; 115; 32; 32; 32; 32].
Definition PIP_MAX_REPORTING_SIZE : N := 1024.

Definition is_active (st : ProposalState) : bool :=
  match st with PipPending | PipScheduled => true | _ => false end.

Definition decrement_count_if_active (st : ProposalState) (s : PipsStore) : PipsStore :=
  if is_active st then s <| ActivePipCount ::= λ n, saturating_sub n 1 |> else s.

(* ------------------------------------------------------------------ *)
(** ** Votes and queues *)

Definition proposal_result (s : PipsStore) (id : PipId) : VotingResult :=
  getd no_votes (ProposalResult s) id.

Definition get_votes (id : PipId) (s : PipsStore) : VoteCount :=
  if has_key (ProposalResult s) id
  then ProposalFound (ayes_stake (proposal_result s id)) (nays_stake (proposal_result s id))
  else ProposalNotFound.

(** The two halves of [unsafe_vote]: an earlier vote is taken out, the new one
    is counted. *)
Definition retract_vote (v : PipVote) (r : VotingResult) : VotingResult :=
  if vote_aye v then
    r <| ayes_count ::= λ n, wrapping_sub u32_max n 1 |>
      <| ayes_stake ::= λ n, wrapping_sub u128_max n (vote_stake v) |>
  else
    r <| nays_count ::= λ n, wrapping_sub u32_max n 1 |>
      <| nays_stake ::= λ n, wrapping_sub u128_max n (vote_stake v) |>.

Definition cast_vote (v : PipVote) (r : VotingResult) : result DispatchError VotingResult :=
  let count := if vote_aye v then ayes_count r else nays_count r in
  let stake := if vote_aye v then ayes_stake r else nays_stake r in
  count ← ok_or (checked_add u32_max count 1) (EPips NumberOfVotesExceeded) ;
  stake ← ok_or (checked_add u128_max stake (vote_stake v)) (EPips StakeAmountOfVotesExceeded) ;
  Ok (if vote_aye v then r <| ayes_count := count |> <| ayes_stake := stake |>
      else r <| nays_count := count |> <| nays_stake := stake |>).

Definition unsafe_vote (id : PipId) (voter : AccountId) (v : PipVote) : P unit :=
  stats ← gets (λ g, proposal_result (pips g) id) ;
  old ← gets (λ g, ProposalVotes (pips g) !! (id, voter)) ;
  let stats := match old with Some old => retract_vote old stats | None => stats end in
  stats ← check (λ _, cast_vote v stats) ;
  on_pips (λ s, s <| ProposalResult ::= <[id := stats]> |>
                  <| ProposalVotes ::= <[(id, voter) := v]> |>).

Definition aggregate_result (id : PipId) (s : PipsStore) : SnapshottedPip :=
  let r := proposal_result s id in
  mkSnapshottedPip id
    (if bool_decide (nays_stake r ≤ ayes_stake r) then (true, ayes_stake r - nays_stake r)
     else (false, nays_stake r - ayes_stake r)).

Definition adjust_queue (old new : SnapshottedPip) (q : list SnapshottedPip) : list SnapshottedPip :=
  let q := match binary_search_by (λ x, compare_spip x old) q with
           | inl i => vec_remove i q
           | inr _ => q
           end in
  match binary_search_by (λ x, compare_spip x new) q with
  | inl _ => q
  | inr i => vec_insert i new q
  end.

Definition adjust_live_queue (id : PipId) (old : SnapshottedPip) : P unit :=
  on_pips (λ s, s <| LiveQueue ::= adjust_queue old (aggregate_result id s) |>).

(** The [unwrap_err] panics when the PIP is queued already. *)
Definition insert_live_queue (id : PipId) : P unit :=
  new ← gets (λ g, aggregate_result id (pips g)) ;
  pos ← check (λ g, match binary_search_by (λ x, compare_spip x new) (LiveQueue (pips g)) with
                    | inl _ => Err EPanic
                    | inr i => Ok i
                    end) ;
  on_pips (λ s, s <| LiveQueue ::= vec_insert pos new |>).

Definition remove_from_queue (id : PipId) : list SnapshottedPip → list SnapshottedPip :=
  filter (λ e, spip_id e ≠ id).

Definition maybe_unsnapshot_pip (id : PipId) (st : ProposalState) : P unit :=
  match st with
  | PipPending =>
      on_pips (λ s, s <| LiveQueue ::= remove_from_queue id |>) ;;
      on_pips (λ s, match SnapshotMeta s with
                    | Some _ => s <| SnapshotQueue ::= remove_from_queue id |>
                    | None => s
                    end)
  | _ => mret tt
  end.

Section pips.
Context {RT : Runtime} {FE : Fees} {PC : PipsConfig}.

(* ------------------------------------------------------------------ *)
(** ** Deposits *)

(** The new total has to be covered by the free balance. *)
Definition increase_lock (acc : AccountId) (amount : Balance) : P unit :=
  b ← check (λ g, Locks.increase_lock PIPS_LOCK_ID acc amount ReasonAll
                    (λ sum, ok_or (checked_sub (free_balance acc (gov_world g)) sum)
                              (EPips InsufficientDeposit) ;; Ok tt) (balances g)) ;
  modify (λ g, g <| balances := b |>).

Definition reduce_lock (acc : AccountId) (amount : Balance) : P unit :=
  b ← check (λ g, Locks.reduce_lock PIPS_LOCK_ID acc amount (balances g)) ;
  modify (λ g, g <| balances := b |>).

(** The [unwrap] panics when the deposit is not locked. *)
Fixpoint refund_all (ds : list DepositInfo) (total : Balance) : P Balance :=
  match ds with
  | [] => mret total
  | d :: ds =>
      b ← check (λ g, match Locks.reduce_lock PIPS_LOCK_ID (deposit_owner d) (deposit_amount d)
                              (balances g) with
                      | Ok b => Ok b
                      | Err _ => Err EPanic
                      end) ;
      modify (λ g, g <| balances := b |>) ;;
      refund_all ds (saturating_add u128_max (deposit_amount d) total)
  end.

Definition refund_proposal (did : IdentityId) (id : PipId) : P unit :=
  ds ← gets (λ g, snd <$> iter_prefix (Deposits (pips g)) id) ;
  total ← refund_all ds 0 ;
  on_pips (λ s, s <| Deposits ::= remove_prefix id |>) ;;
  event (ProposalRefund did id total).

(* ------------------------------------------------------------------ *)
(** ** The states of a proposal *)

Definition is_proposal_state (id : PipId) (st : ProposalState) (g : Gov) : result DispatchError unit :=
  st' ← ok_or (ProposalStates (pips g) !! id) (EPips NoSuchPip) ;
  ensure (bool_decide (st' = st)) (EPips IncorrectProposalState).

Definition update_proposal_state (did : IdentityId) (id : PipId) (new : ProposalState) : P unit :=
  on_pips (λ s, match ProposalStates s !! id with
                | Some old =>
                    (if is_active new then s else decrement_count_if_active old s)
                      <| ProposalStates ::= <[id := new]> |>
                | None => s
                end) ;;
  event (ProposalStateUpdated did id new).

(** The data of a PIP that goes when it is pruned. *)
Definition forget_pip (id : PipId) (s : PipsStore) : PipsStore :=
  let s := s <| ProposalResult ::= delete id |>
             <| ProposalVotes ::= remove_prefix id |>
             <| ProposalMetadata ::= delete id |> in
  let s := match pip_proposer <$> Proposals s !! id with
           | Some (ByCommittee _) => s <| CommitteePips ::= filter (λ i, i ≠ id) |>
           | _ => s
           end in
  s <| Proposals ::= delete id |> <| PipSkipCount ::= delete id |> <| ProposalStates ::= delete id |>.

Definition prune_data (did : IdentityId) (id : PipId) (st : ProposalState) (prune : bool) : P unit :=
  refund_proposal did id ;;
  on_pips (decrement_count_if_active st) ;;
  (if prune then on_pips (forget_pip id) else mret tt) ;;
  event (PipClosed did id prune).

Definition maybe_prune (did : IdentityId) (id : PipId) (new : ProposalState) : P unit :=
  update_proposal_state did id new ;;
  prune ← gets (λ g, PruneHistoricalPips (pips g)) ;
  prune_data did id new prune.

Definition unsafe_reject_proposal (did : IdentityId) (id : PipId) : P unit :=
  maybe_prune did id PipRejected.

(* ------------------------------------------------------------------ *)
(** ** Schedules *)

(** What the scheduler answers is only reported. *)
Definition on_tasks (f : gmap PipTask BlockNumber → option (gmap PipTask BlockNumber)) : P bool :=
  r ← gets (λ g, f (tasks g)) ;
  match r with
  | Some t => modify (λ g, g <| tasks := t |>) ;; mret true
  | None => mret false
  end.

Definition handle_exec_scheduling_result (id : PipId) (at_ : BlockNumber) (ok : bool) : P unit :=
  event (if ok then ExecutionScheduled gc_did id at_ else ExecutionSchedulingFailed gc_did id at_).

Definition schedule_pip_for_execution (id : PipId) : P unit :=
  at_ ← gets (λ g, saturating_add u32_max (N.max (DefaultEnactmentPeriod (pips g)) 1)
                     (block_number (gov_world g))) ;
  res ← on_tasks (schedule_named (ExecutionOf id) at_) ;
  handle_exec_scheduling_result id at_ res ;;
  on_pips (λ s, s <| PipToSchedule ::= <[id := at_]> |>) ;;
  update_proposal_state gc_did id PipScheduled.

Definition schedule_pip_for_expiry (id : PipId) (at_ : BlockNumber) : P unit :=
  res ← on_tasks (schedule_named (ExpiryOf id) at_) ;
  event (if res : bool then ExpiryScheduled gc_did id at_ else ExpirySchedulingFailed gc_did id at_).

Definition unschedule_pip (id : PipId) : P unit :=
  on_pips (λ s, s <| PipToSchedule ::= delete id |>) ;;
  res ← on_tasks (cancel_named (ExecutionOf id)) ;
  if res : bool then mret tt else event (ExecutionCancellingFailed id).

Definition maybe_unschedule_pip (id : PipId) (st : ProposalState) : P unit :=
  match st with PipScheduled => unschedule_pip id | _ => mret tt end.

(* ------------------------------------------------------------------ *)
(** ** Calls *)

Definition config {A : Type} (get : PipsStore → A) (set : A → PipsStore → PipsStore) (o : Origin)
    (new : A) (ev : IdentityId → A → A → Event) : P unit :=
  check (λ _, ensure_root o) ;;
  prev ← gets (λ g, get (pips g)) ;
  on_pips (set new) ;;
  event (ev gc_did prev new).

Definition ensure_infer_proposer (o : Origin) : Chk (Proposer * IdentityId) := λ w,
  match ensure_signed o with
  | Ok sender =>
      data ← Identity.ensure_call_permissions sender w ;
      Ok (Community sender, acp_primary_did data)
  | Err _ =>
      c ← match Committee.ensure_endorsed TechnicalCommittee o with
          | Ok _ => Ok Technical
          | Err _ => Committee.ensure_endorsed UpgradeCommittee o ;; Ok Upgrade
          end ;
      did ← ok_or (Committee.current_identity w) (EPips PipsMissingCurrentIdentity) ;
      Ok (ByCommittee c, did)
  end.

Definition reportable_proposal_data (p : Proposal) : ProposalData :=
  let encoded := encode p in
  if bool_decide (PIP_MAX_REPORTING_SIZE < Base.len encoded) then DataHash (blake2_256 encoded)
  else DataProposal encoded.

(** The deposit and the fee of a new PIP. *)
Definition take_deposit (proposer : Proposer) (deposit : Balance) : P unit :=
  let charge := lift (call_elsewhere (charge_protocol_fees [PipsPropose])) in
  match proposer with
  | Community who =>
      check (λ g, ensure (bool_decide (ActivePipLimit (pips g) = 0) ||
                          bool_decide (ActivePipCount (pips g) < ActivePipLimit (pips g)))
                    (EPips TooManyActivePips)) ;;
      check (λ g, ensure (bool_decide (MinimumProposalDeposit (pips g) ≤ deposit))
                    (EPips IncorrectDeposit)) ;;
      with_transaction (increase_lock who deposit ;; charge)
  | ByCommittee _ =>
      check (λ _, ensure (bool_decide (deposit = 0)) (EPips NotFromCommunity)) ;;
      charge
  end.

Definition propose (o : Origin) (proposal : Proposal) (deposit : Balance) (url : option Url)
    (description : option PipDescription) : P unit :=
  '(proposer, did) ← lift (check (ensure_infer_proposer o)) ;
  check (λ _, Base.ensure_opt_string_limited url) ;;
  check (λ _, Base.ensure_opt_string_limited description) ;;
  '(id, seq) ← check (λ g, Base.try_next_post u32_max (PipIdSequence (pips g))) ;
  take_deposit proposer deposit ;;
  created_at ← gets (λ g, block_number (gov_world g)) ;
  expiry ← gets (λ g, (λ e, wrapping_add u32_max e created_at) <$> PendingPipExpiry (pips g)) ;
  on_pips (λ s,
    s <| ProposalMetadata ::= <[id := mkPipsMetadata id url description created_at
                                        transaction_version expiry]> |>
      <| Proposals ::= <[id := mkPip id proposal proposer]> |>
      <| ProposalStates ::= <[id := PipPending]> |>
      <| PipIdSequence := seq |>
      <| ActivePipCount ::= λ n, wrapping_add u32_max n 1 |>) ;;
  (if expiry is Some at_ then schedule_pip_for_expiry id at_ else mret tt) ;;
  match proposer with
  | Community who =>
      on_pips (λ s, s <| Deposits ::= <[(id, who) := mkDepositInfo who deposit]> |>) ;;
      unsafe_vote id who (mkPipVote true deposit) ;;
      insert_live_queue id
  | ByCommittee _ => on_pips (λ s, s <| CommitteePips ::= λ l, l ++ [id] |>)
  end ;;
  event (ProposalCreated did proposer id deposit url description expiry
           (reportable_proposal_data proposal)).

Definition vote (o : Origin) (id : PipId) (aye_or_nay : bool) (deposit : Balance) : P unit :=
  data ← lift (check (Identity.ensure_origin_call_permissions o)) ;
  let voter := sender data in
  pip ← check (λ g, ok_or (Proposals (pips g) !! id) (EPips NoSuchPip)) ;
  proposer ← check (λ _, match pip_proposer pip with
                         | ByCommittee _ => epips NotFromCommunity
                         | Community p => Ok p
                         end) ;
  check (λ g, if bool_decide (proposer = voter)
              then ensure (bool_decide (MinimumProposalDeposit (pips g) ≤ deposit))
                     (EPips IncorrectDeposit)
              else Ok tt) ;;
  check (is_proposal_state id PipPending) ;;
  old_res ← gets (λ g, aggregate_result id (pips g)) ;
  with_transaction (
    curr ← gets (λ g, match Deposits (pips g) !! (id, voter) with
                      | Some d => deposit_amount d
                      | None => 0
                      end) ;
    (if bool_decide (deposit < curr) then reduce_lock voter (curr - deposit)
     else increase_lock voter (deposit - curr)) ;;
    unsafe_vote id voter (mkPipVote aye_or_nay deposit)) ;;
  adjust_live_queue id old_res ;;
  on_pips (λ s, s <| Deposits ::= <[(id, voter) := mkDepositInfo voter deposit]> |>) ;;
  event (PipVoted (primary_did data) voter id aye_or_nay deposit).

Definition approve_committee_proposal (o : Origin) (id : PipId) : P unit :=
  check (λ _, Committee.ensure_endorsed PolymeshCommittee o) ;;
  check (is_proposal_state id PipPending) ;;
  pip ← check (λ g, ok_or (Proposals (pips g) !! id) (EPips NoSuchPip)) ;
  check (λ _, match pip_proposer pip with
              | ByCommittee _ => Ok tt
              | Community _ => epips NotByCommittee
              end) ;;
  schedule_pip_for_execution id.

Definition reject_proposal (o : Origin) (id : PipId) : P unit :=
  check (λ _, Committee.ensure_endorsed PolymeshCommittee o) ;;
  st ← check (λ g, ok_or (ProposalStates (pips g) !! id) (EPips NoSuchPip)) ;
  check (λ _, ensure (is_active st) (EPips IncorrectProposalState)) ;;
  maybe_unschedule_pip id st ;;
  maybe_unsnapshot_pip id st ;;
  unsafe_reject_proposal gc_did id.

Definition prune_proposal (o : Origin) (id : PipId) : P unit :=
  check (λ _, Committee.ensure_endorsed PolymeshCommittee o) ;;
  st ← check (λ g, ok_or (ProposalStates (pips g) !! id) (EPips NoSuchPip)) ;
  check (λ _, ensure (negb (is_active st)) (EPips IncorrectProposalState)) ;;
  prune_data gc_did id st true.

Definition reschedule_execution (o : Origin) (id : PipId) (until : option BlockNumber) : P unit :=
  did ← lift (check (Identity.ensure_perms o)) ;
  check (λ g, ensure (bool_decide (Some did =
                        ReleaseCoordinator (Committee.committee PolymeshCommittee (gov_world g))))
                (EPips RescheduleNotByReleaseCoordinator)) ;;
  check (is_proposal_state id PipScheduled) ;;
  next_block ← gets (λ g, wrapping_add u32_max (block_number (gov_world g)) 1) ;
  let new_until := default next_block until in
  check (λ _, ensure (bool_decide (next_block ≤ new_until)) (EPips InvalidFutureBlockNumber)) ;;
  on_pips (λ s, s <| PipToSchedule ::= <[id := new_until]> |>) ;;
  res ← on_tasks (reschedule_named (ExecutionOf id) new_until) ;
  handle_exec_scheduling_result id new_until res.

Definition ensure_gc_member (did : IdentityId) (g : Gov) : result DispatchError unit :=
  ensure (bool_decide (did ∈ Committee.members PolymeshCommittee (gov_world g)))
    (EPips NotACommitteeMember).

Definition clear_snapshot (o : Origin) : P unit :=
  did ← lift (check (Identity.ensure_perms o)) ;
  check (ensure_gc_member did) ;;
  meta ← gets (λ g, SnapshotMeta (pips g)) ;
  match meta with
  | Some meta =>
      on_pips (λ s, s <| SnapshotMeta := None |> <| SnapshotQueue := [] |>) ;;
      event (SnapshotCleared did (snapshot_meta_id meta))
  | None => mret tt
  end.

Definition snapshot (o : Origin) : P unit :=
  data ← lift (check (Identity.ensure_origin_call_permissions o)) ;
  let did := primary_did data in
  check (ensure_gc_member did) ;;
  '(id, seq) ← check (λ g, Base.try_next_post u32_max (SnapshotIdSequence (pips g))) ;
  created_at ← gets (λ g, block_number (gov_world g)) ;
  queue ← gets (λ g, LiveQueue (pips g)) ;
  on_pips (λ s, s <| SnapshotIdSequence := seq |>
                  <| SnapshotMeta := Some (mkSnapshotMetadata created_at (sender data) id) |>
                  <| SnapshotQueue := queue |>) ;;
  event (SnapshotTaken did id queue).

(** What the results ask for: the rest of the queue, the PIPs to skip with their
    new counts, to reject and to approve. *)
Record enactment : Type := mkEnactment {
  en_queue : list SnapshottedPip;
  en_skipped : list (PipId * SkippedCount);
  en_rejected : list PipId;
  en_approved : list PipId;
}.
#[global] Instance eta_enactment : Eta enactment := λ r,
  mkEnactment (en_queue r) (en_skipped r) (en_rejected r) (en_approved r).

(** [queue.pop()]. *)
Definition pop {A : Type} (l : list A) : option (A * list A) :=
  match last l with Some x => Some (x, take (length l - 1) l) | None => None end.

Definition read_result (s : PipsStore) (e : enactment) (r : PipId * SnapshotResult)
    : result DispatchError enactment :=
  '(p, queue) ← ok_or (pop (en_queue e)) (EPips SnapshotResultTooLarge) ;
  ensure (bool_decide (spip_id p = r.1)) (EPips SnapshotIdMismatch) ;;
  let e := e <| en_queue := queue |> in
  match r.2 with
  | Skip =>
      let count := getd 0 (PipSkipCount s) r.1 in
      ensure (bool_decide (count < MaxPipSkipCount s)) (EPips CannotSkipPip) ;;
      Ok (e <| en_skipped ::= λ l, l ++ [(r.1, count + 1)] |>)
  | Reject => Ok (e <| en_rejected ::= λ l, l ++ [r.1] |>)
  | Approve => Ok (e <| en_approved ::= λ l, l ++ [r.1] |>)
  end.

(** The queue is written back when everything else is done. *)
Definition enact_snapshot_results (o : Origin) (results : list (PipId * SnapshotResult)) : P unit :=
  check (λ _, Committee.ensure_endorsed PolymeshCommittee o) ;;
  e ← check (λ g, fold_check (read_result (pips g))
                    (mkEnactment (SnapshotQueue (pips g)) [] [] []) results) ;
  for_each (en_skipped e) (λ '(id, count),
    on_pips (λ s, s <| PipSkipCount ::= <[id := count]> |>) ;;
    event (PipSkipped gc_did id count)) ;;
  on_pips (λ s, s <| LiveQueue ::=
    filter (λ q, spip_id q ∉ en_rejected e ∧ spip_id q ∉ en_approved e) |>) ;;
  for_each (en_rejected e) (unsafe_reject_proposal gc_did) ;;
  for_each (en_approved e) schedule_pip_for_execution ;;
  id ← gets (λ g, snapshot_meta_id <$> SnapshotMeta (pips g)) ;
  event (SnapshotResultsEnacted gc_did id (en_skipped e) (en_rejected e) (en_approved e)) ;;
  on_pips (λ s, s <| SnapshotQueue := en_queue e |>).

Definition expire_scheduled_pip (o : Origin) (did : IdentityId) (id : PipId) : P unit :=
  check (λ _, ensure_root o) ;;
  pending ← gets (λ g, is_ok (is_proposal_state id PipPending g)) ;
  if pending : bool then
    maybe_unsnapshot_pip id PipPending ;;
    maybe_prune did id PipExpired
  else mret tt.

Section execute.
Context (redispatch : Origin → call → P unit).

(** [proposal.dispatch(Root)]. *)
Definition dispatch_proposal (p : Proposal) : P unit :=
  match own_call p with
  | Some c => redispatch Root c
  | None => lift (with_storage_transaction (perform Root p))
  end.

(** A panic of the dispatched call is not caught. *)
Definition execute_proposal (id : PipId) : P unit :=
  pip ← check (λ g, ok_or (Proposals (pips g) !! id) (EPips ScheduledProposalDoesntExist)) ;
  st ← check (λ g, ok_or (ProposalStates (pips g) !! id) (EPips ScheduledProposalDoesntExist)) ;
  check (λ _, ensure (bool_decide (st = PipScheduled)) (EPips ProposalNotInScheduledState)) ;;
  res ← catch (dispatch_proposal (pip_proposal pip)) ;
  match res with
  | Ok _ => maybe_prune gc_did id PipExecuted
  | Err EPanic => throw EPanic
  | Err _ => maybe_prune gc_did id PipFailed
  end.

Definition execute_scheduled_pip (o : Origin) (id : PipId) : P unit :=
  check (λ _, ensure_root o) ;;
  on_pips (λ s, s <| PipToSchedule ::= delete id |>) ;;
  execute_proposal id.

Definition handle (o : Origin) (c : call) : P unit :=
  match c with
  | SetPruneHistoricalPips b =>
      config PruneHistoricalPips (λ b s, s <| PruneHistoricalPips := b |>) o b HistoricalPipsPruned
  | SetMinProposalDeposit d =>
      config MinimumProposalDeposit (λ d s, s <| MinimumProposalDeposit := d |>) o d
        MinimumProposalDepositChanged
  | SetDefaultEnactmentPeriod d =>
      config DefaultEnactmentPeriod (λ d s, s <| DefaultEnactmentPeriod := d |>) o d
        DefaultEnactmentPeriodChanged
  | SetPendingPipExpiry e =>
      config PendingPipExpiry (λ e s, s <| PendingPipExpiry := e |>) o e PendingPipExpiryChanged
  | SetMaxPipSkipCount n =>
      config MaxPipSkipCount (λ n s, s <| MaxPipSkipCount := n |>) o n MaxPipSkipCountChanged
  | SetActivePipLimit n =>
      config ActivePipLimit (λ n s, s <| ActivePipLimit := n |>) o n ActivePipLimitChanged
  | Propose p d url desc => propose o p d url desc
  | Vote id aye d => vote o id aye d
  | ApproveCommitteeProposal id => approve_committee_proposal o id
  | RejectProposal id => reject_proposal o id
  | PruneProposal id => prune_proposal o id
  | RescheduleExecution id until => reschedule_execution o id until
  | ClearSnapshot => clear_snapshot o
  | Snapshot => snapshot o
  | EnactSnapshotResults rs => enact_snapshot_results o rs
  | ExecuteScheduledPip id => execute_scheduled_pip o id
  | ExpireScheduledPip did id => expire_scheduled_pip o did id
  end.
End execute.

(** A dispatched call is rolled back when it fails.  A call within a call needs
    room on the stack, [depth]; without it the runtime panics. *)
Fixpoint dispatch (depth : nat) (o : Origin) (c : call) : P unit :=
  match depth with
  | O => throw EPanic
  | S depth => with_transaction (handle (dispatch depth) o c)
  end.

(** [proposed_by] and [voted_on]. *)
Definition proposed_by (proposer : Proposer) (s : PipsStore) : list PipId :=
  (λ kv, pip_id kv.2) <$> filter (λ kv, pip_proposer kv.2 = proposer) (map_to_list (Proposals s)).
Definition voted_on (address : AccountId) (s : PipsStore) : list PipId :=
  (λ kv, pip_id kv.2) <$>
    filter (λ kv, is_Some (ProposalVotes s !! (pip_id kv.2, address))) (map_to_list (Proposals s)).
End pips.
End Pips.
