(* ===== verification/Settlement.v ===== *)
(** Settlement (src/pallets/settlement/src/lib.rs): venues, and instructions
    from their creation over affirmation, withdrawal and rejection to their
    execution.  The state machine of an instruction, with the locks it takes
    on the portfolios of the senders. *)

From stdpp Require Import base numbers list gmap sets strings sorting.
From S2P Require Import Prelude Subset AssetIdentifier Types SettlementTypes Schedules State.
From S2P Require Import Identity Agents Portfolio Checkpoint Asset Nft.

Local Open Scope N_scope.

(** b"system:settlement_module_did\0\0\0\0" read as a number
    (src/pallets/common/src/constants.rs). *)
Definition SETTLEMENT_MODULE_DID : IdentityId :=
  0x73797374656d3a736574746c656d656e745f6d6f64756c655f64696400000000.

(** What the pallet is configured with and calls outside the repository: the
    benchmarked weights, the frame weight meter, signature verification and
    the scheduler.  A scheduler call either fails or returns the new agenda. *)
Class SettlementConfig := {
  w_execute_instruction_paused : N → N → N → Weight;
  w_execute_scheduled_instruction : N → N → N → Weight;
  w_execute_manual_instruction : N → N → N → Weight;
  frame_check_accrue : WeightMeter → Weight → option WeightMeter;
  verify_signature : N → Receipt → AccountId → bool;
  schedule_named : InstructionId → BlockNumber → Weight → World →
    option (gmap InstructionId (BlockNumber * Weight));
  cancel_named : InstructionId → World → option (gmap InstructionId (BlockNumber * Weight));
}.

Module Settlement.
(* ------------------------------------------------------------------ *)
(** ** Reads *)

Definition instruction_status (id : InstructionId) (w : World) : InstructionStatus :=
  getd StatusUnknown (InstructionStatuses (settlement w)) id.
Definition instruction_details (id : InstructionId) (w : World) : Instruction :=
  getd default_instruction (InstructionDetails (settlement w)) id.
Definition instruction_leg_status (id : InstructionId) (l : LegId) (w : World) : LegStatus :=
  getd PendingTokenLock (InstructionLegStatus (settlement w)) (id, l).
Definition instruction_affirms_pending (id : InstructionId) (w : World) : N :=
  getd 0 (InstructionAffirmsPending (settlement w)) id.
Definition user_affirmations (p : PortfolioId) (id : InstructionId) (w : World)
    : AffirmationStatus :=
  getd AffUnknown (UserAffirmations (settlement w)) (p, id).
Definition mediator_affirmation (id : InstructionId) (d : IdentityId) (w : World)
    : MediatorAffirmationStatus :=
  getd MedUnknown (InstructionMediatorsAffirmations (settlement w)) (id, d).
Definition offchain_affirmations (id : InstructionId) (l : LegId) (w : World)
    : AffirmationStatus :=
  getd AffUnknown (OffChainAffirmations (settlement w)) (id, l).
Definition venue_signers (v : VenueId) (a : AccountId) (w : World) : bool :=
  getd false (VenueSigners (settlement w)) (v, a).
Definition receipts_used (a : AccountId) (uid : N) (w : World) : bool :=
  getd false (ReceiptsUsed (settlement w)) (a, uid).
Definition venue_filtering (t : Ticker) (w : World) : bool :=
  getd false (VenueFiltering (settlement w)) t.
Definition venue_allow_list (t : Ticker) (v : VenueId) (w : World) : bool :=
  getd false (VenueAllowList (settlement w)) (t, v).
(** [InstructionLegs::iter_prefix(id).collect()]. *)
Definition legs_of (id : InstructionId) (w : World) : list (LegId * Leg) :=
  iter_prefix (InstructionLegs (settlement w)) id.

Definition leg_le (a b : LegId * Leg) : Prop := a.1 ≤ b.1.
#[global] Instance leg_le_dec a b : Decision (leg_le a b).
Proof. unfold leg_le. apply _. Defined.
(** [instruction_legs.sort_by_key(|l| l.0)]. *)
Definition sorted_legs (id : InstructionId) (w : World) : list (LegId * Leg) :=
  merge_sort leg_le (legs_of id w).

Section settlement.
Context {RT : Runtime} {EX : Externals} {SC : SettlementConfig}.

Definition esettle {A : Type} (e : SettlementError) : result DispatchError A :=
  Err (ESettlement e).

(* ------------------------------------------------------------------ *)
(** ** Venues *)

Definition venue_for_management (id : VenueId) (d : IdentityId) : Chk Venue := λ w,
  venue ← ok_or (VenueInfo (settlement w) !! id) (ESettlement InvalidVenue) ;
  ensure (bool_decide (creator venue = d)) (ESettlement Unauthorized) ;;
  Ok venue.

Definition insert_signers (id : VenueId) (signers : list AccountId)
    (m : gmap (VenueId * AccountId) bool) : gmap (VenueId * AccountId) bool :=
  foldl (λ m a, <[(id, a) := true]> m) m signers.
Definition remove_signers (id : VenueId) (signers : list AccountId)
    (m : gmap (VenueId * AccountId) bool) : gmap (VenueId * AccountId) bool :=
  foldl (λ m a, delete (id, a) m) m signers.

Definition create_venue (o : Origin) (details : list N) (signers : list AccountId)
    (typ : VenueType) : M unit :=
  d ← check (Identity.ensure_perms o) ;
  check (λ _, Base.ensure_string_limited details) ;;
  check (λ _, ensure (bool_decide (Base.len signers ≤ MaxNumberOfVenueSigners))
                (ESettlement NumberOfVenueSignersExceeded)) ;;
  '(id, next) ← check (λ w, Base.try_next_post u64_max (VenueCounter (settlement w))) ;
  on_settlement (λ s,
    s <| VenueCounter := next |>
      <| VenueInfo ::= <[id := mkVenue d typ]> |>
      <| Details ::= <[id := details]> |>
      <| NumberOfVenueSigners ::= <[id := Base.len signers mod (u32_max + 1)]> |>
      <| VenueSigners ::= insert_signers id signers |>
      <| UserVenues ::= λ u, {[(d, id)]} ∪ u |>) ;;
  deposit_event (VenueCreated d id details typ).

Definition update_venue_details (o : Origin) (id : VenueId) (details : list N) : M unit :=
  check (λ _, Base.ensure_string_limited details) ;;
  d ← check (Identity.ensure_perms o) ;
  check (venue_for_management id d) ;;
  on_settlement (λ s, s <| Details ::= <[id := details]> |>) ;;
  deposit_event (VenueDetailsUpdated d id details).

Definition update_venue_type (o : Origin) (id : VenueId) (typ : VenueType) : M unit :=
  d ← check (Identity.ensure_perms o) ;
  venue ← check (venue_for_management id d) ;
  on_settlement (λ s, s <| VenueInfo ::= <[id := venue <| venue_type := typ |>]> |>) ;;
  deposit_event (VenueTypeUpdated d id typ).

(** [base_update_venue_signers] after [ensure_perms]; the limit is compared in
    [usize], which has 32 bits in the runtime, and the addition of the counts is
    the plain [+] of [u32]. *)
Definition update_venue_signers (o : Origin) (id : VenueId) (signers : list AccountId)
    (add_signers : bool) : M unit :=
  d ← check (Identity.ensure_perms o) ;
  check (venue_for_management id d) ;;
  current ← gets (λ w, getd 0 (NumberOfVenueSigners (settlement w)) id) ;
  (if add_signers then
     check (λ _, ensure (bool_decide
              (saturating_add u32_max current (Base.len signers) ≤ MaxNumberOfVenueSigners))
              (ESettlement NumberOfVenueSignersExceeded)) ;;
     check (λ w, for_check signers (λ a,
       ensure (negb (venue_signers id a w)) (ESettlement SignerAlreadyExists))) ;;
     on_settlement (λ s,
       s <| NumberOfVenueSigners ::=
              <[id := wrapping_add u32_max current (Base.len signers mod (u32_max + 1))]> |>
         <| VenueSigners ::= insert_signers id signers |>)
   else
     check (λ w, for_check signers (λ a,
       ensure (venue_signers id a w) (ESettlement SignerDoesNotExist))) ;;
     on_settlement (λ s,
       s <| NumberOfVenueSigners ::=
              <[id := saturating_sub current (Base.len signers mod (u32_max + 1))]> |>
         <| VenueSigners ::= remove_signers id signers |>)) ;;
  deposit_event (VenueSignersUpdated d id signers add_signers).

Definition set_venue_filtering (o : Origin) (t : Ticker) (enabled : bool) : M unit :=
  d ← check (Agents.ensure_perms o t) ;
  on_settlement (λ s, s <| VenueFiltering ::=
    if enabled then <[t := enabled]> else delete t |>) ;;
  deposit_event (VenueFilteringSet d t enabled).

Definition allow_venues (o : Origin) (t : Ticker) (venues : list VenueId) : M unit :=
  d ← check (Agents.ensure_perms o t) ;
  on_settlement (λ s, s <| VenueAllowList ::= λ m,
    foldl (λ m v, <[(t, v) := true]> m) m venues |>) ;;
  deposit_event (VenuesAllowed d t venues).

Definition disallow_venues (o : Origin) (t : Ticker) (venues : list VenueId) : M unit :=
  d ← check (Agents.ensure_perms o t) ;
  on_settlement (λ s, s <| VenueAllowList ::= λ m,
    foldl (λ m v, delete (t, v) m) m venues |>) ;;
  deposit_event (VenuesBlocked d t venues).

(* ------------------------------------------------------------------ *)
(** ** Checks of legs *)

Definition is_on_chain_asset (t : Ticker) (w : World) : bool := has_key (Tokens (asset w)) t.

(** The set of tickers already checked is threaded through. *)
Definition ensure_venue_filtering (tickers : gset Ticker) (t : Ticker) (v : VenueId)
    : Chk (gset Ticker) := λ w,
  (if bool_decide (t ∉ tickers) && venue_filtering t w
   then ensure (venue_allow_list t v w) (ESettlement UnauthorizedVenue)
   else Ok tt) ;;
  Ok ({[t]} ∪ tickers).

Definition ensure_allowed_venue (legs : list (LegId * Leg)) (v : VenueId) : Chk unit := λ w,
  fold_check (λ tickers il, ensure_venue_filtering tickers (leg_ticker il.2) v w) ∅ legs ;;
  Ok tt.

Definition ensure_valid_fungible_leg (tickers : gset Ticker) (t : Ticker) (amount : Balance)
    (v : VenueId) : Chk (gset Ticker) := λ w,
  ensure (bool_decide (0 < amount)) (ESettlement ZeroAmount) ;;
  ensure (is_on_chain_asset t w) (ESettlement UnexpectedOFFChainAsset) ;;
  ensure_venue_filtering tickers t v w.

Definition ensure_valid_nft_leg (tickers : gset Ticker) (nfts : NFTs) (v : VenueId)
    : Chk (gset Ticker) := λ w,
  ensure (is_on_chain_asset (nfts_ticker nfts) w) (ESettlement UnexpectedOFFChainAsset) ;;
  Nft.ensure_within_nfts_transfer_limits nfts ;;
  Nft.ensure_no_duplicate_nfts nfts ;;
  ensure_venue_filtering tickers (nfts_ticker nfts) v w.

Definition ensure_valid_off_chain_leg (sender receiver : IdentityId) (amount : Balance)
    : result DispatchError unit :=
  ensure (bool_decide (0 < amount)) (ESettlement ZeroAmount) ;;
  ensure (bool_decide (sender ≠ receiver)) (ESettlement SameSenderReceiver).

(** [ensure_valid_leg]: the set of tickers and the count after the leg. *)
Definition ensure_valid_leg (leg : Leg) (v : VenueId) (tickers : gset Ticker)
    (count : AssetCount) : Chk (gset Ticker * AssetCount) := λ w,
  match leg with
  | Fungible sender receiver t amount =>
      ensure (bool_decide (did sender ≠ did receiver)) (ESettlement SameSenderReceiver) ;;
      tickers ← ensure_valid_fungible_leg tickers t amount v w ;
      count ← ok_or (try_add_fungible count) (ESettlement MaxNumberOfFungibleAssetsExceeded) ;
      Ok (tickers, count)
  | NonFungibleLeg sender receiver nfts =>
      ensure (bool_decide (did sender ≠ did receiver)) (ESettlement SameSenderReceiver) ;;
      tickers ← ensure_valid_nft_leg tickers nfts v w ;
      count ← ok_or (try_add_non_fungible nfts count) (ESettlement MaxNumberOfNFTsExceeded) ;
      Ok (tickers, count)
  | OffChain sender receiver t amount =>
      ensure_valid_off_chain_leg sender receiver amount ;;
      count ← ok_or (try_add_off_chain count) (ESettlement MaxNumberOfOffChainAssetsExceeded) ;
      Ok (tickers, count)
  end.

Definition ensure_within_instruction_max (count : AssetCount) : result DispatchError unit :=
  ensure (bool_decide (non_fungible count ≤ MaxNumberOfNFTs))
    (ESettlement MaxNumberOfNFTsExceeded) ;;
  ensure (bool_decide (fungible count ≤ MaxNumberOfFungibleAssets))
    (ESettlement MaxNumberOfFungibleAssetsExceeded) ;;
  ensure (bool_decide (off_chain count ≤ MaxNumberOfOffChainAssets))
    (ESettlement MaxNumberOfOffChainAssetsExceeded).

(** The loop body of [ensure_valid_legs]. *)
Definition collect_leg (v : VenueId) (w : World) (acc : gset Ticker * InstructionInfo)
    (leg : Leg) : result DispatchError (gset Ticker * InstructionInfo) :=
  let '(tickers, info) := acc in
  '(tickers, count) ← ensure_valid_leg leg v tickers (instruction_asset_count info) w ;
  let info := info <| instruction_asset_count := count |> in
  match leg with
  | Fungible sender receiver _ _ | NonFungibleLeg sender receiver _ =>
      let info := info <| portfolios_pending_approval ::= λ s, {[sender]} ∪ s |> in
      let info :=
        if Portfolio.skip_portfolio_affirmation receiver (leg_ticker leg) w
        then info <| portfolios_pre_approved ::= λ s, {[receiver]} ∪ s |>
        else info <| portfolios_pending_approval ::= λ s, {[receiver]} ∪ s |> in
      Ok (tickers,
          extend_mediators (getd ∅ (MandatoryMediators (asset w)) (leg_ticker leg)) info)
  | OffChain _ _ _ _ => Ok (tickers, info)
  end.

Definition empty_info : InstructionInfo := mkInstructionInfo AssetCount_default ∅ ∅ ∅.

Definition ensure_valid_legs (legs : list Leg) (v : VenueId) : Chk InstructionInfo := λ w,
  '(_, info) ← fold_check (collect_leg v w) (∅, empty_info) legs ;
  ensure_within_instruction_max (instruction_asset_count info) ;;
  Ok info.

(* ------------------------------------------------------------------ *)
(** ** Scheduling *)

Definition schedule_instruction (id : InstructionId) (execution_at : BlockNumber)
    (limit : Weight) : M unit :=
  r ← gets (schedule_named id execution_at limit) ;
  match r with
  | Some agenda' => modify (λ w, w <| agenda := agenda' |>)
  | None => deposit_event (SchedulingFailed (ESettlement FailedToSchedule))
  end.

(** [let _ = T::Scheduler::cancel_named(..)]. *)
Definition cancel_instruction (id : InstructionId) : M unit :=
  r ← gets (cancel_named id) ;
  match r with
  | Some agenda' => modify (λ w, w <| agenda := agenda' |>)
  | None => mret tt
  end.

Definition execute_scheduled_instruction_weight_limit (c : AssetCount) : Weight :=
  w_execute_scheduled_instruction (fungible c) (non_fungible c) (off_chain c).

Definition maybe_schedule_instruction (affirms_pending : N) (id : InstructionId)
    (limit : Weight) : M unit :=
  details ← gets (instruction_details id) ;
  if bool_decide (affirms_pending = 0) &&
     bool_decide (settlement_type details = SettleOnAffirmation)
  then
    block ← gets block_number ;
    schedule_instruction id (wrapping_add u32_max block 1) limit
  else mret tt.

(* ------------------------------------------------------------------ *)
(** ** Creating an instruction *)

(** [insert_all v f l m] inserts [v] under [f x] for every [x] of [l]. *)
Definition insert_all {X K V : Type} `{Countable K} (v : V) (f : X → K) (l : list X)
    (m : gmap K V) : gmap K V := foldl (λ m x, <[f x := v]> m) m l.

(** The writes of [legs.iter().enumerate().for_each(..)], from index [n]. *)
Fixpoint insert_legs (id : InstructionId) (n : N) (legs : list Leg) (s : SettlementStore)
    : SettlementStore :=
  match legs with
  | [] => s
  | leg :: legs =>
      let s := s <| InstructionLegs ::= <[(id, n) := leg]> |> in
      let s := if is_off_chain leg
               then s <| OffChainAffirmations ::= <[(id, n) := AffPending]> |> else s in
      insert_legs id (n + 1) legs s
  end.

(** The writes of [base_add_instruction], in two runs around the events of the
    automatic affirmations. *)
Definition open_instruction (id next : InstructionId) (info : InstructionInfo)
    (s : SettlementStore) : SettlementStore :=
  s <| InstructionCounter := next |>
    <| InstructionStatuses ::= <[id := StatusPending]> |>
    <| UserAffirmations ::=
         insert_all AffPending (λ p, (p, id)) (elements (portfolios_pending_approval info)) |>
    <| UserAffirmations ::= insert_all Affirmed (λ p, (p, id))
         (elements (portfolios_pre_approved_difference info)) |>
    <| AffirmsReceived ::= insert_all Affirmed (λ p, (id, p))
         (elements (portfolios_pre_approved_difference info)) |>.

Definition store_instruction (id : InstructionId) (v : VenueId) (st : SettlementType)
    (created : Moment) (trade value : option Moment) (legs : list Leg) (memo : option Memo)
    (info : InstructionInfo) (s : SettlementStore) : SettlementStore :=
  (insert_legs id 0 legs
    (s <| InstructionMediatorsAffirmations ::=
            insert_all MedPending (λ m, (id, m)) (elements (mediators info)) |>
       <| InstructionAffirmsPending ::= <[id := number_of_pending_affirmations info]> |>))
    <| InstructionDetails ::= <[id := mkInstruction id v st (Some created) trade value]> |>
    <| InstructionMemos ::= if memo is Some m then <[id := m]> else λ x, x |>
    <| VenueInstructions ::= λ u, {[(v, id)]} ∪ u |>.

Definition base_add_instruction (d : IdentityId) (v : VenueId) (st : SettlementType)
    (trade value : option Moment) (legs : list Leg) (memo : option Memo)
    (meds : option (gset IdentityId)) : M InstructionId :=
  check (λ w, match st with
              | SettleOnBlock b => ensure (bool_decide (block_number w < b))
                                     (ESettlement SettleOnPastBlock)
              | _ => Ok tt
              end) ;;
  check (λ _, match trade, value with
              | Some t, Some v => ensure (bool_decide (t ≤ v))
                                    (ESettlement InstructionDatesInvalid)
              | _, _ => Ok tt
              end) ;;
  check (venue_for_management v d) ;;
  info ← check (ensure_valid_legs legs v) ;
  let info := match meds with Some m => extend_mediators m info | None => info end in
  '(id, next) ← check (λ w, Base.try_next_post u64_max (InstructionCounter (settlement w))) ;
  on_settlement (open_instruction id next info) ;;
  for_each (elements (portfolios_pre_approved_difference info)) (λ p,
    deposit_event (InstructionAutomaticallyAffirmed d p id)) ;;
  created ← gets now ;
  on_settlement (store_instruction id v st created trade value legs memo info) ;;
  (if st is SettleOnBlock b then
     schedule_instruction id b
       (execute_scheduled_instruction_weight_limit (instruction_asset_count info))
   else mret tt) ;;
  deposit_event (InstructionCreated d v id st trade value legs memo) ;;
  mret id.

(* ------------------------------------------------------------------ *)
(** ** Locks *)

Definition lock_via_leg (leg : Leg) : M unit :=
  match leg with
  | Fungible sender _ t amount => Portfolio.lock_tokens sender t amount
  | NonFungibleLeg sender _ nfts =>
      with_storage_transaction
        (for_each (nfts_ids nfts) (Portfolio.lock_nft sender (nfts_ticker nfts)))
  | OffChain _ _ _ _ => throw (ESettlement OffChainAssetCantBeLocked)
  end.

Definition unlock_via_leg (leg : Leg) : M unit :=
  match leg with
  | Fungible sender _ t amount => Portfolio.unlock_tokens sender t amount
  | NonFungibleLeg sender _ nfts =>
      with_storage_transaction
        (for_each (nfts_ids nfts) (Portfolio.unlock_nft sender (nfts_ticker nfts)))
  | OffChain _ _ _ _ => throw (ESettlement OffChainAssetCantBeLocked)
  end.

Definition set_leg_status (id : InstructionId) (l : LegId) (st : LegStatus) : M unit :=
  on_settlement (λ s, s <| InstructionLegStatus ::= <[(id, l) := st]> |>).

(** One leg of [unchecked_release_locks]. *)
Definition release_lock (id : InstructionId) (il : LegId * Leg) : M unit :=
  st ← gets (instruction_leg_status id il.1) ;
  match st with
  | ExecutionPending => catch (unlock_via_leg il.2) ;; mret tt
  | ExecutionToBeSkipped _ _ | PendingTokenLock => mret tt
  end.

Definition unchecked_release_locks (id : InstructionId) (legs : list (LegId * Leg)) : M unit :=
  for_each legs (release_lock id).

(* ------------------------------------------------------------------ *)
(** ** Checks of affirmations *)

Definition ensure_instruction_validity (id : InstructionId) (is_execute : bool)
    : Chk Instruction := λ w,
  let details := instruction_details id w in
  ensure (bool_decide (instruction_status id w ≠ StatusUnknown))
    (ESettlement UnknownInstruction) ;;
  match settlement_type details, is_execute with
  | SettleOnBlock b, true | SettleManual b, true =>
      ensure (bool_decide (b ≤ block_number w)) (ESettlement InstructionSettleBlockNotReached)
  | SettleOnBlock b, false =>
      ensure (bool_decide (block_number w < b)) (ESettlement InstructionSettleBlockPassed)
  | _, _ => Ok tt
  end ;;
  Ok details.

Definition ensure_origin_perm_and_instruction_validity (o : Origin) (id : InstructionId)
    (is_execute : bool) : Chk (IdentityId * option SecondaryKey * Instruction) := λ w,
  data ← Identity.ensure_origin_call_permissions o w ;
  details ← ensure_instruction_validity id is_execute w ;
  Ok (primary_did data, secondary_key data, details).

Definition ensure_portfolios_and_affirmation_status (id : InstructionId)
    (portfolios : gset PortfolioId) (c : IdentityId) (sk : option SecondaryKey)
    (expected : AffirmationStatus) : Chk unit := λ w,
  for_check (elements portfolios) (λ p,
    Portfolio.ensure_portfolio_custody_and_permission p c sk w ;;
    ensure (bool_decide (user_affirmations p id w = expected))
      (ESettlement UnexpectedAffirmationStatus)).

Definition filtered_legs (id : InstructionId) (portfolios : gset PortfolioId) (w : World)
    : FilteredLegs := filter_sender (legs_of id w) portfolios.

Definition ensure_valid_cost (real input : AssetCount) : result DispatchError unit :=
  ensure (bool_decide (non_fungible real ≤ non_fungible input))
    (ESettlement NumberOfTransferredNFTsUnderestimated) ;;
  ensure (bool_decide (fungible real ≤ fungible input))
    (ESettlement NumberOfFungibleTransfersUnderestimated) ;;
  ensure (bool_decide (off_chain real ≤ off_chain input))
    (ESettlement NumberOfOffChainTransfersUnderestimated).

Definition ensure_valid_affirmation_count (f : FilteredLegs) (c : AffirmationCount)
    : result DispatchError unit :=
  ensure_valid_cost (sender_asset_count f) (ac_sender c) ;;
  ensure_valid_cost (receiver_asset_count f) (ac_receiver c) ;;
  ensure (bool_decide (off_chain (unfiltered_asset_count f) ≤ ac_offchain c))
    (ESettlement NumberOfOffChainTransfersUnderestimated).

Definition ensure_optional_count (f : FilteredLegs) (c : option AffirmationCount)
    : result DispatchError unit :=
  match c with Some c => ensure_valid_affirmation_count f c | None => Ok tt end.

(* ------------------------------------------------------------------ *)
(** ** Affirming *)

(** The locks of the legs sent from the affirming portfolios. *)
Definition lock_leg (id : InstructionId) (il : LegId * Leg) : M unit :=
  lock_via_leg il.2 ;;
  set_leg_status id il.1 ExecutionPending.

(** One portfolio of the storage update of an affirmation. *)
Definition record_affirmation (d : IdentityId) (id : InstructionId) (p : PortfolioId) : M unit :=
  on_settlement (λ s, s <| UserAffirmations ::= <[(p, id) := Affirmed]> |>
                        <| AffirmsReceived ::= <[(id, p) := Affirmed]> |>) ;;
  deposit_event (InstructionAffirmed d p id).

Definition unsafe_affirm_instruction (d : IdentityId) (id : InstructionId)
    (portfolios : gset PortfolioId) (sk : option SecondaryKey)
    (count : option AffirmationCount) : M FilteredLegs :=
  check (ensure_portfolios_and_affirmation_status id portfolios d sk AffPending) ;;
  f ← gets (filtered_legs id portfolios) ;
  check (λ _, ensure_optional_count f count) ;;
  for_each (sender_subset f) (lock_leg id) ;;
  affirms_pending ← gets (instruction_affirms_pending id) ;
  for_each (elements portfolios) (record_affirmation d id) ;;
  on_settlement (λ s, s <| InstructionAffirmsPending ::=
    <[id := saturating_sub affirms_pending (gset_len portfolios)]> |>) ;;
  mret f.

Definition base_affirm_instruction (o : Origin) (id : InstructionId)
    (portfolios : list PortfolioId) (count : option AffirmationCount) : M FilteredLegs :=
  '(d, sk, _) ← check (ensure_origin_perm_and_instruction_validity o id false) ;
  unsafe_affirm_instruction d id (list_to_set portfolios) sk count.

(** [affirm_and_maybe_schedule_instruction]; the weight it reports is dropped. *)
Definition affirm_and_maybe_schedule_instruction (o : Origin) (id : InstructionId)
    (portfolios : list PortfolioId) (count : option AffirmationCount) : M unit :=
  f ← base_affirm_instruction o id portfolios count ;
  pending ← gets (instruction_affirms_pending id) ;
  maybe_schedule_instruction pending id
    (execute_scheduled_instruction_weight_limit (unfiltered_asset_count f)).

(** The loop body of [ensure_valid_receipts_details]; the two sets of what was
    seen are threaded through. *)
Definition ensure_valid_receipt (v : VenueId) (id : InstructionId) (w : World)
    (seen : gset (AccountId * N) * gset LegId) (r : ReceiptDetails)
    : result DispatchError (gset (AccountId * N) * gset LegId) :=
  let '(uids, legs) := seen in
  ensure (bool_decide (rd_instruction_id r = id)) (ESettlement ReceiptInstructionIdMissmatch) ;;
  ensure (bool_decide ((rd_signer r, rd_uid r) ∉ uids)) (ESettlement DuplicateReceiptUid) ;;
  ensure (bool_decide (rd_leg_id r ∉ legs)) (ESettlement MultipleReceiptsForOneLeg) ;;
  ensure (venue_signers v (rd_signer r) w) (ESettlement UnauthorizedSigner) ;;
  ensure (negb (receipts_used (rd_signer r) (rd_uid r) w)) (ESettlement ReceiptAlreadyClaimed) ;;
  leg ← ok_or (InstructionLegs (settlement w) !! (id, rd_leg_id r)) (ESettlement LegNotFound) ;
  match leg with
  | OffChain sender receiver t amount =>
      ensure (bool_decide (offchain_affirmations id (rd_leg_id r) w = AffPending))
        (ESettlement UnexpectedAffirmationStatus) ;;
      ensure (verify_signature (rd_signature r)
                (mkReceipt (rd_uid r) id (rd_leg_id r) sender receiver t amount)
                (rd_signer r))
        (ESettlement InvalidSignature)
  | Fungible _ _ _ _ | NonFungibleLeg _ _ _ => esettle ReceiptForInvalidLegType
  end ;;
  Ok ({[(rd_signer r, rd_uid r)]} ∪ uids, {[rd_leg_id r]} ∪ legs).

Definition ensure_valid_receipts_details (v : VenueId) (id : InstructionId)
    (receipts : list ReceiptDetails) : Chk unit := λ w,
  fold_check (ensure_valid_receipt v id w) (∅, ∅) receipts ;; Ok tt.

(** One receipt of the storage update of [base_affirm_with_receipts]. *)
Definition claim_receipt (d : IdentityId) (id : InstructionId) (r : ReceiptDetails) : M unit :=
  on_settlement (λ s,
    s <| InstructionLegStatus ::=
           <[(id, rd_leg_id r) := ExecutionToBeSkipped (rd_signer r) (rd_uid r)]> |>
      <| OffChainAffirmations ::= <[(id, rd_leg_id r) := Affirmed]> |>
      <| ReceiptsUsed ::= <[(rd_signer r, rd_uid r) := true]> |>) ;;
  deposit_event (ReceiptClaimed d id (rd_leg_id r) (rd_uid r) (rd_signer r) (rd_metadata r)).

Definition base_affirm_with_receipts (o : Origin) (id : InstructionId)
    (receipts : list ReceiptDetails) (portfolios : list PortfolioId)
    (count : option AffirmationCount) : M FilteredLegs :=
  check (λ _, ensure (bool_decide (Base.len receipts ≤ MaxNumberOfOffChainAssets))
                (ESettlement MaxNumberOfReceiptsExceeded)) ;;
  '(d, sk, details) ← check (ensure_origin_perm_and_instruction_validity o id false) ;
  let set : gset PortfolioId := list_to_set portfolios in
  check (ensure_portfolios_and_affirmation_status id set d sk AffPending) ;;
  check (ensure_valid_receipts_details (venue_id details) id receipts) ;;
  f ← gets (filtered_legs id set) ;
  check (λ _, ensure_optional_count f count) ;;
  for_each (sender_subset f) (lock_leg id) ;;
  pending ← gets (instruction_affirms_pending id) ;
  on_settlement (λ s, s <| InstructionAffirmsPending ::=
    <[id := saturating_sub (saturating_sub pending (gset_len set)) (Base.len receipts)]> |>) ;;
  for_each receipts (claim_receipt d id) ;;
  for_each (elements set) (record_affirmation d id) ;;
  mret f.

Definition affirm_with_receipts_and_maybe_schedule_instruction (o : Origin)
    (id : InstructionId) (receipts : list ReceiptDetails) (portfolios : list PortfolioId)
    (count : option AffirmationCount) : M unit :=
  f ← base_affirm_with_receipts o id receipts portfolios count ;
  pending ← gets (instruction_affirms_pending id) ;
  maybe_schedule_instruction pending id
    (execute_scheduled_instruction_weight_limit (unfiltered_asset_count f)).

(* ------------------------------------------------------------------ *)
(** ** Withdrawing an affirmation *)

(** One leg of the loop that unlocks. *)
Definition unlock_leg (id : InstructionId) (il : LegId * Leg) : M unit :=
  st ← gets (instruction_leg_status id il.1) ;
  match st with
  | ExecutionToBeSkipped _ _ => throw (ESettlement UnexpectedLegStatus)
  | ExecutionPending => unlock_via_leg il.2
  | PendingTokenLock => throw (ESettlement InstructionNotAffirmed)
  end ;;
  set_leg_status id il.1 PendingTokenLock.

Definition record_withdrawal (d : IdentityId) (id : InstructionId) (p : PortfolioId) : M unit :=
  on_settlement (λ s, s <| UserAffirmations ::= <[(p, id) := AffPending]> |>
                        <| AffirmsReceived ::= delete (id, p) |>) ;;
  deposit_event (AffirmationWithdrawn d p id).

(** The [+=] of the pending count wraps. *)
Definition unsafe_withdraw_instruction_affirmation (d : IdentityId) (id : InstructionId)
    (portfolios : list PortfolioId) (sk : option SecondaryKey)
    (count : option AffirmationCount) : M FilteredLegs :=
  let set : gset PortfolioId := list_to_set portfolios in
  check (ensure_portfolios_and_affirmation_status id set d sk Affirmed) ;;
  f ← gets (filtered_legs id set) ;
  check (λ _, ensure_optional_count f count) ;;
  for_each (sender_subset f) (unlock_leg id) ;;
  for_each (elements set) (record_withdrawal d id) ;;
  on_settlement (λ s, s <| InstructionAffirmsPending ::= λ m,
    <[id := wrapping_add u64_max (getd 0 m id) (gset_len set)]> m |>) ;;
  mret f.

Definition base_withdraw_affirmation (o : Origin) (id : InstructionId)
    (portfolios : list PortfolioId) (count : option AffirmationCount) : M unit :=
  '(d, sk, details) ← check (ensure_origin_perm_and_instruction_validity o id false) ;
  unsafe_withdraw_instruction_affirmation d id portfolios sk count ;;
  if decide (settlement_type details = SettleOnAffirmation) then cancel_instruction id
  else mret tt.

(* ------------------------------------------------------------------ *)
(** ** Execution *)

Definition ensure_non_expired_affirmations (id : InstructionId) : Chk unit := λ w,
  for_check (iter_prefix (InstructionMediatorsAffirmations (settlement w)) id).*2 (λ m,
    match m with
    | MedAffirmed (Some expiry) =>
        ensure (bool_decide (expiry < now w)) (ESettlement MediatorAffirmationExpired)
    | MedAffirmed None => Ok tt
    | MedUnknown | MedPending => esettle NotAllAffirmationsHaveBeenReceived
    end).

(** [weight_meter.check_accrue(w)]; a failed check leaves the meter alone. *)
Definition check_accrue (weight : Weight) : M unit :=
  m ← check (λ w, ok_or (frame_check_accrue (meter w) weight)
                    (ESettlement WeightLimitExceeded)) ;
  set_meter m.

(** One leg's transfer, and the error of a leg that fails turned into a value. *)
Definition transfer_leg (id : InstructionId) (memo : option Memo) (caller : IdentityId)
    (il : LegId * Leg) : M (result DispatchError unit) :=
  st ← gets (instruction_leg_status id il.1) ;
  if decide (st = ExecutionPending) then
    match il.2 with
    | Fungible sender receiver t amount =>
        catch (Asset.base_transfer sender receiver t amount (Some id) memo caller)
    | NonFungibleLeg sender receiver nfts =>
        catch (Nft.base_nft_transfer sender receiver nfts id memo caller)
    | OffChain _ _ _ _ => mret (Ok tt)
    end
  else mret (Ok tt).

(** The loop over the legs: the first leg that fails. *)
Fixpoint transfer_legs (id : InstructionId) (memo : option Memo) (caller : IdentityId)
    (legs : list (LegId * Leg)) : M (option LegId) :=
  match legs with
  | [] => mret None
  | il :: legs =>
      r ← transfer_leg id memo caller il ;
      if is_err r : bool then mret (Some il.1) else transfer_legs id memo caller legs
  end.

Definition release_asset_locks_and_transfer_pending_legs (id : InstructionId)
    (legs : list (LegId * Leg)) (memo : option Memo) (caller : IdentityId)
    : M (option LegId) :=
  unchecked_release_locks id legs ;;
  transfer_legs id memo caller legs.

(** [frame_storage_with_transaction]: a failed leg rolls everything back; the
    weight consumed stays consumed. *)
Definition with_leg_transaction (m : M (option LegId)) : M (option LegId) := λ w,
  match m w with
  | (Ok None, w') => (Ok None, w')
  | (r, w') => (r, w <| meter := meter w' |>)
  end.

Definition execute_instruction (id : InstructionId) (caller : IdentityId) : M unit :=
  check (λ w, ensure (bool_decide (instruction_affirms_pending id w = 0))
                (ESettlement NotAllAffirmationsHaveBeenReceived)) ;;
  check (ensure_non_expired_affirmations id) ;;
  check (λ w, let st := instruction_status id w in
              ensure (bool_decide (st = StatusPending) || bool_decide (st = StatusFailed))
                (ESettlement InvalidInstructionStatusForExecution)) ;;
  v ← gets (λ w, venue_id (instruction_details id w)) ;
  legs ← gets (sorted_legs id) ;
  let count := from_legs legs in
  check_accrue (w_execute_instruction_paused (fungible count) (non_fungible count)
                  (off_chain count)) ;;
  check (ensure_allowed_venue legs v) ;;
  memo ← gets (λ w, InstructionMemos (settlement w) !! id) ;
  failed ← with_leg_transaction
             (release_asset_locks_and_transfer_pending_legs id legs memo caller) ;
  match failed with
  | Some leg_id =>
      deposit_event (LegFailedExecution caller id leg_id) ;;
      deposit_event (InstructionFailed caller id) ;;
      throw (ESettlement FailedToReleaseLockOrTransferAssets)
  | None => deposit_event (InstructionExecuted caller id)
  end.

(** The removal of the affirmations of a drained leg's parties. *)
Definition forget_parties (id : InstructionId) (m : gmap (PortfolioId * InstructionId) AffirmationStatus)
    (il : LegId * Leg) : gmap (PortfolioId * InstructionId) AffirmationStatus :=
  match il.2 with
  | Fungible sender receiver _ _ | NonFungibleLeg sender receiver _ =>
      delete (receiver, id) (delete (sender, id) m)
  | OffChain _ _ _ _ => m
  end.

Definition prune_instruction (id : InstructionId) (executed : bool) : M unit :=
  drained ← gets (legs_of id) ;
  details ← gets (instruction_details id) ;
  block ← gets block_number ;
  on_settlement (λ s,
    s <| InstructionLegs ::= remove_prefix id |>
      <| InstructionDetails ::= delete id |>
      <| VenueInstructions ::= λ u, u ∖ {[(venue_id details, id)]} |>
      <| InstructionAffirmsPending ::= delete id |>
      <| InstructionLegStatus ::= remove_prefix id |>
      <| OffChainAffirmations ::= remove_prefix id |>
      <| AffirmsReceived ::= remove_prefix id |>
      <| InstructionMediatorsAffirmations ::= remove_prefix id |>
      <| InstructionStatuses ::=
           <[id := if executed then StatusSuccess block else StatusRejected block]> |>
      <| UserAffirmations ::= λ m, foldl (forget_parties id) m drained |>).

Definition execute_instruction_retryable (id : InstructionId) (caller : IdentityId) : M unit :=
  r ← catch (execute_instruction id caller) ;
  match r with
  | Err e =>
      on_settlement (λ s, s <| InstructionStatuses ::= <[id := StatusFailed]> |>) ;;
      throw e
  | Ok _ => prune_instruction id true
  end.

Definition base_execute_scheduled_instruction (id : InstructionId) : M unit :=
  caller ← gets (λ w, default SETTLEMENT_MODULE_DID (CurrentDid (identity w))) ;
  r ← catch (execute_instruction_retryable id caller) ;
  match r with
  | Err e => deposit_event (FailedToExecuteInstruction id e)
  | Ok _ => mret tt
  end.

(** [ensure_valid_weight_meter]. *)
Definition valid_weight_meter (minimum limit : Weight) : M unit :=
  m ← check (λ _, ok_or (from_limit minimum limit)
                    (ESettlement InputWeightIsLessThanMinimum)) ;
  set_meter m.

Definition execute_scheduled_instruction (o : Origin) (id : InstructionId) (limit : Weight)
    : M unit :=
  check (λ _, ensure_root o) ;;
  valid_weight_meter (w_execute_scheduled_instruction 0 0 0) limit ;;
  base_execute_scheduled_instruction id.

Definition is_portfolio_present (legs : list (LegId * Leg)) (p : PortfolioId) : bool :=
  existsb (λ il, match il.2 with
                 | Fungible sender receiver _ _ | NonFungibleLeg sender receiver _ =>
                     bool_decide (sender = p) || bool_decide (receiver = p)
                 | OffChain _ _ _ _ => false
                 end) legs.

Definition is_offchain_party (legs : list (LegId * Leg)) (d : IdentityId) : bool :=
  existsb (λ il, match il.2 with
                 | OffChain sender receiver _ _ =>
                     bool_decide (sender = d) || bool_decide (receiver = d)
                 | _ => false
                 end) legs.

Definition base_execute_manual_instruction (o : Origin) (id : InstructionId)
    (p : option PortfolioId) (input_cost : AssetCount) : M unit :=
  '(caller, sk, details) ← check (ensure_origin_perm_and_instruction_validity o id true) ;
  legs ← gets (legs_of id) ;
  check (λ w,
    match p with
    | Some p =>
        Portfolio.ensure_portfolio_custody_and_permission p caller sk w ;;
        ensure (is_portfolio_present legs p) (ESettlement CallerIsNotAParty)
    | None =>
        if is_err (venue_for_management (venue_id details) caller w)
        then ensure (is_offchain_party legs caller) (ESettlement Unauthorized)
        else Ok tt
    end) ;;
  check (λ _, ensure_valid_cost (from_legs legs) input_cost) ;;
  execute_instruction_retryable id caller ;;
  deposit_event (SettlementManuallyExecuted caller id).

Definition execute_manual_instruction (o : Origin) (id : InstructionId)
    (p : option PortfolioId) (f n off : N) (limit : option Weight) : M unit :=
  valid_weight_meter (w_execute_manual_instruction 0 0 0)
    (default (w_execute_manual_instruction f n off) limit) ;;
  base_execute_manual_instruction o id p (mkAssetCount f n off).

Definition execute_settle_on_affirmation_instruction (id : InstructionId)
    (affirms_pending : N) (st : SettlementType) (caller : IdentityId) : M unit :=
  if bool_decide (st = SettleOnAffirmation) && bool_decide (affirms_pending = 0)
  then execute_instruction id caller else mret tt.

(** Called by the STO pallet only. *)
Definition affirm_and_execute_instruction (o : Origin) (id : InstructionId)
    (receipt : option ReceiptDetails) (portfolios : list PortfolioId) (caller : IdentityId)
    : M unit :=
  match receipt with
  | Some receipt => base_affirm_with_receipts o id [receipt] portfolios None
  | None => base_affirm_instruction o id portfolios None
  end ;;
  pending ← gets (instruction_affirms_pending id) ;
  details ← gets (instruction_details id) ;
  execute_settle_on_affirmation_instruction id pending (settlement_type details) caller ;;
  prune_instruction id true.

(* ------------------------------------------------------------------ *)
(** ** Rejecting, and the mediators *)

Definition base_reject_instruction (o : Origin) (id : InstructionId) (p : option PortfolioId)
    (count : option AssetCount) : M unit :=
  check (λ w, ensure (bool_decide (instruction_status id w ≠ StatusUnknown))
                (ESettlement UnknownInstruction)) ;;
  legs ← gets (legs_of id) ;
  check (λ _, match count with
              | Some c => ensure_valid_cost (from_legs legs) c
              | None => Ok tt
              end) ;;
  data ← check (Identity.ensure_origin_call_permissions o) ;
  check (λ w,
    match p with
    | Some p =>
        ensure (is_portfolio_present legs p) (ESettlement CallerIsNotAParty) ;;
        Portfolio.ensure_portfolio_custody_and_permission p (primary_did data)
          (secondary_key data) w
    | None =>
        ensure (bool_decide (mediator_affirmation id (primary_did data) w ≠ MedUnknown))
          (ESettlement CallerIsNotAMediator)
    end) ;;
  unchecked_release_locks id legs ;;
  cancel_instruction id ;;
  prune_instruction id false ;;
  deposit_event (InstructionRejected (primary_did data) id).

Definition set_mediator (id : InstructionId) (d : IdentityId) (m : MediatorAffirmationStatus)
    : M unit :=
  on_settlement (λ s, s <| InstructionMediatorsAffirmations ::= <[(id, d) := m]> |>).

(** [base_affirm_instruction_as_mediator]. *)
Definition affirm_instruction_as_mediator (o : Origin) (id : InstructionId)
    (expiry : option Moment) : M unit :=
  '(caller, _, details) ← check (ensure_origin_perm_and_instruction_validity o id false) ;
  status ← gets (mediator_affirmation id caller) ;
  check (λ _, ensure (bool_decide (status ≠ MedUnknown)) (ESettlement CallerIsNotAMediator)) ;;
  check (λ w, match expiry with
              | Some e => ensure (bool_decide (now w < e)) (ESettlement InvalidExpiryDate)
              | None => Ok tt
              end) ;;
  set_mediator id caller (MedAffirmed expiry) ;;
  (if decide (status = MedPending) then
     on_settlement (λ s, s <| InstructionAffirmsPending ::= λ m,
       <[id := saturating_sub (getd 0 m id) 1]> m |>)
   else mret tt) ;;
  pending ← gets (instruction_affirms_pending id) ;
  (if bool_decide (pending = 0) && bool_decide (settlement_type details = SettleOnAffirmation)
   then
     legs ← gets (legs_of id) ;
     maybe_schedule_instruction pending id
       (execute_scheduled_instruction_weight_limit (from_legs legs))
   else mret tt) ;;
  deposit_event (MediatorAffirmationReceived caller id expiry).

(** [base_withdraw_affirmation_as_mediator]. *)
Definition withdraw_affirmation_as_mediator (o : Origin) (id : InstructionId) : M unit :=
  '(caller, _, details) ← check (ensure_origin_perm_and_instruction_validity o id false) ;
  check (λ w, match mediator_affirmation id caller w with
              | MedUnknown => esettle CallerIsNotAMediator
              | MedPending => esettle UnexpectedAffirmationStatus
              | MedAffirmed _ => Ok tt
              end) ;;
  set_mediator id caller MedPending ;;
  before ← gets (instruction_affirms_pending id) ;
  on_settlement (λ s, s <| InstructionAffirmsPending ::=
    <[id := saturating_add u64_max before 1]> |>) ;;
  (if bool_decide (before = 0) && bool_decide (settlement_type details = SettleOnAffirmation)
   then cancel_instruction id else mret tt) ;;
  deposit_event (MediatorAffirmationWithdrawn caller id).

(* ------------------------------------------------------------------ *)
(** ** The calls *)

(** The set of mediators is a [BoundedBTreeSet]: its type bounds its size, no
    check of the pallet does. *)
Definition add_instruction (o : Origin) (v : VenueId) (st : SettlementType)
    (trade value : option Moment) (legs : list Leg) (memo : option Memo) : M unit :=
  d ← check (Identity.ensure_perms o) ;
  base_add_instruction d v st trade value legs memo None ;; mret tt.

Definition add_and_affirm_instruction (o : Origin) (v : VenueId) (st : SettlementType)
    (trade value : option Moment) (legs : list Leg) (portfolios : list PortfolioId)
    (memo : option Memo) : M unit :=
  d ← check (Identity.ensure_perms o) ;
  id ← base_add_instruction d v st trade value legs memo None ;
  affirm_and_maybe_schedule_instruction o id portfolios None.

Definition add_instruction_with_mediators (o : Origin) (v : VenueId) (st : SettlementType)
    (trade value : option Moment) (legs : list Leg) (memo : option Memo)
    (meds : gset IdentityId) : M unit :=
  d ← check (Identity.ensure_perms o) ;
  base_add_instruction d v st trade value legs memo (Some meds) ;; mret tt.

Definition add_and_affirm_with_mediators (o : Origin) (v : VenueId) (st : SettlementType)
    (trade value : option Moment) (legs : list Leg) (portfolios : list PortfolioId)
    (memo : option Memo) (meds : gset IdentityId) : M unit :=
  d ← check (Identity.ensure_perms o) ;
  id ← base_add_instruction d v st trade value legs memo (Some meds) ;
  affirm_and_maybe_schedule_instruction o id portfolios None.

(** The [_with_count] calls are the calls with a count. *)
Inductive call : Type :=
  | CreateVenue (details : list N) (signers : list AccountId) (typ : VenueType)
  | UpdateVenueDetails (id : VenueId) (details : list N)
  | UpdateVenueType (id : VenueId) (typ : VenueType)
  | UpdateVenueSigners (id : VenueId) (signers : list AccountId) (add : bool)
  | SetVenueFiltering (t : Ticker) (enabled : bool)
  | AllowVenues (t : Ticker) (venues : list VenueId)
  | DisallowVenues (t : Ticker) (venues : list VenueId)
  | AddInstruction (v : VenueId) (st : SettlementType) (trade value : option Moment)
      (legs : list Leg) (memo : option Memo)
  | AddAndAffirmInstruction (v : VenueId) (st : SettlementType) (trade value : option Moment)
      (legs : list Leg) (portfolios : list PortfolioId) (memo : option Memo)
  | AddInstructionWithMediators (v : VenueId) (st : SettlementType)
      (trade value : option Moment) (legs : list Leg) (memo : option Memo)
      (meds : gset IdentityId)
  | AddAndAffirmWithMediators (v : VenueId) (st : SettlementType)
      (trade value : option Moment) (legs : list Leg) (portfolios : list PortfolioId)
      (memo : option Memo) (meds : gset IdentityId)
  | AffirmInstruction (id : InstructionId) (portfolios : list PortfolioId)
      (count : option AffirmationCount)
  | AffirmWithReceipts (id : InstructionId) (receipts : list ReceiptDetails)
      (portfolios : list PortfolioId) (count : option AffirmationCount)
  | WithdrawAffirmation (id : InstructionId) (portfolios : list PortfolioId)
      (count : option AffirmationCount)
  | RejectInstruction (id : InstructionId) (p : option PortfolioId) (count : option AssetCount)
  | ExecuteManualInstruction (id : InstructionId) (p : option PortfolioId) (f n off : N)
      (limit : option Weight)
  | ExecuteScheduledInstruction (id : InstructionId) (limit : Weight)
  | AffirmInstructionAsMediator (id : InstructionId) (expiry : option Moment)
  | WithdrawAffirmationAsMediator (id : InstructionId).

Definition dispatch (o : Origin) (c : call) : M unit :=
  match c with
  | CreateVenue details signers typ => create_venue o details signers typ
  | UpdateVenueDetails id details => update_venue_details o id details
  | UpdateVenueType id typ => update_venue_type o id typ
  | UpdateVenueSigners id signers add => update_venue_signers o id signers add
  | SetVenueFiltering t enabled => set_venue_filtering o t enabled
  | AllowVenues t venues => allow_venues o t venues
  | DisallowVenues t venues => disallow_venues o t venues
  | AddInstruction v st trade value legs memo => add_instruction o v st trade value legs memo
  | AddAndAffirmInstruction v st trade value legs portfolios memo =>
      add_and_affirm_instruction o v st trade value legs portfolios memo
  | AddInstructionWithMediators v st trade value legs memo meds =>
      add_instruction_with_mediators o v st trade value legs memo meds
  | AddAndAffirmWithMediators v st trade value legs portfolios memo meds =>
      add_and_affirm_with_mediators o v st trade value legs portfolios memo meds
  | AffirmInstruction id portfolios count =>
      affirm_and_maybe_schedule_instruction o id portfolios count
  | AffirmWithReceipts id receipts portfolios count =>
      affirm_with_receipts_and_maybe_schedule_instruction o id receipts portfolios count
  | WithdrawAffirmation id portfolios count => base_withdraw_affirmation o id portfolios count
  | RejectInstruction id p count => base_reject_instruction o id p count
  | ExecuteManualInstruction id p f n off limit =>
      execute_manual_instruction o id p f n off limit
  | ExecuteScheduledInstruction id limit => execute_scheduled_instruction o id limit
  | AffirmInstructionAsMediator id expiry => affirm_instruction_as_mediator o id expiry
  | WithdrawAffirmationAsMediator id => withdraw_affirmation_as_mediator o id
  end.
End settlement.
End Settlement.
