(* ===== verification/Fundraising.v ===== *)
(** Fundraisers (src/pallets/sto/src/lib.rs): an agent offers units of an asset
    in tiers of prices and locks them; investors buy them through settlement
    instructions that are executed at once. *)

From stdpp Require Import base numbers list gmap sets strings.
From S2P Require Import Prelude Subset AssetIdentifier Types SettlementTypes Schedules StoTypes.
From S2P Require Import State ChainState Identity Agents Portfolio Checkpoint Asset Nft Settlement.

Local Open Scope N_scope.

Module Fundraising.

Definition sum (l : list N) : N := foldr N.add 0 l.

(** [try_fold] with [checked_add]. *)
Fixpoint checked_sum (total : Balance) (l : list Balance) : option Balance :=
  match l with
  | [] => Some total
  | x :: l => match checked_add u128_max total x with
              | Some total => checked_sum total l
              | None => None
              end
  end.

Definition ensure_fundraiser (t : Ticker) (id : FundraiserId) : Chain → result DispatchError Fundraiser :=
  λ c, ok_or (Fundraisers (sto c) !! (t, id)) (ESto FundraiserNotFound).

Definition PRICE_DIVISOR : Balance := 1000000.

(** The loop of [invest] over the tiers: what is still to be bought, the cost so
    far and the purchases by tier. *)
Fixpoint purchase (id : N) (l : list FundraiserTier) (remaining cost : Balance)
    : result DispatchError (Balance * Balance * list (N * Balance)) :=
  match l with
  | [] => Ok (remaining, cost, [])
  | tier :: l =>
      if bool_decide (tier_remaining tier = 0) then purchase (id + 1) l remaining cost
      else if bool_decide (remaining = 0) then Ok (remaining, cost, [])
      else
        let amount := if bool_decide (remaining ≤ tier_remaining tier) then remaining
                      else tier_remaining tier in
        product ← ok_or (checked_mul u128_max amount (tier_price tier)) (ESto StoOverflow) ;
        cost ← ok_or (checked_add u128_max cost (product / PRICE_DIVISOR)) (ESto StoOverflow) ;
        '(remaining, cost, purchases) ← purchase (id + 1) l (remaining - amount) cost ;
        Ok (remaining, cost, (id, amount) :: purchases)
  end.

(** [fundraiser.tiers[id].remaining -= amount] for each purchase. *)
Definition take (l : list FundraiserTier) (p : N * Balance) : list FundraiserTier :=
  alter (λ t, t <| tier_remaining ::= λ r, wrapping_sub u128_max r p.2 |>) (N.to_nat p.1) l.
Definition take_all (l : list FundraiserTier) (ps : list (N * Balance)) : list FundraiserTier :=
  foldl take l ps.

Section sto.
Context {RT : Runtime} {EX : Externals} {SC : SettlementConfig}.

Definition create_fundraiser (o : Origin) (offering_p : PortfolioId) (offering : Ticker)
    (raising_p : PortfolioId) (raising : Ticker) (price_tiers : list PriceTier) (venue : VenueId)
    (start : option Moment) (end_ : option Moment) (minimum : Balance) (name : FundraiserName)
    : C unit :=
  check (λ _, Base.ensure_string_limited name) ;;
  data ← lift (check (Agents.ensure_agent_asset_perms o offering)) ;
  let d := primary_did data in
  lift (check (λ w,
    match VenueInfo (settlement w) !! venue with
    | Some v => ensure (bool_decide (creator v = d) && bool_decide (venue_type v = Sto))
                  (ESto StoInvalidVenue)
    | None => Err (ESto StoInvalidVenue)
    end)) ;;
  lift (check (Portfolio.ensure_portfolio_custody_and_permission raising_p d (secondary_key data))) ;;
  lift (check (Portfolio.ensure_portfolio_custody_and_permission offering_p d (secondary_key data))) ;;
  let totals := pt_total <$> price_tiers in
  check (λ _, ensure (bool_decide (1 ≤ Base.len price_tiers) &&
                      bool_decide (Base.len price_tiers ≤ MAX_TIERS) &&
                      forallb (λ t, bool_decide (0 < t)) totals)
                (ESto InvalidPriceTiers)) ;;
  offering_amount ← check (λ _, ok_or (checked_sum 0 totals) (ESto InvalidPriceTiers)) ;
  start ← gets (λ c, default (now (world c)) start) ;
  check (λ _, match end_ with
              | Some e => ensure (bool_decide (start < e)) (ESto InvalidOfferingWindow)
              | None => Ok tt
              end) ;;
  '(id, seq) ← check (λ c, Base.try_next_post u64_max (getd 0 (FundraiserCount (sto c)) offering)) ;
  lift (Portfolio.lock_tokens offering_p offering offering_amount) ;;
  let f := mkFundraiser d offering_p offering raising_p raising
             (into_fundraiser_tier <$> price_tiers) venue start end_ FundraiserLive minimum in
  on_sto (λ s, s <| FundraiserCount ::= <[offering := seq]> |>
                 <| Fundraisers ::= <[(offering, id) := f]> |>
                 <| FundraiserNames ::= <[(offering, id) := name]> |>) ;;
  lift (deposit_event (FundraiserCreated d id name f)).

Definition ensure_in_window (f : Fundraiser) (now : Moment) : bool :=
  bool_decide (fr_start f ≤ now) &&
  match fr_end f with Some e => negb (bool_decide (e ≤ now)) | None => true end.

(** The legs of an investment. *)
Definition investment_legs (f : Fundraiser) (investment_p funding_p : PortfolioId)
    (amount cost : Balance) : list Leg :=
  [Fungible (offering_portfolio f) investment_p (offering_asset f) amount;
   Fungible funding_p (raising_portfolio f) (raising_asset f) cost].

(** The instruction of an investment, up to the affirmation of the investor. *)
Definition open_investment (f : Fundraiser) (investment_p funding_p : PortfolioId)
    (amount cost : Balance) : M InstructionId :=
  Portfolio.unlock_tokens (offering_portfolio f) (offering_asset f) amount ;;
  Settlement.base_add_instruction (fr_creator f) (fr_venue_id f) SettleOnAffirmation None None
    (investment_legs f investment_p funding_p amount cost) None None.

(** The closure of [with_transaction] in [invest]. *)
Definition settle_investment (o : Origin) (d : IdentityId) (f : Fundraiser)
    (investment_p funding_p : PortfolioId) (amount cost : Balance)
    (receipt : option ReceiptDetails) : M unit :=
  id ← open_investment f investment_p funding_p amount cost ;
  Settlement.unsafe_affirm_instruction (fr_creator f) id
    {[offering_portfolio f; raising_portfolio f]} None None ;;
  set_meter max_limit_no_minimum ;;
  Settlement.affirm_and_execute_instruction o id receipt [investment_p; funding_p] d.

Definition invest (o : Origin) (investment_p funding_p : PortfolioId) (offering : Ticker)
    (id : FundraiserId) (purchase_amount : Balance) (max_price : option Balance)
    (receipt : option ReceiptDetails) : C unit :=
  data ← lift (check (Identity.ensure_origin_call_permissions o)) ;
  let d := primary_did data in
  lift (check (Portfolio.ensure_portfolio_custody_and_permission investment_p d (secondary_key data))) ;;
  lift (check (Portfolio.ensure_portfolio_custody_and_permission funding_p d (secondary_key data))) ;;
  f ← check (ensure_fundraiser offering id) ;
  check (λ _, ensure (bool_decide (fr_status f = FundraiserLive)) (ESto FundraiserNotLive)) ;;
  check (λ c, ensure (ensure_in_window f (now (world c))) (ESto FundraiserExpired)) ;;
  '(remaining, cost, purchases) ← check (λ _, purchase 0 (tiers f) purchase_amount 0) ;
  check (λ _, ensure (bool_decide (remaining = 0)) (ESto InsufficientTokensRemaining)) ;;
  check (λ _, ensure (bool_decide (minimum_investment f ≤ cost)) (ESto InvestmentAmountTooLow)) ;;
  check (λ _, ensure (match max_price with
                      | Some m => bool_decide (cost ≤ saturating_mul u128_max m purchase_amount / PRICE_DIVISOR)
                      | None => true
                      end) (ESto MaxPriceExceeded)) ;;
  lift (with_storage_transaction
          (settle_investment o d f investment_p funding_p purchase_amount cost receipt)) ;;
  lift (deposit_event (Invested d id offering (raising_asset f) purchase_amount cost)) ;;
  on_sto (λ s, s <| Fundraisers ::= <[(offering, id) := f <| tiers ::= λ l, take_all l purchases |>]> |>).

Definition set_frozen (o : Origin) (offering : Ticker) (id : FundraiserId) (frozen : bool) : C unit :=
  d ← lift (check (Agents.ensure_perms o offering)) ;
  f ← check (ensure_fundraiser offering id) ;
  check (λ _, ensure (negb (is_closed f)) (ESto FundraiserIsClosed)) ;;
  lift (deposit_event (if frozen then FundraiserFrozen d id else FundraiserUnfrozen d id)) ;;
  on_sto (λ s, s <| Fundraisers ::=
    <[(offering, id) := f <| fr_status := if frozen then FundraiserHalted else FundraiserLive |>]> |>).

Definition modify_fundraiser_window (o : Origin) (offering : Ticker) (id : FundraiserId)
    (start : Moment) (end_ : option Moment) : C unit :=
  d ← lift (check (Agents.ensure_perms o offering)) ;
  f ← check (ensure_fundraiser offering id) ;
  check (λ _, ensure (negb (is_closed f)) (ESto FundraiserIsClosed)) ;;
  check (λ c, match fr_end f with
              | Some e => ensure (bool_decide (now (world c) < e)) (ESto FundraiserExpired)
              | None => Ok tt
              end) ;;
  check (λ _, match end_ with
              | Some e => ensure (bool_decide (start < e)) (ESto InvalidOfferingWindow)
              | None => Ok tt
              end) ;;
  lift (deposit_event (FundraiserWindowModified d id (fr_start f) (fr_end f) start end_)) ;;
  on_sto (λ s, s <| Fundraisers ::=
    <[(offering, id) := f <| fr_start := start |> <| fr_end := end_ |>]> |>).

(** What is left in the tiers, with the plain additions of [stop]. *)
Definition remaining_amount (f : Fundraiser) : Balance :=
  foldl (λ r t, wrapping_add u128_max r (tier_remaining t)) 0 (tiers f).

Definition stop (o : Origin) (offering : Ticker) (id : FundraiserId) : C unit :=
  f ← check (ensure_fundraiser offering id) ;
  data ← lift (check (Agents.ensure_asset_perms o offering)) ;
  let d := primary_did data in
  lift (check (λ w, if bool_decide (fr_creator f ≠ d)
                    then Agents.ensure_agent_permissioned offering d w else Ok tt)) ;;
  check (λ _, ensure (negb (is_closed f)) (ESto FundraiserIsClosed)) ;;
  lift (Portfolio.unlock_tokens (offering_portfolio f) (offering_asset f) (remaining_amount f)) ;;
  status ← gets (λ c, match fr_end f with
                      | Some e => if bool_decide (now (world c) < e) then ClosedEarly else Closed
                      | None => Closed
                      end) ;
  on_sto (λ s, s <| Fundraisers ::= <[(offering, id) := f <| fr_status := status |>]> |>) ;;
  lift (deposit_event (FundraiserClosed d id)).

(** The calls of the pallet. *)
Inductive call : Type :=
  | CreateFundraiser (offering_p : PortfolioId) (offering : Ticker) (raising_p : PortfolioId)
      (raising : Ticker) (price_tiers : list PriceTier) (venue : VenueId)
      (start : option Moment) (end_ : option Moment) (minimum : Balance) (name : FundraiserName)
  | Invest (investment_p funding_p : PortfolioId) (offering : Ticker) (id : FundraiserId)
      (purchase_amount : Balance) (max_price : option Balance) (receipt : option ReceiptDetails)
  | FreezeFundraiser (offering : Ticker) (id : FundraiserId)
  | UnfreezeFundraiser (offering : Ticker) (id : FundraiserId)
  | ModifyFundraiserWindow (offering : Ticker) (id : FundraiserId) (start : Moment)
      (end_ : option Moment)
  | Stop (offering : Ticker) (id : FundraiserId).

Definition dispatch (o : Origin) (c : call) : C unit :=
  match c with
  | CreateFundraiser op o' rp r ts v s e m n => create_fundraiser o op o' rp r ts v s e m n
  | Invest ip fp t id a m r => invest o ip fp t id a m r
  | FreezeFundraiser t id => set_frozen o t id true
  | UnfreezeFundraiser t id => set_frozen o t id false
  | ModifyFundraiserWindow t id s e => modify_fundraiser_window o t id s e
  | Stop t id => stop o t id
  end.

(* ------------------------------------------------------------------ *)
(** ** Buying from the tiers *)

#[local] Arguments N.sub : simpl never.
#[local] Arguments N.min : simpl never.
#[local] Arguments N.mul : simpl never.
#[local] Arguments N.div : simpl never.

(** The reference: the units are taken from the tiers in their order, each
    priced at its tier, rounded down. *)
Fixpoint fill (l : list FundraiserTier) (n : Balance) : list FundraiserTier :=
  match l with
  | [] => []
  | t :: l => (t <| tier_remaining ::= λ r, r - n |>) :: fill l (n - tier_remaining t)
  end.
Fixpoint fill_cost (l : list FundraiserTier) (n : Balance) : Balance :=
  match l with
  | [] => 0
  | t :: l => N.min (tier_remaining t) n * tier_price t / PRICE_DIVISOR
              + fill_cost l (n - tier_remaining t)
  end.
Definition tiers_left (l : list FundraiserTier) : Balance := sum (tier_remaining <$> l).

(** A tier has no more left than it was given. *)
Definition tier_ok (t : FundraiserTier) : Prop :=
  tier_remaining t ≤ tier_total t ∧ tier_total t ≤ u128_max.

Lemma set_remaining f t :
  t <| tier_remaining ::= f |> =
  mkFundraiserTier (tier_total t) (tier_price t) (f (tier_remaining t)).
Proof. done. Qed.
Lemma tier_eta t : mkFundraiserTier (tier_total t) (tier_price t) (tier_remaining t) = t.
Proof. by destruct t. Qed.

Lemma fill_zero l : fill l 0 = l.
Proof.
  induction l as [|t l IH]; [done|]. cbn [fill].
  by rewrite set_remaining, N.sub_0_r, N.sub_0_l, tier_eta, IH.
Qed.
Lemma fill_cost_zero l : fill_cost l 0 = 0.
Proof.
  induction l as [|t l IH]; [done|]. cbn [fill_cost].
  by rewrite N.min_0_r, N.mul_0_l, N.sub_0_l, IH.
Qed.

Lemma tiers_left_cons t l : tiers_left (t :: l) = tier_remaining t + tiers_left l.
Proof. done. Qed.

Lemma tiers_left_fill l n : tiers_left (fill l n) = tiers_left l - n.
Proof.
  revert n. induction l as [|t l IH]; intros n; [done|]. cbn [fill].
  rewrite set_remaining, !tiers_left_cons, IH. simpl. lia.
Qed.

Lemma fill_totals l n : tier_total <$> fill l n = tier_total <$> l.
Proof.
  revert n. induction l as [|t l IH]; intros n; [done|]. cbn [fill].
  by rewrite set_remaining, !fmap_cons, IH.
Qed.

Lemma fill_ok l n : Forall tier_ok l → Forall tier_ok (fill l n).
Proof.
  intros H. revert n. induction H as [|t l [Ht Ht'] _ IH]; intros n; constructor; [|apply IH].
  split; simpl; lia.
Qed.

Lemma take_middle pre t l i a :
  N.of_nat (length pre) = i → a ≤ tier_remaining t → tier_remaining t ≤ u128_max →
  take (pre ++ t :: l) (i, a) = pre ++ (t <| tier_remaining ::= λ r, r - a |>) :: l.
Proof.
  intros <- Ha Hr. unfold take. simpl. rewrite Nat2N.id.
  rewrite <- (Nat.add_0_r (length pre)) at 1. rewrite alter_app_r. f_equal. simpl. f_equal.
  rewrite !set_remaining. by rewrite wrapping_sub_small.
Qed.

(** The loop buys what the reference says. *)
Lemma purchase_Ok id l n cost r c ps :
  Forall tier_ok l → purchase id l n cost = Ok (r, c, ps) →
  r = n - tiers_left l ∧ c = cost + fill_cost l n ∧
  ∀ pre, N.of_nat (length pre) = id → take_all (pre ++ l) ps = pre ++ fill l n.
Proof.
  intros Hok. revert id n cost r c ps.
  induction Hok as [|t l [Ht Ht'] Hok IH]; intros id n cost r c ps H; simpl in H.
  { ok_inv. split_and!; [by rewrite N.sub_0_r|by rewrite N.add_0_r|done]. }
  rewrite tiers_left_cons. cbn [fill fill_cost].
  case_bool_decide as Hz.
  { apply IH in H as (-> & -> & Hps). rewrite Hz. split_and!; [lia| |].
    - rewrite N.min_0_l, N.mul_0_l, N.sub_0_r. done.
    - intros pre Hpre. rewrite N.sub_0_r.
      replace (t <| tier_remaining ::= λ r, r - n |>) with t
        by (by rewrite set_remaining, Hz, N.sub_0_l, <- Hz, tier_eta).
      specialize (Hps (pre ++ [t])). rewrite <- !app_assoc in Hps. apply Hps.
      rewrite length_app. simpl. lia. }
  case_bool_decide as Hn.
  { ok_inv. split_and!; [lia| |].
    - rewrite N.min_0_r, N.mul_0_l, fill_cost_zero. rewrite N.div_0_l by done. lia.
    - intros pre _. simpl. rewrite fill_zero. by rewrite set_remaining, N.sub_0_r, tier_eta. }
  ok_inv. destruct_product. ok_inv. simplify_eq.
  match goal with H : checked_mul _ _ _ = Some _ |- _ => apply checked_mul_Some in H as [-> _] end.
  match goal with H : checked_add _ _ _ = Some _ |- _ => apply checked_add_Some in H as [-> _] end.
  set (a := if bool_decide (n ≤ tier_remaining t) then n else tier_remaining t) in *.
  assert (a = N.min (tier_remaining t) n) as Ha by (subst a; case_bool_decide; lia).
  assert (n - a = n - tier_remaining t) as Hna by lia.
  match goal with H : purchase _ _ _ _ = _ |- _ => apply IH in H as (-> & -> & Hps) end.
  rewrite Hna in *. split_and!; [lia|rewrite <- Ha; lia|].
  intros pre Hpre. unfold take_all. simpl. rewrite (take_middle pre t l id a Hpre) by lia.
  replace (t <| tier_remaining ::= λ r, r - a |>) with (t <| tier_remaining ::= λ r, r - n |>)
    by (rewrite !set_remaining; f_equal; lia).
  specialize (Hps (pre ++ [t <| tier_remaining ::= λ r, r - n |>])). rewrite <- !app_assoc in Hps.
  apply Hps. rewrite length_app. simpl. lia.
Qed.

(** What is left over is reported, so a purchase that succeeds is complete. *)
Lemma purchase_complete l n c ps :
  Forall tier_ok l → purchase 0 l n 0 = Ok (0, c, ps) →
  n ≤ tiers_left l ∧ c = fill_cost l n ∧ take_all l ps = fill l n.
Proof.
  intros Hok (Hr & -> & Hps)%purchase_Ok; [|done]. split_and!; [lia|lia|]. by apply (Hps []).
Qed.

Lemma checked_sum_Some a l n : checked_sum a l = Some n → n = a + sum l ∧ n ≤ N.max a u128_max.
Proof.
  revert a. induction l as [|x l IH]; intros a H; simpl in *; [simplify_eq; lia|].
  destruct (checked_add u128_max a x) as [b|] eqn:Hb; [|done].
  apply checked_add_Some in Hb as [-> ?]. apply IH in H as [-> ?]. lia.
Qed.

Lemma remaining_amount_eq f : tiers_left (tiers f) ≤ u128_max → remaining_amount f = tiers_left (tiers f).
Proof.
  unfold remaining_amount.
  assert (∀ l a, a + tiers_left l ≤ u128_max →
    foldl (λ r t, wrapping_add u128_max r (tier_remaining t)) a l = a + tiers_left l) as Hgen.
  { induction l as [|t l IH]; intros a Ha; [by rewrite N.add_0_r|].
    rewrite tiers_left_cons in *. cbn [foldl]. rewrite wrapping_add_small by lia.
    rewrite IH by lia. lia. }
  intros H. rewrite Hgen by lia. lia.
Qed.
End sto.
End Fundraising.
