(* ===== verification/Corporate.v ===== *)
(** Corporate actions (src/pallets/corporate-actions/src): what an issuer
    announces to the holders of an asset, with the record date at which the
    holdings count, capital distributions that pay the holders out of a
    portfolio, and ballots in which they vote. *)

From stdpp Require Import base numbers list gmap sets strings sorting.
From S2P Require Import Prelude Subset AssetIdentifier Types SettlementTypes Schedules CorporateTypes.
From S2P Require Import State ChainState Identity Agents Portfolio Checkpoint Asset Metadata Sorting.
From S2P Require Import ClaimTypes Claims Nft Settlement Fundraising.

Local Open Scope N_scope.

(** The constants of the pallet's [Config], and the multiplication of
    [sp_arithmetic]'s [Permill], a part of the whole. *)
Class CorporateConfig := {
  MaxTargetIds : N;
  MaxDidWhts : N;
  permill_mul : Tax → Balance → Balance;
  permill_mul_le : ∀ tax b, permill_mul tax b ≤ b;
}.

Module Corporate.
Import Sorting.

Definition ecorp {A : Type} (e : CorporateError) : result DispatchError A := Err (ECorporate e).

(* ------------------------------------------------------------------ *)
(** ** Targets and taxes *)

(** [TargetIdentities::dedup]. *)
Definition dedup (t : TargetIdentities) : TargetIdentities :=
  mkTargetIdentities (dedup_by_key id (sort_by_key id (identities t))) (treatment t).

Definition targets (t : TargetIdentities) (d : IdentityId) : bool :=
  eqb (is_include (treatment t))
    match binary_search (identities t) d with inl _ => true | inr _ => false end.

Definition tax_of (ca : CorporateAction) (d : IdentityId) : Tax :=
  match binary_search_by_key fst (withholding_tax ca) d with
  | inl i => match withholding_tax ca !! i with
             | Some w => w.2
             | None => default_withholding_tax ca
             end
  | inr _ => default_withholding_tax ca
  end.

Section ca.
Context {RT : Runtime} {EX : Externals} {CC : CorporateConfig}.

Definition ensure_ca_exists (id : CAId) (c : Chain) : result DispatchError CorporateAction :=
  ok_or (CorporateActions (corporate c) !! id) (ECorporate NoSuchCA).

Definition ensure_target_ids_limited (t : TargetIdentities) : result DispatchError unit :=
  ensure (bool_decide (Base.len (identities t) ≤ MaxTargetIds)) (ECorporate TooManyTargetIds).
Definition ensure_did_whts_limited (n : N) : result DispatchError unit :=
  ensure (bool_decide (n ≤ MaxDidWhts)) (ECorporate TooManyDidTaxes).

Definition ensure_record_date_before_start (ca : CorporateAction) (start : Moment)
    : result DispatchError unit :=
  match record_date ca with
  | Some rd => if bool_decide (date rd ≤ start) then Ok tt else ecorp RecordDateAfterStart
  | None => ecorp NoRecordDate
  end.

Definition ensure_ca_targets (ca : CorporateAction) (d : IdentityId) : result DispatchError unit :=
  ensure (targets (ca_targets ca) d) (ECorporate NotTargetedByCA).

(** [None] is the panic of the [unwrap]. *)
Definition record_date_cp (ca : CorporateAction) (id : CAId) (w : World)
    : option (option CheckpointId) :=
  rd ← record_date ca ;
  Some match ca_checkpoint rd with
       | CAExisting cp => Some cp
       | CAScheduled sid idx =>
           getd [] (SchedulePoints (checkpoint w)) (ca_ticker id, sid) !! N.to_nat idx
       end.

(** [None] is a panic of the search for the balance. *)
Definition balance_at_cp (d : IdentityId) (id : CAId) (cp : option CheckpointId) (w : World)
    : option Balance :=
  match cp with
  | Some cp => Checkpoint.get_balance_at (ca_ticker id) d cp w
  | None => Some (Asset.balance_of (ca_ticker id) d w)
  end.

(** The holding that counts: [balance_at_cp] of [record_date_cp]. *)
Definition record_balance (ca : CorporateAction) (id : CAId) (d : IdentityId) (w : World)
    : option Balance :=
  cp ← record_date_cp ca id w ; balance_at_cp d id cp w.

(* ------------------------------------------------------------------ *)
(** ** Record dates *)

Definition handle_record_date (caller : IdentityId) (t : Ticker) (spec : RecordDateSpec)
    : M RecordDate :=
  match spec with
  | SpecScheduled at_ =>
      '(id, at_) ← Checkpoint.base_create_schedule caller t (mkScheduleCheckpoints [at_]) 1 ;
      mret (mkRecordDate at_ (CAScheduled id 0))
  | SpecExistingSchedule id =>
      '(at_, idx) ← check (Checkpoint.ensure_schedule_next_checkpoint t id) ;
      Checkpoint.inc_schedule_ref t id ;;
      mret (mkRecordDate at_ (CAScheduled id idx))
  | SpecExisting cp =>
      check (λ w, ensure (Checkpoint.checkpoint_exists t cp w) (ECorporate NoSuchCheckpointId)) ;;
      at_ ← gets (λ w, getd 0 (Timestamps (checkpoint w)) (t, cp)) ;
      mret (mkRecordDate at_ (CAExisting cp))
  end.

Definition dec_strong_ref_count (id : CAId) (rd : option RecordDate) : M unit :=
  match rd with
  | Some (mkRecordDate _ (CAScheduled sid _)) => Checkpoint.dec_schedule_ref (ca_ticker id) sid
  | _ => mret tt
  end.

(** The record date of a new corporate action. *)
Definition initial_record_date (caller : IdentityId) (t : Ticker) (decl : Moment)
    (spec : RecordDateSpec) : M RecordDate :=
  rd ← handle_record_date caller t spec ;
  check (λ _, ensure (bool_decide (decl ≤ date rd)) (ECorporate DeclDateAfterRecordDate)) ;;
  mret rd.

(** [map(f).transpose()]. *)
Definition opt_map {A B : Type} (f : A → M B) (o : option A) : M (option B) :=
  match o with
  | Some a => b ← f a ; mret (Some b)
  | None => mret None
  end.

(* ------------------------------------------------------------------ *)
(** ** Corporate actions *)

Definition set_max_details_length (o : Origin) (length : N) : C unit :=
  check (λ _, ensure_root o) ;;
  on_corporate (λ s, s <| MaxDetailsLength := length |>) ;;
  lift (deposit_event (MaxDetailsLengthChanged Claim.GC_DID length)).

Definition set_default_targets (o : Origin) (t : Ticker) (ts : TargetIdentities) : C unit :=
  agent ← lift (check (Agents.ensure_perms o t)) ;
  check (λ _, ensure_target_ids_limited ts) ;;
  let new := dedup ts in
  on_corporate (λ s, s <| DefaultTargetIdentities ::= <[t := new]> |>) ;;
  lift (deposit_event (DefaultTargetIdentitiesChanged agent t new)).

Definition set_default_withholding_tax (o : Origin) (t : Ticker) (tax : Tax) : C unit :=
  agent ← lift (check (Agents.ensure_perms o t)) ;
  on_corporate (λ s, s <| DefaultWithholdingTax ::= <[t := tax]> |>) ;;
  lift (deposit_event (DefaultWithholdingTaxChanged agent t tax)).

(** The override list of a ticker after [set_did_withholding_tax]. *)
Definition change_tax (whts : list (IdentityId * Tax)) (d : IdentityId) (tax : option Tax)
    : result DispatchError (list (IdentityId * Tax)) :=
  match tax, binary_search_by_key fst whts d with
  | Some tax, inl i => Ok (<[i := (d, tax)]> whts)
  | Some tax, inr i =>
      ensure_did_whts_limited (Base.len whts + 1) ;; Ok (vec_insert i (d, tax) whts)
  | None, inl i => Ok (vec_remove i whts)
  | None, inr _ => Ok whts
  end.

Definition set_did_withholding_tax (o : Origin) (t : Ticker) (taxed : IdentityId)
    (tax : option Tax) : C unit :=
  agent ← lift (check (Agents.ensure_perms o t)) ;
  whts ← check (λ c, change_tax (getd [] (DidWithholdingTax (corporate c)) t) taxed tax) ;
  on_corporate (λ s, s <| DidWithholdingTax ::= <[t := whts]> |>) ;;
  lift (deposit_event (DidWithholdingTaxChanged agent t taxed tax)).

(** The overrides given with a corporate action, sorted; a duplicate is an
    error. *)
Definition sorted_taxes (wt : list (IdentityId * Tax))
    : result DispatchError (list (IdentityId * Tax)) :=
  ensure_did_whts_limited (Base.len wt) ;;
  let sorted := dedup_by_key fst (sort_by_key fst wt) in
  ensure (bool_decide (Base.len wt = Base.len sorted)) (ECorporate DuplicateDidTax) ;;
  Ok sorted.

Definition opt_sorted_taxes (wt : option (list (IdentityId * Tax)))
    : result DispatchError (option (list (IdentityId * Tax))) :=
  match wt with
  | Some wt => sorted ← sorted_taxes wt ; Ok (Some sorted)
  | None => Ok None
  end.

Definition unsafe_initiate_corporate_action (caller : IdentityId) (t : Ticker) (kind : CAKind)
    (decl : Moment) (rd : option RecordDateSpec) (details : CADetails)
    (ts : option TargetIdentities) (tax : option Tax)
    (wt : option (list (IdentityId * Tax))) : C CAId :=
  check (λ c, ensure (bool_decide (Base.len details ≤ MaxDetailsLength (corporate c)))
                (ECorporate DetailsTooLong)) ;;
  '(local, next) ← check (λ c, Base.try_next_post u32_max (getd 0 (CAIdSequence (corporate c)) t)) ;
  let id := mkCAId t local in
  wt ← check (λ _, opt_sorted_taxes wt) ;
  check (λ _, match ts with Some ts => ensure_target_ids_limited ts | None => Ok tt end) ;;
  check (λ c, ensure (bool_decide (decl ≤ now (world c))) (ECorporate DeclDateInFuture)) ;;
  rd ← lift (opt_map (λ spec, with_storage_transaction (initial_record_date caller t decl spec)) rd) ;
  on_corporate (λ s, s <| CAIdSequence ::= <[t := next]> |>) ;;
  ca ← gets (λ c, mkCorporateAction kind decl rd
               (match ts with
                | Some ts => dedup ts
                | None => getd TargetIdentities_default (DefaultTargetIdentities (corporate c)) t
                end)
               (match tax with
                | Some tax => tax
                | None => getd 0 (DefaultWithholdingTax (corporate c)) t
                end)
               (match wt with
                | Some wt => wt
                | None => getd [] (DidWithholdingTax (corporate c)) t
                end)) ;
  on_corporate (λ s, s <| CorporateActions ::= <[id := ca]> |> <| Details ::= <[id := details]> |>) ;;
  lift (deposit_event (CAInitiated caller id ca details)) ;;
  mret id.

Definition initiate_corporate_action (o : Origin) (t : Ticker) (kind : CAKind) (decl : Moment)
    (rd : option RecordDateSpec) (details : CADetails) (ts : option TargetIdentities)
    (tax : option Tax) (wt : option (list (IdentityId * Tax))) : C unit :=
  caller ← lift (check (Agents.ensure_perms o t)) ;
  unsafe_initiate_corporate_action caller t kind decl rd details ts tax wt ;;
  mret tt.

Definition link_ca_doc (o : Origin) (id : CAId) (docs : list DocumentId) : C unit :=
  agent ← lift (check (Agents.ensure_perms o (ca_ticker id))) ;
  check (ensure_ca_exists id) ;;
  lift (check (λ w, for_check docs (λ doc, Metadata.ensure_doc_exists (ca_ticker id) doc w))) ;;
  on_corporate (λ s, s <| CADocLink ::= <[id := docs]> |>) ;;
  lift (deposit_event (CALinkedToDoc agent id docs)).

End ca.
End Corporate.

(* ------------------------------------------------------------------ *)
(** * Capital distributions *)

Module Distributing.
Import Corporate.

Section distribution.
Context {RT : Runtime} {EX : Externals} {CC : CorporateConfig}.

Definition ensure_distribution_exists (id : CAId) (c : Chain) : result DispatchError Distribution :=
  ok_or (Distributions (corporate c) !! id) (EDistribution NoSuchDistribution).

(** [now < payment_at]. *)
Definition ensure_distribution_not_started (d : Distribution) (c : Chain)
    : result DispatchError unit :=
  ensure (bool_decide (now (world c) < payment_at d)) (EDistribution DistributionStarted).

Definition ensure_active_distribution (id : CAId) (c : Chain) : result DispatchError Distribution :=
  d ← ensure_distribution_exists id c ;
  ensure (bool_decide (payment_at d ≤ now (world c))) (EDistribution CannotClaimBeforeStart) ;;
  ensure (negb (dist_expired (expires_at d) (now (world c))))
    (EDistribution CannotClaimAfterExpiry) ;;
  Ok d.

Definition unlock (d : Distribution) (amount : Balance) : M unit :=
  Portfolio.unlock_tokens (dist_from d) (currency d) amount.

Definition benefit_of (balance per_share : Balance) : result DispatchError Balance :=
  v ← ok_or (checked_mul u128_max balance per_share)
        (EDistribution BalancePerShareProductOverflowed) ;
  Ok (v / PER_SHARE_PRECISION).

Definition unverified_distribute (agent : IdentityId) (sk : option SecondaryKey) (id : CAId)
    (p : option PortfolioNumber) (cur : Ticker) (share amount : Balance) (payment : Moment)
    (expires : option Moment) : C unit :=
  check (λ _, ensure (negb (bool_decide (amount = 0))) (EDistribution DistributionAmountIsZero)) ;;
  check (λ _, ensure (negb (bool_decide (share = 0))) (EDistribution DistributionPerShareIsZero)) ;;
  check (λ _, ensure (negb (dist_expired expires payment)) (EDistribution ExpiryBeforePayment)) ;;
  check (λ c, ensure (negb (has_key (Distributions (corporate c)) id))
                (EDistribution DistributionAlreadyExists)) ;;
  let from := mkPortfolioId agent (match p with Some n => User n | None => Default end) in
  lift (check (Portfolio.ensure_portfolio_custody_and_permission from agent sk)) ;;
  lift (check (Portfolio.ensure_portfolio_validity from)) ;;
  ca ← check (ensure_ca_exists id) ;
  check (λ _, ensure (is_benefit (ca_kind ca)) (EDistribution CANotBenefit)) ;;
  check (λ _, ensure_record_date_before_start ca payment) ;;
  lift (check (Portfolio.ensure_sufficient_balance from cur amount)) ;;
  lift (external (charge_fees [CapitalDistributionDistribute])) ;;
  lift (Portfolio.unchecked_lock_tokens from cur amount) ;;
  let d := mkDistribution from cur share amount amount false payment expires in
  on_corporate (λ s, s <| Distributions ::= <[id := d]> |>) ;;
  lift (deposit_event (DistributionCreated agent id d)).

Definition base_distribute (o : Origin) (id : CAId) (p : option PortfolioNumber) (cur : Ticker)
    (share amount : Balance) (payment : Moment) (expires : option Moment) : C unit :=
  data ← lift (check (Agents.ensure_agent_asset_perms o (ca_ticker id))) ;
  unverified_distribute (primary_did data) (secondary_key data) id p cur share amount payment
    expires.

(** What a holder gets of a benefit: the tax is withheld, and of an indivisible
    currency only whole units are paid. *)
Definition gain_of (ca : CorporateAction) (holder : IdentityId) (divisible : bool)
    (benefit : Balance) : Balance :=
  let gain := wrapping_sub u128_max benefit (permill_mul (tax_of ca holder) benefit) in
  if divisible then gain else gain / ONE_UNIT * ONE_UNIT.

(** The closure of [with_transaction] in [transfer_benefit]. *)
Definition pay (d : Distribution) (holder actor : IdentityId) (benefit gain : Balance) : M unit :=
  unlock d benefit ;;
  set_meter max_limit_no_minimum ;;
  Asset.base_transfer (dist_from d) (mkPortfolioId holder Default) (currency d) gain None None
    actor.

Definition transfer_benefit (actor holder : IdentityId) (id : CAId) : C unit :=
  check (λ c, ensure (negb (getd false (HolderPaid (corporate c)) (id, holder)))
                (EDistribution HolderAlreadyPaid)) ;;
  d ← check (ensure_active_distribution id) ;
  ca ← check (ensure_ca_exists id) ;
  check (λ _, ensure_ca_targets ca holder) ;;
  balance ← check (λ c, ok_or (record_balance ca id holder (world c)) EPanic) ;
  benefit ← check (λ _, benefit_of balance (per_share d)) ;
  left ← check (λ _, ok_or (checked_sub (remaining d) benefit)
                       (EDistribution InsufficientRemainingAmount)) ;
  let d' := d <| remaining := left |> in
  divisible ← gets (λ c, Asset.is_divisible (currency d) (world c)) ;
  lift (with_storage_transaction
          (pay d' holder actor benefit (gain_of ca holder divisible benefit))) ;;
  on_corporate (λ s, s <| HolderPaid ::= <[(id, holder) := true]> |>) ;;
  on_corporate (λ s, s <| Distributions ::= <[id := d']> |>) ;;
  lift (deposit_event (BenefitClaimed actor holder id d' benefit (tax_of ca holder))).

Definition claim (o : Origin) (id : CAId) : C unit :=
  did ← lift (check (Identity.ensure_perms o)) ;
  transfer_benefit did did id.

Definition push_benefit (o : Origin) (id : CAId) (holder : IdentityId) : C unit :=
  agent ← lift (check (Agents.ensure_perms o (ca_ticker id))) ;
  transfer_benefit agent holder id.

Definition reclaim (o : Origin) (id : CAId) : C unit :=
  data ← lift (check (Agents.ensure_agent_asset_perms o (ca_ticker id))) ;
  let agent := primary_did data in
  d ← check (ensure_distribution_exists id) ;
  check (λ _, ensure (negb (reclaimed d)) (EDistribution AlreadyReclaimed)) ;;
  check (λ c, ensure (dist_expired (expires_at d) (now (world c))) (EDistribution NotExpired)) ;;
  lift (check (Portfolio.ensure_portfolio_custody_and_permission (dist_from d) agent
                 (secondary_key data))) ;;
  lift (unlock d (remaining d)) ;;
  on_corporate (λ s, s <| Distributions ::= <[id := d <| reclaimed := true |> <| remaining := 0 |>]> |>) ;;
  lift (deposit_event (Reclaimed agent id (remaining d))).

Definition unverified_remove_distribution (agent : IdentityId) (id : CAId) (d : Distribution)
    : C unit :=
  check (ensure_distribution_not_started d) ;;
  lift (unlock d (dist_amount d)) ;;
  on_corporate (λ s, s <| Distributions ::= delete id |>) ;;
  lift (deposit_event (DistributionRemoved agent id)).

Definition remove_distribution (o : Origin) (id : CAId) : C unit :=
  agent ← lift (check (Agents.ensure_perms o (ca_ticker id))) ;
  d ← check (ensure_distribution_exists id) ;
  unverified_remove_distribution agent id d.
End distribution.
End Distributing.

(* ------------------------------------------------------------------ *)
(** * Ballots *)

Module Balloting.
Import Corporate.

(** [usize] of the runtime, which is compiled to 32-bit WebAssembly. *)
Definition usize_max : N := u32_max.
Definition u16_max : N := 65535.

(** The number of choices of each motion; [total] is the sum so far. *)
Fixpoint derive_motion_num_choices (total : N) (ms : list Motion) : result DispatchError (list N) :=
  match ms with
  | [] => Ok []
  | m :: ms =>
      let n := Base.len (choices m) in
      total ← ok_or (checked_add usize_max total n) (EBallot NumberOfChoicesOverflow) ;
      ensure (bool_decide (n ≤ u16_max)) (EBallot NumberOfChoicesOverflow) ;;
      l ← derive_motion_num_choices total ms ;
      Ok (n :: l)
  end.

Definition total_choices (counts : list N) : N := foldl (wrapping_add usize_max) 0 counts.

(** The slices of [votes] that belong to the motions. *)
Fixpoint split_motions (counts : list N) (votes : list BallotVote) : list (list BallotVote) :=
  match counts with
  | [] => []
  | n :: counts => take (N.to_nat n) votes :: split_motions counts (drop (N.to_nat n) votes)
  end.

(** A fallback names another choice of the same motion. *)
Definition ensure_fallbacks (votes : list BallotVote) : result DispatchError unit :=
  for_check (imap (λ i v, (N.of_nat i, fallback v)) votes) (λ '(i, f),
    match f with
    | Some f =>
        ensure (negb (bool_decide (i = f))) (EBallot RCVSelfCycle) ;;
        ensure (bool_decide (f < Base.len votes)) (EBallot NoSuchRCVFallback)
    | None => Ok tt
    end).

(** The power used in a motion is within what the voter has. *)
Definition within_power (available : Balance) (votes : list BallotVote) : bool :=
  match Fundraising.checked_sum 0 (power <$> votes) with
  | Some p => bool_decide (p ≤ available)
  | None => false
  end.

(** [for (result, v) in results.iter_mut().zip(votes) { *result = f(result, v.power) }]. *)
Fixpoint zip_power (f : Balance → Balance → Balance) (l : list Balance) (votes : list BallotVote)
    : list Balance :=
  match l, votes with
  | x :: l, v :: votes => f x (power v) :: zip_power f l votes
  | l, _ => l
  end.

Definition tally (results : option (list Balance)) (old new : list BallotVote) : list Balance :=
  match results with
  | Some l => zip_power (wrapping_add u128_max) (zip_power (wrapping_sub u128_max) l old) new
  | None => power <$> new
  end.

Section ballot.
Context {RT : Runtime} {EX : Externals}.

Definition ensure_meta_lengths_limited (meta : BallotMeta) : result DispatchError unit :=
  Base.ensure_string_limited (ballot_title meta) ;;
  for_check (motions meta) (λ m,
    Base.ensure_string_limited (motion_title m) ;;
    Base.ensure_string_limited (info_link m) ;;
    for_check (choices m) Base.ensure_string_limited).

Definition ensure_ballot_not_started (range : BallotTimeRange) (c : Chain)
    : result DispatchError unit :=
  ensure (bool_decide (now (world c) < range_start range)) (EBallot VotingAlreadyStarted).

Definition ensure_ballot_exists (id : CAId) (c : Chain) : result DispatchError BallotTimeRange :=
  ok_or (TimeRanges (corporate c) !! id) (EBallot NoSuchBallot).

Definition ensure_range_consistent (range : BallotTimeRange) : result DispatchError unit :=
  ensure (bool_decide (range_start range ≤ range_end range)) (EBallot StartAfterEnd).

Definition ensure_range_invariant (ca : CorporateAction) (range : BallotTimeRange) (c : Chain)
    : result DispatchError unit :=
  ensure_range_consistent range ;;
  ensure (bool_decide (now (world c) ≤ range_end range)) (EBallot NowAfterEnd) ;;
  ensure_record_date_before_start ca (range_start range).

Definition attach_ballot (o : Origin) (id : CAId) (range : BallotTimeRange) (meta : BallotMeta)
    (rcv : bool) : C unit :=
  agent ← lift (check (Agents.ensure_perms o (ca_ticker id))) ;
  ca ← check (ensure_ca_exists id) ;
  check (λ _, ensure (bool_decide (ca_kind ca = IssuerNotice)) (EBallot CANotNotice)) ;;
  check (ensure_range_invariant ca range) ;;
  check (λ c, ensure (negb (has_key (TimeRanges (corporate c)) id)) (EBallot BallotAlreadyExists)) ;;
  counts ← check (λ _, derive_motion_num_choices 0 (motions meta)) ;
  check (λ _, ensure_meta_lengths_limited meta) ;;
  lift (external (charge_fees [CorporateBallotAttachBallot])) ;;
  on_corporate (λ s, s <| MotionNumChoices ::= <[id := counts]> |>
                       <| TimeRanges ::= <[id := range]> |>
                       <| Metas ::= <[id := meta]> |>
                       <| RCV ::= <[id := rcv]> |>) ;;
  lift (deposit_event (BallotCreated agent id range meta rcv)).

Definition vote (o : Origin) (id : CAId) (votes : list BallotVote) : C unit :=
  did ← lift (check (Identity.ensure_perms o)) ;
  range ← check (ensure_ballot_exists id) ;
  check (λ c, ensure (bool_decide (range_start range ≤ now (world c))) (EBallot VotingNotStarted)) ;;
  check (λ c, ensure (bool_decide (now (world c) ≤ range_end range)) (EBallot VotingAlreadyEnded)) ;;
  ca ← check (ensure_ca_exists id) ;
  check (λ _, ensure_ca_targets ca did) ;;
  counts ← gets (λ c, getd [] (MotionNumChoices (corporate c)) id) ;
  check (λ _, ensure (bool_decide (Base.len votes = total_choices counts)) (EBallot WrongVoteCount)) ;;
  let by_motion := split_motions counts votes in
  rcv ← gets (λ c, getd false (RCV (corporate c)) id) ;
  check (λ _, if rcv : bool then for_check by_motion ensure_fallbacks
              else ensure (forallb (λ v, bool_decide (fallback v = None)) votes)
                     (EBallot RCVNotAllowed)) ;;
  available ← check (λ c, ok_or (record_balance ca id did (world c)) EPanic) ;
  check (λ _, ensure (forallb (within_power available) by_motion) (EBallot InsufficientVotes)) ;;
  on_corporate (λ s,
    let old := getd [] (Votes s) (id, did) in
    s <| Results ::= λ m, <[id := tally (m !! id) old votes]> m |>
      <| Votes ::= <[(id, did) := votes]> |>) ;;
  lift (deposit_event (VoteCast did id votes)).

Definition change_end (o : Origin) (id : CAId) (end_ : Moment) : C unit :=
  agent ← lift (check (Agents.ensure_perms o (ca_ticker id))) ;
  range ← check (ensure_ballot_exists id) ;
  check (ensure_ballot_not_started range) ;;
  let range := range <| range_end := end_ |> in
  check (λ _, ensure_range_consistent range) ;;
  on_corporate (λ s, s <| TimeRanges ::= <[id := range]> |>) ;;
  lift (deposit_event (RangeChanged agent id range)).

Definition change_meta (o : Origin) (id : CAId) (meta : BallotMeta) : C unit :=
  agent ← lift (check (Agents.ensure_perms o (ca_ticker id))) ;
  range ← check (ensure_ballot_exists id) ;
  check (ensure_ballot_not_started range) ;;
  counts ← check (λ _, derive_motion_num_choices 0 (motions meta)) ;
  check (λ _, ensure_meta_lengths_limited meta) ;;
  on_corporate (λ s, s <| MotionNumChoices ::= <[id := counts]> |> <| Metas ::= <[id := meta]> |>) ;;
  lift (deposit_event (MetaChanged agent id meta)).

Definition change_rcv (o : Origin) (id : CAId) (rcv : bool) : C unit :=
  agent ← lift (check (Agents.ensure_perms o (ca_ticker id))) ;
  range ← check (ensure_ballot_exists id) ;
  check (ensure_ballot_not_started range) ;;
  on_corporate (λ s, s <| RCV ::= <[id := rcv]> |>) ;;
  lift (deposit_event (RCVChanged agent id rcv)).

Definition remove_ballot_base (agent : IdentityId) (id : CAId) (range : BallotTimeRange) : C unit :=
  check (ensure_ballot_not_started range) ;;
  on_corporate (λ s, s <| TimeRanges ::= delete id |> <| Metas ::= delete id |>
                       <| MotionNumChoices ::= delete id |> <| RCV ::= delete id |>) ;;
  lift (deposit_event (BallotRemoved agent id)).

Definition remove_ballot (o : Origin) (id : CAId) : C unit :=
  agent ← lift (check (Agents.ensure_perms o (ca_ticker id))) ;
  range ← check (ensure_ballot_exists id) ;
  remove_ballot_base agent id range.
End ballot.
End Balloting.

(* ------------------------------------------------------------------ *)
(** * The calls that reach into distributions and ballots *)

Module CorporateCalls.
Import Corporate Distributing Balloting.

Section calls.
Context {RT : Runtime} {EX : Externals} {CC : CorporateConfig}.

(** The ballot or the distribution of an action that is removed. *)
Definition remove_services (agent : IdentityId) (id : CAId) (ca : CorporateAction) : C unit :=
  match ca_kind ca with
  | CAOther | Reorganization => mret tt
  | IssuerNotice =>
      range ← gets (λ c, TimeRanges (corporate c) !! id) ;
      match range with
      | Some range => remove_ballot_base agent id range
      | None => mret tt
      end
  | PredictableBenefit | UnpredictableBenefit =>
      d ← gets (λ c, Distributions (corporate c) !! id) ;
      match d with
      | Some d => unverified_remove_distribution agent id d
      | None => mret tt
      end
  end.

Definition remove_ca (o : Origin) (id : CAId) : C unit :=
  agent ← lift (check (Agents.ensure_perms o (ca_ticker id))) ;
  ca ← check (ensure_ca_exists id) ;
  remove_services agent id ca ;;
  lift (dec_strong_ref_count id (record_date ca)) ;;
  on_corporate (λ s, s <| CorporateActions ::= delete id |> <| CADocLink ::= delete id |>
                       <| Details ::= delete id |>) ;;
  lift (deposit_event (CARemoved agent id)).

(** The services of an action allow its record date. *)
Definition ensure_services_allow (id : CAId) (ca : CorporateAction) (c : Chain)
    : result DispatchError unit :=
  match ca_kind ca with
  | CAOther | Reorganization => Ok tt
  | IssuerNotice =>
      match TimeRanges (corporate c) !! id with
      | Some range =>
          ensure_record_date_before_start ca (range_start range) ;;
          ensure_ballot_not_started range c
      | None => Ok tt
      end
  | PredictableBenefit | UnpredictableBenefit =>
      match Distributions (corporate c) !! id with
      | Some d =>
          ensure_record_date_before_start ca (payment_at d) ;;
          ensure_distribution_not_started d c
      | None => Ok tt
      end
  end.

Definition change_record_date (o : Origin) (id : CAId) (spec : option RecordDateSpec) : C unit :=
  caller ← lift (check (Agents.ensure_perms o (ca_ticker id))) ;
  ca ← check (ensure_ca_exists id) ;
  ca' ← with_transaction (
    lift (dec_strong_ref_count id (record_date ca)) ;;
    rd ← lift (opt_map (handle_record_date caller (ca_ticker id)) spec) ;
    let ca' := ca <| record_date := rd |> in
    check (ensure_services_allow id ca') ;;
    mret ca') ;
  on_corporate (λ s, s <| CorporateActions ::= <[id := ca']> |>) ;;
  lift (deposit_event (RecordDateChanged caller id ca')).

Definition initiate_corporate_action_and_distribute (o : Origin) (args : InitiateCorporateActionArgs)
    (p : option PortfolioNumber) (cur : Ticker) (share amount : Balance) (payment : Moment)
    (expires : option Moment) : C unit :=
  data ← lift (check (Agents.ensure_agent_asset_perms o (ia_ticker args))) ;
  with_transaction (
    id ← unsafe_initiate_corporate_action (primary_did data) (ia_ticker args) (ia_kind args)
           (ia_decl_date args) (ia_record_date args) (ia_details args) (ia_targets args)
           (ia_default_withholding_tax args) (ia_withholding_tax args) ;
    unverified_distribute (primary_did data) (secondary_key data) id p cur share amount payment
      expires).

(** The calls of the three pallets. *)
Inductive call : Type :=
  | SetMaxDetailsLength (length : N)
  | SetDefaultTargets (t : Ticker) (ts : TargetIdentities)
  | SetDefaultWithholdingTax (t : Ticker) (tax : Tax)
  | SetDidWithholdingTax (t : Ticker) (taxed : IdentityId) (tax : option Tax)
  | InitiateCorporateAction (t : Ticker) (kind : CAKind) (decl : Moment)
      (rd : option RecordDateSpec) (details : CADetails) (ts : option TargetIdentities)
      (tax : option Tax) (wt : option (list (IdentityId * Tax)))
  | LinkCaDoc (id : CAId) (docs : list DocumentId)
  | RemoveCa (id : CAId)
  | ChangeRecordDate (id : CAId) (spec : option RecordDateSpec)
  | InitiateAndDistribute (args : InitiateCorporateActionArgs) (p : option PortfolioNumber)
      (cur : Ticker) (share amount : Balance) (payment : Moment) (expires : option Moment)
  | Distribute (id : CAId) (p : option PortfolioNumber) (cur : Ticker) (share amount : Balance)
      (payment : Moment) (expires : option Moment)
  | Claim (id : CAId)
  | PushBenefit (id : CAId) (holder : IdentityId)
  | Reclaim (id : CAId)
  | RemoveDistribution (id : CAId)
  | AttachBallot (id : CAId) (range : BallotTimeRange) (meta : BallotMeta) (rcv : bool)
  | Vote (id : CAId) (votes : list BallotVote)
  | ChangeEnd (id : CAId) (end_ : Moment)
  | ChangeMeta (id : CAId) (meta : BallotMeta)
  | ChangeRcv (id : CAId) (rcv : bool)
  | RemoveBallot (id : CAId).

Definition dispatch (o : Origin) (c : call) : C unit :=
  match c with
  | SetMaxDetailsLength n => set_max_details_length o n
  | SetDefaultTargets t ts => set_default_targets o t ts
  | SetDefaultWithholdingTax t tax => set_default_withholding_tax o t tax
  | SetDidWithholdingTax t d tax => set_did_withholding_tax o t d tax
  | InitiateCorporateAction t k decl rd ds ts tax wt =>
      initiate_corporate_action o t k decl rd ds ts tax wt
  | LinkCaDoc id docs => link_ca_doc o id docs
  | RemoveCa id => remove_ca o id
  | ChangeRecordDate id spec => change_record_date o id spec
  | InitiateAndDistribute args p cur share amount payment expires =>
      initiate_corporate_action_and_distribute o args p cur share amount payment expires
  | Distribute id p cur share amount payment expires =>
      base_distribute o id p cur share amount payment expires
  | Claim id => claim o id
  | PushBenefit id holder => push_benefit o id holder
  | Reclaim id => reclaim o id
  | RemoveDistribution id => remove_distribution o id
  | AttachBallot id range meta rcv => attach_ballot o id range meta rcv
  | Vote id votes => vote o id votes
  | ChangeEnd id e => change_end o id e
  | ChangeMeta id meta => change_meta o id meta
  | ChangeRcv id rcv => change_rcv o id rcv
  | RemoveBallot id => remove_ballot o id
  end.
End calls.
End CorporateCalls.
