(* ===== verification/SettlementInv.v ===== *)
(** The invariant of the settlement pallet: the pending counts, the states of
    the legs, and the locks that stand behind affirmed legs. *)

From stdpp Require Import base numbers list gmap sets strings sorting.
From S2P Require Import Prelude Subset AssetIdentifier Types SettlementTypes Schedules State.
From S2P Require Import Identity Agents Portfolio Checkpoint Asset Nft Ledger Settlement.

Local Open Scope N_scope.

Module SettlementInv.
Import Settlement.

(* ------------------------------------------------------------------ *)
(** ** Locks as units

    What is locked is counted per unit key: a ticker of a portfolio, or one
    NFT of it. *)
Definition UnitKey : Type := PortfolioId * Ticker * option NFTId.

Definition locked_units (s : PortfolioStore) (k : UnitKey) : N :=
  match k with
  | (p, t, None) => getd 0 (PortfolioLockedAssets s) (p, t)
  | (p, t, Some i) => if has_key (PortfolioLockedNFT s) (p, (t, i)) then 1 else 0
  end.

Fixpoint occurrences (i : NFTId) (ids : list NFTId) : N :=
  match ids with
  | [] => 0
  | j :: ids => (if decide (j = i) then 1 else 0) + occurrences i ids
  end.

Definition leg_units (leg : Leg) (k : UnitKey) : N :=
  match leg, k with
  | Fungible s _ t amount, (p, t', None) => if decide (s = p ∧ t = t') then amount else 0
  | NonFungibleLeg s _ nfts, (p, t', Some i) =>
      if decide (s = p ∧ nfts_ticker nfts = t') then occurrences i (nfts_ids nfts) else 0
  | _, _ => 0
  end.

(** The store after locking or unlocking a leg. *)
Definition lock_store (leg : Leg) (s : PortfolioStore) : PortfolioStore :=
  match leg with
  | Fungible p _ t amount =>
      s <| PortfolioLockedAssets ::= λ m,
             <[(p, t) := saturating_add u128_max (getd 0 m (p, t)) amount]> m |>
  | NonFungibleLeg p _ nfts =>
      s <| PortfolioLockedNFT ::= λ m,
             foldl (λ m i, <[(p, (nfts_ticker nfts, i)) := true]> m) m (nfts_ids nfts) |>
  | OffChain _ _ _ _ => s
  end.

Definition unlock_store (leg : Leg) (s : PortfolioStore) : PortfolioStore :=
  match leg with
  | Fungible p _ t amount =>
      s <| PortfolioLockedAssets ::= λ m, <[(p, t) := getd 0 m (p, t) - amount]> m |>
  | NonFungibleLeg p _ nfts =>
      s <| PortfolioLockedNFT ::= λ m,
             foldl (λ m i, delete (p, (nfts_ticker nfts, i)) m) m (nfts_ids nfts) |>
  | OffChain _ _ _ _ => s
  end.

(** Units that are locked for something else than a leg: what other pallets, the
    fundraisers, hold in the portfolios. *)
Class Reserved := reserved : UnitKey → N.
Definition nothing_reserved : Reserved := λ _, 0.

Section inv.
Context {RT : Runtime} {EX : Externals} {SC : SettlementConfig} {RS : Reserved}.

Lemma lock_nfts_Ok p t ids w w' :
  for_each ids (Portfolio.lock_nft p t) w = (Ok tt, w') →
  w' = w <| portfolio ::= λ s, s <| PortfolioLockedNFT ::= λ m,
         foldl (λ m i, <[(p, (t, i)) := true]> m) m ids |> |> ∧
  ∀ k, locked_units (portfolio w') k =
       locked_units (portfolio w) k + leg_units (NonFungibleLeg p p (mkNFTs t ids)) k.
Proof.
  revert w. induction ids as [|i ids IH]; intros w; simpl.
  { intros H. ok_inv. split; [by destruct w as [? ? ? ? ? ? ? [] ? ? ? ?]|].
    intros [[p' t'] [i|]]; simpl; [case_decide|]; lia. }
  intros H. ok_inv.
  match goal with H : Portfolio.lock_nft _ _ _ _ = _ |- _ =>
    apply Portfolio.lock_nft_Ok in H as (_ & Hun & ->) end.
  apply IH in H as [-> Hk]. split; [done|]. intros k. rewrite Hk.
  destruct k as [[p' t'] [j|]]; simpl; [|lia].
  unfold Portfolio.nft_locked in Hun. unfold has_key in *. rewrite lookup_insert.
  destruct (decide (p = p' ∧ t = t')) as [[-> ->]|Hne].
  - destruct (decide (i = j)) as [->|Hij].
    + rewrite decide_True by done. rewrite bool_decide_eq_true_2 by done.
      rewrite Hun. lia.
    + rewrite decide_False by congruence. lia.
  - rewrite decide_False by naive_solver. lia.
Qed.

(** Locking a leg adds its units; it needs the invariant of the balances, so
    that the saturating addition is exact. *)
Lemma lock_via_leg_Ok leg w w' :
  Portfolio.balances_ok (portfolio w) → lock_via_leg leg w = (Ok tt, w') →
  w' = w <| portfolio ::= lock_store leg |> ∧
  Portfolio.balances_ok (portfolio w') ∧
  ∀ k, locked_units (portfolio w') k = locked_units (portfolio w) k + leg_units leg k.
Proof.
  intros Hok. destruct leg as [p r t amount|p r nfts|]; simpl; [| |by intros H; ok_inv].
  - intros [Hs ->]%Portfolio.lock_tokens_Ok.
    apply Portfolio.ensure_sufficient_balance_Ok in Hs as [_ Hs].
    pose proof (Portfolio.ok_locked _ Hok (p, t)) as Hl.
    pose proof (Portfolio.ok_width _ Hok (p, t)) as Hw.
    unfold Portfolio.locked_assets, Portfolio.portfolio_asset_balances in Hs.
    assert (getd 0 (PortfolioLockedAssets (portfolio w)) (p, t) + amount ≤
      getd 0 (PortfolioAssetBalances (portfolio w)) (p, t)) as Hle.
    { destruct (decide (0 < amount)) as [Hpos|]; [specialize (Hs Hpos)|]; lia. }
    split_and!; [done| |].
    + apply Portfolio.balances_ok_lock; [done|by left].
    + intros [[p' t'] [i|]]; simpl; [lia|]. rewrite getd_insert.
      rewrite saturating_add_small by lia. repeat case_decide; simplify_eq; naive_solver lia.
  - intros H. apply with_storage_transaction_Ok in H.
    apply lock_nfts_Ok in H as [-> Hk]. split_and!; [done| |].
    + destruct Hok. by constructor.
    + intros k. rewrite Hk. by destruct nfts, k as [[] []].
Qed.

Lemma unlock_nfts_run p t ids w :
  (∀ k, leg_units (NonFungibleLeg p p (mkNFTs t ids)) k ≤ locked_units (portfolio w) k) →
  let w' := w <| portfolio ::= λ s, s <| PortfolioLockedNFT ::= λ m,
              foldl (λ m i, delete (p, (t, i)) m) m ids |> |> in
  for_each ids (Portfolio.unlock_nft p t) w = (Ok tt, w') ∧
  ∀ k, locked_units (portfolio w') k =
       locked_units (portfolio w) k - leg_units (NonFungibleLeg p p (mkNFTs t ids)) k.
Proof.
  revert w. induction ids as [|i ids IH]; intros w Hk; simpl.
  { split; [by destruct w as [? ? ? ? ? ? ? [] ? ? ? ?]|].
    intros [[p' t'] [i|]]; simpl; [case_decide|]; lia. }
  pose proof (Hk (p, t, Some i)) as Hi. simpl in Hi. rewrite !decide_True in Hi by done.
  assert (Portfolio.nft_locked p t i w = true) as Hlk.
  { unfold Portfolio.nft_locked. destruct (has_key _ _); [done|lia]. }
  assert (∀ k, leg_units (NonFungibleLeg p p (mkNFTs t ids)) k ≤ locked_units
    (portfolio (w <| portfolio ::= λ s, s <| PortfolioLockedNFT ::= delete (p, (t, i)) |> |>)) k ∧
    locked_units (portfolio (w <| portfolio ::= λ s,
      s <| PortfolioLockedNFT ::= delete (p, (t, i)) |> |>)) k +
      (if decide (k = (p, t, Some i)) then 1 else 0) = locked_units (portfolio w) k) as Hrest.
  { intros [[p' t'] [j|]]; specialize (Hk (p', t', None)) as Hk0.
    - specialize (Hk (p', t', Some j)). simpl in *. unfold has_key in *. rewrite lookup_delete.
      unfold Portfolio.nft_locked, has_key in Hlk.
      destruct (decide (p = p' ∧ t = t')) as [[<- <-]|Hne].
      + destruct (decide (i = j)) as [<-|Hij].
        * rewrite !decide_True in * by done. rewrite Hlk in *.
          rewrite bool_decide_eq_false_2 by (by intros [? ?]). lia.
        * rewrite (decide_False (P := (p, (t, i)) = _)) by congruence.
          rewrite decide_False by congruence. lia.
      + rewrite !decide_False by naive_solver. lia.
    - simpl. rewrite decide_False by congruence. lia. }
  destruct (IH (w <| portfolio ::= λ s, s <| PortfolioLockedNFT ::= delete (p, (t, i)) |> |>))
    as [Hr Hu]; [intros k; apply Hrest|].
  split.
  - unfold mbind, SE_bind. rewrite Portfolio.unlock_nft_run by done. exact Hr.
  - intros k. simpl in Hu. rewrite Hu. pose proof (proj2 (Hrest k)) as Hk'. simpl in Hk'.
    destruct k as [[p' t'] [j|]]; simpl in *.
    + destruct (decide (p = p' ∧ t = t')) as [[-> ->]|Hne].
      * destruct (decide (i = j)) as [->|Hij];
          [rewrite decide_True in Hk' by done|rewrite decide_False in Hk' by congruence]; lia.
      * rewrite decide_False in Hk' by naive_solver. lia.
    + lia.
Qed.

(** Unlocking a leg whose units are locked succeeds and takes them away. *)
Lemma unlock_via_leg_run leg w :
  is_off_chain leg = false →
  (∀ k, leg_units leg k ≤ locked_units (portfolio w) k) →
  unlock_via_leg leg w = (Ok tt, w <| portfolio ::= unlock_store leg |>) ∧
  ∀ k, locked_units (unlock_store leg (portfolio w)) k =
       locked_units (portfolio w) k - leg_units leg k.
Proof.
  intros Hoff Hk. destruct leg as [p r t amount|p r nfts|]; [| |done].
  - pose proof (Hk (p, t, None)) as H0. simpl in H0. rewrite decide_True in H0 by done.
    split; [by apply Portfolio.unlock_tokens_run|].
    intros [[p' t'] [i|]]; simpl; [lia|]. rewrite getd_insert.
    repeat case_decide; simplify_eq; naive_solver lia.
  - destruct nfts as [t ids].
    destruct (unlock_nfts_run p t ids w) as [Hr Hu].
    { intros k. specialize (Hk k). by destruct k as [[] []]. }
    split.
    + simpl. unfold with_storage_transaction. by rewrite Hr.
    + intros k. specialize (Hu k). by destruct k as [[] []].
Qed.

Lemma unlock_via_leg_Ok leg w w' :
  unlock_via_leg leg w = (Ok tt, w') →
  is_off_chain leg = false ∧ w' = w <| portfolio ::= unlock_store leg |>.
Proof.
  destruct leg as [p r t amount|p r nfts|]; simpl; [| |by intros H; ok_inv].
  - intros [_ ->]%Portfolio.unlock_tokens_Ok. done.
  - intros H. split; [done|]. apply with_storage_transaction_Ok in H. destruct nfts as [t ids].
    simpl in *. revert w H. induction ids as [|i ids IH]; intros w; simpl.
    { intros H. ok_inv. by destruct w as [? ? ? ? ? ? ? [] ? ? ? ?]. }
    intros H. ok_inv.
    match goal with H : Portfolio.unlock_nft _ _ _ _ = _ |- _ =>
      apply Portfolio.unlock_nft_Ok in H as [_ ->] end.
    by apply IH in H as ->.
Qed.

Lemma unlock_store_balances_ok leg s :
  Portfolio.balances_ok s → Portfolio.balances_ok (unlock_store leg s).
Proof.
  intros Hok. destruct leg as [p r t amount|p r nfts|]; simpl; [| |done].
  - by apply Portfolio.balances_ok_unlock.
  - destruct Hok. by constructor.
Qed.

(* ------------------------------------------------------------------ *)
(** ** The units that stand behind affirmed legs *)

Definition pending_units (legs : gmap (InstructionId * LegId) Leg)
    (st : gmap (InstructionId * LegId) LegStatus) (k : UnitKey) : N :=
  msum (λ il leg, if decide (getd PendingTokenLock st il = ExecutionPending)
                  then leg_units leg k else 0) legs.

(** The locks of the portfolios cover the affirmed legs and what is reserved. *)
Definition locks_ok (w : World) : Prop :=
  ∀ k, pending_units (InstructionLegs (settlement w)) (InstructionLegStatus (settlement w)) k
       + reserved k ≤ locked_units (portfolio w) k.

(** Changing the status of one leg. *)
Lemma pending_units_status legs st il leg v k :
  legs !! il = Some leg →
  pending_units legs (<[il := v]> st) k +
    (if decide (getd PendingTokenLock st il = ExecutionPending) then leg_units leg k else 0) =
  pending_units legs st k + (if decide (v = ExecutionPending) then leg_units leg k else 0).
Proof.
  intros Hl. unfold pending_units. rewrite !(msum_lookup _ legs il leg) by done.
  rewrite getd_insert_eq.
  rewrite (msum_ext _ (λ il leg, if decide (getd PendingTokenLock st il = ExecutionPending)
                  then leg_units leg k else 0) (delete il legs)); [lia|].
  intros il' leg' [Hne _]%lookup_delete_Some. by rewrite getd_insert_ne.
Qed.

(** One leg's units are among the pending ones. *)
Lemma pending_units_leg legs st il leg k :
  legs !! il = Some leg → getd PendingTokenLock st il = ExecutionPending →
  leg_units leg k ≤ pending_units legs st k.
Proof.
  intros Hl Hst. unfold pending_units. rewrite (msum_lookup _ legs il leg) by done.
  rewrite decide_True by done. lia.
Qed.

Lemma pending_units_locked w il leg k :
  locks_ok w → InstructionLegs (settlement w) !! il = Some leg →
  getd PendingTokenLock (InstructionLegStatus (settlement w)) il = ExecutionPending →
  leg_units leg k ≤ locked_units (portfolio w) k.
Proof.
  intros Hl Hleg Hst. specialize (Hl k).
  pose proof (pending_units_leg _ _ _ _ k Hleg Hst). lia.
Qed.

(* ------------------------------------------------------------------ *)
(** ** Sums over lists, and maps after a run of insertions *)

Fixpoint lsum {X : Type} (f : X → N) (l : list X) : N :=
  match l with [] => 0 | x :: l => f x + lsum f l end.

Lemma lsum_const {X} (f : X → N) c l :
  (∀ x, x ∈ l → f x = c) → lsum f l = c * N.of_nat (length l).
Proof.
  induction l as [|x l IH]; intros Hc; simpl; [lia|].
  rewrite IH, (Hc x); [lia|by left|]. intros y Hy. apply Hc. by right.
Qed.

Lemma lookup_insert_all {X K V} `{Countable K} (v : V) (f : X → K) l (m : gmap K V) k :
  insert_all v f l m !! k = if decide (k ∈ f <$> l) then Some v else m !! k.
Proof.
  unfold insert_all. revert m. induction l as [|x l IH]; intros m; cbn [foldl fmap list_fmap].
  { rewrite decide_False; [done|]. apply not_elem_of_nil. }
  rewrite IH, lookup_insert. destruct (decide (k ∈ f <$> l)) as [Hin|Hnin].
  - rewrite decide_True; [done|]. by right.
  - destruct (decide (f x = k)) as [<-|Hne].
    + rewrite decide_True; [done|]. by left.
    + rewrite decide_False; [done|]. rewrite elem_of_cons. intros [->|]; done.
Qed.

Lemma getd_insert_all {X K V} `{Countable K} d (v : V) (f : X → K) l (m : gmap K V) k :
  getd d (insert_all v f l m) k = if decide (k ∈ f <$> l) then v else getd d m k.
Proof. unfold getd. rewrite lookup_insert_all. by case_decide. Qed.

Lemma msum_insert_all {X K V} `{Countable K} (g : K → V → N) d (v : V) (f : X → K) l
    (m : gmap K V) :
  (∀ k, g k d = 0) → NoDup (f <$> l) →
  msum g (insert_all v f l m) + lsum (λ x, g (f x) (getd d m (f x))) l =
  msum g m + lsum (λ x, g (f x) v) l.
Proof.
  intros Hd. unfold insert_all. revert m.
  induction l as [|x l IH]; intros m Hnd; cbn [foldl lsum]; [lia|].
  cbn in Hnd. apply NoDup_cons in Hnd as [Hx Hnd].
  specialize (IH (<[f x := v]> m) Hnd). pose proof (msum_insert d g m (f x) v (Hd _)) as Hi.
  assert (lsum (λ y, g (f y) (getd d (<[f x := v]> m) (f y))) l =
          lsum (λ y, g (f y) (getd d m (f y))) l) as Heq.
  { clear -Hx. induction l as [|y l IHl]; [done|]. cbn [lsum fmap list_fmap] in *.
    rewrite elem_of_cons in Hx. rewrite getd_insert_ne by naive_solver.
    rewrite IHl by naive_solver. done. }
  rewrite Heq in IH. lia.
Qed.

(* ------------------------------------------------------------------ *)
(** ** The pending count *)

(** The entries of an instruction's party, off-chain and mediator
    affirmations that are still pending. *)
Definition pending_party (id : InstructionId) (k : PortfolioId * InstructionId)
    (v : AffirmationStatus) : N := if decide (k.2 = id ∧ v = AffPending) then 1 else 0.
Definition pending_off (id : InstructionId) (k : InstructionId * LegId)
    (v : AffirmationStatus) : N := if decide (k.1 = id ∧ v = AffPending) then 1 else 0.
Definition pending_mediator (id : InstructionId) (k : InstructionId * IdentityId)
    (v : MediatorAffirmationStatus) : N := if decide (k.1 = id ∧ v = MedPending) then 1 else 0.

Definition pending_total (s : SettlementStore) (id : InstructionId) : N :=
  msum (pending_party id) (UserAffirmations s) + msum (pending_off id) (OffChainAffirmations s)
  + msum (pending_mediator id) (InstructionMediatorsAffirmations s).

(** Fewer than [2^64] affirmations are stored. *)
Definition affirmations_fit (s : SettlementStore) : Prop :=
  N.of_nat (size (UserAffirmations s)) + N.of_nat (size (OffChainAffirmations s)) +
  N.of_nat (size (InstructionMediatorsAffirmations s)) ≤ u64_max.

Lemma pending_total_fits s id : affirmations_fit s → pending_total s id ≤ u64_max.
Proof.
  unfold affirmations_fit, pending_total. intros Hfit.
  pose proof (msum_le_size (pending_party id) (UserAffirmations s)) as H1.
  pose proof (msum_le_size (pending_off id) (OffChainAffirmations s)) as H2.
  pose proof (msum_le_size (pending_mediator id) (InstructionMediatorsAffirmations s)) as H3.
  unfold pending_party, pending_off, pending_mediator in *.
  specialize (H1 ltac:(intros; case_decide; lia)).
  specialize (H2 ltac:(intros; case_decide; lia)).
  specialize (H3 ltac:(intros; case_decide; lia)). lia.
Qed.

(* ------------------------------------------------------------------ *)
(** ** The invariant *)

(** An instruction that can still be affirmed and executed. *)
Definition live (s : SettlementStore) (id : InstructionId) : Prop :=
  InstructionStatuses s !! id = Some StatusPending ∨
  InstructionStatuses s !! id = Some StatusFailed.

Definition user_aff (s : SettlementStore) (p : PortfolioId) (id : InstructionId)
    : AffirmationStatus := getd AffUnknown (UserAffirmations s) (p, id).
Definition off_aff (s : SettlementStore) (id : InstructionId) (l : LegId)
    : AffirmationStatus := getd AffUnknown (OffChainAffirmations s) (id, l).
Definition leg_status (s : SettlementStore) (id : InstructionId) (l : LegId) : LegStatus :=
  getd PendingTokenLock (InstructionLegStatus s) (id, l).

(** The status of a leg follows the affirmation of its sender, or of its
    receipt when it is off-chain. *)
Definition leg_ok (s : SettlementStore) (id : InstructionId) (l : LegId) (leg : Leg) : Prop :=
  match leg with
  | Fungible p r _ _ | NonFungibleLeg p r _ =>
      (user_aff s p id = Affirmed ∧ leg_status s id l = ExecutionPending ∨
       user_aff s p id = AffPending ∧ leg_status s id l = PendingTokenLock) ∧
      user_aff s r id ≠ AffUnknown
  | OffChain _ _ _ _ =>
      off_aff s id l = Affirmed ∧ (∃ a u, leg_status s id l = ExecutionToBeSkipped a u) ∨
      off_aff s id l = AffPending ∧ leg_status s id l = PendingTokenLock
  end.

Record settle_ok (s : SettlementStore) : Prop := {
  so_pending : ∀ id, getd 0 (InstructionAffirmsPending s) id = pending_total s id;
  so_leg : ∀ id l leg, InstructionLegs s !! (id, l) = Some leg → leg_ok s id l leg;
  so_party : ∀ p id, is_Some (UserAffirmations s !! (p, id)) →
    ∃ l leg, InstructionLegs s !! (id, l) = Some leg ∧ leg_party leg p;
  so_off : ∀ id l, is_Some (OffChainAffirmations s !! (id, l)) →
    ∃ leg, InstructionLegs s !! (id, l) = Some leg ∧ is_off_chain leg = true;
  so_status : ∀ id l, is_Some (InstructionLegStatus s !! (id, l)) →
    is_Some (InstructionLegs s !! (id, l));
  so_live : ∀ id l, is_Some (InstructionLegs s !! (id, l)) → live s id;
  so_mediator : ∀ id d m, InstructionMediatorsAffirmations s !! (id, d) = Some m →
    live s id ∧ m ≠ MedUnknown;
  so_fresh : (∀ id l, is_Some (InstructionLegs s !! (id, l)) → id < InstructionCounter s) ∧
    ∀ id d, is_Some (InstructionMediatorsAffirmations s !! (id, d)) → id < InstructionCounter s;
}.

(* ------------------------------------------------------------------ *)
(** ** What settlement leaves alone when it moves nothing *)

Record locks_only (w w' : World) : Prop := {
  lo_block : block_number w' = block_number w;
  lo_now : now w' = now w;
  lo_identity : identity w' = identity w;
  lo_agents : agents w' = agents w;
  lo_asset : asset w' = asset w;
  lo_checkpoint : checkpoint w' = checkpoint w;
  lo_nft : nft w' = nft w;
  lo_portfolio : ∃ la ln, portfolio w' =
    (portfolio w) <| PortfolioLockedAssets := la |> <| PortfolioLockedNFT := ln |>;
}.

#[global] Instance locks_only_preorder : PreOrder locks_only.
Proof.
  split.
  - intros w. constructor; try done.
    exists (PortfolioLockedAssets (portfolio w)), (PortfolioLockedNFT (portfolio w)).
    by destruct (portfolio w).
  - intros w1 w2 w3 [] []. constructor; try congruence.
    destruct lo_portfolio0 as (la & ln & E1), lo_portfolio1 as (la' & ln' & E2).
    exists la', ln'. by rewrite E2, E1.
Qed.

Lemma locks_only_lock leg w : locks_only w (w <| portfolio ::= lock_store leg |>).
Proof.
  constructor; try done.
  exists (PortfolioLockedAssets (lock_store leg (portfolio w))),
    (PortfolioLockedNFT (lock_store leg (portfolio w))).
  simpl. by destruct leg, (portfolio w).
Qed.

Lemma locks_only_unlock leg w : locks_only w (w <| portfolio ::= unlock_store leg |>).
Proof.
  constructor; try done.
  exists (PortfolioLockedAssets (unlock_store leg (portfolio w))),
    (PortfolioLockedNFT (unlock_store leg (portfolio w))).
  simpl. by destruct leg, (portfolio w).
Qed.

Lemma locks_only_settlement f w : locks_only w (w <| settlement ::= f |>).
Proof.
  constructor; try done.
  exists (PortfolioLockedAssets (portfolio w)), (PortfolioLockedNFT (portfolio w)).
  simpl. by destruct (portfolio w).
Qed.

(** The books do not depend on what settlement writes, locks apart. *)
Lemma locks_only_ledger w w' :
  Ledger.ledger_ok w → locks_only w w' → Portfolio.balances_ok (portfolio w') →
  Ledger.ledger_ok w' ∧ Checkpoint.keeps_history w w'.
Proof.
  intros [Ha Hat Hp Hc Hs Hn] [_ _ _ EG EA EC EN (la & ln & EP)] Hb. split.
  - constructor; rewrite ?EG, ?EA, ?EC; try done.
    + destruct Hp as [_ [] Hcu]. constructor; [done|..]; rewrite EP; [by constructor|done].
    + apply (Asset.supply_ok_ext w); [done|..]; unfold Asset.supply; rewrite ?EA, ?EP; done.
    + apply (Nft.nft_ok_frame w); [done..|by rewrite EP].
  - apply Checkpoint.quiet_history.
    constructor; unfold Checkpoint.last_cp; rewrite ?EA, ?EC; try done; lia.
Qed.

(* ------------------------------------------------------------------ *)
(** ** The loops over the legs *)

(** The legs of [il]s are stored under [id]. *)
Definition legs_at (s : SettlementStore) (id : InstructionId) (ils : list (LegId * Leg)) : Prop :=
  ∀ l leg, (l, leg) ∈ ils → InstructionLegs s !! (id, l) = Some leg.

Definition mark (id : InstructionId) (st : LegStatus) (ils : list (LegId * Leg))
    (s : SettlementStore) : SettlementStore :=
  s <| InstructionLegStatus ::= insert_all st (λ il : LegId * Leg, (id, il.1)) ils |>.

Lemma mark_cons id st il ils s :
  mark id st (il :: ils) s =
  mark id st ils (s <| InstructionLegStatus ::= <[(id, il.1) := st]> |>).
Proof. done. Qed.

Lemma mark_nil id st s : mark id st [] s = s.
Proof. by destruct s. Qed.

(** Locking the legs of an affirmation. *)
Lemma lock_legs_Ok id ils w w' :
  Portfolio.balances_ok (portfolio w) → locks_ok w →
  NoDup ils.*1 → legs_at (settlement w) id ils →
  (∀ l leg, (l, leg) ∈ ils → leg_status (settlement w) id l = PendingTokenLock) →
  for_each ils (lock_leg id) w = (Ok tt, w') →
  settlement w' = mark id ExecutionPending ils (settlement w) ∧
  locks_only w w' ∧ Portfolio.balances_ok (portfolio w') ∧ locks_ok w' ∧
  agenda w' = agenda w ∧ events w' = events w ∧
  ∀ k, locked_units (portfolio w') k =
       locked_units (portfolio w) k + lsum (λ il, leg_units il.2 k) ils.
Proof.
  revert w. induction ils as [|[l leg] ils IH]; intros w Hb Hl Hnd Hat Hst H.
  { simpl in H. ok_inv. split_and!; try done; [by rewrite mark_nil|]. intros k. simpl. lia. }
  simpl in H. ok_inv.
  match goal with H : lock_leg _ _ _ = _ |- _ =>
    unfold lock_leg, set_leg_status, on_settlement in H; ok_inv end.
  match goal with H : lock_via_leg _ _ = _ |- _ =>
    apply lock_via_leg_Ok in H as (-> & Hb1 & Hu); [|done] end.
  cbn in Hnd. apply NoDup_cons in Hnd as [Hnin Hnd].
  assert (InstructionLegs (settlement w) !! (id, l) = Some leg) as Hleg by (apply Hat; by left).
  assert (leg_status (settlement w) id l = PendingTokenLock) as Hs0 by (eapply Hst; by left).
  apply IH in H as (ES & Hlo & Hb' & Hl' & HA & HE & HU).
  - split_and!; try done; [|intros k; rewrite HU; cbn [lsum snd]; simpl in *; rewrite Hu; lia].
    etrans; [apply (locks_only_lock leg)|]. etrans; [|exact Hlo].
    by etrans; [|apply (locks_only_settlement (λ s,
      s <| InstructionLegStatus ::= <[(id, l) := ExecutionPending]> |>))].
  - done.
  - intros k. simpl in *. rewrite Hu. specialize (Hl k).
    pose proof (pending_units_status (InstructionLegs (settlement w))
      (InstructionLegStatus (settlement w)) (id, l) leg ExecutionPending k Hleg) as Hp.
    unfold leg_status in Hs0. rewrite Hs0 in Hp.
    rewrite (decide_False (P := PendingTokenLock = ExecutionPending)) in Hp by done.
    rewrite decide_True in Hp by done. lia.
  - done.
  - intros l' leg' Hin. apply Hat. by right.
  - intros l' leg' Hin. unfold leg_status. simpl. rewrite getd_insert_ne.
    + eapply Hst. by right.
    + intros [= ->]. apply Hnin. apply list_elem_of_fmap. by exists (l', leg').
Qed.

(** Unlocking the legs of a withdrawal. *)
Lemma unlock_legs_Ok id ils w w' :
  Portfolio.balances_ok (portfolio w) → locks_ok w →
  NoDup ils.*1 → legs_at (settlement w) id ils →
  for_each ils (unlock_leg id) w = (Ok tt, w') →
  settlement w' = mark id PendingTokenLock ils (settlement w) ∧
  locks_only w w' ∧ Portfolio.balances_ok (portfolio w') ∧ locks_ok w' ∧
  agenda w' = agenda w ∧ events w' = events w ∧
  portfolio w' = foldl (λ s il, unlock_store il.2 s) (portfolio w) ils ∧
  ∀ k, locked_units (portfolio w') k + lsum (λ il, leg_units il.2 k) ils =
       locked_units (portfolio w) k.
Proof.
  revert w. induction ils as [|[l leg] ils IH]; intros w Hb Hl Hnd Hat H.
  { simpl in H. ok_inv. split_and!; try done; [by rewrite mark_nil|]. intros k. simpl. lia. }
  simpl in H. ok_inv.
  match goal with H : unlock_leg _ _ _ = _ |- _ =>
    unfold unlock_leg, set_leg_status, on_settlement in H; ok_inv end.
  cbn in Hnd. apply NoDup_cons in Hnd as [Hnin Hnd].
  assert (InstructionLegs (settlement w) !! (id, l) = Some leg) as Hleg by (apply Hat; by left).
  destruct (instruction_leg_status id l w) eqn:Hs0; ok_inv.
  unfold instruction_leg_status in Hs0.
  match goal with H : unlock_via_leg _ _ = _ |- _ =>
    apply unlock_via_leg_Ok in H as [Hoff ->] end.
  destruct (unlock_via_leg_run leg w Hoff) as [_ Hu].
  { intros k. by eapply pending_units_locked. }
  assert (∀ k, leg_units leg k ≤ locked_units (portfolio w) k) as Hle.
  { intros k. by eapply pending_units_locked. }
  apply IH in H as (ES & Hlo & Hb' & Hl' & HA & HE & HP & HU).
  - split_and!; try done.
    2:{ intros k. specialize (HU k). specialize (Hle k). cbn [lsum snd]. simpl in HU.
        rewrite Hu in HU. lia. }
    etrans; [apply (locks_only_unlock leg)|]. etrans; [|exact Hlo].
    by etrans; [|apply (locks_only_settlement (λ s,
      s <| InstructionLegStatus ::= <[(id, l) := PendingTokenLock]> |>))].
  - simpl. by apply unlock_store_balances_ok.
  - intros k. simpl in *. rewrite Hu. specialize (Hl k).
    pose proof (pending_units_status (InstructionLegs (settlement w))
      (InstructionLegStatus (settlement w)) (id, l) leg PendingTokenLock k Hleg) as Hp.
    rewrite Hs0 in Hp. rewrite decide_True in Hp by done.
    rewrite decide_False in Hp by done. lia.
  - done.
  - intros l' leg' Hin. apply Hat. by right.
Qed.

(** The units a leg holds when it is affirmed. *)
Definition held_units (s : SettlementStore) (id : InstructionId) (k : UnitKey)
    (il : LegId * Leg) : N :=
  if decide (leg_status s id il.1 = ExecutionPending) then leg_units il.2 k else 0.

Definition release_store (s : SettlementStore) (id : InstructionId)
    (ils : list (LegId * Leg)) (ps : PortfolioStore) : PortfolioStore :=
  foldl (λ ps il, if decide (leg_status s id il.1 = ExecutionPending)
                  then unlock_store il.2 ps else ps) ps ils.

(** [release_lock] with the error of a failed unlock passed on. *)
Definition release_lock_strict (id : InstructionId) (il : LegId * Leg) : M unit :=
  st ← gets (instruction_leg_status id il.1) ;
  match st with
  | ExecutionPending => unlock_via_leg il.2
  | ExecutionToBeSkipped _ _ | PendingTokenLock => mret tt
  end.

Lemma release_lock_run id il w w1 :
  (if decide (leg_status (settlement w) id il.1 = ExecutionPending)
   then unlock_via_leg il.2 w = (Ok tt, w1) else w1 = w) →
  release_lock id il w = (Ok tt, w1) ∧ release_lock_strict id il w = (Ok tt, w1).
Proof.
  unfold release_lock, release_lock_strict, gets, mbind, SE_bind, catch.
  change (instruction_leg_status id il.1 w) with (leg_status (settlement w) id il.1).
  case_decide as Hst.
  - intros Hu. rewrite Hst. simpl. by rewrite Hu.
  - intros ->. by destruct (leg_status _ _ _).
Qed.

(** Releasing locks that are there: no unlock fails. *)
Lemma release_locks_run id ils w :
  (∀ l leg, (l, leg) ∈ ils → leg_status (settlement w) id l = ExecutionPending →
     is_off_chain leg = false) →
  (∀ k, lsum (held_units (settlement w) id k) ils ≤ locked_units (portfolio w) k) →
  let w' := w <| portfolio ::= release_store (settlement w) id ils |> in
  for_each ils (release_lock_strict id) w = (Ok tt, w') ∧
  unchecked_release_locks id ils w = (Ok tt, w') ∧
  ∀ k, locked_units (portfolio w') k + lsum (held_units (settlement w) id k) ils =
       locked_units (portfolio w) k.
Proof.
  unfold unchecked_release_locks. revert w.
  induction ils as [|[l leg] ils IH]; intros w Hoff Hle; cbn [for_each lsum].
  { split_and!; [by destruct w..|]. intros k. simpl. lia. }
  set (ps1 := if decide (leg_status (settlement w) id l = ExecutionPending)
              then unlock_store leg (portfolio w) else portfolio w).
  assert (release_lock id (l, leg) w = (Ok tt, w <| portfolio := ps1 |>) ∧
    release_lock_strict id (l, leg) w = (Ok tt, w <| portfolio := ps1 |>) ∧
    ∀ k, locked_units ps1 k + held_units (settlement w) id k (l, leg) =
         locked_units (portfolio w) k) as (H1 & H2 & Hu).
  { cbn [lsum] in Hle. unfold held_units at 1 in Hle. cbn [fst snd] in Hle.
    destruct (release_lock_run id (l, leg) w (w <| portfolio := ps1 |>)) as [R1 R2].
    - cbn [fst snd]. unfold ps1. case_decide as Hst; [|by destruct w].
      apply unlock_via_leg_run; [by apply (Hoff l); [left|]|].
      intros k. specialize (Hle k). lia.
    - split_and!; [done..|]. intros k. unfold held_units. cbn [fst snd]. unfold ps1.
      case_decide as Hst; [|lia].
      destruct (unlock_via_leg_run leg w) as [_ Hu];
        [by apply (Hoff l); [left|]|intros k'; specialize (Hle k'); lia|].
      rewrite Hu. specialize (Hle k). lia. }
  destruct (IH (w <| portfolio := ps1 |>)) as (I1 & I2 & I3).
  { intros l' leg' Hin. apply Hoff. by right. }
  { intros k. specialize (Hle k). specialize (Hu k). cbn [lsum] in Hle. simpl. lia. }
  split_and!.
  - unfold mbind, SE_bind. rewrite H2, I1. done.
  - unfold mbind, SE_bind. rewrite H1, I2. done.
  - intros k. specialize (I3 k). specialize (Hu k). simpl in *. fold ps1. lia.
Qed.

(* ------------------------------------------------------------------ *)
(** ** The counts after a run of affirmations *)

Lemma count_insert_all {X K V} `{Countable K} (g : K → V → N) d (old v : V) (f : X → K) l
    (m : gmap K V) a b :
  (∀ k, g k d = 0) → NoDup (f <$> l) → (∀ x, x ∈ l → getd d m (f x) = old) →
  (∀ x, x ∈ l → g (f x) old = a) → (∀ x, x ∈ l → g (f x) v = b) →
  msum g (insert_all v f l m) + a * N.of_nat (length l) = msum g m + b * N.of_nat (length l).
Proof.
  intros Hd Hnd Hold Ha Hb. pose proof (msum_insert_all g d v f l m Hd Hnd) as Hm.
  rewrite (lsum_const _ a) in Hm by (intros x Hx; rewrite Hold by done; by apply Ha).
  by rewrite (lsum_const _ b) in Hm.
Qed.

Lemma pending_party_insert_all id old v ps m id' :
  NoDup ps → (∀ p, p ∈ ps → getd AffUnknown m (p, id) = old) →
  msum (pending_party id') (insert_all v (λ p, (p, id)) ps m) +
    (if decide (id = id' ∧ old = AffPending) then 1 else 0) * N.of_nat (length ps) =
  msum (pending_party id') m +
    (if decide (id = id' ∧ v = AffPending) then 1 else 0) * N.of_nat (length ps).
Proof.
  intros Hnd Hold. apply (count_insert_all _ AffUnknown old); try done.
  - intros k. unfold pending_party. by rewrite decide_False by naive_solver.
  - apply NoDup_fmap_2; [|done]. by intros ?? [= ->].
Qed.

Lemma pending_off_insert_all {X} id (f : X → LegId) old v xs m id' :
  NoDup (f <$> xs) → (∀ x, x ∈ xs → getd AffUnknown m (id, f x) = old) →
  msum (pending_off id') (insert_all v (λ x, (id, f x)) xs m) +
    (if decide (id = id' ∧ old = AffPending) then 1 else 0) * N.of_nat (length xs) =
  msum (pending_off id') m +
    (if decide (id = id' ∧ v = AffPending) then 1 else 0) * N.of_nat (length xs).
Proof.
  intros Hnd Hold. apply (count_insert_all _ AffUnknown old); try done.
  - intros k. unfold pending_off. by rewrite decide_False by naive_solver.
  - assert ((λ x, (id, f x)) <$> xs = (λ l, (id, l)) <$> (f <$> xs)) as ->
      by by rewrite <- list_fmap_compose.
    apply NoDup_fmap_2; [|done]. by intros ?? [= ->].
Qed.

(** A run of insertions with a value per element. *)
Definition insert_each {X K V : Type} `{Countable K} (f : X → K) (v : X → V) (l : list X)
    (m : gmap K V) : gmap K V := foldl (λ m x, <[f x := v x]> m) m l.

Lemma lookup_insert_each_ne {X K V} `{Countable K} (f : X → K) (v : X → V) l m k :
  k ∉ f <$> l → insert_each f v l m !! k = m !! k.
Proof.
  unfold insert_each. revert m. induction l as [|x l IH]; intros m Hk; [done|].
  cbn [foldl fmap list_fmap] in *. rewrite elem_of_cons in Hk.
  rewrite IH by naive_solver. by rewrite lookup_insert_ne by naive_solver.
Qed.

Lemma lookup_insert_each {X K V} `{Countable K} (f : X → K) (v : X → V) l m k :
  k ∈ f <$> l → ∃ x, x ∈ l ∧ k = f x ∧ insert_each f v l m !! k = Some (v x).
Proof.
  unfold insert_each. revert m. induction l as [|x l IH]; intros m Hk.
  { by apply elem_of_nil in Hk. }
  cbn [foldl fmap list_fmap] in *.
  destruct (decide (k ∈ f <$> l)) as [Hin|Hnin].
  - destruct (IH (<[f x := v x]> m) Hin) as (y & Hy & -> & Hl). exists y. split_and!; try done.
    by right.
  - apply elem_of_cons in Hk as [->|]; [|done]. exists x. split_and!; [by left|done|].
    change (insert_each f v l (<[f x := v x]> m) !! f x = Some (v x)).
    rewrite lookup_insert_each_ne by done. apply lookup_insert_eq.
Qed.

(* ------------------------------------------------------------------ *)
(** ** Affirming keeps the invariant *)

(** The store after the portfolios [ps] affirmed, with the receipts [rs]. *)
Definition affirm_store (id : InstructionId) (ps : list PortfolioId)
    (ils : list (LegId * Leg)) (rs : list ReceiptDetails) (s : SettlementStore)
    : SettlementStore :=
  s <| InstructionLegStatus ::= insert_all ExecutionPending (λ il : LegId * Leg, (id, il.1)) ils |>
    <| InstructionLegStatus ::= insert_each (λ r, (id, rd_leg_id r))
         (λ r, ExecutionToBeSkipped (rd_signer r) (rd_uid r)) rs |>
    <| OffChainAffirmations ::= insert_all Affirmed (λ r, (id, rd_leg_id r)) rs |>
    <| ReceiptsUsed ::= insert_all true (λ r, (rd_signer r, rd_uid r)) rs |>
    <| UserAffirmations ::= insert_all Affirmed (λ p, (p, id)) ps |>
    <| AffirmsReceived ::= insert_all Affirmed (λ p, (id, p)) ps |>
    <| InstructionAffirmsPending ::= λ m,
         <[id := getd 0 m id - N.of_nat (length ps) - N.of_nat (length rs)]> m |>.

(** What the checks before an affirmation establish. *)
Record affirmable (s : SettlementStore) (id : InstructionId) (ps : list PortfolioId)
    (ils : list (LegId * Leg)) (rs : list ReceiptDetails) : Prop := {
  af_nodup : NoDup ps;
  af_pending : ∀ p, p ∈ ps → user_aff s p id = AffPending;
  af_legs : ∀ l leg, (l, leg) ∈ ils ↔
    InstructionLegs s !! (id, l) = Some leg ∧ ∃ p, leg_sender leg = Some p ∧ p ∈ ps;
  af_receipts_nodup : NoDup (rd_leg_id <$> rs);
  af_receipts : ∀ r, r ∈ rs → off_aff s id (rd_leg_id r) = AffPending ∧
    ∃ leg, InstructionLegs s !! (id, rd_leg_id r) = Some leg ∧ is_off_chain leg = true;
}.

Lemma off_chain_sender leg : is_off_chain leg = true → leg_sender leg = None.
Proof. by destruct leg. Qed.

(** The statuses after an affirmation. *)
Lemma affirm_status id ps ils rs s id' l :
  if decide (id' = id ∧ l ∈ rd_leg_id <$> rs)
  then ∃ a u, leg_status (affirm_store id ps ils rs s) id' l = ExecutionToBeSkipped a u
  else if decide (id' = id ∧ l ∈ ils.*1)
  then leg_status (affirm_store id ps ils rs s) id' l = ExecutionPending
  else leg_status (affirm_store id ps ils rs s) id' l = leg_status s id' l.
Proof.
  unfold leg_status, affirm_store. simpl.
  assert (∀ k, k ∈ (λ r, (id, rd_leg_id r)) <$> rs ↔ k.1 = id ∧ k.2 ∈ rd_leg_id <$> rs) as HR.
  { intros [i j]. rewrite !list_elem_of_fmap. simpl. naive_solver. }
  assert (∀ k, k ∈ (λ il : LegId * Leg, (id, il.1)) <$> ils ↔ k.1 = id ∧ k.2 ∈ ils.*1) as HI.
  { intros [i j]. rewrite !list_elem_of_fmap. simpl. naive_solver. }
  case_decide as Hr.
  - destruct (lookup_insert_each (λ r, (id, rd_leg_id r))
      (λ r, ExecutionToBeSkipped (rd_signer r) (rd_uid r)) rs
      (insert_all ExecutionPending (λ il : LegId * Leg, (id, il.1)) ils
        (InstructionLegStatus s)) (id', l)) as (r & _ & _ & Hl); [by apply HR|].
    unfold getd. rewrite Hl. by eexists _, _.
  - unfold getd. rewrite lookup_insert_each_ne by by rewrite HR.
    rewrite lookup_insert_all. specialize (HI (id', l)). simpl in HI.
    repeat case_decide; naive_solver.
Qed.

Lemma affirm_user_aff id ps ils rs s p id' :
  user_aff (affirm_store id ps ils rs s) p id' =
  if decide (id' = id ∧ p ∈ ps) then Affirmed else user_aff s p id'.
Proof.
  unfold user_aff, affirm_store. simpl. rewrite getd_insert_all.
  assert ((p, id') ∈ (λ p, (p, id)) <$> ps ↔ id' = id ∧ p ∈ ps) as He
    by (rewrite list_elem_of_fmap; naive_solver).
  repeat case_decide; naive_solver.
Qed.

Lemma affirm_off_aff id ps ils rs s id' l :
  off_aff (affirm_store id ps ils rs s) id' l =
  if decide (id' = id ∧ l ∈ rd_leg_id <$> rs) then Affirmed else off_aff s id' l.
Proof.
  unfold off_aff, affirm_store. simpl. rewrite getd_insert_all.
  assert ((id', l) ∈ (λ r, (id, rd_leg_id r)) <$> rs ↔ id' = id ∧ l ∈ rd_leg_id <$> rs) as He
    by (rewrite !list_elem_of_fmap; naive_solver).
  repeat case_decide; naive_solver.
Qed.

Lemma affirm_leg_ok s id ps ils rs id' l leg :
  affirmable s id ps ils rs → InstructionLegs s !! (id', l) = Some leg →
  leg_ok s id' l leg → leg_ok (affirm_store id ps ils rs s) id' l leg.
Proof.
  intros [_ Hp Hl _ Hr] Hleg Hok. pose proof (affirm_status id ps ils rs s id' l) as Hst.
  assert (id' = id → l ∈ rd_leg_id <$> rs → is_off_chain leg = true) as Hro.
  { intros -> (r & -> & Hin)%list_elem_of_fmap.
    destruct (Hr r Hin) as (_ & leg' & Hleg' & Hoff). congruence. }
  assert (id' = id → l ∈ ils.*1 → ∃ p, leg_sender leg = Some p ∧ p ∈ ps) as Hil.
  { intros -> ([l' leg'] & -> & Hin)%list_elem_of_fmap. simpl in *.
    apply Hl in Hin as [Hleg' Hs]. by simplify_eq. }
  assert (∀ p, id' = id → leg_sender leg = Some p → p ∈ ps → l ∈ ils.*1) as Hli.
  { intros p -> Hsd Hin. apply list_elem_of_fmap. exists (l, leg). split; [done|].
    apply Hl. split; [done|]. by exists p. }
  destruct leg as [p r t am|p r n|]; simpl in *; rewrite ?affirm_user_aff, ?affirm_off_aff.
  1,2: rewrite decide_False in Hst by (intros [-> Hin]; discriminate (Hro eq_refl Hin));
    destruct Hok as [Hok Hrec]; (split; [|by destruct (decide (id' = id ∧ r ∈ ps))]);
    destruct (decide (id' = id ∧ p ∈ ps)) as [[-> Hin]|Hnin];
    [rewrite decide_True in Hst by (split; [done|by eapply Hli]); by left|
     rewrite decide_False in Hst;
       [by rewrite Hst|intros [-> Hin]; destruct (Hil eq_refl Hin); naive_solver]].
  destruct (decide (id' = id ∧ l ∈ rd_leg_id <$> rs)) as [Hin|Hnin]; [by left|].
  rewrite decide_False in Hst; [by rewrite Hst|].
  intros [-> Hin]. destruct (Hil eq_refl Hin); naive_solver.
Qed.

Lemma affirm_pending_total s id ps ils rs id' :
  affirmable s id ps ils rs →
  pending_total (affirm_store id ps ils rs s) id' +
    (if decide (id = id') then N.of_nat (length ps) + N.of_nat (length rs) else 0) =
  pending_total s id'.
Proof.
  intros [Hnd Hp _ Hrn Hr]. unfold pending_total, affirm_store. simpl.
  pose proof (pending_party_insert_all id AffPending Affirmed ps (UserAffirmations s) id' Hnd
    Hp) as H1.
  pose proof (pending_off_insert_all id rd_leg_id AffPending Affirmed rs
    (OffChainAffirmations s) id' Hrn (λ r Hin, proj1 (Hr r Hin))) as H2.
  rewrite !(decide_False (P := id = id' ∧ Affirmed = AffPending)) in * by naive_solver.
  destruct (decide (id = id')) as [<-|Hne].
  - rewrite !decide_True in * by done. lia.
  - rewrite !decide_False in * by naive_solver. lia.
Qed.

Lemma settle_ok_affirm s id ps ils rs :
  settle_ok s → affirmable s id ps ils rs → settle_ok (affirm_store id ps ils rs s).
Proof.
  intros Hok Haf. pose proof Haf as [Hnd Hp Hl Hrn Hr]. constructor; simpl.
  - intros id'. pose proof (affirm_pending_total s id ps ils rs id' Haf) as Ht.
    rewrite getd_insert. pose proof (so_pending _ Hok id') as Hs.
    case_decide; [subst id'|]; lia.
  - intros id' l leg Hleg. apply affirm_leg_ok; [done..|]. by apply (so_leg _ Hok).
  - intros p id'. rewrite lookup_insert_all. case_decide as Hin; [|apply (so_party _ Hok)].
    apply list_elem_of_fmap in Hin as (p' & [= -> ->] & Hin). intros _.
    apply (so_party _ Hok). specialize (Hp p' Hin). unfold user_aff, getd in Hp.
    by destruct (UserAffirmations s !! (p', id)).
  - intros id' l. rewrite lookup_insert_all. case_decide as Hin; [|apply (so_off _ Hok)].
    apply list_elem_of_fmap in Hin as (r & [= -> ->] & Hin). intros _. by apply Hr.
  - intros id' l. destruct (decide ((id', l) ∈ (λ r, (id, rd_leg_id r)) <$> rs)) as [Hin|Hnin].
    + apply list_elem_of_fmap in Hin as (r & [= -> ->] & Hin). intros _.
      destruct (Hr r Hin) as (_ & leg & Hleg & _). by eexists.
    + rewrite lookup_insert_each_ne by done. rewrite lookup_insert_all.
      case_decide as Hin; [|apply (so_status _ Hok)].
      apply list_elem_of_fmap in Hin as ([l' leg] & [= -> ->] & Hin). intros _.
      apply Hl in Hin as [Hleg _]. by eexists.
  - apply (so_live _ Hok).
  - apply (so_mediator _ Hok).
  - apply (so_fresh _ Hok).
Qed.

(* ------------------------------------------------------------------ *)
(** ** Withdrawing keeps the invariant *)

Definition withdraw_store (id : InstructionId) (ps : list PortfolioId)
    (ils : list (LegId * Leg)) (s : SettlementStore) : SettlementStore :=
  s <| InstructionLegStatus ::= insert_all PendingTokenLock (λ il : LegId * Leg, (id, il.1)) ils |>
    <| UserAffirmations ::= insert_all AffPending (λ p, (p, id)) ps |>
    <| AffirmsReceived ::= λ m, foldl (λ m p, delete (id, p) m) m ps |>
    <| InstructionAffirmsPending ::= λ m,
         <[id := wrapping_add u64_max (getd 0 m id) (N.of_nat (length ps))]> m |>.

Record withdrawable (s : SettlementStore) (id : InstructionId) (ps : list PortfolioId)
    (ils : list (LegId * Leg)) : Prop := {
  wd_nodup : NoDup ps;
  wd_affirmed : ∀ p, p ∈ ps → user_aff s p id = Affirmed;
  wd_legs : ∀ l leg, (l, leg) ∈ ils ↔
    InstructionLegs s !! (id, l) = Some leg ∧ ∃ p, leg_sender leg = Some p ∧ p ∈ ps;
}.

Lemma withdraw_leg_ok s id ps ils id' l leg :
  withdrawable s id ps ils → InstructionLegs s !! (id', l) = Some leg →
  leg_ok s id' l leg → leg_ok (withdraw_store id ps ils s) id' l leg.
Proof.
  intros [_ Hp Hl] Hleg Hok.
  assert (leg_status (withdraw_store id ps ils s) id' l =
    if decide (id' = id ∧ l ∈ ils.*1) then PendingTokenLock else leg_status s id' l) as Hst.
  { unfold leg_status, withdraw_store. simpl. rewrite getd_insert_all.
    assert ((id', l) ∈ (λ il : LegId * Leg, (id, il.1)) <$> ils ↔ id' = id ∧ l ∈ ils.*1) as He
      by (rewrite !list_elem_of_fmap; naive_solver).
    repeat case_decide; naive_solver. }
  assert (∀ p, user_aff (withdraw_store id ps ils s) p id' =
    if decide (id' = id ∧ p ∈ ps) then AffPending else user_aff s p id') as Hua.
  { intros p. unfold user_aff, withdraw_store. simpl. rewrite getd_insert_all.
    assert ((p, id') ∈ (λ p, (p, id)) <$> ps ↔ id' = id ∧ p ∈ ps) as He
      by (rewrite list_elem_of_fmap; naive_solver).
    repeat case_decide; naive_solver. }
  assert (id' = id → l ∈ ils.*1 → ∃ p, leg_sender leg = Some p ∧ p ∈ ps) as Hil.
  { intros -> ([l' leg'] & -> & Hin)%list_elem_of_fmap. simpl in *.
    apply Hl in Hin as [Hleg' Hs]. by simplify_eq. }
  assert (∀ p, id' = id → leg_sender leg = Some p → p ∈ ps → l ∈ ils.*1) as Hli.
  { intros p -> Hsd Hin. apply list_elem_of_fmap. exists (l, leg). split; [done|].
    apply Hl. split; [done|]. by exists p. }
  destruct leg as [p r t am|p r n|]; simpl in *; rewrite Hst, ?Hua.
  1,2: destruct Hok as [Hok Hrec];
    (split; [|by destruct (decide (id' = id ∧ r ∈ ps))]);
    destruct (decide (id' = id ∧ p ∈ ps)) as [[-> Hin]|Hnin];
    [rewrite decide_True by (split; [done|by eapply Hli]); by right|
     rewrite decide_False;
       [done|intros [-> Hin]; destruct (Hil eq_refl Hin); naive_solver]].
  rewrite decide_False; [done|].
  intros [-> Hin]. destruct (Hil eq_refl Hin); naive_solver.
Qed.

Lemma settle_ok_withdraw s id ps ils :
  settle_ok s → withdrawable s id ps ils → affirmations_fit (withdraw_store id ps ils s) →
  settle_ok (withdraw_store id ps ils s).
Proof.
  intros Hok Hwd Hfit. pose proof Hwd as [Hnd Hp Hl].
  assert (∀ id', pending_total (withdraw_store id ps ils s) id' =
    pending_total s id' + (if decide (id = id') then N.of_nat (length ps) else 0)) as Ht.
  { intros id'. unfold pending_total, withdraw_store. simpl.
    pose proof (pending_party_insert_all id Affirmed AffPending ps (UserAffirmations s) id' Hnd
      Hp) as H1.
    rewrite (decide_False (P := id = id' ∧ Affirmed = AffPending)) in H1 by naive_solver.
    destruct (decide (id = id')) as [<-|Hne];
      [rewrite decide_True in H1 by done|rewrite decide_False in H1 by naive_solver]; lia. }
  constructor; simpl.
  - intros id'. rewrite getd_insert, Ht, <- (so_pending _ Hok id').
    case_decide; [subst id'|lia].
    pose proof (pending_total_fits _ id Hfit) as Hf. rewrite Ht, <- (so_pending _ Hok id) in Hf.
    rewrite decide_True in Hf by done. by rewrite wrapping_add_small.
  - intros id' l leg Hleg. apply withdraw_leg_ok; [done..|]. by apply (so_leg _ Hok).
  - intros p id'. rewrite lookup_insert_all. case_decide as Hin; [|apply (so_party _ Hok)].
    apply list_elem_of_fmap in Hin as (p' & [= -> ->] & Hin). intros _.
    apply (so_party _ Hok). specialize (Hp p' Hin). unfold user_aff, getd in Hp.
    by destruct (UserAffirmations s !! (p', id)).
  - apply (so_off _ Hok).
  - intros id' l. rewrite lookup_insert_all. case_decide as Hin; [|apply (so_status _ Hok)].
    apply list_elem_of_fmap in Hin as ([l' leg] & [= -> ->] & Hin). intros _.
    apply Hl in Hin as [Hleg _]. by eexists.
  - apply (so_live _ Hok).
  - apply (so_mediator _ Hok).
  - apply (so_fresh _ Hok).
Qed.

(* ------------------------------------------------------------------ *)
(** ** The mediators *)

Lemma settle_ok_mediator s id d v n :
  settle_ok s → getd MedUnknown (InstructionMediatorsAffirmations s) (id, d) ≠ MedUnknown →
  v ≠ MedUnknown →
  n + (if decide (getd MedUnknown (InstructionMediatorsAffirmations s) (id, d) = MedPending)
       then 1 else 0) =
    getd 0 (InstructionAffirmsPending s) id + (if decide (v = MedPending) then 1 else 0) →
  settle_ok (s <| InstructionMediatorsAffirmations ::= <[(id, d) := v]> |>
               <| InstructionAffirmsPending ::= <[id := n]> |>).
Proof.
  intros Hok Hold Hv Hn. constructor; simpl; try apply Hok.
  - intros id'. pose proof (so_pending _ Hok id') as Hs. unfold pending_total in *. simpl.
    pose proof (msum_insert MedUnknown (pending_mediator id')
      (InstructionMediatorsAffirmations s) (id, d) v) as Hi.
    unfold pending_mediator at 1 in Hi. rewrite decide_False in Hi by naive_solver.
    specialize (Hi eq_refl). unfold pending_mediator at 2 4 in Hi. simpl in Hi.
    rewrite getd_insert. destruct (decide (id = id')) as [<-|Hne].
    + repeat case_decide; naive_solver lia.
    + rewrite !decide_False in Hi by naive_solver. lia.
  - clear Hn. intros id' d' m. rewrite lookup_insert.
    case_decide as He; [|apply (so_mediator _ Hok)].
    simplify_eq. intros [= <-]. split; [|done].
    unfold getd in Hold.
    destruct (InstructionMediatorsAffirmations s !! (id', d')) as [m|] eqn:Hm; [|done].
    by apply (so_mediator _ Hok) in Hm as [? _].
  - clear Hn. split; [apply (so_fresh _ Hok)|]. intros id' d'. rewrite lookup_insert.
    case_decide as He; [|apply (so_fresh _ Hok)]. simplify_eq. intros _.
    unfold getd in Hold.
    destruct (InstructionMediatorsAffirmations s !! (id', d')) as [m|] eqn:Hm; [|done].
    eapply (proj2 (so_fresh _ Hok)). by eexists.
Qed.

Lemma settle_ok_failed s id :
  settle_ok s → settle_ok (s <| InstructionStatuses ::= <[id := StatusFailed]> |>).
Proof.
  intros Hok.
  assert (∀ id', live s id' → live (s <| InstructionStatuses ::= <[id := StatusFailed]> |>) id')
    as Hlive.
  { intros id' Hl. unfold live. simpl. rewrite lookup_insert. case_decide; [by right|done]. }
  constructor; simpl; try apply Hok.
  - intros id' l Hs. by apply Hlive, (so_live _ Hok id' l).
  - intros id' d m Hm. destruct (so_mediator _ Hok id' d m Hm) as [H1 H2]. split; [|done].
    by apply Hlive.
Qed.

(* ------------------------------------------------------------------ *)
(** ** Pruning keeps the invariant *)

Definition final_status (executed : bool) (block : BlockNumber) : InstructionStatus :=
  if executed then StatusSuccess block else StatusRejected block.

(** What pruning does to the parts of the store the invariant reads. *)
Record pruned (id : InstructionId) (executed : bool) (block : BlockNumber)
    (s s' : SettlementStore) : Prop := {
  pr_legs : InstructionLegs s' = remove_prefix id (InstructionLegs s);
  pr_status : InstructionLegStatus s' = remove_prefix id (InstructionLegStatus s);
  pr_off : OffChainAffirmations s' = remove_prefix id (OffChainAffirmations s);
  pr_mediators : InstructionMediatorsAffirmations s' =
    remove_prefix id (InstructionMediatorsAffirmations s);
  pr_affirms : InstructionAffirmsPending s' = delete id (InstructionAffirmsPending s);
  pr_statuses : InstructionStatuses s' =
    <[id := final_status executed block]> (InstructionStatuses s);
  pr_users : ∀ p id', UserAffirmations s' !! (p, id') =
    if decide (id' = id) then None else UserAffirmations s !! (p, id');
  pr_counter : InstructionCounter s' = InstructionCounter s;
  pr_received : AffirmsReceived s' = remove_prefix id (AffirmsReceived s);
  pr_details : InstructionDetails s' = delete id (InstructionDetails s);
  pr_receipts : ReceiptsUsed s' = ReceiptsUsed s;
}.

(** The removed entries are those of the parties of the drained legs. *)
Lemma forget_parties_None id ils m p id' :
  m !! (p, id') = None → foldl (forget_parties id) m ils !! (p, id') = None.
Proof.
  revert m. induction ils as [|[l leg] ils IH]; intros m Hm; [done|]. apply IH.
  destruct leg; unfold forget_parties; simpl; rewrite ?lookup_delete; repeat case_decide; done.
Qed.

Lemma forget_parties_party id ils m p l leg :
  (l, leg) ∈ ils → leg_party leg p → foldl (forget_parties id) m ils !! (p, id) = None.
Proof.
  revert m. induction ils as [|il ils IH]; intros m Hin Hp; [by apply elem_of_nil in Hin|].
  apply elem_of_cons in Hin as [<-|Hin]; [|by apply IH]. simpl.
  apply forget_parties_None. unfold forget_parties, leg_party in *. simpl.
  destruct leg; simpl in *; destruct Hp as [Hp|Hp]; simplify_eq;
    rewrite !lookup_delete; repeat case_decide; done.
Qed.

Lemma forget_parties_other id ils m p id' :
  id' ≠ id → foldl (forget_parties id) m ils !! (p, id') = m !! (p, id').
Proof.
  intros Hne. revert m. induction ils as [|[l leg] ils IH]; intros m; [done|]. simpl.
  rewrite IH. unfold forget_parties. simpl.
  destruct leg; rewrite ?lookup_delete_ne by congruence; done.
Qed.

Lemma prune_instruction_Ok id executed w w' :
  settle_ok (settlement w) → prune_instruction id executed w = (Ok tt, w') →
  pruned id executed (block_number w) (settlement w) (settlement w') ∧
  ∃ f, w' = w <| settlement ::= f |>.
Proof.
  intros Hok. unfold prune_instruction, on_settlement. intros H. ok_inv.
  split; [|by eexists]. constructor; try done. simpl. intros p id'. case_decide as He.
  - subst id'. destruct (UserAffirmations (settlement w) !! (p, id)) as [v|] eqn:Hu;
      [|by apply forget_parties_None].
    destruct (so_party _ Hok p id) as (l & leg & Hleg & Hp); [by eexists|].
    eapply (forget_parties_party _ _ _ p l leg); [|done].
    unfold legs_of. by apply elem_of_iter_prefix.
  - by apply forget_parties_other.
Qed.

Lemma pruned_settle_ok id executed block s s' :
  settle_ok s → pruned id executed block s s' → settle_ok s'.
Proof.
  intros Hok [E1 E2 E3 E4 E5 E6 E7 E8 _ _ _].
  assert (∀ id', id' ≠ id → live s id' → live s' id') as Hlive.
  { intros id' Hne. unfold live. by rewrite E6, lookup_insert_ne. }
  constructor.
  - intros id'. rewrite E5, getd_delete. unfold pending_total. rewrite E3, E4.
    assert (∀ k, pending_party id' k (getd AffUnknown (UserAffirmations s') k) =
      if decide (id' = id) then 0
      else pending_party id' k (getd AffUnknown (UserAffirmations s) k)) as HU.
    { intros [p i]. unfold pending_party, getd. rewrite E7. simpl.
      repeat case_decide; simpl in *; naive_solver. }
    assert (∀ k, pending_off id' k
        (getd AffUnknown (remove_prefix id (OffChainAffirmations s)) k) =
      if decide (id' = id) then 0
      else pending_off id' k (getd AffUnknown (OffChainAffirmations s) k)) as HO.
    { intros [i l]. unfold pending_off. rewrite getd_remove_prefix. simpl.
      repeat case_decide; simpl in *; naive_solver. }
    assert (∀ k, pending_mediator id' k
        (getd MedUnknown (remove_prefix id (InstructionMediatorsAffirmations s)) k) =
      if decide (id' = id) then 0
      else pending_mediator id' k (getd MedUnknown (InstructionMediatorsAffirmations s) k)) as HM.
    { intros [i d]. unfold pending_mediator. rewrite getd_remove_prefix. simpl.
      repeat case_decide; simpl in *; naive_solver. }
    assert (∀ k, pending_party id' k AffUnknown = 0) as D1
      by (intros k; unfold pending_party; by rewrite decide_False by naive_solver).
    assert (∀ k, pending_off id' k AffUnknown = 0) as D2
      by (intros k; unfold pending_off; by rewrite decide_False by naive_solver).
    assert (∀ k, pending_mediator id' k MedUnknown = 0) as D3
      by (intros k; unfold pending_mediator; by rewrite decide_False by naive_solver).
    destruct (decide (id' = id)) as [->|Hne].
    + rewrite decide_True by done.
      rewrite (msum_agree AffUnknown (pending_party id) (UserAffirmations s') ∅ D1),
        (msum_agree AffUnknown (pending_off id) _ ∅ D2),
        (msum_agree MedUnknown (pending_mediator id) _ ∅ D3); [done|..];
        intros k; rewrite ?HU, ?HO, ?HM, getd_empty; by rewrite ?D1, ?D2, ?D3.
    + rewrite decide_False by congruence.
      rewrite (msum_agree AffUnknown (pending_party id') (UserAffirmations s')
          (UserAffirmations s) D1 HU),
        (msum_agree AffUnknown (pending_off id') _ (OffChainAffirmations s) D2 HO),
        (msum_agree MedUnknown (pending_mediator id') _
          (InstructionMediatorsAffirmations s) D3 HM).
      apply (so_pending _ Hok).
  - intros id' l leg. rewrite E1, lookup_remove_prefix. case_decide as Hne; [done|].
    intros Hleg%(so_leg _ Hok).
    assert (∀ p, user_aff s' p id' = user_aff s p id') as HU.
    { intros p. unfold user_aff, getd. by rewrite E7, decide_False. }
    assert (leg_status s' id' l = leg_status s id' l) as HS.
    { unfold leg_status. by rewrite E2, getd_remove_prefix, decide_False. }
    assert (off_aff s' id' l = off_aff s id' l) as HO.
    { unfold off_aff. by rewrite E3, getd_remove_prefix, decide_False. }
    destruct leg; simpl in *; rewrite ?HU, ?HS, ?HO; done.
  - intros p id'. rewrite E7, E1. case_decide as Hne; [by intros [? ?]|].
    intros (l & leg & Hleg & Hp)%(so_party _ Hok). exists l, leg.
    by rewrite lookup_remove_prefix, decide_False.
  - intros id' l. rewrite E3, E1, !lookup_remove_prefix. case_decide; [by intros [? ?]|].
    apply (so_off _ Hok).
  - intros id' l. rewrite E2, E1, !lookup_remove_prefix. case_decide; [done|].
    apply (so_status _ Hok).
  - intros id' l. rewrite E1, lookup_remove_prefix. case_decide; [by intros [? ?]|].
    intros Hs. by apply Hlive, (so_live _ Hok id' l).
  - intros id' d m. rewrite E4, lookup_remove_prefix. case_decide; [done|].
    intros [Hl Hm]%(so_mediator _ Hok). split; [by apply Hlive|done].
  - rewrite E1, E4, E8. split; intros id' l; rewrite lookup_remove_prefix;
      (case_decide; [by intros [? ?]|]); apply (so_fresh _ Hok).
Qed.

(** The units of the legs that remain. *)
Lemma pruned_units id executed block s s' k :
  pruned id executed block s s' →
  pending_units (InstructionLegs s') (InstructionLegStatus s') k +
    msum (λ il leg, if decide (il.1 = id) then
      (if decide (getd PendingTokenLock (InstructionLegStatus s) il = ExecutionPending)
       then leg_units leg k else 0) else 0) (InstructionLegs s) =
  pending_units (InstructionLegs s) (InstructionLegStatus s) k.
Proof.
  intros [E1 E2 _ _ _ _ _ _ _ _ _]. unfold pending_units. rewrite E1, E2.
  pose proof (msum_remove_prefix (λ (il : InstructionId * LegId) leg,
    if decide (getd PendingTokenLock (InstructionLegStatus s) il = ExecutionPending)
    then leg_units leg k else 0) (InstructionLegs s) id) as Hr.
  rewrite <- Hr. f_equal. apply msum_ext. intros [i l] leg. rewrite lookup_remove_prefix.
  destruct (decide (i = id)) as [|Hne]; [done|]. intros _.
  assert (getd PendingTokenLock (remove_prefix id (InstructionLegStatus s)) (i, l) =
    getd PendingTokenLock (InstructionLegStatus s) (i, l)) as ->; [|done].
  by rewrite getd_remove_prefix, decide_False.
Qed.

(* ------------------------------------------------------------------ *)
(** ** The legs of an instruction as a list *)

Lemma msum_prefix_list {K1 K2 V} `{Countable K1, Countable K2} (f : K1 * K2 → V → N)
    (m : gmap (K1 * K2) V) (id : K1) (L : list (K2 * V)) :
  NoDup L.*1 → (∀ l v, (l, v) ∈ L ↔ m !! (id, l) = Some v) →
  msum (λ k v, if decide (k.1 = id) then f k v else 0) m = lsum (λ kv, f (id, kv.1) kv.2) L.
Proof.
  revert m. induction L as [|[l v] L IH]; intros m Hnd Hin; cbn [lsum].
  - apply msum_zero. intros [i l] v Hv. simpl. case_decide; [subst i|done].
    apply Hin in Hv. by apply elem_of_nil in Hv.
  - cbn in Hnd. apply NoDup_cons in Hnd as [Hl Hnd].
    assert (m !! (id, l) = Some v) as Hv by (apply Hin; by left).
    rewrite (msum_lookup _ m (id, l) v) by done. simpl. rewrite decide_True by done.
    rewrite (IH (delete (id, l) m)); [done|done|].
    intros l' v'. rewrite lookup_delete_Some, <- Hin, elem_of_cons. split.
    + intros Hin'. split; [|by right]. intros [= ->]. apply Hl.
      apply list_elem_of_fmap. by exists (l', v').
    + intros [Hne [[= -> ->]|]]; [done|done].
Qed.

Definition listing (s : SettlementStore) (id : InstructionId) (ils : list (LegId * Leg)) : Prop :=
  NoDup ils.*1 ∧ ∀ l leg, (l, leg) ∈ ils ↔ InstructionLegs s !! (id, l) = Some leg.

Lemma legs_of_listing id w : listing (settlement w) id (legs_of id w).
Proof.
  split; [apply NoDup_iter_prefix|]. intros l leg. unfold legs_of. apply elem_of_iter_prefix.
Qed.

Lemma sorted_legs_listing id w : listing (settlement w) id (sorted_legs id w).
Proof.
  destruct (legs_of_listing id w) as [Hnd Hin].
  assert (sorted_legs id w ≡ₚ legs_of id w) as Hp by apply merge_sort_Permutation.
  split; [by rewrite Hp|]. intros l leg. by rewrite Hp.
Qed.

#[global] Instance leg_le_total : Total leg_le.
Proof. intros a b. unfold leg_le. lia. Qed.
#[global] Instance leg_le_trans : Transitive leg_le.
Proof. intros a b c. unfold leg_le. lia. Qed.

(** The legs run in the order of their ids. *)
Lemma sorted_legs_sorted id w : StronglySorted leg_le (sorted_legs id w).
Proof. apply StronglySorted_merge_sort; apply _. Qed.

Lemma held_units_listing s id ils k :
  listing s id ils →
  msum (λ il leg, if decide (il.1 = id) then
    (if decide (getd PendingTokenLock (InstructionLegStatus s) il = ExecutionPending)
     then leg_units leg k else 0) else 0) (InstructionLegs s) =
  lsum (held_units s id k) ils.
Proof.
  intros [Hnd Hin]. exact (msum_prefix_list (λ il leg,
    if decide (getd PendingTokenLock (InstructionLegStatus s) il = ExecutionPending)
    then leg_units leg k else 0) (InstructionLegs s) id ils Hnd Hin).
Qed.

Lemma held_units_le s id ils k :
  listing s id ils →
  lsum (held_units s id k) ils ≤ pending_units (InstructionLegs s) (InstructionLegStatus s) k.
Proof.
  intros Hl. rewrite <- (held_units_listing s id ils k Hl). unfold pending_units.
  apply msum_mono. intros il leg _. repeat case_decide; lia.
Qed.

Lemma listing_on_chain s id ils :
  settle_ok s → listing s id ils →
  ∀ l leg, (l, leg) ∈ ils → leg_status s id l = ExecutionPending → is_off_chain leg = false.
Proof.
  intros Hok [_ Hin] l leg Hl Hst. apply Hin, (so_leg _ Hok) in Hl.
  destruct leg; try done. simpl in Hl. destruct Hl as [[_ (a & u & Ha)]|[_ Ha]]; congruence.
Qed.

Lemma release_store_balances_ok s id ils ps :
  Portfolio.balances_ok ps → Portfolio.balances_ok (release_store s id ils ps).
Proof.
  unfold release_store. revert ps. induction ils as [|il ils IH]; intros ps Hb; [done|].
  simpl. apply IH. case_decide; [by apply unlock_store_balances_ok|done].
Qed.

Lemma release_store_locks s id ils ps :
  ∃ la ln, release_store s id ils ps =
    ps <| PortfolioLockedAssets := la |> <| PortfolioLockedNFT := ln |>.
Proof.
  unfold release_store. revert ps. induction ils as [|il ils IH]; intros ps; simpl.
  - exists (PortfolioLockedAssets ps), (PortfolioLockedNFT ps). by destruct ps.
  - destruct (IH (if decide (leg_status s id il.1 = ExecutionPending)
                  then unlock_store il.2 ps else ps)) as (la & ln & ->).
    exists la, ln. case_decide; [|done]. by destruct il as [l []].
Qed.

(** Releasing the locks of an instruction and pruning it keeps the locks of
    the others covered; [w1] is the state between the two, in which other
    parts of the portfolios may have changed. *)
Lemma release_prune_locks id executed block ils w s' ps' :
  locks_ok w → listing (settlement w) id ils →
  pruned id executed block (settlement w) s' →
  (∀ k, locked_units ps' k + lsum (held_units (settlement w) id k) ils =
        locked_units (portfolio w) k) →
  ∀ k, pending_units (InstructionLegs s') (InstructionLegStatus s') k + reserved k ≤
       locked_units ps' k.
Proof.
  intros Hl Hls Hpr Hu k. specialize (Hl k). specialize (Hu k).
  pose proof (pruned_units _ _ _ _ _ k Hpr) as Hp. rewrite (held_units_listing _ _ _ _ Hls) in Hp.
  lia.
Qed.

(* ------------------------------------------------------------------ *)
(** ** What an affirmation does *)

Lemma record_affirmations_Ok d id ps w w' :
  for_each ps (record_affirmation d id) w = (Ok tt, w') →
  ∃ e, w' = w <| settlement ::= λ s,
           s <| UserAffirmations ::= insert_all Affirmed (λ p, (p, id)) ps |>
             <| AffirmsReceived ::= insert_all Affirmed (λ p, (id, p)) ps |> |>
           <| events := e |>.
Proof.
  revert w. induction ps as [|p ps IH]; intros w H; simpl in H; ok_inv.
  - exists (events w). by destruct w as [? ? ? ? ? ? ? ? ? ? ? [] ?].
  - match goal with H : record_affirmation _ _ _ _ = _ |- _ =>
      unfold record_affirmation, on_settlement, deposit_event in H; ok_inv end.
    apply IH in H as [e ->]. by exists e.
Qed.

Lemma record_withdrawals_Ok d id ps w w' :
  for_each ps (record_withdrawal d id) w = (Ok tt, w') →
  ∃ e, w' = w <| settlement ::= λ s,
           s <| UserAffirmations ::= insert_all AffPending (λ p, (p, id)) ps |>
             <| AffirmsReceived ::= λ m, foldl (λ m p, delete (id, p) m) m ps |> |>
           <| events := e |>.
Proof.
  revert w. induction ps as [|p ps IH]; intros w H; simpl in H; ok_inv.
  - exists (events w). by destruct w as [? ? ? ? ? ? ? ? ? ? ? [] ?].
  - match goal with H : record_withdrawal _ _ _ _ = _ |- _ =>
      unfold record_withdrawal, on_settlement, deposit_event in H; ok_inv end.
    apply IH in H as [e ->]. by exists e.
Qed.

Lemma claim_receipts_Ok d id rs w w' :
  for_each rs (claim_receipt d id) w = (Ok tt, w') →
  ∃ e, w' = w <| settlement ::= λ s,
           s <| InstructionLegStatus ::= insert_each (λ r, (id, rd_leg_id r))
                  (λ r, ExecutionToBeSkipped (rd_signer r) (rd_uid r)) rs |>
             <| OffChainAffirmations ::= insert_all Affirmed (λ r, (id, rd_leg_id r)) rs |>
             <| ReceiptsUsed ::= insert_all true (λ r, (rd_signer r, rd_uid r)) rs |> |>
           <| events := e |>.
Proof.
  revert w. induction rs as [|r rs IH]; intros w H; simpl in H; ok_inv.
  - exists (events w). by destruct w as [? ? ? ? ? ? ? ? ? ? ? [] ?].
  - match goal with H : claim_receipt _ _ _ _ = _ |- _ =>
      unfold claim_receipt, on_settlement, deposit_event in H; ok_inv end.
    apply IH in H as [e ->]. by exists e.
Qed.

Lemma ensure_status_Ok id (set : gset PortfolioId) d sk st w :
  ensure_portfolios_and_affirmation_status id set d sk st w = Ok tt →
  ∀ p, p ∈ elements set → user_aff (settlement w) p id = st ∧
    Portfolio.ensure_portfolio_custody_and_permission p d sk w = Ok tt.
Proof.
  unfold ensure_portfolios_and_affirmation_status. intros H p Hp.
  pose proof (proj1 (for_check_Ok _ _ _) H p Hp) as Hc. simpl in Hc. ok_inv. done.
Qed.

Lemma sent_legs id (set : gset PortfolioId) w l leg :
  (l, leg) ∈ sender_subset (filtered_legs id set w) ↔
  InstructionLegs (settlement w) !! (id, l) = Some leg ∧
    ∃ p, leg_sender leg = Some p ∧ p ∈ elements set.
Proof.
  unfold filtered_legs. rewrite elem_of_sender_subset. unfold legs_of.
  rewrite elem_of_iter_prefix. by setoid_rewrite elem_of_elements.
Qed.

Lemma sent_legs_nodup id (set : gset PortfolioId) w :
  NoDup (sender_subset (filtered_legs id set w)).*1.
Proof.
  unfold filtered_legs. rewrite sender_subset_filter.
  eapply sublist_NoDup; [apply (NoDup_iter_prefix (InstructionLegs (settlement w)) id)|].
  apply fmap_sublist. apply sublist_filter.
Qed.

#[local] Arguments ensure_valid_receipt : simpl never.

(** The receipts that pass [ensure_valid_receipts_details]. *)
Lemma valid_receipts_Ok v id rs w :
  ensure_valid_receipts_details v id rs w = Ok tt →
  NoDup (rd_leg_id <$> rs) ∧ NoDup ((λ r, (rd_signer r, rd_uid r)) <$> rs) ∧
  ∀ r, r ∈ rs → off_aff (settlement w) id (rd_leg_id r) = AffPending ∧
    receipts_used (rd_signer r) (rd_uid r) w = false ∧
    venue_signers v (rd_signer r) w = true ∧
    (∃ s t ti am, InstructionLegs (settlement w) !! (id, rd_leg_id r) = Some (OffChain s t ti am) ∧
       verify_signature (rd_signature r)
         (mkReceipt (rd_uid r) id (rd_leg_id r) s t ti am) (rd_signer r) = true).
Proof.
  unfold ensure_valid_receipts_details. intros H. ok_inv.
  match goal with H : fold_check _ _ _ = Ok ?x |- _ =>
    rename H into Hf; revert Hf; generalize x end. intros [uids' legs'].
  assert (∀ seen, fold_check (ensure_valid_receipt v id w) seen rs = Ok (uids', legs') →
    (NoDup (rd_leg_id <$> rs) ∧ ∀ l, l ∈ rd_leg_id <$> rs → l ∉ seen.2) ∧
    (NoDup ((λ r, (rd_signer r, rd_uid r)) <$> rs) ∧
      ∀ u, u ∈ (λ r, (rd_signer r, rd_uid r)) <$> rs → u ∉ seen.1) ∧
    ∀ r, r ∈ rs → off_aff (settlement w) id (rd_leg_id r) = AffPending ∧
    receipts_used (rd_signer r) (rd_uid r) w = false ∧
    venue_signers v (rd_signer r) w = true ∧
    (∃ s t ti am, InstructionLegs (settlement w) !! (id, rd_leg_id r) = Some (OffChain s t ti am) ∧
       verify_signature (rd_signature r)
         (mkReceipt (rd_uid r) id (rd_leg_id r) s t ti am) (rd_signer r) = true)) as Hgen.
  2:{ intros Hf. specialize (Hgen _ Hf). naive_solver. }
  induction rs as [|r rs IH]; intros [uids legs] Hf; simpl in Hf.
  { split_and!; try apply NoDup_nil_2; intros y Hy; by apply elem_of_nil in Hy. }
  ok_inv. destruct_product.
  match goal with H : ensure_valid_receipt _ _ _ _ _ = Ok _ |- _ => rename H into He end.
  apply IH in Hf as ([Hn1 Hs1] & [Hn2 Hs2] & Hall). clear IH.
  unfold ensure_valid_receipt, esettle in He. simpl in *. ok_inv.
  match goal with H : match ?leg with _ => _ end = Ok _ |- _ => destruct leg; ok_inv end.
  simplify_eq. cbn [fmap list_fmap].
  split_and!.
  - apply NoDup_cons. split; [|done]. intros Hin. specialize (Hs1 _ Hin). set_solver.
  - intros l [->|Hl]%elem_of_cons; [done|]. specialize (Hs1 _ Hl). set_solver.
  - apply NoDup_cons. split; [|done]. intros Hin. specialize (Hs2 _ Hin). set_solver.
  - intros u [->|Hu]%elem_of_cons; [done|]. specialize (Hs2 _ Hu). set_solver.
  - intros r' [->|Hr]%elem_of_cons; [|by apply Hall]. split_and!; try done.
    by eexists _, _, _, _.
Qed.

Lemma locks_only_agenda_events w e a m :
  locks_only w (w <| events := e |> <| agenda := a |> <| meter := m |>).
Proof.
  constructor; try done.
  exists (PortfolioLockedAssets (portfolio w)), (PortfolioLockedNFT (portfolio w)).
  simpl. by destruct (portfolio w).
Qed.

Lemma locks_only_same w w' :
  block_number w' = block_number w → now w' = now w → identity w' = identity w →
  agents w' = agents w → asset w' = asset w → checkpoint w' = checkpoint w →
  nft w' = nft w → portfolio w' = portfolio w → locks_only w w'.
Proof.
  intros. constructor; try done.
  exists (PortfolioLockedAssets (portfolio w)), (PortfolioLockedNFT (portfolio w)).
  by destruct (portfolio w), (portfolio w').
Qed.

(** The statuses of off-chain legs do not count for the locks. *)
Lemma pending_units_mono legs st st' k :
  (∀ il, getd PendingTokenLock st' il = ExecutionPending →
         getd PendingTokenLock st il = ExecutionPending) →
  pending_units legs st' k ≤ pending_units legs st k.
Proof.
  intros Hst. unfold pending_units. apply msum_mono. intros il leg _.
  specialize (Hst il). repeat case_decide; try lia. naive_solver.
Qed.

(** What the legs to lock look like before an affirmation. *)
Lemma affirmable_unlocked s id ps ils rs l leg :
  settle_ok s → affirmable s id ps ils rs → (l, leg) ∈ ils →
  leg_status s id l = PendingTokenLock.
Proof.
  intros Hok Haf Hin. apply (af_legs _ _ _ _ _ Haf) in Hin as (Hleg & p & Hp & Hps).
  apply (so_leg _ Hok) in Hleg. apply (af_pending _ _ _ _ _ Haf) in Hps.
  destruct leg; simpl in *; simplify_eq; destruct Hleg as [[[]|[]] _]; congruence.
Qed.

Lemma unsafe_affirm_Ok d id (P : gset PortfolioId) sk count w f w' :
  Portfolio.balances_ok (portfolio w) → settle_ok (settlement w) → locks_ok w →
  unsafe_affirm_instruction d id P sk count w = (Ok f, w') →
  let ps := elements P in
  let ils := sender_subset (filtered_legs id P w) in
  f = filtered_legs id P w ∧ affirmable (settlement w) id ps ils [] ∧
  settlement w' = affirm_store id ps ils [] (settlement w) ∧
  locks_only w w' ∧ Portfolio.balances_ok (portfolio w') ∧ locks_ok w' ∧
  agenda w' = agenda w ∧
  (∀ p, p ∈ ps → Portfolio.ensure_portfolio_custody_and_permission p d sk w = Ok tt) ∧
  ∀ k, locked_units (portfolio w') k =
       locked_units (portfolio w) k + lsum (λ il, leg_units il.2 k) ils.
Proof.
  intros Hb Hok Hl. unfold unsafe_affirm_instruction, on_settlement. intros H. ok_inv.
  match goal with H : ensure_portfolios_and_affirmation_status _ _ _ _ _ _ = _ |- _ =>
    pose proof (ensure_status_Ok _ _ _ _ _ _ H) as Hst end.
  assert (affirmable (settlement w) id (elements P) (sender_subset (filtered_legs id P w)) [])
    as Haf.
  { constructor.
    - apply NoDup_elements.
    - intros p Hp. by apply Hst.
    - intros l leg. apply sent_legs.
    - apply NoDup_nil_2.
    - intros r Hr. by apply elem_of_nil in Hr. }
  match goal with H : for_each _ (lock_leg _) _ = (_, ?w1) |- _ =>
    apply lock_legs_Ok in H as (ES & Hlo & Hb1 & Hl1 & HA & HE & HU);
      [|done|done|apply sent_legs_nodup| |] end.
  2:{ intros l leg Hin. by apply sent_legs in Hin as [? _]. }
  2:{ intros l leg Hin. by eapply affirmable_unlocked. }
  match goal with H : for_each _ (record_affirmation _ _) _ = _ |- _ =>
    apply record_affirmations_Ok in H as [e ->] end.
  split_and!; try done.
  - simpl. rewrite ES. unfold affirm_store, mark, saturating_sub. simpl.
    unfold instruction_affirms_pending. rewrite ES. simpl.
    assert (∀ n, n - gset_len P = n - N.of_nat (length (elements P)) - N.of_nat 0) as ->
      by (intros n; unfold gset_len, size, set_size; simpl; lia).
    by destruct (settlement w).
  - etrans; [exact Hlo|]. by apply locks_only_same.
  - intros p Hp. by apply Hst.
Qed.

Lemma instruction_validity_Ok o id b w d sk details :
  ensure_origin_perm_and_instruction_validity o id b w = Ok (d, sk, details) →
  details = instruction_details id w ∧ instruction_status id w ≠ StatusUnknown ∧
  ∃ data, Identity.ensure_origin_call_permissions o w = Ok data ∧ d = primary_did data ∧
    sk = secondary_key data.
Proof.
  unfold ensure_origin_perm_and_instruction_validity, ensure_instruction_validity.
  intros H. ok_inv. simplify_eq. split_and!; try done. by eexists.
Qed.

Lemma affirm_with_receipts_Ok o id rs portfolios count w f w' :
  Portfolio.balances_ok (portfolio w) → settle_ok (settlement w) → locks_ok w →
  base_affirm_with_receipts o id rs portfolios count w = (Ok f, w') →
  let ps := elements (list_to_set portfolios : gset PortfolioId) in
  let ils := sender_subset (filtered_legs id (list_to_set portfolios) w) in
  f = filtered_legs id (list_to_set portfolios) w ∧ affirmable (settlement w) id ps ils rs ∧
  settlement w' = affirm_store id ps ils rs (settlement w) ∧
  locks_only w w' ∧ Portfolio.balances_ok (portfolio w') ∧ locks_ok w' ∧
  agenda w' = agenda w ∧
  ensure_valid_receipts_details (venue_id (instruction_details id w)) id rs w = Ok tt.
Proof.
  intros Hb Hok Hl. unfold base_affirm_with_receipts, on_settlement. intros H. ok_inv.
  destruct_product. ok_inv.
  match goal with H : ensure_portfolios_and_affirmation_status _ _ _ _ _ _ = _ |- _ =>
    pose proof (ensure_status_Ok _ _ _ _ _ _ H) as Hst end.
  match goal with H : ensure_valid_receipts_details _ _ _ _ = _ |- _ =>
    pose proof (valid_receipts_Ok _ _ _ _ H) as (Hn1 & _ & Hr); rename H into Hval end.
  assert (affirmable (settlement w) id (elements (list_to_set portfolios : gset PortfolioId))
    (sender_subset (filtered_legs id (list_to_set portfolios) w)) rs) as Haf.
  { constructor; [apply NoDup_elements|intros p Hp; by apply Hst|intros l leg; apply sent_legs|
      done|].
    intros r Hin. destruct (Hr r Hin) as (Hoff & _ & _ & s & t & ti & am & Hleg & _).
    split; [done|]. by exists (OffChain s t ti am). }
  match goal with H : for_each _ (lock_leg _) _ = (_, ?w1) |- _ =>
    apply lock_legs_Ok in H as (ES & Hlo & Hb1 & Hl1 & HA & HE & _);
      [|done|done|apply sent_legs_nodup| |] end.
  2:{ intros l leg Hin. by apply sent_legs in Hin as [? _]. }
  2:{ intros l leg Hin. by eapply affirmable_unlocked. }
  match goal with H : for_each _ (claim_receipt _ _) _ = _ |- _ =>
    apply claim_receipts_Ok in H as [e ->] end.
  match goal with H : for_each _ (record_affirmation _ _) _ = _ |- _ =>
    apply record_affirmations_Ok in H as [e' ->] end.
  split_and!; try done.
  - simpl. rewrite ES. unfold affirm_store, mark, saturating_sub. simpl.
    unfold instruction_affirms_pending. by rewrite ES.
  - etrans; [exact Hlo|]. by apply locks_only_same.
  - intros k. simpl. etrans; [|apply (Hl1 k)]. apply N.add_le_mono_r, pending_units_mono.
    intros il. unfold getd.
    destruct (decide (il ∈ (λ r, (id, rd_leg_id r)) <$> rs)) as [Hin|Hnin].
    + match goal with |- context [insert_each ?f ?v rs ?m !! il] =>
        destruct (lookup_insert_each f v rs m il Hin) as (r & _ & _ & Hlk) end.
      by rewrite Hlk.
    + by rewrite lookup_insert_each_ne.
  - match goal with H : ensure_origin_perm_and_instruction_validity _ _ _ _ = _ |- _ =>
      apply instruction_validity_Ok in H as (-> & _) end. done.
Qed.

Lemma unsafe_withdraw_Ok d id portfolios sk count w f w' :
  Portfolio.balances_ok (portfolio w) → settle_ok (settlement w) → locks_ok w →
  unsafe_withdraw_instruction_affirmation d id portfolios sk count w = (Ok f, w') →
  let P : gset PortfolioId := list_to_set portfolios in
  let ps := elements P in
  let ils := sender_subset (filtered_legs id P w) in
  f = filtered_legs id P w ∧ withdrawable (settlement w) id ps ils ∧
  settlement w' = withdraw_store id ps ils (settlement w) ∧
  locks_only w w' ∧ Portfolio.balances_ok (portfolio w') ∧ locks_ok w' ∧
  agenda w' = agenda w ∧
  ∀ k, locked_units (portfolio w') k + lsum (λ il, leg_units il.2 k) ils =
       locked_units (portfolio w) k.
Proof.
  intros Hb Hok Hl. unfold unsafe_withdraw_instruction_affirmation, on_settlement.
  intros H. ok_inv.
  match goal with H : ensure_portfolios_and_affirmation_status _ _ _ _ _ _ = _ |- _ =>
    pose proof (ensure_status_Ok _ _ _ _ _ _ H) as Hst end.
  match goal with H : for_each _ (unlock_leg _) _ = (_, ?w1) |- _ =>
    apply unlock_legs_Ok in H as (ES & Hlo & Hb1 & Hl1 & HA & HE & HP & HU);
      [|done|done|apply sent_legs_nodup|] end.
  2:{ intros l leg Hin. by apply sent_legs in Hin as [? _]. }
  match goal with H : for_each _ (record_withdrawal _ _) _ = _ |- _ =>
    apply record_withdrawals_Ok in H as [e ->] end.
  split_and!; try done.
  - constructor; [apply NoDup_elements|intros p Hp; by apply Hst|intros l leg; apply sent_legs].
  - simpl. rewrite ES. done.
  - etrans; [exact Hlo|]. by apply locks_only_same.
Qed.
End inv.
End SettlementInv.
