(* ===== verification/PipsInv.v ===== *)
(** The invariant of the improvement proposals: the count of active proposals,
    the tallies, the live queue, the snapshot, and the locks behind the
    deposits. *)

From stdpp Require Import base numbers list gmap sets strings sorting.
From S2P Require Import Prelude Subset Types ClaimTypes SettlementTypes Schedules PipsTypes State.
From S2P Require Import Identity Claims Sorting Committee Locks PipsQueue Pips SettlementInv.

Local Open Scope N_scope.

Module PipsInv.
Import Sorting PipsQueue Pips.

Notation locked := (Locks.locked_under PIPS_LOCK_ID) (only parsing).

(* ------------------------------------------------------------------ *)
(** ** Sums *)

Lemma msum_set {K V} `{Countable K} (f : K → V → N) (m : gmap K V) k v :
  msum f (<[k := v]> m) + from_option (f k) 0 (m !! k) = msum f m + f k v.
Proof.
  destruct (m !! k) as [v'|] eqn:Hk; simpl.
  - rewrite <- insert_delete_eq, msum_insert_fresh by apply lookup_delete_eq.
    rewrite (msum_lookup f m k v' Hk). lia.
  - rewrite msum_insert_fresh by done. lia.
Qed.

(** What the votes on a proposal add up to. *)
Definition votes_for (m : gmap (PipId * AccountId) PipVote) (id : PipId) (aye : bool) : N :=
  msum (λ k v, if decide (k.1 = id ∧ vote_aye v = aye) then 1 else 0) m.
Definition stake_for (m : gmap (PipId * AccountId) PipVote) (id : PipId) (aye : bool) : N :=
  msum (λ k v, if decide (k.1 = id ∧ vote_aye v = aye) then vote_stake v else 0) m.
Definition tally_of (m : gmap (PipId * AccountId) PipVote) (id : PipId) : VotingResult :=
  mkVotingResult (votes_for m id true) (stake_for m id true)
    (votes_for m id false) (stake_for m id false).
Definition result_fits (r : VotingResult) : Prop :=
  ayes_count r ≤ u32_max ∧ ayes_stake r ≤ u128_max ∧ nays_count r ≤ u32_max ∧ nays_stake r ≤ u128_max.

(** What an account has deposited. *)
Definition deposited (m : gmap (PipId * AccountId) DepositInfo) (who : AccountId) : N :=
  msum (λ k d, if decide (k.2 = who) then deposit_amount d else 0) m.

(** A pending proposal of the community. *)
Definition is_community (s : PipsStore) (id : PipId) : bool :=
  match Proposals s !! id with
  | Some (mkPip _ _ (Community _)) => true
  | _ => false
  end.
Definition queued (s : PipsStore) (id : PipId) : Prop :=
  ProposalStates s !! id = Some PipPending ∧ is_community s id = true.

(* ------------------------------------------------------------------ *)
(** ** The invariant *)

(** [X] are pending proposals that have been taken off the live queue already,
    and [q] is the snapshot as it will be. *)
Record pips_ok (X : list PipId) (q : list SnapshottedPip) (s : PipsStore) (b : BalancesStore)
    : Prop := {
  po_states : ∀ id, is_Some (Proposals s !! id) ↔ is_Some (ProposalStates s !! id);
  po_ids : ∀ id p, Proposals s !! id = Some p → pip_id p = id ∧ id < PipIdSequence s;
  po_sequence : PipIdSequence s ≤ u32_max;
  po_active : ActivePipCount s = msum (λ _ st, if is_active st then 1 else 0) (ProposalStates s);
  po_tally : ∀ id, proposal_result s id = tally_of (ProposalVotes s) id;
  po_fits : ∀ id, result_fits (proposal_result s id);
  po_voted : ∀ id who v, ProposalVotes s !! (id, who) = Some v → is_community s id = true;
  po_sorted : sorted (LiveQueue s);
  po_live : ∀ e, e ∈ LiveQueue s ↔
    queued s (spip_id e) ∧ spip_id e ∉ X ∧ e = aggregate_result (spip_id e) s;
  po_snapshot : ∀ e, e ∈ q → queued s (spip_id e) ∧ spip_id e ∉ X;
  po_distinct : NoDup (spip_id <$> q);
  po_deposits : ∀ id who d, Deposits s !! (id, who) = Some d →
    deposit_owner d = who ∧ is_community s id = true ∧
    (∃ st, ProposalStates s !! id = Some st ∧ is_active st = true) ∧
    ∃ v, ProposalVotes s !! (id, who) = Some v ∧ vote_stake v = deposit_amount d;
  po_stakes : ∀ id who v st, ProposalVotes s !! (id, who) = Some v →
    ProposalStates s !! id = Some st → is_active st = true →
    is_Some (Deposits s !! (id, who));
  po_locks : Locks.locks_ok b;
  po_locked : ∀ who, locked who b = deposited (Deposits s) who;
  po_committee : ∀ id, id ∈ CommitteePips s ↔
    is_Some (Proposals s !! id) ∧ is_community s id = false;
  po_committee_nodup : NoDup (CommitteePips s);
  po_schedule : ∀ id, is_Some (PipToSchedule s !! id) → ProposalStates s !! id = Some PipScheduled;
}.

Definition gov_ok (g : Gov) : Prop :=
  pips_ok [] (SnapshotQueue (pips g)) (pips g) (balances g) ∧
  (SnapshotMeta (pips g) = None → SnapshotQueue (pips g) = []).

(** Proposals that are not queued need not be listed. *)
Lemma pips_ok_off X q s b : pips_ok X q s b → (∀ id, id ∈ X → ¬ queued s id) → pips_ok [] q s b.
Proof.
  intros [] HX. constructor; try done.
  - intros e. rewrite po_live0. split.
    + intros (Hq & _ & He). split_and!; [done|apply not_elem_of_nil|done].
    + intros (Hq & _ & He). split_and!; [done| |done]. intros Hin. by eapply HX.
  - intros e [Hq _]%po_snapshot0. split; [done|apply not_elem_of_nil].
Qed.

(** What the invariant looks at. *)
Definition same_pips (s s' : PipsStore) : Prop :=
  PipIdSequence s' = PipIdSequence s ∧ ActivePipCount s' = ActivePipCount s ∧
  Deposits s' = Deposits s ∧ Proposals s' = Proposals s ∧ ProposalResult s' = ProposalResult s ∧
  ProposalVotes s' = ProposalVotes s ∧ PipToSchedule s' = PipToSchedule s ∧
  LiveQueue s' = LiveQueue s ∧ CommitteePips s' = CommitteePips s ∧
  ProposalStates s' = ProposalStates s.

Lemma pips_ok_same X q s s' b : pips_ok X q s b → same_pips s s' → pips_ok X q s' b.
Proof.
  intros H (E1 & E2 & E3 & E4 & E5 & E6 & E7 & E8 & E9 & E10). destruct H.
  assert (∀ id, proposal_result s' id = proposal_result s id) as ER
    by (intros; unfold proposal_result; by rewrite E5).
  assert (∀ id, is_community s' id = is_community s id) as EC
    by (intros; unfold is_community; by rewrite E4).
  assert (∀ id, queued s' id ↔ queued s id) as EQ by (intros; unfold queued; by rewrite E10, EC).
  assert (∀ id, aggregate_result id s' = aggregate_result id s) as EA
    by (intros; unfold aggregate_result; by rewrite ER).
  constructor; rewrite ?E1, ?E2, ?E3, ?E4, ?E6, ?E7, ?E8, ?E9, ?E10; try done.
  all: intros; rewrite ?ER, ?EC, ?EQ, ?EA in *; eauto.
Qed.

(* ------------------------------------------------------------------ *)
(** ** Refunds *)

Definition owed (ds : list DepositInfo) (who : AccountId) : N :=
  foldr (λ d acc, (if decide (deposit_owner d = who) then deposit_amount d else 0) + acc) 0 ds.

(** What one account has deposited for one proposal. *)
Definition deposit_of (m : gmap (PipId * AccountId) DepositInfo) (id : PipId) (who : AccountId) : N :=
  from_option deposit_amount 0 (m !! (id, who)).

Lemma deposited_remove m id who :
  deposited (remove_prefix id m) who + deposit_of m id who = deposited m who.
Proof.
  unfold deposited, deposit_of. rewrite <- (msum_remove_prefix _ m id). f_equal.
  destruct (m !! (id, who)) as [d|] eqn:Hd; simpl.
  - rewrite (msum_lookup _ m (id, who) d Hd). simpl. rewrite !decide_True by done.
    rewrite msum_zero; [lia|]. intros [i a] d' [Hne _]%lookup_delete_Some. simpl.
    repeat case_decide; subst; done.
  - symmetry. apply msum_zero. intros [i a] d Hia. simpl. repeat case_decide; subst; [|done..].
    by rewrite Hd in Hia.
Qed.

Lemma owed_prefix m id who :
  (∀ a d, m !! (id, a) = Some d → deposit_owner d = a) →
  owed (snd <$> iter_prefix m id) who = deposit_of m id who.
Proof.
  intros Hown. unfold deposit_of.
  pose proof (NoDup_iter_prefix m id) as Hnd. pose proof (elem_of_iter_prefix m id) as Hel. revert Hnd Hel.
  generalize (iter_prefix m id) as l. intros l Hnd Hel.
  assert (∀ a d, (a, d) ∈ l → deposit_owner d = a) as Ho by (intros a d H%Hel; by apply Hown).
  assert (from_option deposit_amount 0 (m !! (id, who)) =
    foldr (λ kd acc, (if decide (kd.1 = who) then deposit_amount kd.2 else 0) + acc) 0 l) as ->.
  { clear Ho Hown. revert m Hel. induction l as [|[a d] l IH]; intros m Hel; simpl.
    - destruct (m !! (id, who)) as [d|] eqn:Hd; [|done]. apply Hel in Hd. by apply elem_of_nil in Hd.
    - apply NoDup_cons in Hnd as [Ha Hnd]. assert (m !! (id, a) = Some d) as Hd by (apply Hel; by left).
      rewrite <- (IH Hnd (delete (id, a) m)).
      + destruct (decide (a = who)) as [->|Hne]; [rewrite Hd, lookup_delete_eq; simpl; lia|].
        rewrite lookup_delete_ne by congruence. lia.
      + intros k2 v. rewrite lookup_delete_Some, <- Hel, elem_of_cons. split.
        * intros Hin. split; [|by right]. intros [= ->]. apply Ha. apply list_elem_of_fmap. by exists (k2, v).
        * intros [Hne [[= -> ->]|]]; done. }
  clear Hnd Hel Hown. unfold owed. induction l as [|[a d] l IH]; simpl; [done|].
  rewrite (Ho a d) by (by left). f_equal. apply IH. intros a' d' Hin. apply Ho. by right.
Qed.

Lemma refund_all_run ds total g :
  Locks.locks_ok (balances g) → (∀ who, owed ds who ≤ locked who (balances g)) →
  ∃ b t, refund_all ds total g = (Ok t, g <| balances := b |>) ∧ Locks.locks_ok b ∧
    ∀ id who, Locks.locked_under id who b + (if decide (id = PIPS_LOCK_ID) then owed ds who else 0) =
      Locks.locked_under id who (balances g).
Proof.
  revert total g. induction ds as [|d ds IH]; intros total g Hok Hle; simpl.
  { exists (balances g), total. split_and!; [by destruct g|done|]. intros id who. case_decide; lia. }
  destruct (Locks.reduce_lock_run PIPS_LOCK_ID (deposit_owner d) (deposit_amount d) (balances g) Hok)
    as [b Hb].
  { specialize (Hle (deposit_owner d)). simpl in Hle. rewrite decide_True in Hle by done. lia. }
  destruct (Locks.reduce_lock_Ok _ _ _ _ _ Hok Hb) as [Hok' Hch].
  unfold check, modify, mbind, SE_bind. rewrite Hb.
  destruct (IH (saturating_add u128_max (deposit_amount d) total) (g <| balances := b |>)) as (b' & t & E & Hok2 & Hl).
  - done.
  - intros who. specialize (Hle who). specialize (Hch PIPS_LOCK_ID who). simpl in *.
    repeat case_decide; naive_solver lia.
  - exists b', t. rewrite E. split_and!; [done|done|]. intros id who. specialize (Hl id who).
    specialize (Hch id who). simpl in *. repeat case_decide; naive_solver lia.
Qed.

(* ------------------------------------------------------------------ *)
(** ** Closing a proposal *)

(** A computation of the other pallets, or of the scheduler. *)
Lemma lift_frame {A} (m : M A) g r g' :
  lift m g = (r, g') → pips g' = pips g ∧ balances g' = balances g ∧ tasks g' = tasks g.
Proof. unfold lift. destruct (m (gov_world g)) as [r' w]. by intros [= <- <-]. Qed.

Definition closed (id : PipId) (new : ProposalState) (prune : bool) (s : PipsStore) : PipsStore :=
  let s := match ProposalStates s !! id with
           | Some old => (decrement_count_if_active old s) <| ProposalStates ::= <[id := new]> |>
           | None => s
           end in
  let s := s <| Deposits ::= remove_prefix id |> in
  if prune then forget_pip id s else s.

(** The deposits of a proposal go back to those who made them. *)
Definition refunded (id : PipId) (g g' : Gov) : Prop :=
  Locks.locks_ok (balances g') ∧
  ∀ l who, Locks.locked_under l who (balances g') +
      (if decide (l = PIPS_LOCK_ID) then deposit_of (Deposits (pips g)) id who else 0) =
    Locks.locked_under l who (balances g).

(** The deposits are those of their owners, and they are locked. *)
Definition deposits_ok (m : gmap (PipId * AccountId) DepositInfo) (b : BalancesStore) : Prop :=
  Locks.locks_ok b ∧ (∀ id who d, m !! (id, who) = Some d → deposit_owner d = who) ∧
  ∀ who, locked who b = deposited m who.

Lemma pips_deposits X q s b : pips_ok X q s b → deposits_ok (Deposits s) b.
Proof.
  intros Hok. split_and!; [apply Hok| |apply Hok].
  intros id who d Hd. by apply (po_deposits _ _ _ _ Hok id).
Qed.

Lemma refund_run did id g :
  deposits_ok (Deposits (pips g)) (balances g) →
  ∃ g', refund_proposal did id g = (Ok tt, g') ∧
    pips g' = (pips g) <| Deposits ::= remove_prefix id |> ∧ refunded id g g'.
Proof.
  intros (Hb & Hown & Hlock). unfold refund_proposal, gets, mbind, SE_bind.
  destruct (refund_all_run (snd <$> iter_prefix (Deposits (pips g)) id) 0 g Hb) as (b & t & E & Hb' & Hl).
  - intros who. rewrite owed_prefix by eauto. rewrite Hlock.
    pose proof (deposited_remove (Deposits (pips g)) id who). lia.
  - rewrite E. eexists. split_and!; [reflexivity|done|]. split; [done|]. simpl. intros l who.
    rewrite <- (Hl l who). f_equal. case_decide; [|done]. rewrite owed_prefix; eauto.
Qed.

Lemma maybe_prune_run did id new g :
  deposits_ok (Deposits (pips g)) (balances g) → is_active new = false →
  ∃ g', maybe_prune did id new g = (Ok tt, g') ∧
    pips g' = closed id new (PruneHistoricalPips (pips g)) (pips g) ∧ refunded id g g'.
Proof.
  intros Hok Hnew. unfold maybe_prune.
  destruct (update_proposal_state did id new g) as [r g1] eqn:Hu.
  assert (r = Ok tt ∧ balances g1 = balances g ∧ pips g1 =
    match ProposalStates (pips g) !! id with
    | Some old => (decrement_count_if_active old (pips g)) <| ProposalStates ::= <[id := new]> |>
    | None => pips g
    end) as (-> & EB & ES).
  { unfold update_proposal_state, on_pips, modify, event, lift, deposit_event, mbind, SE_bind in Hu.
    simpl in Hu. rewrite Hnew in Hu. injection Hu as <- <-. by split_and!. }
  assert (Deposits (pips g1) = Deposits (pips g) ∧
    PruneHistoricalPips (pips g1) = PruneHistoricalPips (pips g)) as [ED EP].
  { rewrite ES. destruct (ProposalStates (pips g) !! id) as [st|]; [|done].
    unfold decrement_count_if_active. by destruct (is_active st). }
  destruct (refund_run did id g1) as (g2 & E2 & ES2 & Hr); [by rewrite ED, EB|].
  unfold mbind at 1, SE_bind at 1. rewrite Hu. unfold gets. unfold mbind at 1, SE_bind at 1.
  unfold prune_data. unfold mbind at 1, SE_bind at 1. rewrite E2.
  assert (closed id new (PruneHistoricalPips (pips g)) (pips g) =
    (if PruneHistoricalPips (pips g1) then forget_pip id (pips g2) else pips g2)) as ->.
  { rewrite EP, ES2, ES. by unfold closed. }
  unfold decrement_count_if_active, on_pips, modify, event, lift, deposit_event, mbind, SE_bind.
  rewrite Hnew. destruct (PruneHistoricalPips (pips g1)); simpl; (eexists; split_and!; [reflexivity|by destruct g2|]);
    (split; [apply Hr|]); intros l who; destruct Hr as [_ Hr]; specialize (Hr l who);
    rewrite ED, EB in Hr; exact Hr.
Qed.

(** What closing a proposal leaves of the other pallets: three events. *)
Definition refund_total (ds : list DepositInfo) (total : Balance) : Balance :=
  foldl (λ t d, saturating_add u128_max (deposit_amount d) t) total ds.

Lemma refund_all_world ds total g t g' :
  refund_all ds total g = (Ok t, g') →
  t = refund_total ds total ∧ gov_world g' = gov_world g ∧ tasks g' = tasks g.
Proof.
  revert total g. induction ds as [|d ds IH]; intros total g H; simpl in H.
  { by apply ret_Ok in H as [-> ->]. }
  apply SE_bind_Ok in H as (b & g1 & [_ ->]%check_Ok & H).
  apply SE_bind_Ok in H as (u & g2 & ->%modify_Ok & H). by apply IH in H.
Qed.

Lemma events_twice (a b : list Event) (w : World) :
  w <| events ::= λ l, l ++ a |> <| events ::= λ l, l ++ b |> = w <| events ::= λ l, l ++ (a ++ b) |>.
Proof.
  transitivity (w <| events := (events w ++ a) ++ b |>); [reflexivity|]. by rewrite <- (assoc_L (++)).
Qed.

Definition close_events (id : PipId) (new : ProposalState) (s : PipsStore) (did : IdentityId) : list Event :=
  [ProposalStateUpdated did id new;
   ProposalRefund did id (refund_total (snd <$> iter_prefix (Deposits s) id) 0);
   PipClosed did id (PruneHistoricalPips s)].

Lemma maybe_prune_world did id new g g' :
  is_active new = false → maybe_prune did id new g = (Ok tt, g') →
  gov_world g' = (gov_world g) <| events ::= λ l, l ++ close_events id new (pips g) did |> ∧
  tasks g' = tasks g.
Proof.
  intros Hnew H. unfold maybe_prune in H. apply SE_bind_Ok in H as (u & g1 & H1 & H).
  assert (gov_world g1 = (gov_world g) <| events ::= λ l, l ++ [ProposalStateUpdated did id new] |> ∧
    tasks g1 = tasks g ∧ Deposits (pips g1) = Deposits (pips g) ∧
    PruneHistoricalPips (pips g1) = PruneHistoricalPips (pips g)) as (E1 & T1 & D1 & P1).
  { unfold update_proposal_state, on_pips, modify, event, lift, deposit_event, mbind, SE_bind in H1.
    simpl in H1. rewrite Hnew in H1. injection H1 as _ <-. split_and!; [done|done|..]; simpl;
      (destruct (ProposalStates (pips g) !! id) as [st|]; [|done]);
      unfold decrement_count_if_active; by destruct (is_active st). }
  apply SE_bind_Ok in H as (prune & g2 & H2 & H). unfold gets in H2. injection H2 as <- <-.
  unfold prune_data in H. apply SE_bind_Ok in H as (u2 & g2 & H2 & H). unfold refund_proposal in H2.
  apply SE_bind_Ok in H2 as (ds & g3 & H3 & H2). unfold gets in H3. injection H3 as <- <-.
  apply SE_bind_Ok in H2 as (t & g3 & H3 & H2). apply refund_all_world in H3 as (-> & E3 & T3).
  assert (gov_world g2 = (gov_world g3) <| events ::= λ l, l ++ [ProposalRefund did id
            (refund_total (snd <$> iter_prefix (Deposits (pips g1)) id) 0)] |> ∧ tasks g2 = tasks g3) as [E2 T2].
  { unfold on_pips, modify, event, lift, deposit_event, mbind, SE_bind in H2. by injection H2 as _ <-. }
  assert (gov_world g' = (gov_world g2) <| events ::= λ l, l ++ [PipClosed did id (PruneHistoricalPips (pips g1))] |> ∧
    tasks g' = tasks g2) as [E4 T4].
  { unfold on_pips, modify, event, lift, deposit_event, mbind, SE_bind in H.
    destruct (PruneHistoricalPips (pips g1)); by injection H as <-. }
  split; [|by rewrite T4, T2, T3]. rewrite E4, E2, E3, E1, D1, P1. unfold close_events.
  by rewrite !events_twice.
Qed.

(** What is known of the states afterwards. *)
Lemma closed_states id new prune s i :
  is_active new = false →
  ProposalStates (closed id new prune s) !! i =
    (if decide (i = id) then (if prune : bool then None
       else match ProposalStates s !! id with Some _ => Some new | None => None end)
     else ProposalStates s !! i).
Proof.
  intros _. unfold closed.
  assert (∀ st, ProposalStates (decrement_count_if_active st s) = ProposalStates s) as Ed
    by (intros st; unfold decrement_count_if_active; by destruct (is_active st)).
  assert (∀ s', ProposalStates (forget_pip id s') = delete id (ProposalStates s')) as Ef.
  { intros s'. unfold forget_pip. simpl. by destruct (pip_proposer <$> _) as [[]|]. }
  destruct (ProposalStates s !! id) as [old|] eqn:Hid, prune; rewrite ?Ef; simpl; rewrite ?Ed;
    case_decide; subst; rewrite ?lookup_delete_eq, ?lookup_insert_eq; try done.
  - by rewrite lookup_delete_ne, lookup_insert_ne.
  - by rewrite lookup_insert_ne.
  - by rewrite lookup_delete_ne.
Qed.

Lemma deposited_le m id who : deposit_of m id who ≤ deposited m who.
Proof. pose proof (deposited_remove m id who). lia. Qed.

(** A proposal leaves the active ones. *)
Lemma close_ok X q s b b' id new :
  pips_ok X q s b → is_active new = false → (queued s id → id ∈ X) → PipToSchedule s !! id = None →
  Locks.locks_ok b' → (∀ who, locked who b' + deposit_of (Deposits s) id who = locked who b) →
  pips_ok X q (closed id new false s) b'.
Proof.
  intros Hok Hnew HX Hsch Hb' Hl. set (s' := closed id new false s).
  assert (∀ st, decrement_count_if_active st s =
    s <| ActivePipCount := ActivePipCount s - (if is_active st then 1 else 0) |>) as Ed.
  { intros st. unfold decrement_count_if_active, saturating_sub. destruct (is_active st); [done|].
    rewrite N.sub_0_r. by destruct s. }
  assert (Proposals s' = Proposals s ∧ PipIdSequence s' = PipIdSequence s ∧
    ProposalResult s' = ProposalResult s ∧ ProposalVotes s' = ProposalVotes s ∧
    LiveQueue s' = LiveQueue s ∧ CommitteePips s' = CommitteePips s ∧
    PipToSchedule s' = PipToSchedule s ∧ Deposits s' = remove_prefix id (Deposits s))
    as (E1 & E2 & E3 & E4 & E5 & E6 & E7 & E8).
  { unfold s', closed. destruct (ProposalStates s !! id) as [old|]; [rewrite Ed|]; by split_and!. }
  assert (∀ i, ProposalStates s' !! i = if decide (i = id)
    then match ProposalStates s !! id with Some _ => Some new | None => None end
    else ProposalStates s !! i) as ES by (intros i; exact (closed_states id new false s i Hnew)).
  assert (∀ i, is_community s' i = is_community s i) as EC by (intros; unfold is_community; by rewrite E1).
  assert (∀ i, queued s' i ↔ queued s i ∧ i ≠ id) as EQ.
  { intros i. unfold queued. rewrite ES, EC. destruct (decide (i = id)) as [->|]; [|naive_solver].
    destruct (ProposalStates s !! id); split; naive_solver. }
  destruct Hok. constructor; rewrite ?E1, ?E2, ?E4, ?E5, ?E6, ?E7; try done.
  - intros i. rewrite po_states0, ES. case_decide; [subst i|done]. by destruct (ProposalStates s !! id).
  - unfold s', closed. destruct (ProposalStates s !! id) as [old|] eqn:Hold; simpl; [|done].
    rewrite Ed. simpl. pose proof (msum_set (λ _ st, if is_active st then 1 else 0)
      (ProposalStates s) id new) as Hm. rewrite Hold, Hnew in Hm. simpl in Hm. rewrite po_active0.
    change (λ (_ : PipId) (st : ProposalState), if is_active st then 1 else 0) with
      (λ (_ : N) (st : ProposalState), if is_active st then 1 else 0) in Hm. lia.
  - intros i. unfold proposal_result. rewrite E3. apply po_tally0.
  - intros i. unfold proposal_result. rewrite E3. apply po_fits0.
  - intros i who v. rewrite EC. apply po_voted0.
  - intros e. rewrite po_live0, EQ. unfold aggregate_result, proposal_result. rewrite E3. naive_solver.
  - intros e He. destruct (po_snapshot0 e He) as [Hq Hx]. rewrite EQ. split_and!; [done| |done].
    intros <-. by apply Hx, HX.
  - intros i who d. rewrite E8, lookup_remove_prefix, EC, ES. case_decide; [done|]. apply po_deposits0.
  - intros i who v st Hv. rewrite ES, E8, lookup_remove_prefix. case_decide; [|by eapply po_stakes0].
    intros Hst Hact. destruct (ProposalStates s !! id); [|done]. injection Hst as <-. congruence.
  - intros who. rewrite E8. pose proof (deposited_remove (Deposits s) id who). specialize (Hl who).
    rewrite po_locked0 in Hl. lia.
  - intros i. rewrite EC. apply po_committee0.
  - intros i Hi. rewrite ES. case_decide; [|by apply po_schedule0]. subst i. rewrite Hsch in Hi. by destruct Hi.
Qed.

Lemma tally_remove m id i :
  tally_of (remove_prefix id m) i = if decide (i = id) then no_votes else tally_of m i.
Proof.
  assert (∀ f : PipId * AccountId → PipVote → N, (∀ k v, k.1 ≠ i → f k v = 0) →
    msum f (remove_prefix id m) = if decide (i = id) then 0 else msum f m) as Hm.
  { intros f Hf. case_decide as Hi.
    - subst i. apply msum_zero. intros [j a] v. rewrite lookup_remove_prefix. case_decide; [done|].
      intros _. by apply Hf.
    - pose proof (msum_remove_prefix f m id) as Hr.
      rewrite (msum_zero (λ k v, if decide (k.1 = id) then f k v else 0)) in Hr; [lia|].
      intros k v _. case_decide; [|done]. apply Hf. congruence. }
  unfold tally_of, votes_for, stake_for.
  rewrite !Hm by (intros k v Hne; rewrite decide_False by naive_solver; done).
  by case_decide.
Qed.

(** The data of a closed proposal is forgotten. *)
Lemma forget_ok X q s b id :
  pips_ok X q s b → (∀ st, ProposalStates s !! id = Some st → is_active st = false) →
  pips_ok X q (forget_pip id s) b.
Proof.
  intros Hok Hst. set (s' := forget_pip id s).
  assert (Proposals s' = delete id (Proposals s) ∧ ProposalStates s' = delete id (ProposalStates s) ∧
    PipIdSequence s' = PipIdSequence s ∧ ActivePipCount s' = ActivePipCount s ∧
    ProposalResult s' = delete id (ProposalResult s) ∧
    ProposalVotes s' = remove_prefix id (ProposalVotes s) ∧ LiveQueue s' = LiveQueue s ∧
    PipToSchedule s' = PipToSchedule s ∧ Deposits s' = Deposits s)
    as (E1 & E2 & E3 & E4 & E5 & E6 & E7 & E8 & E9).
  { unfold s', forget_pip. simpl. by destruct (pip_proposer <$> _) as [[]|]; split_and!. }
  assert (∀ i, is_community s' i = if decide (i = id) then false else is_community s i) as EC.
  { intros i. unfold is_community. rewrite E1. case_decide; [subst i; by rewrite lookup_delete_eq|].
    by rewrite lookup_delete_ne. }
  assert (¬ queued s id) as Hnq by (intros [Hq _]; by apply Hst in Hq).
  assert (∀ i, queued s' i ↔ queued s i) as EQ.
  { intros i. unfold queued. rewrite E2, EC. destruct (decide (i = id)) as [->|].
    - rewrite lookup_delete_eq. naive_solver.
    - by rewrite lookup_delete_ne. }
  assert (∀ i, proposal_result s' i = if decide (i = id) then no_votes else proposal_result s i) as ER.
  { intros i. unfold proposal_result, getd. rewrite E5. case_decide; [subst i; by rewrite lookup_delete_eq|].
    by rewrite lookup_delete_ne. }
  assert (∀ who, Deposits s !! (id, who) = None) as Hnd.
  { intros who. destruct (Deposits s !! (id, who)) as [d|] eqn:Hd; [|done].
    apply (po_deposits _ _ _ _ Hok) in Hd as (_ & _ & (st & H1 & H2) & _). apply Hst in H1. congruence. }
  assert (∀ i, i ∈ CommitteePips s' ↔ i ∈ CommitteePips s ∧ i ≠ id) as EP.
  { intros i. unfold s', forget_pip. simpl. pose proof (po_committee _ _ _ _ Hok id) as Hc.
    unfold is_community in Hc. destruct (Proposals s !! id) as [[pid pr [who|c]]|]; simpl.
    - naive_solver.
    - rewrite list_elem_of_filter. naive_solver.
    - destruct Hc as [Hc _]. split; [|naive_solver]. intros Hi. split; [done|]. intros ->.
      apply Hc in Hi as [[? ?] _]. done. }
  destruct Hok. constructor; rewrite ?E1, ?E2, ?E3, ?E4, ?E6, ?E7, ?E8, ?E9; try done.
  - intros i. destruct (decide (i = id)) as [->|]; [by rewrite !lookup_delete_eq|].
    by rewrite !lookup_delete_ne.
  - intros i p [_ Hp]%lookup_delete_Some. by apply po_ids0.
  - rewrite po_active0. destruct (ProposalStates s !! id) as [st|] eqn:Hid; [|by rewrite delete_id].
    rewrite (msum_lookup _ _ id st Hid), (Hst st eq_refl). lia.
  - intros i. rewrite ER, tally_remove. case_decide; [done|]. apply po_tally0.
  - intros i. rewrite ER. case_decide; [by split_and!|]. apply po_fits0.
  - intros i who v. rewrite lookup_remove_prefix, EC. case_decide; [done|]. apply po_voted0.
  - intros e. rewrite po_live0, EQ. unfold aggregate_result. rewrite ER. case_decide as Hi; [|done].
    rewrite Hi. naive_solver.
  - intros e He. rewrite EQ. by apply po_snapshot0.
  - intros i who d Hd. rewrite EC, lookup_remove_prefix. destruct (decide (i = id)) as [->|]; [by rewrite Hnd in Hd|].
    rewrite lookup_delete_ne by done. by apply po_deposits0.
  - intros i who v st. rewrite lookup_remove_prefix. case_decide; [done|].
    rewrite lookup_delete_ne by done. apply po_stakes0.
  - intros i. rewrite EP, po_committee0, EC. destruct (decide (i = id)) as [->|].
    + rewrite lookup_delete_eq. split; [naive_solver|]. by intros [[? ?] _].
    + rewrite lookup_delete_ne by done. naive_solver.
  - unfold s', forget_pip. simpl. destruct (pip_proposer <$> _) as [[]|]; simpl; [done| |done].
    by apply NoDup_filter.
  - intros i Hi%po_schedule0. destruct (decide (i = id)) as [->|]; [by apply Hst in Hi|].
    by rewrite lookup_delete_ne.
Qed.

(** [maybe_prune] as the calls use it. *)
Lemma maybe_prune_ok X q did id new g r g' :
  pips_ok X q (pips g) (balances g) → is_active new = false → (queued (pips g) id → id ∈ X) →
  PipToSchedule (pips g) !! id = None → maybe_prune did id new g = (r, g') →
  r = Ok tt ∧ pips_ok X q (pips g') (balances g') ∧
  pips g' = closed id new (PruneHistoricalPips (pips g)) (pips g) ∧ refunded id g g'.
Proof.
  intros Hok Hnew HX Hsch H.
  destruct (maybe_prune_run did id new g) as (g2 & E & ES & Hr); [by eapply pips_deposits|done|].
  rewrite E in H. injection H as <- <-. split_and!; [done| |done|done]. rewrite ES.
  assert (pips_ok X q (closed id new false (pips g)) (balances g2)) as Hc.
  { destruct Hr as [Hb Hl]. by apply (close_ok X q _ (balances g)). }
  destruct (PruneHistoricalPips (pips g)); [|done].
  apply (forget_ok X q (closed id new false (pips g))); [done|]. intros st.
  rewrite closed_states by done. rewrite decide_True by done.
  destruct (ProposalStates (pips g) !! id); [|done]. by intros [= <-].
Qed.

(* ------------------------------------------------------------------ *)
(** ** Approving, and leaving the queues *)

Lemma scheduled_ok X q s b id at_ :
  pips_ok X q s b → ProposalStates s !! id = Some PipPending → (queued s id → id ∈ X) →
  pips_ok X q (s <| PipToSchedule ::= <[id := at_]> |> <| ProposalStates ::= <[id := PipScheduled]> |>) b.
Proof.
  intros Hok Hid HX. set (s' := s <| PipToSchedule ::= _ |> <| ProposalStates ::= _ |>).
  assert (∀ i, queued s' i ↔ queued s i ∧ i ≠ id) as EQ.
  { intros i. unfold queued. change (is_community s' i) with (is_community s i). simpl.
    destruct (decide (i = id)) as [->|]; [rewrite lookup_insert_eq|rewrite lookup_insert_ne by done]; naive_solver. }
  destruct Hok. constructor; try done; simpl.
  - intros i. rewrite po_states0. destruct (decide (i = id)) as [->|].
    + rewrite lookup_insert_eq, Hid. by split; intros _; eexists.
    + by rewrite lookup_insert_ne.
  - pose proof (msum_set (λ (_ : N) st, if is_active st then 1 else 0) (ProposalStates s) id PipScheduled) as Hm.
    rewrite Hid in Hm. simpl in Hm. rewrite po_active0. lia.
  - intros e. rewrite po_live0, EQ. change (aggregate_result (spip_id e) s') with (aggregate_result (spip_id e) s).
    naive_solver.
  - intros e He. destruct (po_snapshot0 e He) as [Hq Hx]. rewrite EQ. split_and!; [done| |done].
    intros <-. by apply Hx, HX.
  - intros i who d Hd. destruct (po_deposits0 i who d Hd) as (H1 & H2 & (st & H3 & H4) & H5).
    split_and!; [done|done| |done]. destruct (decide (i = id)) as [->|].
    + exists PipScheduled. by rewrite lookup_insert_eq.
    + exists st. by rewrite lookup_insert_ne.
  - intros i who v st Hv Hst Hact. destruct (decide (i = id)) as [->|].
    + by apply (po_stakes0 id who v PipPending).
    + rewrite lookup_insert_ne in Hst by done. by eapply po_stakes0.
  - intros i. destruct (decide (i = id)) as [->|].
    + intros _. by rewrite lookup_insert_eq.
    + rewrite !lookup_insert_ne by done. apply po_schedule0.
Qed.

Lemma elem_of_remove_from id q e : e ∈ remove_from_queue id q ↔ e ∈ q ∧ spip_id e ≠ id.
Proof. unfold remove_from_queue. rewrite list_elem_of_filter. tauto. Qed.

Lemma dequeue_ok q q' s b (f : SnapshottedPip → Prop) `{∀ e, Decision (f e)} ids :
  pips_ok [] q s b → (∀ e, f e ↔ spip_id e ∉ ids) → q' `sublist_of` q →
  (∀ e, e ∈ q' → spip_id e ∉ ids) → pips_ok ids q' (s <| LiveQueue ::= filter f |>) b.
Proof.
  intros Hok Hf Hsub Hq'. set (s' := s <| LiveQueue ::= _ |>). destruct Hok. constructor; try done; simpl.
  - eapply sorted_sublist, po_sorted0. apply sublist_filter.
  - intros e. rewrite list_elem_of_filter, po_live0, Hf.
    change (queued s' (spip_id e)) with (queued s (spip_id e)).
    change (aggregate_result (spip_id e) s') with (aggregate_result (spip_id e) s). split.
    + naive_solver.
    + intros (H1 & H2 & H3). split_and!; [done|done|apply not_elem_of_nil|done].
  - intros e He. split; [|by apply Hq']. apply po_snapshot0. by eapply elem_of_sublist.
  - eapply sublist_NoDup; [exact po_distinct0|]. by apply fmap_sublist.
Qed.

(* ------------------------------------------------------------------ *)
(** ** Votes *)

Lemma votes_for_set m id who v aye :
  votes_for (<[(id, who) := v]> m) id aye +
    from_option (λ o, if decide (vote_aye o = aye) then 1 else 0) 0 (m !! (id, who)) =
  votes_for m id aye + (if decide (vote_aye v = aye) then 1 else 0).
Proof.
  unfold votes_for. pose proof (msum_set
    (λ (k : PipId * AccountId) v, if decide (k.1 = id ∧ vote_aye v = aye) then 1 else 0) m (id, who) v) as H.
  simpl in H. destruct (m !! (id, who)) as [o|]; simpl in *; repeat case_decide; naive_solver lia.
Qed.

Lemma stake_for_set m id who v aye :
  stake_for (<[(id, who) := v]> m) id aye +
    from_option (λ o, if decide (vote_aye o = aye) then vote_stake o else 0) 0 (m !! (id, who)) =
  stake_for m id aye + (if decide (vote_aye v = aye) then vote_stake v else 0).
Proof.
  unfold stake_for. pose proof (msum_set
    (λ (k : PipId * AccountId) v, if decide (k.1 = id ∧ vote_aye v = aye) then vote_stake v else 0) m (id, who) v) as H.
  simpl in H. destruct (m !! (id, who)) as [o|]; simpl in *; repeat case_decide; naive_solver lia.
Qed.

Lemma tally_other m id who v i : i ≠ id → tally_of (<[(id, who) := v]> m) i = tally_of m i.
Proof.
  intros Hne. assert (∀ f : PipId * AccountId → PipVote → N, (∀ k v, k.1 ≠ i → f k v = 0) →
    msum f (<[(id, who) := v]> m) = msum f m) as Hm.
  { intros f Hf. pose proof (msum_set f m (id, who) v) as H. rewrite (Hf (id, who) v) in H by done.
    destruct (m !! (id, who)) as [o|]; simpl in H; [rewrite (Hf (id, who) o) in H by done|]; lia. }
  unfold tally_of, votes_for, stake_for.
  by rewrite !Hm by (intros k u Hk; rewrite decide_False by naive_solver; done).
Qed.

(** The counters after a vote are the sums of the votes. *)
Lemma tally_has m id who v :
  m !! (id, who) = Some v → 1 ≤ votes_for m id (vote_aye v) ∧ vote_stake v ≤ stake_for m id (vote_aye v).
Proof.
  intros Hv. unfold votes_for, stake_for. split.
  - pose proof (msum_lookup_le (λ (k : PipId * AccountId) u,
      if decide (k.1 = id ∧ vote_aye u = vote_aye v) then 1 else 0) m (id, who) v Hv) as H.
    simpl in H. by rewrite decide_True in H.
  - pose proof (msum_lookup_le (λ (k : PipId * AccountId) u,
      if decide (k.1 = id ∧ vote_aye u = vote_aye v) then vote_stake u else 0) m (id, who) v Hv) as H.
    simpl in H. by rewrite decide_True in H.
Qed.

Definition without (m : gmap (PipId * AccountId) PipVote) (id : PipId) (who : AccountId) : VotingResult :=
  match m !! (id, who) with Some old => retract_vote old (tally_of m id) | None => tally_of m id end.

(** The tally without the earlier vote of the voter. *)
Lemma without_tally m id who v :
  result_fits (tally_of m id) →
  result_fits (without m id who) ∧
  tally_of (<[(id, who) := v]> m) id =
    (if vote_aye v then
       (without m id who) <| ayes_count ::= λ n, n + 1 |> <| ayes_stake ::= λ n, n + vote_stake v |>
     else
       (without m id who) <| nays_count ::= λ n, n + 1 |> <| nays_stake ::= λ n, n + vote_stake v |>).
Proof.
  intros (F1 & F2 & F3 & F4).
  pose proof (votes_for_set m id who v true). pose proof (votes_for_set m id who v false).
  pose proof (stake_for_set m id who v true). pose proof (stake_for_set m id who v false).
  unfold without. unfold tally_of in *. simpl in *.
  destruct (m !! (id, who)) as [o|] eqn:Ho; simpl in *.
  - apply tally_has in Ho as [C S]. unfold retract_vote, result_fits, upd, setter.
    destruct (vote_aye o), (vote_aye v); simpl in *;
      rewrite !wrapping_sub_small by lia; (split; [split_and!; simpl; lia|]); f_equal; lia.
  - destruct (vote_aye v); simpl in *; (split; [by split_and!|]); unfold upd, setter; simpl; f_equal; lia.
Qed.

Lemma cast_tally m id who v r' :
  result_fits (tally_of m id) → cast_vote v (without m id who) = Ok r' →
  r' = tally_of (<[(id, who) := v]> m) id ∧ result_fits r'.
Proof.
  intros Hfit H. destruct (without_tally m id who v Hfit) as [(F1 & F2 & F3 & F4) ->].
  revert F1 F2 F3 F4 H. generalize (without m id who). intros r F1 F2 F3 F4 H.
  unfold cast_vote in H. destruct (vote_aye v); ok_inv;
    repeat match goal with H : checked_add _ _ _ = Some _ |- _ => apply checked_add_Some in H as [-> ?] end;
    (split; [done|by split_and!]).
Qed.

(** The entry of a proposal moves to its new place. *)
Lemma adjust_queue_spec old new q :
  sorted q → old ∈ q → (∀ e, e ∈ q → spip_id e = spip_id old → e = old) → spip_id new = spip_id old →
  sorted (adjust_queue old new q) ∧
  ∀ e, e ∈ adjust_queue old new q ↔ (e ∈ q ∧ spip_id e ≠ spip_id old) ∨ e = new.
Proof.
  intros Hs Hin Huniq Hid. unfold adjust_queue.
  destruct (search_queued q old Hs Hin) as (i & -> & Hi).
  destruct (remove_queued q i old Hs Hi) as [Hs' Hperm].
  assert (∀ e, e ∈ vec_remove i q ↔ e ∈ q ∧ spip_id e ≠ spip_id old) as He.
  { intros e. pose proof (sorted_NoDup q Hs) as Hnd. rewrite <- Hperm in Hnd.
    apply NoDup_cons in Hnd as [Hold _]. rewrite <- Hperm at 2. rewrite elem_of_cons. split.
    - intros He. split; [by right|]. intros E. apply Hold. rewrite <- (Huniq e); [done| |done].
      rewrite <- Hperm. by right.
    - intros [[->|He] Hne]; done. }
  destruct (search_new (vec_remove i q) new Hs') as (j & -> & Hs2 & Hperm2).
  { intros [_ Hne]%He. by apply Hne. }
  split; [done|]. intros e. rewrite Hperm2, elem_of_cons, He. tauto.
Qed.

(** A vote with its deposit. *)
Lemma voted_ok X q s b b' id who v res lq :
  let s' := s <| ProposalResult ::= <[id := res]> |> <| ProposalVotes ::= <[(id, who) := v]> |>
              <| LiveQueue := lq |>
              <| Deposits ::= <[(id, who) := mkDepositInfo who (vote_stake v)]> |> in
  pips_ok X q s b → (∀ i, i ∈ X → i = id) → queued s id →
  res = tally_of (<[(id, who) := v]> (ProposalVotes s)) id → result_fits res →
  Locks.locks_ok b' →
  (∀ w, locked w b' + (if decide (w = who) then deposit_of (Deposits s) id who else 0) =
        locked w b + (if decide (w = who) then vote_stake v else 0)) →
  sorted lq → (∀ e, e ∈ lq ↔ (e ∈ LiveQueue s ∧ spip_id e ≠ id) ∨ e = aggregate_result id s') →
  pips_ok [] q s' b'.
Proof.
  intros s' Hok HX [Hpend Hcom] Hres Hfit Hb' Hl Hs Hlq.
  assert (∀ i, proposal_result s' i = if decide (i = id) then res else proposal_result s i) as ER.
  { intros i. unfold proposal_result, s'. simpl. rewrite getd_insert. repeat case_decide; naive_solver. }
  assert (∀ i, i ≠ id → aggregate_result i s' = aggregate_result i s) as EA.
  { intros i Hi. unfold aggregate_result. by rewrite ER, decide_False by done. }
  destruct Hok. constructor; simpl; try done.
  - intros i. rewrite ER. case_decide; [by subst i|]. rewrite po_tally0, tally_other; done.
  - intros i. rewrite ER. by case_decide.
  - intros i w u [[[= <- <-] <-]|[_ Hu]]%lookup_insert_Some; [done|]. by eapply po_voted0.
  - intros e. rewrite Hlq, po_live0. change (queued s' (spip_id e)) with (queued s (spip_id e)).
    destruct (decide (spip_id e = id)) as [E|Hne].
    + rewrite E. split.
      * intros [[_ ?]|?]; [done|]. split_and!; [done|by apply not_elem_of_nil|done].
      * intros (_ & _ & ?). by right.
    + rewrite (EA (spip_id e)) by done. split.
      * intros [[(H1 & H2 & H3) _]| -> ]; [|done]. split_and!; [done|by apply not_elem_of_nil|done].
      * intros (H1 & H2 & H3). left. split_and!; try done. intros Hx. by apply HX in Hx.
  - intros e He. destruct (po_snapshot0 e He) as [Hq _]. split; [done|apply not_elem_of_nil].
  - intros i w d [[[= <- <-] <-]|[Hne Hd]]%lookup_insert_Some.
    + split_and!; [done|done|by exists PipPending|]. exists v. by rewrite lookup_insert_eq.
    + destruct (po_deposits0 i w d Hd) as (H1 & H2 & H3 & H4). rewrite lookup_insert_ne by done.
      by split_and!.
  - intros i w u st Hu Hst Hact. destruct (decide ((i, w) = (id, who))) as [->|Hne].
    + by rewrite lookup_insert_eq.
    + rewrite lookup_insert_ne in Hu by done. rewrite lookup_insert_ne by done. by eapply po_stakes0.
  - intros w. specialize (Hl w). rewrite po_locked0 in Hl. unfold deposited in *.
    pose proof (msum_set (λ (k : PipId * AccountId) d, if decide (k.2 = w) then deposit_amount d else 0)
      (Deposits s) (id, who) (mkDepositInfo who (vote_stake v))) as Hm. simpl in Hm.
    unfold deposit_of in Hl. destruct (Deposits s !! (id, who)) as [d|]; simpl in *;
      repeat case_decide; subst; try done; lia.
Qed.

(* ------------------------------------------------------------------ *)
(** ** New proposals *)

(** Ids are handed out in order, so the counters cannot overflow first. *)
Lemma active_bound X q s b : pips_ok X q s b → ActivePipCount s ≤ PipIdSequence s.
Proof.
  intros Hok. rewrite (po_active _ _ _ _ Hok).
  etrans; [apply msum_le_size; intros ? st; by destruct (is_active st)|].
  set (ids := N.of_nat <$> seq 0 (N.to_nat (PipIdSequence s))).
  assert (dom (ProposalStates s) ⊆ (list_to_set ids : gset N)) as Hsub.
  { intros i [st Hi]%elem_of_dom.
    destruct (proj2 (po_states _ _ _ _ Hok i) (ex_intro _ st Hi)) as [p Hp].
    apply (po_ids _ _ _ _ Hok) in Hp as [_ ?]. apply elem_of_list_to_set, list_elem_of_fmap.
    exists (N.to_nat i). rewrite elem_of_seq. split; lia. }
  apply subseteq_size in Hsub. rewrite size_dom in Hsub.
  pose proof (size_list_to_set_le ids) as Hle. unfold ids at 2 in Hle.
  rewrite length_fmap, length_seq in Hle. lia.
Qed.

Lemma fresh_pip X q s b id :
  pips_ok X q s b → PipIdSequence s ≤ id →
  Proposals s !! id = None ∧ ProposalStates s !! id = None ∧
  (∀ who, ProposalVotes s !! (id, who) = None) ∧ (∀ who, Deposits s !! (id, who) = None).
Proof.
  intros Hok Hid. assert (Proposals s !! id = None) as Hp.
  { destruct (Proposals s !! id) as [p|] eqn:Hp; [|done]. apply (po_ids _ _ _ _ Hok) in Hp. lia. }
  assert (is_community s id = false) as Hc by (unfold is_community; by rewrite Hp).
  split_and!; [done| | |].
  - apply eq_None_not_Some. rewrite <- (po_states _ _ _ _ Hok), Hp. by intros [].
  - intros who. destruct (ProposalVotes s !! (id, who)) as [v|] eqn:Hv; [|done].
    apply (po_voted _ _ _ _ Hok) in Hv. congruence.
  - intros who. destruct (Deposits s !! (id, who)) as [d|] eqn:Hd; [|done].
    apply (po_deposits _ _ _ _ Hok) in Hd as (_ & ? & _). congruence.
Qed.

Definition by_committee (p : Proposer) : bool :=
  match p with ByCommittee _ => true | Community _ => false end.

Lemma new_pip_ok q s b id meta proposal proposer :
  pips_ok [] q s b → id = PipIdSequence s → id < u32_max →
  pips_ok (if by_committee proposer then [] else [id]) q
    (s <| ProposalMetadata ::= <[id := meta]> |>
       <| Proposals ::= <[id := mkPip id proposal proposer]> |>
       <| ProposalStates ::= <[id := PipPending]> |>
       <| PipIdSequence := id + 1 |>
       <| ActivePipCount ::= λ n, wrapping_add u32_max n 1 |>
       <| CommitteePips ::= λ l, if by_committee proposer then l ++ [id] else l |>) b.
Proof.
  intros Hok Hid Hlt. set (s' := s <| ProposalMetadata ::= _ |> <| Proposals ::= _ |> <| ProposalStates ::= _ |>
    <| PipIdSequence := _ |> <| ActivePipCount ::= _ |> <| CommitteePips ::= _ |>).
  pose proof (active_bound _ _ _ _ Hok) as Hact.
  destruct (fresh_pip _ _ _ _ id Hok) as (HP & HS & HV & HD); [lia|].
  assert (∀ i, i ≠ id → is_community s' i = is_community s i) as EC.
  { intros i Hi. unfold is_community, s'. simpl. by rewrite lookup_insert_ne. }
  assert (is_community s' id = negb (by_committee proposer)) as ECid.
  { unfold is_community, s'. simpl. rewrite lookup_insert_eq. by destruct proposer. }
  assert (¬ queued s id) as Hnq by (intros [Hq _]; by rewrite HS in Hq).
  assert (∀ i, i ≠ id → queued s' i ↔ queued s i) as EQ.
  { intros i Hi. unfold queued. rewrite EC by done. unfold s'. simpl. by rewrite lookup_insert_ne. }
  destruct Hok. constructor; simpl; try done.
  - intros i. destruct (decide (i = id)) as [->|]; [rewrite !lookup_insert_eq|by rewrite !lookup_insert_ne].
    by split; intros _; eexists.
  - intros i p [[<- <-]|[_ Hp]]%lookup_insert_Some; [simpl; lia|]. apply po_ids0 in Hp as [? ?]. split; [done|lia].
  - lia.
  - rewrite wrapping_add_small by lia.
    rewrite msum_insert_fresh by done. simpl. rewrite po_active0. lia.
  - intros i who v Hv. destruct (decide (i = id)) as [->|]; [by rewrite HV in Hv|]. rewrite EC by done.
    by eapply po_voted0.
  - intros e. rewrite po_live0. change (aggregate_result (spip_id e) s') with (aggregate_result (spip_id e) s).
    destruct (decide (spip_id e = id)) as [E|Hne].
    + rewrite E. split; [naive_solver|]. intros ([H1 H2] & H3 & _). rewrite ECid in H2.
      destruct (by_committee proposer); [done|]. destruct H3. by left.
    + rewrite EQ by done. split; intros (H1 & H2 & H3); split_and!; try done; [|apply not_elem_of_nil].
      destruct (by_committee proposer); [done|]. by rewrite list_elem_of_singleton.
  - intros e He. destruct (po_snapshot0 e He) as [Hq _].
    assert (spip_id e ≠ id) as Hne by (intros E; by rewrite E in Hq). rewrite EQ by done. split; [done|].
    destruct (by_committee proposer); [apply not_elem_of_nil|]. by rewrite list_elem_of_singleton.
  - intros i who d Hd. destruct (decide (i = id)) as [->|]; [by rewrite HD in Hd|].
    rewrite EC, lookup_insert_ne by done. by apply po_deposits0.
  - intros i who v st Hv Hst. destruct (decide (i = id)) as [->|]; [by rewrite HV in Hv|].
    rewrite lookup_insert_ne in Hst by done. by eapply po_stakes0.
  - intros i. destruct (decide (i = id)) as [->|Hne].
    + rewrite ECid, lookup_insert_eq. pose proof (po_committee0 id) as Hc. rewrite HP in Hc.
      destruct (by_committee proposer); simpl.
      * rewrite elem_of_app, list_elem_of_singleton. naive_solver.
      * rewrite Hc. split; [|naive_solver]. by intros [[? ?] _].
    + rewrite EC, lookup_insert_ne by done. rewrite <- po_committee0.
      destruct (by_committee proposer); [|done]. rewrite elem_of_app, list_elem_of_singleton. naive_solver.
  - destruct (by_committee proposer); [|done]. apply NoDup_app. split_and!; [done| |apply NoDup_singleton].
    intros i Hi ->%list_elem_of_singleton. apply po_committee0 in Hi as [[? Hi] _]. by rewrite HP in Hi.
  - intros i Hi%po_schedule0. rewrite lookup_insert_ne; [done|]. intros <-. congruence.
Qed.
End PipsInv.
