(* ===== verification/PipsSteps.v ===== *)
(** Every call of the improvement proposals keeps their invariant, and moves the
    state of a proposal only forward. *)

From stdpp Require Import base numbers list gmap sets strings sorting.
From S2P Require Import Prelude Subset Types ClaimTypes SettlementTypes Schedules PipsTypes State.
From S2P Require Import Identity Claims Sorting Committee Locks PipsQueue Pips SettlementInv PipsInv.

Local Open Scope N_scope.

Module PipsSteps.
Import Sorting PipsQueue Pips PipsInv.

(* ------------------------------------------------------------------ *)
(** ** Where a proposal can go *)

(** The state of a proposal with an id that is in use: a proposal that is scheduled
    is never pending again, and one that is closed stays as it is until its data
    is pruned. *)
Definition moves (st st' : option ProposalState) : Prop :=
  match st with
  | Some PipPending => True
  | Some PipScheduled => st' ≠ Some PipPending ∧ st' ≠ Some PipExpired
  | Some _ => st' = st ∨ st' = None
  | None => st' = None
  end.

#[global] Instance moves_trans : Transitive moves.
Proof. intros [[]|] [[]|] [[]|]; simpl; naive_solver. Qed.
#[global] Instance moves_refl : Reflexive moves.
Proof. intros [[]|]; simpl; naive_solver. Qed.

Definition advances (s s' : PipsStore) : Prop :=
  PipIdSequence s ≤ PipIdSequence s' ∧
  ∀ id, id < PipIdSequence s → moves (ProposalStates s !! id) (ProposalStates s' !! id).

#[global] Instance advances_preorder : PreOrder advances.
Proof.
  split.
  - intros s. split; [done|]. by intros.
  - intros s1 s2 s3 [H1 H2] [H3 H4]. split; [lia|]. intros id Hid. etrans; [by apply H2|]. apply H4. lia.
Qed.

Lemma advances_same s s' :
  PipIdSequence s' = PipIdSequence s → ProposalStates s' = ProposalStates s → advances s s'.
Proof. intros E1 E2. split; [by rewrite E1|]. intros id _. by rewrite E2. Qed.

(** What the calls that root dispatches do: nothing becomes pending or scheduled. *)
Definition settles (s s' : PipsStore) : Prop :=
  (∀ id, queued s' id → queued s id) ∧
  (∀ id, is_Some (PipToSchedule s' !! id) → is_Some (PipToSchedule s !! id)).

#[global] Instance settles_preorder : PreOrder settles.
Proof. split; [by intros s|]. intros s1 s2 s3 [H1 H2] [H3 H4]. split; auto. Qed.

(** What a call leaves. *)
Definition keeps (o : Origin) (g g' : Gov) : Prop :=
  gov_ok g' ∧ advances (pips g) (pips g') ∧ (o = Root → settles (pips g) (pips g')).

(* ------------------------------------------------------------------ *)
(** ** Parts of the calls *)

Lemma gov_ok_frame g g' : pips g' = pips g → balances g' = balances g → gov_ok g → gov_ok g'.
Proof. intros E1 E2. unfold gov_ok. by rewrite E1, E2. Qed.

Lemma keeps_frame o g g' : pips g' = pips g → balances g' = balances g → gov_ok g → keeps o g g'.
Proof.
  intros E1 E2 Hok. split_and!; [by eapply gov_ok_frame|by rewrite E1|by rewrite E1].
Qed.

Lemma event_run e g :
  ∃ g', event e g = (Ok tt, g') ∧ pips g' = pips g ∧ balances g' = balances g ∧ tasks g' = tasks g.
Proof. by eexists. Qed.

Lemma event_Ok e g r g' :
  event e g = (r, g') → r = Ok tt ∧ pips g' = pips g ∧ balances g' = balances g.
Proof. destruct (event_run e g) as (g2 & -> & ? & ? & _). by intros [= <- <-]. Qed.

Lemma on_tasks_Ok f g r g' :
  on_tasks f g = (r, g') → ∃ ok, r = Ok ok ∧ pips g' = pips g ∧ balances g' = balances g.
Proof.
  unfold on_tasks, gets, mbind, SE_bind. destruct (f (tasks g)); intros [= <- <-]; by eexists.
Qed.

Lemma unschedule_ok X q s b id :
  pips_ok X q s b → pips_ok X q (s <| PipToSchedule ::= delete id |>) b.
Proof.
  intros []. constructor; try done. simpl. intros i [at_ [_ Hi]%lookup_delete_Some]. by apply po_schedule0.
Qed.

Lemma pips_ok_on q s b id : pips_ok [] q s b → ¬ queued s id → pips_ok [id] q s b.
Proof.
  intros [] Hid. constructor; try done.
  - intros e. rewrite po_live0. rewrite list_elem_of_singleton. split.
    + intros (Hq & _ & He). split_and!; [done| |done]. intros E. by rewrite E in Hq.
    + intros (Hq & _ & He). split_and!; [done|apply not_elem_of_nil|done].
  - intros e [Hq _]%po_snapshot0. split; [done|]. rewrite list_elem_of_singleton. intros E.
    by rewrite E in Hq.
Qed.

(** The parts of the store that closing a proposal does not touch. *)
Lemma closed_frame id new prune s :
  SnapshotQueue (closed id new prune s) = SnapshotQueue s ∧
  SnapshotMeta (closed id new prune s) = SnapshotMeta s ∧
  PipToSchedule (closed id new prune s) = PipToSchedule s ∧
  PipIdSequence (closed id new prune s) = PipIdSequence s ∧
  ∀ i, is_community (closed id new prune s) i = true → is_community s i = true.
Proof.
  assert (∀ s' : PipsStore, SnapshotQueue (forget_pip id s') = SnapshotQueue s' ∧
    SnapshotMeta (forget_pip id s') = SnapshotMeta s' ∧ PipToSchedule (forget_pip id s') = PipToSchedule s' ∧
    PipIdSequence (forget_pip id s') = PipIdSequence s' ∧
    ∀ i, is_community (forget_pip id s') i = true → is_community s' i = true) as Hf.
  { intros s'. unfold forget_pip. simpl.
    destruct (pip_proposer <$> _) as [[]|]; (split_and!; [done..|]); intros i; unfold is_community; simpl;
      (destruct (decide (i = id)) as [->|]; [by rewrite lookup_delete_eq|by rewrite lookup_delete_ne]). }
  unfold closed. destruct (ProposalStates s !! id) as [old|]; simpl.
  - unfold decrement_count_if_active. destruct prune; [|by destruct (is_active old)].
    destruct (is_active old); match goal with |- context [forget_pip id ?x] => exact (Hf x) end.
  - destruct prune; [|done]. match goal with |- context [forget_pip id ?x] => exact (Hf x) end.
Qed.

Lemma closed_settles id new prune s : is_active new = false → settles s (closed id new prune s).
Proof.
  intros Hnew. destruct (closed_frame id new prune s) as (_ & _ & E3 & _ & E5). split.
  - intros i [H1 H2%E5]. split; [|done]. rewrite closed_states in H1 by done. case_decide; [|done].
    destruct prune; [done|]. destruct (ProposalStates s !! id); [|done]. injection H1 as ->. done.
  - intros i. by rewrite E3.
Qed.

Lemma closed_advances id new prune s :
  is_active new = false →
  (∀ st, ProposalStates s !! id = Some st → moves (Some st) (Some new)) →
  advances s (closed id new prune s).
Proof.
  intros Hnew Hst. destruct (closed_frame id new prune s) as (_ & _ & _ & E4 & _). split.
  - by rewrite E4.
  - intros i _. rewrite closed_states by done. case_decide as E; [|done]. subst i.
    destruct (ProposalStates s !! id) as [st|] eqn:Hid; [|by destruct prune].
    destruct prune; [destruct st; naive_solver|]. by apply Hst.
Qed.

(** A proposal that has left the queues is closed. *)
Lemma close_keeps did id new g r g' :
  pips_ok [id] (SnapshotQueue (pips g)) (pips g) (balances g) →
  (SnapshotMeta (pips g) = None → SnapshotQueue (pips g) = []) → is_active new = false →
  PipToSchedule (pips g) !! id = None → maybe_prune did id new g = (r, g') →
  r = Ok tt ∧ gov_ok g' ∧
  pips g' = closed id new (PruneHistoricalPips (pips g)) (pips g) ∧ refunded id g g'.
Proof.
  intros Hok Hmeta Hnew Hsch H. apply (maybe_prune_ok [id] (SnapshotQueue (pips g))) in H
    as (-> & Hok' & E & Hr); [|done|done|intros _; by left|done].
  destruct (closed_frame id new (PruneHistoricalPips (pips g)) (pips g)) as (E1 & E2 & _).
  split_and!; [done| |done|done]. split; [|by rewrite E, E1, E2].
  rewrite E at 1. rewrite E1. apply (pips_ok_off [id]); [done|].
  intros i ->%list_elem_of_singleton [Hp _]. rewrite E, closed_states, decide_True in Hp by done.
  destruct (PruneHistoricalPips (pips g)); [done|]. destruct (ProposalStates (pips g) !! id); [|done].
  injection Hp as ->. done.
Qed.

(** A proposal leaves the queues. *)
Lemma unsnapshot_run id st g :
  gov_ok g → ProposalStates (pips g) !! id = Some st →
  ∃ g', maybe_unsnapshot_pip id st g = (Ok tt, g') ∧
    pips_ok [id] (SnapshotQueue (pips g')) (pips g') (balances g') ∧
    (SnapshotMeta (pips g') = None → SnapshotQueue (pips g') = []) ∧
    balances g' = balances g ∧
    ∃ live snap, pips g' = (pips g) <| LiveQueue := live |> <| SnapshotQueue := snap |>.
Proof.
  intros [Hok Hmeta] Hst. destruct (decide (st = PipPending)) as [->|Hne].
  - set (s := pips g). set (s1 := s <| LiveQueue ::= remove_from_queue id |>).
    exists (g <| pips := s1 <| SnapshotQueue := remove_from_queue id (SnapshotQueue s) |> |>).
    assert ((s1 <| SnapshotQueue := remove_from_queue id (SnapshotQueue s) |>) =
      match SnapshotMeta s1 with Some _ => s1 <| SnapshotQueue ::= remove_from_queue id |> | None => s1 end) as E.
    { unfold s1. simpl. destruct (SnapshotMeta s) eqn:Hm; [by destruct s|].
      change (SnapshotMeta (pips g) = None) in Hm. apply Hmeta in Hm.
      change (SnapshotQueue s) with (SnapshotQueue (pips g)). rewrite Hm. unfold s. destruct (pips g). simpl in *.
      by rewrite Hm. }
    split_and!.
    + rewrite E. by destruct g.
    + simpl. apply (pips_ok_same _ _ s1); [|by repeat split].
      apply (dequeue_ok (SnapshotQueue s) _ s (balances g) (λ e, spip_id e ≠ id)); [done| | |].
      * intros e. by rewrite list_elem_of_singleton.
      * apply sublist_filter.
      * intros e [_ ?]%elem_of_remove_from. by rewrite list_elem_of_singleton.
    + simpl. intros Hm. change (SnapshotQueue s) with (SnapshotQueue (pips g)). by rewrite (Hmeta Hm).
    + done.
    + by eexists _, _.
  - exists g. split_and!; [by destruct st| |done|done|].
    + apply pips_ok_on; [done|]. intros [? _]. congruence.
    + exists (LiveQueue (pips g)), (SnapshotQueue (pips g)). by destruct (pips g).
Qed.

(** An active proposal is closed: what [reject_proposal] and [expire_scheduled_pip]
    do to it. *)
Lemma withdraw_run did id st new g :
  gov_ok g → ProposalStates (pips g) !! id = Some st → moves (Some st) (Some new) →
  is_active new = false → PipToSchedule (pips g) !! id = None →
  ∃ g', (maybe_unsnapshot_pip id st ;; maybe_prune did id new) g = (Ok tt, g') ∧
    keeps Root g g' ∧ refunded id g g' ∧
    ProposalStates (pips g') !! id = (if PruneHistoricalPips (pips g) then None else Some new).
Proof.
  intros Hok Hst Hmv Hnew Hsch.
  destruct (unsnapshot_run id st g Hok Hst) as (g1 & E1 & Hok1 & Hm1 & EB & live & snap & ES).
  destruct (maybe_prune did id new g1) as [r g2] eqn:E2.
  destruct (close_keeps did id new g1 r g2) as (-> & Hok2 & E & Hr); [done|done|done|by rewrite ES|done|].
  exists g2. unfold mbind, SE_bind. rewrite E1. split_and!; [done| | |].
  - pose proof (closed_settles id new (PruneHistoricalPips (pips g1)) (pips g1) Hnew) as Hs.
    assert (advances (pips g1) (closed id new (PruneHistoricalPips (pips g1)) (pips g1))) as Ha.
    { apply closed_advances; [done|]. intros st'. rewrite ES. simpl. rewrite Hst. by intros [= <-]. }
    assert (advances (pips g) (pips g1)) as Ha1 by (rewrite ES; by apply advances_same).
    assert (settles (pips g) (pips g1)) as Hs1 by (rewrite ES; by split).
    split_and!; [done| |intros _]; rewrite E; by etrans.
  - destruct Hr as [Hb Hl]. split; [done|]. intros l who. specialize (Hl l who). rewrite EB, ES in Hl.
    exact Hl.
  - rewrite E, closed_states, decide_True by done. rewrite ES. simpl. by rewrite Hst.
Qed.
(* ------------------------------------------------------------------ *)
(** ** The calls, one by one *)

Section calls.
Context {RT : Runtime} {FE : Fees} {PC : PipsConfig}.

(** Only what the invariant does not look at changes. *)
Lemma same_keeps o g g' :
  gov_ok g → same_pips (pips g) (pips g') → balances g' = balances g →
  SnapshotQueue (pips g') = SnapshotQueue (pips g) → SnapshotMeta (pips g') = SnapshotMeta (pips g) →
  keeps o g g'.
Proof.
  intros [Hok Hm] Hs EB EQ EM. destruct (Hs) as (E1 & _ & _ & E4 & _ & _ & E7 & _ & _ & E10). split_and!.
  - split; [|by rewrite EQ, EM]. rewrite EQ, EB. by eapply pips_ok_same.
  - by apply advances_same.
  - intros _. split; [|by rewrite E7]. intros i. unfold queued, is_community. by rewrite E10, E4.
Qed.

Lemma config_keeps {A} (get : PipsStore → A) (set : A → PipsStore → PipsStore) o new ev g g' :
  (∀ s, same_pips s (set new s) ∧ SnapshotQueue (set new s) = SnapshotQueue s ∧
        SnapshotMeta (set new s) = SnapshotMeta s) →
  gov_ok g → config get set o new ev g = (Ok tt, g') → keeps o g g'.
Proof.
  intros Hset Hok H. unfold config, on_pips in H. ok_inv.
  match goal with H : event _ _ = _ |- _ => apply event_Ok in H as (_ & E1 & E2) end. simpl in *.
  destruct (Hset (pips g)) as (H1 & H2 & H3). apply same_keeps; [done| |done|by rewrite E1|by rewrite E1].
  by rewrite E1.
Qed.

Lemma unschedule_run id st g :
  gov_ok g → ProposalStates (pips g) !! id = Some st →
  ∃ g', maybe_unschedule_pip id st g = (Ok tt, g') ∧ gov_ok g' ∧ balances g' = balances g ∧
    pips g' = (pips g) <| PipToSchedule ::= delete id |>.
Proof.
  intros [Hok Hm] Hst. destruct (decide (st = PipScheduled)) as [->|Hne]; simpl.
  - set (g0 := g <| pips ::= λ s, s <| PipToSchedule ::= delete id |> |>).
    destruct (on_tasks (cancel_named (ExecutionOf id)) g0) as [r g1] eqn:E.
    pose proof E as (ok & -> & E1 & E2)%on_tasks_Ok.
    assert (gov_ok g0) as Hok' by (split; [by apply unschedule_ok|done]).
    unfold unschedule_pip, on_pips, modify, mbind, SE_bind. fold g0. rewrite E. destruct ok.
    + exists g1. split_and!; [done| |done|done]. by eapply gov_ok_frame.
    + destruct (event_run (ExecutionCancellingFailed id) g1) as (g2 & E3 & E4 & E5 & _).
      exists g2. split_and!; [done| |by rewrite E5|by rewrite E4].
      eapply gov_ok_frame; [| |exact Hok']; [by rewrite E4|by rewrite E5].
  - exists g. assert (PipToSchedule (pips g) !! id = None) as Hn.
    { apply eq_None_not_Some. intros Hs. apply (po_schedule _ _ _ _ Hok) in Hs. congruence. }
    split_and!; [by destruct st|done|done|]. destruct (pips g). simpl in *. unfold upd, setter. simpl.
    by rewrite delete_id.
Qed.

(** An active proposal can be rejected, whatever is deposited for it: everybody
    gets the deposit back. *)
Lemma reject_run id st g :
  gov_ok g → ProposalStates (pips g) !! id = Some st → is_active st = true →
  ∃ g', reject_proposal (Endorsed PolymeshCommittee) id g = (Ok tt, g') ∧
    keeps (Endorsed PolymeshCommittee) g g' ∧ refunded id g g' ∧
    ProposalStates (pips g') !! id = (if PruneHistoricalPips (pips g) then None else Some PipRejected).
Proof.
  intros Hok Hst Hact. destruct (unschedule_run id st g Hok Hst) as (g1 & E1 & Hok1 & EB & ES).
  destruct (withdraw_run gc_did id st PipRejected g1) as (g2 & E2 & (Hok2 & Ha & _) & Hr & Hst2).
  - done.
  - by rewrite ES.
  - by destruct st.
  - done.
  - rewrite ES. simpl. by rewrite lookup_delete_eq.
  - exists g2. split_and!.
    + unfold reject_proposal, check, mbind, SE_bind. simpl. rewrite Hst. simpl. rewrite Hact. simpl.
      rewrite E1. exact E2.
    + split_and!; [done| |done]. etrans; [|exact Ha]. rewrite ES. by apply advances_same.
    + destruct Hr as [Hb Hl]. split; [done|]. intros l who. specialize (Hl l who). rewrite EB, ES in Hl.
      exact Hl.
    + rewrite Hst2, ES. done.
Qed.

Lemma reject_keeps o id g g' : gov_ok g → reject_proposal o id g = (Ok tt, g') → keeps o g g'.
Proof.
  intros Hok H. assert (∃ st, ProposalStates (pips g) !! id = Some st ∧ is_active st = true ∧
    o = Endorsed PolymeshCommittee) as (st & Hst & Hact & ->).
  { unfold reject_proposal in H. ok_inv. unfold Committee.ensure_endorsed in *.
    destruct o; ok_inv. eauto. }
  destruct (reject_run id st g Hok Hst Hact) as (g2 & E & Hk & _). rewrite E in H. by injection H as <-.
Qed.

Lemma expire_run did id g :
  gov_ok g →
  ∃ g', expire_scheduled_pip Root did id g = (Ok tt, g') ∧ keeps Root g g' ∧
    (ProposalStates (pips g) !! id = Some PipPending → refunded id g g').
Proof.
  intros Hok. unfold expire_scheduled_pip, check, gets, mbind at 1 2, SE_bind at 1 2. simpl.
  unfold is_proposal_state. destruct (ProposalStates (pips g) !! id) as [st|] eqn:Hst; simpl.
  - destruct (bool_decide (st = PipPending)) eqn:Hp; simpl.
    + apply bool_decide_eq_true_1 in Hp. subst st.
      destruct (withdraw_run did id PipPending PipExpired g) as (g2 & E & Hk & Hr & _); [done..| |].
      { apply eq_None_not_Some. intros Hs. apply (po_schedule _ _ _ _ (proj1 Hok)) in Hs. congruence. }
      eauto.
    + apply bool_decide_eq_false_1 in Hp. exists g. split_and!; [done|by apply keeps_frame|naive_solver].
  - exists g. split_and!; [done|by apply keeps_frame|done].
Qed.

Lemma expire_keeps o did id g g' : gov_ok g → expire_scheduled_pip o did id g = (Ok tt, g') → keeps o g g'.
Proof.
  intros Hok H. destruct o; try (unfold expire_scheduled_pip in H; by ok_inv).
  destruct (expire_run did id g Hok) as (g2 & E & Hk & _). rewrite E in H. by injection H as <-.
Qed.

Lemma pips_ok_balances X q s b b' :
  pips_ok X q s b → Locks.locks_ok b' → (∀ who, locked who b' = locked who b) → pips_ok X q s b'.
Proof. intros [] Hb Hl. constructor; try done. intros who. by rewrite Hl. Qed.

Lemma prune_keeps o id g g' : gov_ok g → prune_proposal o id g = (Ok tt, g') → keeps o g g'.
Proof.
  intros [Hok Hm] H. unfold prune_proposal in H. ok_inv.
  match goal with H : ProposalStates _ !! _ = Some ?x |- _ => rename H into Hst, x into st end.
  match goal with H : is_active _ = false |- _ => rename H into Hact end.
  assert (remove_prefix id (Deposits (pips g)) = Deposits (pips g)) as ED.
  { apply map_eq. intros [i who]. rewrite lookup_remove_prefix. case_decide as E; [|done]. subst i.
    destruct (Deposits (pips g) !! (id, who)) as [d|] eqn:Hd; [|done].
    apply (po_deposits _ _ _ _ Hok) in Hd as (_ & _ & (st' & H1 & H2) & _). congruence. }
  destruct (refund_run gc_did id g) as (g1 & E1 & ES & Hb & Hl); [by eapply pips_deposits|].
  unfold prune_data in H. unfold mbind at 1, SE_bind at 1 in H. rewrite E1 in H.
  unfold on_pips, decrement_count_if_active in H. rewrite Hact in H. ok_inv.
  match goal with H : event _ _ = _ |- _ => apply event_Ok in H as (_ & E2 & E3) end. simpl in *.
  assert (pips g' = forget_pip id (pips g)) as EP.
  { rewrite E2, ES. f_equal. destruct (pips g). unfold upd, setter. simpl in *. by rewrite ED. }
  assert (pips_ok [] (SnapshotQueue (pips g)) (forget_pip id (pips g)) (balances g')) as Hok'.
  { apply forget_ok; [|by intros st' ?; simplify_eq]. apply (pips_ok_balances _ _ _ (balances g)); [done|by rewrite E3|].
    intros who. rewrite E3. rewrite <- (Hl PIPS_LOCK_ID who), decide_True by done. unfold deposit_of.
    rewrite <- ED, lookup_remove_prefix, decide_True by done. simpl. lia. }
  assert (∀ s, SnapshotQueue (forget_pip id s) = SnapshotQueue s ∧ SnapshotMeta (forget_pip id s) = SnapshotMeta s ∧
    PipIdSequence (forget_pip id s) = PipIdSequence s ∧ ProposalStates (forget_pip id s) = delete id (ProposalStates s))
    as Hf.
  { intros s. unfold forget_pip. simpl. by destruct (pip_proposer <$> _) as [[]|]. }
  destruct (Hf (pips g)) as (F1 & F2 & F3 & F4). rewrite <- EP in F1, F2, F3, F4, Hok'. split_and!.
  - split; [by rewrite F1|by rewrite F1, F2].
  - split; [by rewrite F3|]. intros i _. rewrite F4. destruct (decide (i = id)) as [->|].
    + rewrite lookup_delete_eq, Hst. destruct st; naive_solver.
    + by rewrite lookup_delete_ne.
  - intros ->. done.
Qed.

(** A pending proposal is approved. *)
Lemma schedule_run X q id g :
  pips_ok X q (pips g) (balances g) → ProposalStates (pips g) !! id = Some PipPending →
  (queued (pips g) id → id ∈ X) →
  ∃ g' at_, schedule_pip_for_execution id g = (Ok tt, g') ∧ pips_ok X q (pips g') (balances g') ∧
    balances g' = balances g ∧
    pips g' = (pips g) <| PipToSchedule ::= <[id := at_]> |> <| ProposalStates ::= <[id := PipScheduled]> |>.
Proof.
  intros Hok Hst HX. set (at_ := saturating_add u32_max (N.max (DefaultEnactmentPeriod (pips g)) 1)
    (block_number (gov_world g))).
  destruct (on_tasks (schedule_named (ExecutionOf id) at_) g) as [r g1] eqn:E.
  pose proof E as (ok & -> & E1 & E2)%on_tasks_Ok.
  pose proof (scheduled_ok X q (pips g) (balances g) id at_ Hok Hst HX) as Hok'.
  assert (∃ g', schedule_pip_for_execution id g = (Ok tt, g') ∧ balances g' = balances g1 ∧
    pips g' = (pips g1) <| PipToSchedule ::= <[id := at_]> |> <| ProposalStates ::= <[id := PipScheduled]> |>)
    as (g' & EG & EB & ES).
  { unfold schedule_pip_for_execution, gets, mbind, SE_bind. fold at_. rewrite E.
    unfold update_proposal_state, handle_exec_scheduling_result, on_pips, modify, event, lift, deposit_event,
      mbind, SE_bind. simpl. eexists. split_and!; [reflexivity|done|].
    simpl. rewrite <- E1 in Hst. by rewrite Hst. }
  exists g', at_. rewrite ES, EB, E1, E2. by split_and!.
Qed.

Lemma scheduled_advances s id at_ :
  ProposalStates s !! id = Some PipPending →
  advances s (s <| PipToSchedule ::= <[id := at_]> |> <| ProposalStates ::= <[id := PipScheduled]> |>).
Proof.
  intros Hst. split; [done|]. intros i _. simpl. destruct (decide (i = id)) as [->|].
  - by rewrite lookup_insert_eq, Hst.
  - by rewrite lookup_insert_ne.
Qed.

Lemma is_proposal_state_Ok id st g u :
  is_proposal_state id st g = Ok u → ProposalStates (pips g) !! id = Some st.
Proof. unfold is_proposal_state. intros H. ok_inv. by subst. Qed.

Lemma approve_keeps o id g g' : gov_ok g → approve_committee_proposal o id g = (Ok tt, g') → keeps o g g'.
Proof.
  intros [Hok Hm] H. unfold approve_committee_proposal in H. ok_inv.
  match goal with H : is_proposal_state _ _ _ = _ |- _ => apply is_proposal_state_Ok in H as Hst end.
  match goal with H : Proposals _ !! _ = Some ?x |- _ => rename H into Hp, x into pip end.
  assert (¬ queued (pips g) id) as Hnq.
  { intros [_ Hc]. unfold is_community in Hc. rewrite Hp in Hc. destruct pip as [? ? []]; ok_inv; done. }
  destruct (schedule_run [] (SnapshotQueue (pips g)) id g) as (g2 & at_ & E & Hok2 & EB & ES); [done..|].
  rewrite E in H. injection H as <-. split_and!.
  - split; [|by rewrite ES]. assert (SnapshotQueue (pips g2) = SnapshotQueue (pips g)) as -> by (by rewrite ES). done.
  - rewrite ES. by apply scheduled_advances.
  - by intros ->.
Qed.

Lemma reschedule_keeps o id until g g' : gov_ok g → reschedule_execution o id until g = (Ok tt, g') → keeps o g g'.
Proof.
  intros [Hok Hm] H. unfold reschedule_execution, on_pips, handle_exec_scheduling_result in H. ok_inv.
  match goal with H : lift _ _ = _ |- _ => pose proof H as (E1 & E2 & _)%lift_frame; rename H into Hl end.
  match goal with H : is_proposal_state _ _ _ = _ |- _ => apply is_proposal_state_Ok in H as Hst end.
  match goal with H : on_tasks _ _ = _ |- _ => apply on_tasks_Ok in H as (_ & _ & E3 & E4) end.
  match goal with H : event _ _ = _ |- _ => apply event_Ok in H as (_ & E5 & E6) end.
  simpl in *. rewrite E3, E1 in E5. rewrite E4, E2 in E6. rewrite E1 in Hst. split_and!.
  - split; [|by rewrite E5]. rewrite E5, E6. destruct Hok. constructor; try done. simpl.
    intros i. destruct (decide (i = id)) as [->|]; [done|]. rewrite lookup_insert_ne by done. apply po_schedule0.
  - rewrite E5. by apply advances_same.
  - intros ->. unfold lift, check, Identity.ensure_perms, Identity.ensure_origin_call_permissions in Hl. done.
Qed.

Lemma clear_keeps o g g' : gov_ok g → clear_snapshot o g = (Ok tt, g') → keeps o g g'.
Proof.
  intros [Hok Hm] H. unfold clear_snapshot, on_pips in H. ok_inv.
  match goal with H : lift _ _ = _ |- _ => pose proof H as (E1 & E2 & _)%lift_frame end.
  rewrite E1 in H. destruct (SnapshotMeta (pips g)) as [meta|] eqn:Em; ok_inv;
    [|apply keeps_frame; [done|done|split; [done|by rewrite Em]]].
  match goal with H : event _ _ = _ |- _ => apply event_Ok in H as (_ & E3 & E4) end.
  simpl in *. rewrite E1 in E3. rewrite E2 in E4. split_and!.
  - split; [|by rewrite E3]. rewrite E3, E4. simpl. eapply pips_ok_same; [|by repeat split].
    destruct Hok. constructor; try done; [|constructor]. by intros e ?%elem_of_nil.
  - rewrite E3. by apply advances_same.
  - intros _. by rewrite E3.
Qed.

Lemma snapshot_keeps o g g' : gov_ok g → snapshot o g = (Ok tt, g') → keeps o g g'.
Proof.
  intros [Hok Hm] H. unfold snapshot, on_pips in H. ok_inv. destruct_product. ok_inv.
  match goal with H : lift _ _ = _ |- _ => pose proof H as (E1 & E2 & _)%lift_frame end.
  match goal with H : event _ _ = _ |- _ => apply event_Ok in H as (_ & E3 & E4) end.
  simpl in *. rewrite E1 in E3. rewrite E2 in E4. split_and!.
  - split; [|by rewrite E3]. rewrite E3, E4. simpl. eapply pips_ok_same; [|by repeat split].
    destruct Hok. constructor; try done.
    + intros e He. apply po_live0 in He as (? & ? & _). done.
    + apply NoDup_fmap_2_strong; [|by apply sorted_NoDup]. intros e1 e2 He1 He2 E.
      apply po_live0 in He1 as (_ & _ & ->). apply po_live0 in He2 as (_ & _ & ->). by rewrite E.
  - rewrite E3. by apply advances_same.
  - intros _. by rewrite E3.
Qed.
End calls.
End PipsSteps.
