(* ===== verification/PipsCalls.v ===== *)
(** The calls of the improvement proposals that vote, propose, enact the results
    of a snapshot and execute, and all the calls together: they keep the
    invariant, whatever they dispatch in turn. *)

From stdpp Require Import base numbers list gmap sets strings sorting.
From S2P Require Import Prelude Subset Types ClaimTypes SettlementTypes Schedules PipsTypes State.
From S2P Require Import Identity Claims Sorting Committee Locks PipsQueue Pips SettlementInv PipsInv PipsSteps.

Local Open Scope N_scope.

Module PipsCalls.
Import Sorting PipsQueue Pips PipsInv PipsSteps.

#[global] Instance SnapshotResult_eq_dec : EqDecision SnapshotResult.
Proof. solve_decision. Defined.

Section calls.
Context {RT : Runtime} {FE : Fees} {PC : PipsConfig}.

(* ------------------------------------------------------------------ *)
(** ** Votes *)

Lemma unsafe_vote_Ok id who v g g' :
  proposal_result (pips g) id = tally_of (ProposalVotes (pips g)) id →
  result_fits (proposal_result (pips g) id) → unsafe_vote id who v g = (Ok tt, g') →
  let res := tally_of (<[(id, who) := v]> (ProposalVotes (pips g))) id in
  result_fits res ∧
  g' = g <| pips ::= λ s, s <| ProposalResult ::= <[id := res]> |>
                            <| ProposalVotes ::= <[(id, who) := v]> |> |>.
Proof.
  intros Ht Hfit H. unfold unsafe_vote in H. unfold on_pips in H. ok_inv. rewrite Ht in *.
  match goal with H : cast_vote _ _ = Ok _ |- _ => by apply cast_tally in H as [-> Hfit'] end.
Qed.

Lemma signed_Ok o g d g' :
  lift (check (Identity.ensure_origin_call_permissions o)) g = (Ok d, g') →
  o = Signed (sender d) ∧ pips g' = pips g ∧ balances g' = balances g.
Proof.
  intros H. pose proof H as (E1 & E2 & _)%lift_frame. split_and!; [|done|done].
  unfold lift, check in H. destruct (Identity.ensure_origin_call_permissions o (gov_world g)) eqn:E; [|done].
  injection H as -> _. unfold Identity.ensure_origin_call_permissions in E. destruct o; by ok_inv.
Qed.

(** The lock of a voter follows the deposit. *)
Lemma lock_change who curr deposit g g' :
  Locks.locks_ok (balances g) →
  (if bool_decide (deposit < curr) then reduce_lock who (curr - deposit)
   else increase_lock who (deposit - curr)) g = (Ok tt, g') →
  pips g' = pips g ∧ Locks.locks_ok (balances g') ∧
  ∀ w, locked w (balances g') + (if decide (w = who) then curr else 0) =
       locked w (balances g) + (if decide (w = who) then deposit else 0).
Proof.
  intros Hb H. case_bool_decide as Hlt; unfold reduce_lock, increase_lock in H; ok_inv.
  - match goal with H : Locks.reduce_lock _ _ _ _ = Ok _ |- _ =>
      apply Locks.reduce_lock_Ok in H as [Hb' Hch]; [|done] end.
    split_and!; [done|done|]. intros w. specialize (Hch PIPS_LOCK_ID w). simpl.
    repeat case_decide; naive_solver lia.
  - match goal with H : Locks.increase_lock _ _ _ _ _ _ = Ok _ |- _ =>
      apply Locks.increase_lock_Ok in H as (Hb' & Hch & _); [|done] end.
    split_and!; [done|done|]. intros w. specialize (Hch PIPS_LOCK_ID w). simpl.
    repeat case_decide; naive_solver lia.
Qed.

(** What a vote does: the voter's vote and deposit are replaced, the lock follows,
    and the proposal moves to its place in the queue. *)
Definition cast (id : PipId) (who : AccountId) (v : PipVote) (live : list SnapshottedPip) (s : PipsStore)
    : PipsStore :=
  s <| ProposalResult ::= <[id := tally_of (<[(id, who) := v]> (ProposalVotes s)) id]> |>
    <| ProposalVotes ::= <[(id, who) := v]> |> <| LiveQueue := live |>
    <| Deposits ::= <[(id, who) := mkDepositInfo who (vote_stake v)]> |>.

Definition vote_effect (id : PipId) (who : AccountId) (v : PipVote) (g g' : Gov) : Prop :=
  (∃ live, pips g' = cast id who v live (pips g)) ∧
  ∀ w, locked w (balances g') + (if decide (w = who) then deposit_of (Deposits (pips g)) id who else 0) =
       locked w (balances g) + (if decide (w = who) then vote_stake v else 0).

Lemma pip_vote_Ok o id aye deposit g g' :
  gov_ok g → vote o id aye deposit g = (Ok tt, g') →
  gov_ok g' ∧ queued (pips g) id ∧
  ∃ who, o = Signed who ∧ vote_effect id who (mkPipVote aye deposit) g g'.
Proof.
  intros [Hok Hm] H. unfold vote in H. unfold on_pips, adjust_live_queue, on_pips in H. ok_inv.
  match goal with H : lift _ _ = _ |- _ => apply signed_Ok in H as (-> & E1 & E2) end.
  match goal with H : is_proposal_state _ _ _ = _ |- _ => apply is_proposal_state_Ok in H as Hst end.
  rewrite E1 in *. match goal with d : PermissionedCallOriginData |- _ => set (who := sender d) in * end.
  assert (queued (pips g) id) as Hq.
  { split; [done|]. unfold is_community. match goal with H : Proposals _ !! _ = Some ?x |- _ => rewrite H;
      destruct x as [? ? []]; [done|by ok_inv] end. }
  match goal with H : (if bool_decide _ then reduce_lock _ _ else _) _ = _ |- _ =>
    apply lock_change in H as (E3 & Hb & Hl) end; [|rewrite E2; apply Hok].
  rewrite E1 in E3. rewrite E2 in Hl.
  match goal with H : unsafe_vote _ _ _ _ = _ |- _ => apply unsafe_vote_Ok in H as [Hfit ->] end;
    [|rewrite E3; apply Hok..].
  match goal with H : event _ _ = _ |- _ => apply event_Ok in H as (_ & E4 & E5) end.
  simpl in *. rewrite E3 in *.
  assert (∀ w, locked w (balances g') + (if decide (w = who) then deposit_of (Deposits (pips g)) id who else 0) =
    locked w (balances g) + (if decide (w = who) then deposit else 0)) as Hl'.
  { intros w. rewrite E5, <- (Hl w). unfold deposit_of. by destruct (Deposits (pips g) !! (id, who)). }
  set (v := mkPipVote aye deposit) in *.
  set (lq := adjust_queue (aggregate_result id (pips g))
    (aggregate_result id (cast id who v [] (pips g))) (LiveQueue (pips g))).
  assert (pips g' = cast id who v lq (pips g)) as ES by (rewrite E4; reflexivity).
  destruct (adjust_queue_spec (aggregate_result id (pips g)) (aggregate_result id (cast id who v [] (pips g)))
    (LiveQueue (pips g))) as [Hs Hel].
  { apply Hok. }
  { apply (po_live _ _ _ _ Hok). split_and!; [done|apply not_elem_of_nil|done]. }
  { intros e He Eid. apply (po_live _ _ _ _ Hok) in He as (_ & _ & ->). simpl in *. by rewrite Eid. }
  { done. }
  split_and!; [|done|].
  - split; [|by rewrite ES]. assert (SnapshotQueue (pips g') = SnapshotQueue (pips g)) as -> by (by rewrite ES).
    rewrite ES. apply (voted_ok [] _ _ (balances g)); try done; [by intros i ?%elem_of_nil|by rewrite E5].
  - exists who. split; [done|]. split; [by exists lq|]. exact Hl'.
Qed.

Lemma cast_advances id who v live s : advances s (cast id who v live s).
Proof. by apply advances_same. Qed.

Lemma vote_keeps o id aye deposit g g' : gov_ok g → vote o id aye deposit g = (Ok tt, g') → keeps o g g'.
Proof.
  intros Hok H. apply pip_vote_Ok in H as (Hok' & _ & who & -> & (live & E) & _); [|done].
  split_and!; [done| |done]. rewrite E. apply cast_advances.
Qed.

(* ------------------------------------------------------------------ *)
(** ** New proposals *)

(** Who a proposal is by has to be behind the call. *)
Definition speaks_for (o : Origin) (p : Proposer) : Prop :=
  match p with
  | Community who => o = Signed who
  | ByCommittee Technical => o = Endorsed TechnicalCommittee
  | ByCommittee Upgrade => o = Endorsed UpgradeCommittee
  end.

Lemma proposer_Ok o g p did g' :
  lift (check (ensure_infer_proposer o)) g = (Ok (p, did), g') →
  speaks_for o p ∧ pips g' = pips g ∧ balances g' = balances g.
Proof.
  intros H. pose proof H as (E1 & E2 & _)%lift_frame. split_and!; [|done|done].
  unfold lift, check in H. destruct (ensure_infer_proposer o (gov_world g)) as [x|] eqn:E; [|done].
  injection H as -> _. unfold ensure_infer_proposer in E.
  destruct o as [|who| |c]; simpl in E; [done| |done|]; ok_inv; simplify_eq; [done|].
  destruct c; simpl in *; ok_inv; by simplify_eq.
Qed.

(** What the proposer has to lock. *)
Definition locks_more (p : Proposer) (deposit : Balance) (b b' : BalancesStore) : Prop :=
  ∀ w, locked w b' = locked w b +
    match p with
    | Community who => if decide (w = who) then deposit else 0
    | ByCommittee _ => 0
    end.

Lemma take_deposit_Ok p deposit g g' :
  Locks.locks_ok (balances g) → take_deposit p deposit g = (Ok tt, g') →
  pips g' = pips g ∧ Locks.locks_ok (balances g') ∧ locks_more p deposit (balances g) (balances g') ∧
  match p with
  | Community _ => MinimumProposalDeposit (pips g) ≤ deposit ∧
      (ActivePipLimit (pips g) = 0 ∨ ActivePipCount (pips g) < ActivePipLimit (pips g))
  | ByCommittee _ => deposit = 0
  end.
Proof.
  intros Hb H. unfold take_deposit in H. destruct p as [who|c]; ok_inv;
    match goal with H : lift _ _ = _ |- _ => apply lift_frame in H as (E1 & E2 & _) end.
  - match goal with H : increase_lock _ _ _ = _ |- _ => unfold increase_lock in H end. ok_inv.
    match goal with H : Locks.increase_lock _ _ _ _ _ _ = Ok _ |- _ =>
      apply Locks.increase_lock_Ok in H as (Hb' & Hch & _); [|done] end.
    simpl in *. split_and!; [done|done| |done|].
    + intros w. specialize (Hch PIPS_LOCK_ID w). simpl. repeat case_decide; naive_solver lia.
    + match goal with H : (_ || _) = true |- _ => apply orb_true_iff in H as [Hlim|Hlim] end;
        apply bool_decide_eq_true_1 in Hlim; [by left|by right].
  - rewrite E1, E2. split_and!; [done|done| |done]. intros w. lia.
Qed.

(** What a new proposal is. *)
Definition propose_effect (o : Origin) (proposal : Proposal) (deposit : Balance) (g g' : Gov) : Prop :=
  let id := PipIdSequence (pips g) in
  PipIdSequence (pips g') = id + 1 ∧
  (∀ i, i ≠ id → ProposalStates (pips g') !! i = ProposalStates (pips g) !! i) ∧
  ProposalStates (pips g') !! id = Some PipPending ∧
  ∃ p, speaks_for o p ∧ Proposals (pips g') !! id = Some (mkPip id proposal p) ∧
    locks_more p deposit (balances g) (balances g') ∧
    match p with
    | Community who => MinimumProposalDeposit (pips g) ≤ deposit ∧
        (ActivePipLimit (pips g) = 0 ∨ ActivePipCount (pips g) < ActivePipLimit (pips g)) ∧
        ProposalVotes (pips g') !! (id, who) = Some (mkPipVote true deposit)
    | ByCommittee _ => deposit = 0
    end.

Lemma expiry_Ok id at_ g r g' :
  schedule_pip_for_expiry id at_ g = (r, g') → r = Ok tt ∧ pips g' = pips g ∧ balances g' = balances g.
Proof.
  unfold schedule_pip_for_expiry, mbind, SE_bind. destruct (on_tasks _ g) as [r1 g1] eqn:E.
  apply on_tasks_Ok in E as (ok & -> & E1 & E2). intros (-> & E3 & E4)%event_Ok.
  rewrite E3, E4. by split_and!.
Qed.

(** The queue takes a proposal that is not in it; the [unwrap_err] of the code
    does not panic. *)
Lemma insert_live_queue_run id g :
  sorted (LiveQueue (pips g)) → (∀ e, e ∈ LiveQueue (pips g) → spip_id e ≠ id) →
  ∃ live, insert_live_queue id g = (Ok tt, g <| pips ::= λ s, s <| LiveQueue := live |> |>) ∧ sorted live ∧
    ∀ e, e ∈ live ↔ e ∈ LiveQueue (pips g) ∨ e = aggregate_result id (pips g).
Proof.
  intros Hs Hid. destruct (search_new (LiveQueue (pips g)) (aggregate_result id (pips g)) Hs)
    as (i & E & Hs' & Hp); [by intros ?%Hid|].
  eexists. unfold insert_live_queue, gets, check, mbind, SE_bind. rewrite E.
  split_and!; [reflexivity|done|]. intros e. rewrite Hp, elem_of_cons. tauto.
Qed.

(** A new proposal, with the deposit of its proposer locked already. *)
Definition opened (id : PipId) (meta : PipsMetadata) (proposal : Proposal) (p : Proposer) (s : PipsStore)
    : PipsStore :=
  s <| ProposalMetadata ::= <[id := meta]> |> <| Proposals ::= <[id := mkPip id proposal p]> |>
    <| ProposalStates ::= <[id := PipPending]> |> <| PipIdSequence := id + 1 |>
    <| ActivePipCount ::= λ n, wrapping_add u32_max n 1 |>.

Lemma enter_Ok q s b id meta proposal p deposit g g' :
  pips_ok [] q s b → id = PipIdSequence s → id < u32_max → pips g = opened id meta proposal p s →
  Locks.locks_ok (balances g) → locks_more p deposit b (balances g) →
  match p with
  | Community who =>
      on_pips (λ s, s <| Deposits ::= <[(id, who) := mkDepositInfo who deposit]> |>) ;;
      unsafe_vote id who (mkPipVote true deposit) ;;
      insert_live_queue id
  | ByCommittee _ => on_pips (λ s, s <| CommitteePips ::= λ l, l ++ [id] |>)
  end g = (Ok tt, g') →
  pips_ok [] q (pips g') (balances g') ∧ balances g' = balances g ∧
  SnapshotQueue (pips g') = SnapshotQueue s ∧ SnapshotMeta (pips g') = SnapshotMeta s ∧
  PipIdSequence (pips g') = id + 1 ∧ ProposalStates (pips g') = <[id := PipPending]> (ProposalStates s) ∧
  Proposals (pips g') !! id = Some (mkPip id proposal p) ∧
  ∀ who, p = Community who → ProposalVotes (pips g') !! (id, who) = Some (mkPipVote true deposit).
Proof.
  intros Hok Hid Hlt ES Hb Hl H. pose proof (new_pip_ok q s b id meta proposal p Hok Hid Hlt) as Hnew.
  destruct (fresh_pip _ _ _ _ id Hok) as (HP & HS & HV & HD); [lia|]. clear Hid.
  destruct p as [who|c]; unfold on_pips in H.
  - assert (queued (opened id meta proposal (Community who) s) id) as Hq.
    { split; [apply lookup_insert_eq|]. unfold is_community, opened. simpl. by rewrite lookup_insert_eq. }
    ok_inv. match goal with H : unsafe_vote _ _ _ _ = _ |- _ => apply unsafe_vote_Ok in H as [Hfit ->] end;
      [|simpl; rewrite ES; apply (po_tally _ _ _ _ Hok)|simpl; rewrite ES; apply (po_fits _ _ _ _ Hok)].
    match goal with H : insert_live_queue _ ?g1 = _ |- _ =>
      destruct (insert_live_queue_run id g1) as (live & E & Hs & Hel) end.
    { simpl. rewrite ES. apply Hok. }
    { simpl. rewrite ES. simpl. intros e [[Hp _] _]%(po_live _ _ _ _ Hok) Eid. by rewrite Eid, HS in Hp. }
    rewrite E in H. injection H as Hg. simpl in Hfit, Hs, Hel. rewrite ES in Hfit, Hel.
    set (v := mkPipVote true deposit) in *. set (s1 := opened id meta proposal (Community who) s) in *.
    assert (pips g' = cast id who v live s1 ∧ balances g' = balances g) as [EG EB].
    { rewrite <- Hg. simpl. by rewrite ES. }
    rewrite EG, EB. split_and!; try done.
    + apply (voted_ok [id] q s1 b (balances g)).
      * exact Hnew.
      * by intros i ->%list_elem_of_singleton.
      * exact Hq.
      * done.
      * exact Hfit.
      * exact Hb.
      * intros w. rewrite (Hl w). unfold deposit_of. simpl. rewrite HD. simpl. case_decide; lia.
      * exact Hs.
      * intros e. rewrite Hel. split; [|naive_solver]. intros [He|He]; [left|by right]. split; [done|].
        apply (po_live _ _ _ _ Hok) in He as ([Hp _] & _). intros Eid. by rewrite Eid, HS in Hp.
    + apply lookup_insert_eq.
    + intros who' [= <-]. apply lookup_insert_eq.
  - ok_inv. rewrite ES. simpl. split_and!; try done; [|apply lookup_insert_eq].
    apply (pips_ok_balances _ _ _ b); [exact Hnew|done|]. intros w. rewrite (Hl w). lia.
Qed.

Lemma new_proposal_Ok o proposal deposit url desc g g' :
  gov_ok g → propose o proposal deposit url desc g = (Ok tt, g') →
  gov_ok g' ∧ propose_effect o proposal deposit g g'.
Proof.
  intros [Hok Hm] H. unfold propose in H.
  ok_inv. destruct_product. ok_inv. destruct_product.
  match goal with H : lift _ _ = _ |- _ => apply proposer_Ok in H as (Ho & E1 & E2) end.
  match goal with H : Base.try_next_post _ _ = _ |- _ => apply Base.try_next_post_Ok in H as (-> & -> & Hlt) end.
  rewrite E1 in *. apply SE_bind_Ok in H as ([] & g1 & Hd & H).
  apply take_deposit_Ok in Hd as (E3 & Hb & Hl & Hp); [|rewrite E2; apply Hok].
  rewrite E1 in E3, Hp. rewrite E2 in Hl. ok_inv.
  match goal with H : (match ?e with Some _ => _ | None => _ end) ?g2 = (Ok _, ?g3) |- _ =>
    assert (pips g3 = pips g2 ∧ balances g3 = balances g2) as [E4 E5];
    [destruct e; [by apply expiry_Ok in H as (_ & ? & ?)|by ok_inv]|clear H] end.
  match goal with H : on_pips _ g1 = _ |- _ => unfold on_pips in H; apply modify_Ok in H as -> end.
  simpl in E4, E5. rewrite E3 in E4.
  match goal with H : event _ _ = _ |- _ => apply event_Ok in H as (_ & E6 & E7) end.
  match goal with H : (match p with _ => _ end) _ = _ |- _ =>
    eapply enter_Ok in H as (Hok' & F1 & F2 & F3 & F4 & F5 & F6 & F7); [|exact Hok|done|done|exact E4|by rewrite E5..] end.
  rewrite <- E6, <- E7 in *. split.
  - split; [by rewrite F2|by rewrite F2, F3].
  - split_and!; [done| | |].
    + intros i Hi. by rewrite F5, lookup_insert_ne.
    + by rewrite F5, lookup_insert_eq.
    + exists p. split_and!; [done|done|by rewrite F1, E5|]. destruct p as [who|]; [|done].
      destruct Hp. split_and!; [done|done|by apply F7].
Qed.

Lemma propose_keeps o proposal deposit url desc g g' :
  gov_ok g → propose o proposal deposit url desc g = (Ok tt, g') → keeps o g g'.
Proof.
  intros Hok H. apply new_proposal_Ok in H as [Hok' (E1 & E2 & E3 & p & Ho & _)]; [|done]. split_and!; [done| |].
  - split; [lia|]. intros i Hi. by rewrite E2 by lia.
  - intros ->. by destruct p as [|[]].
Qed.

(* ------------------------------------------------------------------ *)
(** ** The results of a snapshot *)

(** The proposals the results ask to skip, to reject, or to approve. *)
Definition asked (a : SnapshotResult) (rs : list (PipId * SnapshotResult)) : list PipId :=
  fst <$> filter (λ r, r.2 = a) rs.

Lemma elem_of_asked a rs id : id ∈ asked a rs ↔ (id, a) ∈ rs.
Proof.
  unfold asked. rewrite list_elem_of_fmap. split.
  - intros ([i r] & -> & [Hr Hin]%list_elem_of_filter). simpl in *. by subst.
  - intros Hin. exists (id, a). split; [done|]. by apply list_elem_of_filter.
Qed.

Lemma asked_cons a r rs :
  asked a (r :: rs) = if decide (r.2 = a) then r.1 :: asked a rs else asked a rs.
Proof. unfold asked. rewrite filter_cons. by case_decide. Qed.

(** The results are about the end of the queue, in reverse. *)
Lemma read_results s rs e e' :
  fold_check (read_result s) e rs = Ok e' →
  (∃ top, en_queue e = en_queue e' ++ top ∧ spip_id <$> top = reverse rs.*1) ∧
  en_rejected e' = en_rejected e ++ asked Reject rs ∧
  en_approved e' = en_approved e ++ asked Approve rs ∧
  en_skipped e' = en_skipped e ++ ((λ id, (id, getd 0 (PipSkipCount s) id + 1)) <$> asked Skip rs).
Proof.
  revert e. induction rs as [|[id a] rs IH]; intros e H; simpl in H.
  { injection H as ->. split_and!; [exists []|..]; by rewrite ?app_nil_r. }
  apply bind_Ok in H as (e1 & H1 & H). apply IH in H as ((top & Q1 & Q2) & H2 & H3 & H4).
  unfold read_result in H1. apply bind_Ok in H1 as ([p queue] & Hp & H1). apply ok_or_Ok in Hp.
  assert (en_queue e = queue ++ [p]) as HQ.
  { unfold pop in Hp. destruct (en_queue e) as [|x l _] using rev_ind; [done|].
    rewrite last_snoc, length_app, Nat.add_sub, take_app_length in Hp. by injection Hp as -> ->. }
  rewrite !asked_cons. simpl.
  assert (spip_id p = id → en_queue e1 = queue →
    ∃ top, en_queue e = en_queue e' ++ top ∧ spip_id <$> top = reverse (id :: rs.*1)) as Htop.
  { intros Hid E2. exists (top ++ [p]). rewrite HQ, <- E2, Q1, app_assoc. split; [done|].
    by rewrite fmap_app, Q2, reverse_cons, <- Hid. }
  destruct a; ok_inv; repeat (rewrite decide_True by done || rewrite decide_False by done);
    (split_and!; [by apply Htop|..]); rewrite ?H2, ?H3, ?H4; simpl; by rewrite <- ?app_assoc.
Qed.

(** Results that fit the queue, and skip what may be skipped, are read. *)
Lemma read_results_run s rs e rest top :
  en_queue e = rest ++ top → spip_id <$> top = reverse rs.*1 →
  (∀ id, id ∈ asked Skip rs → getd 0 (PipSkipCount s) id < MaxPipSkipCount s) →
  ∃ e', fold_check (read_result s) e rs = Ok e' ∧ en_queue e' = rest.
Proof.
  revert e top. induction rs as [|[id a] rs IH]; intros e top HQ Htop Hskip; simpl.
  { destruct top; [|done]. exists e. by rewrite HQ, app_nil_r. }
  simpl in Htop. rewrite reverse_cons in Htop. destruct top as [|p top _] using rev_ind.
  { symmetry in Htop. by apply app_nil in Htop as [_ ?]. }
  rewrite fmap_app in Htop. simpl in Htop. apply app_inj_2 in Htop as [Htop [= Hid]]; [|done].
  rewrite app_assoc in HQ.
  assert (∀ e1, en_queue e1 = rest ++ top → ∃ e', fold_check (read_result s) e1 rs = Ok e' ∧ en_queue e' = rest) as HIH.
  { intros e1 He1. apply (IH e1 top); [done|done|]. intros i Hi. apply Hskip. rewrite asked_cons.
    case_decide; [by right|done]. }
  assert (∃ e1, read_result s e (id, a) = Ok e1 ∧ en_queue e1 = rest ++ top) as (e1 & E1 & Q1).
  { unfold read_result, pop. rewrite HQ, last_snoc, length_app, Nat.add_sub, take_app_length. simpl.
    rewrite (bool_decide_eq_true_2 (spip_id p = id)) by done. simpl. destruct a; simpl; [by eexists..|].
    rewrite bool_decide_eq_true_2; [by eexists|]. apply Hskip. rewrite asked_cons. simpl. by left. }
  rewrite E1. by apply HIH.
Qed.

Lemma skip_all_run (l : list (PipId * SkippedCount)) g :
  ∃ g' m, for_each l (λ '(id, count),
      on_pips (λ s, s <| PipSkipCount ::= <[id := count]> |>) ;;
      event (PipSkipped gc_did id count)) g = (Ok tt, g') ∧
    pips g' = (pips g) <| PipSkipCount := m |> ∧ balances g' = balances g ∧
    ∀ id, m !! id = foldl (λ acc ic, if decide (ic.1 = id) then Some ic.2 else acc)
                      (PipSkipCount (pips g) !! id) l.
Proof.
  revert g. induction l as [|[id c] l IH]; intros g; simpl.
  { exists g, (PipSkipCount (pips g)). by destruct g as [? []]. }
  set (g0 := g <| pips ::= λ s, s <| PipSkipCount ::= <[id := c]> |> |>).
  destruct (event_run (PipSkipped gc_did id c) g0) as (g1 & E & E1 & E2 & _).
  destruct (IH g1) as (g2 & m & E3 & E4 & E5 & E6). exists g2, m.
  assert ((on_pips (λ s, s <| PipSkipCount ::= <[id := c]> |>) ;; event (PipSkipped gc_did id c)) g = (Ok tt, g1))
    as E0 by exact E.
  unfold mbind at 1, SE_bind at 1. rewrite E0. split_and!.
  - exact E3.
  - rewrite E4, E1. done.
  - by rewrite E5, E2.
  - intros i. rewrite E6, E1. simpl. f_equal.
    destruct (decide (id = i)) as [->|]; [apply lookup_insert_eq|by apply lookup_insert_ne].
Qed.

Lemma skip_counts (f : PipId → SkippedCount) ids d id :
  NoDup ids →
  foldl (λ acc (ic : PipId * SkippedCount), if decide (ic.1 = id) then Some ic.2 else acc) d
    ((λ i, (i, f i)) <$> ids) = if decide (id ∈ ids) then Some (f id) else d.
Proof.
  revert d. induction ids as [|i ids IH]; intros d Hnd; simpl; [done|].
  apply NoDup_cons in Hnd as [Hin Hnd]. rewrite IH by done.
  destruct (decide (i = id)) as [->|Hne].
  - rewrite decide_False by done. rewrite decide_True; [done|by left].
  - destruct (decide (id ∈ ids)).
    + rewrite decide_True; [done|by right].
    + rewrite decide_False; [done|]. by intros [?|?]%elem_of_cons.
Qed.

Definition refund_of (m : gmap (PipId * AccountId) DepositInfo) (ids : list PipId) (who : AccountId) : N :=
  foldr (λ id acc, deposit_of m id who + acc) 0 ids.

Lemma refund_of_remove m id ids who :
  id ∉ ids → refund_of (remove_prefix id m) ids who = refund_of m ids who.
Proof.
  induction ids as [|i ids IH]; simpl; [done|]. rewrite not_elem_of_cons. intros [Hne Hin].
  rewrite IH by done. f_equal. unfold deposit_of. rewrite lookup_remove_prefix, decide_False; done.
Qed.

Lemma closed_deposits id new prune s : Deposits (closed id new prune s) = remove_prefix id (Deposits s).
Proof.
  unfold closed. destruct (ProposalStates s !! id) as [old|]; simpl.
  - unfold decrement_count_if_active. destruct (is_active old), prune; try done;
      unfold forget_pip; simpl; by destruct (pip_proposer <$> _) as [[]|].
  - destruct prune; [|done]. unfold forget_pip; simpl. by destruct (pip_proposer <$> _) as [[]|].
Qed.

Lemma closed_skips id new prune s i :
  i ≠ id → PipSkipCount (closed id new prune s) !! i = PipSkipCount s !! i.
Proof.
  intros Hne. unfold closed. destruct (ProposalStates s !! id) as [old|]; simpl.
  - unfold decrement_count_if_active. destruct (is_active old), prune; try done;
      unfold forget_pip; simpl; destruct (pip_proposer <$> _) as [[]|]; by apply lookup_delete_ne.
  - destruct prune; [|done]. unfold forget_pip; simpl.
    destruct (pip_proposer <$> _) as [[]|]; by apply lookup_delete_ne.
Qed.

Lemma closed_flag id new prune s : PruneHistoricalPips (closed id new prune s) = PruneHistoricalPips s.
Proof.
  unfold closed. destruct (ProposalStates s !! id) as [old|]; simpl.
  - unfold decrement_count_if_active. destruct (is_active old), prune; try done;
      unfold forget_pip; simpl; by destruct (pip_proposer <$> _) as [[]|].
  - destruct prune; [|done]. unfold forget_pip; simpl. by destruct (pip_proposer <$> _) as [[]|].
Qed.

Lemma reject_all_run X q ids g :
  pips_ok X q (pips g) (balances g) → NoDup ids →
  (∀ id, id ∈ ids → id ∈ X ∧ ProposalStates (pips g) !! id = Some PipPending) →
  ∃ g', for_each ids (unsafe_reject_proposal gc_did) g = (Ok tt, g') ∧
    pips_ok X q (pips g') (balances g') ∧ SnapshotMeta (pips g') = SnapshotMeta (pips g) ∧
    PipIdSequence (pips g') = PipIdSequence (pips g) ∧
    PruneHistoricalPips (pips g') = PruneHistoricalPips (pips g) ∧
    (∀ i, ProposalStates (pips g') !! i =
       if decide (i ∈ ids) then (if PruneHistoricalPips (pips g) then None else Some PipRejected)
       else ProposalStates (pips g) !! i) ∧
    (∀ i, i ∉ ids → PipSkipCount (pips g') !! i = PipSkipCount (pips g) !! i) ∧
    ∀ who, locked who (balances g') + refund_of (Deposits (pips g)) ids who = locked who (balances g).
Proof.
  revert g. induction ids as [|id ids IH]; intros g Hok Hnd Hids; simpl.
  { exists g. split_and!; try done. intros who. lia. }
  apply NoDup_cons in Hnd as [Hin Hnd]. destruct (Hids id) as [HX Hst]; [by left|].
  destruct (unsafe_reject_proposal gc_did id g) as [r g1] eqn:E. unfold unsafe_reject_proposal in E.
  assert (PipToSchedule (pips g) !! id = None) as Hsch.
  { apply eq_None_not_Some. intros Hs. apply (po_schedule _ _ _ _ Hok) in Hs. congruence. }
  pose proof E as Hp.
  apply (maybe_prune_ok X q) in Hp as (-> & Hok1 & ES & Hr); [|done..].
  destruct (closed_frame id PipRejected (PruneHistoricalPips (pips g)) (pips g)) as (F1 & F2 & F3 & F4 & F5).
  rewrite <- ES in F1, F2, F3, F4, F5. pose proof (closed_flag id PipRejected (PruneHistoricalPips (pips g)) (pips g)) as F6.
  rewrite <- ES in F6.
  assert (∀ i, ProposalStates (pips g1) !! i = if decide (i = id)
    then (if PruneHistoricalPips (pips g) then None else Some PipRejected) else ProposalStates (pips g) !! i) as F7.
  { intros i. rewrite ES, closed_states by done. by rewrite Hst. }
  destruct (IH g1) as (g2 & E2 & Hok2 & G1 & G2 & G3 & G4 & G5 & G6); [done|done| |].
  { intros i Hi. rewrite F7, decide_False by (by intros ->). apply Hids. by right. }
  exists g2. unfold mbind, SE_bind. unfold unsafe_reject_proposal at 1. rewrite E.
  split_and!; [done|done|by rewrite G1|by rewrite G2|by rewrite G3| | |].
  - intros i. rewrite G4, F6, F7. destruct (decide (i ∈ id :: ids)) as [Hi|Hi].
    + destruct (decide (i ∈ ids)); [done|]. rewrite decide_True; [done|]. by apply elem_of_cons in Hi as [|].
    + apply not_elem_of_cons in Hi as [? ?]. by rewrite !decide_False.
  - intros i [Hne Hi]%not_elem_of_cons. rewrite G5 by done. rewrite ES. by apply closed_skips.
  - intros who. specialize (G6 who). rewrite ES, closed_deposits, refund_of_remove in G6 by done.
    destruct Hr as [_ Hr]. specialize (Hr PIPS_LOCK_ID who). rewrite decide_True in Hr by done. lia.
Qed.

Lemma schedule_all_run X q ids g :
  pips_ok X q (pips g) (balances g) → NoDup ids →
  (∀ id, id ∈ ids → id ∈ X ∧ ProposalStates (pips g) !! id = Some PipPending) →
  ∃ g', for_each ids schedule_pip_for_execution g = (Ok tt, g') ∧
    pips_ok X q (pips g') (balances g') ∧ balances g' = balances g ∧
    SnapshotMeta (pips g') = SnapshotMeta (pips g) ∧ PipIdSequence (pips g') = PipIdSequence (pips g) ∧
    PipSkipCount (pips g') = PipSkipCount (pips g) ∧
    ∀ i, ProposalStates (pips g') !! i =
      if decide (i ∈ ids) then Some PipScheduled else ProposalStates (pips g) !! i.
Proof.
  revert g. induction ids as [|id ids IH]; intros g Hok Hnd Hids; simpl; [by exists g|].
  apply NoDup_cons in Hnd as [Hin Hnd]. destruct (Hids id) as [HX Hst]; [by left|].
  destruct (schedule_run X q id g) as (g1 & at_ & E & Hok1 & EB & ES); [done..|].
  assert (∀ i, ProposalStates (pips g1) !! i = if decide (i = id) then Some PipScheduled
    else ProposalStates (pips g) !! i) as F.
  { intros i. rewrite ES. simpl. case_decide; [subst; apply lookup_insert_eq|by apply lookup_insert_ne]. }
  destruct (IH g1) as (g2 & E2 & Hok2 & G1 & G2 & G3 & G4 & G5); [done|done| |].
  { intros i Hi. rewrite F, decide_False by (by intros ->). apply Hids. by right. }
  exists g2. unfold mbind, SE_bind. rewrite E.
  split_and!; [done|done|by rewrite G1|by rewrite G2, ES|by rewrite G3, ES|by rewrite G4, ES|].
  intros i. rewrite G5, F. destruct (decide (i ∈ id :: ids)) as [Hi|Hi].
  - destruct (decide (i ∈ ids)); [done|]. rewrite decide_True; [done|]. by apply elem_of_cons in Hi as [|].
  - apply not_elem_of_cons in Hi as [? ?]. by rewrite !decide_False.
Qed.

(** The results name proposals of the snapshot, each of them once. *)
Lemma results_pending g (rs : list (PipId * SnapshotResult)) top rest :
  gov_ok g → SnapshotQueue (pips g) = rest ++ top → spip_id <$> top = reverse rs.*1 →
  NoDup rs.*1 ∧ (∀ id, id ∈ rs.*1 → ProposalStates (pips g) !! id = Some PipPending) ∧
  (∀ e, e ∈ rest → spip_id e ∉ rs.*1).
Proof.
  intros [Hok _] HQ Htop. pose proof (po_distinct _ _ _ _ Hok) as Hnd.
  rewrite HQ, fmap_app in Hnd. apply NoDup_app in Hnd as (_ & Hd & Hnd). rewrite Htop in Hnd, Hd. split_and!.
  - by rewrite <- (reverse_Permutation rs.*1).
  - intros id Hid. assert (id ∈ spip_id <$> top) as (e & -> & He)%list_elem_of_fmap.
    { rewrite Htop. by rewrite elem_of_reverse. }
    apply (po_snapshot _ _ _ _ Hok). rewrite HQ. apply elem_of_app. by right.
  - intros e He Hin. apply (Hd (spip_id e)); [apply list_elem_of_fmap; by exists e|by rewrite elem_of_reverse].
Qed.

Lemma asked_NoDup a (rs : list (PipId * SnapshotResult)) : NoDup rs.*1 → NoDup (asked a rs).
Proof. intros Hnd. eapply sublist_NoDup; [exact Hnd|]. apply fmap_sublist, sublist_filter. Qed.

Lemma asked_in a (rs : list (PipId * SnapshotResult)) id : id ∈ asked a rs → id ∈ rs.*1.
Proof. intros Hin%elem_of_asked. apply list_elem_of_fmap. by exists (id, a). Qed.

Lemma asked_apart a b (rs : list (PipId * SnapshotResult)) id : NoDup rs.*1 → a ≠ b → id ∈ asked a rs → id ∉ asked b rs.
Proof.
  intros Hnd Hne Ha%elem_of_asked Hb%elem_of_asked. apply Hne.
  apply list_elem_of_lookup in Ha as [i Hi]. apply list_elem_of_lookup in Hb as [j Hj].
  assert (i = j) as ->; [|congruence].
  apply (NoDup_lookup rs.*1 i j id Hnd); by rewrite list_lookup_fmap, ?Hi, ?Hj.
Qed.

(** What the results of a snapshot do. *)
Definition enact_effect (rs : list (PipId * SnapshotResult)) (g g' : Gov) : Prop :=
  (∀ i, ProposalStates (pips g') !! i =
     if decide (i ∈ asked Approve rs) then Some PipScheduled
     else if decide (i ∈ asked Reject rs)
          then (if PruneHistoricalPips (pips g) then None else Some PipRejected)
          else ProposalStates (pips g) !! i) ∧
  (∃ top, SnapshotQueue (pips g) = SnapshotQueue (pips g') ++ top ∧ spip_id <$> top = reverse rs.*1) ∧
  (∀ i, i ∈ asked Skip rs →
     getd 0 (PipSkipCount (pips g')) i = getd 0 (PipSkipCount (pips g)) i + 1) ∧
  ∀ who, locked who (balances g') + refund_of (Deposits (pips g)) (asked Reject rs) who =
         locked who (balances g).

Lemma enact_run rs e g :
  gov_ok g →
  fold_check (read_result (pips g)) (mkEnactment (SnapshotQueue (pips g)) [] [] []) rs = Ok e →
  ∃ g', enact_snapshot_results (Endorsed PolymeshCommittee) rs g = (Ok tt, g') ∧
    keeps (Endorsed PolymeshCommittee) g g' ∧ enact_effect rs g g'.
Proof.
  intros Hg He. pose proof Hg as [Hok Hm].
  destruct (read_results _ _ _ _ He) as ((top & HQ & Htop) & HR & HA & HK). simpl in HQ, HR, HA, HK.
  destruct (results_pending g rs top (en_queue e) Hg HQ Htop) as (Hnd & Hpend & Hrest).
  set (R := asked Reject rs) in *. set (A := asked Approve rs) in *.
  destruct (skip_all_run (en_skipped e) g) as (g1 & m & E1 & S1 & B1 & M1).
  set (f := λ q, spip_id q ∉ en_rejected e ∧ spip_id q ∉ en_approved e).
  set (g2 := g1 <| pips ::= λ s, s <| LiveQueue ::= filter f |> |>).
  assert (pips_ok (R ++ A) (en_queue e) (pips g2) (balances g2)) as Hok2.
  { apply (dequeue_ok (SnapshotQueue (pips g))).
    - change (pips_ok [] (SnapshotQueue (pips g)) (pips g1) (balances g1)). rewrite S1, B1. by eapply pips_ok_same; [exact Hok|repeat split].
    - intros x. unfold f. rewrite HR, HA, elem_of_app. tauto.
    - rewrite HQ. by apply sublist_inserts_r.
    - intros x Hx. rewrite elem_of_app. intros Hin. apply (Hrest x Hx). destruct Hin as [Hin|Hin]; by eapply asked_in. }
  assert (ProposalStates (pips g2) = ProposalStates (pips g) ∧ Deposits (pips g2) = Deposits (pips g) ∧
    SnapshotMeta (pips g2) = SnapshotMeta (pips g) ∧ PipIdSequence (pips g2) = PipIdSequence (pips g) ∧
    PruneHistoricalPips (pips g2) = PruneHistoricalPips (pips g) ∧ balances g2 = balances g)
    as (T1 & T2 & T3 & T4 & T5 & T6).
  { unfold g2. simpl. by rewrite S1, B1. }
  destruct (reject_all_run (R ++ A) (en_queue e) R g2) as (g3 & E3 & Hok3 & U1 & U2 & U3 & U4 & U5 & U6).
  { done. }
  { by apply asked_NoDup. }
  { intros id Hid. rewrite T1. split; [apply elem_of_app; by left|]. apply Hpend. by eapply asked_in. }
  destruct (schedule_all_run (R ++ A) (en_queue e) A g3) as (g4 & E4 & Hok4 & V1 & V2 & V3 & V5 & V4).
  { done. }
  { by apply asked_NoDup. }
  { intros id Hid. rewrite U4, T1. split; [apply elem_of_app; by right|].
    rewrite decide_False; [apply Hpend; by eapply asked_in|]. exact (asked_apart Approve Reject rs id Hnd ltac:(done) Hid). }
  set (ev := SnapshotResultsEnacted gc_did (snapshot_meta_id <$> SnapshotMeta (pips g4)) (en_skipped e)
    (en_rejected e) (en_approved e)).
  destruct (event_run ev g4) as (g5 & E5 & S5 & B5 & _).
  exists (g5 <| pips ::= λ s, s <| SnapshotQueue := en_queue e |> |>).
  assert (∀ i, ProposalStates (pips g4) !! i = if decide (i ∈ A) then Some PipScheduled
     else if decide (i ∈ R) then (if PruneHistoricalPips (pips g) then None else Some PipRejected)
     else ProposalStates (pips g) !! i) as Hst by (intros i; by rewrite V4, U4, T1, T5).
  split_and!.
  - unfold enact_snapshot_results.
    apply SE_bind_Ok. exists tt, g. split; [done|].
    apply SE_bind_Ok. exists e, g. split; [unfold check; by rewrite He|].
    apply SE_bind_Ok. exists tt, g1. split; [exact E1|].
    apply SE_bind_Ok. exists tt, g2. split; [done|].
    apply SE_bind_Ok. exists tt, g3. split; [by rewrite HR|].
    apply SE_bind_Ok. exists tt, g4. split; [by rewrite HA|].
    apply SE_bind_Ok. exists (snapshot_meta_id <$> SnapshotMeta (pips g4)), g4. split; [done|].
    apply SE_bind_Ok. exists tt, g5. by split.
  - split_and!; [| |done].
    + split; simpl.
      * rewrite S5, B5. apply (pips_ok_same _ _ (pips g4)); [|by repeat split]. apply (pips_ok_off (R ++ A)); [done|].
        intros i Hi [Hp _]. rewrite Hst in Hp. apply elem_of_app in Hi as [Hi|Hi].
        -- destruct (decide (i ∈ A)); [done|]. rewrite decide_True in Hp by done.
           by destruct (PruneHistoricalPips (pips g)).
        -- by rewrite decide_True in Hp.
      * rewrite S5, V2, U1, T3. intros Hn. apply Hm in Hn. rewrite HQ in Hn. by apply app_eq_nil in Hn as [? _].
    + split; simpl; [rewrite S5; lia|]. intros i _. rewrite S5, Hst.
      repeat case_decide; [rewrite Hpend; [done|by eapply asked_in]..|done].
  - split_and!; simpl.
    + intros i. rewrite S5. apply Hst.
    + by exists top.
    + intros i Hi. assert (i ∉ R) as HiR by (exact (asked_apart Skip Reject rs i Hnd ltac:(done) Hi)).
      unfold getd at 1. rewrite S5, V5, U5 by done. unfold g2. simpl. rewrite S1. simpl.
      rewrite M1, HK, skip_counts by (by apply asked_NoDup). by rewrite decide_True.
    + intros who. specialize (U6 who). rewrite T2, T6 in U6. by rewrite B5, V1.
Qed.

Lemma enact_keeps o rs g g' : gov_ok g → enact_snapshot_results o rs g = (Ok tt, g') → keeps o g g'.
Proof.
  intros Hok H. assert (o = Endorsed PolymeshCommittee ∧ ∃ e, fold_check (read_result (pips g))
    (mkEnactment (SnapshotQueue (pips g)) [] [] []) rs = Ok e) as [-> [e He]].
  { unfold enact_snapshot_results in H. ok_inv. unfold Committee.ensure_endorsed in *.
    destruct o; ok_inv. eauto. }
  destruct (enact_run rs e g Hok He) as (g2 & E & Hk & _). rewrite E in H. by injection H as <-.
Qed.

(* ------------------------------------------------------------------ *)
(** ** Execution, and all the calls *)

Section execute.
Context (redispatch : Origin → call → P unit).

(** What is known of the calls a proposal may dispatch. *)
Hypothesis Hkeeps : ∀ o c g g', gov_ok g → redispatch o c g = (Ok tt, g') → keeps o g g'.
Hypothesis Hrolls : ∀ o c g e g', redispatch o c g = (Err e, g') → g' = g.

Lemma dispatch_proposal_keeps p g r g' :
  gov_ok g → dispatch_proposal redispatch p g = (r, g') → keeps Root g g'.
Proof.
  intros Hok H. unfold dispatch_proposal in H. destruct (own_call p) as [c|].
  - destruct r as [[]|e]; [by eapply Hkeeps|]. apply Hrolls in H as ->. by apply keeps_frame.
  - apply lift_frame in H as (E1 & E2 & _). by apply keeps_frame.
Qed.

(** What an execution does: the proposal is dispatched, and is closed as executed
    or failed; what was deposited for it is given back. *)
Definition execute_effect (id : PipId) (g g' : Gov) : Prop :=
  ProposalStates (pips g) !! id = Some PipScheduled ∧
  ∃ pip res g1, Proposals (pips g) !! id = Some pip ∧
    dispatch_proposal redispatch (pip_proposal pip)
      (g <| pips ::= λ s, s <| PipToSchedule ::= delete id |> |>) = (res, g1) ∧
    res ≠ Err EPanic ∧
    pips g' = closed id (if is_ok res then PipExecuted else PipFailed)
                (PruneHistoricalPips (pips g1)) (pips g1) ∧
    refunded id g1 g' ∧
    gov_world g' = (gov_world g1) <| events ::= λ l, l ++
      close_events id (if is_ok res then PipExecuted else PipFailed) (pips g1) gc_did |> ∧
    tasks g' = tasks g1.

Lemma execute_Ok o id g g' :
  gov_ok g → execute_scheduled_pip redispatch o id g = (Ok tt, g') →
  o = Root ∧ keeps Root g g' ∧ execute_effect id g g'.
Proof.
  intros [Hok Hm] H. unfold execute_scheduled_pip, on_pips in H. apply SE_bind_Ok in H as ([] & g0 & Hr & H).
  assert (o = Root ∧ g0 = g) as [-> ->] by (destruct o; by ok_inv). split; [done|].
  apply SE_bind_Ok in H as ([] & g0 & E0 & H). apply modify_Ok in E0 as ->.
  set (g0 := g <| pips ::= λ s, s <| PipToSchedule ::= delete id |> |>) in *.
  assert (gov_ok g0) as Hok0 by (split; [by apply unschedule_ok|done]).
  unfold execute_proposal in H. apply SE_bind_Ok in H as (pip & gx & [Hp ->]%check_Ok & H). apply ok_or_Ok in Hp.
  apply SE_bind_Ok in H as (st & gx & [Hst ->]%check_Ok & H). apply ok_or_Ok in Hst.
  apply SE_bind_Ok in H as ([] & gx & [Hs%ensure_Ok%bool_decide_eq_true_1 ->]%check_Ok & H). subst st.
  apply SE_bind_Ok in H as (res & g1 & Hres & H). unfold catch in Hres.
  destruct (dispatch_proposal redispatch (pip_proposal pip) g0) as [res' g1'] eqn:Hd.
  injection Hres as -> ->. destruct (dispatch_proposal_keeps _ _ _ _ Hok0 Hd) as ([Hok1 Hm1] & Ha1 & Hs1).
  specialize (Hs1 eq_refl) as [Hq1 Hsch1].
  assert (res ≠ Err EPanic ∧ maybe_prune gc_did id (if is_ok res then PipExecuted else PipFailed) g1 = (Ok tt, g'))
    as [Hnp HP].
  { destruct res as [u|e]; [by split|]. by destruct e; split. }
  clear H. set (new := if is_ok res then PipExecuted else PipFailed) in *.
  assert (is_active new = false) as Hnew by (unfold new; by destruct (is_ok res)).
  pose proof (maybe_prune_world _ _ _ _ _ Hnew HP) as [EW ET].
  apply close_keeps in HP as (_ & Hok' & ES & Hr'); [|..|done|].
  - split.
    + split_and!; [done| |intros _].
      * destruct (closed_frame id new (PruneHistoricalPips (pips g1)) (pips g1)) as (_ & _ & _ & F4 & _).
        destruct Ha1 as [Hseq Ha1]. split; [rewrite ES, F4; exact Hseq|]. intros i Hi. rewrite ES, closed_states by done.
        case_decide as Ei; [|by apply Ha1]. subst i. change (moves (ProposalStates (pips g0) !! id)
          (if PruneHistoricalPips (pips g1) then None
           else match ProposalStates (pips g1) !! id with Some _ => Some new | None => None end)).
        rewrite Hst. unfold new. destruct (PruneHistoricalPips (pips g1)), (ProposalStates (pips g1) !! id), (is_ok res);
          by split.
      * etrans; [|rewrite ES; by apply closed_settles]. split; [exact Hq1|].
        intros i Hi%Hsch1. destruct Hi as [at_ Hi]; simpl in Hi; apply lookup_delete_Some in Hi as [_ Hi]. by exists at_.
    + split; [exact Hst|]. exists pip, res, g1. split_and!; try done.
  - apply pips_ok_on; [done|]. intros [Hpend _]%Hq1. by rewrite Hst in Hpend.
  - done.
  - apply eq_None_not_Some. intros [at_ Hx]%Hsch1. simpl in Hx. by rewrite lookup_delete_eq in Hx.
Qed.

Lemma handle_keeps o c g g' : gov_ok g → handle redispatch o c g = (Ok tt, g') → keeps o g g'.
Proof.
  intros Hok H. destruct c; simpl in H; try (eapply config_keeps in H; [done| |done]; by intros s; repeat split).
  - by eapply propose_keeps.
  - by eapply vote_keeps.
  - by eapply approve_keeps.
  - by eapply reject_keeps.
  - by eapply prune_keeps.
  - by eapply reschedule_keeps.
  - by eapply clear_keeps.
  - by eapply snapshot_keeps.
  - by eapply enact_keeps.
  - by apply execute_Ok in H as (-> & Hk & _).
  - by eapply expire_keeps.
Qed.
End execute.

Lemma dispatch_rolls depth o c g e g' : dispatch depth o c g = (Err e, g') → g' = g.
Proof.
  destruct depth; simpl; [by intros [= _ <-]|]. unfold with_transaction.
  destruct (handle _ o c g) as [[u|e'] s]; [done|]. by intros [= _ <-].
Qed.

(** However deep the dispatches go. *)
Lemma pips_dispatch_keeps depth o c g g' : gov_ok g → dispatch depth o c g = (Ok tt, g') → keeps o g g'.
Proof.
  revert o c g g'. induction depth as [|depth IH]; intros o c g g' Hok H; simpl in H; [done|].
  rewrite with_transaction_Ok in H. exact (handle_keeps (dispatch depth) IH (dispatch_rolls depth) o c g g' Hok H).
Qed.
End calls.
End PipsCalls.
