(* ===== verification/SettlementAdd.v ===== *)
(** Adding an instruction keeps the invariant of the settlement pallet: the
    checks of the legs collect exactly the parties that have to affirm. *)

From stdpp Require Import base numbers list gmap sets strings sorting.
From S2P Require Import Prelude Subset AssetIdentifier Types SettlementTypes Schedules State.
From S2P Require Import Identity Agents Portfolio Checkpoint Asset Nft Ledger Settlement.
From S2P Require Import SettlementInv.

Local Open Scope N_scope.

Module SettlementAdd.
Import Settlement SettlementInv.

Section add_instruction.
Context {RT : Runtime} {EX : Externals} {SC : SettlementConfig} {RS : Reserved}.

(* ------------------------------------------------------------------ *)
(** ** Creating an instruction keeps the invariant *)

Lemma insert_legs_frame id n legs s :
  ∃ L O, insert_legs id n legs s =
    s <| InstructionLegs := L |> <| OffChainAffirmations := O |>.
Proof.
  revert n s. induction legs as [|leg legs IH]; intros n s; simpl.
  - exists (InstructionLegs s), (OffChainAffirmations s). by destruct s.
  - match goal with |- context [insert_legs id (n + 1) legs ?s1] =>
      destruct (IH (n + 1) s1) as (L & O & ->) end.
    exists L, O. by destruct (is_off_chain leg).
Qed.

(** The legs from index [n] on. *)
Lemma insert_legs_lookup id n legs s id' l :
  InstructionLegs (insert_legs id n legs s) !! (id', l) =
    (if decide (id' = id ∧ n ≤ l < n + N.of_nat (length legs))
     then legs !! N.to_nat (l - n) else InstructionLegs s !! (id', l)) ∧
  OffChainAffirmations (insert_legs id n legs s) !! (id', l) =
    (if decide (id' = id ∧ n ≤ l < n + N.of_nat (length legs))
     then match legs !! N.to_nat (l - n) with
          | Some leg => if is_off_chain leg then Some AffPending
                        else OffChainAffirmations s !! (id', l)
          | None => None
          end
     else OffChainAffirmations s !! (id', l)).
Proof.
  revert n s. induction legs as [|leg legs IH]; intros n s; simpl insert_legs.
  { simpl. by rewrite !decide_False by lia. }
  match goal with |- context [insert_legs id (n + 1) legs ?s1] =>
    destruct (IH (n + 1) s1) as [-> ->] end.
  cbn [length]. rewrite !Nat2N.inj_succ.
  destruct (decide (id' = id ∧ n + 1 ≤ l < n + 1 + N.of_nat (length legs))) as [Hin|Hnin].
  - rewrite !decide_True by lia.
    assert (N.to_nat (l - n) = S (N.to_nat (l - (n + 1)))) as -> by lia. simpl.
    split; [done|]. destruct (legs !! _) as [leg'|]; [|done].
    destruct (is_off_chain leg'); [done|]. destruct (is_off_chain leg); [|done].
    simpl. rewrite lookup_insert_ne; [done|]. intros [= _ Hn]. lia.
  - destruct (decide (id' = id ∧ l = n)) as [[-> ->]|Hne].
    + rewrite !decide_True by lia. rewrite N.sub_diag. simpl.
      destruct (is_off_chain leg); simpl; by rewrite ?lookup_insert_eq.
    + rewrite !decide_False by lia.
      assert ((id, n) ≠ (id', l)) as Hk by naive_solver.
      destruct (is_off_chain leg); simpl; by rewrite ?lookup_insert_ne by done.
Qed.

(** Their off-chain affirmations are as many as the off-chain legs. *)
Lemma insert_legs_off id n legs s id' :
  (∀ l, n ≤ l → OffChainAffirmations s !! (id, l) = None) →
  msum (pending_off id') (OffChainAffirmations (insert_legs id n legs s)) =
  msum (pending_off id') (OffChainAffirmations s) +
    (if decide (id = id') then off_chain_legs legs else 0).
Proof.
  revert n s. induction legs as [|leg legs IH]; intros n s Hf; simpl insert_legs.
  { unfold off_chain_legs. simpl. case_decide; lia. }
  assert (off_chain_legs (leg :: legs) = (if is_off_chain leg then 1 else 0) + off_chain_legs legs)
    as -> by done.
  rewrite IH.
  - destruct (is_off_chain leg); simpl; [|case_decide; lia].
    rewrite msum_insert_fresh by (apply Hf; lia). unfold pending_off at 1. simpl.
    repeat case_decide; naive_solver lia.
  - intros l Hle. destruct (is_off_chain leg); simpl; [|apply Hf; lia].
    rewrite lookup_insert_ne; [apply Hf; lia|]. intros [= Hn]. lia.
Qed.

(** Fresh legs have no status: they add no units. *)
Lemma insert_legs_units id n legs s st k :
  (∀ l, n ≤ l → InstructionLegs s !! (id, l) = None) →
  (∀ l, getd PendingTokenLock st (id, l) = PendingTokenLock) →
  pending_units (InstructionLegs (insert_legs id n legs s)) st k =
  pending_units (InstructionLegs s) st k.
Proof.
  revert n s. induction legs as [|leg legs IH]; intros n s Hf Hst; simpl insert_legs; [done|].
  assert (∀ b : bool, InstructionLegs (if b
    then s <| InstructionLegs ::= <[(id, n) := leg]> |> <| OffChainAffirmations ::= <[(id, n) := AffPending]> |>
    else s <| InstructionLegs ::= <[(id, n) := leg]> |>) = <[(id, n) := leg]> (InstructionLegs s))
    as Hl by by intros [].
  rewrite IH; [| |done].
  - rewrite Hl. unfold pending_units. rewrite msum_insert_fresh by (apply Hf; lia).
    rewrite Hst. by rewrite decide_False by done.
  - intros l Hle. rewrite Hl. rewrite lookup_insert_ne; [apply Hf; lia|]. intros [= Hn]. lia.
Qed.

(** What the checks of the legs collect. *)
Lemma ensure_valid_leg_count leg v tickers count w tickers' count' :
  ensure_valid_leg leg v tickers count w = Ok (tickers', count') →
  try_add_leg count leg = Some count' ∧
  (∀ s r, leg_sender leg = Some s → leg_receiver leg = Some r → did s ≠ did r).
Proof.
  unfold ensure_valid_leg. intros H. destruct leg; ok_inv; simplify_eq; split; try done;
    intros ?? [= <-] [= <-]; done.
Qed.

#[local] Arguments collect_leg : simpl never.

Lemma collect_leg_Ok v w tickers info leg tickers' info' :
  count_bounded (instruction_asset_count info) →
  collect_leg v w (tickers, info) leg = Ok (tickers', info') →
  count_bounded (instruction_asset_count info') ∧
  off_chain (instruction_asset_count info') =
    off_chain (instruction_asset_count info) + (if is_off_chain leg then 1 else 0) ∧
  portfolios_pending_approval info ⊆ portfolios_pending_approval info' ∧
  portfolios_pre_approved info ⊆ portfolios_pre_approved info' ∧
  (∀ p, leg_sender leg = Some p → p ∈ portfolios_pending_approval info') ∧
  (∀ p, leg_receiver leg = Some p →
     p ∈ portfolios_pending_approval info' ∪ portfolios_pre_approved info') ∧
  (∀ p, p ∈ portfolios_pending_approval info' ∪ portfolios_pre_approved info' →
     p ∈ portfolios_pending_approval info ∪ portfolios_pre_approved info ∨ leg_party leg p).
Proof.
  intros Hc H. unfold collect_leg in H. ok_inv. destruct_product.
  match goal with H : ensure_valid_leg _ _ _ _ _ = _ |- _ =>
    apply ensure_valid_leg_count in H as [Ht _];
    destruct (try_add_leg_exact _ _ _ Hc Ht) as (Hc' & _ & _ & _ & Ho) end.
  unfold leg_party.
  destruct leg; simpl in *; ok_inv; simplify_eq;
    try (match goal with |- context [if ?b then _ else _] => destruct b end);
    unfold extend_mediators; simpl; (split; [done|]); (split; [done|]);
    split_and!; intros; simplify_eq; try set_solver.
Qed.

Lemma collect_legs_Ok v w legs tickers info tickers' info' :
  count_bounded (instruction_asset_count info) →
  fold_check (collect_leg v w) (tickers, info) legs = Ok (tickers', info') →
  off_chain (instruction_asset_count info') =
    off_chain (instruction_asset_count info) + off_chain_legs legs ∧
  portfolios_pending_approval info ⊆ portfolios_pending_approval info' ∧
  portfolios_pre_approved info ⊆ portfolios_pre_approved info' ∧
  (∀ leg p, leg ∈ legs → leg_sender leg = Some p → p ∈ portfolios_pending_approval info') ∧
  (∀ leg p, leg ∈ legs → leg_receiver leg = Some p →
     p ∈ portfolios_pending_approval info' ∪ portfolios_pre_approved info') ∧
  (∀ p, p ∈ portfolios_pending_approval info' ∪ portfolios_pre_approved info' →
     p ∈ portfolios_pending_approval info ∪ portfolios_pre_approved info ∨
     ∃ leg, leg ∈ legs ∧ leg_party leg p).
Proof.
  revert tickers info. induction legs as [|leg legs IH]; intros tickers info Hc H.
  { simpl in H. ok_inv. simplify_eq. unfold off_chain_legs. simpl.
    split_and!; try done; [lia|..]; intros; try (by left);
      match goal with H : _ ∈ [] |- _ => by apply elem_of_nil in H end. }
  cbn [fold_check] in H. apply bind_Ok in H as ([t1 i1] & H1 & H2).
  apply collect_leg_Ok in H1 as (Hc1 & Ho1 & Hp1 & Ha1 & Hs1 & Hr1 & Hback1); [|done].
  apply IH in H2 as (Ho2 & Hp2 & Ha2 & Hs2 & Hr2 & Hback2); [|done].
  assert (off_chain_legs (leg :: legs) =
    (if is_off_chain leg then 1 else 0) + off_chain_legs legs) as -> by done.
  split_and!.
  - lia.
  - by etrans.
  - by etrans.
  - intros leg' p [->|Hin]%elem_of_cons; [|by apply Hs2]. intros Hsd. apply Hp2. by apply Hs1.
  - intros leg' p [->|Hin]%elem_of_cons; [|by apply Hr2]. intros Hsd. specialize (Hr1 p Hsd).
    set_solver.
  - intros p Hp. destruct (Hback2 p Hp) as [Hp'|(leg' & Hin & Hpt)].
    + destruct (Hback1 p Hp') as [?|Hpt]; [by left|]. right. exists leg. split; [by left|done].
    + right. exists leg'. split; [by right|done].
Qed.

Definition add_store (id next : InstructionId) (v : VenueId) (st : SettlementType)
    (created : Moment) (trade value : option Moment) (legs : list Leg) (memo : option Memo)
    (info : InstructionInfo) (s : SettlementStore) : SettlementStore :=
  store_instruction id v st created trade value legs memo info (open_instruction id next info s).

Lemma auto_affirm_events d id ps w w' :
  for_each ps (λ p, deposit_event (InstructionAutomaticallyAffirmed d p id)) w = (Ok tt, w') →
  ∃ e, w' = w <| events := e |>.
Proof.
  revert w. induction ps as [|p ps IH]; intros w H; simpl in H; unfold deposit_event in *; ok_inv.
  - exists (events w). by destruct w.
  - apply IH in H as [e ->]. by exists e.
Qed.

Lemma schedule_instruction_Ok id b limit w w' :
  schedule_instruction id b limit w = (Ok tt, w') →
  ∃ a e, w' = w <| agenda := a |> <| events := e |>.
Proof.
  unfold schedule_instruction, deposit_event. intros H. ok_inv.
  destruct (schedule_named id b limit w) as [g|]; ok_inv.
  - exists g, (events w). by destruct w.
  - exists (agenda w), (events w ++ [SchedulingFailed (ESettlement FailedToSchedule)]).
    by destruct w.
Qed.

Lemma cancel_instruction_Ok id w w' :
  cancel_instruction id w = (Ok tt, w') → ∃ a, w' = w <| agenda := a |>.
Proof.
  unfold cancel_instruction. intros H. ok_inv.
  destruct (cancel_named id w); ok_inv; [by eexists|]. exists (agenda w). by destruct w.
Qed.

Lemma maybe_schedule_Ok n id limit w w' :
  maybe_schedule_instruction n id limit w = (Ok tt, w') →
  ∃ a e, w' = w <| agenda := a |> <| events := e |>.
Proof.
  unfold maybe_schedule_instruction. intros H. ok_inv.
  match goal with H : (if ?b then _ else _) _ = _ |- _ => destruct b end; ok_inv.
  - by eapply schedule_instruction_Ok.
  - exists (agenda w), (events w). by destruct w.
Qed.

#[local] Opaque store_instruction open_instruction.

Lemma base_add_instruction_Ok d v st trade value legs memo meds w id w' :
  base_add_instruction d v st trade value legs memo meds w = (Ok id, w') →
  ∃ info, let info' := match meds with Some m => extend_mediators m info | None => info end in
    ensure_valid_legs legs v w = Ok info ∧
    id = InstructionCounter (settlement w) ∧ id < u64_max ∧
    venue_for_management v d w = Ok (getd (mkVenue d VenueOther) (VenueInfo (settlement w)) v) ∧
    locks_only w w' ∧ portfolio w' = portfolio w ∧
    settlement w' = add_store id (id + 1) v st (now w) trade value legs memo info' (settlement w).
Proof.
  unfold base_add_instruction, on_settlement, deposit_event. intros H. ok_inv.
  destruct_product. ok_inv.
  match goal with H : Base.try_next_post _ _ = _ |- _ =>
    apply Base.try_next_post_Ok in H as (-> & -> & ?) end.
  match goal with H : for_each _ _ _ = _ |- _ => apply auto_affirm_events in H as [e ->] end.
  match goal with H : ensure_valid_legs _ _ _ = Ok ?i |- _ => exists i; rename H into Hv end.
  match goal with H : (match st with _ => _ end) ?w1 = (_, ?w2) |- _ =>
    assert (∃ a e, w2 = w1 <| agenda := a |> <| events := e |>) as (a & e' & ->);
    [clear -H; revert H; generalize w1; intros w0 H|] end.
  { destruct st; ok_inv; [|by eapply schedule_instruction_Ok|];
      exists (agenda w0), (events w0); by destruct w0. }
  split_and!; try done.
  - match goal with H : venue_for_management _ _ _ = Ok ?x |- _ =>
      rewrite H; unfold venue_for_management in H; ok_inv end.
    unfold getd. match goal with H : _ !! v = Some _ |- _ => by rewrite H end.
  - by apply locks_only_same.
Qed.

#[local] Transparent store_instruction open_instruction.

Lemma pending_mediators_insert_all id ms m id' :
  NoDup ms → (∀ d, d ∈ ms → getd MedUnknown m (id, d) = MedUnknown) →
  msum (pending_mediator id') (insert_all MedPending (λ d, (id, d)) ms m) =
  msum (pending_mediator id') m + (if decide (id = id') then N.of_nat (length ms) else 0).
Proof.
  intros Hnd Hold.
  pose proof (count_insert_all (pending_mediator id') MedUnknown MedUnknown MedPending
    (λ d, (id, d)) ms m 0 (if decide (id = id') then 1 else 0)) as Hc.
  unfold pending_mediator at 1 2 3 in Hc. specialize (Hc ltac:(intros k; by rewrite decide_False by naive_solver)
    ltac:(apply NoDup_fmap_2; [by intros ?? [= ->]|done]) Hold
    ltac:(intros x Hx; by rewrite decide_False by naive_solver)
    ltac:(intros x Hx; simpl; repeat case_decide; naive_solver)).
  case_decide; lia.
Qed.

Lemma gset_len_elements {A} `{Countable A} (X : gset A) :
  gset_len X = N.of_nat (length (elements X)).
Proof. done. Qed.

(** The parts of the store after an instruction is added. *)
Section add.
Context (s : SettlementStore) (id : InstructionId) (v : VenueId) (st : SettlementType)
  (created : Moment) (trade value : option Moment) (legs : list Leg) (memo : option Memo)
  (info : InstructionInfo).
Context (Hok : settle_ok s) (Hid : id = InstructionCounter s)
  (Hoff : off_chain (instruction_asset_count info) = off_chain_legs legs)
  (Hsender : ∀ leg p, leg ∈ legs → leg_sender leg = Some p →
     p ∈ portfolios_pending_approval info)
  (Hreceiver : ∀ leg p, leg ∈ legs → leg_receiver leg = Some p →
     p ∈ portfolios_pending_approval info ∪ portfolios_pre_approved info)
  (Hparty : ∀ p, p ∈ portfolios_pending_approval info ∪ portfolios_pre_approved info →
     ∃ leg, leg ∈ legs ∧ leg_party leg p).

Local Notation s' := (add_store id (id + 1) v st created trade value legs memo info s).

Lemma fresh_legs l : InstructionLegs s !! (id, l) = None.
Proof using Hok Hid.
  clear Hoff Hsender Hreceiver Hparty.
  destruct (InstructionLegs s !! (id, l)) eqn:Hl; [|done].
  assert (id < InstructionCounter s); [|lia]. apply (proj1 (so_fresh _ Hok) id l). by eexists.
Qed.
Lemma fresh_users p : UserAffirmations s !! (p, id) = None.
Proof using Hok Hid.
  clear Hoff Hsender Hreceiver Hparty.
  destruct (UserAffirmations s !! (p, id)) eqn:Hu; [|done].
  destruct (so_party _ Hok p id) as (l & leg & Hleg & _); [by eexists|].
  by rewrite fresh_legs in Hleg.
Qed.
Lemma fresh_off l : OffChainAffirmations s !! (id, l) = None.
Proof using Hok Hid.
  clear Hoff Hsender Hreceiver Hparty.
  destruct (OffChainAffirmations s !! (id, l)) eqn:Hu; [|done].
  destruct (so_off _ Hok id l) as (leg & Hleg & _); [by eexists|].
  by rewrite fresh_legs in Hleg.
Qed.
Lemma fresh_status l : getd PendingTokenLock (InstructionLegStatus s) (id, l) = PendingTokenLock.
Proof using Hok Hid.
  clear Hoff Hsender Hreceiver Hparty.
  unfold getd. destruct (InstructionLegStatus s !! (id, l)) eqn:Hu; [|done].
  destruct (so_status _ Hok id l) as (leg & Hleg); [by eexists|].
  by rewrite fresh_legs in Hleg.
Qed.
Lemma fresh_mediators d : InstructionMediatorsAffirmations s !! (id, d) = None.
Proof using Hok Hid.
  clear Hoff Hsender Hreceiver Hparty.
  destruct (InstructionMediatorsAffirmations s !! (id, d)) eqn:Hm; [|done].
  assert (id < InstructionCounter s); [|lia]. apply (proj2 (so_fresh _ Hok) id d). by eexists.
Qed.

Lemma add_fields :
  UserAffirmations s' = insert_all Affirmed (λ p, (p, id))
      (elements (portfolios_pre_approved_difference info))
      (insert_all AffPending (λ p, (p, id)) (elements (portfolios_pending_approval info))
        (UserAffirmations s)) ∧
  InstructionLegStatus s' = InstructionLegStatus s ∧
  InstructionMediatorsAffirmations s' = insert_all MedPending (λ m, (id, m))
      (elements (mediators info)) (InstructionMediatorsAffirmations s) ∧
  InstructionAffirmsPending s' =
    <[id := number_of_pending_affirmations info]> (InstructionAffirmsPending s) ∧
  InstructionStatuses s' = <[id := StatusPending]> (InstructionStatuses s) ∧
  InstructionCounter s' = id + 1 ∧ ReceiptsUsed s' = ReceiptsUsed s.
Proof using Type.
  unfold add_store, store_instruction, open_instruction.
  match goal with |- context [insert_legs id 0 legs ?s0] =>
    destruct (insert_legs_frame id 0 legs s0) as (L & O & ->) end. done.
Qed.

Lemma add_legs_lookup id' l :
  InstructionLegs s' !! (id', l) =
    (if decide (id' = id) then legs !! N.to_nat l else InstructionLegs s !! (id', l)) ∧
  OffChainAffirmations s' !! (id', l) =
    (if decide (id' = id) then
       match legs !! N.to_nat l with
       | Some leg => if is_off_chain leg then Some AffPending else None
       | None => None
       end
     else OffChainAffirmations s !! (id', l)).
Proof using Hok Hid.
  clear Hoff Hsender Hreceiver Hparty.
  unfold add_store, store_instruction, open_instruction. simpl.
  match goal with |- context [insert_legs id 0 legs ?s0] =>
    destruct (insert_legs_lookup id 0 legs s0 id' l) as [-> ->] end. simpl.
  rewrite N.sub_0_r. destruct (decide (id' = id)) as [->|Hne].
  - rewrite fresh_legs, fresh_off.
    destruct (legs !! N.to_nat l) as [leg|] eqn:Hl.
    + apply lookup_lt_Some in Hl. rewrite !decide_True by lia. done.
    + apply lookup_ge_None in Hl. rewrite !decide_False by lia. done.
  - by rewrite !decide_False by naive_solver.
Qed.

Lemma add_user_aff p id' :
  user_aff s' p id' =
  if decide (id' = id) then
    if decide (p ∈ portfolios_pending_approval info) then AffPending
    else if decide (p ∈ portfolios_pre_approved info) then Affirmed else AffUnknown
  else user_aff s p id'.
Proof using Hok Hid.
  clear Hoff Hsender Hreceiver Hparty.
  unfold user_aff. destruct add_fields as (-> & _). rewrite !getd_insert_all.
  assert (∀ X : gset PortfolioId, (p, id') ∈ (λ p, (p, id)) <$> elements X ↔ id' = id ∧ p ∈ X)
    as He by (intros X; rewrite list_elem_of_fmap; setoid_rewrite elem_of_elements; naive_solver).
  pose proof (He (portfolios_pre_approved_difference info)) as H1.
  pose proof (He (portfolios_pending_approval info)) as H2.
  unfold portfolios_pre_approved_difference in H1. rewrite elem_of_difference in H1.
  unfold portfolios_pre_approved_difference.
  destruct (decide (id' = id)) as [->|Hne].
  - assert (getd AffUnknown (UserAffirmations s) (p, id) = AffUnknown) as ->
      by (unfold getd; by rewrite fresh_users).
    repeat case_decide; tauto.
  - rewrite !decide_False by tauto. done.
Qed.

Lemma add_pending id' :
  pending_total s' id' = pending_total s id' +
    (if decide (id = id') then gset_len (portfolios_pending_approval info) + off_chain_legs legs
       + gset_len (mediators info) else 0).
Proof using Hok Hid.
  clear Hoff Hsender Hreceiver Hparty.
  unfold pending_total. destruct add_fields as (-> & _ & -> & _).
  assert (msum (pending_off id') (OffChainAffirmations s') =
    msum (pending_off id') (OffChainAffirmations s) +
      (if decide (id = id') then off_chain_legs legs else 0)) as ->.
  { unfold add_store, store_instruction, open_instruction. simpl. rewrite insert_legs_off; [done|]. intros l _. apply fresh_off. }
  rewrite pending_mediators_insert_all; [|apply NoDup_elements|].
  2:{ intros d _. unfold getd. by rewrite fresh_mediators. }
  pose proof (pending_party_insert_all id AffUnknown AffPending
    (elements (portfolios_pending_approval info)) (UserAffirmations s) id' (NoDup_elements _))
    as H1.
  specialize (H1 ltac:(intros p _; unfold getd; by rewrite fresh_users)).
  pose proof (pending_party_insert_all id AffUnknown Affirmed
    (elements (portfolios_pre_approved_difference info))
    (insert_all AffPending (λ p, (p, id)) (elements (portfolios_pending_approval info))
        (UserAffirmations s)) id' (NoDup_elements _)) as H2.
  rewrite <- !(gset_len_elements (A := PortfolioId)), <- (gset_len_elements (A := IdentityId)) in *.
  match type of H2 with ?P → _ => assert P as H3; [|specialize (H2 H3)] end.
  - intros p Hp%elem_of_elements. unfold portfolios_pre_approved_difference in Hp.
    rewrite getd_insert_all. rewrite decide_False; [unfold getd; by rewrite fresh_users|].
    rewrite list_elem_of_fmap. intros (q & [= <-] & Hq%elem_of_elements). set_solver.
  - repeat case_decide; naive_solver lia.
Qed.

Lemma fresh_pending : pending_total s id = 0.
Proof using Hok Hid.
  clear Hoff Hsender Hreceiver Hparty.
  unfold pending_total. rewrite !msum_zero; [done|..].
  - intros [id' d] m Hm. unfold pending_mediator. simpl. rewrite decide_False; [done|].
    intros [-> _]. by rewrite fresh_mediators in Hm.
  - intros [id' l] m Hm. unfold pending_off. simpl. rewrite decide_False; [done|].
    intros [-> _]. by rewrite fresh_off in Hm.
  - intros [p id'] m Hm. unfold pending_party. simpl. rewrite decide_False; [done|].
    intros [-> _]. by rewrite fresh_users in Hm.
Qed.

Lemma add_count : affirmations_fit s' →
  number_of_pending_affirmations info = pending_total s' id.
Proof using Hok Hid Hoff.
  intros Hfit. pose proof (pending_total_fits s' id Hfit) as Hle. revert Hle.
  rewrite add_pending, fresh_pending, decide_True by done. intros Hle.
  unfold number_of_pending_affirmations. rewrite Hoff.
  rewrite !(N.mod_small (gset_len _)) by lia.
  rewrite (wrapping_add_small _ (gset_len _)) by lia. rewrite wrapping_add_small by lia. lia.
Qed.

Lemma add_live id' : live s id' → live s' id'.
Proof using Type.
  unfold live. destruct add_fields as (_ & _ & _ & _ & -> & _). rewrite lookup_insert.
  case_decide; [by left|done].
Qed.

Lemma add_leg_ok id' l leg : InstructionLegs s' !! (id', l) = Some leg → leg_ok s' id' l leg.
Proof using Hok Hid Hsender Hreceiver.
  intros Hl. destruct (add_legs_lookup id' l) as [EL EO]. rewrite EL in Hl.
  assert (leg_status s' id' l = leg_status s id' l) as Hst
    by (unfold leg_status; by destruct add_fields as (_ & -> & _)).
  destruct (decide (id' = id)) as [->|Hne].
  - assert (leg_status s' id l = PendingTokenLock) as Hst0 by (rewrite Hst; apply fresh_status).
    rewrite Hl in EO. apply list_elem_of_lookup_2 in Hl.
    destruct leg as [p r t a|p r nfts|]; cbn [leg_ok is_off_chain] in *.
    3:{ right. split; [|done]. unfold off_aff, getd. by rewrite EO. }
    all: pose proof (Hsender _ p Hl eq_refl) as Hp; pose proof (Hreceiver _ r Hl eq_refl) as Hr;
      rewrite !add_user_aff, !(decide_True (P := id = id)) by done; rewrite (decide_True _ _ Hp); split; [by right|];
      rewrite elem_of_union in Hr; clear -Hr; repeat case_decide; tauto || done.
  - apply (so_leg _ Hok) in Hl.
    assert (off_aff s' id' l = off_aff s id' l) as Ho by (unfold off_aff, getd; by rewrite EO).
    destruct leg as [p r t a|p r nfts|]; cbn [leg_ok is_off_chain] in *;
      rewrite ?Ho, ?Hst, ?add_user_aff, ?(decide_False _ _ Hne); done.
Qed.

Lemma add_users_live p id' : is_Some (UserAffirmations s' !! (p, id')) →
  if decide (id' = id) then p ∈ portfolios_pending_approval info ∪ portfolios_pre_approved info
  else is_Some (UserAffirmations s !! (p, id')).
Proof using Hok Hid.
  clear Hoff Hsender Hreceiver Hparty.
  destruct add_fields as (-> & _). rewrite !lookup_insert_all.
  unfold portfolios_pre_approved_difference.
  destruct (decide (id' = id)) as [E|Hne]; repeat case_decide; try done;
    repeat match goal with H : _ ∈ _ <$> _ |- _ =>
      apply list_elem_of_fmap in H as (q & [= -> ?] & Hq%elem_of_elements) end;
    try set_solver; try done; rewrite E, fresh_users; by intros [].
Qed.

(** A new instruction keeps the invariant of the store. *)
Lemma settle_ok_add : affirmations_fit s' → settle_ok s'.
Proof using Hok Hid Hoff Hsender Hreceiver Hparty.
  intros Hfit. pose proof add_fields as (EU & ES & EM & EP & EI & EC & _). constructor.
  - intros id'. rewrite EP, getd_insert. case_decide as Heq.
    + subst id'. by apply add_count.
    + rewrite (so_pending _ Hok), add_pending, decide_False by done. lia.
  - intros id' l leg. apply add_leg_ok.
  - intros p id' Hp%add_users_live. case_decide as Heq.
    + subst id'. destruct (Hparty p Hp) as (leg & [i Hi]%list_elem_of_lookup & Hpt).
      exists (N.of_nat i), leg. split; [|done].
      destruct (add_legs_lookup id (N.of_nat i)) as [-> _].
      by rewrite decide_True, Nat2N.id by done.
    + destruct (so_party _ Hok p id' Hp) as (l & leg & Hleg & Hpt). exists l, leg.
      split; [|done]. destruct (add_legs_lookup id' l) as [-> _]. by rewrite decide_False.
  - intros id' l. destruct (add_legs_lookup id' l) as [-> ->]. case_decide.
    + destruct (legs !! _) as [leg|]; [|by intros []].
      destruct (is_off_chain leg) eqn:Ho; [|by intros []]. intros _. by exists leg.
    + apply (so_off _ Hok).
  - intros id' l. rewrite ES. intros Hs%(so_status _ Hok).
    destruct (add_legs_lookup id' l) as [-> _]. case_decide as Heq; [|done].
    subst id'. rewrite fresh_legs in Hs. by destruct Hs.
  - intros id' l. destruct (add_legs_lookup id' l) as [-> _]. case_decide as Heq.
    + intros _. subst id'. left. rewrite EI. by rewrite lookup_insert_eq.
    + intros Hl%(so_live _ Hok). by apply add_live.
  - intros id' d m. rewrite EM, lookup_insert_all. case_decide as Hin.
    + intros [= <-]. split; [|done]. apply list_elem_of_fmap in Hin as (? & [= -> _] & _).
      left. by rewrite EI, lookup_insert_eq.
    + intros Hm%(so_mediator _ Hok). split; [by apply add_live, Hm|by apply Hm].
  - rewrite EC. split; intros id' x.
    + destruct (add_legs_lookup id' x) as [-> _]. case_decide as Heq; [lia|].
      intros Hx%(proj1 (so_fresh _ Hok)). lia.
    + rewrite EM, lookup_insert_all. case_decide as Hin.
      * intros _. apply list_elem_of_fmap in Hin as (? & [= -> _] & _). lia.
      * intros Hx%(proj2 (so_fresh _ Hok)). lia.
Qed.

Lemma add_units k :
  pending_units (InstructionLegs s') (InstructionLegStatus s') k =
  pending_units (InstructionLegs s) (InstructionLegStatus s) k.
Proof using Hok Hid.
  clear Hoff Hsender Hreceiver Hparty.
  destruct add_fields as (_ & -> & _).
  unfold add_store, store_instruction, open_instruction. simpl.
  rewrite insert_legs_units; [done|..]; intros l; [intros _; apply fresh_legs|apply fresh_status].
Qed.
End add.

(** Adding an instruction keeps the invariant, the locks and the portfolios. *)
Lemma base_add_instruction_ok d v st trade value legs memo meds w id w' :
  settle_ok (settlement w) → locks_ok w → affirmations_fit (settlement w') →
  base_add_instruction d v st trade value legs memo meds w = (Ok id, w') →
  settle_ok (settlement w') ∧ locks_ok w' ∧ locks_only w w' ∧ portfolio w' = portfolio w ∧
  ReceiptsUsed (settlement w') = ReceiptsUsed (settlement w).
Proof.
  intros Hok Hl Hfit H.
  apply base_add_instruction_Ok in H as (info & Hv & Hid & _ & _ & Hlo & EP & ES).
  unfold ensure_valid_legs in Hv. apply bind_Ok in Hv as ([t i] & Hc & Hv). ok_inv. simplify_eq.
  apply collect_legs_Ok in Hc as (Ho & _ & _ & Hs & Hr & Hp).
  2:{ unfold count_bounded. simpl. lia. }
  rewrite ES in *.
  set (info' := match meds with Some m => extend_mediators m info | None => info end) in *.
  assert (instruction_asset_count info' = instruction_asset_count info ∧
    portfolios_pending_approval info' = portfolios_pending_approval info ∧
    portfolios_pre_approved info' = portfolios_pre_approved info) as (E1 & E2 & E3)
    by (subst info'; by destruct meds).
  split_and!; [|..|done|done|].
  - apply settle_ok_add; rewrite ?E1, ?E2, ?E3; try done.
    intros p Hpp. destruct (Hp p Hpp) as [Hin|]; [set_solver|done].
  - intros k. rewrite ES, EP, add_units by done. apply Hl.
  - by destruct (add_fields (settlement w) (InstructionCounter (settlement w)) v st (now w) trade value legs memo info')
      as (_ & _ & _ & _ & _ & _ & ->).
Qed.
End add_instruction.
End SettlementAdd.
