(* ===== verification/Execution.v ===== *)
(** Execution of an instruction: what a successful run needed and moved, and
    that a failed one leaves no trace but a status, the events and the weight
    it consumed. *)

From stdpp Require Import base numbers list gmap sets strings sorting.
From S2P Require Import Prelude Subset AssetIdentifier Types SettlementTypes Schedules State.
From S2P Require Import Identity Agents Portfolio Checkpoint Asset Nft Metadata Ledger Settlement.
From S2P Require Import SettlementInv.

Local Open Scope N_scope.

Module Execution.
Import Settlement SettlementInv.

(** What a leg takes from a portfolio and gives to one. *)
Definition leg_out (p : PortfolioId) (t : Ticker) (il : LegId * Leg) : N :=
  match il.2 with
  | Fungible s _ t' a => if decide (s = p ∧ t' = t) then a else 0
  | _ => 0
  end.
Definition leg_in (p : PortfolioId) (t : Ticker) (il : LegId * Leg) : N :=
  match il.2 with
  | Fungible _ r t' a => if decide (r = p ∧ t' = t) then a else 0
  | _ => 0
  end.

(** The same for the balance of an identity. *)
Definition identity_out (d : IdentityId) (t : Ticker) (il : LegId * Leg) : N :=
  match il.2 with
  | Fungible s _ t' a => if decide (did s = d ∧ t' = t) then a else 0
  | _ => 0
  end.
Definition identity_in (d : IdentityId) (t : Ticker) (il : LegId * Leg) : N :=
  match il.2 with
  | Fungible _ r t' a => if decide (did r = d ∧ t' = t) then a else 0
  | _ => 0
  end.

(** The owners of NFTs after a leg. *)
Definition leg_owners (m : gmap (Ticker * NFTId) PortfolioId) (il : LegId * Leg)
    : gmap (Ticker * NFTId) PortfolioId :=
  match il.2 with
  | NonFungibleLeg _ r nfts => foldl (Nft.set_owner r (nfts_ticker nfts)) m (nfts_ids nfts)
  | _ => m
  end.

Section execution.
Context {RT : Runtime} {EX : Externals} {SC : SettlementConfig} {RS : Reserved}.

(** What no leg of an execution touches. *)
Record leg_frame (w w' : World) : Prop := {
  lf_block : block_number w' = block_number w;
  lf_now : now w' = now w;
  lf_agenda : agenda w' = agenda w;
  lf_identity : identity w' = identity w;
  lf_agents : agents w' = agents w;
  lf_settlement : settlement w' = settlement w;
  lf_locked : PortfolioLockedAssets (portfolio w') = PortfolioLockedAssets (portfolio w);
  lf_locked_nft : PortfolioLockedNFT (portfolio w') = PortfolioLockedNFT (portfolio w);
  lf_size : N.of_nat (size (PortfolioAssetBalances (portfolio w))) ≤
            N.of_nat (size (PortfolioAssetBalances (portfolio w')));
}.

#[global] Instance leg_frame_preorder : PreOrder leg_frame.
Proof.
  split.
  - by constructor.
  - intros w1 w2 w3 [] []. constructor; try congruence. by etrans.
Qed.

Lemma leg_frame_fit w w' :
  leg_frame w w' → Portfolio.balances_fit (portfolio w') → Portfolio.balances_fit (portfolio w).
Proof. intros [_ _ _ _ _ _ _ _ Hs]. unfold Portfolio.balances_fit. lia. Qed.

(** The net effect of a list of legs on the books. *)
Record moved (ils : list (LegId * Leg)) (w w' : World) : Prop := {
  mv_portfolio : ∀ p t,
    Portfolio.portfolio_asset_balances p t w' + lsum (leg_out p t) ils =
    Portfolio.portfolio_asset_balances p t w + lsum (leg_in p t) ils;
  mv_identity : ∀ d t,
    Asset.balance_of t d w' + lsum (identity_out d t) ils =
    Asset.balance_of t d w + lsum (identity_in d t) ils;
  mv_tokens : Tokens (asset w') = Tokens (asset w);
  mv_catalog : Metadata.catalog_same w w';
  mv_owners : NFTOwner (nft w') = foldl leg_owners (NFTOwner (nft w)) ils;
}.

(** [transfer_leg] with the error of a failed transfer passed on. *)
Definition settle_leg (id : InstructionId) (memo : option Memo) (caller : IdentityId)
    (il : LegId * Leg) : M unit :=
  st ← gets (instruction_leg_status id il.1) ;
  if decide (st = ExecutionPending) then
    match il.2 with
    | Fungible sender receiver t amount =>
        Asset.base_transfer sender receiver t amount (Some id) memo caller
    | NonFungibleLeg sender receiver nfts =>
        Nft.base_nft_transfer sender receiver nfts id memo caller
    | OffChain _ _ _ _ => mret tt
    end
  else mret tt.

Lemma transfer_leg_Ok id memo caller il w w' :
  transfer_leg id memo caller il w = (Ok (Ok tt), w') →
  settle_leg id memo caller il w = (Ok tt, w').
Proof.
  unfold transfer_leg, settle_leg, mbind, SE_bind, gets. simpl.
  case_decide; [|by intros [= <-]].
  destruct (il.2); [| |by intros [= <-]]; unfold catch;
    match goal with |- context [let '(_, _) := ?x in _] => destruct x end; naive_solver.
Qed.

(** A run over the legs that reports no failure moved every one of them. *)
Lemma transfer_legs_None id memo caller ils w w' :
  transfer_legs id memo caller ils w = (Ok None, w') →
  for_each ils (settle_leg id memo caller) w = (Ok tt, w').
Proof.
  revert w. induction ils as [|il ils IH]; intros w H; simpl in *; [by ok_inv|].
  apply SE_bind_Ok in H as (r & w1 & Hr & H).
  destruct r as [[]|e]; [|by simpl in H; ok_inv]. simpl in H.
  apply transfer_leg_Ok in Hr. unfold mbind, SE_bind. rewrite Hr. by apply IH.
Qed.

Lemma external_frame {A} (f : Ext A) w r w' :
  external f w = (r, w') → ∃ x m, w' = w <| rest := x |> <| meter := m |>.
Proof. unfold external. destruct (f w) as [r' [x m]]. intros [= _ <-]. by exists x, m. Qed.

(** The checks of a transfer change nothing of the books. *)
Lemma is_valid_transfer_frame t from to value w r w' :
  Asset.is_valid_transfer t from to value w = (r, w') →
  ∃ x m, w' = w <| rest := x |> <| meter := m |>.
Proof.
  assert (∃ x m, w = w <| rest := x |> <| meter := m |>) as Hw
    by (exists (rest w), (meter w); by destruct w).
  unfold Asset.is_valid_transfer, Asset.statistics_failures, mbind, SE_bind, gets, catch. simpl.
  destruct (Asset.frozen t w); [by intros [= _ <-]|].
  destruct (Asset.portfolio_failure from to t value w); [by intros [= _ <-]|].
  destruct (external _ w) as [r1 w1] eqn:H1. apply external_frame in H1 as (x1 & m1 & ->). simpl.
  destruct (is_err r1); [intros [= _ <-]; by exists x1, m1|].
  destruct (external (is_compliant _ _ _) _) as [r2 w2] eqn:H2.
  apply external_frame in H2 as (x2 & m2 & ->).
  destruct r2 as [[]|]; intros [= _ <-]; by exists x2, m2.
Qed.

Lemma base_transfer_Ok from to t value iid memo caller w w' :
  Asset.base_transfer from to t value iid memo caller w = (Ok tt, w') →
  ∃ x m, Asset.unsafe_transfer from to t value iid memo caller
           (w <| rest := x |> <| meter := m |>) = (Ok tt, w').
Proof.
  unfold Asset.base_transfer. intros H. ok_inv.
  match goal with H : Asset.is_valid_transfer _ _ _ _ _ = _ |- _ =>
    apply is_valid_transfer_frame in H as (x & m & ->) end.
  by exists x, m.
Qed.

Lemma ledger_ok_rest w x m :
  Ledger.ledger_ok w → Ledger.ledger_ok (w <| rest := x |> <| meter := m |>).
Proof.
  intros [Ha Hat Hp Hc Hs Hn]. constructor; try done.
  - by apply (Asset.supply_ok_ext w).
  - by apply (Nft.nft_ok_frame w).
Qed.

Lemma fungible_leg_frame from to t value iid memo caller w w' :
  Asset.base_transfer from to t value iid memo caller w = (Ok tt, w') → leg_frame w w'.
Proof.
  intros (x & m & H)%base_transfer_Ok.
  apply Asset.unsafe_transfer_Ok in H as (_ & _ & _ & _ & _ & _ & _ & EP & Hu).
  destruct Hu as (? & ? & ? & ? & ? & ? & ?). constructor; try done; rewrite EP; try done.
  simpl. etrans; [apply (Portfolio.size_insert_le _ (from, t))|apply Portfolio.size_insert_le].
Qed.

(** A fungible leg. *)
Lemma fungible_leg_Ok l from to t value iid memo caller w w' :
  Ledger.ledger_ok w → Portfolio.balances_fit (portfolio w') →
  Asset.base_transfer from to t value iid memo caller w = (Ok tt, w') →
  Ledger.ledger_ok w' ∧ Checkpoint.keeps_history w w' ∧ moved [(l, Fungible from to t value)] w w'.
Proof.
  intros Hok Hfit (x & m & H)%base_transfer_Ok. apply (ledger_ok_rest _ x m) in Hok.
  destruct (Ledger.unsafe_transfer_ledger _ _ _ _ _ _ _ _ _ Hok Hfit H) as [Hok' Hh].
  split_and!; [done|done|].
  destruct (Asset.supply_bounds _ (Ledger.ok_supplies _ Hok)) as [_ Hb].
    pose proof (Metadata.unsafe_transfer_catalog _ _ _ _ _ _ _ _ _ H) as Hcat.
    apply Asset.unsafe_transfer_Ok in H
      as (_ & Hne & Hval & Hmax & Hsuf & _ & EA & EP & Hu).
    apply Portfolio.ensure_sufficient_balance_Ok in Hsuf as [_ Hsuf].
    specialize (Hb t to). unfold Portfolio.portfolio_asset_balances in *. simpl in *.
    constructor.
    + intros p t'. unfold leg_out, leg_in, Portfolio.portfolio_asset_balances. simpl.
      rewrite EP, Portfolio.put_transfer_balance by naive_solver.
      rewrite saturating_add_small by lia.
      assert (value ≤ getd 0 (PortfolioAssetBalances (portfolio w)) (from, t)).
      { destruct (decide (0 < value)); [|lia]. unfold Portfolio.locked_assets in Hsuf. lia. }
      repeat case_decide; simplify_eq; naive_solver lia.
    + intros d t'. unfold identity_out, identity_in, Asset.balance_of in *. simpl in *.
      rewrite EA. simpl. rewrite !getd_insert.
      repeat case_decide; simplify_eq; naive_solver lia.
    + by rewrite EA.
    + exact Hcat.
    + destruct Hu as (_ & _ & _ & _ & _ & -> & _). done.
Qed.

(** An NFT leg. *)
Lemma nft_leg_frame from to nfts iid memo caller w w' :
  Nft.base_nft_transfer from to nfts iid memo caller w = (Ok tt, w') →
  leg_frame w w' ∧ asset w' = asset w ∧ Metadata.catalog_same w w' ∧
  PortfolioAssetBalances (portfolio w') = PortfolioAssetBalances (portfolio w) ∧
  NFTOwner (nft w') =
    foldl (Nft.set_owner to (nfts_ticker nfts)) (NFTOwner (nft w)) (nfts_ids nfts).
Proof.
  unfold Nft.base_nft_transfer, Nft.validate_nft_transfer, deposit_event. intros H. ok_inv.
  match goal with H : external _ _ = _ |- _ => apply external_Ok in H as (x' & m' & ->) end.
  match goal with H : Nft.unverified_nfts_transfer _ _ _ _ = _ |- _ =>
    pose proof (Metadata.nfts_transfer_catalog _ _ _ _ _ H) as Hcat;
    apply Nft.unverified_nfts_transfer_Ok in H as (EP & EN & Hu) end.
  destruct (Portfolio.put_nfts_frame from to (nfts_ticker nfts) (nfts_ids nfts) (portfolio w))
    as [m Hm]. simpl in EP. rewrite Hm in EP.
  destruct Hu as (? & ? & ? & ? & ? & EA & ? & ?).
  split_and!; [constructor; try done; simpl; by rewrite EP|done|done|by rewrite EP|by rewrite EN].
Qed.

Lemma nft_leg_Ok l from to nfts iid memo caller w w' :
  Ledger.ledger_ok w →
  Nft.base_nft_transfer from to nfts iid memo caller w = (Ok tt, w') →
  Ledger.ledger_ok w' ∧ Checkpoint.keeps_history w w' ∧
  moved [(l, NonFungibleLeg from to nfts)] w w'.
Proof.
  intros Hok H. destruct (Ledger.base_nft_transfer_ledger _ _ _ _ _ _ _ _ Hok H) as [Hok' Hh].
  split_and!; [done|done|]. apply nft_leg_frame in H as (_ & EA & Hcat & EP & EN). constructor; simpl.
  - intros p t. unfold leg_out, leg_in, Portfolio.portfolio_asset_balances. simpl. by rewrite EP.
  - intros d t. unfold identity_out, identity_in, Asset.balance_of. simpl. by rewrite EA.
  - by rewrite EA.
  - done.
  - done.
Qed.

Lemma moved_cons il ils w w1 w' : moved [il] w w1 → moved ils w1 w' → moved (il :: ils) w w'.
Proof.
  intros [P1 I1 T1 C1 O1] [P2 I2 T2 C2 O2]. constructor.
  - intros p t. specialize (P1 p t). specialize (P2 p t). simpl in *. lia.
  - intros d t. specialize (I1 d t). specialize (I2 d t). simpl in *. lia.
  - congruence.
  - by etrans.
  - by rewrite O2, O1.
Qed.

Lemma moved_off_chain l s r t a w : moved [(l, OffChain s r t a)] w w.
Proof. constructor; try done; intros; simpl; unfold leg_out, leg_in, identity_out, identity_in; simpl; lia. Qed.

Lemma settle_leg_frame id memo caller il w w' :
  settle_leg id memo caller il w = (Ok tt, w') → leg_frame w w'.
Proof.
  unfold settle_leg. intros H. ok_inv. case_decide; [|by ok_inv].
  destruct (il.2); [by eapply fungible_leg_frame| |by ok_inv].
  by apply nft_leg_frame in H as [? _].
Qed.

Lemma settle_legs_frame id memo caller ils w w' :
  for_each ils (settle_leg id memo caller) w = (Ok tt, w') → leg_frame w w'.
Proof.
  revert w. induction ils as [|il ils IH]; intros w H; simpl in H; ok_inv; [done|].
  etrans; [by eapply settle_leg_frame|by apply IH].
Qed.

Lemma settle_leg_Ok id memo caller l leg w w' :
  Ledger.ledger_ok w → Portfolio.balances_fit (portfolio w') →
  (is_off_chain leg = false → leg_status (settlement w) id l = ExecutionPending) →
  settle_leg id memo caller (l, leg) w = (Ok tt, w') →
  Ledger.ledger_ok w' ∧ Checkpoint.keeps_history w w' ∧ moved [(l, leg)] w w'.
Proof.
  intros Hok Hfit Hst. unfold settle_leg. intros H.
  apply SE_bind_Ok in H as (st & w0 & [-> ->]%gets_Ok & H). cbn [fst snd] in H.
  change (instruction_leg_status id l w) with (leg_status (settlement w) id l) in H.
  destruct leg as [s r t a|s r nfts|s r t a]; simpl in Hst.
  - rewrite decide_True in H by by apply Hst. by eapply fungible_leg_Ok.
  - rewrite decide_True in H by by apply Hst. by eapply nft_leg_Ok.
  - assert (w' = w) as -> by (case_decide; by ok_inv). split_and!; [done|done|].
    apply moved_off_chain.
Qed.

(** The legs of an instruction that is affirmed all move. *)
Lemma settle_legs_Ok id memo caller ils w w' :
  Ledger.ledger_ok w → Portfolio.balances_fit (portfolio w') →
  (∀ l leg, (l, leg) ∈ ils → is_off_chain leg = false →
     leg_status (settlement w) id l = ExecutionPending) →
  for_each ils (settle_leg id memo caller) w = (Ok tt, w') →
  Ledger.ledger_ok w' ∧ Checkpoint.keeps_history w w' ∧ moved ils w w'.
Proof.
  revert w. induction ils as [|[l leg] ils IH]; intros w Hok Hfit Hst H; simpl in H.
  { ok_inv. split_and!; [done|done|constructor; try done; intros; simpl; lia]. }
  apply SE_bind_Ok in H as ([] & w1 & H1 & H2).
  pose proof (settle_leg_frame _ _ _ _ _ _ H1) as Hf1.
  pose proof (leg_frame_fit _ _ (settle_legs_frame _ _ _ _ _ _ H2) Hfit) as Hfit1.
  apply settle_leg_Ok in H1 as (Hok1 & Hh1 & Hm1); [|done|done|by apply Hst; left].
  apply IH in H2 as (Hok2 & Hh2 & Hm2); [|done|done|].
  - split_and!; [done|by etrans|by eapply moved_cons].
  - rewrite (lf_settlement _ _ Hf1). intros l' leg' Hin. apply Hst. by right.
Qed.

(* ------------------------------------------------------------------ *)
(** ** What an execution needs *)

(** The invariant of the books and of settlement together. *)
Record system_ok (w : World) : Prop := {
  sys_ledger : Ledger.ledger_ok w;
  sys_settle : settle_ok (settlement w);
  sys_locks : locks_ok w;
}.

(** Everyone affirmed. *)
Record all_affirmed (s : SettlementStore) (id : InstructionId) : Prop := {
  aa_parties : ∀ l leg p, InstructionLegs s !! (id, l) = Some leg → leg_party leg p →
    user_aff s p id = Affirmed;
  aa_receipts : ∀ l leg, InstructionLegs s !! (id, l) = Some leg → is_off_chain leg = true →
    off_aff s id l = Affirmed ∧ ∃ a u, leg_status s id l = ExecutionToBeSkipped a u;
  aa_mediators : ∀ d m, InstructionMediatorsAffirmations s !! (id, d) = Some m →
    ∃ e, m = MedAffirmed e;
  aa_locked : ∀ l leg, InstructionLegs s !! (id, l) = Some leg → is_off_chain leg = false →
    leg_status s id l = ExecutionPending;
}.

(** A count of zero means that nobody is missing. *)
Lemma pending_zero s id :
  settle_ok s → getd 0 (InstructionAffirmsPending s) id = 0 → all_affirmed s id.
Proof.
  intros Hok H0. rewrite (so_pending _ Hok) in H0. unfold pending_total in H0.
  assert (msum (pending_party id) (UserAffirmations s) = 0) as H1 by lia.
  assert (msum (pending_off id) (OffChainAffirmations s) = 0) as H2 by lia.
  assert (msum (pending_mediator id) (InstructionMediatorsAffirmations s) = 0) as H3 by lia.
  assert (∀ p, user_aff s p id ≠ AffPending) as HU.
  { intros p. unfold user_aff, getd. destruct (_ !! _) as [v|] eqn:Hv; [|done].
    pose proof (msum_zero_lookup _ _ _ _ H1 Hv) as Hz. unfold pending_party in Hz. simpl in *.
    case_decide; naive_solver. }
  assert (∀ l, off_aff s id l ≠ AffPending) as HO.
  { intros l. unfold off_aff, getd. destruct (_ !! _) as [v|] eqn:Hv; [|done].
    pose proof (msum_zero_lookup _ _ _ _ H2 Hv) as Hz. unfold pending_off in Hz. simpl in *.
    case_decide; naive_solver. }
  constructor.
  - intros l leg p Hl Hp. apply (so_leg _ Hok) in Hl. pose proof (HU p) as Hup.
    destruct leg; simpl in *; unfold leg_party in Hp; simpl in Hp;
      destruct Hp as [Hp|Hp]; simplify_eq; destruct Hl as [Hs Hr]; try naive_solver;
      destruct (user_aff s p id); naive_solver.
  - intros l leg Hl Hoff. apply (so_leg _ Hok) in Hl. pose proof (HO l). destruct leg; naive_solver.
  - intros d m Hm. pose proof (msum_zero_lookup _ _ _ _ H3 Hm) as Hz.
    apply (so_mediator _ Hok) in Hm as [_ Hm]. unfold pending_mediator in Hz. simpl in Hz.
    destruct m; [done|by rewrite decide_True in Hz|by eexists].
  - intros l leg Hl Hoff. apply (so_leg _ Hok) in Hl. destruct leg as [p ? ? ?|p ? ?|]; [..|done];
      pose proof (HU p); naive_solver.
Qed.

(** The locks of an instruction, released. *)
Lemma release_Ok id ils w :
  system_ok w → listing (settlement w) id ils →
  let w' := w <| portfolio ::= release_store (settlement w) id ils |> in
  for_each ils (release_lock_strict id) w = (Ok tt, w') ∧
  unchecked_release_locks id ils w = (Ok tt, w') ∧
  Ledger.ledger_ok w' ∧ Checkpoint.keeps_history w w' ∧ locks_only w w' ∧
  ∀ k, locked_units (portfolio w') k + lsum (held_units (settlement w) id k) ils =
       locked_units (portfolio w) k.
Proof.
  intros [Hl Hs Hk] Hls.
  destruct (release_locks_run id ils w) as (R1 & R2 & R3).
  { by apply listing_on_chain. }
  { intros k. specialize (Hk k). pose proof (held_units_le _ _ _ k Hls). lia. }
  set (w' := w <| portfolio ::= release_store (settlement w) id ils |>) in *.
  assert (locks_only w w') as Hlo.
  { constructor; try done.
    destruct (release_store_locks (settlement w) id ils (portfolio w)) as (la & ln & E).
    exists la, ln. done. }
  destruct (locks_only_ledger w w' Hl Hlo) as [Hl' Hh].
  { apply release_store_balances_ok, Hl. }
  split_and!; done.
Qed.

(** The state in which a successful execution leaves the world. *)
Record executed (id : InstructionId) (w w' : World) : Prop := {
  ex_affirmed : all_affirmed (settlement w) id;
  ex_live : live (settlement w) id;
  ex_venue : ensure_allowed_venue (sorted_legs id w) (venue_id (instruction_details id w)) w = Ok tt;
  ex_settlement : settlement w' = settlement w;
  ex_block : block_number w' = block_number w;
  ex_now : now w' = now w;
  ex_identity : identity w' = identity w;
  ex_agents : agents w' = agents w;
  ex_ledger : Ledger.ledger_ok w';
  ex_history : Checkpoint.keeps_history w w';
  ex_moved : moved (sorted_legs id w) w w';
  ex_locks : ∀ k, locked_units (portfolio w') k +
    lsum (held_units (settlement w) id k) (sorted_legs id w) = locked_units (portfolio w) k;
}.

Lemma locked_units_ext ps ps' k :
  PortfolioLockedAssets ps' = PortfolioLockedAssets ps →
  PortfolioLockedNFT ps' = PortfolioLockedNFT ps → locked_units ps' k = locked_units ps k.
Proof. intros E1 E2. destruct k as [[p t] [i|]]; simpl; by rewrite ?E1, ?E2. Qed.

Lemma system_ok_meter w m : system_ok w → system_ok (w <| meter := m |>).
Proof. intros [Hl Hs Hk]. constructor; try done. by apply Ledger.ledger_ok_meter. Qed.

(** The transaction around the legs. *)
Lemma leg_transaction_Ok id legs memo caller w w' :
  system_ok w → listing (settlement w) id legs → all_affirmed (settlement w) id →
  Portfolio.balances_fit (portfolio w') →
  with_leg_transaction (release_asset_locks_and_transfer_pending_legs id legs memo caller) w
    = (Ok None, w') →
  ∃ w1, locks_only w w1 ∧ settlement w1 = settlement w ∧ leg_frame w1 w' ∧
    Ledger.ledger_ok w' ∧ Checkpoint.keeps_history w w' ∧ moved legs w w' ∧
    ∀ k, locked_units (portfolio w') k + lsum (held_units (settlement w) id k) legs =
         locked_units (portfolio w) k.
Proof.
  intros Hok Hls Haff Hfit H. unfold with_leg_transaction in H.
  destruct (release_asset_locks_and_transfer_pending_legs _ _ _ _ _) as [[[]|] w2] eqn:Hr;
    simplify_eq.
  unfold release_asset_locks_and_transfer_pending_legs, mbind, SE_bind in Hr.
  destruct (release_Ok id legs w Hok Hls) as (_ & R & Hl1 & Hh1 & Hlo & Hk).
  rewrite R in Hr. apply transfer_legs_None in Hr.
  set (w1 := w <| portfolio ::= release_store (settlement w) id legs |>) in *.
  pose proof (settle_legs_frame _ _ _ _ _ _ Hr) as Hf.
  apply settle_legs_Ok in Hr as (Hl2 & Hh2 & Hm); [|done|done|].
  - exists w1. split_and!; try done.
    + destruct Hm as [P I T C O]. constructor; try done.
      intros p t. specialize (P p t). unfold Portfolio.portfolio_asset_balances in *.
      destruct (lo_portfolio _ _ Hlo) as (la & ln & E). by rewrite E in P.
    + intros k. rewrite <- Hk. f_equal.
      apply locked_units_ext; [apply (lf_locked _ _ Hf)|apply (lf_locked_nft _ _ Hf)].
  - intros l leg Hin. apply (aa_locked _ _ Haff). by apply Hls.
Qed.

Lemma execute_instruction_Ok id caller w w' :
  system_ok w → Portfolio.balances_fit (portfolio w') →
  execute_instruction id caller w = (Ok tt, w') → executed id w w'.
Proof.
  intros Hok Hfit H. unfold execute_instruction, check_accrue, set_meter, deposit_event in H.
  ok_inv.
  match goal with H : with_leg_transaction _ ?w0 = (Ok ?f, _) |- _ =>
    destruct f as [?|]; [by ok_inv|]; rename H into Ht end. ok_inv.
  assert (all_affirmed (settlement w) id) as Haff by (apply pending_zero; [apply Hok|done]).
  apply leg_transaction_Ok in Ht as (w1 & Hlo & ES & Hf & Hl & Hh & Hm & Hk);
    [|by apply system_ok_meter|exact (sorted_legs_listing id w)|done|done].
  destruct Hf as [F1 F2 F3 F4 F5 F6 F7 F8 F9], Hlo as [L1 L2 L3 L4 L5 L6 L7 L8]. simpl in *.
  constructor; simpl; try congruence; try done.
  - match goal with H : (_ || _) = true |- _ => apply orb_true_iff in H end.
    unfold live. unfold instruction_status, getd in *.
    destruct (InstructionStatuses (settlement w) !! id) as [st|]; simpl in *;
      [|by destruct_or!; ok_inv].
    destruct_or!; ok_inv; naive_solver.
  - destruct Hl as [Ha Hat Hp Hc Hs Hn]. constructor; try done.
    + by eapply Asset.supply_ok_ext.
    + by eapply Nft.nft_ok_frame.
  - by destruct Hm.
Qed.

(* ------------------------------------------------------------------ *)
(** ** What a failed execution leaves behind *)

(** The meter and the events are all that may differ. *)
Definition only_notes (w w' : World) : Prop :=
  w' = w <| meter := meter w' |> <| events := events w' |>.

Lemma only_notes_refl w : only_notes w w.
Proof. unfold only_notes. by destruct w. Qed.

Lemma leg_transaction_rollback m w r w' :
  with_leg_transaction m w = (r, w') → r ≠ Ok None → w' = w <| meter := meter w' |>.
Proof.
  unfold with_leg_transaction. destruct (m w) as [[[l|]|e] w1]; intros [= <- <-] ?; done.
Qed.

(** An error undoes the locks released and the legs moved. *)
Lemma execute_instruction_Err id caller w e w' :
  execute_instruction id caller w = (Err e, w') → only_notes w w'.
Proof.
  unfold execute_instruction, check_accrue, set_meter, deposit_event. intros H.
  err_inv; try apply only_notes_refl; try done.
  - match goal with H : with_leg_transaction _ _ = _ |- _ =>
      apply leg_transaction_rollback in H as ->; [|done] end. unfold only_notes. by destruct w.
  - match goal with H : (match ?f with _ => _ end) _ = _ |- _ => destruct f as [l|] end;
      [|err_inv; done].
    match goal with H : with_leg_transaction _ _ = _ |- _ =>
      apply leg_transaction_rollback in H; [|done] end.
    err_inv; try done. unfold throw in *. simplify_eq.
    match goal with H : ?x = _ <| meter := _ |> <| meter := _ |> |- _ => rewrite H end.
    unfold only_notes. by destruct w.
Qed.
End execution.
End Execution.
