(* ===== verification/System.v ===== *)
(** The system: the calls of all the pallets together, the invariant they
    keep, and what holds in every state that can be reached. *)

From stdpp Require Import base numbers list gmap sets strings sorting relations.
From S2P Require Import Prelude Subset AssetIdentifier Types SettlementTypes Schedules State.
From S2P Require Import Identity Agents Portfolio Checkpoint Asset Nft Metadata Ledger Settlement.
From S2P Require Import SettlementInv SettlementAdd Execution.

Local Open Scope N_scope.

Module System.
Import Settlement SettlementInv SettlementAdd Execution.

Section system.
Context {RT : Runtime} {EX : Externals} {SC : SettlementConfig} {RS : Reserved}.

(* ------------------------------------------------------------------ *)
(** ** The calls of the settlement pallet *)

(** A receipt that was used stays used. *)
Definition receipts_kept (s s' : SettlementStore) : Prop :=
  ∀ k, ReceiptsUsed s !! k = Some true → ReceiptsUsed s' !! k = Some true.

Lemma receipts_kept_same s s' : ReceiptsUsed s' = ReceiptsUsed s → receipts_kept s s'.
Proof. intros E k. by rewrite E. Qed.

Lemma receipts_kept_affirm id ps ils rs s : receipts_kept s (affirm_store id ps ils rs s).
Proof. intros k Hk. simpl. rewrite lookup_insert_all. by case_decide. Qed.

(** What a call establishes: the invariant holds, no past balance changed and
    no receipt was forgotten. *)
Definition kept (w w' : World) : Prop :=
  system_ok w' ∧ Checkpoint.keeps_history w w' ∧ receipts_kept (settlement w) (settlement w').

Lemma kept_trans w1 w2 w3 : kept w1 w2 → kept w2 w3 → kept w1 w3.
Proof.
  intros (_ & H1 & R1) (H2 & H3 & R2). split_and!; [done|by transitivity w2|].
  intros k Hk. by apply R2, R1.
Qed.

(** Settlement does not touch the records of the assets either. *)
Definition sound (w w' : World) : Prop :=
  system_ok w' ∧ Checkpoint.keeps_history w w' ∧ Tokens (asset w') = Tokens (asset w) ∧
  Metadata.catalog_same w w' ∧ receipts_kept (settlement w) (settlement w').

Lemma sound_refl w : system_ok w → sound w w.
Proof. intros Hok. split_and!; try done. by apply receipts_kept_same. Qed.

Lemma sound_trans w1 w2 w3 : sound w1 w2 → sound w2 w3 → sound w1 w3.
Proof.
  intros (_ & H1 & E1 & C1 & R1) (H2 & H3 & E2 & C2 & R2).
  split_and!; [done|by transitivity w2|congruence|by etrans|]. intros k Hk. by apply R2, R1.
Qed.

Lemma sound_locks_only w w' :
  system_ok w → locks_only w w' → Portfolio.balances_ok (portfolio w') →
  settle_ok (settlement w') → locks_ok w' → receipts_kept (settlement w) (settlement w') →
  sound w w'.
Proof.
  intros [Hl _ _] Hlo Hb Hs Hk Hr.
  destruct (locks_only_ledger w w' Hl Hlo Hb) as [Hl' Hh].
  split_and!; [done|done|by rewrite (lo_asset _ _ Hlo)| |done].
  apply Metadata.catalog_same_stores; [by apply Hlo|by rewrite (lo_nft _ _ Hlo)].
Qed.

(** The agenda, the events and the meter are nobody's invariant. *)
Lemma sound_agenda w a e : system_ok w → sound w (w <| agenda := a |> <| events := e |>).
Proof.
  intros Hok. apply sound_locks_only; try apply Hok;
    [by apply locks_only_same|by apply receipts_kept_same].
Qed.

Lemma sound_meter w m : system_ok w → sound w (w <| meter := m |>).
Proof.
  intros Hok. apply sound_locks_only; try apply Hok;
    [by apply locks_only_same|by apply receipts_kept_same].
Qed.

(** A write to the parts of the store that the invariant does not read. *)
Record same_instructions (s s' : SettlementStore) : Prop := {
  si_pending : InstructionAffirmsPending s' = InstructionAffirmsPending s;
  si_users : UserAffirmations s' = UserAffirmations s;
  si_off : OffChainAffirmations s' = OffChainAffirmations s;
  si_mediators : InstructionMediatorsAffirmations s' = InstructionMediatorsAffirmations s;
  si_legs : InstructionLegs s' = InstructionLegs s;
  si_status : InstructionLegStatus s' = InstructionLegStatus s;
  si_statuses : InstructionStatuses s' = InstructionStatuses s;
  si_counter : InstructionCounter s' = InstructionCounter s;
  si_receipts : ReceiptsUsed s' = ReceiptsUsed s;
}.

Lemma settle_ok_same s s' : same_instructions s s' → settle_ok s → settle_ok s'.
Proof.
  intros [E1 E2 E3 E4 E5 E6 E7 E8 _] [H1 H2 H3 H4 H5 H6 H7 H8].
  constructor; unfold pending_total, live in *; rewrite ?E1, ?E2, ?E3, ?E4, ?E5, ?E6, ?E7, ?E8;
    try done.
  intros id l leg Hl. specialize (H2 id l leg Hl).
  unfold leg_ok, user_aff, off_aff, leg_status in *. by rewrite ?E2, ?E3, ?E6.
Qed.

Lemma sound_venue w w' :
  system_ok w → same_instructions (settlement w) (settlement w') → locks_only w w' →
  portfolio w' = portfolio w → sound w w'.
Proof.
  intros Hok Hs Hlo EP. apply sound_locks_only; try done.
  - rewrite EP. apply Hok.
  - eapply settle_ok_same; [done|apply Hok].
  - intros k. rewrite (si_legs _ _ Hs), (si_status _ _ Hs), EP. apply Hok.
  - apply receipts_kept_same, Hs.
Qed.

(** The calls on venues. *)
Definition on_venues (c : Settlement.call) : bool :=
  match c with
  | CreateVenue _ _ _ | UpdateVenueDetails _ _ | UpdateVenueType _ _ | UpdateVenueSigners _ _ _
  | SetVenueFiltering _ _ | AllowVenues _ _ | DisallowVenues _ _ => true
  | _ => false
  end.

Lemma venues_system o c w w' :
  system_ok w → on_venues c = true → Settlement.dispatch o c w = (Ok tt, w') → sound w w'.
Proof.
  intros Hok Hv H. destruct c; try done; simpl in H;
    unfold create_venue, update_venue_details, update_venue_type, update_venue_signers,
      set_venue_filtering, allow_venues, disallow_venues, on_settlement, deposit_event in H;
    ok_inv; destruct_product; ok_inv.
  4: match goal with H : (if ?b then _ else _) _ = _ |- _ => destruct b; ok_inv end.
  all: apply sound_venue; [done|by constructor|by apply locks_only_same|done].
Qed.

(** Adding an instruction. *)
Lemma add_system d v st trade value legs memo meds w id w' :
  system_ok w → affirmations_fit (settlement w') →
  base_add_instruction d v st trade value legs memo meds w = (Ok id, w') → sound w w'.
Proof.
  intros Hok Hfit H.
  apply base_add_instruction_ok in H as (Hs & Hk & Hlo & EP & ER);
    [|apply Hok|apply Hok|done].
  apply sound_locks_only; try done; [rewrite EP; apply Hok|by apply receipts_kept_same].
Qed.

(** Affirming. *)
Lemma affirm_system o id portfolios count w f w' :
  system_ok w → base_affirm_instruction o id portfolios count w = (Ok f, w') →
  sound w w' ∧ ∃ ps ils, settlement w' = affirm_store id ps ils [] (settlement w).
Proof.
  intros Hok H. unfold base_affirm_instruction in H. ok_inv. destruct_product. ok_inv.
  apply unsafe_affirm_Ok in H as (_ & Haf & ES & Hlo & Hb & Hk & _);
    [|apply (Portfolio.ok_balances _ (Ledger.ok_portfolio _ (sys_ledger _ Hok)))|apply Hok..].
  split; [|by eexists _, _]. apply sound_locks_only; try done; rewrite ES.
  - apply settle_ok_affirm; [apply Hok|done].
  - apply receipts_kept_affirm.
Qed.

Lemma receipts_system o id receipts portfolios count w f w' :
  system_ok w → base_affirm_with_receipts o id receipts portfolios count w = (Ok f, w') →
  sound w w'.
Proof.
  intros Hok H.
  apply affirm_with_receipts_Ok in H as (_ & Haf & ES & Hlo & Hb & Hk & _);
    [|apply (Portfolio.ok_balances _ (Ledger.ok_portfolio _ (sys_ledger _ Hok)))|apply Hok..].
  apply sound_locks_only; try done; rewrite ES.
  - apply settle_ok_affirm; [apply Hok|done].
  - apply receipts_kept_affirm.
Qed.

Lemma maybe_schedule_system n id limit w w' :
  system_ok w → maybe_schedule_instruction n id limit w = (Ok tt, w') →
  sound w w' ∧ settlement w' = settlement w.
Proof.
  intros Hok (a & e & ->)%maybe_schedule_Ok. split; [by apply sound_agenda|done].
Qed.

Lemma size_insert_all {X K V} `{Countable K} (v : V) (g : X → K) l (m : gmap K V) :
  (size m ≤ size (insert_all v g l m))%nat.
Proof.
  unfold insert_all. revert m. induction l as [|x l IH]; intros m; simpl; [done|].
  etrans; [|apply IH]. rewrite map_size_insert. destruct (m !! g x); simpl; lia.
Qed.

Lemma affirm_store_fit id ps ils rs s :
  affirmations_fit (affirm_store id ps ils rs s) → affirmations_fit s.
Proof.
  unfold affirmations_fit. simpl.
  pose proof (size_insert_all Affirmed (λ p, (p, id)) ps (UserAffirmations s)).
  pose proof (size_insert_all Affirmed (λ r, (id, rd_leg_id r)) rs (OffChainAffirmations s)).
  lia.
Qed.

Lemma affirm_and_schedule_system o id portfolios count w w' :
  system_ok w → affirm_and_maybe_schedule_instruction o id portfolios count w = (Ok tt, w') →
  sound w w' ∧ ∃ ps ils, settlement w' = affirm_store id ps ils [] (settlement w).
Proof.
  intros Hok H. unfold affirm_and_maybe_schedule_instruction in H. ok_inv.
  match goal with H : base_affirm_instruction _ _ _ _ _ = _ |- _ =>
    apply affirm_system in H as [Hs (ps & ils & ES)]; [|done] end.
  match goal with H : maybe_schedule_instruction _ _ _ _ = _ |- _ =>
    apply maybe_schedule_system in H as [Hs' ES']; [|apply Hs] end.
  split; [by eapply sound_trans|]. exists ps, ils. by rewrite ES'.
Qed.

(** Withdrawing. *)
Lemma cancel_system id w w' :
  system_ok w → cancel_instruction id w = (Ok tt, w') → sound w w' ∧ settlement w' = settlement w.
Proof.
  intros Hok (a & ->)%cancel_instruction_Ok. split; [|done].
  apply sound_locks_only; try apply Hok;
    [by apply locks_only_same|by apply receipts_kept_same].
Qed.

Lemma withdraw_system o id portfolios count w w' :
  system_ok w → affirmations_fit (settlement w') →
  base_withdraw_affirmation o id portfolios count w = (Ok tt, w') → sound w w'.
Proof.
  intros Hok Hfit H. unfold base_withdraw_affirmation in H. ok_inv. destruct_product. ok_inv.
  match goal with H : unsafe_withdraw_instruction_affirmation _ _ _ _ _ _ = (_, ?w1) |- _ =>
    apply unsafe_withdraw_Ok in H as (_ & Hwd & ES & Hlo & Hb & Hk & _);
    [|apply (Portfolio.ok_balances _ (Ledger.ok_portfolio _ (sys_ledger _ Hok)))|apply Hok..];
    assert (settlement w' = settlement w1) as E1 end.
  { case_decide; [|by ok_inv]. by apply cancel_instruction_Ok in H as (a & ->). }
  rewrite E1, ES in Hfit.
  match goal with H : locks_only w ?w1 |- _ => assert (sound w w1) as Hs end.
  { apply sound_locks_only; try done; rewrite ES.
    - apply settle_ok_withdraw; [apply Hok|done..].
    - by apply receipts_kept_same. }
  case_decide; [|by ok_inv]. apply cancel_system in H as [Hs' _]; [|apply Hs].
  by eapply sound_trans.
Qed.

(** The mediators. *)
Lemma settle_ok_pending_ext s p :
  (∀ id, getd 0 p id = getd 0 (InstructionAffirmsPending s) id) → settle_ok s →
  settle_ok (s <| InstructionAffirmsPending := p |>).
Proof.
  intros Hp [H1 H2 H3 H4 H5 H6 H7 H8]. constructor; try done.
  intros id. simpl. rewrite Hp. apply H1.
Qed.

Lemma sound_mediator w w' id d v p :
  system_ok w → mediator_affirmation id d w ≠ MedUnknown → v ≠ MedUnknown →
  getd 0 p id + (if decide (mediator_affirmation id d w = MedPending) then 1 else 0) =
    instruction_affirms_pending id w + (if decide (v = MedPending) then 1 else 0) →
  (∀ id', id' ≠ id → getd 0 p id' = instruction_affirms_pending id' w) →
  settlement w' = (settlement w) <| InstructionMediatorsAffirmations ::= <[(id, d) := v]> |>
                                 <| InstructionAffirmsPending := p |> →
  locks_only w w' → portfolio w' = portfolio w → sound w w'.
Proof.
  intros Hok Hm Hv Hn Hp ES Hlo EP. apply sound_locks_only; try done.
  - rewrite EP. apply Hok.
  - pose proof (settle_ok_mediator (settlement w) id d v (getd 0 p id) (sys_settle _ Hok) Hm Hv Hn)
      as Hs.
    rewrite ES. apply (settle_ok_pending_ext _ p) in Hs; [exact Hs|].
    clear Hn. intros id'. simpl. rewrite getd_insert. case_decide as He; [by subst|].
    by apply Hp.
  - intros k. rewrite ES, EP. apply Hok.
  - apply receipts_kept_same. by rewrite ES.
Qed.

Lemma pending_mediator_positive s id d :
  settle_ok s → getd MedUnknown (InstructionMediatorsAffirmations s) (id, d) = MedPending →
  0 < getd 0 (InstructionAffirmsPending s) id.
Proof.
  intros Hok Hm. rewrite (so_pending _ Hok). unfold pending_total.
  pose proof (msum_getd_le MedUnknown (pending_mediator id) (InstructionMediatorsAffirmations s)
    (id, d)) as Hle.
  rewrite Hm in Hle. unfold pending_mediator in Hle at 1 2. simpl in Hle.
  rewrite decide_False, decide_True in Hle by naive_solver.
  specialize (Hle eq_refl). lia.
Qed.

Lemma mediator_affirm_system o id expiry w w' :
  system_ok w → affirm_instruction_as_mediator o id expiry w = (Ok tt, w') → sound w w'.
Proof.
  intros Hok H. unfold affirm_instruction_as_mediator, set_mediator, on_settlement, deposit_event in H.
  ok_inv. destruct_product. ok_inv.
  match goal with
  | H1 : mediator_affirmation id ?d w ≠ _, H2 : _ = (Ok tt, ?w1), H3 : _ ?w1 = (Ok tt, ?w2) |- _ =>
      assert (sound w w1) as Hs; [|assert (sound w1 w2) as Hs2] end.
  - match goal with H : (if decide (mediator_affirmation id ?d w = _) then _ else _) _ = _,
      Hu : _ ≠ MedUnknown |- _ =>
      destruct (decide (mediator_affirmation id d w = MedPending)) as [Hm|Hm]; ok_inv;
      [apply (sound_mediator _ _ id d (MedAffirmed expiry)
         (<[id := instruction_affirms_pending id w - 1]> (InstructionAffirmsPending (settlement w))))
      |apply (sound_mediator _ _ id d (MedAffirmed expiry)
         (InstructionAffirmsPending (settlement w)))]; try done; try by apply locks_only_same end.
    + rewrite getd_insert_eq, decide_True, decide_False by done.
      apply pending_mediator_positive in Hm; [|apply Hok]. unfold instruction_affirms_pending. lia.
    + intros id' Hne. by rewrite getd_insert_ne.
    + by rewrite decide_False.
  - match goal with H : (if ?b then _ else _) _ = _ |- _ => destruct b; ok_inv end.
    + match goal with H : maybe_schedule_instruction _ _ _ _ = _ |- _ =>
        apply maybe_schedule_system in H as [? _]; [done|apply Hs] end.
    + apply sound_refl, Hs.
  - eapply sound_trans; [exact Hs|]. eapply sound_trans; [exact Hs2|].
    match goal with |- sound ?w2 _ => apply (sound_agenda w2 (agenda w2)); apply Hs2 end.
Qed.

(** An affirmed mediator is counted in the size and not in the total. *)
Lemma affirmed_mediator_room s id d e :
  settle_ok s → affirmations_fit s →
  getd MedUnknown (InstructionMediatorsAffirmations s) (id, d) = MedAffirmed e →
  getd 0 (InstructionAffirmsPending s) id + 1 ≤ u64_max.
Proof.
  intros Hok Hfit Hm. rewrite (so_pending _ Hok). unfold affirmations_fit, pending_total in *.
  unfold getd in Hm.
  destruct (InstructionMediatorsAffirmations s !! (id, d)) as [m|] eqn:Hl; simplify_eq/=.
  rewrite (msum_lookup (pending_mediator id) _ _ _ Hl).
  pose proof (msum_le_size (pending_party id) (UserAffirmations s)) as H1.
  pose proof (msum_le_size (pending_off id) (OffChainAffirmations s)) as H2.
  pose proof (msum_le_size (pending_mediator id)
    (delete (id, d) (InstructionMediatorsAffirmations s))) as H3.
  rewrite map_size_delete, Hl in H3. simpl in H3.
  assert (size (InstructionMediatorsAffirmations s) ≠ 0%nat) as Hsz.
  { intros Hz%map_size_empty_inv. by rewrite Hz in Hl. }
  unfold pending_mediator at 1. simpl. rewrite decide_False by naive_solver.
  unfold pending_party, pending_off, pending_mediator in *.
  specialize (H1 ltac:(intros; case_decide; lia)).
  specialize (H2 ltac:(intros; case_decide; lia)).
  specialize (H3 ltac:(intros; case_decide; lia)). lia.
Qed.

Lemma mediator_withdraw_system o id w w' :
  system_ok w → affirmations_fit (settlement w) →
  withdraw_affirmation_as_mediator o id w = (Ok tt, w') → sound w w'.
Proof.
  intros Hok Hfit H.
  unfold withdraw_affirmation_as_mediator, set_mediator, on_settlement, deposit_event in H.
  ok_inv. destruct_product. ok_inv.
  match goal with H : (match mediator_affirmation id ?d w with _ => _ end) = _ |- _ =>
    destruct (mediator_affirmation id d w) as [| |e] eqn:Hm; try discriminate H; rename d into d' end.
  pose proof (affirmed_mediator_room _ _ _ _ (sys_settle _ Hok) Hfit Hm) as Hroom.
  match goal with H : (if _ then _ else _) ?w1 = (Ok tt, ?w2) |- _ =>
    assert (sound w w1) as Hs; [|assert (sound w1 w2) as Hs2] end.
  - eapply (sound_mediator _ _ id d' MedPending); [done| | | | |reflexivity|by apply locks_only_same|done].
    + by rewrite Hm.
    + done.
    + simpl. rewrite getd_insert_eq, Hm. simpl.
      unfold instruction_affirms_pending. simpl. rewrite saturating_add_small by done. lia.
    + intros id' Hne. simpl. by rewrite getd_insert_ne.
  - match goal with H : (if ?b then _ else _) _ = _ |- _ => destruct b; ok_inv end.
    + match goal with H : cancel_instruction _ _ = _ |- _ =>
        apply cancel_system in H as [? _]; [done|apply Hs] end.
    + apply sound_refl, Hs.
  - eapply sound_trans; [exact Hs|]. eapply sound_trans; [exact Hs2|].
    match goal with |- sound ?w2 _ => apply (sound_agenda w2 (agenda w2)); apply Hs2 end.
Qed.

(** Pruning after the locks of the instruction were released. *)
Lemma prune_system id b ils w w1 w' :
  system_ok w → listing (settlement w) id ils → settlement w1 = settlement w →
  Ledger.ledger_ok w1 →
  (∀ k, locked_units (portfolio w1) k + lsum (held_units (settlement w) id k) ils =
        locked_units (portfolio w) k) →
  prune_instruction id b w1 = (Ok tt, w') →
  sound w1 w' ∧ pruned id b (block_number w1) (settlement w) (settlement w') ∧
  ∃ s, w' = w1 <| settlement := s |>.
Proof.
  intros Hok Hls ES Hl Hk H.
  apply prune_instruction_Ok in H as [Hpr [f ->]]; [|rewrite ES; apply Hok].
  rewrite ES in Hpr. split_and!; [|done|by eexists].
  destruct (locks_only_ledger w1 (w1 <| settlement ::= f |>) Hl) as [Hl' Hh'].
  { by apply locks_only_settlement. }
  { apply Hl. }
  split_and!; [|done|done|done|].
  2:{ apply receipts_kept_same. rewrite (pr_receipts _ _ _ _ _ Hpr). by rewrite ES. }
  constructor; [done|..].
  - eapply pruned_settle_ok; [apply Hok|done].
  - unfold locks_ok. simpl. apply (release_prune_locks id b (block_number w1) ils w); try done.
    apply Hok.
Qed.

(** Rejecting. *)
Lemma reject_system o id p count w w' :
  system_ok w → base_reject_instruction o id p count w = (Ok tt, w') →
  sound w w' ∧ pruned id false (block_number w) (settlement w) (settlement w') ∧
  locks_only w w' ∧
  ∀ k, locked_units (portfolio w') k + lsum (held_units (settlement w) id k) (legs_of id w) =
       locked_units (portfolio w) k.
Proof.
  intros Hok H. unfold base_reject_instruction, deposit_event in H. ok_inv.
  destruct (release_Ok id (legs_of id w) w Hok (legs_of_listing id w))
    as (_ & R & Hl1 & Hh1 & Hlo & Hk).
  match goal with H : unchecked_release_locks _ _ _ = (_, ?x) |- _ =>
    is_var x; rewrite R in H; injection H as <- end.
  match goal with H : cancel_instruction _ _ = _ |- _ =>
    apply cancel_instruction_Ok in H as (a & ->) end.
  match goal with H : prune_instruction _ _ ?w1 = _ |- _ =>
    eapply (prune_system id false (legs_of id w) w) in H as (Hs & Hpr & s' & ->);
    [|done|apply legs_of_listing|done| |done] end.
  2:{ destruct Hl1 as [Ha Hat Hp Hc Hsu Hn]. constructor; try done.
      - by eapply Asset.supply_ok_ext.
      - by eapply Nft.nft_ok_frame. }
  split_and!; [|done| |done].
  - split_and!; [|by transitivity (w <| portfolio ::= release_store (settlement w) id (legs_of id w) |>)|done|done|].
    2:{ apply receipts_kept_same, Hpr. }
    exact (proj1 (sound_agenda _ a _ (proj1 Hs))).
  - transitivity (w <| portfolio ::= release_store (settlement w) id (legs_of id w) |>); [done|].
    by apply locks_only_same.
Qed.

(** Executing: a success moves and prunes, a failure is a status. *)
Lemma retryable_Ok id caller w w' :
  system_ok w → Portfolio.balances_fit (portfolio w') →
  execute_instruction_retryable id caller w = (Ok tt, w') →
  ∃ w1, executed id w w1 ∧ (∃ s, w' = w1 <| settlement := s |>) ∧ sound w w' ∧
    pruned id true (block_number w) (settlement w) (settlement w').
Proof.
  intros Hok Hfit H. unfold execute_instruction_retryable in H.
  apply SE_bind_Ok in H as (r & w1 & Hr & H).
  rewrite catch_Ok in Hr. destruct r as [[]|e]; [|by unfold on_settlement in H; ok_inv].
  assert (Portfolio.balances_fit (portfolio w1)) as Hfit1.
  { unfold prune_instruction, on_settlement in H. by ok_inv. }
  apply execute_instruction_Ok in Hr as Hex; [|done|done].
  pose proof (prune_system id true (sorted_legs id w) w w1 w' Hok (sorted_legs_listing id w)
    (ex_settlement _ _ _ Hex) (ex_ledger _ _ _ Hex) (ex_locks _ _ _ Hex) H) as (Hs & Hpr & s & ->).
  rewrite (ex_block _ _ _ Hex) in Hpr.
  exists w1. split_and!; [done|by exists s| |done].
  split_and!; [apply Hs|transitivity w1; [apply Hex|apply Hs]| | |apply receipts_kept_same, Hpr].
  - apply (mv_tokens _ _ _ (ex_moved _ _ _ Hex)).
  - apply (mv_catalog _ _ _ (ex_moved _ _ _ Hex)).
Qed.

Lemma retryable_Err id caller w e w' :
  execute_instruction_retryable id caller w = (Err e, w') →
  only_notes (w <| settlement ::= λ s, s <| InstructionStatuses ::= <[id := StatusFailed]> |> |>) w'.
Proof.
  unfold execute_instruction_retryable. intros H.
  apply SE_bind_Err in H as [H|(r & w1 & Hr & H)].
  { unfold catch in H. by destruct (execute_instruction _ _ _). }
  rewrite catch_Ok in Hr. destruct r as [[]|e']; [by unfold prune_instruction, on_settlement in H; err_inv|].
  apply execute_instruction_Err in Hr. unfold on_settlement, throw in H.
  err_inv. simplify_eq. unfold only_notes in *. rewrite Hr. by destruct w.
Qed.

Lemma sound_failed w w' id :
  system_ok w →
  only_notes (w <| settlement ::= λ s, s <| InstructionStatuses ::= <[id := StatusFailed]> |> |>) w' →
  sound w w'.
Proof.
  intros Hok ->. apply sound_locks_only; try apply Hok.
  - by apply locks_only_same.
  - apply settle_ok_failed, Hok.
  - by apply receipts_kept_same.
Qed.

Lemma scheduled_system o id limit w w' :
  system_ok w → Portfolio.balances_fit (portfolio w') →
  execute_scheduled_instruction o id limit w = (Ok tt, w') → sound w w'.
Proof.
  intros Hok Hfit H. unfold execute_scheduled_instruction, valid_weight_meter, set_meter in H.
  ok_inv. match type of H with base_execute_scheduled_instruction _ ?w0 = _ =>
    assert (sound w w0) as Hs0 by (by apply sound_meter); revert H Hs0; generalize w0 end.
  intros w0 H Hs0. eapply sound_trans; [exact Hs0|]. destruct Hs0 as [Hok0 _].
  unfold base_execute_scheduled_instruction, deposit_event in H.
  apply SE_bind_Ok in H as (caller & w1 & [-> ->]%gets_Ok & H).
  apply SE_bind_Ok in H as (r & w2 & Hr & H).
  rewrite catch_Ok in Hr. destruct r as [[]|e]; ok_inv.
  - apply retryable_Ok in Hr as (w1 & _ & _ & Hs & _); done.
  - apply retryable_Err in Hr. apply (sound_failed _ _ id) in Hr; [|done].
    eapply sound_trans; [exact Hr|].
    match goal with |- sound ?w2 _ => apply (sound_agenda w2 (agenda w2)); apply Hr end.
Qed.

Lemma manual_system o id p f n off limit w w' :
  system_ok w → Portfolio.balances_fit (portfolio w') →
  execute_manual_instruction o id p f n off limit w = (Ok tt, w') → sound w w'.
Proof.
  intros Hok Hfit H.
  unfold execute_manual_instruction, base_execute_manual_instruction, valid_weight_meter,
    set_meter, deposit_event in H.
  ok_inv. destruct_product. ok_inv.
  match goal with H : execute_instruction_retryable _ _ ?w0 = _ |- _ =>
    assert (sound w w0) as Hs0 by (by apply sound_meter);
    apply retryable_Ok in H as (w1 & _ & _ & Hs & _); [|apply Hs0|done] end.
  eapply sound_trans; [exact Hs0|]. eapply sound_trans; [exact Hs|].
  match goal with |- sound ?w2 _ => apply (sound_agenda w2 (agenda w2)); apply Hs end.
Qed.

(** The premises on the sizes of the storage. *)
Record storage_fits (w : World) : Prop := {
  sf_store : Portfolio.store_fits (portfolio w);
  sf_affirmations : affirmations_fit (settlement w);
}.

(** Affirming adds entries and removes none. *)
Lemma lock_legs_settlement id ils w w' :
  for_each ils (lock_leg id) w = (Ok tt, w') →
  UserAffirmations (settlement w') = UserAffirmations (settlement w) ∧
  OffChainAffirmations (settlement w') = OffChainAffirmations (settlement w) ∧
  InstructionMediatorsAffirmations (settlement w') =
    InstructionMediatorsAffirmations (settlement w).
Proof.
  revert w. induction ils as [|[l leg] ils IH]; intros w H; simpl in H; ok_inv; [done|].
  apply IH in H as (-> & -> & ->).
  match goal with H : lock_leg _ _ w = _ |- _ =>
    unfold lock_leg, set_leg_status, on_settlement in H end. ok_inv.
  match goal with H : lock_via_leg leg w = (_, ?w1) |- _ =>
    assert (settlement w1 = settlement w) as ->; [|done]; rename H into Hl end.
  destruct leg; simpl in Hl; [|apply with_storage_transaction_Ok in Hl|by ok_inv].
  - by apply Portfolio.lock_tokens_Ok in Hl as [_ ->].
  - by apply lock_nfts_Ok in Hl as [-> _].
Qed.

Lemma affirm_fit o id portfolios count w w' :
  affirm_and_maybe_schedule_instruction o id portfolios count w = (Ok tt, w') →
  affirmations_fit (settlement w') → affirmations_fit (settlement w).
Proof.
  unfold affirm_and_maybe_schedule_instruction, base_affirm_instruction,
    unsafe_affirm_instruction, on_settlement. intros H. ok_inv. destruct_product. ok_inv.
  match goal with H : maybe_schedule_instruction _ _ _ _ = _ |- _ =>
    apply maybe_schedule_Ok in H as (a & e & ->) end.
  match goal with H : for_each _ (record_affirmation _ _) _ = _ |- _ =>
    apply record_affirmations_Ok in H as [e' ->] end.
  match goal with H : for_each _ (lock_leg _) _ = _ |- _ =>
    apply lock_legs_settlement in H as (E1 & E2 & E3) end.
  unfold affirmations_fit. simpl. rewrite E1, E2, E3.
  match goal with |- context [insert_all Affirmed ?f ?l (UserAffirmations _)] =>
    pose proof (size_insert_all Affirmed f l (UserAffirmations (settlement w))) end.
  lia.
Qed.

Lemma add_and_affirm_system o d v st trade value legs memo meds portfolios w id w1 w' :
  system_ok w → affirmations_fit (settlement w') →
  base_add_instruction d v st trade value legs memo meds w = (Ok id, w1) →
  affirm_and_maybe_schedule_instruction o id portfolios None w1 = (Ok tt, w') → sound w w'.
Proof.
  intros Hok Hfit Hadd Haf. pose proof (affirm_fit _ _ _ _ _ _ Haf Hfit) as Hfit1.
  apply add_system in Hadd; [|done|done].
  apply affirm_and_schedule_system in Haf as [Haf _]; [|apply Hadd]. by eapply sound_trans.
Qed.

Lemma settlement_system o c w w' :
  system_ok w → storage_fits w → storage_fits w' →
  Settlement.dispatch o c w = (Ok tt, w') → sound w w'.
Proof.
  intros Hok [_ Hf] [[Hb' _] Hf'] H.
  destruct (on_venues c) eqn:Hv; [by eapply venues_system|].
  destruct c; try done; simpl in H.
  - unfold add_instruction in H. ok_inv. by eapply add_system.
  - unfold add_and_affirm_instruction in H. ok_inv. by eapply add_and_affirm_system.
  - unfold add_instruction_with_mediators in H. ok_inv. by eapply add_system.
  - unfold add_and_affirm_with_mediators in H. ok_inv. by eapply add_and_affirm_system.
  - by apply affirm_and_schedule_system in H as [? _].
  - unfold affirm_with_receipts_and_maybe_schedule_instruction in H. ok_inv.
    match goal with H : base_affirm_with_receipts _ _ _ _ _ _ = _ |- _ =>
      apply receipts_system in H; [|done] end.
    match goal with H : maybe_schedule_instruction _ _ _ _ = _ |- _ =>
      apply maybe_schedule_system in H as [? _]; [by eapply sound_trans|] end.
    match goal with H : sound w _ |- _ => apply H end.
  - by eapply withdraw_system.
  - by apply reject_system in H as [? _].
  - by eapply manual_system.
  - by eapply scheduled_system.
  - by eapply mediator_affirm_system.
  - by eapply mediator_withdraw_system.
Qed.

(* ------------------------------------------------------------------ *)
(** ** The calls of the other pallets *)

(** A call that leaves settlement and the locks alone. *)
Lemma kept_elsewhere w w' :
  system_ok w → Ledger.ledger_ok w' ∧ Checkpoint.keeps_history w w' →
  settlement w' = settlement w →
  (∀ k, locked_units (portfolio w') k = locked_units (portfolio w) k) → kept w w'.
Proof.
  intros [_ Hs Hk] [Hl Hh] ES EK. split_and!; [|done|apply receipts_kept_same; by rewrite ES]. constructor; [done|by rewrite ES|].
  intros k. rewrite ES, EK. apply Hk.
Qed.

Lemma agents_system o c w w' :
  system_ok w → Agents.dispatch o c w = (Ok tt, w') → kept w w'.
Proof.
  intros Hok H. pose proof (Agents.agents_dispatch_frame o c w w' H) as [(_ & EP & _ & _ & ES & _) _].
  apply kept_elsewhere; [done| |done|by rewrite EP].
  eapply Ledger.agents_ledger; [apply Hok|done].
Qed.

Lemma checkpoint_system o c w w' :
  system_ok w → Checkpoint.dispatch o c w = (Ok tt, w') → kept w w'.
Proof.
  intros Hok H. pose proof (Checkpoint.dispatch_quiet o c w w' H) as (_ & _ & EP & _ & _ & ES).
  apply kept_elsewhere; [done| |done|by rewrite EP].
  eapply Ledger.checkpoint_ledger; [apply Hok|done].
Qed.

(** The fungible transfers, issues and redemptions keep the locks. *)
Lemma asset_moves_frame o c w w' :
  Asset.moves_balance c = true → Asset.dispatch o c w = (Ok tt, w') →
  settlement w' = settlement w ∧
  ∀ k, locked_units (portfolio w') k = locked_units (portfolio w) k.
Proof.
  intros Hm H. destruct c; try done; simpl in H.
  - unfold Asset.issue, set_meter in H. ok_inv.
    apply Asset.mint_Ok in H as (token & _ & _ & _ & _ & _ & _ & EP & Hu).
    split; [apply Hu|]. intros key. rewrite EP. by apply locked_units_ext.
  - unfold Asset.redeem, set_meter in H. ok_inv.
    apply Asset.base_redeem_Ok in H as (pid & token & _ & _ & _ & _ & _ & _ & _ & EP & Hu).
    split; [apply Hu|]. intros key. rewrite EP. by apply locked_units_ext.
  - unfold Asset.redeem_from_portfolio, set_meter in H. ok_inv.
    apply Asset.base_redeem_Ok in H as (pid & token & _ & _ & _ & _ & _ & _ & _ & EP & Hu).
    split; [apply Hu|]. intros key. rewrite EP. by apply locked_units_ext.
  - unfold Asset.controller_transfer, set_meter, deposit_event in H. ok_inv.
    match goal with H : Asset.unsafe_transfer _ _ _ _ _ _ _ _ = _ |- _ =>
      apply Asset.unsafe_transfer_Ok in H as (_ & _ & _ & _ & _ & _ & _ & EP & Hu) end.
    split; [apply Hu|]. intros key. simpl. rewrite EP. by apply locked_units_ext.
Qed.

Lemma asset_system o c w w' :
  system_ok w → Portfolio.balances_fit (portfolio w') →
  Asset.dispatch o c w = (Ok tt, w') → kept w w'.
Proof.
  intros Hok Hfit H. apply kept_elsewhere; [done|..].
  - eapply Ledger.asset_ledger; [apply Hok|done|done].
  - destruct (Asset.moves_balance c) eqn:Hm; [by eapply asset_moves_frame|].
    by destruct (Asset.dispatch_administrative _ _ _ _ Hm H).
  - destruct (Asset.moves_balance c) eqn:Hm; [by eapply asset_moves_frame|].
    destruct (Asset.dispatch_administrative _ _ _ _ Hm H) as [_ _ _ EP _ _ _ _].
    intros k. by rewrite EP.
Qed.

Lemma portfolio_system o c w w' :
  system_ok w → Portfolio.store_fits (portfolio w) → Portfolio.balances_fit (portfolio w') →
  Portfolio.dispatch o c w = (Ok tt, w') → kept w w'.
Proof.
  intros Hok Hf Hf' H.
  assert (Ledger.ledger_ok w' ∧ Checkpoint.keeps_history w w') as Hl
    by (eapply Ledger.portfolio_ledger; [apply Hok|done..]).
  assert ((∃ from to funds, c = Portfolio.MovePortfolioFunds from to funds) ∨
    ∀ from to funds, c ≠ Portfolio.MovePortfolioFunds from to funds)
    as [(from & to & funds & ->)|Hno] by (destruct c; solve [left; eauto | by right]).
  - apply Portfolio.move_portfolio_funds_Ok in H as (_ & _ & _ & _ & EP & _ & ES).
    apply kept_elsewhere; try done. intros k.
    destruct (Portfolio.put_funds_locks from to funds (portfolio w)) as (E1 & E2 & _).
    apply locked_units_ext; by rewrite EP.
  - destruct (Portfolio.dispatch_frame o c w w'
      (Portfolio.ok_balances _ (Ledger.ok_portfolio _ (sys_ledger _ Hok))) H Hno)
      as (_ & _ & _ & ES & _ & _ & EN & _ & EL).
    apply kept_elsewhere; try done. intros [[p t] [i|]]; simpl; [by rewrite EN|apply EL].
Qed.

Lemma nft_system o c w w' :
  system_ok w → Nft.dispatch o c w = (Ok tt, w') → kept w w'.
Proof.
  intros Hok H.
  assert (Ledger.ledger_ok w' ∧ Checkpoint.keeps_history w w') as Hl
    by (eapply Ledger.nft_ledger; [apply Hok|done]).
  assert (settlement w' = settlement w ∧
    PortfolioLockedAssets (portfolio w') = PortfolioLockedAssets (portfolio w) ∧
    PortfolioLockedNFT (portfolio w') = PortfolioLockedNFT (portfolio w)) as (ES & E1 & E2).
  { destruct c; simpl in H.
    - unfold Nft.create_nft_collection, on_nft, deposit_event in H. ok_inv.
      destruct_product. ok_inv. destruct_product. ok_inv.
      match goal with H : (if ?b then _ else _) w = _ |- _ => destruct b; [|by ok_inv] end.
      unfold Asset.create_asset in *. ok_inv.
      match goal with H : Asset.unsafe_create_asset _ _ _ _ _ _ _ _ _ = _ |- _ =>
        apply Asset.unsafe_create_asset_administrative in H as [_ _ _ EP _ _ ES _] end.
      by rewrite EP.
    - apply Nft.issue_nft_Ok in H as (c & pid & _ & _ & _ & EP & _ & _ & _ & _ & _ & Hu).
      split_and!; [apply Hu|by rewrite EP..].
    - apply Nft.redeem_nft_Ok in H as (c & pid & _ & _ & _ & _ & EP & _ & _ & _ & _ & _ & Hu).
      split_and!; [apply Hu|by rewrite EP..].
    - unfold Nft.controller_transfer, deposit_event in H. ok_inv.
      match goal with H : Nft.unverified_nfts_transfer ?f ?t _ _ = _ |- _ =>
        apply Nft.unverified_nfts_transfer_Ok in H as (EP & _ & Hu);
        destruct (Portfolio.put_nfts_frame f t (nfts_ticker nfts) (nfts_ids nfts) (portfolio w))
          as [m Hm] end.
      simpl in EP. rewrite Hm in EP. split_and!; [apply Hu|simpl; by rewrite EP..]. }
  apply kept_elsewhere; try done. intros k. by apply locked_units_ext.
Qed.

Lemma metadata_system o c w w' :
  system_ok w → Metadata.dispatch o c w = (Ok tt, w') → kept w w'.
Proof.
  intros Hok H%Metadata.metadata_administrative. apply kept_elsewhere; [done|..].
  - apply Ledger.administrative_ledger; [apply Hok|done].
  - by destruct H.
  - destruct H as [_ _ _ EP _ _ _ _]. intros k. by rewrite EP.
Qed.

(* ------------------------------------------------------------------ *)
(** ** The system as a transition system *)

Inductive call : Type :=
  | CallAgents (c : Agents.call)
  | CallPortfolio (c : Portfolio.call)
  | CallCheckpoint (c : Checkpoint.call)
  | CallAsset (c : Asset.call)
  | CallNft (c : Nft.call)
  | CallMetadata (c : Metadata.call)
  | CallSettlement (c : Settlement.call).

Definition dispatch (o : Origin) (c : call) : M unit :=
  match c with
  | CallAgents c => Agents.dispatch o c
  | CallPortfolio c => Portfolio.dispatch o c
  | CallCheckpoint c => Checkpoint.dispatch o c
  | CallAsset c => Asset.dispatch o c
  | CallNft c => Nft.dispatch o c
  | CallMetadata c => Metadata.dispatch o c
  | CallSettlement c => Settlement.dispatch o c
  end.

(** A step is a call that succeeds (an error undoes what the call wrote), or a
    step of the surroundings: a new block, the identity pallet, the agenda of
    the scheduler and the pallets that are not modelled write their own parts
    of the state only, and the clock does not run backwards. *)
Inductive step : World → World → Prop :=
  | step_call o c w w' :
      dispatch o c w = (Ok tt, w') → storage_fits w' → step w w'
  | step_surroundings w b n e m a i x :
      now w ≤ n →
      step w (w <| block_number := b |> <| now := n |> <| events := e |> <| meter := m |>
                <| agenda := a |> <| identity := i |> <| rest := x |>).

Lemma dispatch_system o c w w' :
  system_ok w → storage_fits w → storage_fits w' → dispatch o c w = (Ok tt, w') → kept w w'.
Proof.
  intros Hok Hf Hf' H. destruct c; simpl in H.
  - by eapply agents_system.
  - eapply portfolio_system; [done|apply Hf|apply Hf'|done].
  - by eapply checkpoint_system.
  - eapply asset_system; [done|apply Hf'|done].
  - by eapply nft_system.
  - by eapply metadata_system.
  - destruct (settlement_system o c w w' Hok Hf Hf' H) as (? & ? & _ & _ & ?). done.
Qed.

Lemma surroundings_system w b n e m a i x :
  system_ok w →
  kept w (w <| block_number := b |> <| now := n |> <| events := e |> <| meter := m |>
             <| agenda := a |> <| identity := i |> <| rest := x |>).
Proof.
  intros [[Ha Hat Hp Hc Hs Hn] Hse Hk]. split_and!; [|by apply Checkpoint.quiet_history|by apply receipts_kept_same].
  constructor; [|done|done]. constructor; try done.
  - by eapply Asset.supply_ok_ext.
  - by eapply Nft.nft_ok_frame.
Qed.

Lemma step_kept w w' :
  system_ok w → storage_fits w → step w w' → kept w w' ∧ storage_fits w'.
Proof.
  intros Hok Hf H. destruct H.
  - split; [by eapply dispatch_system|done].
  - split; [by apply surroundings_system|]. destruct Hf as [H1 H2]. by constructor.
Qed.

Lemma steps_kept w w' :
  system_ok w → storage_fits w → rtc step w w' → kept w w' ∧ storage_fits w'.
Proof.
  intros Hok Hf H. revert Hok Hf. induction H as [w|w1 w2 w3 H12 _ IH]; intros Hok Hf.
  - split; [split_and!; [done|done|by apply receipts_kept_same]|done].
  - apply step_kept in H12 as [Hs Hf2]; [|done|done].
    destruct (IH (proj1 Hs) Hf2) as [Hs' ?]. split; [by eapply kept_trans|done].
Qed.

(** The catalogue of documents and metadata. *)
Lemma dispatch_catalog o c w w' :
  system_ok w → storage_fits w → storage_fits w' → dispatch o c w = (Ok tt, w') →
  Metadata.catalog_same w w' ∨ (∃ c', c = CallNft c') ∨ (∃ c', c = CallMetadata c').
Proof.
  intros Hok Hf Hf' H. destruct c; simpl in H; eauto; left.
  - pose proof (Agents.agents_dispatch_frame o c w w' H) as [(EA & _ & _ & EN & _) _].
    apply Metadata.catalog_same_stores; congruence.
  - eapply Metadata.portfolio_catalog; [apply Hok|done].
  - pose proof (Checkpoint.dispatch_quiet o c w w' H) as (_ & EA & _ & _ & EN & _).
    apply Metadata.catalog_same_stores; congruence.
  - by eapply Metadata.asset_catalog.
  - by destruct (settlement_system o c w w' Hok Hf Hf' H) as (_ & _ & _ & ? & _).
Qed.

Lemma step_catalog_ok w w' :
  system_ok w → storage_fits w → step w w' → Metadata.catalog_ok w → Metadata.catalog_ok w'.
Proof.
  intros Hok Hf H Hcat. destruct H as [o c w w' H Hf'|].
  - destruct (dispatch_catalog o c w w' Hok Hf Hf' H) as [Hs|[[c' ->]|[c' ->]]].
    + by eapply Metadata.catalog_ok_same.
    + by eapply Metadata.nft_catalog_ok.
    + by eapply Metadata.dispatch_catalog_ok.
  - by apply (Metadata.catalog_ok_same w).
Qed.

Lemma step_locked w w' t k :
  system_ok w → storage_fits w → step w w' → Metadata.is_asset_metadata_locked t k w = true →
  AssetMetadataValues (asset w') !! (t, k) = AssetMetadataValues (asset w) !! (t, k) ∧
  AssetMetadataValueDetails (asset w') !! (t, k) = AssetMetadataValueDetails (asset w) !! (t, k).
Proof.
  intros Hok Hf H Hl. destruct H as [o c w w' H Hf'|]; [|done].
  destruct (dispatch_catalog o c w w' Hok Hf Hf' H) as [[E _]|[[c' ->]|[c' ->]]].
  - by injection E as _ _ -> -> _ _ _ _ _ _ _ _.
  - apply Metadata.nft_values in H. by injection H as _ _ -> -> _ _ _ _ _ _ _ _.
  - by eapply Metadata.dispatch_locked.
Qed.

Lemma steps_catalog_ok w w' :
  system_ok w → storage_fits w → Metadata.catalog_ok w → rtc step w w' → Metadata.catalog_ok w'.
Proof.
  intros Hok Hf Hc H. revert Hok Hf Hc.
  induction H as [w|w1 w2 w3 H12 _ IH]; intros Hok Hf Hc; [done|].
  destruct (step_kept _ _ Hok Hf H12) as [[Hok2 _] Hf2].
  apply IH; [done|done|by apply (step_catalog_ok w1)].
Qed.
End system.

(** The empty chain satisfies the invariant. *)
Lemma empty_ledger_ok keys : Ledger.ledger_ok (empty_world keys).
Proof.
  constructor; simpl.
  - constructor; simpl; try done.
    + intros t d. rewrite lookup_empty. split; [set_solver|by intros []].
    + intros t id. rewrite lookup_empty, getd_empty. split; [by intros []|lia].
  - by intros t [d [? Hd]].
  - constructor; [constructor; try done..|done]; intros; simpl; rewrite ?getd_empty; try done.
    match goal with H : is_Some _ |- _ => by destruct H end.
  - constructor; intros; simpl in *; rewrite ?getd_empty in *; try done.
    + match goal with H : _ ∈ [] |- _ => by apply elem_of_nil in H end.
    + rewrite lookup_empty. split; [by intros []|by intros ?%elem_of_nil].
  - constructor; intros; try done.
  - constructor; try (by intros ? ? []); try done.
    intros t i p. simpl. rewrite !lookup_empty. split; [done|by intros []].
Qed.

Lemma empty_system_ok keys :
  system_ok (RS := nothing_reserved) (empty_world keys) ∧ storage_fits (empty_world keys).
Proof.
  split.
  - constructor; [apply empty_ledger_ok| |].
    + constructor; simpl; try done; try (by intros ? ? []); split; by intros ? ? [].
    + intros k. unfold pending_units, reserved, nothing_reserved. simpl. rewrite msum_empty. lia.
  - constructor; [|done]. split; [done|]. intros d. simpl. by rewrite getd_empty.
Qed.
End System.
