(* ===== verification/Clock.v ===== *)
(** What no call of the modelled pallets does, not even one that fails: it does
    not set the clock, it does not touch the reference count of a checkpoint
    schedule that something refers to, and it makes no schedule under an id that
    was not handed out. *)

From stdpp Require Import base numbers list gmap sets strings.
From S2P Require Import Prelude Subset AssetIdentifier Types SettlementTypes Schedules State.
From S2P Require Import Identity Agents Portfolio Checkpoint Asset Nft Metadata Settlement.
From S2P Require Import SettlementInv Execution System ChainState Fundraising.

Local Open Scope N_scope.

Module Clock.

(** The references to a schedule, and the last schedule id of a ticker. *)
Definition schedule_refs (w : World) (t : Ticker) (id : ScheduleId) : N :=
  getd 0 (ScheduleRefCount (checkpoint w)) (t, id).
Definition last_schedule (w : World) (t : Ticker) : ScheduleId :=
  getd 0 (ScheduleIdSequence (checkpoint w)) t.

Definition has_schedule (w : World) (t : Ticker) (id : ScheduleId) : Prop :=
  is_Some (ScheduledCheckpoints (checkpoint w) !! (t, id)).

Record steady (w w' : World) : Prop := {
  st_now : now w' = now w;
  st_last : ∀ t, last_schedule w t ≤ last_schedule w' t;
  st_refs : ∀ t id, id ≤ last_schedule w t → 0 < schedule_refs w t id →
              schedule_refs w' t id = schedule_refs w t id;
  st_schedules : ∀ t id, has_schedule w' t id → has_schedule w t id ∨ id ≤ last_schedule w' t;
}.
#[global] Instance steady_preorder : PreOrder steady.
Proof.
  split; [constructor; auto; done|]. intros w1 w2 w3 [N1 L1 R1 S1] [N2 L2 R2 S2]. constructor.
  - by rewrite N2.
  - intros t. specialize (L1 t). specialize (L2 t). lia.
  - intros t id Hid Hr. specialize (R1 t id Hid Hr). specialize (L1 t).
    rewrite <- R1. apply R2; [lia|by rewrite R1].
  - intros t id [H|H]%S2; [|by right]. apply S1 in H as [H|H]; [by left|]. right.
    specialize (L2 t). lia.
Qed.

Lemma steady_same w w' :
  now w' = now w → ScheduleRefCount (checkpoint w') = ScheduleRefCount (checkpoint w) →
  ScheduleIdSequence (checkpoint w') = ScheduleIdSequence (checkpoint w) →
  (∀ k, is_Some (ScheduledCheckpoints (checkpoint w') !! k) →
        is_Some (ScheduledCheckpoints (checkpoint w) !! k)) → steady w w'.
Proof.
  intros HN HR HS HC. constructor; [done|..]; intros; unfold last_schedule, schedule_refs in *;
    rewrite ?HS, ?HR; [done..|]. left. by apply HC.
Qed.

(** A computation all of whose outcomes are steady. *)
Definition keeps {A : Type} (m : M A) : Prop := ∀ w, steady w (m w).2.

Lemma keeps_bind {A B} (m : M A) (f : A → M B) : keeps m → (∀ a, keeps (f a)) → keeps (m ≫= f).
Proof.
  intros Hm Hf w. unfold mbind, SE_bind. specialize (Hm w).
  destruct (m w) as [[a|e] w1]; simpl in *; [by etrans; [|apply Hf]|done].
Qed.
Lemma keeps_ret {A} (a : A) : keeps (mret a).
Proof. by intros w. Qed.
Lemma keeps_check {A} (f : Chk A) : keeps (check f).
Proof. by intros w. Qed.
Lemma keeps_gets {A} (f : World → A) : keeps (gets f).
Proof. by intros w. Qed.
Lemma keeps_throw {A} e : keeps (throw e : M A).
Proof. by intros w. Qed.
Lemma keeps_modify (f : World → World) : (∀ w, steady w (f w)) → keeps (modify f).
Proof. intros H w. apply H. Qed.
Lemma keeps_external {A} (f : Ext A) : keeps (external f).
Proof. intros w. unfold external. destruct (f w) as [r [x m]]. by apply steady_same. Qed.
Lemma keeps_elsewhere {A} (f : Elsewhere A) : keeps (call_elsewhere f).
Proof. intros w. unfold call_elsewhere. destruct (f w) as [r x]. by apply steady_same. Qed.
Lemma keeps_transaction {A} (m : M A) : keeps m → keeps (with_transaction m).
Proof.
  intros Hm w. unfold with_transaction. specialize (Hm w). by destruct (m w) as [[a|e] w1].
Qed.
Lemma keeps_storage_transaction {A} (m : M A) : keeps m → keeps (with_storage_transaction m).
Proof.
  intros Hm w. unfold with_storage_transaction. specialize (Hm w).
  destruct (m w) as [[a|e] w1]; [done|by apply steady_same].
Qed.
Lemma keeps_leg_transaction (m : M (option LegId)) :
  keeps m → keeps (Settlement.with_leg_transaction m).
Proof.
  intros Hm w. unfold Settlement.with_leg_transaction. specialize (Hm w).
  by destruct (m w) as [[[]|] w1]; simpl; [apply steady_same|done|apply steady_same].
Qed.
Lemma keeps_catch {A} (m : M A) : keeps m → keeps (catch m).
Proof. intros Hm w. unfold catch. specialize (Hm w). by destruct (m w) as [r w1]. Qed.
Lemma keeps_for_each {X} (l : list X) (f : X → M unit) :
  (∀ x, keeps (f x)) → keeps (for_each l f).
Proof.
  intros Hf. induction l as [|x l IH]; [apply keeps_ret|]. simpl. by apply keeps_bind.
Qed.

Create HintDb clock.
#[export] Hint Resolve keeps_ret keeps_check keeps_gets keeps_throw keeps_external
  keeps_elsewhere : clock.

(** Goes through a computation, opening the definitions it meets. *)
Ltac head_of t := match t with ?f _ => head_of f | _ => t end.
Ltac clock :=
  intros; cbv beta zeta;
  lazymatch goal with
  | |- keeps (_ ≫= _) => apply keeps_bind; [clock|intros; clock]
  | |- keeps (modify _) => apply keeps_modify; intros; by apply steady_same
  | |- keeps (with_transaction _) => apply keeps_transaction; clock
  | |- keeps (with_storage_transaction _) => apply keeps_storage_transaction; clock
  | |- keeps (Settlement.with_leg_transaction _) => apply keeps_leg_transaction; clock
  | |- keeps (catch _) => apply keeps_catch; clock
  | |- keeps (for_each _ _) => apply keeps_for_each; intros; clock
  | |- keeps (match ?x with _ => _ end) => destruct x; clock
  | |- keeps ?m => first
      [ solve [eauto 1 with clock nocore]
      | let h := head_of m in progress unfold h; clock ]
  end.

Section clock.
Context {RT : Runtime} {EX : Externals} {SC : SettlementConfig}.

(** A check that fails changes nothing; what it tells is known from then on. *)
Lemma steady_after_check {A B} (f : Chk A) (k : A → M B) w :
  (∀ a, f w = Ok a → steady w (k a w).2) → steady w ((check f ≫= k) w).2.
Proof.
  intros H. unfold mbind, SE_bind, check. destruct (f w) as [a|e] eqn:E; [by apply H|done].
Qed.
Lemma steady_after_gets {A B} (f : World → A) (k : A → M B) w :
  steady w (k (f w) w).2 → steady w ((gets f ≫= k) w).2.
Proof. done. Qed.

(** A new schedule has a new id. *)
Lemma keeps_create_schedule caller t s n : keeps (Checkpoint.base_create_schedule caller t s n).
Proof.
  intros w. unfold Checkpoint.base_create_schedule.
  repeat first [apply steady_after_check; intros ? ?|apply steady_after_gets]. destruct_product.
  match goal with H : Base.try_next_pre _ _ = Ok _ |- _ =>
    apply Base.try_next_pre_Ok in H as (-> & _) end.
  unfold mbind at 1, SE_bind at 1, external.
  destruct (charge_fees _ w) as [[[]|e] [x m]]; simpl; [|by apply steady_same].
  constructor; simpl; [done|..].
  - intros t'. unfold last_schedule. simpl. rewrite getd_insert. destruct (decide (t = t')) as [->|]; lia.
  - intros t' id Hid _. unfold last_schedule, schedule_refs in *. simpl.
    rewrite getd_insert, decide_False; [done|]. intros E. injection E as <- <-. lia.
  - intros t' id. unfold has_schedule, last_schedule. simpl. rewrite lookup_insert.
    destruct (decide (_ = (t', id))) as [E|]; [|by left].
    injection E as <- <-. right. by rewrite getd_insert_eq.
Qed.

(** Only a schedule without references is removed. *)
Lemma keeps_remove_schedule caller t id : keeps (Checkpoint.base_remove_schedule caller t id).
Proof.
  intros w. unfold Checkpoint.base_remove_schedule.
  apply steady_after_check. intros s _. apply steady_after_check. intros [] H%ensure_Ok%bool_decide_eq_true.
  constructor; simpl; [done|done|..].
  - intros t' id' _ Hr. unfold schedule_refs in *. simpl. unfold getd in *.
    rewrite lookup_delete_ne; [done|]. intros [= <- <-]. rewrite H in Hr. lia.
  - intros t' id' [x Hx]. simpl in Hx. apply lookup_delete_Some in Hx as [_ Hx]. left. by exists x.
Qed.
#[local] Hint Resolve keeps_create_schedule keeps_remove_schedule : clock.

Lemma keeps_create_points t sid cp ats : keeps (Checkpoint.create_points t sid cp ats).
Proof. revert cp. induction ats as [|x l IH]; intros cp; simpl; clock. Qed.
#[local] Hint Resolve keeps_create_points : clock.
Lemma keeps_advance_schedule t at_now cached cp sid :
  keeps (Checkpoint.advance_schedule t at_now cached cp sid).
Proof.
  intros w. unfold Checkpoint.advance_schedule. apply steady_after_gets.
  destruct (ScheduledCheckpoints (checkpoint w) !! (t, sid)) as [schedule|] eqn:Hs; [|done].
  destruct (remove_expired schedule at_now) as [checkpoints schedule'].
  set (k := λ cached : NextCheckpoints, _). assert (∀ c, keeps (k c)) as Hk.
  { intros c. unfold k. apply keeps_bind; [apply keeps_create_points|clock]. }
  destruct (schedule_next schedule') as [next|]; simpl.
  - etrans; [|apply Hk]. apply steady_same; [done..|]. intros k'. simpl. rewrite lookup_insert.
    case_decide as E; [by rewrite <- E, Hs|done].
  - etrans; [|apply Hk]. apply steady_same; [done..|]. intros k' [x Hx]. simpl in Hx.
    apply lookup_delete_Some in Hx as [_ Hx]. by exists x.
Qed.
#[local] Hint Resolve keeps_advance_schedule : clock.
Lemma keeps_advance_all t at_now cached cp sids :
  keeps (Checkpoint.advance_all t at_now cached cp sids).
Proof. revert cached cp. induction sids as [|x l IH]; intros cached cp; simpl; clock. Qed.
#[local] Hint Resolve keeps_advance_all : clock.
Lemma record_balances_refs t cp updates s :
  let s' := foldl (λ s db, Checkpoint.record_balance t cp db s) s updates in
  ScheduleRefCount s' = ScheduleRefCount s ∧ ScheduleIdSequence s' = ScheduleIdSequence s ∧
  ScheduledCheckpoints s' = ScheduledCheckpoints s.
Proof.
  revert s. induction updates as [|db l IH]; intros s; [done|]. simpl.
  destruct (IH (Checkpoint.record_balance t cp db s)) as (-> & -> & ->).
  unfold Checkpoint.record_balance. destruct db as [d b]. by destruct (has_key _ _).
Qed.
Lemma keeps_update_balances t updates : keeps (Checkpoint.update_balances t updates).
Proof.
  unfold Checkpoint.update_balances. apply keeps_bind; [clock|]. intros cp.
  destruct (decide _); [clock|]. apply keeps_modify. intros w.
  destruct (record_balances_refs t cp updates (checkpoint w)) as (E1 & E2 & E3).
  apply steady_same; [done..|]. simpl. by rewrite E3.
Qed.
#[local] Hint Resolve keeps_update_balances : clock.
Lemma keeps_transfer_legs id memo caller legs :
  keeps (Settlement.transfer_legs id memo caller legs).
Proof. induction legs as [|[l leg] legs IH]; simpl; clock. Qed.
#[local] Hint Resolve keeps_transfer_legs : clock.

Lemma agents_keeps o c : keeps (Agents.dispatch o c).
Proof. destruct c; clock. Qed.
Lemma portfolio_keeps o c : keeps (Portfolio.dispatch o c).
Proof. destruct c; clock. Qed.
Lemma checkpoint_keeps o c : keeps (Checkpoint.dispatch o c).
Proof. destruct c; clock. Qed.
Lemma asset_keeps o c : keeps (Asset.dispatch o c).
Proof. destruct c; clock. Qed.
Lemma nft_keeps o c : keeps (Nft.dispatch o c).
Proof. destruct c; clock. Qed.
Lemma metadata_keeps o c : keeps (Metadata.dispatch o c).
Proof. destruct c; clock. Qed.
Lemma settlement_keeps o c : keeps (Settlement.dispatch o c).
Proof. destruct c; clock. Qed.

Lemma dispatch_keeps o c : keeps (System.dispatch o c).
Proof.
  destruct c; [apply agents_keeps|apply portfolio_keeps|apply checkpoint_keeps|apply asset_keeps
    |apply nft_keeps|apply metadata_keeps|apply settlement_keeps].
Qed.

Lemma base_transfer_keeps from to t value iid memo caller :
  keeps (Asset.base_transfer from to t value iid memo caller).
Proof. clock. Qed.

(* ------------------------------------------------------------------ *)
(** ** The fundraisers *)

(** Steady, and nothing happens to the corporate actions. *)
Definition chain_keeps {A : Type} (m : C A) : Prop := ∀ c,
  steady (world c) (world (m c).2) ∧ corporate (m c).2 = corporate c.

Lemma chain_keeps_bind {A B} (m : C A) (f : A → C B) :
  chain_keeps m → (∀ a, chain_keeps (f a)) → chain_keeps (m ≫= f).
Proof.
  intros Hm Hf c. unfold mbind, SE_bind. destruct (Hm c) as [Hs E].
  destruct (m c) as [[a|e] c1]; simpl in *; [|done]. destruct (Hf a c1) as [Hs' E'].
  split; [by etrans|congruence].
Qed.
Lemma chain_keeps_lift {A} (m : M A) : keeps m → chain_keeps (lift m).
Proof. intros Hm c. unfold lift. specialize (Hm (world c)). by destruct (m (world c)). Qed.
Lemma chain_keeps_check {A} (f : Chain → result DispatchError A) : chain_keeps (check f).
Proof. by intros c. Qed.
Lemma chain_keeps_gets {A} (f : Chain → A) : chain_keeps (gets f).
Proof. by intros c. Qed.
Lemma chain_keeps_sto f : chain_keeps (on_sto f).
Proof. by intros c. Qed.

Lemma fundraising_keeps o c : chain_keeps (Fundraising.dispatch o c).
Proof.
  destruct c; simpl;
    lazymatch goal with |- chain_keeps ?m => let h := head_of m in unfold h end;
    repeat first
      [ apply chain_keeps_bind; [|intros]
      | apply chain_keeps_check | apply chain_keeps_gets | apply chain_keeps_sto
      | apply chain_keeps_lift; clock
      | progress cbv beta zeta
      | lazymatch goal with |- chain_keeps (match ?x with _ => _ end) => destruct x end ].
Qed.
End clock.
End Clock.
