(* ===== verification/BallotInv.v ===== *)
(** The tally of a ballot: the results are the sums of the powers that the
    voters gave to the choices. *)

From stdpp Require Import base numbers list gmap.
From S2P Require Import Prelude Types CorporateTypes State ChainState Identity Fundraising Corporate.

Local Open Scope N_scope.

Module BallotInv.
Import Balloting.

(** The power a vote gives to a choice, and what all the voters give it. *)
Definition power_at (i : nat) (votes : list BallotVote) : Balance :=
  match votes !! i with Some v => power v | None => 0 end.
Definition given (s : CorporateStore) (id : CAId) (i : nat) : N :=
  msum (λ k votes, if decide (k.1 = id) then power_at i votes else 0) (Votes s).

Definition B : N := u128_max + 1.

(* ------------------------------------------------------------------ *)
(** ** Lists of powers *)

Lemma length_zip_power f l votes : length (zip_power f l votes) = length l.
Proof. revert votes. induction l as [|x l IH]; intros [|v votes]; simpl; auto. Qed.

Lemma zip_power_lookup f l votes i x :
  zip_power f l votes !! i = Some x →
  ∃ y, l !! i = Some y ∧ x = match votes !! i with Some v => f y (power v) | None => y end.
Proof.
  revert votes i. induction l as [|y l IH]; intros votes i H; [by destruct votes|].
  destruct votes as [|v votes]; simpl in H; [by exists x|].
  destruct i as [|i]; simpl in H |- *; [naive_solver|by apply IH].
Qed.

(** Taking away a part of a sum and adding another, with results kept modulo. *)
Lemma wrapping_sub_mod n o : o ≤ n → o < B → wrapping_sub u128_max (n mod B) o = (n - o) mod B.
Proof.
  intros Hle Ho. unfold wrapping_sub. fold B. assert (B ≠ 0) as HB by done.
  pose proof (N.mod_lt n B HB). pose proof (N.div_mod n B HB) as E.
  set (r := n mod B) in *. set (q := n / B) in *.
  destruct (decide (o ≤ r)) as [Hr|Hr].
  - replace (r + B - o) with ((r - o) + 1 * B) by lia.
    replace (n - o) with ((r - o) + q * B) by lia. by rewrite !N.Div0.mod_add.
  - assert (q ≠ 0) as Hq by (intros Hq; rewrite Hq in E; lia).
    replace (n - o) with ((r + B - o) + (q - 1) * B); [by rewrite N.Div0.mod_add|].
    rewrite N.mul_sub_distr_r. assert (1 * B ≤ q * B) by (apply N.mul_le_mono_r; lia). lia.
Qed.

Lemma wrapping_add_mod n a : wrapping_add u128_max (n mod B) a = (n + a) mod B.
Proof. unfold wrapping_add. fold B. by rewrite N.Div0.add_mod_idemp_l. Qed.

(* ------------------------------------------------------------------ *)
(** ** A vote *)

Lemma total_choices_eq counts :
  Fundraising.sum counts ≤ usize_max → total_choices counts = Fundraising.sum counts.
Proof.
  unfold total_choices. rewrite <- (N.add_0_l (Fundraising.sum counts)). generalize 0 as a.
  induction counts as [|n l IH]; intros a Ha; [by rewrite N.add_0_r|].
  change (Fundraising.sum (n :: l)) with (n + Fundraising.sum l) in *. cbn [foldl].
  rewrite wrapping_add_small by lia. rewrite IH by lia. lia.
Qed.

(** The cache of the numbers of choices. *)
Lemma derive_Ok total ms counts :
  derive_motion_num_choices total ms = Ok counts →
  counts = (λ m, Base.len (choices m)) <$> ms ∧
  (total ≤ usize_max → total + Fundraising.sum counts ≤ usize_max).
Proof.
  revert total counts. induction ms as [|m ms IH]; intros total counts H;
    cbn [derive_motion_num_choices] in H; cbv zeta in H.
  { ok_inv. split; [done|]. intros. simpl. lia. }
  ok_inv. match goal with H : checked_add _ _ _ = Some _ |- _ => apply checked_add_Some in H as [-> Hle] end.
  match goal with H : derive_motion_num_choices _ _ = _ |- _ => apply IH in H as [-> Hs] end.
  split; [done|]. intros _. specialize (Hs Hle). lia.
Qed.

(** The slices of a list of votes of the right length are all of it. *)
Lemma split_motions_concat counts votes :
  Base.len votes = Fundraising.sum counts → concat (split_motions counts votes) = votes.
Proof.
  unfold Base.len. revert votes.
  induction counts as [|n counts IH]; intros votes H; simpl in *.
  { by destruct votes. }
  rewrite IH; [apply take_drop|]. rewrite length_drop. lia.
Qed.

Lemma checked_sum_bound a l n x : Fundraising.checked_sum a l = Some n → x ∈ l → x ≤ u128_max.
Proof.
  revert a. induction l as [|y l IH]; intros a H Hx; [by apply elem_of_nil in Hx|]. simpl in H.
  destruct (checked_add u128_max a y) as [b|] eqn:Hb; [|done].
  apply checked_add_Some in Hb as [-> ?]. apply elem_of_cons in Hx as [->|Hx]; [lia|by eapply IH].
Qed.

Lemma within_power_Ok available votes :
  within_power available votes = true →
  Fundraising.sum (power <$> votes) ≤ available ∧ Forall (λ v, power v ≤ u128_max) votes.
Proof.
  unfold within_power. destruct (Fundraising.checked_sum _ _) as [n|] eqn:Hn; [|done].
  intros H%bool_decide_eq_true. split.
  - apply Fundraising.checked_sum_Some in Hn as [-> _]. by rewrite N.add_0_l in H.
  - apply Forall_forall. intros v Hv. eapply checked_sum_bound; [done|].
    apply list_elem_of_fmap. eauto.
Qed.

(* ------------------------------------------------------------------ *)
(** ** The invariant *)

(** The ballot has started, and it has [k] choices. *)
Definition voting (n : Moment) (s : CorporateStore) (id : CAId) (k : nat) : Prop :=
  ∃ range counts, TimeRanges s !! id = Some range ∧ range_start range ≤ n ∧
    MotionNumChoices s !! id = Some counts ∧ N.of_nat k = total_choices counts.

Record votes_ok (n : Moment) (s : CorporateStore) : Prop := {
  vo_votes : ∀ id h votes, Votes s !! (id, h) = Some votes →
    voting n s id (length votes) ∧ Forall (λ v, power v ≤ u128_max) votes;
  vo_results : ∀ id r, Results s !! id = Some r →
    voting n s id (length r) ∧ ∀ i x, r !! i = Some x → x = given s id i mod B;
  vo_none : ∀ id h, Results s !! id = None → Votes s !! (id, h) = None;
}.

(** Changes of the other items, and of ballots that have not started. *)
Lemma votes_ok_frame n n' s s' :
  votes_ok n s → Votes s' = Votes s → Results s' = Results s →
  (∀ id k, voting n s id k → voting n' s' id k) → votes_ok n' s'.
Proof.
  intros [Hv Hr Hn] EV ER Hvo.
  assert (∀ id i, given s' id i = given s id i) as Hg by (intros; unfold given; by rewrite EV).
  constructor.
  - intros id h votes Hvs. rewrite EV in Hvs. apply Hv in Hvs as [? ?]. auto.
  - intros id r Hrs. rewrite ER in Hrs. apply Hr in Hrs as [? Hx]. split; [auto|].
    intros i x Hi. rewrite Hg. auto.
  - intros id h Hno. rewrite EV. rewrite ER in Hno. auto.
Qed.

(** The voting goes on where the ranges and the numbers of choices stay. *)
Lemma voting_same n n' s s' id k :
  n ≤ n' → TimeRanges s' !! id = TimeRanges s !! id →
  MotionNumChoices s' !! id = MotionNumChoices s !! id → voting n s id k → voting n' s' id k.
Proof.
  intros Hn ET EM (range & counts & Ht & Hs & Hc & Hk). exists range, counts.
  rewrite ET, EM. split_and!; [done|lia|done|done].
Qed.

Lemma voting_started n s id k range :
  voting n s id k → TimeRanges s !! id = Some range → range_start range ≤ n.
Proof. intros (r & counts & Ht & Hs & _) Hr. rewrite Ht in Hr. by simplify_eq. Qed.

Lemma voting_length n s id k k' : voting n s id k → voting n s id k' → k = k'.
Proof.
  intros (r & c & _ & _ & Hc & Hk) (r' & c' & _ & _ & Hc' & Hk'). rewrite Hc in Hc'.
  simplify_eq. rewrite <- Hk in Hk'. lia.
Qed.

Lemma power_at_bound i votes : Forall (λ v, power v ≤ u128_max) votes → power_at i votes < B.
Proof.
  intros H. unfold power_at. destruct (votes !! i) as [v|] eqn:Hv; [|done].
  rewrite Forall_lookup in H. specialize (H i v Hv). unfold B. lia.
Qed.

(** The sums after a voter's list changes. *)
Lemma given_vote s s' id d votes j i :
  Votes s' = <[(id, d) := votes]> (Votes s) →
  given s' j i + (if decide (id = j) then power_at i (getd [] (Votes s) (id, d)) else 0) =
  given s j i + (if decide (id = j) then power_at i votes else 0).
Proof.
  intros E. unfold given. rewrite E.
  pose proof (msum_insert [] (λ k votes, if decide (k.1 = j) then power_at i votes else 0)
    (Votes s) (id, d) votes) as H. apply H. simpl. by case_decide.
Qed.

Lemma given_ge s id d i : power_at i (getd [] (Votes s) (id, d)) ≤ given s id i.
Proof.
  pose proof (msum_getd_le [] (λ k votes, if decide (k.1 = id) then power_at i votes else 0)
    (Votes s) (id, d)) as H. simpl in H. rewrite !decide_True in H by done. by apply H.
Qed.

(** A result after the old votes are taken off and the new ones added. *)
Lemma tally_lookup n l old new i x y :
  tally (Some l) old new !! i = Some x → l !! i = Some y → y = n mod B →
  length l = length new → (length old = length new ∨ old = []) →
  power_at i old ≤ n → power_at i old < B →
  x = (n - power_at i old + power_at i new) mod B.
Proof.
  intros Hx Hy -> Hl Ho Hn HB. unfold tally in Hx.
  apply zip_power_lookup in Hx as (z & Hz & ->). apply zip_power_lookup in Hz as (y & Hy' & ->).
  rewrite Hy in Hy'. injection Hy' as <-.
  assert (is_Some (new !! i)) as [v Hv].
  { apply lookup_lt_is_Some. rewrite <- Hl. by eapply lookup_lt_Some. }
  unfold power_at in *. rewrite Hv. destruct Ho as [Ho| ->].
  - assert (is_Some (old !! i)) as [v' Hv'].
    { apply lookup_lt_is_Some. rewrite Ho. by eapply lookup_lt_Some. }
    rewrite Hv' in *. by rewrite wrapping_sub_mod, wrapping_add_mod.
  - simpl. rewrite N.sub_0_r. by rewrite wrapping_add_mod.
Qed.

Lemma length_tally l old new :
  match l with Some l => length l = length new | None => True end →
  length (tally l old new) = length new.
Proof. destruct l; simpl; [by rewrite !length_zip_power|by rewrite length_fmap]. Qed.

(** What is known of the results and of a voter's last list. *)
Lemma results_length n s id k :
  votes_ok n s → voting n s id k →
  match Results s !! id with Some l => length l = k | None => True end.
Proof.
  intros [_ Hr _] Hvo. destruct (Results s !! id) as [l|] eqn:Hl; [|done].
  apply Hr in Hl as [Hl _]. by eapply voting_length.
Qed.

Lemma last_votes n s id d k :
  votes_ok n s → voting n s id k →
  let old := getd [] (Votes s) (id, d) in
  Forall (λ v, power v ≤ u128_max) old ∧ (length old = k ∨ old = []).
Proof.
  intros [Hv _ _] Hvo. unfold getd. destruct (Votes s !! (id, d)) as [old|] eqn:Hold; simpl; [|by auto].
  apply Hv in Hold as [Ho ?]. split; [done|]. left. by eapply voting_length.
Qed.

(** The results after a vote. *)
Lemma vote_result n s s' id d votes i x :
  votes_ok n s → voting n s id (length votes) → Forall (λ v, power v ≤ u128_max) votes →
  Votes s' = <[(id, d) := votes]> (Votes s) →
  tally (Results s !! id) (getd [] (Votes s) (id, d)) votes !! i = Some x →
  x = given s' id i mod B.
Proof.
  intros Hok Hvo Hp EV Hx. pose proof (results_length n s id _ Hok Hvo) as Hlen.
  pose proof (given_vote s s' id d votes id i EV) as Hg. rewrite !decide_True in Hg by done.
  destruct (last_votes n s id d _ Hok Hvo) as [Hb Ho]. destruct Hok as [_ Hr Hn].
  set (old := getd [] (Votes s) (id, d)) in *. destruct (Results s !! id) as [l|] eqn:Hl.
  - assert (is_Some (l !! i)) as [y Hy].
    { apply lookup_lt_is_Some. rewrite Hlen, <- (length_tally (Some l) old votes Hlen).
      by eapply lookup_lt_Some. }
    pose proof (given_ge s id d i). apply Hr in Hl as [_ Hl].
    rewrite (tally_lookup (given s id i) l old votes i x y); try done;
      [f_equal; fold old in H; lia|by apply Hl|by apply power_at_bound].
  - assert (old = []) as E by (unfold old, getd; by rewrite (Hn id d Hl)).
    assert (given s id i = 0) as E0.
    { apply msum_zero. intros [j h] vs Hvs. simpl. case_decide as Hj; [|done]. subst j.
      by rewrite (Hn id h Hl) in Hvs. }
    rewrite E, E0 in Hg. change (power_at i []) with 0 in Hg. assert (given s' id i = power_at i votes) as -> by lia.
    simpl in Hx. rewrite list_lookup_fmap in Hx. rewrite N.mod_small by (by apply power_at_bound).
    unfold power_at. destruct (votes !! i); [|done]. by injection Hx as <-.
Qed.

(** A vote keeps the invariant. *)
Lemma votes_ok_vote n s s' id d votes :
  votes_ok n s → voting n s id (length votes) → Forall (λ v, power v ≤ u128_max) votes →
  Votes s' = <[(id, d) := votes]> (Votes s) →
  Results s' = <[id := tally (Results s !! id) (getd [] (Votes s) (id, d)) votes]> (Results s) →
  TimeRanges s' = TimeRanges s → MotionNumChoices s' = MotionNumChoices s → votes_ok n s'.
Proof.
  intros Hok Hvo Hp EV ER ET EM. destruct (Hok) as [Hv Hr Hn].
  assert (∀ j k, voting n s j k → voting n s' j k) as Hvoting
    by (intros j k; by apply voting_same; rewrite ?ET, ?EM).
  constructor.
  - intros j h vs. rewrite EV, lookup_insert_Some. intros [[[= <- <-] <-]|[_ Hvs]]; [auto|].
    apply Hv in Hvs as [? ?]. auto.
  - intros j r. rewrite ER, lookup_insert_Some. intros [[<- <-]|[Hne Hrs]].
    + split; [rewrite length_tally by (by eapply results_length); auto|].
      intros i x. by apply (vote_result n s s' id d votes).
    + apply Hr in Hrs as [Hvj Hx]. split; [auto|]. intros i x Hi. rewrite (Hx i x Hi).
      pose proof (given_vote s s' id d votes j i EV) as Hg. rewrite !decide_False in Hg by done.
      f_equal. lia.
  - intros j h. rewrite ER, EV, lookup_insert_None. intros [Hno Hne].
    rewrite lookup_insert_ne by congruence. auto.
Qed.
End BallotInv.
