(* ===== verification/CorporateInv.v ===== *)
(** The invariant of the corporate actions: sorted lists of targets and taxes,
    record dates whose checkpoint or schedule exists, distributions and ballots
    that belong to an action of the right kind, and what time has to do with
    them. *)

From stdpp Require Import base numbers list gmap sets strings sorting.
From S2P Require Import Prelude Subset AssetIdentifier Types SettlementTypes Schedules CorporateTypes.
From S2P Require Import State ChainState Identity Agents Portfolio Checkpoint Asset Sorting.
From S2P Require Import Nft Metadata Ledger Settlement SettlementInv Execution System Fundraising.
From S2P Require Import Corporate Clock BallotInv.

Local Open Scope N_scope.

Module CorporateInv.
Import Sorting Corporate Distributing Balloting Clock BallotInv.

Notation ascending := Checkpoint.ascending (only parsing).

(* ------------------------------------------------------------------ *)
(** ** Targets and taxes *)

(** The searches find what a scan of the lists would. *)
Lemma targets_spec t d :
  ascending (identities t) →
  targets t d = true ↔ match treatment t with
                       | Include => d ∈ identities t
                       | Exclude => d ∉ identities t
                       end.
Proof.
  intros Hasc. unfold targets. destruct (decide (d ∈ identities t)) as [Hin|Hin].
  - destruct (search_hit _ _ Hasc Hin) as (i & -> & _). destruct (treatment t); simpl; naive_solver.
  - destruct (search_miss _ _ Hasc Hin) as (i & -> & _). destruct (treatment t); simpl; naive_solver.
Qed.

Lemma dedup_targets t d :
  ascending (identities (dedup t)) ∧
  (d ∈ identities (dedup t) ↔ d ∈ identities t) ∧ treatment (dedup t) = treatment t.
Proof.
  unfold dedup. simpl. pose proof (sort_by_key_sorted id (identities t)) as Hs.
  rewrite list_fmap_id in Hs. split_and!; [by apply dedup_ascending| |done].
  rewrite elem_of_dedup. by rewrite sort_by_key_perm.
Qed.

Lemma tax_of_listed ca d tax :
  ascending (fst <$> withholding_tax ca) → (d, tax) ∈ withholding_tax ca → tax_of ca d = tax.
Proof.
  intros Hasc Hin. unfold tax_of. pose proof (search_spec_by_key fst _ d Hasc) as Hs.
  destruct (binary_search_by_key fst (withholding_tax ca) d) as [i|i].
  - destruct Hs as ([d' tax'] & Hi & E). simpl in E. subst d'. rewrite Hi. simpl.
    apply list_elem_of_lookup in Hin as [j Hj].
    assert (i = j) as ->; [|rewrite Hi in Hj; by simplify_eq].
    apply (proj1 (NoDup_alt _) (ascending_NoDup _ Hasc) i j d); rewrite list_lookup_fmap;
      by rewrite ?Hi, ?Hj.
  - exfalso. apply around_not_in in Hs. apply Hs. apply list_elem_of_fmap. by exists (d, tax).
Qed.

Lemma tax_of_default ca d :
  d ∉ fst <$> withholding_tax ca → tax_of ca d = default_withholding_tax ca.
Proof.
  intros Hin. unfold tax_of.
  destruct (binary_search_by_key fst (withholding_tax ca) d) as [i|i] eqn:E; [|done].
  apply search_by_key_hit in E as (x & Hx & <-). destruct Hin. apply list_elem_of_fmap.
  exists x. split; [done|]. by eapply list_elem_of_lookup_2.
Qed.

Section taxes.
Context {CC : CorporateConfig}.

Lemma change_tax_ascending l d tax l' :
  ascending (fst <$> l) → change_tax l d tax = Ok l' → ascending (fst <$> l').
Proof.
  intros Hasc H. unfold change_tax in H. pose proof (search_spec_by_key fst l d Hasc) as Hs.
  destruct tax as [tax|], (binary_search_by_key fst l d) as [i|i]; ok_inv; [..|done].
  - destruct Hs as (x & Hx & Ex). rewrite list_fmap_insert. simpl. rewrite <- Ex.
    rewrite list_insert_id; [done|]. by rewrite list_lookup_fmap, Hx.
  - unfold vec_insert. rewrite fmap_app, fmap_cons. simpl. rewrite fmap_take, fmap_drop.
    by apply ascending_insert.
  - eapply ascending_sublist; [|done]. unfold vec_remove. rewrite list_fmap_delete. apply sublist_delete.
Qed.

Lemma sorted_taxes_ascending l l' : sorted_taxes l = Ok l' → ascending (fst <$> l').
Proof.
  unfold sorted_taxes. intros H. ok_inv.
  match goal with H : Base.len _ = Base.len _ |- _ => rename H into Hl end. unfold Base.len in Hl.
  destruct (dedup_by_key_same fst (sort_by_key fst l)) as [-> Hn].
  - apply sort_by_key_sorted.
  - rewrite (Permutation_length (sort_by_key_perm fst l)). lia.
  - apply sorted_ascending; [apply sort_by_key_sorted|done].
Qed.
End taxes.

(* ------------------------------------------------------------------ *)
(** ** The invariant *)

(** The schedule of a record date. *)
Definition rd_schedule (rd : option RecordDate) : option ScheduleId :=
  match rd with Some (mkRecordDate _ (CAScheduled sid _)) => Some sid | _ => None end.

(** The actions of a ticker whose record date is set by a schedule. *)
Definition refers (t : Ticker) (sid : ScheduleId) (id : CAId) (ca : CorporateAction) : N :=
  if decide (ca_ticker id = t ∧ rd_schedule (record_date ca) = Some sid) then 1 else 0.
Definition references (s : CorporateStore) (t : Ticker) (sid : ScheduleId) : N :=
  msum (refers t sid) (CorporateActions s).

(** A record date of an action of [t]. *)
Definition date_ok (w : World) (t : Ticker) (rd : option RecordDate) : Prop :=
  match rd with
  | Some (mkRecordDate _ (CAExisting cp)) => Checkpoint.checkpoint_exists t cp w = true
  | Some (mkRecordDate _ (CAScheduled sid _)) => sid ≤ last_schedule w t
  | None => True
  end.

Record action_ok (w : World) (s : CorporateStore) (id : CAId) (ca : CorporateAction) : Prop := {
  ao_id : local_id id < getd 0 (CAIdSequence s) (ca_ticker id);
  ao_targets : ascending (identities (ca_targets ca));
  ao_taxes : ascending (fst <$> withholding_tax ca);
  ao_date : date_ok w (ca_ticker id) (record_date ca);
}.

(** A service (a distribution or a ballot) that starts at [start] belongs to an
    action of a kind that has it, whose record date is not after the start. *)
Definition served (s : CorporateStore) (kind : CAKind → bool) (id : CAId) (start : Moment) : Prop :=
  ∃ ca rd, CorporateActions s !! id = Some ca ∧ kind (ca_kind ca) = true ∧
    record_date ca = Some rd ∧ date rd ≤ start.

Definition is_notice (k : CAKind) : bool := bool_decide (k = IssuerNotice).

Record distribution_ok (w : World) (s : CorporateStore) (id : CAId) (d : Distribution) : Prop := {
  do_action : served s is_benefit id (payment_at d);
  do_remaining : remaining d ≤ dist_amount d;
  do_reclaimed : reclaimed d = true → remaining d = 0;
  do_before : now w < payment_at d → remaining d = dist_amount d;
  do_expiry : dist_expired (expires_at d) (payment_at d) = false;
}.

Record ballot_ok (s : CorporateStore) (id : CAId) (range : BallotTimeRange) : Prop := {
  bo_action : served s is_notice id (range_start range);
  bo_range : range_start range ≤ range_end range;
  bo_choices : ∃ meta counts, Metas s !! id = Some meta ∧
    derive_motion_num_choices 0 (motions meta) = Ok counts ∧
    MotionNumChoices s !! id = Some counts;
}.

Record corporate_ok (w : World) (s : CorporateStore) : Prop := {
  co_actions : map_Forall (action_ok w s) (CorporateActions s);
  co_targets : map_Forall (λ _ t, ascending (identities t)) (DefaultTargetIdentities s);
  co_taxes : map_Forall (λ _ l, ascending (fst <$> l)) (DidWithholdingTax s);
  co_sequence : ∀ t, getd 0 (CAIdSequence s) t ≤ u32_max;
  co_schedules : ∀ t id, has_schedule w t id → id ≤ last_schedule w t;
  co_references : ∀ t sid, references s t sid ≤ schedule_refs w t sid;
  co_distributions : map_Forall (distribution_ok w s) (Distributions s);
  co_paid : ∀ id h, HolderPaid s !! (id, h) = Some true →
    ∃ d, Distributions s !! id = Some d ∧ payment_at d ≤ now w;
  co_ballots : map_Forall (ballot_ok s) (TimeRanges s);
  co_votes : votes_ok (now w) s;
}.

(* ------------------------------------------------------------------ *)
(** ** What passes by *)

(** The rest of the chain moves on. *)
Record later (w w' : World) : Prop := {
  la_now : now w ≤ now w';
  la_last : ∀ t, last_schedule w t ≤ last_schedule w' t;
  la_refs : ∀ t id, id ≤ last_schedule w t → 0 < schedule_refs w t id →
              schedule_refs w' t id = schedule_refs w t id;
  la_schedules : ∀ t id, has_schedule w' t id → has_schedule w t id ∨ id ≤ last_schedule w' t;
}.

Lemma steady_later w w' : steady w w' → later w w'.
Proof. intros [E H1 H2 H3]. constructor; [by rewrite E|done|done|done]. Qed.

Lemma references_pos s t sid :
  0 < references s t sid → ∃ id ca, CorporateActions s !! id = Some ca ∧ ca_ticker id = t ∧
    rd_schedule (record_date ca) = Some sid.
Proof.
  intros H. destruct (decide (Exists (λ kv, refers t sid kv.1 kv.2 ≠ 0)
    (map_to_list (CorporateActions s)))) as [He|Hn].
  - apply Exists_exists in He as ([id ca] & Hin%elem_of_map_to_list & Hr). simpl in Hr.
    unfold refers in Hr. case_decide as E; [|done]. exists id, ca. naive_solver.
  - exfalso. assert (references s t sid = 0) as E; [|lia].
    apply msum_zero. intros id ca Hid. destruct (decide (refers t sid id ca = 0)); [done|].
    destruct Hn. apply Exists_exists. exists (id, ca). by rewrite elem_of_map_to_list.
Qed.

Lemma date_ok_later w w' t rd :
  (∀ t, last_schedule w t ≤ last_schedule w' t) → Checkpoint.keeps_history w w' →
  date_ok w t rd → date_ok w' t rd.
Proof.
  intros Hl Hh. destruct rd as [[? [sid i|cp]]|]; simpl; [|by intros [? _]%Hh|done].
  specialize (Hl t). lia.
Qed.

Lemma corporate_ok_later w w' s :
  corporate_ok w s → later w w' → Checkpoint.keeps_history w w' → corporate_ok w' s.
Proof.
  intros Hok [Hn Hl Hr Hs] Hh. destruct (Hok) as [Ha Ht Hx Hq Hc Hf Hd Hp Hb Hv]. constructor; try done.
  - intros id ca Hca. apply Ha in Hca as [? ? ? ?]. constructor; [done..|].
    by eapply date_ok_later.
  - intros t id [H|H]%Hs; [|done]. apply Hc in H. specialize (Hl t). lia.
  - intros t sid. destruct (decide (0 < references s t sid)) as [Hpos|]; [|lia].
    destruct (references_pos s t sid Hpos) as (id & ca & Hca & <- & E).
    pose proof (ao_date _ _ _ _ (Ha id ca Hca)) as Hda. specialize (Hf (ca_ticker id) sid).
    destruct (record_date ca) as [[? [sid' i|cp]]|]; simpl in *; [|done|done]. simplify_eq.
    rewrite Hr; [done..|lia].
  - intros id d Hid. apply Hd in Hid as [? ? ? Hbe ?]. constructor; [done..| |done].
    intros Hlt. apply Hbe. lia.
  - intros id h Hid. apply Hp in Hid as (d & Hid & Hpay). exists d. split; [done|lia].
  - eapply votes_ok_frame; [done..|]. intros id k. by apply voting_same.
Qed.

(* ------------------------------------------------------------------ *)
(** ** Counting the references *)

(** There are no more actions of a ticker than ids were handed out. *)
Lemma refers_bound t sid n (m : gmap CAId CorporateAction) :
  (∀ id ca, m !! id = Some ca → ca_ticker id = t → local_id id < n) →
  msum (refers t sid) m ≤ n.
Proof.
  revert m. induction n as [|n IH] using N.peano_ind; intros m Hm.
  - rewrite msum_zero; [done|]. intros id ca Hid. unfold refers. case_decide as E; [|done].
    specialize (Hm id ca Hid (proj1 E)). lia.
  - set (k := mkCAId t n). assert (msum (refers t sid) (delete k m) ≤ n) as Hd.
    { apply IH. intros id ca [Hne Hid]%lookup_delete_Some E. specialize (Hm id ca Hid E).
      assert (local_id id ≠ n); [|lia]. intros <-. apply Hne. unfold k. destruct id. simpl in *.
      by subst. }
    destruct (m !! k) as [ca|] eqn:Hk.
    + rewrite (msum_lookup _ m k ca Hk). unfold refers at 1. case_decide; lia.
    + rewrite delete_id in Hd by done. lia.
Qed.

(** The references after one action changed. *)
Lemma references_change s s' id ca' t sid :
  CorporateActions s' = <[id := ca']> (CorporateActions s) →
  references s' t sid + from_option (refers t sid id) 0 (CorporateActions s !! id) =
  references s t sid + refers t sid id ca'.
Proof.
  intros E. unfold references. rewrite E.
  rewrite <- insert_delete_eq, msum_insert_fresh by apply lookup_delete_eq.
  destruct (CorporateActions s !! id) as [ca|] eqn:Hid; simpl.
  - rewrite (msum_lookup _ (CorporateActions s) id ca Hid). lia.
  - rewrite delete_id by done. lia.
Qed.

Lemma references_delete s s' id ca t sid :
  CorporateActions s !! id = Some ca → CorporateActions s' = delete id (CorporateActions s) →
  references s' t sid + refers t sid id ca = references s t sid.
Proof.
  intros Hid E. unfold references. rewrite E, (msum_lookup _ (CorporateActions s) id ca Hid). lia.
Qed.

(** The others of the same ticker leave room for one more reference. *)
Lemma references_room w s id t sid :
  corporate_ok w s → ca_ticker id = t → local_id id < getd 0 (CAIdSequence s) t →
  msum (refers t sid) (delete id (CorporateActions s)) < u32_max.
Proof.
  intros Hok E Hid. pose proof (co_sequence _ _ Hok t) as Hq.
  assert (∀ ca, msum (refers t sid) (<[id := ca]> (delete id (CorporateActions s))) ≤
    getd 0 (CAIdSequence s) t) as Hle.
  { intros ca. apply refers_bound. intros id' ca'. rewrite lookup_insert_Some.
    intros [[<- <-]|[_ [_ Hid']%lookup_delete_Some]] Et; [done|].
    apply (co_actions _ _ Hok) in Hid' as [Hid' _ _ _]. by rewrite Et in Hid'. }
  specialize (Hle (mkCorporateAction CAOther 0 (Some (mkRecordDate 0 (CAScheduled sid 0)))
    TargetIdentities_default 0 [])).
  rewrite msum_insert_fresh in Hle by apply lookup_delete_eq.
  unfold refers at 1 in Hle. rewrite decide_True in Hle by done. lia.
Qed.
End CorporateInv.
