(* ===== verification/FundraisingInv.v ===== *)
(** The invariant of the whole state, which ties what is promised (legs that are
    affirmed, units offered for sale, amounts to distribute) to the locks of the
    portfolios, and that the calls of the fundraisers keep it. *)

From stdpp Require Import base numbers list gmap sets strings sorting relations.
From S2P Require Import Prelude Subset AssetIdentifier Types SettlementTypes Schedules StoTypes.
From S2P Require Import State Identity Agents Portfolio Checkpoint Asset Nft Metadata Ledger.
From S2P Require Import Settlement SettlementInv SettlementAdd Execution System Fundraising.
From S2P Require Import CorporateTypes ChainState Corporate Clock BallotInv CorporateInv.

Local Open Scope N_scope.

Module FundraisingInv.
Import Settlement SettlementInv SettlementAdd Execution System Fundraising Clock CorporateInv.

(* ------------------------------------------------------------------ *)
(** ** Settling at once *)

Section settling.
Context {RT : Runtime} {EX : Externals} {SC : SettlementConfig} {RS : Reserved}.

Lemma unsafe_affirm_system d id P sk count w f w' :
  system_ok w → unsafe_affirm_instruction d id P sk count w = (Ok f, w') →
  sound w w' ∧
  settlement w' = affirm_store id (elements P) (sender_subset (filtered_legs id P w)) [] (settlement w).
Proof.
  intros Hok H.
  apply unsafe_affirm_Ok in H as (_ & Haf & ES & Hlo & Hb & Hk & _);
    [|apply (Portfolio.ok_balances _ (Ledger.ok_portfolio _ (sys_ledger _ Hok)))|apply Hok..].
  split; [|done]. apply sound_locks_only; try done; rewrite ES.
  - apply settle_ok_affirm; [apply Hok|done].
  - apply receipts_kept_affirm.
Qed.

(** Pruning without releasing: the units stay locked, for nothing. *)
Lemma prune_only_system id b w w' :
  system_ok w → prune_instruction id b w = (Ok tt, w') →
  sound w w' ∧ portfolio w' = portfolio w ∧ asset w' = asset w.
Proof.
  intros Hok H. apply prune_instruction_Ok in H as [Hpr [f ->]]; [|apply Hok].
  split_and!; [|done|done]. apply sound_locks_only; [done|by apply locks_only_settlement|apply Hok|..].
  - eapply pruned_settle_ok; [apply Hok|done].
  - intros k. pose proof (sys_locks _ Hok k) as Hk.
    pose proof (pruned_units _ _ _ _ _ k Hpr). simpl in *. lia.
  - apply receipts_kept_same. by rewrite (pr_receipts _ _ _ _ _ Hpr).
Qed.

(** Executing and pruning. *)
Lemma execute_and_prune_system id caller w w1 w' :
  system_ok w → Portfolio.balances_fit (portfolio w') →
  execute_instruction id caller w = (Ok tt, w1) → prune_instruction id true w1 = (Ok tt, w') →
  sound w w' ∧ executed id w w1 ∧ ∃ s, w' = w1 <| settlement := s |>.
Proof.
  intros Hok Hfit Hex Hpr.
  assert (Portfolio.balances_fit (portfolio w1)) as Hfit1.
  { unfold prune_instruction, on_settlement in Hpr. by ok_inv. }
  apply execute_instruction_Ok in Hex; [|done|done].
  pose proof (prune_system id true (sorted_legs id w) w w1 w' Hok (sorted_legs_listing id w)
    (ex_settlement _ _ _ Hex) (ex_ledger _ _ _ Hex) (ex_locks _ _ _ Hex) Hpr) as (Hs & Hp & s & ->).
  split_and!; [|done|by exists s].
  split_and!; [apply Hs|transitivity w1; [apply Hex|apply Hs]| | |apply receipts_kept_same, Hp].
  - apply (mv_tokens _ _ _ (ex_moved _ _ _ Hex)).
  - apply (mv_catalog _ _ _ (ex_moved _ _ _ Hex)).
Qed.

(** What [affirm_and_execute_instruction] does: with nothing pending it executes,
    otherwise it only prunes. *)
Lemma affirm_and_execute_Ok o id receipt portfolios caller w w' :
  system_ok w → Portfolio.balances_fit (portfolio w') →
  affirm_and_execute_instruction o id receipt portfolios caller w = (Ok tt, w') →
  sound w w' ∧
  ∃ w1 ils rs, sound w w1 ∧
    settlement w1 =
      affirm_store id (elements (list_to_set portfolios : gset PortfolioId)) ils rs (settlement w) ∧
    locks_only w w1 ∧
    (if bool_decide (settlement_type (instruction_details id w1) = SettleOnAffirmation) &&
        bool_decide (instruction_affirms_pending id w1 = 0)
     then ∃ w2, executed id w1 w2 ∧ ∃ s, w' = w2 <| settlement := s |>
     else portfolio w' = portfolio w1 ∧ asset w' = asset w1).
Proof.
  intros Hok Hfit H. unfold affirm_and_execute_instruction in H.
  apply SE_bind_Ok in H as (f & w1 & Haf & H).
  assert (sound w w1 ∧ locks_only w w1 ∧ ∃ ils rs, settlement w1 =
    affirm_store id (elements (list_to_set portfolios : gset PortfolioId)) ils rs (settlement w))
    as (Hs1 & Hlo & ils & rs & ES).
  { destruct receipt as [r|].
    - pose proof (receipts_system _ _ _ _ _ _ _ _ Hok Haf) as Hs.
      apply affirm_with_receipts_Ok in Haf as (_ & _ & ES & Hlo & _);
        [|apply (Portfolio.ok_balances _ (Ledger.ok_portfolio _ (sys_ledger _ Hok)))|apply Hok..].
      split_and!; [done|done|by eexists _, _].
    - unfold base_affirm_instruction in Haf. ok_inv. destruct_product.
      pose proof (unsafe_affirm_system _ _ _ _ _ _ _ _ Hok Haf) as [Hs ES].
      apply unsafe_affirm_Ok in Haf as (_ & _ & _ & Hlo & _);
        [|apply (Portfolio.ok_balances _ (Ledger.ok_portfolio _ (sys_ledger _ Hok)))|apply Hok..].
      split_and!; [done|done|by eexists _, _]. }
  apply SE_bind_Ok in H as (p & ? & [-> ->]%gets_Ok & H).
  apply SE_bind_Ok in H as (i & ? & [-> ->]%gets_Ok & H).
  apply SE_bind_Ok in H as ([] & w2 & Hex & Hpr). unfold execute_settle_on_affirmation_instruction in Hex.
  destruct (bool_decide _ && bool_decide _) eqn:Hb.
  - destruct (execute_and_prune_system id caller w1 w2 w' (proj1 Hs1) Hfit Hex Hpr) as (Hs & He & Hw).
    split; [by eapply sound_trans|]. exists w1, ils, rs. rewrite Hb. split_and!; [done..|]. by exists w2.
  - apply ret_Ok in Hex as [_ ->].
    apply prune_only_system in Hpr as (Hs & EP & EA); [|apply Hs1].
    split; [by eapply sound_trans|]. exists w1, ils, rs. rewrite Hb. by split_and!.
Qed.
End settling.

(* ------------------------------------------------------------------ *)
(** ** What is offered *)

(** The units a fundraiser that is open still offers. *)
Definition offered_by (f : Fundraiser) (k : UnitKey) : N :=
  match k with
  | (p, t, None) =>
      if decide (is_closed f = false ∧ offering_portfolio f = p ∧ offering_asset f = t)
      then tiers_left (tiers f) else 0
  | _ => 0
  end.
Definition offers (s : StoStore) : Reserved := λ k, msum (λ _ f, offered_by f k) (Fundraisers s).

(** A fundraiser is filed under its asset with an id that was handed out, and no
    tier has more left than it was given. *)
Record fundraiser_ok (count : gmap Ticker FundraiserId) (key : Ticker * FundraiserId)
    (f : Fundraiser) : Prop := {
  fo_asset : offering_asset f = key.1;
  fo_id : key.2 < getd 0 count key.1;
  fo_tiers : Forall tier_ok (tiers f);
  fo_total : sum (tier_total <$> tiers f) ≤ u128_max;
}.
Definition sto_ok (s : StoStore) : Prop :=
  map_Forall (fundraiser_ok (FundraiserCount s)) (Fundraisers s).

(** What a distribution still has to pay, and all of them. *)
Definition allotted_by (d : Distribution) (k : UnitKey) : N :=
  match k with
  | (p, t, None) => if decide (dist_from d = p ∧ currency d = t) then remaining d else 0
  | _ => 0
  end.
Definition allotments (s : CorporateStore) : Reserved := λ k,
  msum (λ _ d, allotted_by d k) (Distributions s).

(** Everything that is promised beside the legs of instructions. *)
Definition promises (c : Chain) : Reserved := λ k, offers (sto c) k + allotments (corporate c) k.

(** The invariant of the chain. *)
Record chain_ok (c : Chain) : Prop := {
  ch_system : system_ok (RS := promises c) (world c);
  ch_sto : sto_ok (sto c);
  ch_catalog : Metadata.catalog_ok (world c);
  ch_corporate : corporate_ok (world c) (corporate c);
}.

Lemma sum_cons x l : sum (x :: l) = x + sum l.
Proof. done. Qed.

Lemma tiers_left_total l : Forall tier_ok l → tiers_left l ≤ sum (tier_total <$> l).
Proof.
  induction 1 as [|t l [Ht _] _ IH]; [done|]. rewrite tiers_left_cons, fmap_cons, sum_cons. lia.
Qed.

Lemma offered_bound count key f : fundraiser_ok count key f → tiers_left (tiers f) ≤ u128_max.
Proof.
  intros [_ _ Ht Hs]. etrans; [by apply tiers_left_total|done].
Qed.

(** Replacing a fundraiser. *)
Lemma offers_replace s key f f' k :
  Fundraisers s !! key = Some f →
  offers (s <| Fundraisers ::= <[key := f']> |>) k + offered_by f k = offers s k + offered_by f' k.
Proof.
  intros Hf. unfold offers. simpl.
  rewrite <- insert_delete_eq, msum_insert_fresh by apply lookup_delete_eq.
  rewrite (msum_lookup _ (Fundraisers s) key f Hf). lia.
Qed.

Lemma offers_new s s' key f k :
  Fundraisers s !! key = None → Fundraisers s' = <[key := f]> (Fundraisers s) →
  offers s' k = offers s k + offered_by f k.
Proof. intros Hn E. unfold offers. rewrite E, msum_insert_fresh by done. lia. Qed.

Lemma offers_le s key f k : Fundraisers s !! key = Some f → offered_by f k ≤ offers s k.
Proof. intros Hf. by apply (msum_lookup_le (λ _ f, offered_by f k) _ key). Qed.

Lemma sto_ok_replace s key f' :
  sto_ok s → fundraiser_ok (FundraiserCount s) key f' →
  sto_ok (s <| Fundraisers ::= <[key := f']> |>).
Proof. intros Hs Hf'. unfold sto_ok. simpl. by apply map_Forall_insert_2. Qed.

(** Changing what is reserved along with the locks. *)
Lemma system_ok_locks (R R' : Reserved) w w' :
  system_ok (RS := R) w → locks_only w w' → Portfolio.balances_ok (portfolio w') →
  settlement w' = settlement w →
  (∀ k, pending_units (InstructionLegs (settlement w)) (InstructionLegStatus (settlement w)) k
        + (R : UnitKey → N) k ≤ locked_units (portfolio w) k →
        pending_units (InstructionLegs (settlement w)) (InstructionLegStatus (settlement w)) k
        + (R' : UnitKey → N) k ≤ locked_units (portfolio w') k) →
  system_ok (RS := R') w' ∧ Checkpoint.keeps_history w w'.
Proof.
  intros [Hl Hs Hk] Hlo Hb ES HR. destruct (locks_only_ledger w w' Hl Hlo Hb) as [Hl' Hh].
  split; [|done]. constructor; [done|by rewrite ES|]. intros k. rewrite ES. apply HR, Hk.
Qed.

(** The step does not depend on what is reserved. *)
Lemma system_ok_less (R R' : Reserved) w :
  (∀ k, (R' : UnitKey → N) k ≤ (R : UnitKey → N) k) →
  system_ok (RS := R) w → system_ok (RS := R') w.
Proof.
  intros Hle [Hl Hs Hk]. constructor; [done|done|]. intros k. specialize (Hk k).
  specialize (Hle k). unfold reserved in *. lia.
Qed.

(* ------------------------------------------------------------------ *)
(** ** The calls of the fundraisers *)

Section calls.
Context {RT : Runtime} {EX : Externals} {SC : SettlementConfig}.

(** What a call establishes, beside the invariant. *)
Definition chain_kept (c c' : Chain) : Prop :=
  chain_ok c' ∧ Checkpoint.keeps_history (world c) (world c') ∧
  receipts_kept (settlement (world c)) (settlement (world c')).

(** A call of the fundraisers does not touch the records of the assets either. *)
Definition call_kept (c c' : Chain) : Prop :=
  chain_kept c c' ∧ Tokens (asset (world c')) = Tokens (asset (world c)) ∧
  Metadata.catalog_same (world c) (world c').

Lemma catalog_same_locks w w' : locks_only w w' → Metadata.catalog_same w w'.
Proof.
  intros Hlo. apply Metadata.catalog_same_stores; [apply Hlo|by rewrite (lo_nft _ _ Hlo)].
Qed.

(** A world with the same clock and checkpoints. *)
Lemma steady_checkpoint w w' : now w' = now w → checkpoint w' = checkpoint w → steady w w'.
Proof. intros EN EC. by apply steady_same; rewrite ?EC. Qed.

Lemma corporate_ok_same w w' x :
  corporate_ok w x → now w' = now w → checkpoint w' = checkpoint w →
  Checkpoint.keeps_history w w' → corporate_ok w' x.
Proof.
  intros Hx EN EC Hh. eapply corporate_ok_later; [done|by apply steady_later, steady_checkpoint|done].
Qed.

(** A change of what is promised and of the locks that keeps the balance. *)
Lemma call_kept_promises c s' x' w' :
  chain_ok c → sto_ok s' → corporate_ok (world c) x' →
  locks_only (world c) w' → Portfolio.balances_ok (portfolio w') →
  settlement w' = settlement (world c) →
  (∀ k, locked_units (portfolio w') k + promises c k =
        locked_units (portfolio (world c)) k + promises (mkChain w' s' x') k) →
  call_kept c (mkChain w' s' x').
Proof.
  intros [Hsys Hsto Hcat Hx] Hs' Hx' Hlo Hb ES HK.
  pose proof (catalog_same_locks _ _ Hlo) as Hsame.
  split; [|split; [simpl; by rewrite (lo_asset _ _ Hlo)|done]].
  destruct (system_ok_locks (promises c) (promises (mkChain w' s' x')) (world c) w' Hsys Hlo Hb ES)
    as [Hsys' Hh].
  { intros k Hk. specialize (HK k). lia. }
  split_and!; [|done|apply receipts_kept_same; simpl; by rewrite ES].
  constructor; [done|done|by eapply Metadata.catalog_ok_same|].
  eapply corporate_ok_same; [done|apply Hlo|apply Hlo|done].
Qed.

Lemma call_kept_locks c s' w' :
  chain_ok c → sto_ok s' → locks_only (world c) w' → Portfolio.balances_ok (portfolio w') →
  settlement w' = settlement (world c) →
  (∀ k, locked_units (portfolio w') k + offers (sto c) k =
        locked_units (portfolio (world c)) k + offers s' k) →
  call_kept c (mkChain w' s' (corporate c)).
Proof.
  intros Hok Hs' Hlo Hb ES HK. apply call_kept_promises; [done|done|apply Hok|done|done|done|].
  intros k. specialize (HK k). unfold promises. simpl. lia.
Qed.

(** Events and the like. *)
Lemma call_kept_sto c s' w' e :
  chain_ok c → sto_ok s' → (∀ k, offers s' k = offers (sto c) k) →
  w' = (world c) <| events := e |> → call_kept c (mkChain w' s' (corporate c)).
Proof.
  intros Hok Hs' HK ->. apply call_kept_locks; [done|done|by apply locks_only_same| |done|].
  - apply (Portfolio.ok_balances _ (Ledger.ok_portfolio _ (sys_ledger _ (ch_system _ Hok)))).
  - intros k. simpl. by rewrite HK.
Qed.

Lemma offered_by_same f f' k :
  is_closed f' = is_closed f → offering_portfolio f' = offering_portfolio f →
  offering_asset f' = offering_asset f → tiers f' = tiers f → offered_by f' k = offered_by f k.
Proof. intros E1 E2 E3 E4. unfold offered_by. by rewrite E1, E2, E3, E4. Qed.

(** A fundraiser whose status or window changes. *)
Record modified (t : Ticker) (id : FundraiserId) (c c' : Chain) : Prop := {
  md_old : ∃ f f', Fundraisers (sto c) !! (t, id) = Some f ∧ is_closed f = false ∧
    is_closed f' = false ∧ offering_portfolio f' = offering_portfolio f ∧
    offering_asset f' = offering_asset f ∧ tiers f' = tiers f ∧
    sto c' = (sto c) <| Fundraisers ::= <[(t, id) := f']> |>;
  md_world : ∃ e, world c' = (world c) <| events := e |>;
  md_corporate : corporate c' = corporate c;
}.

Lemma modified_kept t id c c' : chain_ok c → modified t id c c' → call_kept c c'.
Proof.
  intros Hok [(f & f' & Hf & E0 & E1 & E2 & E3 & E4 & Es) [e Ew] Ex]. destruct c' as [w' s' x'].
  simpl in Es, Ew, Ex. subst w' s' x'. eapply call_kept_sto; [done|..|reflexivity].
  - apply sto_ok_replace; [apply Hok|]. destruct (ch_sto _ Hok (t, id) f Hf) as [].
    by constructor; rewrite ?E3, ?E4.
  - intros k. pose proof (offers_replace (sto c) (t, id) f f' k Hf) as Hr.
    rewrite (offered_by_same f f' k) in Hr by congruence. exact (proj1 (N.add_cancel_r _ _ _) Hr).
Qed.

Lemma set_frozen_modified o t id b c c' : set_frozen o t id b c = (Ok tt, c') → modified t id c c'.
Proof.
  intros H. unfold set_frozen in H.
  apply SE_bind_Ok in H as (d & ? & [_ ->]%lift_check_Ok & H).
  apply SE_bind_Ok in H as (f & ? & [Hf ->]%check_Ok & H). apply ok_or_Ok in Hf.
  apply SE_bind_Ok in H as ([] & ? & [Hc ->]%check_Ok & H). apply ensure_Ok, negb_true_iff in Hc.
  apply SE_bind_Ok in H as ([] & ? & (w & He & ->)%lift_Ok & H).
  unfold deposit_event in He. apply modify_Ok in He as ->. unfold on_sto in H. apply modify_Ok in H as ->.
  constructor; [|by eexists|done].
  exists f, (f <| fr_status := if b then FundraiserHalted else FundraiserLive |>).
  split_and!; try done. by destruct b.
Qed.

Lemma modify_window_modified o t id start end_ c c' :
  modify_fundraiser_window o t id start end_ c = (Ok tt, c') → modified t id c c'.
Proof.
  intros H. unfold modify_fundraiser_window in H.
  apply SE_bind_Ok in H as (d & ? & [_ ->]%lift_check_Ok & H).
  apply SE_bind_Ok in H as (f & ? & [Hf ->]%check_Ok & H). apply ok_or_Ok in Hf.
  apply SE_bind_Ok in H as ([] & ? & [Hc ->]%check_Ok & H). apply ensure_Ok, negb_true_iff in Hc.
  do 2 apply SE_bind_Ok in H as ([] & ? & [_ ->]%check_Ok & H).
  apply SE_bind_Ok in H as ([] & ? & (w & He & ->)%lift_Ok & H).
  unfold deposit_event in He. apply modify_Ok in He as ->. unfold on_sto in H. apply modify_Ok in H as ->.
  constructor; [|by eexists|done]. by exists f, (f <| fr_start := start |> <| fr_end := end_ |>).
Qed.

(** The units of one fundraiser are those of a leg that gives away what is left. *)
Lemma offered_by_open f k p :
  is_closed f = false →
  offered_by f k = leg_units (Fungible (offering_portfolio f) p (offering_asset f) (tiers_left (tiers f))) k.
Proof.
  intros Hc. destruct k as [[p' t'] [i|]]; simpl; [done|].
  destruct (decide (offering_portfolio f = p' ∧ offering_asset f = t')) as [?|?].
  - by rewrite decide_True.
  - rewrite decide_False by naive_solver. done.
Qed.

Lemma offered_by_closed f k : is_closed f = true → offered_by f k = 0.
Proof.
  intros Hc. destruct k as [[p' t'] [i|]]; simpl; [done|].
  by rewrite decide_False by (intros [E _]; congruence).
Qed.

Lemma leg_units_part s r t a b k :
  b ≤ a →
  leg_units (Fungible s r t a) k = leg_units (Fungible s r t (a - b)) k + leg_units (Fungible s r t b) k.
Proof. intros Hb. destruct k as [[p' t'] [i|]]; simpl; [done|]. destruct (decide _); lia. Qed.

(** Nothing moves. *)
Definition balances_same (w w' : World) : Prop :=
  (∀ p t, Portfolio.portfolio_asset_balances p t w' = Portfolio.portfolio_asset_balances p t w) ∧
  asset w' = asset w.

Lemma locks_only_balances w w' : locks_only w w' → balances_same w w'.
Proof.
  intros Hlo. split; [|apply Hlo]. intros p t. unfold Portfolio.portfolio_asset_balances.
  by destruct (lo_portfolio _ _ Hlo) as (la & ln & ->).
Qed.

(** Unlocking a part of what is promised. *)
Lemma unlock_promised (R R' : Reserved) w p t a w' :
  system_ok (RS := R) w → Portfolio.unlock_tokens p t a w = (Ok tt, w') →
  (∀ k, (R' : UnitKey → N) k + leg_units (Fungible p p t a) k = (R : UnitKey → N) k) →
  system_ok (RS := R') w' ∧ Checkpoint.keeps_history w w' ∧ locks_only w w' ∧
  settlement w' = settlement w ∧ Portfolio.balances_ok (portfolio w') ∧
  (∀ k, locked_units (portfolio w') k + leg_units (Fungible p p t a) k = locked_units (portfolio w) k).
Proof.
  intros Hok H HR. assert (unlock_via_leg (Fungible p p t a) w = (Ok tt, w')) as Hu by done.
  apply unlock_via_leg_Ok in Hu as [_ ->].
  assert (∀ k, leg_units (Fungible p p t a) k + (R' : UnitKey → N) k ≤ locked_units (portfolio w) k) as Hle.
  { intros k. pose proof (sys_locks _ Hok k) as Hk. specialize (HR k). unfold reserved in Hk. lia. }
  destruct (unlock_via_leg_run (Fungible p p t a) w) as [_ Hu]; [done|intros k; specialize (Hle k); lia|].
  pose proof (unlock_store_balances_ok (Fungible p p t a) _
    (Portfolio.ok_balances _ (Ledger.ok_portfolio _ (sys_ledger _ Hok)))) as Hb.
  assert (locks_only w (w <| portfolio ::= unlock_store (Fungible p p t a) |>)) as Hlo
    by (constructor; try done; by eexists _, _).
  assert (∀ k, locked_units (unlock_store (Fungible p p t a) (portfolio w)) k +
    leg_units (Fungible p p t a) k = locked_units (portfolio w) k) as HK.
  { intros k. rewrite Hu. specialize (Hle k). lia. }
  destruct (system_ok_locks R R' w _ Hok Hlo Hb eq_refl) as [Hok' Hh]; [|done].
  intros k Hk. specialize (HR k). specialize (HK k).
  change (portfolio (w <| portfolio ::= ?f |>)) with (f (portfolio w)). lia.
Qed.

(** Unlocking what a fundraiser offers. *)
Lemma unlock_offered c f f' key a w' :
  chain_ok c → Fundraisers (sto c) !! key = Some f → 
  (∀ k p, offered_by f' k + leg_units (Fungible (offering_portfolio f) p (offering_asset f) a) k =
          offered_by f k) →
  Portfolio.unlock_tokens (offering_portfolio f) (offering_asset f) a (world c) = (Ok tt, w') →
  system_ok (RS := promises (c <| sto ::= λ s, s <| Fundraisers ::= <[key := f']> |> |>)) w' ∧
  Checkpoint.keeps_history (world c) w' ∧ locks_only (world c) w' ∧
  settlement w' = settlement (world c) ∧
  ∀ k, locked_units (portfolio w') k + offered_by f k =
       locked_units (portfolio (world c)) k + offered_by f' k.
Proof.
  intros Hok Hf Hf' H.
  destruct (unlock_promised (promises c) (promises (c <| sto ::= λ s, s <| Fundraisers ::= <[key := f']> |> |>))
    _ _ _ _ _ (ch_system _ Hok) H) as (Hsys & Hh & Hlo & ES & _ & HK).
  2:{ split_and!; try done. intros k. rewrite <- (HK k), <- (Hf' k (offering_portfolio f)). lia. }
  intros k. pose proof (offers_replace (sto c) key f f' k Hf) as Hr. specialize (Hf' k (offering_portfolio f)).
  unfold promises. change (sto (c <| sto ::= ?g |>)) with (g (sto c)).
  change (corporate (c <| sto ::= ?g |>)) with (corporate c). cbv beta. lia.
Qed.

(** From what a computation of the other pallets establishes to the chain. *)
Lemma call_kept_world c s' x' w' e :
  chain_ok c → sto_ok s' → corporate_ok w' x' →
  system_ok (RS := promises (mkChain w' s' x')) w' →
  Checkpoint.keeps_history (world c) w' → Metadata.catalog_same (world c) w' →
  Tokens (asset w') = Tokens (asset (world c)) →
  receipts_kept (settlement (world c)) (settlement w') →
  call_kept c (mkChain (w' <| events := e |>) s' x').
Proof.
  intros Hok Hs' Hx' Hsys Hh Hc HT Hr.
  destruct (sound_agenda (RS := promises (mkChain w' s' x')) w' (agenda w') e Hsys)
    as (Hsys' & Hh' & _ & Hc' & Hr').
  replace (w' <| agenda := agenda w' |> <| events := e |>) with (w' <| events := e |>) in *
    by (by destruct w').
  split; [|split; [done|by etrans]]. split_and!; [|by etrans|done].
  constructor; [done|done| |by eapply corporate_ok_same].
  eapply Metadata.catalog_ok_same; [|apply (ch_catalog _ Hok)]. by etrans.
Qed.

Lemma stop_inv o t id c c' :
  stop o t id c = (Ok tt, c') →
  ∃ f f' w e, Fundraisers (sto c) !! (t, id) = Some f ∧ is_closed f = false ∧
    (f' = f <| fr_status := Closed |> ∨ f' = f <| fr_status := ClosedEarly |>) ∧
    Portfolio.unlock_tokens (offering_portfolio f) (offering_asset f) (remaining_amount f) (world c)
      = (Ok tt, w) ∧
    c' = mkChain (w <| events := e |>) ((sto c) <| Fundraisers ::= <[(t, id) := f']> |>) (corporate c).
Proof.
  intros H. unfold stop in H.
  apply SE_bind_Ok in H as (f & ? & [Hf ->]%check_Ok & H). apply ok_or_Ok in Hf.
  apply SE_bind_Ok in H as (data & ? & [_ ->]%lift_check_Ok & H).
  apply SE_bind_Ok in H as ([] & ? & [_ ->]%lift_check_Ok & H).
  apply SE_bind_Ok in H as ([] & ? & [Hc ->]%check_Ok & H). apply ensure_Ok, negb_true_iff in Hc.
  apply SE_bind_Ok in H as ([] & ? & (w & Hu & ->)%lift_Ok & H).
  apply SE_bind_Ok in H as (st & ? & [Est ->]%gets_Ok & H).
  apply SE_bind_Ok in H as ([] & ? & ->%modify_Ok & H).
  apply lift_Ok in H as (w' & He & ->). unfold deposit_event in He. apply modify_Ok in He as ->.
  exists f, (f <| fr_status := st |>), w. eexists. split_and!; try done. subst st.
  destruct (fr_end f) as [e|]; [|by left]. destruct (bool_decide (now _ < e)); [by right|by left].
Qed.

Lemma stop_kept o t id c c' :
  chain_ok c → stop o t id c = (Ok tt, c') → call_kept c c'.
Proof.
  intros Hok (f & f' & w & e & Hf & Hc & Hst & Hu & ->)%stop_inv.
  pose proof (ch_sto _ Hok (t, id) f Hf) as Hfo.
  pose proof (offered_bound _ _ _ Hfo) as Hb. rewrite remaining_amount_eq in Hu by done.
  assert (is_closed f' = true) as Hc' by (by destruct Hst as [->| ->]).
  destruct (unlock_offered c f f' (t, id) (tiers_left (tiers f)) w)
    as (Hsys & Hh & Hlo & ES & _); [done|done| |done|].
  { intros k p. rewrite offered_by_closed by done. by rewrite (offered_by_open f k p). }
  apply call_kept_world; [done| | |done|done|by apply catalog_same_locks|by rewrite (lo_asset _ _ Hlo)|].
  - apply sto_ok_replace; [apply Hok|]. by destruct Hst as [->| ->]; destruct Hfo; constructor.
  - eapply corporate_ok_same; [apply Hok|apply Hlo|apply Hlo|done].
  - apply receipts_kept_same. by rewrite ES.
Qed.

Lemma tiers_left_new ts : tiers_left (into_fundraiser_tier <$> ts) = sum (pt_total <$> ts).
Proof.
  induction ts as [|x ts IH]; [done|]. rewrite fmap_cons, tiers_left_cons, IH. done.
Qed.

Lemma tiers_total_new ts :
  sum (tier_total <$> (into_fundraiser_tier <$> ts)) = sum (pt_total <$> ts).
Proof. induction ts as [|x ts IH]; [done|]. by rewrite !fmap_cons, !sum_cons, IH. Qed.

Lemma tiers_ok_new ts :
  sum (pt_total <$> ts) ≤ u128_max → Forall tier_ok (into_fundraiser_tier <$> ts).
Proof.
  induction ts as [|x ts IH]; intros Hs; [constructor|].
  rewrite fmap_cons, sum_cons in Hs. rewrite fmap_cons. constructor; [split; simpl; lia|apply IH; lia].
Qed.

(** A counter of fundraisers that goes up. *)
Lemma fundraiser_ok_count m m' key f :
  (∀ t, getd 0 m t ≤ getd 0 m' t) → fundraiser_ok m key f → fundraiser_ok m' key f.
Proof. intros Hm [H1 H2 H3 H4]. constructor; try done. specialize (Hm key.1). lia. Qed.

Lemma create_inv o op t rp r ts v start end_ minimum name c c' :
  create_fundraiser o op t rp r ts v start end_ minimum name c = (Ok tt, c') →
  ∃ f w e, let id := getd 0 (FundraiserCount (sto c)) t in
    is_closed f = false ∧ offering_portfolio f = op ∧ offering_asset f = t ∧
    tiers f = into_fundraiser_tier <$> ts ∧ sum (pt_total <$> ts) ≤ u128_max ∧
    Portfolio.lock_tokens op t (sum (pt_total <$> ts)) (world c) = (Ok tt, w) ∧
    c' = mkChain (w <| events := e |>)
      ((sto c) <| FundraiserCount ::= <[t := id + 1]> |> <| Fundraisers ::= <[(t, id) := f]> |>
               <| FundraiserNames ::= <[(t, id) := name]> |>) (corporate c).
Proof.
  intros H. unfold create_fundraiser in H.
  apply SE_bind_Ok in H as ([] & ? & [_ ->]%check_Ok & H).
  apply SE_bind_Ok in H as (data & ? & [_ ->]%lift_check_Ok & H).
  do 3 apply SE_bind_Ok in H as ([] & ? & [_ ->]%lift_check_Ok & H).
  apply SE_bind_Ok in H as ([] & ? & [_ ->]%check_Ok & H).
  apply SE_bind_Ok in H as (n & ? & [Hn ->]%check_Ok & H). apply ok_or_Ok in Hn.
  apply SE_bind_Ok in H as (st & ? & [_ ->]%gets_Ok & H).
  apply SE_bind_Ok in H as ([] & ? & [_ ->]%check_Ok & H).
  apply SE_bind_Ok in H as ([id seq] & ? & [Hid ->]%check_Ok & H).
  apply SE_bind_Ok in H as ([] & ? & (w & Hl & ->)%lift_Ok & H).
  apply SE_bind_Ok in H as ([] & ? & ->%modify_Ok & H).
  apply lift_Ok in H as (w' & He & ->). unfold deposit_event in He. apply modify_Ok in He as ->.
  apply checked_sum_Some in Hn as [-> Hn]. apply Base.try_next_post_Ok in Hid as (-> & -> & _).
  rewrite N.add_0_l in *.
  exists (mkFundraiser (primary_did data) op t rp r (into_fundraiser_tier <$> ts) v st end_
    FundraiserLive minimum), w. eexists. simpl. split_and!; done || lia.
Qed.

Lemma fresh_fundraiser s t : sto_ok s → Fundraisers s !! (t, getd 0 (FundraiserCount s) t) = None.
Proof.
  intros Hs. apply eq_None_not_Some. intros [g Hg]. apply Hs in Hg as [_ Hg _ _]. simpl in Hg. lia.
Qed.

Lemma create_kept o op t rp r ts v start end_ minimum name c c' :
  chain_ok c → create_fundraiser o op t rp r ts v start end_ minimum name c = (Ok tt, c') →
  call_kept c c'.
Proof.
  intros Hok (f & w & e & Hc & <- & <- & Et & Hn & Hl & ->)%create_inv.
  set (s' := (sto c) <| FundraiserCount ::= _ |> <| Fundraisers ::= _ |> <| FundraiserNames ::= _ |>).
  assert (∀ k, offers s' k = offers (sto c) k + offered_by f k) as Hoff.
  { intros k. apply (offers_new (sto c) s' _ f k (fresh_fundraiser _ (offering_asset f) (ch_sto _ Hok)) eq_refl). }
  set (op := offering_portfolio f) in *. set (t := offering_asset f) in *.
  assert (lock_via_leg (Fungible op op t (sum (pt_total <$> ts))) (world c) = (Ok tt, w)) as Hleg by done.
  apply lock_via_leg_Ok in Hleg as (-> & Hb & Hk);
    [|apply (Portfolio.ok_balances _ (Ledger.ok_portfolio _ (sys_ledger _ (ch_system _ Hok))))].
  apply call_kept_locks; [done| |by constructor; try done; eexists _, _|exact Hb|done|].
  - intros key g. simpl. rewrite lookup_insert_Some. intros [[<- <-]|[Hne Hg]].
    + constructor; simpl; [done|rewrite getd_insert_eq; lia|rewrite Et; apply tiers_ok_new; lia|].
      rewrite Et, tiers_total_new. lia.
    + apply (ch_sto _ Hok) in Hg. eapply fundraiser_ok_count; [|done].
      intros t'. rewrite getd_insert. case_decide as E; [rewrite <- E|]; lia.
  - intros k. rewrite Hoff, (offered_by_open f k op) by done. rewrite Et, tiers_left_new.
    specialize (Hk k). change (portfolio (?w <| events := e |>)) with (portfolio w).
    fold op t. lia.
Qed.

(** The instruction of an investment, from the units that were unlocked on. *)
Lemma settle_system {RS : Reserved} creator v legs P o receipt ps d m id w w1 w2 w' f :
  system_ok w → affirmations_fit (settlement w1) → Portfolio.balances_fit (portfolio w') →
  base_add_instruction creator v SettleOnAffirmation None None legs None None w = (Ok id, w1) →
  unsafe_affirm_instruction creator id P None None w1 = (Ok f, w2) →
  affirm_and_execute_instruction o id receipt ps d (w2 <| meter := m |>) = (Ok tt, w') →
  sound w w'.
Proof.
  intros Hok Hfit Hb Ha Hu He.
  pose proof (add_system _ _ _ _ _ _ _ _ _ _ _ Hok Hfit Ha) as Hs1.
  pose proof (unsafe_affirm_system _ _ _ _ _ _ _ _ (proj1 Hs1) Hu) as [Hs2 _].
  pose proof (sound_meter w2 m (proj1 Hs2)) as Hs3.
  apply affirm_and_execute_Ok in He as [Hs4 _]; [|apply Hs3|done].
  do 3 (eapply sound_trans; [done|]). done.
Qed.

(** There is room for one more instruction. *)
Definition room (w : World) : Prop := ∀ f ip fp a cost id w1,
  open_investment f ip fp a cost w = (Ok id, w1) → affirmations_fit (settlement w1).

(** The checks of [invest] and its effects. *)
Lemma invest_inv o ip fp t id a max receipt c c' :
  invest o ip fp t id a max receipt c = (Ok tt, c') →
  ∃ data f cost ps w e,
    Identity.ensure_origin_call_permissions o (world c) = Ok data ∧
    Fundraisers (sto c) !! (t, id) = Some f ∧ fr_status f = FundraiserLive ∧
    ensure_in_window f (now (world c)) = true ∧
    purchase 0 (tiers f) a 0 = Ok (0, cost, ps) ∧ minimum_investment f ≤ cost ∧
    (∀ m, max = Some m → cost ≤ saturating_mul u128_max m a / PRICE_DIVISOR) ∧
    settle_investment o (primary_did data) f ip fp a cost receipt (world c) = (Ok tt, w) ∧
    c' = mkChain (w <| events := e |>)
           ((sto c) <| Fundraisers ::= <[(t, id) := f <| tiers ::= λ l, take_all l ps |>]> |>)
           (corporate c).
Proof.
  intros H. unfold invest in H.
  apply SE_bind_Ok in H as (data & ? & [Hd ->]%lift_check_Ok & H).
  do 2 apply SE_bind_Ok in H as ([] & ? & [_ ->]%lift_check_Ok & H).
  apply SE_bind_Ok in H as (f & ? & [Hf ->]%check_Ok & H). apply ok_or_Ok in Hf.
  apply SE_bind_Ok in H as ([] & ? & [Hl ->]%check_Ok & H). apply ensure_Ok, bool_decide_eq_true in Hl.
  apply SE_bind_Ok in H as ([] & ? & [Hw ->]%check_Ok & H). apply ensure_Ok in Hw.
  apply SE_bind_Ok in H as ([[r cost] ps] & ? & [Hp ->]%check_Ok & H).
  apply SE_bind_Ok in H as ([] & ? & [Hr ->]%check_Ok & H). apply ensure_Ok, bool_decide_eq_true in Hr as ->.
  apply SE_bind_Ok in H as ([] & ? & [Hm ->]%check_Ok & H). apply ensure_Ok, bool_decide_eq_true in Hm.
  apply SE_bind_Ok in H as ([] & ? & [Hx ->]%check_Ok & H). apply ensure_Ok in Hx.
  apply SE_bind_Ok in H as ([] & ? & (w & Hs & ->)%lift_Ok & H).
  apply with_storage_transaction_Ok in Hs.
  apply SE_bind_Ok in H as ([] & ? & (w' & He & ->)%lift_Ok & H).
  unfold deposit_event in He. apply modify_Ok in He as ->. unfold on_sto in H. apply modify_Ok in H as ->.
  eexists data, f, cost, ps, w, _. split_and!; try done.
  intros m ->. by apply bool_decide_eq_true in Hx.
Qed.

Lemma is_closed_live f : fr_status f = FundraiserLive → is_closed f = false.
Proof. intros E. unfold is_closed. by rewrite E. Qed.

(** The course of an investment that succeeds: [w0] after the units are unlocked,
    [w1] with the instruction, [w2] after the creator's affirmation, [w] at the
    end. *)
Record investment (o : Origin) (ip fp : PortfolioId) (t : Ticker) (id : FundraiserId) (a : Balance)
    (max : option Balance) (receipt : option ReceiptDetails) (c c' : Chain)
    (f : Fundraiser) (w0 w1 w2 w : World) : Prop := {
  iv_fundraiser : Fundraisers (sto c) !! (t, id) = Some f;
  iv_live : fr_status f = FundraiserLive;
  iv_window : ensure_in_window f (now (world c)) = true;
  iv_left : a ≤ tiers_left (tiers f);
  iv_minimum : minimum_investment f ≤ fill_cost (tiers f) a;
  iv_maximum : ∀ m, max = Some m →
    fill_cost (tiers f) a ≤ saturating_mul u128_max m a / PRICE_DIVISOR;
  iv_sto : sto c' = (sto c) <| Fundraisers ::= <[(t, id) := f <| tiers := fill (tiers f) a |>]> |>;
  iv_world : ∃ e, world c' = w <| events := e |>;
  iv_corporate : corporate c' = corporate c;
  iv_ok : system_ok (RS := promises c') w0;
  iv_history : Checkpoint.keeps_history (world c) w0;
  iv_locks : locks_only (world c) w0;
  iv_settlement : settlement w0 = settlement (world c);
  iv_course : ∃ d iid fl,
    open_investment f ip fp a (fill_cost (tiers f) a) (world c) = (Ok iid, w1) ∧
    base_add_instruction (fr_creator f) (fr_venue_id f) SettleOnAffirmation None None
      (investment_legs f ip fp a (fill_cost (tiers f) a)) None None w0 = (Ok iid, w1) ∧
    unsafe_affirm_instruction (fr_creator f) iid {[offering_portfolio f; raising_portfolio f]}
      None None w1 = (Ok fl, w2) ∧
    affirm_and_execute_instruction o iid receipt [ip; fp] d (w2 <| meter := max_limit_no_minimum |>)
      = (Ok tt, w);
}.

Lemma invest_course o ip fp t id a max receipt c c' :
  chain_ok c → invest o ip fp t id a max receipt c = (Ok tt, c') →
  ∃ f w0 w1 w2 w, investment o ip fp t id a max receipt c c' f w0 w1 w2 w.
Proof.
  intros Hok H.
  apply invest_inv in H as (data & f & cost & ps & w & e & _ & Hf & Hl & Hw & Hp & Hm & Hx & Hs & ->).
  pose proof (ch_sto _ Hok (t, id) f Hf) as Hfo.
  apply purchase_complete in Hp as (Ha & -> & Ht); [|apply Hfo].
  set (f' := f <| tiers ::= λ l, take_all l ps |>) in *.
  assert (f' = f <| tiers := fill (tiers f) a |>) as Ef by (rewrite <- Ht; done).
  unfold settle_investment in Hs. apply SE_bind_Ok in Hs as (iid & w1 & Hopen & Hs).
  pose proof Hopen as Hopen'.
  unfold open_investment in Hopen. apply SE_bind_Ok in Hopen as ([] & w0 & Hu & Hadd).
  apply SE_bind_Ok in Hs as (fl & w2 & Haf & Hs).
  apply SE_bind_Ok in Hs as ([] & ? & ->%modify_Ok & Hs).
  destruct (unlock_offered c f f' (t, id) a w0) as (Hsys & Hh & Hlo & ES & _); [done|done| |done|].
  { intros k p. rewrite !(offered_by_open _ k p) by (by apply is_closed_live).
    change (tiers f') with (take_all (tiers f) ps). rewrite Ht, tiers_left_fill.
    by rewrite (leg_units_part _ _ _ (tiers_left (tiers f)) a) by done. }
  exists f, w0, w1, w2, w. constructor; simpl; try done; [by rewrite Ef|by exists e|].
  by eexists _, iid, fl.
Qed.

Lemma invest_kept o ip fp t id a max receipt c c' :
  chain_ok c → room (world c) → Portfolio.balances_fit (portfolio (world c')) →
  invest o ip fp t id a max receipt c = (Ok tt, c') → call_kept c c'.
Proof.
  intros Hok Hroom Hfit H.
  assert (steady (world c) (world c')) as Hst.
  { destruct (fundraising_keeps o (Invest ip fp t id a max receipt) c) as [Hst _]. simpl in Hst.
    by rewrite H in Hst. }
  apply invest_course in H as (f & w0 & w1 & w2 & w & [Hf _ _ _ _ _ Es Ew Ex Hsys Hh Hlo ES Hc]);
    [|done].
  destruct Hc as (d & iid & fl & Hopen & Hadd & Haf & Hex), Ew as [e Ew], c' as [w' s' x'].
  simpl in *. subst w' x'. change (Portfolio.balances_fit (portfolio w)) in Hfit.
  pose proof (settle_system (RS := promises (mkChain w s' (corporate c))) _ _ _ _ _ _ _ _ _ _ _ _ _ _ _ Hsys
    (Hroom _ _ _ _ _ _ _ Hopen) Hfit Hadd Haf Hex) as (Hsys' & Hh' & HT & Hc' & Hrc).
  apply call_kept_world; [done| | |done|by etrans| |by rewrite HT, (lo_asset _ _ Hlo)|].
  - rewrite Es. apply sto_ok_replace; [apply Hok|].
    destruct (ch_sto _ Hok (t, id) f Hf) as [F1 F2 F3 F4]. constructor; [done|done|by apply fill_ok|].
    simpl. by rewrite fill_totals.
  - eapply corporate_ok_later; [apply Hok| |by etrans]. apply steady_later.
    etrans; [exact Hst|]. by apply steady_checkpoint.
  - etrans; [by apply catalog_same_locks|done].
  - by rewrite ES in Hrc.
Qed.

End calls.
End FundraisingInv.
