(* ===== verification/CorporateSteps.v ===== *)
(** The calls of the corporate actions, the capital distributions and the
    ballots keep the invariant of the chain. *)

From stdpp Require Import base numbers list gmap sets strings sorting relations.
From S2P Require Import Prelude Subset AssetIdentifier Types SettlementTypes Schedules StoTypes.
From S2P Require Import CorporateTypes State ChainState Identity Agents Portfolio Checkpoint Asset.
From S2P Require Import Nft Metadata Ledger Sorting Settlement SettlementInv SettlementAdd Execution.
From S2P Require Import System Fundraising Corporate Clock BallotInv CorporateInv FundraisingInv.

Local Open Scope N_scope.

Module CorporateSteps.
Import Settlement SettlementInv Execution System Clock Corporate Distributing Balloting CorporateCalls.
Import BallotInv CorporateInv FundraisingInv.

(** Takes a successful run of a call of these pallets apart. *)
Ltac corporate_inv_step :=
  match goal with
  | H : lift (check _) _ = (Ok _, _) |- _ => apply lift_check_Ok in H as [H ->]
  | H : lift _ _ = (Ok _, _) |- _ => apply lift_Ok in H as (? & H & ->)
  | H : on_corporate _ _ = (Ok _, _) |- _ => unfold on_corporate in H
  | H : deposit_event _ _ = (Ok _, _) |- _ => unfold deposit_event in H
  | _ => ok_inv_step
  end.
Ltac corporate_inv := repeat (corporate_inv_step; simpl in *; subst).

Section steps.
Context {RT : Runtime} {EX : Externals} {SC : SettlementConfig} {CC : CorporateConfig}.

(* ------------------------------------------------------------------ *)
(** ** Record dates *)

(** A change of the checkpoint schedules, and of what lies beside the books. *)
Record aside (w w' : World) : Prop := {
  as_quiet : Checkpoint.quiet w w';
  as_now : now w' = now w;
  as_asset : asset w' = asset w;
  as_portfolio : portfolio w' = portfolio w;
  as_agents : agents w' = agents w;
  as_nft : nft w' = nft w;
  as_settlement : settlement w' = settlement w;
}.
#[global] Instance aside_preorder : PreOrder aside.
Proof.
  split.
  - intros w. by constructor.
  - intros w1 w2 w3 [[A1 B1 C1 D1] ? ? ? ? ? ?] [[A2 B2 C2 D2] ? ? ? ? ? ?].
    constructor; [constructor|..]; try congruence.
    intros t. specialize (D1 t). specialize (D2 t). lia.
Qed.

Lemma aside_ledger w w' : Ledger.ledger_ok w → aside w w' → Ledger.ledger_ok w'.
Proof.
  intros [Ha Hat Hp Hc Hs Hn] [Hq _ EA EP EG EN _]. constructor; rewrite ?EA, ?EP, ?EG; try done.
  - by apply (Checkpoint.quiet_ok w).
  - apply (Asset.supply_ok_ext w); [done|..]; unfold Asset.supply; rewrite ?EA, ?EP; done.
  - apply (Nft.nft_ok_frame w); [done..|by rewrite EP].
Qed.

(** One more reference of a record date to its schedule. *)
Definition one_ref (t t' : Ticker) (rd : option RecordDate) (sid : ScheduleId) : N :=
  if decide (t = t' ∧ rd_schedule rd = Some sid) then 1 else 0.

(** What setting a record date does to the schedules. *)
Record dated (t : Ticker) (rd : option RecordDate) (w w' : World) : Prop := {
  dt_aside : aside w w';
  dt_last : ∀ t', last_schedule w t' ≤ last_schedule w' t';
  dt_schedules : ∀ t' id, id ≤ last_schedule w' t' ∨ (has_schedule w' t' id → has_schedule w t' id);
  dt_date : date_ok w' t rd;
  dt_refs : ∀ t' sid n, n ≤ schedule_refs w t' sid → (0 < n → sid ≤ last_schedule w t') →
    (t = t' → n < u32_max) → n + one_ref t t' rd sid ≤ schedule_refs w' t' sid;
}.

Lemma create_schedule_dated caller t at_ w sid at' w' :
  Checkpoint.base_create_schedule caller t (mkScheduleCheckpoints [at_]) 1 w = (Ok (sid, at'), w') →
  dated t (Some (mkRecordDate at' (CAScheduled sid 0))) w w'.
Proof.
  intros H. pose proof (keeps_create_schedule caller t (mkScheduleCheckpoints [at_]) 1 w) as Hk.
  rewrite H in Hk. simpl in Hk. destruct Hk as [_ Hl _ _].
  unfold Checkpoint.base_create_schedule, on_checkpoint, deposit_event in H. ok_inv.
  destruct_product. ok_inv.
  match goal with H : external _ _ = _ |- _ => apply external_Ok in H as (y & m & ->) end.
  match goal with H : (_, _) = (_, _) |- _ => injection H as -> -> end.
  match goal with H : Base.try_next_pre _ _ = _ |- _ =>
    apply Base.try_next_pre_Ok in H as (-> & -> & _) end.
  constructor; [by constructor|done|..]; unfold has_schedule, last_schedule, schedule_refs; simpl in *.
  - intros t' id. rewrite getd_insert, lookup_insert.
    destruct (decide ((t, _) = (t', id))) as [E|Hne]; [|by right].
    injection E as <- <-. left. by rewrite decide_True by done.
  - unfold last_schedule. simpl. by rewrite getd_insert_eq.
  - intros t' sid n Hn Hpos _. unfold one_ref. simpl. rewrite getd_insert.
    destruct (decide ((t, _) = (t', sid))) as [E|Hne].
    + injection E as <- <-. rewrite decide_True by done. assert (¬ 0 < n); [|lia].
      intros H0%Hpos. lia.
    + rewrite decide_False; [lia|]. intros [-> [= E]]. by subst.
Qed.

Lemma handle_record_date_dated caller t spec w rd w' :
  (∀ t id, has_schedule w t id → id ≤ last_schedule w t) →
  handle_record_date caller t spec w = (Ok rd, w') → dated t (Some rd) w w'.
Proof.
  intros Hs H. destruct spec as [at_|sid|cp]; simpl in H.
  - apply SE_bind_Ok in H as ([sid at'] & w1 & H & Hr). apply ret_Ok in Hr as [-> ->].
    by eapply create_schedule_dated.
  - apply SE_bind_Ok in H as ([at' idx] & ? & [Hc ->]%check_Ok & H).
    unfold Checkpoint.inc_schedule_ref, on_checkpoint in H. ok_inv.
    unfold Checkpoint.ensure_schedule_next_checkpoint in Hc. ok_inv.
    assert (sid ≤ last_schedule w t) as Hsid by (apply Hs; by eexists).
    constructor; [by constructor|done|by right|done|].
    intros t' sid' n Hn Hpos Hmax. unfold schedule_refs, one_ref, saturating_add in *. simpl in *.
    rewrite getd_insert. destruct (decide ((t, sid) = (t', sid'))) as [E|Hne].
    + injection E as <- <-. rewrite decide_True by done. specialize (Hmax eq_refl). lia.
    + rewrite decide_False; [lia|]. intros [-> [= E]]. by subst.
  - ok_inv. constructor; [by constructor|done|by right|done|].
    intros t' sid n Hn _ _. unfold one_ref. simpl. rewrite decide_False by (by intros [_ ?]). lia.
Qed.

Lemma opt_record_date_dated {f : RecordDateSpec → M RecordDate} t spec w rd w' :
  (∀ spec w rd w', (∀ t id, has_schedule w t id → id ≤ last_schedule w t) →
     f spec w = (Ok rd, w') → dated t (Some rd) w w') →
  (∀ t id, has_schedule w t id → id ≤ last_schedule w t) →
  opt_map f spec w = (Ok rd, w') → dated t rd w w'.
Proof.
  intros Hf Hs H. destruct spec as [spec|]; simpl in H; ok_inv.
  - by eapply Hf.
  - constructor; [by constructor|done|by right|done|].
    intros t' sid n Hn _ _. unfold one_ref. rewrite decide_False by (by intros [_ ?]). lia.
Qed.

(** Giving a record date up. *)
Lemma dec_strong_ref_count_Ok id rd w w' :
  dec_strong_ref_count id rd w = (Ok tt, w') →
  aside w w' ∧ (∀ t, last_schedule w' t = last_schedule w t) ∧
  (∀ t sid, has_schedule w' t sid ↔ has_schedule w t sid) ∧
  (∀ t sid, schedule_refs w' t sid = schedule_refs w t sid - one_ref (ca_ticker id) t rd sid).
Proof.
  intros H. assert (w' = w ∧ rd_schedule rd = None ∨
    ∃ sid, rd_schedule rd = Some sid ∧ Checkpoint.dec_schedule_ref (ca_ticker id) sid w = (Ok tt, w'))
    as [[-> E]|(sid & E & Hd)].
  { destruct rd as [[? [sid i|cp]]|]; simpl in H; [right; eauto|left; by ok_inv..]. }
  - split_and!; [by constructor|done|done|]. intros t sid. unfold one_ref. rewrite E.
    rewrite decide_False by (by intros [_ ?]). lia.
  - unfold Checkpoint.dec_schedule_ref, on_checkpoint in Hd. ok_inv.
    split_and!; [by constructor|done|done|]. intros t sid'. unfold schedule_refs, one_ref. simpl.
    rewrite getd_insert, E. unfold saturating_sub.
    destruct (decide ((ca_ticker id, sid) = (t, sid'))) as [E'|Hne].
    + injection E' as <- <-. by rewrite decide_True.
    + rewrite decide_False by naive_solver. lia.
Qed.

(* ------------------------------------------------------------------ *)
(** ** Changes of the records *)

Definition services (s : CorporateStore) :=
  (Distributions s, HolderPaid s, Metas s, TimeRanges s, MotionNumChoices s, Results s, Votes s).
Definition settings (s : CorporateStore) := (DefaultTargetIdentities s, DidWithholdingTax s).

(** The world around a change of the records. *)
Record around_dates (w w' : World) : Prop := {
  ad_now : now w' = now w;
  ad_last : ∀ t, last_schedule w t ≤ last_schedule w' t;
  ad_history : Checkpoint.keeps_history w w';
  ad_schedules : ∀ t id, has_schedule w' t id → id ≤ last_schedule w' t;
}.

Lemma dated_around t rd w w' :
  (∀ t id, has_schedule w t id → id ≤ last_schedule w t) → dated t rd w w' → around_dates w w'.
Proof.
  intros Hs [Ha Hl Hs' _ _]. constructor; [apply Ha|done|apply Checkpoint.quiet_history, Ha|].
  intros t' id H. destruct (Hs' t' id) as [?|Hw]; [done|]. apply Hw, Hs in H. specialize (Hl t'). lia.
Qed.

(** The references of the actions other than [id]. *)
Definition others (s : CorporateStore) (id : CAId) (t : Ticker) (sid : ScheduleId) : N :=
  msum (refers t sid) (delete id (CorporateActions s)).

Lemma served_ne s s' kind id' start :
  CorporateActions s' !! id' = CorporateActions s !! id' → served s kind id' start →
  served s' kind id' start.
Proof. intros E (ca & rd & H & Hr). exists ca, rd. by rewrite E. Qed.

Section put.
Context (w w' : World) (s s' : CorporateStore) (id : CAId).
Hypothesis Hok : corporate_ok w s.
Hypothesis Hw : around_dates w w'.
Hypothesis Eservices : services s' = services s.
Hypothesis Esettings : settings s' = settings s.
Hypothesis Hseq : ∀ t, getd 0 (CAIdSequence s) t ≤ getd 0 (CAIdSequence s') t ≤ u32_max.
Hypothesis Hothers : ∀ id', id' ≠ id → CorporateActions s' !! id' = CorporateActions s !! id'.
Hypothesis Hrefs : ∀ t sid,
  others s id t sid + from_option (refers t sid id) 0 (CorporateActions s' !! id) ≤ schedule_refs w' t sid.
Hypothesis Haction : ∀ ca, CorporateActions s' !! id = Some ca → action_ok w' s' id ca.
Hypothesis Hdist : ∀ d, Distributions s !! id = Some d → served s' is_benefit id (payment_at d).
Hypothesis Hballot : ∀ r, TimeRanges s !! id = Some r → served s' is_notice id (range_start r).

Lemma served_put kind id' start :
  served s kind id' start → (id' = id → served s' kind id start) → served s' kind id' start.
Proof.
  intros H Hid. destruct (decide (id' = id)) as [->|Hne]; [by apply Hid|].
  by eapply served_ne, H; apply Hothers.
Qed.

(** An action is put, replaced or removed. *)
Lemma corporate_ok_put : corporate_ok w' s'.
Proof.
  destruct (Hok) as [Ha Ht Hx Hq Hc Hf Hd Hp Hb Hv]. destruct Hw as [EN Hl Hh Hs].
  injection Eservices as E1 E2 E3 E4 E5 E6 E7. injection Esettings as E8 E9.
  constructor; rewrite ?E1, ?E2, ?E4, ?E8, ?E9; try done.
  - intros id' ca Hca. destruct (decide (id' = id)) as [->|Hne]; [by apply Haction|].
    rewrite Hothers in Hca by done. apply Ha in Hca as [H1 H2 H3 H4]. constructor; [|done..|].
    + specialize (Hseq (ca_ticker id')). lia.
    + by eapply date_ok_later.
  - intros t. apply Hseq.
  - intros t sid. etrans; [|apply Hrefs]. unfold references, others.
    assert (delete id (CorporateActions s') = delete id (CorporateActions s)) as E.
    { apply map_eq. intros k. destruct (decide (id = k)) as [<-|Hne]; [by rewrite !lookup_delete_eq|].
      rewrite !lookup_delete_ne by done. by apply Hothers. }
    destruct (CorporateActions s' !! id) as [ca|] eqn:Hca; simpl.
    + rewrite (msum_lookup _ (CorporateActions s') id ca Hca), E. lia.
    + rewrite <- E, delete_id by done. lia.
  - intros id' d Hid. destruct (Hd id' d Hid) as [H1 H2 H3 H4 H5]. constructor; rewrite ?EN; try done.
    eapply served_put; [done|]. intros ->. by apply Hdist.
  - setoid_rewrite EN. done.
  - intros id' r Hid. destruct (Hb id' r Hid) as [H1 H2 H3]. constructor; rewrite ?E3, ?E5; try done.
    eapply served_put; [done|]. intros ->. by apply Hballot.
  - eapply votes_ok_frame; [done..|]. intros id' k. apply voting_same; [lia|by rewrite E4|by rewrite E5].
Qed.
End put.

(** Changes of the defaults and the like. *)
Lemma corporate_ok_settings w s s' :
  corporate_ok w s → services s' = services s → CorporateActions s' = CorporateActions s →
  CAIdSequence s' = CAIdSequence s →
  map_Forall (λ _ t, Checkpoint.ascending (identities t)) (DefaultTargetIdentities s') →
  map_Forall (λ _ l, Checkpoint.ascending (fst <$> l)) (DidWithholdingTax s') → corporate_ok w s'.
Proof.
  intros [Ha Ht Hx Hq Hc Hf Hd Hp Hb Hv] Es EA EQ Ht' Hx'.
  injection Es as E1 E2 E3 E4 E5 E6 E7. constructor; rewrite ?E1, ?E2, ?E4, ?EA, ?EQ; try done.
  - intros id ca Hca. apply Ha in Hca as []. by constructor; rewrite ?EQ.
  - intros t sid. unfold references. rewrite EA. apply Hf.
  - intros id d Hid. apply Hd in Hid as []. constructor; try done. unfold served. by rewrite EA.
  - intros id d Hid. apply Hb in Hid as []. constructor; rewrite ?E3, ?E5; try done.
    unfold served. by rewrite EA.
  - eapply votes_ok_frame; [done..|]. intros id' k. apply voting_same; [done|by rewrite E4|by rewrite E5].
Qed.

(** From the parts to the chain. *)
Lemma kept_aside c w' x' :
  chain_ok c → aside (world c) w' → corporate_ok w' x' →
  Distributions x' = Distributions (corporate c) → call_kept c (mkChain w' (sto c) x').
Proof.
  intros [[Hl Hs Hk] Hsto Hcat Hx] Ha Hx' ED.
  assert (∀ k, promises (mkChain w' (sto c) x') k = promises c k) as EP.
  { intros k. unfold promises, allotments. simpl. by rewrite ED. }
  assert (Metadata.catalog_same (world c) w') as Hsame.
  { apply Metadata.catalog_same_stores; [apply Ha|by rewrite (as_nft _ _ Ha)]. }
  split; [|split; [simpl; by rewrite (as_asset _ _ Ha)|done]].
  split_and!; [|apply Checkpoint.quiet_history, Ha|].
  - constructor; [|done|by eapply Metadata.catalog_ok_same|done]. constructor; simpl.
    + by eapply aside_ledger.
    + by rewrite (as_settlement _ _ Ha).
    + intros k. unfold reserved. rewrite EP, (as_settlement _ _ Ha), (as_portfolio _ _ Ha). apply Hk.
  - apply receipts_kept_same. simpl. by rewrite (as_settlement _ _ Ha).
Qed.

Lemma aside_events w e : aside w (w <| events := e |>).
Proof. by constructor. Qed.
Lemma corporate_ok_events w e s : corporate_ok w s → corporate_ok (w <| events := e |>) s.
Proof. intros H. by eapply corporate_ok_same. Qed.

Lemma kept_beside c c' :
  chain_ok c → aside (world c) (world c') → sto c' = sto c →
  Distributions (corporate c') = Distributions (corporate c) →
  corporate_ok (world c') (corporate c') → call_kept c c'.
Proof. intros Hok Ha Es ED Hx'. destruct c' as [w' s' x']. simpl in *. subst s'. by apply kept_aside. Qed.

Lemma kept_events c c' :
  chain_ok c → (∃ e, world c' = (world c) <| events := e |>) → sto c' = sto c →
  Distributions (corporate c') = Distributions (corporate c) →
  corporate_ok (world c) (corporate c') → call_kept c c'.
Proof.
  intros Hok [e Ew] Es ED Hx'.
  apply kept_beside; rewrite ?Ew; [done|apply aside_events|done|done|by apply corporate_ok_events].
Qed.

(* ------------------------------------------------------------------ *)
(** ** Settings *)

Lemma settings_targets (m : gmap Ticker TargetIdentities) t ts :
  map_Forall (λ _ t, Checkpoint.ascending (identities t)) m →
  map_Forall (λ _ t, Checkpoint.ascending (identities t)) (<[t := dedup ts]> m).
Proof. intros H. apply map_Forall_insert_2; [|done]. apply (dedup_targets ts 0). Qed.

Lemma set_default_targets_kept o t ts c c' :
  chain_ok c → set_default_targets o t ts c = (Ok tt, c') → call_kept c c'.
Proof.
  intros Hok H. unfold set_default_targets in H. corporate_inv. apply kept_events; [done|by eexists|done|done|]; simpl.
  destruct (ch_corporate _ Hok). by eapply corporate_ok_settings; try apply settings_targets.
Qed.

Lemma set_did_withholding_tax_kept o t d tax c c' :
  chain_ok c → set_did_withholding_tax o t d tax c = (Ok tt, c') → call_kept c c'.
Proof.
  intros Hok H. unfold set_did_withholding_tax in H. corporate_inv. apply kept_events; [done|by eexists|done|done|]; simpl.
  destruct (ch_corporate _ Hok) as [_ _ Hx _ _ _ _ _ _ _].
  eapply corporate_ok_settings; [apply Hok|done..|apply (ch_corporate _ Hok)|]. simpl.
  apply map_Forall_insert_2; [|done]. eapply change_tax_ascending; [|done].
  unfold getd. destruct (_ !! t) as [l|] eqn:Hl; simpl; [by apply (Hx t)|apply Sorting.ascending_nil].
Qed.

Lemma set_max_details_length_kept o n c c' :
  chain_ok c → set_max_details_length o n c = (Ok tt, c') → call_kept c c'.
Proof.
  intros Hok H. unfold set_max_details_length in H. corporate_inv. apply kept_events; [done|by eexists|done|done|]; simpl.
  by eapply corporate_ok_settings; try apply (ch_corporate _ Hok).
Qed.

Lemma set_default_withholding_tax_kept o t tax c c' :
  chain_ok c → set_default_withholding_tax o t tax c = (Ok tt, c') → call_kept c c'.
Proof.
  intros Hok H. unfold set_default_withholding_tax in H. corporate_inv.
  apply kept_events; [done|by eexists|done|done|]; simpl. by eapply corporate_ok_settings; try apply (ch_corporate _ Hok).
Qed.

Lemma link_ca_doc_kept o id docs c c' :
  chain_ok c → link_ca_doc o id docs c = (Ok tt, c') → call_kept c c'.
Proof.
  intros Hok H. unfold link_ca_doc in H. corporate_inv. apply kept_events; [done|by eexists|done|done|]; simpl.
  by eapply corporate_ok_settings; try apply (ch_corporate _ Hok).
Qed.

(* ------------------------------------------------------------------ *)
(** ** Initiating *)

Lemma initial_record_date_dated caller t decl spec w rd w' :
  (∀ t id, has_schedule w t id → id ≤ last_schedule w t) →
  with_storage_transaction (initial_record_date caller t decl spec) w = (Ok rd, w') →
  dated t (Some rd) w w'.
Proof.
  intros Hs H. apply with_storage_transaction_Ok in H. unfold initial_record_date in H. ok_inv.
  by eapply handle_record_date_dated.
Qed.

Lemma opt_sorted_taxes_Ok wt l :
  opt_sorted_taxes wt = Ok l → ∀ l', l = Some l' → Checkpoint.ascending (fst <$> l').
Proof.
  destruct wt; simpl; intros H l' ->; ok_inv; [|done]. simplify_eq. by eapply sorted_taxes_ascending.
Qed.

Lemma initiate_inv caller t kind decl spec details ts tax wt c id c' :
  chain_ok c →
  unsafe_initiate_corporate_action caller t kind decl spec details ts tax wt c = (Ok id, c') →
  ∃ rd w1 e ca, let seq := getd 0 (CAIdSequence (corporate c)) t in
    c' = mkChain (w1 <| events := e |>) (sto c)
           ((corporate c) <| CAIdSequence ::= <[t := seq + 1]> |>
              <| CorporateActions ::= <[id := ca]> |> <| Details ::= <[id := details]> |>) ∧
    id = mkCAId t seq ∧ seq < u32_max ∧ dated t rd (world c) w1 ∧
    ca_kind ca = kind ∧ record_date ca = rd ∧ Checkpoint.ascending (identities (ca_targets ca)) ∧
    Checkpoint.ascending (fst <$> withholding_tax ca).
Proof.
  intros Hok H. unfold unsafe_initiate_corporate_action in H.
  apply SE_bind_Ok in H as ([] & ? & [_ ->]%check_Ok & H).
  apply SE_bind_Ok in H as ([loc next] & ? & [Hn ->]%check_Ok & H).
  apply Base.try_next_post_Ok in Hn as (-> & -> & Hn).
  apply SE_bind_Ok in H as (l & ? & [Hl ->]%check_Ok & H).
  do 2 apply SE_bind_Ok in H as ([] & ? & [_ ->]%check_Ok & H).
  apply SE_bind_Ok in H as (rd & ? & (w1 & Hrd & ->)%lift_Ok & H).
  apply (opt_record_date_dated t) in Hrd;
    [|intros; by eapply initial_record_date_dated|apply (ch_corporate _ Hok)].
  corporate_inv. eexists rd, w1, _, _. split_and!; [reflexivity|done|done|done|done|done|..]; simpl.
  - destruct ts as [ts|]; [apply (dedup_targets ts 0)|]. unfold getd.
    destruct (_ !! t) as [ts|] eqn:Ht; [|apply Sorting.ascending_nil].
    by apply (co_targets _ _ (ch_corporate _ Hok) t).
  - destruct l as [l|]; [by apply (opt_sorted_taxes_Ok _ _ Hl)|]. unfold getd.
    destruct (_ !! t) as [l|] eqn:Ht; [|apply Sorting.ascending_nil].
    by apply (co_taxes _ _ (ch_corporate _ Hok) t).
Qed.

(** A new action has no services. *)
Lemma fresh_action w s t :
  corporate_ok w s → let id := mkCAId t (getd 0 (CAIdSequence s) t) in
  CorporateActions s !! id = None ∧ Distributions s !! id = None ∧ TimeRanges s !! id = None.
Proof.
  intros Hok id. assert (CorporateActions s !! id = None) as E.
  { apply eq_None_not_Some. intros [ca Hca]. apply (co_actions _ _ Hok) in Hca as [Hca _ _ _].
    simpl in Hca. lia. }
  split_and!; [done|..]; apply eq_None_not_Some; intros [x Hx].
  - apply (co_distributions _ _ Hok) in Hx as [(ca & rd & Hca & _) _ _ _ _]. by rewrite E in Hca.
  - apply (co_ballots _ _ Hok) in Hx as [(ca & rd & Hca & _) _ _]. by rewrite E in Hca.
Qed.

Lemma refers_one_ref t sid id ca : refers t sid id ca = one_ref (ca_ticker id) t (record_date ca) sid.
Proof. done. Qed.

(** The references of the others fit a count and leave room for one more. *)
Lemma others_bound w s id t sid :
  corporate_ok w s →
  others s id t sid + from_option (refers t sid id) 0 (CorporateActions s !! id) ≤ schedule_refs w t sid ∧
  (0 < others s id t sid → sid ≤ last_schedule w t).
Proof.
  intros Hok. pose proof (co_references _ _ Hok t sid) as Hr. unfold references in Hr. split.
  - unfold others. destruct (CorporateActions s !! id) as [ca|] eqn:Hid; simpl.
    + rewrite (msum_lookup _ _ _ _ Hid) in Hr. lia.
    + rewrite delete_id by done. lia.
  - intros Hpos. assert (0 < references (s <| CorporateActions ::= delete id |>) t sid) as Hpos'.
    { unfold references. simpl. exact Hpos. }
    apply references_pos in Hpos' as (id' & ca & Hca & <- & E). simpl in Hca.
    apply lookup_delete_Some in Hca as [_ Hca].
    apply (co_actions _ _ Hok) in Hca as [_ _ _ Hd].
    destruct (record_date ca) as [[? [sid' i|cp]]|]; simpl in *; naive_solver.
Qed.

Lemma initiate_kept caller t kind decl spec details ts tax wt c id c' :
  chain_ok c →
  unsafe_initiate_corporate_action caller t kind decl spec details ts tax wt c = (Ok id, c') →
  call_kept c c'.
Proof.
  intros Hok H. pose proof (ch_corporate _ Hok) as Hx.
  apply initiate_inv in H as (rd & w1 & e & ca & -> & -> & Hseq & Hda & Ek & Erd & Hts & Htx); [|done].
  set (s := corporate c) in *. set (seq := getd 0 (CAIdSequence s) t) in *. set (id := mkCAId t seq).
  destruct (fresh_action _ _ t Hx) as (Fa & Fd & Fb). fold seq id in Fa, Fd, Fb.
  apply kept_aside; [done|etrans; [apply Hda|apply aside_events]| |done].
  apply corporate_ok_events, (corporate_ok_put (world c) w1 s _ id Hx); try done; simpl.
  - eapply dated_around; [apply Hx|done].
  - intros t'. rewrite getd_insert. pose proof (co_sequence _ _ Hx t').
    destruct (decide (t = t')) as [<-|]; fold seq; lia.
  - intros id' Hne. by rewrite lookup_insert_ne.
  - intros t' sid. rewrite lookup_insert_eq. simpl. rewrite refers_one_ref, Erd. simpl.
    destruct (others_bound _ _ id t' sid Hx) as [Hle Hpos]. rewrite Fa in Hle. simpl in Hle.
    apply (dt_refs _ _ _ _ Hda); [lia|done|]. intros <-. assert (others s id t sid ≤ seq); [|lia].
    apply refers_bound. intros id' ca' [_ Hca]%lookup_delete_Some <-.
    by apply (co_actions _ _ Hx) in Hca as [? _ _ _].
  - intros ca'. rewrite lookup_insert_eq. intros [= <-]. constructor; simpl; [|done|done|].
    + rewrite getd_insert_eq. fold seq. lia.
    + rewrite Erd. apply Hda.
  - intros d Hd. by rewrite Fd in Hd.
  - intros r Hr. by rewrite Fb in Hr.
Qed.

Lemma call_kept_trans c1 c2 c3 : call_kept c1 c2 → call_kept c2 c3 → call_kept c1 c3.
Proof.
  intros ((_ & H1 & R1) & T1 & C1) ((H2 & H3 & R2) & T2 & C2).
  split; [|split; [congruence|by etrans]]. split_and!; [done|by etrans|].
  intros k Hk. by apply R2, R1.
Qed.

Lemma call_kept_refl c : chain_ok c → call_kept c c.
Proof. intros Hok. split; [|done]. split_and!; [done|done|by apply receipts_kept_same]. Qed.

(* ------------------------------------------------------------------ *)
(** ** Distributions *)

Lemma allotted_by_leg d k p :
  allotted_by d k = leg_units (Fungible (dist_from d) p (currency d) (remaining d)) k.
Proof. destruct k as [[p' t'] [i|]]; done. Qed.

(** Everything but the distribution [id]. *)
Definition same_records (s s' : CorporateStore) : Prop :=
  CorporateActions s' = CorporateActions s ∧ CAIdSequence s' = CAIdSequence s ∧
  settings s' = settings s ∧
  (Metas s', TimeRanges s', MotionNumChoices s', Results s', Votes s') =
  (Metas s, TimeRanges s, MotionNumChoices s, Results s, Votes s).

Lemma corporate_ok_distribution w s s' id :
  corporate_ok w s → same_records s s' →
  (∀ id', id' ≠ id → Distributions s' !! id' = Distributions s !! id') →
  (∀ d, Distributions s' !! id = Some d → distribution_ok w s id d) →
  (∀ h id', id' ≠ id → HolderPaid s' !! (id', h) = HolderPaid s !! (id', h)) →
  (∀ h, HolderPaid s' !! (id, h) = Some true →
     ∃ d, Distributions s' !! id = Some d ∧ payment_at d ≤ now w) →
  corporate_ok w s'.
Proof.
  intros [Ha Ht Hx Hq Hc Hf Hd Hp Hb Hv] (EA & EQ & ES & E) HD Hid HP Hpaid.
  injection ES as E1 E2. injection E as E3 E4 E5 E6 E7.
  constructor; rewrite ?EA, ?EQ, ?E1, ?E2, ?E4; try done.
  - intros id' ca Hca. apply Ha in Hca as []. by constructor; rewrite ?EQ.
  - intros t sid. unfold references. rewrite EA. apply Hf.
  - intros id' d H. assert (distribution_ok w s id' d) as [H1 H2 H3 H4 H5].
    { destruct (decide (id' = id)) as [->|Hne]; [by apply Hid|]. rewrite HD in H by done. by apply Hd. }
    constructor; try done. unfold served in *. by rewrite EA.
  - intros id' h H. destruct (decide (id' = id)) as [->|Hne]; [by apply (Hpaid h)|].
    rewrite HP in H by done. rewrite HD by done. by apply (Hp id' h).
  - intros id' r H. apply Hb in H as []. constructor; rewrite ?E3, ?E5; try done.
    unfold served in *. by rewrite EA.
  - eapply votes_ok_frame; [done..|]. intros id' k. apply voting_same; [done|by rewrite E4|by rewrite E5].
Qed.

Lemma not_paid w s id d h :
  corporate_ok w s → Distributions s !! id = Some d → now w < payment_at d →
  HolderPaid s !! (id, h) ≠ Some true.
Proof.
  intros Hok Hd Hn Hp. apply (co_paid _ _ Hok) in Hp as (d' & Hd' & Hle).
  rewrite Hd in Hd'. simplify_eq. lia.
Qed.

Lemma not_paid_none w s id h :
  corporate_ok w s → Distributions s !! id = None → HolderPaid s !! (id, h) ≠ Some true.
Proof. intros Hok Hd Hp. apply (co_paid _ _ Hok) in Hp as (d' & Hd' & Hle). congruence. Qed.

Lemma record_date_before_start_Ok ca start :
  ensure_record_date_before_start ca start = Ok tt →
  ∃ rd, record_date ca = Some rd ∧ date rd ≤ start.
Proof.
  unfold ensure_record_date_before_start. destruct (record_date ca) as [rd|]; [|done].
  case_bool_decide; [|done]. intros _. by exists rd.
Qed.

Lemma distribute_inv agent sk id p cur share amount payment expires c c' :
  unverified_distribute agent sk id p cur share amount payment expires c = (Ok tt, c') →
  ∃ from x m w' e, let d := mkDistribution from cur share amount amount false payment expires in
    let w := (world c) <| rest := x |> <| meter := m |> in
    c' = mkChain (w' <| events := e |>) (sto c) ((corporate c) <| Distributions ::= <[id := d]> |>) ∧
    0 < amount ∧ did from = agent ∧ Distributions (corporate c) !! id = None ∧
    served (corporate c) is_benefit id payment ∧ dist_expired expires payment = false ∧
    Portfolio.lock_tokens from cur amount w = (Ok tt, w').
Proof.
  intros H. unfold unverified_distribute, ensure_ca_exists in H. corporate_inv.
  match goal with H : external _ _ = _ |- _ => apply external_Ok in H as (x1 & m & ->) end.
  match goal with H : ensure_record_date_before_start _ _ = _ |- _ =>
    apply record_date_before_start_Ok in H as (rd & Hrd & Hle) end.
  eexists _, x1, m, _, _. split_and!; [reflexivity|..]; simpl.
  - lia.
  - done.
  - by apply has_key_false.
  - match goal with H : CorporateActions _ !! _ = Some ?ca |- _ => by exists ca, rd end.
  - done.
  - unfold Portfolio.lock_tokens. unfold mbind, SE_bind, check.
    match goal with H : Portfolio.ensure_sufficient_balance _ _ _ _ = Ok _ |- _ =>
      change (Portfolio.ensure_sufficient_balance _ _ _ _) with
        (Portfolio.ensure_sufficient_balance (mkPortfolioId agent
           match p with Some n => User n | None => Default end) cur amount (world c)); rewrite H end.
    done.
Qed.

Lemma distribute_kept agent sk id p cur share amount payment expires c c' :
  chain_ok c → unverified_distribute agent sk id p cur share amount payment expires c = (Ok tt, c') →
  call_kept c c'.
Proof.
  intros Hok (from & x & m & w' & e & -> & Ha & _ & Hd & Hsv & Hex & Hl)%distribute_inv.
  set (d := mkDistribution from cur share amount amount false payment expires) in *.
  assert (lock_via_leg (Fungible from from cur amount) ((world c) <| rest := x |> <| meter := m |>)
    = (Ok tt, w')) as Hleg by done.
  apply lock_via_leg_Ok in Hleg as (-> & Hb & Hk);
    [|apply (Portfolio.ok_balances _ (Ledger.ok_portfolio _ (sys_ledger _ (ch_system _ Hok))))].
  apply call_kept_promises; [done|apply Hok| |by constructor; try done; eexists _, _|exact Hb|done|].
  - eapply (corporate_ok_distribution _ _ _ id); [apply Hok|done|..]; simpl.
    + intros id' Hne. by rewrite lookup_insert_ne.
    + intros d'. rewrite lookup_insert_eq. intros [= <-]. by constructor.
    + done.
    + intros h Hp. exfalso. by eapply not_paid_none; [apply Hok|..].
  - intros k. specialize (Hk k). unfold promises, allotments.
    change (sto (mkChain _ ?s _)) with s. change (corporate (mkChain _ _ ?x)) with x. simpl.
    rewrite msum_insert_fresh by done. rewrite (allotted_by_leg d k from).
    change (portfolio (?w <| events := e |>)) with (portfolio w) in *. simpl in Hk |- *. lia.
Qed.

(** Unlocking a part of a distribution, which [d'] is after that. *)
Lemma unlock_allotted c id d (x' : CorporateStore) a w' :
  chain_ok c → Distributions (corporate c) !! id = Some d →
  (∀ k, allotments x' k + leg_units (Fungible (dist_from d) (dist_from d) (currency d) a) k =
        allotments (corporate c) k) →
  unlock d a (world c) = (Ok tt, w') →
  system_ok (RS := promises (mkChain w' (sto c) x')) w' ∧
  Checkpoint.keeps_history (world c) w' ∧ locks_only (world c) w' ∧
  settlement w' = settlement (world c).
Proof.
  intros Hok Hd HK H. unfold unlock in H.
  destruct (unlock_promised (promises c) (promises (mkChain w' (sto c) x')) _ _ _ _ _
    (ch_system _ Hok) H) as (Hsys & Hh & Hlo & ES & _); [|done].
  intros k. specialize (HK k). unfold promises.
  change (sto (mkChain _ ?s _)) with s. change (corporate (mkChain _ _ ?x)) with x. lia.
Qed.

Lemma allotments_replace s id d d' k :
  Distributions s !! id = Some d →
  allotments (s <| Distributions ::= <[id := d']> |>) k + allotted_by d k =
  allotments s k + allotted_by d' k.
Proof.
  intros Hd. unfold allotments. simpl.
  rewrite <- insert_delete_eq, msum_insert_fresh by apply lookup_delete_eq.
  rewrite (msum_lookup _ (Distributions s) id d Hd). lia.
Qed.

Lemma allotments_le s id d k : Distributions s !! id = Some d → allotted_by d k ≤ allotments s k.
Proof. intros Hd. by apply (msum_lookup_le (λ _ d, allotted_by d k) _ id). Qed.

Lemma allotments_delete s id d k :
  Distributions s !! id = Some d →
  allotments (s <| Distributions ::= delete id |>) k + allotted_by d k = allotments s k.
Proof.
  intros Hd. unfold allotments. simpl. rewrite (msum_lookup _ (Distributions s) id d Hd). lia.
Qed.

(** After an unlock nothing else happens. *)
Lemma kept_unlocked c x' w' e :
  chain_ok c → system_ok (RS := promises (mkChain w' (sto c) x')) w' →
  Checkpoint.keeps_history (world c) w' → locks_only (world c) w' →
  settlement w' = settlement (world c) → corporate_ok (world c) x' →
  call_kept c (mkChain (w' <| events := e |>) (sto c) x').
Proof.
  intros Hok Hsys Hh Hlo ES Hx'.
  apply call_kept_world; [done|apply Hok| |done|done|by apply catalog_same_locks
    |by rewrite (lo_asset _ _ Hlo)|apply receipts_kept_same; by rewrite ES].
  eapply corporate_ok_same; [done|apply Hlo|apply Hlo|done].
Qed.

Lemma remove_distribution_inv agent id d c c' :
  unverified_remove_distribution agent id d c = (Ok tt, c') →
  ∃ w' e, c' = mkChain (w' <| events := e |>) (sto c) ((corporate c) <| Distributions ::= delete id |>) ∧
    now (world c) < payment_at d ∧ unlock d (dist_amount d) (world c) = (Ok tt, w').
Proof.
  intros H. unfold unverified_remove_distribution, ensure_distribution_not_started in H.
  corporate_inv. eexists _, _. split_and!; [reflexivity|done|done].
Qed.

Lemma remove_distribution_kept agent id d c c' :
  chain_ok c → Distributions (corporate c) !! id = Some d →
  unverified_remove_distribution agent id d c = (Ok tt, c') → call_kept c c'.
Proof.
  intros Hok Hd (w' & e & -> & Hn & Hu)%remove_distribution_inv.
  pose proof (co_distributions _ _ (ch_corporate _ Hok) id d Hd) as Hdo.
  apply (unlock_allotted c id d ((corporate c) <| Distributions ::= delete id |>)) in Hu
    as (Hsys & Hh & Hlo & ES); [|done|done|].
  - apply kept_unlocked; try done.
    eapply (corporate_ok_distribution _ _ _ id); [apply Hok|done|..]; simpl.
    + intros id' Hne. by rewrite lookup_delete_ne.
    + intros d'. by rewrite lookup_delete_eq.
    + done.
    + intros h Hp. exfalso. by eapply not_paid; [apply Hok|..].
  - intros k. pose proof (allotments_delete (corporate c) id d k Hd) as Hr.
    rewrite (allotted_by_leg d k (dist_from d)), (do_before _ _ _ _ Hdo Hn) in Hr. done.
Qed.

Lemma reclaim_inv o id c c' :
  reclaim o id c = (Ok tt, c') →
  ∃ d w' e, c' = mkChain (w' <| events := e |>) (sto c)
      ((corporate c) <| Distributions ::= <[id := d <| reclaimed := true |> <| remaining := 0 |>]> |>) ∧
    Distributions (corporate c) !! id = Some d ∧ reclaimed d = false ∧
    dist_expired (expires_at d) (now (world c)) = true ∧
    unlock d (remaining d) (world c) = (Ok tt, w').
Proof.
  intros H. unfold reclaim, ensure_distribution_exists in H. corporate_inv.
  eexists _, _, _. split_and!; [reflexivity|done..].
Qed.

(** A distribution starts before it expires. *)
Lemma reclaim_kept o id c c' : chain_ok c → reclaim o id c = (Ok tt, c') → call_kept c c'.
Proof.
  intros Hok (d & w' & e & -> & Hd & Hr & Hex & Hu)%reclaim_inv.
  pose proof (co_distributions _ _ (ch_corporate _ Hok) id d Hd) as Hdo.
  apply (unlock_allotted c id d ((corporate c) <| Distributions ::=
      <[id := d <| reclaimed := true |> <| remaining := 0 |>]> |>)) in Hu
    as (Hsys & Hh & Hlo & ES); [|done|done|].
  - apply kept_unlocked; try done.
    eapply (corporate_ok_distribution _ _ _ id); [apply Hok|done|..]; simpl.
    + intros id' Hne. by rewrite lookup_insert_ne.
    + intros d'. rewrite lookup_insert_eq. intros [= <-]. destruct Hdo as [H1 H2 H3 H4 H5].
      constructor; simpl; [done|lia|done| |done]. intros Hn. exfalso.
      unfold dist_expired in *. destruct (expires_at d) as [ex|]; [|done].
      apply bool_decide_eq_true in Hex. apply bool_decide_eq_false in H5. lia.
    + done.
    + intros h Hp. rewrite lookup_insert_eq. eexists. split; [done|].
      apply (co_paid _ _ (ch_corporate _ Hok)) in Hp as (d' & Hd' & Hle). rewrite Hd in Hd'. by simplify_eq.
  - intros k. pose proof (allotments_replace (corporate c) id d
      (d <| reclaimed := true |> <| remaining := 0 |>) k Hd) as Hk.
    rewrite !(allotted_by_leg _ k (dist_from d)) in Hk. simpl in Hk.
    destruct k as [[p t] [i|]]; simpl in *; [lia|]. case_decide; lia.
Qed.

(** The checks of [transfer_benefit] and its effects. *)
Record benefit_paid (actor holder : IdentityId) (id : CAId) (c c' : Chain) (d : Distribution)
    (ca : CorporateAction) (balance : Balance) (w' : World) : Prop := {
  bp_unpaid : HolderPaid (corporate c) !! (id, holder) ≠ Some true;
  bp_dist : Distributions (corporate c) !! id = Some d;
  bp_started : payment_at d ≤ now (world c);
  bp_open : dist_expired (expires_at d) (now (world c)) = false;
  bp_action : CorporateActions (corporate c) !! id = Some ca;
  bp_target : targets (ca_targets ca) holder = true;
  bp_balance : record_balance ca id holder (world c) = Some balance;
  bp_product : balance * per_share d ≤ u128_max;
  bp_remaining : balance * per_share d / PER_SHARE_PRECISION ≤ remaining d;
  bp_pay :
    let benefit := balance * per_share d / PER_SHARE_PRECISION in
    pay (d <| remaining := remaining d - benefit |>) holder actor benefit
      (gain_of ca holder (Asset.is_divisible (currency d) (world c)) benefit) (world c) = (Ok tt, w');
  bp_world : ∃ e, world c' = w' <| events := e |>;
  bp_sto : sto c' = sto c;
  bp_corporate :
    let benefit := balance * per_share d / PER_SHARE_PRECISION in
    corporate c' = (corporate c) <| HolderPaid ::= <[(id, holder) := true]> |>
      <| Distributions ::= <[id := d <| remaining := remaining d - benefit |>]> |>;
}.

Lemma transfer_benefit_inv actor holder id c c' :
  transfer_benefit actor holder id c = (Ok tt, c') →
  ∃ d ca balance w', benefit_paid actor holder id c c' d ca balance w'.
Proof.
  intros H. unfold transfer_benefit, ensure_active_distribution, ensure_distribution_exists,
    ensure_ca_exists, ensure_ca_targets, benefit_of in H. corporate_inv.
  match goal with H : checked_mul _ _ _ = Some _ |- _ => apply checked_mul_Some in H as [-> Hm] end.
  match goal with H : checked_sub _ _ = Some _ |- _ => apply checked_sub_Some in H as [-> Hs] end.
  match goal with H : with_storage_transaction _ _ = _ |- _ =>
    apply with_storage_transaction_Ok in H end.
  eexists _, _, _, _. constructor; try done; [|by eexists].
  intros Hp. unfold getd in *. match goal with H : default false _ = false |- _ => by rewrite Hp in H end.
Qed.

(** What a payment does to the rest of the chain. *)
Lemma pay_system (R R' : Reserved) d holder actor benefit gain w w' :
  system_ok (RS := R) w → Portfolio.balances_fit (portfolio w') →
  (∀ k, (R' : UnitKey → N) k + leg_units (Fungible (dist_from d) (dist_from d) (currency d) benefit) k =
        (R : UnitKey → N) k) →
  pay d holder actor benefit gain w = (Ok tt, w') →
  system_ok (RS := R') w' ∧ Checkpoint.keeps_history w w' ∧ Metadata.catalog_same w w' ∧
  Tokens (asset w') = Tokens (asset w) ∧ settlement w' = settlement w ∧
  (∀ k, locked_units (portfolio w') k +
     leg_units (Fungible (dist_from d) (dist_from d) (currency d) benefit) k =
     locked_units (portfolio w) k) ∧
  ∃ w1, asset w1 = asset w ∧
    (∀ p t, Portfolio.portfolio_asset_balances p t w1 = Portfolio.portfolio_asset_balances p t w) ∧
    moved [(0, Fungible (dist_from d) (mkPortfolioId holder Default) (currency d) gain)] w1 w'.
Proof.
  intros Hok Hfit HR H. unfold pay, unlock, set_meter in H.
  apply SE_bind_Ok in H as ([] & w1 & Hu & H). apply SE_bind_Ok in H as ([] & ? & ->%modify_Ok & H).
  destruct (unlock_promised R R' w _ _ _ w1 Hok Hu HR) as (Hok1 & Hh1 & Hlo & ES1 & _ & Hk1).
  pose proof (sound_meter (RS := R') w1 max_limit_no_minimum Hok1) as (Hok2 & _).
  pose proof (fungible_leg_frame _ _ _ _ _ _ _ _ _ H) as Hfr.
  apply (fungible_leg_Ok 0) in H as (Hl & Hh & Hmv); [|apply Hok2|done].
  assert (∀ k, locked_units (portfolio w') k = locked_units (portfolio w1) k) as Hk.
  { intros k. apply locked_units_ext; [apply (lf_locked _ _ Hfr)|apply (lf_locked_nft _ _ Hfr)]. }
  destruct (kept_elsewhere (RS := R') (w1 <| meter := max_limit_no_minimum |>) w' Hok2) as (Hok' & _ & _);
    [done|apply Hfr|done|].
  split_and!; [done|by etrans; [|exact Hh]|..].
  - etrans; [by apply catalog_same_locks|apply (mv_catalog _ _ _ Hmv)].
  - rewrite (mv_tokens _ _ _ Hmv). simpl. by rewrite (lo_asset _ _ Hlo).
  - rewrite (lf_settlement _ _ Hfr). simpl. by rewrite ES1.
  - intros k. rewrite Hk. apply Hk1.
  - exists (w1 <| meter := max_limit_no_minimum |>). split_and!; [apply Hlo| |done].
    intros p t. unfold Portfolio.portfolio_asset_balances. simpl.
    by destruct (lo_portfolio _ _ Hlo) as (la & ln & ->).
Qed.

Lemma pay_keeps d holder actor benefit gain : keeps (pay d holder actor benefit gain).
Proof. unfold pay, unlock. do 2 (apply keeps_bind; [clock|intros]). apply base_transfer_keeps. Qed.

Lemma transfer_benefit_kept actor holder id c c' :
  chain_ok c → Portfolio.balances_fit (portfolio (world c')) →
  transfer_benefit actor holder id c = (Ok tt, c') → call_kept c c'.
Proof.
  intros Hok Hfit (d & ca & balance & w' & [Hun Hd Hst Hop _ _ _ _ Hle Hpay [e Ew] Es Ex])%transfer_benefit_inv.
  destruct c' as [w'' s' x']. simpl in Es, Ex, Ew, Hfit. subst w'' s'.
  change (Portfolio.balances_fit (portfolio w')) in Hfit. simpl in Hpay.
  set (benefit := balance * per_share d / PER_SHARE_PRECISION) in *.
  set (d' := d <| remaining := remaining d - benefit |>) in *.
  pose proof (pay_keeps d' holder actor benefit
    (gain_of ca holder (Asset.is_divisible (currency d) (world c)) benefit) (world c)) as Hst'.
  rewrite Hpay in Hst'. simpl in Hst'.
  apply (pay_system (promises c) (promises (mkChain w' (sto c) x'))) in Hpay
    as (Hsys & Hh & Hcat & HT & ES & _); [|apply Hok|done|].
  - apply call_kept_world; [done|apply Hok| |done|done|done|done|apply receipts_kept_same; by rewrite ES].
    eapply corporate_ok_later; [|by apply steady_later|done]. rewrite Ex.
    destruct (co_distributions _ _ (ch_corporate _ Hok) id d Hd) as [H1 H2 H3 H4 H5].
    eapply (corporate_ok_distribution _ _ _ id); [apply Hok|done|..]; simpl.
    + intros id' Hne. by rewrite lookup_insert_ne.
    + intros d2. rewrite lookup_insert_eq. intros [= <-]. constructor; simpl; [done|lia| | |done].
      * intros Hr. rewrite H3 by done. lia.
      * lia.
    + intros h id' Hne. rewrite lookup_insert_ne; [done|]. congruence.
    + intros h _. exists d'. by rewrite lookup_insert_eq.
  - intros k. pose proof (allotments_replace (corporate c) id d d' k Hd) as Hk.
    rewrite !(allotted_by_leg _ k (dist_from d)) in Hk.
    rewrite (leg_units_part _ _ _ (remaining d) benefit) in Hk by done.
    unfold promises, allotments in *. change (sto (mkChain _ ?s _)) with s.
    change (corporate (mkChain _ _ ?x)) with x. rewrite Ex. simpl in *. lia.
Qed.

(* ------------------------------------------------------------------ *)
(** ** Ballots *)

(** Everything but the ballot [id] and the votes. *)
Record other_ballots (id : CAId) (s s' : CorporateStore) : Prop := {
  ob_records : (CorporateActions s', CAIdSequence s', Distributions s', HolderPaid s') =
               (CorporateActions s, CAIdSequence s, Distributions s, HolderPaid s);
  ob_settings : settings s' = settings s;
  ob_ranges : ∀ id', id' ≠ id → TimeRanges s' !! id' = TimeRanges s !! id';
  ob_metas : ∀ id', id' ≠ id → Metas s' !! id' = Metas s !! id';
  ob_choices : ∀ id', id' ≠ id → MotionNumChoices s' !! id' = MotionNumChoices s !! id';
}.

Lemma corporate_ok_ballot w s s' id :
  corporate_ok w s → other_ballots id s s' →
  (∀ r, TimeRanges s' !! id = Some r → ballot_ok s' id r) → votes_ok (now w) s' →
  corporate_ok w s'.
Proof.
  intros [Ha Ht Hx Hq Hc Hf Hd Hp Hb Hv] [E ES HT HM HC] Hid Hv'.
  injection E as E1 E2 E3 E4. injection ES as E5 E6.
  constructor; rewrite ?E1, ?E2, ?E3, ?E4, ?E5, ?E6; try done.
  - intros id' ca Hca. apply Ha in Hca as []. by constructor; rewrite ?E2.
  - intros t sid. unfold references. rewrite E1. apply Hf.
  - intros id' d H. apply Hd in H as []. constructor; try done. unfold served in *. by rewrite E1.
  - intros id' r H. destruct (decide (id' = id)) as [->|Hne]; [by apply Hid|].
    rewrite HT in H by done. apply Hb in H as [H1 H2 H3]. constructor; [|done|].
    + unfold served in *. by rewrite E1.
    + by rewrite HM, HC.
Qed.

(** As long as a ballot has not started nobody has voted in it. *)
Lemma votes_ok_before n s s' id :
  votes_ok n s → (∀ k, ¬ voting n s id k) → Votes s' = Votes s → Results s' = Results s →
  other_ballots id s s' → votes_ok n s'.
Proof.
  intros Hok Hno EV ER [_ _ HT _ HC]. eapply votes_ok_frame; [done..|]. intros id' k Hk.
  destruct (decide (id' = id)) as [->|Hne]; [by apply Hno in Hk|].
  eapply voting_same; [done|by apply HT|by apply HC|done].
Qed.

Lemma not_voting n s id k range :
  TimeRanges s !! id = Some range → n < range_start range → ¬ voting n s id k.
Proof. intros Ht Hn Hv. pose proof (voting_started n s id k range Hv Ht). lia. Qed.

Lemma attach_ballot_kept o id range meta rcv c c' :
  chain_ok c → attach_ballot o id range meta rcv c = (Ok tt, c') → call_kept c c'.
Proof.
  intros Hok H. unfold attach_ballot, ensure_ca_exists, ensure_range_invariant,
    ensure_range_consistent in H. corporate_inv.
  match goal with H : external _ _ = _ |- _ => apply external_Ok in H as (x1 & m & ->) end.
  match goal with H : ensure_record_date_before_start _ _ = _ |- _ =>
    apply record_date_before_start_Ok in H as (rd & Hrd & Hle) end.
  match goal with H : has_key (TimeRanges _) _ = false |- _ => apply has_key_false in H as Hno end.
  apply kept_beside; [done|by constructor|done|done|].
  eapply (corporate_ok_same (world c)); [|done..]. simpl.
  assert (∀ s', other_ballots id (corporate c) ((corporate c) <| MotionNumChoices ::= <[id := s']> |>
    <| TimeRanges ::= <[id := range]> |> <| Metas ::= <[id := meta]> |> <| RCV ::= <[id := rcv]> |>)) as Hob.
  { intros l. constructor; try done; intros id' Hne; simpl; by rewrite lookup_insert_ne. }
  eapply (corporate_ok_ballot _ (corporate c) _ id); [apply Hok|apply Hob| |].
  - intros r. simpl. rewrite lookup_insert_eq. intros [= <-]. constructor; simpl; [|done|].
    + match goal with H : CorporateActions _ !! _ = Some ?ca |- _ => exists ca, rd end.
      split_and!; try done. by apply bool_decide_eq_true.
    + rewrite !lookup_insert_eq. by eexists _, _.
  - eapply (votes_ok_before _ (corporate c) _ id); [apply Hok| |done|done|apply Hob].
    intros k (r & counts & Hr & _). by rewrite Hno in Hr.
Qed.

Lemma vote_inv o id votes c c' :
  vote o id votes c = (Ok tt, c') →
  ∃ did ca range balance e, let counts := getd [] (MotionNumChoices (corporate c)) id in
    c' = mkChain ((world c) <| events := e |>) (sto c)
           (let s := corporate c in
            s <| Results ::= λ m, <[id := tally (m !! id) (getd [] (Votes s) (id, did)) votes]> m |>
              <| Votes ::= <[(id, did) := votes]> |>) ∧
    Identity.ensure_perms o (world c) = Ok did ∧
    TimeRanges (corporate c) !! id = Some range ∧
    range_start range ≤ now (world c) ∧ now (world c) ≤ range_end range ∧
    CorporateActions (corporate c) !! id = Some ca ∧ targets (ca_targets ca) did = true ∧
    Base.len votes = total_choices counts ∧
    record_balance ca id did (world c) = Some balance ∧
    forallb (within_power balance) (split_motions counts votes) = true ∧
    (if getd false (RCV (corporate c)) id : bool
     then for_check (split_motions counts votes) ensure_fallbacks = Ok tt
     else forallb (λ v, bool_decide (fallback v = None)) votes = true).
Proof.
  intros H. unfold vote, ensure_ballot_exists, ensure_ca_exists, ensure_ca_targets in H. corporate_inv.
  eexists _, _, _, _, _. split_and!; [reflexivity|done..|]. destruct (getd false _ _); by ok_inv.
Qed.

Lemma counts_bound w s id range :
  corporate_ok w s → TimeRanges s !! id = Some range →
  ∃ counts, MotionNumChoices s !! id = Some counts ∧ Fundraising.sum counts ≤ usize_max.
Proof.
  intros Hok Hr. apply (co_ballots _ _ Hok) in Hr as [_ _ (meta & counts & _ & Hde & Hc)].
  exists counts. split; [done|]. apply derive_Ok in Hde as [_ Hde].
  assert (0 ≤ usize_max) as H0 by done. specialize (Hde H0). lia.
Qed.

Lemma split_motions_power counts votes balance :
  Base.len votes = Fundraising.sum counts →
  forallb (within_power balance) (split_motions counts votes) = true →
  Forall (λ v, power v ≤ u128_max) votes.
Proof.
  intros Hl H. rewrite <- (split_motions_concat counts votes Hl). apply Forall_concat, Forall_forall.
  intros l Hin. rewrite forallb_forall in H. specialize (H l). rewrite <- list_elem_of_In in H.
  by apply (within_power_Ok balance), H.
Qed.

Lemma vote_kept o id votes c c' :
  chain_ok c → vote o id votes c = (Ok tt, c') → call_kept c c'.
Proof.
  intros Hok (d & ca & range & balance & e & -> & _ & Hr & Hst & _ & _ & _ & Hl & _ & Hp & _)%vote_inv.
  pose proof (ch_corporate _ Hok) as Hx.
  destruct (counts_bound _ _ _ _ Hx Hr) as (counts & Hc & Hb).
  unfold getd in Hl, Hp. rewrite Hc in Hl, Hp. simpl in Hl, Hp.
  apply kept_events; [done|by eexists|done|done|]; simpl.
  eapply (corporate_ok_ballot _ (corporate c) _ id); [done|done| |].
  - intros r Hr'. by destruct (co_ballots _ _ Hx id r Hr') as [H1 H2 H3].
  - eapply (votes_ok_vote _ (corporate c) _ id d votes); try done; [apply Hx|by exists range, counts|].
    eapply (split_motions_power counts); [|done]. by rewrite Hl, total_choices_eq.
Qed.

Lemma change_end_kept o id e c c' :
  chain_ok c → change_end o id e c = (Ok tt, c') → call_kept c c'.
Proof.
  intros Hok H. unfold change_end, ensure_ballot_exists, ensure_ballot_not_started,
    ensure_range_consistent in H. corporate_inv. pose proof (ch_corporate _ Hok) as Hx.
  match goal with H : TimeRanges _ !! _ = Some ?r |- _ => rename r into range; rename H into Hr end.
  apply kept_events; [done|by eexists|done|done|]; simpl.
  assert (other_ballots id (corporate c) ((corporate c) <| TimeRanges ::= <[id := range <| range_end := e |>]> |>)) as Hob.
  { constructor; try done. intros id' Hne. simpl. by rewrite lookup_insert_ne. }
  eapply (corporate_ok_ballot _ (corporate c) _ id); [done|done| |].
  - intros r. simpl. rewrite lookup_insert_eq. intros [= <-].
    destruct (co_ballots _ _ Hx id range Hr) as [H1' H2' H3']. by constructor.
  - eapply (votes_ok_before _ (corporate c) _ id); [apply Hx| |done|done|done].
    intros k. by eapply not_voting.
Qed.

Lemma change_meta_kept o id meta c c' :
  chain_ok c → change_meta o id meta c = (Ok tt, c') → call_kept c c'.
Proof.
  intros Hok H. unfold change_meta, ensure_ballot_exists, ensure_ballot_not_started in H.
  corporate_inv. pose proof (ch_corporate _ Hok) as Hx.
  match goal with H : TimeRanges _ !! _ = Some ?r |- _ => rename r into range; rename H into Hr end.
  apply kept_events; [done|by eexists|done|done|]; simpl.
  assert (∀ l, other_ballots id (corporate c) ((corporate c) <| MotionNumChoices ::= <[id := l]> |>
    <| Metas ::= <[id := meta]> |>)) as Hob.
  { intros l. constructor; try done; intros id' Hne; simpl; by rewrite lookup_insert_ne. }
  eapply (corporate_ok_ballot _ (corporate c) _ id); [done|apply Hob| |].
  - intros r Hr'. simpl in Hr'. destruct (co_ballots _ _ Hx id r Hr') as [H1' H2' _].
    constructor; [done|done|]. simpl. rewrite !lookup_insert_eq. by eexists _, _.
  - eapply (votes_ok_before _ (corporate c) _ id); [apply Hx| |done|done|apply Hob].
    intros k. by eapply not_voting.
Qed.

Lemma change_rcv_kept o id rcv c c' :
  chain_ok c → change_rcv o id rcv c = (Ok tt, c') → call_kept c c'.
Proof.
  intros Hok H. unfold change_rcv, ensure_ballot_exists, ensure_ballot_not_started in H.
  corporate_inv. apply kept_events; [done|by eexists|done|done|]; simpl.
  eapply (corporate_ok_ballot _ (corporate c) _ id); [apply Hok|done| |].
  - intros r Hr'. by destruct (co_ballots _ _ (ch_corporate _ Hok) id r Hr') as [H1' H2' H3'].
  - eapply votes_ok_frame; [apply Hok|done|done|]. intros id' k. by apply voting_same.
Qed.

Lemma remove_ballot_inv agent id range c c' :
  remove_ballot_base agent id range c = (Ok tt, c') →
  ∃ e, c' = mkChain ((world c) <| events := e |>) (sto c)
      ((corporate c) <| TimeRanges ::= delete id |> <| Metas ::= delete id |>
         <| MotionNumChoices ::= delete id |> <| RCV ::= delete id |>) ∧
    now (world c) < range_start range.
Proof.
  intros H. unfold remove_ballot_base, ensure_ballot_not_started in H. corporate_inv.
  eexists. split; [reflexivity|done].
Qed.

Lemma remove_ballot_kept agent id range c c' :
  chain_ok c → TimeRanges (corporate c) !! id = Some range →
  remove_ballot_base agent id range c = (Ok tt, c') → call_kept c c'.
Proof.
  intros Hok Hr (e & -> & Hn)%remove_ballot_inv.
  apply kept_events; [done|by eexists|done|done|]; simpl.
  set (s' := (corporate c) <| TimeRanges ::= delete id |> <| Metas ::= delete id |>
         <| MotionNumChoices ::= delete id |> <| RCV ::= delete id |>).
  assert (other_ballots id (corporate c) s') as Hob.
  { constructor; try done; intros id' Hne; simpl; by rewrite lookup_delete_ne. }
  eapply (corporate_ok_ballot _ (corporate c) _ id); [apply Hok|done| |].
  - intros r. simpl. by rewrite lookup_delete_eq.
  - eapply (votes_ok_before _ (corporate c) _ id); [apply Hok| |done|done|done].
    intros k. by eapply not_voting.
Qed.

(* ------------------------------------------------------------------ *)
(** ** Removing an action and changing its date *)

(** An action has only the services of its kind. *)
Lemma no_distribution w s id ca :
  corporate_ok w s → CorporateActions s !! id = Some ca → is_benefit (ca_kind ca) = false →
  Distributions s !! id = None.
Proof.
  intros Hok Hca Hk. apply eq_None_not_Some. intros [d Hd].
  apply (co_distributions _ _ Hok) in Hd as [(ca' & rd & Hca' & Hk' & _) _ _ _ _]. congruence.
Qed.
Lemma no_ballot w s id ca :
  corporate_ok w s → CorporateActions s !! id = Some ca → is_notice (ca_kind ca) = false →
  TimeRanges s !! id = None.
Proof.
  intros Hok Hca Hk. apply eq_None_not_Some. intros [r Hr].
  apply (co_ballots _ _ Hok) in Hr as [(ca' & rd & Hca' & Hk' & _) _ _]. congruence.
Qed.

(** The records of the actions themselves. *)
Definition action_records (s : CorporateStore) :=
  (CorporateActions s, CAIdSequence s, DefaultTargetIdentities s, DidWithholdingTax s).

Lemma remove_services_kept agent id ca c c' :
  chain_ok c → CorporateActions (corporate c) !! id = Some ca →
  remove_services agent id ca c = (Ok tt, c') →
  call_kept c c' ∧ action_records (corporate c') = action_records (corporate c) ∧
  Distributions (corporate c') !! id = None ∧ TimeRanges (corporate c') !! id = None.
Proof.
  intros Hok Hca H. pose proof (ch_corporate _ Hok) as Hx. unfold remove_services in H.
  assert (is_benefit (ca_kind ca) = true ∧ is_notice (ca_kind ca) = false ∧
      (Distributions (corporate c) !! id = None ∧ c' = c ∨
       ∃ d, Distributions (corporate c) !! id = Some d ∧
         unverified_remove_distribution agent id d c = (Ok tt, c')) ∨
    is_benefit (ca_kind ca) = false ∧ is_notice (ca_kind ca) = true ∧
      (TimeRanges (corporate c) !! id = None ∧ c' = c ∨
       ∃ r, TimeRanges (corporate c) !! id = Some r ∧ remove_ballot_base agent id r c = (Ok tt, c')) ∨
    is_benefit (ca_kind ca) = false ∧ is_notice (ca_kind ca) = false ∧ c' = c) as Hcase.
  { destruct (ca_kind ca); ok_inv; [left|left|right; left|by right; right|by right; right];
      split_and!; try done.
    all: match goal with H : match ?o with _ => _ end _ = _ |- _ =>
           destruct o eqn:?; [right; eauto|left; by ok_inv] end. }
  destruct Hcase as [(Hb & Hn & Hd)|[(Hb & Hn & Hr)|(Hb & Hn & ->)]].
  - pose proof (no_ballot _ _ _ _ Hx Hca Hn) as Hnb. destruct Hd as [[Hd ->]|(d & Hd & Hrm)].
    + split_and!; [by apply call_kept_refl|done..].
    + split; [by eapply remove_distribution_kept|].
      apply remove_distribution_inv in Hrm as (w' & e & -> & _). simpl. by rewrite lookup_delete_eq.
  - pose proof (no_distribution _ _ _ _ Hx Hca Hb) as Hnd. destruct Hr as [[Hr ->]|(r & Hr & Hrm)].
    + split_and!; [by apply call_kept_refl|done..].
    + split; [by eapply remove_ballot_kept|].
      apply remove_ballot_inv in Hrm as (e & -> & _). simpl. by rewrite lookup_delete_eq.
  - split_and!; [by apply call_kept_refl|done|by eapply no_distribution|by eapply no_ballot].
Qed.

Lemma dec_around id rd w w' :
  (∀ t id, has_schedule w t id → id ≤ last_schedule w t) →
  dec_strong_ref_count id rd w = (Ok tt, w') → around_dates w w'.
Proof.
  intros Hs (Ha & Hl & Hsc & _)%dec_strong_ref_count_Ok.
  constructor; [apply Ha|intros t; by rewrite Hl|apply Checkpoint.quiet_history, Ha|].
  intros t sid H%Hsc. rewrite Hl. by apply Hs.
Qed.

(** What is left of the counts after a date was given up. *)
Lemma dec_others w s id ca w' t sid :
  corporate_ok w s → CorporateActions s !! id = Some ca →
  dec_strong_ref_count id (record_date ca) w = (Ok tt, w') →
  others s id t sid ≤ schedule_refs w' t sid.
Proof.
  intros Hok Hca (_ & _ & _ & Hr)%dec_strong_ref_count_Ok. rewrite Hr.
  destruct (others_bound _ _ id t sid Hok) as [Hle _]. rewrite Hca in Hle. simpl in Hle.
  rewrite refers_one_ref in Hle. lia.
Qed.

Lemma remove_ca_kept o id c c' : chain_ok c → remove_ca o id c = (Ok tt, c') → call_kept c c'.
Proof.
  intros Hok H. unfold remove_ca, ensure_ca_exists in H.
  apply SE_bind_Ok in H as (agent & ? & [_ ->]%lift_check_Ok & H).
  apply SE_bind_Ok in H as (ca & ? & [Hca ->]%check_Ok & H). apply ok_or_Ok in Hca.
  apply SE_bind_Ok in H as ([] & c1 & Hrm & H).
  apply remove_services_kept in Hrm as (Hk & Er & Hd & Hb); [|done|done].
  eapply call_kept_trans; [exact Hk|]. destruct Hk as [[Hok1 _] _]. injection Er as Ea Eq _ _.
  rewrite <- Ea in Hca. pose proof (ch_corporate _ Hok1) as Hx.
  apply SE_bind_Ok in H as ([] & ? & (w2 & Hdec & ->)%lift_Ok & H).
  pose proof (dec_around _ _ _ _ (co_schedules _ _ Hx) Hdec) as Had.
  pose proof (λ t sid, dec_others _ _ _ _ _ t sid Hx Hca Hdec) as Hoth.
  apply dec_strong_ref_count_Ok in Hdec as (Ha & _). corporate_inv.
  apply kept_beside; [done| |done|done|].
  { simpl. etrans; [exact Ha|apply aside_events]. }
  apply (corporate_ok_events w2), (corporate_ok_put (world c1) w2 (corporate c1) _ id); try done; simpl.
  - intros t. pose proof (co_sequence _ _ Hx t). lia.
  - intros id' Hne. by rewrite lookup_delete_ne.
  - intros t sid. rewrite lookup_delete_eq. simpl. rewrite N.add_0_r. apply Hoth.
  - intros ca'. by rewrite lookup_delete_eq.
  - intros d Hd'. by rewrite Hd in Hd'.
  - intros r Hr. by rewrite Hb in Hr.
Qed.

(** The services of an action with a new date. *)
Lemma services_allow_served w id ca c :
  corporate_ok w (corporate c) →
  (∃ ca0, CorporateActions (corporate c) !! id = Some ca0 ∧ ca_kind ca0 = ca_kind ca) →
  ensure_services_allow id ca c = Ok tt →
  (∀ d, Distributions (corporate c) !! id = Some d →
     is_benefit (ca_kind ca) = true ∧ ∃ rd, record_date ca = Some rd ∧ date rd ≤ payment_at d) ∧
  (∀ r, TimeRanges (corporate c) !! id = Some r →
     is_notice (ca_kind ca) = true ∧ ∃ rd, record_date ca = Some rd ∧ date rd ≤ range_start r).
Proof.
  intros Hx (ca0 & Hca & Ek) H. split.
  - intros d Hd. destruct (is_benefit (ca_kind ca)) eqn:Hb.
    + split; [done|]. apply record_date_before_start_Ok. unfold ensure_services_allow in H.
      destruct (ca_kind ca); try done; rewrite Hd in H; by ok_inv.
    + rewrite <- Ek in Hb. by rewrite (no_distribution _ _ _ _ Hx Hca Hb) in Hd.
  - intros r Hr. destruct (is_notice (ca_kind ca)) eqn:Hb.
    + split; [done|]. apply record_date_before_start_Ok. unfold ensure_services_allow in H.
      destruct (ca_kind ca); try done; rewrite Hr in H; by ok_inv.
    + rewrite <- Ek in Hb. by rewrite (no_ballot _ _ _ _ Hx Hca Hb) in Hr.
Qed.

Lemma change_record_date_kept o id spec c c' :
  chain_ok c → change_record_date o id spec c = (Ok tt, c') → call_kept c c'.
Proof.
  intros Hok H. unfold change_record_date, ensure_ca_exists in H. pose proof (ch_corporate _ Hok) as Hx.
  apply SE_bind_Ok in H as (caller & ? & [_ ->]%lift_check_Ok & H).
  apply SE_bind_Ok in H as (ca & ? & [Hca ->]%check_Ok & H). apply ok_or_Ok in Hca.
  apply SE_bind_Ok in H as (ca' & c2 & Htr & H). rewrite with_transaction_Ok in Htr.
  apply SE_bind_Ok in Htr as ([] & ? & (w1 & Hdec & ->)%lift_Ok & Htr).
  apply SE_bind_Ok in Htr as (rd & ? & (w2 & Hrd & ->)%lift_Ok & Htr).
  apply SE_bind_Ok in Htr as ([] & ? & [Hsv ->]%check_Ok & Htr). apply ret_Ok in Htr as [-> ->].
  simpl in Hrd.
  pose proof (dec_around _ _ _ _ (co_schedules _ _ Hx) Hdec) as Had1.
  pose proof (λ t sid, dec_others _ _ _ _ _ t sid Hx Hca Hdec) as Hoth.
  apply dec_strong_ref_count_Ok in Hdec as (Ha & Hl & _).
  apply (opt_record_date_dated (ca_ticker id)) in Hrd;
    [|intros; by eapply handle_record_date_dated|apply Had1].
  pose proof (dated_around _ _ _ _ (ad_schedules _ _ Had1) Hrd) as Had2.
  assert (around_dates (world c) w2) as Had.
  { destruct Had1 as [N1 L1 H1 _], Had2 as [N2 L2 H2 S2].
    constructor; [congruence|intros t; specialize (L1 t); specialize (L2 t); lia|by etrans|done]. }
  apply (services_allow_served (world c)) in Hsv as [Hd Hb]; [|done|by exists ca].
  simpl in Hd, Hb. corporate_inv. apply kept_beside; [done| |done|done|].
  { simpl. etrans; [exact Ha|]. etrans; [apply Hrd|apply aside_events]. }
  apply (corporate_ok_events w2), (corporate_ok_put (world c) w2 (corporate c) _ id); try done; simpl.
  - intros t. pose proof (co_sequence _ _ Hx t). lia.
  - intros id' Hne. by rewrite lookup_insert_ne.
  - intros t sid. rewrite lookup_insert_eq. simpl. rewrite refers_one_ref. simpl.
    apply (dt_refs _ _ _ _ Hrd); [apply Hoth|rewrite Hl; by apply (others_bound _ _ id t sid Hx)|].
    intros E. apply (references_room (world c)); [done|done|]. rewrite <- E.
    apply (ao_id _ _ _ _ (co_actions _ _ Hx id ca Hca)).
  - intros ca'. rewrite lookup_insert_eq. intros [= <-].
    destruct (co_actions _ _ Hx id ca Hca) as [A1 A2 A3 A4]. constructor; simpl; try done. apply Hrd.
  - intros d Hd'. destruct (Hd d Hd') as (Hk & rd' & Hr & Hle). eexists _, rd'. simpl.
    rewrite lookup_insert_eq. by split_and!.
  - intros r Hr'. destruct (Hb r Hr') as (Hk & rd' & Hr & Hle). eexists _, rd'. simpl.
    rewrite lookup_insert_eq. by split_and!.
Qed.

Lemma initiate_and_distribute_kept o args p cur share amount payment expires c c' :
  chain_ok c →
  initiate_corporate_action_and_distribute o args p cur share amount payment expires c = (Ok tt, c') →
  call_kept c c'.
Proof.
  intros Hok H. unfold initiate_corporate_action_and_distribute in H.
  apply SE_bind_Ok in H as (data & ? & [_ ->]%lift_check_Ok & H). rewrite with_transaction_Ok in H.
  apply SE_bind_Ok in H as (id & c1 & Hi & Hd). apply initiate_kept in Hi as Hk; [|done].
  eapply call_kept_trans; [done|]. eapply distribute_kept; [apply Hk|done].
Qed.

(** Every call keeps the invariant. *)
Lemma corporate_kept o call c c' :
  chain_ok c → Portfolio.balances_fit (portfolio (world c')) →
  CorporateCalls.dispatch o call c = (Ok tt, c') → call_kept c c'.
Proof.
  intros Hok Hf H. destruct call; simpl in H.
  - by eapply set_max_details_length_kept.
  - by eapply set_default_targets_kept.
  - by eapply set_default_withholding_tax_kept.
  - by eapply set_did_withholding_tax_kept.
  - unfold initiate_corporate_action in H. apply SE_bind_Ok in H as (d & ? & [_ ->]%lift_check_Ok & H).
    apply SE_bind_Ok in H as (id & c1 & Hi & [_ ->]%ret_Ok). by eapply initiate_kept.
  - by eapply link_ca_doc_kept.
  - by eapply remove_ca_kept.
  - by eapply change_record_date_kept.
  - by eapply initiate_and_distribute_kept.
  - unfold base_distribute in H. apply SE_bind_Ok in H as (d & ? & [_ ->]%lift_check_Ok & H).
    by eapply distribute_kept.
  - unfold claim in H. apply SE_bind_Ok in H as (d & ? & [_ ->]%lift_check_Ok & H).
    by eapply transfer_benefit_kept.
  - unfold push_benefit in H. apply SE_bind_Ok in H as (d & ? & [_ ->]%lift_check_Ok & H).
    by eapply transfer_benefit_kept.
  - by eapply reclaim_kept.
  - unfold remove_distribution, ensure_distribution_exists in H.
    apply SE_bind_Ok in H as (d & ? & [_ ->]%lift_check_Ok & H).
    apply SE_bind_Ok in H as (dist & ? & [Hd ->]%check_Ok & H). apply ok_or_Ok in Hd.
    by eapply remove_distribution_kept.
  - by eapply attach_ballot_kept.
  - by eapply vote_kept.
  - by eapply change_end_kept.
  - by eapply change_meta_kept.
  - by eapply change_rcv_kept.
  - unfold remove_ballot, ensure_ballot_exists in H.
    apply SE_bind_Ok in H as (d & ? & [_ ->]%lift_check_Ok & H).
    apply SE_bind_Ok in H as (range & ? & [Hr ->]%check_Ok & H). apply ok_or_Ok in Hr.
    by eapply remove_ballot_kept.
Qed.
End steps.

(* ------------------------------------------------------------------ *)
(** ** What is never undone *)

(** A computation that forgets no payment and leaves the fundraisers alone. *)
Definition remembers {A : Type} (m : C A) : Prop := ∀ c,
  sto (m c).2 = sto c ∧
  ∀ k, HolderPaid (corporate c) !! k = Some true → HolderPaid (corporate (m c).2) !! k = Some true.

Lemma remembers_bind {A B} (m : C A) (f : A → C B) :
  remembers m → (∀ a, remembers (f a)) → remembers (m ≫= f).
Proof.
  intros Hm Hf c. unfold mbind, SE_bind. destruct (Hm c) as [E Hp].
  destruct (m c) as [[a|e] c1]; simpl in *; [|done]. destruct (Hf a c1) as [E' Hp'].
  split; [congruence|auto].
Qed.
Lemma remembers_lift {A} (m : M A) : remembers (lift m).
Proof. intros c. unfold lift. by destruct (m (world c)). Qed.
Lemma remembers_check {A} (f : Chain → result DispatchError A) : remembers (check f).
Proof. by intros c. Qed.
Lemma remembers_gets {A} (f : Chain → A) : remembers (gets f).
Proof. by intros c. Qed.
Lemma remembers_ret {A} (a : A) : remembers (mret a).
Proof. by intros c. Qed.
Lemma remembers_transaction {A} (m : C A) : remembers m → remembers (with_transaction m).
Proof. intros Hm c. unfold with_transaction. specialize (Hm c). by destruct (m c) as [[]]. Qed.
Lemma remembers_records f : (∀ s, HolderPaid (f s) = HolderPaid s) → remembers (on_corporate f).
Proof. intros Hf c. split; [done|]. simpl. by rewrite Hf. Qed.
Lemma remembers_paid k : remembers (on_corporate (λ s, s <| HolderPaid ::= <[k := true]> |>)).
Proof.
  intros c. split; [done|]. intros k' Hk. simpl. rewrite lookup_insert. by case_decide.
Qed.

Ltac remember_all :=
  intros; cbv beta zeta;
  lazymatch goal with
  | |- remembers (_ ≫= _) => apply remembers_bind; [remember_all|intros; remember_all]
  | |- remembers (lift _) => apply remembers_lift
  | |- remembers (check _) => apply remembers_check
  | |- remembers (gets _) => apply remembers_gets
  | |- remembers (mret _) => apply remembers_ret
  | |- remembers (with_transaction _) => apply remembers_transaction; remember_all
  | |- remembers (on_corporate _) => first [apply remembers_paid|by apply remembers_records]
  | |- remembers (match ?x with _ => _ end) => destruct x; remember_all
  | |- remembers ?m => let h := head_of m in progress unfold h; remember_all
  end.

Lemma corporate_remembers {RT : Runtime} {EX : Externals} {CC : CorporateConfig} o call :
  remembers (CorporateCalls.dispatch o call).
Proof. destruct call; remember_all. Qed.
End CorporateSteps.
