(* ===== verification/Chain.v ===== *)
(** The chain as a transition system: the calls of all the pallets and the
    surroundings, the states that can be reached, and what holds in them. *)

From stdpp Require Import base numbers list gmap sets strings sorting relations.
From S2P Require Import Prelude Subset AssetIdentifier Types SettlementTypes Schedules StoTypes.
From S2P Require Import CorporateTypes State ChainState Identity Agents Portfolio Checkpoint Asset.
From S2P Require Import Nft Metadata Ledger Settlement SettlementInv SettlementAdd Execution System.
From S2P Require Import Fundraising Corporate Clock BallotInv CorporateInv FundraisingInv.
From S2P Require Import CorporateSteps.

Local Open Scope N_scope.

Module Chain.
Import Settlement SettlementInv SettlementAdd Execution System Fundraising Clock CorporateInv.
Import CorporateSteps.
Export FundraisingInv.

Section chain.
Context {RT : Runtime} {EX : Externals} {SC : SettlementConfig} {CC : CorporateConfig}.

(** A step of the books, settlement or the surroundings, or a call of the
    fundraisers or the corporate actions that succeeds; the maps that are counted
    fit the machine, also while an investment has its instruction open. *)
Inductive chain_step : Chain → Chain → Prop :=
  | chain_world w w' s x : step w w' → chain_step (mkChain w s x) (mkChain w' s x)
  | chain_sto o call c c' :
      Fundraising.dispatch o call c = (Ok tt, c') → room (world c) → storage_fits (world c') →
      chain_step c c'
  | chain_corporate o call c c' :
      CorporateCalls.dispatch o call c = (Ok tt, c') → storage_fits (world c') → chain_step c c'.

Lemma step_later w w' : step w w' → later w w'.
Proof.
  intros H. destruct H as [o c w w' H _|w b n e m a i x Hn].
  - apply steady_later. pose proof (dispatch_keeps o c w) as Hk. by rewrite H in Hk.
  - constructor; simpl; auto.
Qed.

Lemma dispatch_kept o call c c' :
  chain_ok c → room (world c) → storage_fits (world c') →
  Fundraising.dispatch o call c = (Ok tt, c') → call_kept c c'.
Proof.
  intros Hok Hr Hf H. destruct call; simpl in H.
  - by eapply create_kept.
  - eapply invest_kept; [done|done|apply Hf|done].
  - by eapply modified_kept, set_frozen_modified.
  - by eapply modified_kept, set_frozen_modified.
  - by eapply modified_kept, modify_window_modified.
  - by eapply stop_kept.
Qed.

(** The calls of the pallets beside the world. *)
Lemma call_step_kept c c' :
  chain_ok c → chain_step c c' →
  call_kept c c' ∧ storage_fits (world c') ∨ 
  ∃ w', step (world c) w' ∧ c' = c <| world := w' |>.
Proof.
  intros Hok H. destruct H as [w w' s x H|o call c c' H Hr Hf'|o call c c' H Hf'].
  - right. by exists w'.
  - left. split; [by eapply dispatch_kept|done].
  - left. split; [|done]. eapply corporate_kept; [done|apply Hf'|done].
Qed.

Lemma chain_step_kept c c' :
  chain_ok c → storage_fits (world c) → chain_step c c' →
  chain_kept c c' ∧ storage_fits (world c').
Proof.
  intros Hok Hf [[[Hk _] Hf']|(w' & H & ->)]%call_step_kept; [done| |done].
  pose proof (step_catalog_ok (RS := promises c) _ w' (ch_system _ Hok) Hf H (ch_catalog _ Hok)) as Hc.
  destruct (step_kept (RS := promises c) _ w' (ch_system _ Hok) Hf H) as [(Hsys & Hh & Hrc) Hf'].
  split; [|done]. split_and!; [|done|done]. constructor; [done|apply Hok|done|].
  eapply corporate_ok_later; [apply Hok|by apply step_later|done].
Qed.

Lemma chain_step_locked c c' t k :
  chain_ok c → storage_fits (world c) → chain_step c c' →
  Metadata.is_asset_metadata_locked t k (world c) = true →
  AssetMetadataValues (asset (world c')) !! (t, k) = AssetMetadataValues (asset (world c)) !! (t, k) ∧
  AssetMetadataValueDetails (asset (world c')) !! (t, k) =
    AssetMetadataValueDetails (asset (world c)) !! (t, k).
Proof.
  intros Hok Hf H Hl. apply call_step_kept in H as [[(_ & _ & E & _) _]|(w' & H & ->)]; [..|done].
  - by injection E as _ _ -> -> _ _ _ _ _ _ _ _.
  - by apply (step_locked (RS := promises c) _ w' t k (ch_system _ Hok)).
Qed.

(** Time passes, and payments are not forgotten. *)
Lemma chain_step_paid c c' k :
  chain_step c c' → HolderPaid (corporate c) !! k = Some true →
  HolderPaid (corporate c') !! k = Some true.
Proof.
  intros H Hk. destruct H as [w w' s x H|o call c c' H _ _|o call c c' H _]; [done|..].
  - destruct (fundraising_keeps o call c) as [_ E]. rewrite H in E. simpl in E. by rewrite E.
  - pose proof (corporate_remembers o call c) as [_ Hp]. rewrite H in Hp. by apply Hp.
Qed.

Lemma chain_kept_refl c : chain_ok c → chain_kept c c.
Proof. intros Hok. split_and!; [done|done|by apply receipts_kept_same]. Qed.

Lemma chain_kept_trans c1 c2 c3 : chain_kept c1 c2 → chain_kept c2 c3 → chain_kept c1 c3.
Proof.
  intros (_ & H1 & R1) (H2 & H3 & R2). split_and!; [done|by etrans|]. intros k Hk. by apply R2, R1.
Qed.

Lemma chain_steps_kept c c' :
  chain_ok c → storage_fits (world c) → rtc chain_step c c' →
  chain_kept c c' ∧ storage_fits (world c').
Proof.
  intros Hok Hf H. revert Hok Hf. induction H as [c|c1 c2 c3 H12 _ IH]; intros Hok Hf.
  - split; [by apply chain_kept_refl|done].
  - destruct (chain_step_kept _ _ Hok Hf H12) as [Hk Hf2]. destruct (IH (proj1 Hk) Hf2) as [Hk' ?].
    split; [by eapply chain_kept_trans|done].
Qed.

Lemma chain_steps_paid c c' k :
  rtc chain_step c c' → HolderPaid (corporate c) !! k = Some true →
  HolderPaid (corporate c') !! k = Some true.
Proof. induction 1 as [|c1 c2 c3 H _ IH]; [done|]. intros Hk. by eapply IH, chain_step_paid. Qed.

Definition empty_sto : StoStore := mkStoStore ∅ ∅ ∅.
Definition empty_corporate : CorporateStore :=
  mkCorporateStore 0 ∅ ∅ ∅ ∅ ∅ ∅ ∅ ∅ ∅ ∅ ∅ ∅ ∅ ∅ ∅.

(** The states that can be reached from the empty chain. *)
Definition reachable (c : Chain) : Prop :=
  ∃ keys, rtc chain_step (mkChain (empty_world keys) empty_sto empty_corporate) c.

Lemma empty_corporate_ok w :
  ScheduledCheckpoints (checkpoint w) = ∅ → corporate_ok w empty_corporate.
Proof.
  intros E. constructor; try exact (map_Forall_empty _); try done.
  - intros t id [x Hx]. by rewrite E, lookup_empty in Hx.
  - intros t sid. unfold references. simpl. rewrite msum_empty. lia.
Qed.

Lemma empty_chain_ok keys : chain_ok (mkChain (empty_world keys) empty_sto empty_corporate).
Proof.
  constructor; simpl.
  - apply (system_ok_less nothing_reserved); [|apply empty_system_ok]. intros k.
    unfold promises, offers, allotments. simpl. by rewrite !msum_empty.
  - apply map_Forall_empty.
  - apply Metadata.empty_catalog_ok.
  - by apply empty_corporate_ok.
Qed.

Lemma reachable_ok c : reachable c → chain_ok c ∧ storage_fits (world c).
Proof.
  intros [keys H]. destruct (chain_steps_kept _ _ (empty_chain_ok keys) (proj2 (empty_system_ok keys)) H)
    as [[Hok _] Hf]. done.
Qed.

Lemma reachable_step c c' : reachable c → rtc chain_step c c' → reachable c'.
Proof. intros [keys H] H'. exists keys. by etrans. Qed.
End chain.
End Chain.
