(* ===== verification/Sample.v ===== *)
(** A concrete chain for the witnesses: the constants of the mainnet runtime,
    neighbours that accept everything, and runs of calls from the empty chain.

    The chain has an asset with a supply of 1000, a checkpoint, an NFT
    collection with two NFTs, a venue, and one instruction that moves 100 of
    the asset and one NFT from identity 1 to identity 2 against an off-chain
    leg from 2 to 1. *)

From stdpp Require Import base numbers list gmap sets strings sorting relations.
From S2P Require Import Prelude Subset AssetIdentifier Types SettlementTypes Schedules State.
From S2P Require Import Identity Agents Portfolio Checkpoint Asset Nft Ledger Settlement.
From S2P Require Import SettlementInv SettlementAdd Execution System ChainState Fundraising.
From S2P Require Import Corporate FundraisingInv Chain.

Local Open Scope N_scope.

(** src/pallets/runtime/mainnet/src/runtime.rs. *)
Definition sample_runtime : Runtime := {|
  MaxLen := 2048;
  AssetNameMaxLength := 128;
  FundingRoundNameMaxLength := 128;
  AssetMetadataNameMaxLength := 256;
  AssetMetadataValueMaxLength := 8192;
  AssetMetadataTypeDefMaxLength := 8192;
  MaxAssetMediators := 4;
  MaxNumberOfFungibleAssets := 10;
  MaxNumberOfNFTsPerLeg := 10;
  MaxNumberOfNFTs := 100;
  MaxNumberOfOffChainAssets := 10;
  MaxNumberOfVenueSigners := 50;
  MaxInstructionMediators := 4;
  MaxNumberOfNFTsCount := 10;
  MaxNumberOfCollectionKeys := 255;
|}.

Definition accepts {A : Type} (a : A) : Ext A := λ w, (Ok a, (rest w, meter w)).

Definition sample_externals : Externals := {|
  charge_fees := λ _, accepts tt;
  batch_charge_fee := λ _ _, accepts tt;
  get_token_did := λ _, 0;
  ensure_token_did_fresh := λ _ _, Ok tt;
  commit_token_did := λ _ w, rest w;
  verify_transfer_restrictions := λ _ _ _ _ _ _ _, accepts tt;
  update_asset_stats := λ _ _ _ _ _ _, accepts tt;
  is_compliant := λ _ _ _, accepts true;
|}.

Definition sample_settlement : SettlementConfig := {|
  w_execute_instruction_paused := λ f n o, mkWeight (10 + f + n + o) 0;
  w_execute_scheduled_instruction := λ f n o, mkWeight (20 + f + n + o) 0;
  w_execute_manual_instruction := λ f n o, mkWeight (20 + f + n + o) 0;
  frame_check_accrue := λ m w,
    if bool_decide (ref_time (consumed_weight m) + ref_time w ≤ ref_time (weight_limit m))
    then Some (m <| consumed_weight :=
                 mkWeight (ref_time (consumed_weight m) + ref_time w) 0 |>)
    else None;
  verify_signature := λ sig r _, bool_decide (sig = r_uid r);
  schedule_named := λ id b limit w,
    if has_key (agenda w) id then None else Some (<[id := (b, limit)]> (agenda w));
  cancel_named := λ id w, if has_key (agenda w) id then Some (delete id (agenda w)) else None;
|}.

(** [Permill] of a whole, rounded down. *)
Definition sample_corporate : CorporateConfig.
Proof.
  refine {| MaxTargetIds := 1000; MaxDidWhts := 1000;
            permill_mul := λ tax b, N.min b (tax * b / 1000000) |}.
  intros tax b. apply N.le_min_l.
Defined.

Module Sample.
Import SettlementInv Execution System Chain.

#[local] Existing Instances sample_runtime sample_externals sample_settlement sample_corporate.

(** The sizes of the storage, checked. *)
Definition fits (w : World) : bool :=
  bool_decide (N.of_nat (size (PortfolioAssetBalances (portfolio w))) ≤ u64_max) &&
  bool_decide (map_Forall (λ _ n, n < u64_max) (NextPortfolioNumber (portfolio w))) &&
  bool_decide (affirmations_fit (settlement w)).

Lemma fits_sound w : fits w = true → storage_fits w.
Proof.
  unfold fits. intros [[H1%bool_decide_eq_true_1 H2%bool_decide_eq_true_1]%andb_true_iff
    H3%bool_decide_eq_true_1]%andb_true_iff.
  constructor; [|done]. split; [done|]. intros d. unfold getd.
  destruct (NextPortfolioNumber (portfolio w) !! d) as [n|] eqn:Hn; [|done].
  by apply (H2 d n Hn).
Qed.

(** Runs a list of calls; every one has to succeed. *)
Fixpoint run (cs : list (Origin * call)) (w : World) : option World :=
  match cs with
  | [] => Some w
  | (o, c) :: cs =>
      match dispatch o c w with
      | (Ok _, w') => if fits w' then run cs w' else None
      | (Err _, _) => None
      end
  end.

Lemma run_steps cs w w' : run cs w = Some w' → rtc step w w'.
Proof.
  revert w. induction cs as [|[o c] cs IH]; intros w; simpl; [by intros [= <-]|].
  destruct (dispatch o c w) as [[[]|] w1] eqn:Hd; [|done].
  destruct (fits w1) eqn:Hf; [|done]. intros Hr.
  eapply rtc_l; [|by apply IH]. apply (step_call o c); [done|by apply fits_sound].
Qed.

Definition after (cs : list (Origin * call)) : World := default sample_world (run cs sample_world).

Definition runs (cs : list (Origin * call)) : bool :=
  if run cs sample_world then true else false.

Lemma after_run cs : runs cs = true → run cs sample_world = Some (after cs).
Proof. unfold runs, after. by destruct (run cs sample_world). Qed.

(** The calls leave the fundraisers and the corporate actions alone. *)
Lemma chain_steps w w' s x : rtc step w w' → rtc chain_step (mkChain w s x) (mkChain w' s x).
Proof. induction 1 as [w|w1 w2 w3 H _ IH]; [done|]. eapply rtc_l; [by apply chain_world|done]. Qed.

(** The chain after the calls, with no fundraiser and no corporate action. *)
Definition chain_after (cs : list (Origin * call)) : Chain :=
  mkChain (after cs) empty_sto empty_corporate.

Lemma after_reachable cs : runs cs = true → reachable (chain_after cs).
Proof. intros H%after_run. exists sample_keys. by apply chain_steps, (run_steps cs). Qed.

#[local] Existing Instance nothing_reserved.
Lemma sample_ok cs : runs cs = true → system_ok (after cs) ∧ storage_fits (after cs).
Proof.
  intros H%after_reachable%reachable_ok. destruct H as [[Hok _ _ _] Hf]. split; [|done].
  apply (system_ok_less (promises (chain_after cs))); [done|done].
Qed.

Lemma run_app cs cs' w : run (cs ++ cs') w = run cs w ≫= run cs'.
Proof.
  revert w. induction cs as [|[o c] cs IH]; intros w; simpl; [done|].
  destruct (dispatch o c w) as [[] w1]; [|done]. destruct (fits w1); [apply IH|done].
Qed.

Lemma after_steps cs cs' : runs (cs ++ cs') = true → rtc step (after cs) (after (cs ++ cs')).
Proof.
  intros H%after_run. rewrite run_app in H.
  destruct (run cs sample_world) as [w|] eqn:Hw; [|done]. simpl in H.
  assert (after cs = w) as -> by (unfold after; by rewrite Hw). by apply (run_steps cs').
Qed.

Lemma chain_after_steps cs cs' :
  runs (cs ++ cs') = true → rtc chain_step (chain_after cs) (chain_after (cs ++ cs')).
Proof. intros H. by apply chain_steps, after_steps. Qed.

(** A successful call, by its outcome. *)
Lemma run_call {A} (m : C A) c a : (m c).1 = Ok a → m c = (Ok a, (m c).2).
Proof. by destruct (m c) as [r c'] eqn:E; intros [= ->]. Qed.

Definition acme : Ticker := [65; 67; 77; 69].
Definition art : Ticker := [65; 82; 84].
Definition usd : Ticker := [85; 83; 68].
Definition pf (d : IdentityId) : PortfolioId := mkPortfolioId d Default.

Definition sample_legs : list Leg :=
  [Fungible (pf 1) (pf 2) acme 100; NonFungibleLeg (pf 1) (pf 2) (mkNFTs art [1]);
   OffChain 2 1 usd 50].

Definition sample_receipt : ReceiptDetails := mkReceiptDetails 7 1 2 9 7 None.

Definition setup : list (Origin * call) :=
  [(Signed 1, CallAsset (Asset.CreateAsset acme acme true EquityCommon [] None));
   (Signed 1, CallAsset (Asset.Issue acme 1000 Default));
   (Signed 1, CallCheckpoint (Checkpoint.CreateCheckpoint acme));
   (Signed 1, CallNft (Nft.CreateNftCollection art (Some NFDerivative) []));
   (Signed 1, CallNft (Nft.IssueNft art [] Default));
   (Signed 1, CallNft (Nft.IssueNft art [] Default));
   (Signed 1, CallSettlement (Settlement.CreateVenue [] [9] VenueOther))].

Definition added : list (Origin * call) :=
  setup ++ [(Signed 1, CallSettlement (Settlement.AddInstruction 1 SettleOnAffirmation None None
                         sample_legs None))].

Definition affirmed_by_sender : list (Origin * call) :=
  added ++ [(Signed 1, CallSettlement (Settlement.AffirmInstruction 1 [pf 1] None))].

Definition affirmed_by_all : list (Origin * call) :=
  affirmed_by_sender ++
    [(Signed 2, CallSettlement (Settlement.AffirmWithReceipts 1 [sample_receipt] [pf 2] None))].

Definition settled : list (Origin * call) :=
  affirmed_by_all ++
    [(Root, CallSettlement (Settlement.ExecuteScheduledInstruction 1 (mkWeight 1000 0)))].
End Sample.
