(* ===== verification/RuleSample.v ===== *)
(** The concrete chain of the witnesses, continued: the constants and weights
    of the rules' pallets, identities with records, an asset with a compliance
    requirement and a limit of investors, and a group of CDD providers. *)

From stdpp Require Import base numbers list gmap sets strings.
From S2P Require Import Prelude Subset AssetIdentifier Types ClaimTypes SettlementTypes Schedules.
From S2P Require Import State Identity Metering Claims Keys KeysInv Agents Portfolio Checkpoint.
From S2P Require Import Asset Sorting Compliance Statistics Restrictions System Sample.

Local Open Scope N_scope.

Definition sample_fees : Fees := {|
  charge_protocol_fees := λ _ w, (Ok tt, elsewhere (rest w));
  batch_charge_protocol_fee := λ _ _ w, (Ok tt, elsewhere (rest w));
|}.

Definition sample_identity : IdentityConfig := {|
  is_multisig := λ _ _, false;
  total_balance := λ _ _, 0;
  MultiSigBalanceLimit := 1;
  deposit_initial := λ _ w, elsewhere (rest w);
  Keys.verify_signature := λ _ _ _, true;
  hash_did := λ b n, 1000 + b * (u64_max + 1) + n;
  token_did := λ t, 500 + N.of_nat (length t);
|}.

(** A meter on the reference time alone. *)
Definition sample_meter : FrameMeter := {|
  Metering.check_accrue := λ c l w,
    if bool_decide (ref_time c + ref_time w ≤ ref_time l)
    then Some (mkWeight (ref_time c + ref_time w) 0) else None;
|}.

Definition sample_compliance : ComplianceConfig := {|
  MaxConditionComplexity := 50;
  weight_is_condition_satisfied := λ c i, mkWeight (1 + c + i) 0;
  weight_is_identity_condition := λ a, mkWeight (1 + a) 0;
|}.

Definition sample_statistics : StatisticsConfig := {|
  MaxStatsPerAsset := 10;
  MaxTransferConditionsPerAsset := 4;
  permill_from_rational := λ p q, if bool_decide (q = 0) then 1000000 else N.min 1000000 (p * 1000000 / q);
  weight_active_asset_statistics_load := λ n, mkWeight n 0;
  weight_update_asset_balance_stats := λ n, mkWeight n 0;
  weight_update_asset_count_stats := λ n, mkWeight n 0;
  weight_max_investor_count_restriction := λ n, mkWeight n 0;
  weight_claim_count_restriction_no_stats := λ n, mkWeight n 0;
  weight_claim_count_restriction_with_stats := mkWeight 1 0;
  weight_max_investor_ownership_restriction := mkWeight 1 0;
  weight_claim_ownership_restriction := λ n, mkWeight n 0;
  weight_is_exempt := mkWeight 1 0;
|}.

Module RuleSample.
Import Sample.
#[export] Existing Instances sample_runtime sample_fees sample_identity sample_meter
  sample_compliance sample_statistics.

Definition final {A : Type} (m : M A) (w : World) : World := (m w).2.

(** The identities 1 to 4 have records, and 1 is a CDD provider. *)
Definition with_identities (w : World) : World :=
  w <| rest ::= λ r, r <| records ::= λ s, s
         <| DidRecords := list_to_map ((λ n, (n, Some n)) <$> [1; 2; 3; 4]) |>
         <| DidKeys := list_to_map ((λ n, ((n, n), true)) <$> [1; 2; 3; 4]) |> |>
       <| groups := {[CddServiceProviders := mkGroupStore [1] [] 20]} |> |>.

Definition kyc : ClaimTypes.Claim := KnowYourCustomer (ScopeTicker acme).
(** Who receives ACME needs to be known to identity 3. *)
Definition known_to_3 : Condition := mkCondition (IsPresent kyc) [mkTrustedIssuer 3 TrustedAny].

(** The asset of the sample, with this requirement. *)
Definition issued : World := with_identities (after setup).
Definition ruled : World :=
  final (Compliance.dispatch (Signed 1) (Compliance.AddComplianceRequirement acme [] [known_to_3]))
    issued.
(** Identity 3 knows identity 2. *)
Definition attested_2 : World := final (Claim.add_claim (Signed 3) 2 kyc None) ruled.

(** An asset without balances whose investors are counted, with a limit of one;
    [counted] is after 1000 units were issued. *)
Definition count_stat : StatType := mkStatType OpCount None.
Definition created : list (Origin * System.call) :=
  [(Signed 1, System.CallAsset (Asset.CreateAsset acme acme true EquityCommon [] None))].
Definition limited : World :=
  (with_identities (after created))
    <| rest ::= λ r, r <| statistics ::= λ s, s
         <| ActiveAssetStats := {[acme := {[count_stat]}]} |>
         <| AssetTransferCompliances :=
              {[acme := mkAssetTransferCompliance false {[MaxInvestorCount 1]}]} |> |> |>.
Definition counted : World :=
  final (Asset.dispatch (EX := modelled_externals) (Signed 1) (Asset.Issue acme 1000 Default)) limited.

(** A chain with one identity, 1, which is a CDD provider. *)
Definition one_identity : World :=
  (empty_world {[1 := PrimaryKey 1]})
    <| rest ::= λ r, r <| records ::= λ s, s <| DidRecords := {[1 := Some 1]} |>
         <| DidKeys := {[(1, 1) := true]} |> |>
       <| groups := {[CddServiceProviders := mkGroupStore [1] [] 20]} |> |>.
End RuleSample.
