(* ===== verification/ChainProperties.v ===== *)
(** What holds of the whole chain: in every state that calls of the modelled
    pallets can reach, and from one state to every later one. *)

From stdpp Require Import base numbers list gmap sets strings sorting relations.
From S2P Require Import Prelude Subset AssetIdentifier Types SettlementTypes Schedules State.
From S2P Require Import Identity Agents Portfolio Checkpoint Asset Nft Metadata Ledger Settlement.
From S2P Require Import SettlementInv SettlementAdd Execution System CorporateTypes ChainState.
From S2P Require Import Fundraising Corporate CorporateInv FundraisingInv Chain Sample.

Local Open Scope N_scope.

Module ChainProperties.
Import Settlement SettlementInv Execution System Chain.

(** The part of the supply of a ticker that a call creates or destroys. *)
Definition issued (t : Ticker) (c : call) : Balance :=
  match c with
  | CallAsset (Asset.Issue t' amount _) => if decide (t' = t) then amount else 0
  | _ => 0
  end.
Definition redeemed (t : Ticker) (c : call) : Balance :=
  match c with
  | CallAsset (Asset.Redeem t' value) | CallAsset (Asset.RedeemFromPortfolio t' value _) =>
      if decide (t' = t) then value else 0
  | _ => 0
  end.

Section chain.
Context {RT : Runtime} {EX : Externals} {SC : SettlementConfig} {RS : Reserved}.
Context {CC : CorporateConfig}.

(** C1: the invariant of the books, settlement and what builds on them holds in
    every reachable state: the agents' counters, the portfolios' counters, names
    and custody, the checkpoint lists, supplies and balances, the NFT owners, the
    pending counts and leg states of every instruction, the tiers and ids of the
    fundraisers, the record dates, distributions and ballots of the corporate
    actions, the locks behind legs, offers and distributions, the metadata. *)
Theorem system_invariant (c : Chain) (H : reachable c) : chain_ok c.
Proof. by apply reachable_ok. Qed.

(** C5: in every reachable state the supply of a ticker is the sum of the
    balances of its holders, the balance of a holder is the sum over the
    holder's portfolios, no portfolio has more locked than it holds, and no
    supply exceeds the maximum. *)
Theorem books_balance (c : Chain) (H : reachable c) (t : Ticker) :
  let w := world c in
  Asset.supply t w = Asset.total_held (BalanceOf (asset w)) t ∧
  (∀ d, Asset.balance_of t d w =
        Asset.portfolios_held (PortfolioAssetBalances (portfolio w)) t d) ∧
  (∀ p, Portfolio.locked_assets p t w ≤ Portfolio.portfolio_asset_balances p t w) ∧
  Asset.supply t w ≤ Asset.MAX_SUPPLY.
Proof.
  apply reachable_ok in H as [[[[_ _ Hp _ [H1 H2 H3] _] _ _] _ _ _] _].
  intros w. split_and!; [done|done| |done].
  intros p. apply (Portfolio.ok_locked _ (Portfolio.ok_balances _ Hp) (p, t)).
Qed.

Lemma supply_ext t w w' :
  Tokens (asset w') = Tokens (asset w) → Asset.supply t w' = Asset.supply t w.
Proof. intros E. unfold Asset.supply. by rewrite E. Qed.

(** The calls of the asset pallet that move balances. *)
Lemma asset_supply o c t w w' :
  Asset.dispatch o c w = (Ok tt, w') →
  Asset.supply t w' + redeemed t (CallAsset c) = Asset.supply t w + issued t (CallAsset c).
Proof.
  intros H. destruct (Asset.moves_balance c) eqn:Hm.
  - destruct c; try done; simpl in H.
    + unfold Asset.issue, set_meter in H. ok_inv.
      apply Asset.mint_Ok in H as (token & Ht & _ & _ & _ & _ & EA & _).
      unfold Asset.supply. rewrite EA. simpl in *. rewrite lookup_insert.
      case_decide; [subst; rewrite Ht; simpl|]; lia.
    + unfold Asset.redeem, set_meter in H. ok_inv.
      apply Asset.base_redeem_Ok in H as (pid & token & _ & Ht & _ & Hle & _ & _ & EA & _).
      unfold Asset.supply. rewrite EA. simpl in *. rewrite lookup_insert.
      case_decide; [subst; rewrite Ht; simpl|]; lia.
    + unfold Asset.redeem_from_portfolio, set_meter in H. ok_inv.
      apply Asset.base_redeem_Ok in H as (pid & token & _ & Ht & _ & Hle & _ & _ & EA & _).
      unfold Asset.supply. rewrite EA. simpl in *. rewrite lookup_insert.
      case_decide; [subst; rewrite Ht; simpl|]; lia.
    + unfold Asset.controller_transfer, set_meter, deposit_event in H. ok_inv.
      match goal with H : Asset.unsafe_transfer _ _ _ _ _ _ _ _ = _ |- _ =>
        apply Asset.unsafe_transfer_Ok in H as (_ & _ & _ & _ & _ & _ & EA & _) end.
      unfold Asset.supply. simpl. rewrite EA. simpl. lia.
  - apply Asset.dispatch_administrative in H as [HS _ _ _ _ _ _ _]; [|done].
    rewrite HS. destruct c; try done; simpl; lia.
Qed.

Lemma portfolio_asset o c w w' :
  Portfolio.balances_ok (portfolio w) → Portfolio.dispatch o c w = (Ok tt, w') →
  asset w' = asset w.
Proof.
  intros Hb H.
  assert ((∃ from to funds, c = Portfolio.MovePortfolioFunds from to funds) ∨
    ∀ from to funds, c ≠ Portfolio.MovePortfolioFunds from to funds)
    as [(from & to & funds & ->)|Hno] by (destruct c; solve [left; eauto | by right]).
  - by apply Portfolio.move_portfolio_funds_Ok in H as (_ & _ & _ & _ & _ & EA & _).
  - by destruct (Portfolio.dispatch_frame o c w w' Hb H Hno) as (EA & _).
Qed.

Lemma nft_supply o c t w w' :
  Nft.dispatch o c w = (Ok tt, w') → Asset.supply t w' = Asset.supply t w.
Proof.
  intros H. destruct c; simpl in H.
  - unfold Nft.create_nft_collection, on_nft, deposit_event in H. ok_inv.
    destruct_product. ok_inv. destruct_product. ok_inv.
    match goal with H : (if ?b then _ else _) w = _ |- _ => destruct b; [|by ok_inv] end.
    unfold Asset.create_asset in *. ok_inv.
    match goal with H : Asset.unsafe_create_asset _ _ _ _ _ _ _ _ _ = _ |- _ =>
      apply Asset.unsafe_create_asset_administrative in H as [HS _ _ _ _ _ _ _] end.
    apply HS.
  - apply Nft.issue_nft_Ok in H
      as (c & pid & _ & _ & _ & _ & _ & _ & _ & _ & _ & (_ & _ & _ & _ & _ & EA & _)).
    apply supply_ext. by rewrite EA.
  - apply Nft.redeem_nft_Ok in H
      as (c & pid & _ & _ & _ & _ & _ & _ & _ & _ & _ & _ & (_ & _ & _ & _ & _ & EA & _)).
    apply supply_ext. by rewrite EA.
  - unfold Nft.controller_transfer, deposit_event in H. ok_inv.
    match goal with H : Nft.unverified_nfts_transfer _ _ _ _ = _ |- _ =>
      apply Nft.unverified_nfts_transfer_Ok in H as (_ & _ & (_ & _ & _ & _ & _ & EA & _)) end.
    apply supply_ext. simpl. by rewrite EA.
Qed.

(** only issuing creates and only redeeming destroys supply: a successful
    call changes the supply of a ticker by exactly what it issues or redeems
    of it; settlements, moves, controller transfers and all administrative
    calls keep it. *)
Theorem supply_changes (o : Origin) (c : call) (t : Ticker) (w w' : World) (Hok : system_ok w)
    (Hf : storage_fits w) (Hf' : storage_fits w') (H : dispatch o c w = (Ok tt, w')) :
  Asset.supply t w' + redeemed t c = Asset.supply t w + issued t c.
Proof.
  destruct c as [c|c|c|c|c|c|c]; simpl in H.
  - destruct (Agents.agents_dispatch_frame o c w w' H) as [(EA & _) _]. unfold Asset.supply.
    by rewrite EA.
  - enough (asset w' = asset w) as EA by (unfold Asset.supply; by rewrite EA).
    by eapply portfolio_asset; [apply (Portfolio.ok_balances _ (Ledger.ok_portfolio _ (sys_ledger _ Hok)))|].
  - destruct (Checkpoint.dispatch_quiet o c w w' H) as (_ & EA & _). unfold Asset.supply.
    by rewrite EA.
  - by eapply asset_supply.
  - rewrite (nft_supply o c t w w' H). done.
  - apply Metadata.metadata_administrative in H as [HS _ _ _ _ _ _ _]. by rewrite HS.
  - destruct (settlement_system o c w w' Hok Hf Hf' H) as (_ & _ & ET & _).
    by rewrite (supply_ext t w w' ET).
Qed.

(** C27: history is immutable: whatever calls follow, a balance read at a
    checkpoint that exists stays what it was. *)
Theorem checkpoints_immutable (c c' : Chain) (t : Ticker) (d : IdentityId) (cp : CheckpointId)
    (Hr : reachable c) (Hs : rtc chain_step c c')
    (Hcp : Checkpoint.checkpoint_exists t cp (world c) = true) :
  Checkpoint.get_balance_at t d cp (world c') = Checkpoint.get_balance_at t d cp (world c) ∧
  is_Some (Checkpoint.get_balance_at t d cp (world c)).
Proof.
  apply reachable_ok in Hr as [Hok Hf].
  destruct (chain_steps_kept _ _ Hok Hf Hs) as [(Hok' & Hh & _) _].
  destruct (Hh t cp Hcp) as [Hcp' Hv]. destruct Hok as [Hok _ _], Hok' as [Hok' _ _].
  rewrite !Checkpoint.get_balance_at_view; [|apply Hok|done|apply Hok'|done].
  split; [by rewrite Hv|by eexists].
Qed.

(** C28: a checkpoint is a snapshot: the balances read at a new checkpoint, at
    any later time, are those at its creation, and its recorded supply is the
    supply at its creation. *)
Theorem checkpoint_snapshots (o : Origin) (t : Ticker) (c c' : Chain) (w1 : World) (d : IdentityId)
    (Hr : reachable c) (H : Checkpoint.create_checkpoint o t (world c) = (Ok tt, w1))
    (Hf1 : storage_fits w1) (Hs : rtc chain_step (mkChain w1 (sto c) (corporate c)) c') :
  let cp := Checkpoint.last_cp t (world c) + 1 in
  Checkpoint.get_balance_at t d cp (world c') = Some (Asset.balance_of t d (world c)) ∧
  TotalSupply (checkpoint w1) !! (t, cp) = Some (Asset.supply t (world c)).
Proof.
  apply reachable_ok in Hr as [Hok Hf].
  assert (chain_step c (mkChain w1 (sto c) (corporate c))) as Hstep.
  { destruct c as [w s x]. by apply chain_world, (step_call o (CallCheckpoint (Checkpoint.CreateCheckpoint t))). }
  destruct (chain_step_kept _ _ Hok Hf Hstep) as [Hk _].
  apply Checkpoint.create_checkpoint_Ok in H as (Hc & _ & HT & _ & HB & HU & s & e & E).
  assert (Checkpoint.checkpoint_exists t (Checkpoint.last_cp t (world c) + 1) w1 = true) as Hex.
  { unfold Checkpoint.checkpoint_exists. rewrite Hc, !bool_decide_eq_true_2 by lia. done. }
  simpl. rewrite <- Hc in *. split; [|done].
  destruct (chain_steps_kept _ _ (proj1 Hk) Hf1 Hs) as [([Hok' _ _ _] & Hh & _) _].
  destruct (Hh t _ Hex) as [Hex' Hv].
  rewrite Checkpoint.get_balance_at_view; [|apply Hok'|done]. simpl in Hv. rewrite Hv.
  unfold Checkpoint.view. rewrite HU.
  assert (Checkpoint.ceiling (getd [] (BalanceUpdates (checkpoint (world c))) (t, d))
    (Checkpoint.last_cp t w1) = None) as ->.
  { apply Checkpoint.ceiling_None. intros x Hx.
    apply (Checkpoint.ok_bounded _ (Ledger.ok_checkpoint _ (sys_ledger _ (ch_system _ Hok)))) in Hx.
    rewrite Hc. unfold Checkpoint.last_cp. lia. }
  by rewrite E.
Qed.

(** C11: the locks of a portfolio cover everything it promised: over all
    instructions, all fundraisers that are open and all capital distributions,
    the amounts of a ticker on affirmed legs, what the tiers still offer and
    what is still to be distributed add up to no more than what the portfolio
    has locked, which is no more than what it holds; an NFT on an affirmed leg is
    locked, and no two affirmed legs send it. *)
Theorem locks_cover_affirmed_legs (c : Chain) (H : reachable c) (p : PortfolioId) (t : Ticker) :
  let w := world c in
  let pending := pending_units (InstructionLegs (settlement w))
                   (InstructionLegStatus (settlement w)) in
  pending (p, t, None) + (offers (sto c) (p, t, None) + allotments (corporate c) (p, t, None)) ≤ Portfolio.locked_assets p t w ∧
  Portfolio.locked_assets p t w ≤ Portfolio.portfolio_asset_balances p t w ∧
  ∀ i, pending (p, t, Some i) ≤ 1 ∧
    (0 < pending (p, t, Some i) → Portfolio.nft_locked p t i w = true).
Proof.
  apply reachable_ok in H as [[[Hl _ Hk] _ _ _] _]. simpl. split_and!.
  - apply (Hk (p, t, None)).
  - apply (Portfolio.ok_locked _ (Portfolio.ok_balances _ (Ledger.ok_portfolio _ Hl)) (p, t)).
  - intros i. specialize (Hk (p, t, Some i)). simpl in Hk.
    unfold Portfolio.nft_locked. destruct (has_key _ _); split; done || lia.
Qed.

(** C38: every NFT has one owner: the owner map and the portfolios agree, so no
    two portfolios hold the same NFT; the counts per holder and per collection
    are the numbers of NFTs owned; ids come from the collection's sequence. *)
Theorem nft_owner_unique (c : Chain) (H : reachable c) (t : Ticker) (i : NFTId) :
  let w := world c in
  (∀ p, NFTOwner (nft w) !! (t, i) = Some p ↔ is_Some (PortfolioNFT (portfolio w) !! (p, (t, i)))) ∧
  (∀ p q, is_Some (PortfolioNFT (portfolio w) !! (p, (t, i))) →
          is_Some (PortfolioNFT (portfolio w) !! (q, (t, i))) → p = q) ∧
  (∀ d, Nft.balance_of t d w = Nft.nfts_of (NFTOwner (nft w)) t d) ∧
  Nft.nfts_in_collection t w = Nft.nfts_total (NFTOwner (nft w)) t ∧
  (is_Some (NFTOwner (nft w) !! (t, i)) →
     ∃ col, CollectionTicker (nft w) !! t = Some col ∧ i ≤ getd 0 (NextNFTId (nft w)) col).
Proof.
  apply reachable_ok in H as [[[[_ _ _ _ _ [H1 H2 H3 H4 _]] _ _] _ _ _] _].
  intros w. split_and!; [done| |done|done|by apply H4].
  intros p q Hp%H1 Hq%H1. congruence.
Qed.

(** an instruction that is not pending and not failed has nothing left: no
    legs, no affirmations of parties or mediators, and no units it holds. *)
Theorem finished_instructions_are_empty (c : Chain) (H : reachable c) (id : InstructionId)
    (Hst : instruction_status id (world c) ≠ StatusPending)
    (Hst' : instruction_status id (world c) ≠ StatusFailed) :
  let w := world c in
  legs_of id w = [] ∧
  (∀ p, UserAffirmations (settlement w) !! (p, id) = None) ∧
  (∀ d, InstructionMediatorsAffirmations (settlement w) !! (id, d) = None) ∧
  instruction_affirms_pending id w = 0.
Proof.
  apply reachable_ok in H as [[[_ Hok _] _ _ _] _]. simpl. revert Hst Hst' Hok. generalize (world c). intros w Hst Hst' Hok.
  assert (¬ live (settlement w) id) as Hnl.
  { unfold instruction_status, getd in *. by intros [Hl|Hl]; rewrite Hl in *. }
  assert (∀ l, InstructionLegs (settlement w) !! (id, l) = None) as Hlegs.
  { intros l. apply eq_None_not_Some. intros Hl%(so_live _ Hok). done. }
  assert (∀ p, UserAffirmations (settlement w) !! (p, id) = None) as Hu.
  { intros p. apply eq_None_not_Some.
    intros (l & leg & Hl & _)%(so_party _ Hok). by rewrite Hlegs in Hl. }
  assert (∀ d, InstructionMediatorsAffirmations (settlement w) !! (id, d) = None) as Hm.
  { intros d. destruct (_ !! _) as [m|] eqn:Hm; [|done].
    by apply (so_mediator _ Hok) in Hm as [? _]. }
  assert (∀ l, OffChainAffirmations (settlement w) !! (id, l) = None) as Ho.
  { intros l. apply eq_None_not_Some.
    intros (leg & Hl & _)%(so_off _ Hok). by rewrite Hlegs in Hl. }
  split_and!; [|done|done|].
  - destruct (legs_of id w) as [|[l leg] ls] eqn:E; [done|].
    assert ((l, leg) ∈ legs_of id w) as Hin by (rewrite E; by left).
    apply elem_of_iter_prefix in Hin. by rewrite Hlegs in Hin.
  - unfold instruction_affirms_pending. rewrite (so_pending _ Hok).
    unfold pending_total. rewrite !msum_zero; [done|..]; intros [x y] v Hv.
    + unfold pending_mediator. simpl. rewrite decide_False; [done|].
      intros [-> _]. by rewrite Hm in Hv.
    + unfold pending_off. simpl. rewrite decide_False; [done|]. intros [-> _]. by rewrite Ho in Hv.
    + unfold pending_party. simpl. rewrite decide_False; [done|].
      intros [-> _]. by rewrite Hu in Hv.
Qed.

(** C37: a receipt is good for one leg: once it was claimed, no later
    affirmation that presents it succeeds, whatever happens in between. *)
Theorem receipts_are_single_use (c c' : Chain) (w' : World) (signer : AccountId) (uid : N) (o : Origin)
    (id : InstructionId) (rs : list ReceiptDetails) (ps : list PortfolioId)
    (count : option AffirmationCount) (r : ReceiptDetails) (f : FilteredLegs)
    (Hrc : reachable c) (Hs : rtc chain_step c c')
    (Hused : ReceiptsUsed (settlement (world c)) !! (signer, uid) = Some true)
    (Hr : r ∈ rs) (Hsig : rd_signer r = signer) (Huid : rd_uid r = uid) :
  base_affirm_with_receipts o id rs ps count (world c') ≠ (Ok f, w').
Proof.
  apply reachable_ok in Hrc as [Hok Hf].
  destruct (chain_steps_kept _ _ Hok Hf Hs) as [([Hok' _ _ _] & _ & Hk) _]. intros H.
  apply (affirm_with_receipts_Ok (RS := promises c')) in H as (_ & _ & _ & _ & _ & _ & _ & Hv);
    [|apply (Portfolio.ok_balances _ (Ledger.ok_portfolio _ (sys_ledger _ Hok')))|apply Hok'..].
  apply valid_receipts_Ok in Hv as (_ & _ & Hall). destruct (Hall r Hr) as (_ & Hu & _).
  unfold receipts_used, getd in Hu. rewrite Hsig, Huid, (Hk _ Hused) in Hu. done.
Qed.

(** in every reachable state the names and the keys of metadata correspond
    one to one, every key has its specification and came from the counter,
    values and details belong to keys that exist, a value locked for good is
    there, and every key that an NFT collection requires exists. *)
Theorem metadata_stays_consistent (c : Chain) (H : reachable c) : Metadata.catalog_ok (world c).
Proof. by apply reachable_ok in H as [[_ _ ? _] _]. Qed.

(** a metadata value that is locked stays: no call of any pallet changes or
    removes the value of the key or the details that lock it. *)
Theorem locked_metadata_stays (c c' : Chain) (t : Ticker) (k : AssetMetadataKey)
    (H : reachable c) (Hs : chain_step c c')
    (Hl : Metadata.is_asset_metadata_locked t k (world c) = true) :
  let w := world c in
  let w' := world c' in
  AssetMetadataValues (asset w') !! (t, k) = AssetMetadataValues (asset w) !! (t, k) ∧
  AssetMetadataValueDetails (asset w') !! (t, k) =
    AssetMetadataValueDetails (asset w) !! (t, k).
Proof. apply reachable_ok in H as [Hok Hf]. by apply chain_step_locked. Qed.
End chain.

(* ------------------------------------------------------------------ *)
(** ** The properties on the sample chain *)

Import Sample.
#[local] Existing Instances sample_runtime sample_externals sample_settlement sample_corporate
  nothing_reserved.

Lemma system_invariant_witness : chain_ok (chain_after settled).
Proof. apply (system_invariant (chain_after settled)). apply after_reachable. by vm_compute. Defined.

Lemma books_balance_witness :
  Asset.supply acme (world (chain_after settled)) = 1000 ∧
  Asset.total_held (BalanceOf (asset (world (chain_after settled)))) acme = 1000.
Proof.
  pose proof (books_balance (chain_after settled)
    (after_reachable settled ltac:(by vm_compute)) acme) as [H _].
  assert (Asset.supply acme (world (chain_after settled)) = 1000) as H0 by (by vm_compute).
  exact (conj H0 (eq_trans (eq_sym H) H0)).
Defined.

Lemma supply_changes_witness :
  let w := after setup in
  let c := CallAsset (Asset.Redeem acme 30) in
  Asset.supply acme (dispatch (Signed 1) c w).2 + 30 = Asset.supply acme w + 0.
Proof.
  assert (system_ok (after setup) ∧ storage_fits (after setup)) as [Hok Hf].
  { apply sample_ok. by vm_compute. }
  apply (supply_changes (Signed 1) (CallAsset (Asset.Redeem acme 30)) acme (after setup));
    [done|done|apply fits_sound; by vm_compute|apply run_Ok; by vm_compute].
Defined.

Lemma checkpoints_immutable_witness :
  Checkpoint.get_balance_at acme 1 1 (after settled) = Some 1000 ∧
  Asset.balance_of acme 1 (after settled) = 900.
Proof.
  split; [|by vm_compute].
  destruct (checkpoints_immutable (chain_after setup) (chain_after settled) acme 1 1
    (after_reachable setup ltac:(by vm_compute))
    (chain_after_steps setup (drop 7 settled) ltac:(by vm_compute)) ltac:(by vm_compute)) as [H _].
  etrans; [exact H|by vm_compute].
Defined.

Lemma checkpoint_snapshots_witness :
  Checkpoint.get_balance_at acme 1 1 (after settled) = Some 1000.
Proof.
  assert (storage_fits (after (take 3 setup))) as Hf1.
  { apply sample_ok. by vm_compute. }
  assert (Asset.balance_of acme 1 (after (take 2 setup)) = 1000) as <- by (by vm_compute).
  apply (checkpoint_snapshots (Signed 1) acme (chain_after (take 2 setup)) (chain_after settled)
    (after (take 3 setup)) 1); [|by vm_compute|done|].
  - apply after_reachable. by vm_compute.
  - apply (chain_after_steps (take 3 setup) (drop 3 settled)). by vm_compute.
Defined.

Lemma locks_cover_affirmed_legs_witness :
  100 ≤ Portfolio.locked_assets (pf 1) acme (after affirmed_by_sender) ∧
  Portfolio.nft_locked (pf 1) art 1 (after affirmed_by_sender) = true.
Proof.
  destruct (locks_cover_affirmed_legs (chain_after affirmed_by_sender)
    (after_reachable affirmed_by_sender ltac:(by vm_compute)) (pf 1) acme) as [H _].
  destruct (locks_cover_affirmed_legs (chain_after affirmed_by_sender)
    (after_reachable affirmed_by_sender ltac:(by vm_compute)) (pf 1) art) as (_ & _ & H').
  split.
  - etrans; [|etrans; [|exact H]]; [|apply N.le_add_r]. by vm_compute.
  - apply (H' 1). by vm_compute.
Defined.

Lemma nft_owner_unique_witness :
  NFTOwner (nft (after settled)) !! (art, 1) = Some (pf 2) ∧
  is_Some (PortfolioNFT (portfolio (after settled)) !! (pf 2, (art, 1))).
Proof.
  destruct (nft_owner_unique (chain_after settled)
    (after_reachable settled ltac:(by vm_compute)) art 1) as [H _].
  assert (NFTOwner (nft (after settled)) !! (art, 1) = Some (pf 2)) as H0 by (by vm_compute).
  split; [done|by apply H].
Defined.

Lemma finished_instructions_are_empty_witness :
  instruction_status 1 (after settled) = StatusSuccess 1 ∧ legs_of 1 (after settled) = [].
Proof.
  assert (instruction_status 1 (after settled) = StatusSuccess 1) as Hst by (by vm_compute).
  split; [done|].
  apply (finished_instructions_are_empty (chain_after settled)
    (after_reachable settled ltac:(by vm_compute)) 1);
    change (world (chain_after settled)) with (after settled); by rewrite Hst.
Defined.

(** The sample chain with a locked metadata value and a collection that needs
    a global key. *)
Definition no_spec : AssetMetadataSpec := mkAssetMetadataSpec None None None.
Definition documented : list (Origin * call) :=
  setup ++
  [(Signed 1, CallMetadata (Metadata.RegisterAndSetLocal acme [1] no_spec [7]
                (Some (mkAssetMetadataValueDetail None Locked))));
   (Root, CallMetadata (Metadata.RegisterGlobalType [2] no_spec));
   (Signed 1, CallNft (Nft.CreateNftCollection usd (Some NFDerivative) [GlobalKey 1]))].

Lemma metadata_stays_consistent_witness :
  AssetMetadataLocalKeyToName (asset (after documented)) !! (acme, 1) = Some [1] ∧
  AssetMetadataLocalNameToKey (asset (after documented)) !! (acme, [1]) = Some 1.
Proof.
  pose proof (metadata_stays_consistent (chain_after documented)
    (after_reachable documented ltac:(by vm_compute))) as [H _ _ _ _ _ _ _ _ _ _].
  assert (AssetMetadataLocalKeyToName (asset (after documented)) !! (acme, 1) = Some [1]) as H0
    by (by vm_compute).
  split; [done|by apply H].
Defined.

Lemma locked_metadata_stays_witness :
  let c := CallMetadata (Metadata.RegisterLocalType acme [3] no_spec) in
  AssetMetadataValues (asset (after (documented ++ [(Signed 1, c)]))) !! (acme, LocalKey 1) =
    AssetMetadataValues (asset (after documented)) !! (acme, LocalKey 1).
Proof.
  intros c.
  apply (locked_metadata_stays (chain_after documented) (chain_after (documented ++ [(Signed 1, c)]))
    acme (LocalKey 1)).
  - apply after_reachable. by vm_compute.
  - apply chain_world, (step_call (Signed 1) c); [|apply fits_sound; by vm_compute].
    by vm_compute.
  - by vm_compute.
Defined.

Lemma receipts_are_single_use_witness :
  (base_affirm_with_receipts (Signed 2) 1 [sample_receipt] [] None (after settled)).1
    ≠ Ok (filtered_legs 1 ∅ (after settled)).
Proof.
  intros H.
  apply (receipts_are_single_use (chain_after affirmed_by_all) (chain_after settled)
    (base_affirm_with_receipts (Signed 2) 1 [sample_receipt] [] None (after settled)).2
    9 7 (Signed 2) 1 [sample_receipt] [] None sample_receipt
    (filtered_legs 1 ∅ (after settled))).
  - apply after_reachable. by vm_compute.
  - apply (chain_after_steps affirmed_by_all (drop 10 settled)). by vm_compute.
  - by vm_compute.
  - by left.
  - done.
  - done.
  - by apply run_Ok.
Defined.
End ChainProperties.
