(* ===== verification/SettlementProperties.v ===== *)
(** What the settlement pallet promises its users: who has to affirm, what an
    execution moves, what a failure leaves, and what withdrawing and rejecting
    give back. *)

From stdpp Require Import base numbers list gmap sets strings sorting relations.
From S2P Require Import Prelude Subset AssetIdentifier Types SettlementTypes Schedules State.
From S2P Require Import Identity Agents Portfolio Checkpoint Asset Nft Ledger Settlement.
From S2P Require Import SettlementInv SettlementAdd Execution System Sample.

Local Open Scope N_scope.

Module SettlementProperties.
Import Settlement SettlementInv SettlementAdd Execution System.

Section properties.
Context {RT : Runtime} {EX : Externals} {SC : SettlementConfig} {RS : Reserved}.

(** C3: nothing settles without everyone's consent: when an execution
    succeeds, every sender and receiver of the instruction had affirmed, every
    off-chain leg had its receipt, every mediator had affirmed, every on-chain
    leg was locked, the venue was allowed for every ticker that filters
    venues, and the instruction was pending or had failed before. *)
Theorem execution_needs_everyone (id : InstructionId) (caller : IdentityId) (w w' : World)
    (Hok : system_ok w) (Hf : Portfolio.balances_fit (portfolio w'))
    (H : execute_instruction id caller w = (Ok tt, w')) :
  all_affirmed (settlement w) id ∧ live (settlement w) id ∧
  ensure_allowed_venue (sorted_legs id w) (venue_id (instruction_details id w)) w = Ok tt.
Proof. apply execute_instruction_Ok in H as []; done. Qed.

(** What an execution leaves behind, all legs settled. *)
Definition legs_settled (id : InstructionId) (w w' : World) : Prop :=
  let legs := sorted_legs id w in
  (∀ p t, Portfolio.portfolio_asset_balances p t w' + lsum (leg_out p t) legs =
          Portfolio.portfolio_asset_balances p t w + lsum (leg_in p t) legs) ∧
  (∀ d t, Asset.balance_of t d w' + lsum (identity_out d t) legs =
          Asset.balance_of t d w + lsum (identity_in d t) legs) ∧
  NFTOwner (nft w') = foldl leg_owners (NFTOwner (nft w)) legs ∧
  Tokens (asset w') = Tokens (asset w) ∧
  (∀ k, locked_units (portfolio w') k + lsum (held_units (settlement w) id k) legs =
        locked_units (portfolio w) k) ∧
  instruction_status id w' = StatusSuccess (block_number w) ∧
  legs_of id w' = [] ∧ (∀ p, user_affirmations p id w' = AffUnknown).

Lemma retryable_settled id caller w w' :
  system_ok w → Portfolio.balances_fit (portfolio w') →
  execute_instruction_retryable id caller w = (Ok tt, w') → legs_settled id w w'.
Proof.
  intros Hok Hf H. unfold legs_settled.
  apply retryable_Ok in H as (w1 & Hex & [s ->] & _ & Hpr); [|done|done].
  destruct (ex_moved _ _ _ Hex) as [P I T _ O]. simpl.
  split_and!; [exact P|exact I|exact O|exact T|apply (ex_locks _ _ _ Hex)|..].
  - unfold instruction_status. simpl in *. rewrite (pr_statuses _ _ _ _ _ Hpr).
    by rewrite getd_insert_eq.
  - destruct (legs_of id _) as [|[l leg] ls] eqn:E; [done|].
    assert ((l, leg) ∈ legs_of id (w1 <| settlement := s |>)) as Hin by (rewrite E; by left).
    apply elem_of_iter_prefix in Hin. simpl in *.
    by rewrite (pr_legs _ _ _ _ _ Hpr), lookup_remove_prefix, decide_True in Hin.
  - intros p. unfold user_affirmations, getd. simpl in *.
    by rewrite (pr_users _ _ _ _ _ Hpr), decide_True.
Qed.

(** C2: an execution settles every leg, and nothing else: the balance of each
    portfolio and of each identity changes by the amounts of the legs it
    receives less those it sends, the NFTs go to the receivers of their legs
    in the order of the leg ids, no supply changes; the locks of the
    instruction are released to the unit; the instruction is marked as
    successful at this block and its legs and affirmations are gone. *)
Theorem execution_settles (id : InstructionId) (caller : IdentityId) (w w' : World)
    (Hok : system_ok w) (Hf : Portfolio.balances_fit (portfolio w'))
    (H : execute_instruction_retryable id caller w = (Ok tt, w')) :
  let legs := sorted_legs id w in
  (∀ p t, Portfolio.portfolio_asset_balances p t w' + lsum (leg_out p t) legs =
          Portfolio.portfolio_asset_balances p t w + lsum (leg_in p t) legs) ∧
  (∀ d t, Asset.balance_of t d w' + lsum (identity_out d t) legs =
          Asset.balance_of t d w + lsum (identity_in d t) legs) ∧
  NFTOwner (nft w') = foldl leg_owners (NFTOwner (nft w)) legs ∧
  Tokens (asset w') = Tokens (asset w) ∧
  (∀ k, locked_units (portfolio w') k + lsum (held_units (settlement w) id k) legs =
        locked_units (portfolio w) k) ∧
  instruction_status id w' = StatusSuccess (block_number w) ∧
  legs_of id w' = [] ∧ (∀ p, user_affirmations p id w' = AffUnknown).
Proof. by apply (retryable_settled id caller). Qed.

(** C4: execution is all or nothing: when it fails, whatever the reason and
    however many legs had moved before, the state is as it was, the status of
    the instruction (now failed), the events and the weight consumed apart. *)
Theorem failed_execution_is_atomic (id : InstructionId) (caller : IdentityId) (w w' : World)
    (e : DispatchError) (H : execute_instruction_retryable id caller w = (Err e, w')) :
  w' = w <| settlement ::= λ s, s <| InstructionStatuses ::= <[id := StatusFailed]> |> |>
         <| meter := meter w' |> <| events := events w' |>.
Proof. by apply retryable_Err in H. Qed.

(** C35: a scheduled execution settles or is recorded as failed.  Once the limit
    covers the minimum weight, the call of the scheduler returns [Ok] whatever
    happens inside, so that nothing it writes is rolled back, and there are two
    outcomes: either every leg is settled, the locks of the instruction are
    released and it is marked as successful, exactly as by an execution by hand;
    or the state is as it was, but for the status of the instruction, which is
    recorded as failed so that the execution can be tried again, the weight that
    was consumed, and the events, the last of which reports the failure. *)
Theorem scheduled_execution_returns (id : InstructionId) (limit : Weight) (w : World)
    (Hok : system_ok w) (Hl : ref_time (w_execute_scheduled_instruction 0 0 0) ≤ ref_time limit)
    (Hf : Portfolio.balances_fit (portfolio (execute_scheduled_instruction Root id limit w).2)) :
  ∃ w', execute_scheduled_instruction Root id limit w = (Ok tt, w') ∧
    (legs_settled id w w' ∨
     ∃ e m l, w' = w <| settlement ::= λ s, s <| InstructionStatuses ::= <[id := StatusFailed]> |> |>
                     <| meter := m |> <| events := l ++ [FailedToExecuteInstruction id e] |>).
Proof.
  set (w0 := w <| meter := mkWeightMeter (w_execute_scheduled_instruction 0 0 0) zero_weight limit |>).
  assert (execute_scheduled_instruction Root id limit w = base_execute_scheduled_instruction id w0) as E.
  { unfold execute_scheduled_instruction, valid_weight_meter, set_meter, from_limit, mbind, SE_bind,
      check, modify. simpl. by rewrite bool_decide_eq_false_2 by lia. }
  rewrite E in *. unfold base_execute_scheduled_instruction, mbind, SE_bind, gets, catch in *.
  set (caller := default SETTLEMENT_MODULE_DID (CurrentDid (identity w0))) in *.
  destruct (execute_instruction_retryable id caller w0) as [[[]|e] w1] eqn:H.
  - exists w1. split; [done|]. left.
    exact (retryable_settled id caller w0 w1 (system_ok_meter _ _ Hok) Hf H).
  - eexists. split; [reflexivity|]. right. apply retryable_Err in H. unfold only_notes in H.
    exists e, (meter w1), (events w1). rewrite H. reflexivity.
Qed.

(** the locks an instruction releases are there: on a state that keeps the
    invariant, the release that ignores the errors of unlocking does exactly
    what the release that stops at them does, and succeeds. *)
Theorem release_never_fails (id : InstructionId) (w : World) (Hok : system_ok w) :
  let w' := w <| portfolio ::= release_store (settlement w) id (legs_of id w) |> in
  unchecked_release_locks id (legs_of id w) w = (Ok tt, w') ∧
  for_each (legs_of id w) (release_lock_strict id) w = (Ok tt, w').
Proof.
  destruct (release_Ok id (legs_of id w) w Hok (legs_of_listing id w)) as (R1 & R2 & _). done.
Qed.

(** C33: affirming is for the custodian, once, and locks what is sent: the
    caller has custody of every portfolio it affirms for, each of them was
    pending, they all count as affirmed afterwards, exactly the units of the
    legs they send get locked, those legs wait for execution, and the pending
    count goes down by their number. *)
Theorem affirming_locks (d : IdentityId) (id : InstructionId) (ps : gset PortfolioId)
    (sk : option SecondaryKey) (count : option AffirmationCount) (w w' : World)
    (f : FilteredLegs) (Hok : system_ok w)
    (H : unsafe_affirm_instruction d id ps sk count w = (Ok f, w')) :
  (∀ p, p ∈ ps → Portfolio.ensure_portfolio_custody_and_permission p d sk w = Ok tt ∧
     user_affirmations p id w = AffPending ∧ user_affirmations p id w' = Affirmed) ∧
  (∀ k, locked_units (portfolio w') k =
        locked_units (portfolio w) k + lsum (λ il, leg_units il.2 k) (sender_subset f)) ∧
  (∀ l leg, (l, leg) ∈ sender_subset f ↔
     InstructionLegs (settlement w) !! (id, l) = Some leg ∧ ∃ p, leg_sender leg = Some p ∧ p ∈ ps) ∧
  (∀ l leg, (l, leg) ∈ sender_subset f → instruction_leg_status id l w' = ExecutionPending) ∧
  instruction_affirms_pending id w' + gset_len ps = instruction_affirms_pending id w.
Proof.
  assert (settle_ok (settlement w')) as Hs'.
  { apply unsafe_affirm_Ok in H as (_ & Haf & ES & _);
      [|apply (Portfolio.ok_balances _ (Ledger.ok_portfolio _ (sys_ledger _ Hok)))|apply Hok..].
    rewrite ES. apply settle_ok_affirm; [apply Hok|done]. }
  apply unsafe_affirm_Ok in H as (-> & Haf & ES & _ & _ & _ & _ & Hcu & HU);
    [|apply (Portfolio.ok_balances _ (Ledger.ok_portfolio _ (sys_ledger _ Hok)))|apply Hok..].
  split_and!; [|done|..].
  - intros p Hp%elem_of_elements. split_and!; [by apply Hcu|by apply (af_pending _ _ _ _ _ Haf)|].
    change (user_aff (settlement w') p id = Affirmed). rewrite ES, affirm_user_aff.
    by rewrite decide_True.
  - intros l leg. rewrite (af_legs _ _ _ _ _ Haf). by setoid_rewrite elem_of_elements.
  - intros l leg Hin. change (leg_status (settlement w') id l = ExecutionPending).
    pose proof (affirm_status id (elements ps) (sender_subset (filtered_legs id ps w)) []
      (settlement w) id l) as Hst.
    rewrite decide_False in Hst by (intros [_ Hn]; by apply elem_of_nil in Hn).
    rewrite decide_True in Hst; [by rewrite ES|]. split; [done|].
    apply list_elem_of_fmap. by exists (l, leg).
  - unfold instruction_affirms_pending. rewrite (so_pending _ Hs'), (so_pending _ (sys_settle _ Hok)).
    rewrite ES. rewrite <- (affirm_pending_total _ _ _ _ _ id Haf), decide_True by done.
    unfold gset_len, size, set_size. simpl. lia.
Qed.

Lemma legs_of_ext id w w' :
  InstructionLegs (settlement w') = InstructionLegs (settlement w) →
  legs_of id w' = legs_of id w.
Proof. intros E. unfold legs_of. by rewrite E. Qed.

Lemma withdraw_user_aff id ps ils s p :
  user_aff (withdraw_store id ps ils s) p id = if decide (p ∈ ps) then AffPending else user_aff s p id.
Proof.
  unfold user_aff. simpl. rewrite getd_insert_all.
  assert ((p, id) ∈ (λ p, (p, id)) <$> ps ↔ p ∈ ps) as He
    by (rewrite list_elem_of_fmap; naive_solver).
  repeat case_decide; tauto.
Qed.

Lemma withdraw_leg_status id ps ils s l :
  leg_status (withdraw_store id ps ils s) id l =
  if decide (l ∈ ils.*1) then PendingTokenLock else leg_status s id l.
Proof.
  unfold leg_status. simpl. rewrite getd_insert_all.
  assert ((id, l) ∈ (λ il : LegId * Leg, (id, il.1)) <$> ils ↔ l ∈ ils.*1) as He
    by (rewrite !list_elem_of_fmap; naive_solver).
  repeat case_decide; tauto.
Qed.

(** C34: withdrawing undoes affirming: after an affirmation and its withdrawal
    everything locked, every affirmation, every leg's status and the pending
    count are what they were. *)
Theorem withdrawing_undoes_affirming (d d' : IdentityId) (id : InstructionId)
    (ps : list PortfolioId) (sk sk' : option SecondaryKey) (count count' : option AffirmationCount)
    (w w1 w2 : World) (f f' : FilteredLegs) (Hok : system_ok w)
    (Hfit : affirmations_fit (settlement w))
    (H1 : unsafe_affirm_instruction d id (list_to_set ps) sk count w = (Ok f, w1))
    (H2 : unsafe_withdraw_instruction_affirmation d' id ps sk' count' w1 = (Ok f', w2)) :
  (∀ k, locked_units (portfolio w2) k = locked_units (portfolio w) k) ∧
  (∀ p, user_affirmations p id w2 = user_affirmations p id w) ∧
  (∀ l, instruction_leg_status id l w2 = instruction_leg_status id l w) ∧
  instruction_affirms_pending id w2 = instruction_affirms_pending id w.
Proof.
  apply unsafe_affirm_Ok in H1 as (_ & Haf & ES1 & Hlo & Hb1 & Hl1 & _ & _ & HU1);
    [|apply (Portfolio.ok_balances _ (Ledger.ok_portfolio _ (sys_ledger _ Hok)))|apply Hok..].
  assert (settle_ok (settlement w1)) as Hs1
    by (rewrite ES1; apply settle_ok_affirm; [apply Hok|done]).
  apply unsafe_withdraw_Ok in H2 as (_ & _ & ES2 & _ & _ & _ & _ & HU2); [|done..].
  set (P := list_to_set ps : gset PortfolioId) in *.
  assert (filtered_legs id P w1 = filtered_legs id P w) as Ef.
  { unfold filtered_legs. by rewrite (legs_of_ext id w w1) by (by rewrite ES1). }
  rewrite Ef in *. set (ils := sender_subset (filtered_legs id P w)) in *.
  assert (∀ n, N.of_nat (length (elements P)) ≤ n → n ≤ u64_max →
    wrapping_add u64_max (n - N.of_nat (length (elements P)) - N.of_nat 0)
      (N.of_nat (length (elements P))) = n) as Hw.
  { intros n Hle Hmax. rewrite wrapping_add_small by lia. lia. }
  split_and!.
  - intros k. specialize (HU1 k). specialize (HU2 k). lia.
  - intros p. change (user_aff (settlement w2) p id = user_aff (settlement w) p id).
    rewrite ES2, withdraw_user_aff, ES1, affirm_user_aff.
    destruct (decide (p ∈ elements P)) as [Hp|Hp].
    + by rewrite (af_pending _ _ _ _ _ Haf).
    + rewrite decide_False by naive_solver. done.
  - intros l. change (leg_status (settlement w2) id l = leg_status (settlement w) id l).
    rewrite ES2, withdraw_leg_status, ES1.
    pose proof (affirm_status id (elements P) ils [] (settlement w) id l) as Hst.
    rewrite decide_False in Hst by (intros [_ Hn]; by apply elem_of_nil in Hn).
    destruct (decide (l ∈ ils.*1)) as [Hl|Hl].
    + apply list_elem_of_fmap in Hl as ([l' leg] & -> & Hin).
      symmetry. by eapply affirmable_unlocked; [apply Hok|done|].
    + by rewrite decide_False in Hst by naive_solver.
  - unfold instruction_affirms_pending. rewrite ES2, ES1. simpl.
    rewrite !getd_insert_eq. apply Hw.
    + rewrite (so_pending _ (sys_settle _ Hok)).
      rewrite <- (affirm_pending_total _ _ _ _ _ id Haf), decide_True by done. lia.
    + rewrite (so_pending _ (sys_settle _ Hok)). by apply pending_total_fits.
Qed.

(** a rejection gives everything back: the units the instruction held are
    unlocked, no balance, NFT or other lock changes, the instruction is marked
    as rejected at this block and its legs and affirmations are gone. *)
Theorem rejecting_releases (o : Origin) (id : InstructionId) (p : option PortfolioId)
    (count : option AssetCount) (w w' : World) (Hok : system_ok w)
    (H : base_reject_instruction o id p count w = (Ok tt, w')) :
  (∀ k, locked_units (portfolio w') k + lsum (held_units (settlement w) id k) (legs_of id w) =
        locked_units (portfolio w) k) ∧
  asset w' = asset w ∧ nft w' = nft w ∧
  PortfolioAssetBalances (portfolio w') = PortfolioAssetBalances (portfolio w) ∧
  PortfolioNFT (portfolio w') = PortfolioNFT (portfolio w) ∧
  instruction_status id w' = StatusRejected (block_number w) ∧
  (∀ l, InstructionLegs (settlement w') !! (id, l) = None) ∧
  (∀ q, user_affirmations q id w' = AffUnknown).
Proof.
  apply reject_system in H as (_ & Hpr & Hlo & Hk); [|done].
  destruct Hlo as [_ _ _ _ EA _ EN (la & ln & EP)].
  split_and!; try done; [by rewrite EP|by rewrite EP|..].
  - unfold instruction_status. rewrite (pr_statuses _ _ _ _ _ Hpr). by rewrite getd_insert_eq.
  - intros l. by rewrite (pr_legs _ _ _ _ _ Hpr), lookup_remove_prefix, decide_True.
  - intros q. unfold user_affirmations, getd. by rewrite (pr_users _ _ _ _ _ Hpr), decide_True.
Qed.

(** a new instruction asks everyone: it gets the next id, its venue is
    managed by the caller, its legs are stored in order, every sender has to
    affirm, every receiver has to affirm or is pre-approved, no leg has one
    identity on both sides, the given mediators have to affirm, the pending
    count is the exact number of missing affirmations, and nothing is locked. *)
Theorem adding_asks_everyone (d : IdentityId) (v : VenueId) (st : SettlementType)
    (trade value : option Moment) (legs : list Leg) (memo : option Memo)
    (meds : option (gset IdentityId)) (w w' : World) (id : InstructionId) (Hok : system_ok w)
    (Hfit : affirmations_fit (settlement w'))
    (H : base_add_instruction d v st trade value legs memo meds w = (Ok id, w')) :
  id = InstructionCounter (settlement w) ∧ InstructionCounter (settlement w') = id + 1 ∧
  venue_for_management v d w = Ok (getd (mkVenue d VenueOther) (VenueInfo (settlement w)) v) ∧
  instruction_status id w' = StatusPending ∧
  (∀ l, InstructionLegs (settlement w') !! (id, l) = legs !! N.to_nat l) ∧
  (∀ leg p, leg ∈ legs → leg_sender leg = Some p → user_affirmations p id w' = AffPending) ∧
  (∀ leg p, leg ∈ legs → leg_receiver leg = Some p → user_affirmations p id w' ≠ AffUnknown) ∧
  (∀ m, m ∈ default ∅ meds → mediator_affirmation id m w' = MedPending) ∧
  instruction_affirms_pending id w' = pending_total (settlement w') id ∧
  portfolio w' = portfolio w.
Proof.
  assert (settle_ok (settlement w')) as Hs'.
  { by apply base_add_instruction_ok in H as [? _]; [|apply Hok|apply Hok|]. }
  apply base_add_instruction_Ok in H as (info & Hv & Hid & _ & Hm & _ & EP & ES).
  unfold ensure_valid_legs in Hv. apply bind_Ok in Hv as ([t i] & Hc & Hv). ok_inv. simplify_eq.
  apply collect_legs_Ok in Hc as (_ & _ & _ & Hs & Hr & _).
  2:{ unfold count_bounded. simpl. lia. }
  set (info' := match meds with Some m => extend_mediators m info | None => info end) in *.
  assert (portfolios_pending_approval info' = portfolios_pending_approval info ∧
    portfolios_pre_approved info' = portfolios_pre_approved info ∧
    default ∅ meds ⊆ mediators info') as (E2 & E3 & E4).
  { subst info'. destruct meds; simpl; set_solver. }
  pose proof (add_fields (settlement w) (InstructionCounter (settlement w)) v st (now w) trade
    value legs memo info') as (_ & _ & EM & _ & EI & EC & _).
  pose proof (add_user_aff (settlement w) _ v st (now w) trade value legs memo info'
    (sys_settle _ Hok) eq_refl) as HU.
  pose proof (add_legs_lookup (settlement w) _ v st (now w) trade value legs memo info'
    (sys_settle _ Hok) eq_refl) as HL.
  rewrite <- ES in *. split_and!; try done.
  - unfold instruction_status. by rewrite EI, getd_insert_eq.
  - intros l. destruct (HL (InstructionCounter (settlement w)) l) as [-> _]. by rewrite decide_True.
  - intros leg p Hin Hp. specialize (Hs leg p Hin Hp). rewrite <- E2 in Hs.
    unfold user_affirmations. unfold user_aff in HU. by rewrite HU, !decide_True.
  - intros leg p Hin Hp. specialize (Hr leg p Hin Hp). rewrite <- E2, <- E3 in Hr.
    unfold user_affirmations. unfold user_aff in HU. rewrite HU, decide_True by done.
    apply elem_of_union in Hr. repeat case_decide; tauto || done.
  - intros m Hmed%E4. unfold mediator_affirmation. rewrite EM, getd_insert_all, decide_True; [done|].
    apply list_elem_of_fmap. exists m. split; [done|]. by apply elem_of_elements.
  - apply (so_pending _ Hs').
Qed.

(** a receipt counts only if it is genuine: each receipt of a successful
    affirmation was unused, was signed by a signer of the instruction's venue
    over exactly the off-chain leg it is claimed for, that leg was still
    pending, no two receipts serve one leg, and afterwards the receipts are
    used and their legs skipped at execution. *)
Theorem receipts_are_genuine (o : Origin) (id : InstructionId) (rs : list ReceiptDetails)
    (ps : list PortfolioId) (count : option AffirmationCount) (w w' : World) (f : FilteredLegs)
    (Hok : system_ok w)
    (H : base_affirm_with_receipts o id rs ps count w = (Ok f, w')) :
  NoDup (rd_leg_id <$> rs) ∧
  ∀ r, r ∈ rs →
    receipts_used (rd_signer r) (rd_uid r) w = false ∧
    venue_signers (venue_id (instruction_details id w)) (rd_signer r) w = true ∧
    (∃ s t ti am, InstructionLegs (settlement w) !! (id, rd_leg_id r) = Some (OffChain s t ti am) ∧
       verify_signature (rd_signature r)
         (mkReceipt (rd_uid r) id (rd_leg_id r) s t ti am) (rd_signer r) = true) ∧
    offchain_affirmations id (rd_leg_id r) w = AffPending ∧
    offchain_affirmations id (rd_leg_id r) w' = Affirmed ∧
    receipts_used (rd_signer r) (rd_uid r) w' = true ∧
    ∃ a u, instruction_leg_status id (rd_leg_id r) w' = ExecutionToBeSkipped a u.
Proof.
  apply affirm_with_receipts_Ok in H as (_ & _ & ES & _ & _ & _ & _ & Hv);
    [|apply (Portfolio.ok_balances _ (Ledger.ok_portfolio _ (sys_ledger _ Hok)))|apply Hok..].
  apply valid_receipts_Ok in Hv as (Hnd & _ & Hall). split; [done|].
  intros r Hr. destruct (Hall r Hr) as (Hp & Hu & Hvs & Hleg).
  assert (rd_leg_id r ∈ rd_leg_id <$> rs) as Hin by (apply list_elem_of_fmap; by exists r).
  split_and!; try done.
  - change (off_aff (settlement w') id (rd_leg_id r) = Affirmed).
    by rewrite ES, affirm_off_aff, decide_True.
  - unfold receipts_used, getd. rewrite ES. simpl. rewrite lookup_insert_all, decide_True; [done|].
    apply list_elem_of_fmap. by exists r.
  - pose proof (affirm_status id (elements (list_to_set ps : gset PortfolioId))
      (sender_subset (filtered_legs id (list_to_set ps) w)) rs (settlement w) id (rd_leg_id r)) as Hst.
    rewrite decide_True in Hst by done. unfold instruction_leg_status.
    change (∃ a u, leg_status (settlement w') id (rd_leg_id r) = ExecutionToBeSkipped a u).
    by rewrite ES.
Qed.

Lemma allowed_venue_fold (legs : list (LegId * Leg)) v w seen seen' :
  (∀ t, t ∈ seen → venue_filtering t w = true → venue_allow_list t v w = true) →
  fold_check (λ tickers il, ensure_venue_filtering tickers (leg_ticker il.2) v w) seen legs
    = Ok seen' →
  ∀ l leg, (l, leg) ∈ legs → venue_filtering (leg_ticker leg) w = true →
    venue_allow_list (leg_ticker leg) v w = true.
Proof.
  revert seen. induction legs as [|[l0 leg0] legs IH]; intros seen Hseen H l leg Hin;
    [by apply elem_of_nil in Hin|].
  cbn [fold_check snd] in H. apply bind_Ok in H as (s1 & H1 & H2).
  unfold ensure_venue_filtering in H1. apply bind_Ok in H1 as ([] & Hc & [= <-]).
  assert (venue_filtering (leg_ticker leg0) w = true →
    venue_allow_list (leg_ticker leg0) v w = true) as H0.
  { intros Hf. rewrite Hf in Hc. destruct (decide (leg_ticker leg0 ∈ seen)) as [Hs|Hs].
    - by apply Hseen.
    - rewrite bool_decide_eq_true_2 in Hc by done. simpl in Hc. by ok_inv. }
  apply elem_of_cons in Hin as [[= -> ->]|Hin]; [done|].
  eapply IH; [|exact H2|exact Hin]. intros t Ht.
  apply elem_of_union in Ht as [->%elem_of_singleton|Ht]; [done|by apply Hseen].
Qed.

Lemma allowed_venue_run (legs : list (LegId * Leg)) v w seen :
  (∀ l leg, (l, leg) ∈ legs → venue_filtering (leg_ticker leg) w = true →
     venue_allow_list (leg_ticker leg) v w = true) →
  ∃ seen', fold_check (λ tickers il, ensure_venue_filtering tickers (leg_ticker il.2) v w) seen legs
    = Ok seen'.
Proof.
  revert seen. induction legs as [|[l0 leg0] legs IH]; intros seen Hall; simpl; [by eexists|].
  assert (ensure_venue_filtering seen (leg_ticker leg0) v w = Ok ({[leg_ticker leg0]} ∪ seen)) as ->.
  { unfold ensure_venue_filtering. destruct (bool_decide _); [|done]. simpl.
    destruct (venue_filtering (leg_ticker leg0) w) eqn:Hf; [|done].
    rewrite (Hall l0 leg0); [done|by left|done]. }
  simpl. apply IH. intros l leg Hin. apply (Hall l). by right.
Qed.

(** the check of venues, which looks at each ticker once, is the plain
    one: it passes exactly if every leg's ticker either does not filter venues
    or allows the venue. *)
Theorem allowed_venue_spec (legs : list (LegId * Leg)) (v : VenueId) (w : World) :
  ensure_allowed_venue legs v w = Ok tt ↔
  ∀ l leg, (l, leg) ∈ legs → venue_filtering (leg_ticker leg) w = true →
    venue_allow_list (leg_ticker leg) v w = true.
Proof.
  unfold ensure_allowed_venue. split.
  - intros H. ok_inv. match goal with H : fold_check _ _ _ = _ |- _ =>
      exact (allowed_venue_fold legs v w ∅ _ ltac:(set_solver) H) end.
  - intros Hall. destruct (allowed_venue_run legs v w ∅ Hall) as [seen' ->]. done.
Qed.

(** what the mediators' expiry check accepts: every mediator of the
    instruction has affirmed, and an affirmation with an expiry is accepted
    only after the expiry has passed. *)
Theorem expiry_check_accepts_expired (id : InstructionId) (w : World) :
  ensure_non_expired_affirmations id w = Ok tt ↔
  ∀ d m, InstructionMediatorsAffirmations (settlement w) !! (id, d) = Some m →
    m = MedAffirmed None ∨ ∃ e, m = MedAffirmed (Some e) ∧ e < now w.
Proof.
  unfold ensure_non_expired_affirmations. rewrite for_check_Ok. split.
  - intros Hall d m Hm. assert (m ∈ (iter_prefix (InstructionMediatorsAffirmations (settlement w)) id).*2)
      as Hin by (apply list_elem_of_fmap; exists (d, m); split; [done|by apply elem_of_iter_prefix]).
    specialize (Hall m Hin). destruct m as [| |[e|]]; try done; [|by left].
    apply ensure_Ok in Hall. ok_inv. right. by exists e.
  - intros Hall m ([d m'] & -> & Hin)%list_elem_of_fmap. apply elem_of_iter_prefix in Hin.
    destruct (Hall d m' Hin) as [->|(e & -> & Hlt)]; [done|]. simpl.
    by rewrite bool_decide_eq_true_2.
Qed.
End properties.

(* ------------------------------------------------------------------ *)
(** ** The properties on the sample chain *)

Import Sample.
#[local] Existing Instances sample_runtime sample_externals sample_settlement nothing_reserved.

Lemma execution_needs_everyone_witness :
  all_affirmed (settlement (after affirmed_by_all)) 1 ∧
  user_affirmations (pf 2) 1 (after affirmed_by_all) = Affirmed.
Proof.
  destruct (sample_ok affirmed_by_all ltac:(by vm_compute)) as [Hok _].
  split; [|by vm_compute].
  apply (execution_needs_everyone 1 0 (after affirmed_by_all)
    (execute_instruction 1 0 (after affirmed_by_all)).2 Hok); [|apply run_Ok; by vm_compute].
  unfold Portfolio.balances_fit. by vm_compute.
Defined.

Lemma execution_settles_witness :
  let w := after affirmed_by_all in
  let w' := (execute_instruction_retryable 1 0 w).2 in
  Asset.balance_of acme 2 w' + 0 = Asset.balance_of acme 2 w + 100.
Proof.
  destruct (sample_ok affirmed_by_all ltac:(by vm_compute)) as [Hok _]. intros w w'. subst w w'.
  destruct (execution_settles 1 0 (after affirmed_by_all)
    (execute_instruction_retryable 1 0 (after affirmed_by_all)).2 Hok) as (_ & H & _).
  - unfold Portfolio.balances_fit. by vm_compute.
  - apply run_Ok. by vm_compute.
  - specialize (H 2 acme).
    assert (lsum (identity_out 2 acme) (sorted_legs 1 (after affirmed_by_all)) = 0) as E1
      by (by vm_compute).
    assert (lsum (identity_in 2 acme) (sorted_legs 1 (after affirmed_by_all)) = 100) as E2
      by (by vm_compute).
    by rewrite E1, E2 in H.
Defined.

Lemma execute_instruction_retryable_err_run :
  execute_instruction_retryable 1 0 (after affirmed_by_sender) =
    (Err (ESettlement NotAllAffirmationsHaveBeenReceived),
     (execute_instruction_retryable 1 0 (after affirmed_by_sender)).2).
Proof. apply run_Err. by vm_compute. Qed.

Lemma notes_portfolio w w' f m e :
  w' = w <| settlement ::= f |> <| meter := m |> <| events := e |> → portfolio w' = portfolio w.
Proof. by intros ->. Qed.

Lemma failed_execution_is_atomic_witness :
  instruction_status 1 (execute_instruction_retryable 1 0 (after affirmed_by_sender)).2
    = StatusFailed ∧
  portfolio (execute_instruction_retryable 1 0 (after affirmed_by_sender)).2
    = portfolio (after affirmed_by_sender).
Proof.
  split; [by vm_compute|].
  exact (notes_portfolio _ _ _ _ _ (failed_execution_is_atomic 1 0 (after affirmed_by_sender)
    (execute_instruction_retryable 1 0 (after affirmed_by_sender)).2
    (ESettlement NotAllAffirmationsHaveBeenReceived) execute_instruction_retryable_err_run)).
Defined.

(** Everybody has affirmed: the legs are settled. *)
Notation scheduled := (execute_scheduled_instruction Root 1 (mkWeight 1000 1000)).
Lemma scheduled_execution_returns_witness :
  legs_settled 1 (after affirmed_by_all) (scheduled (after affirmed_by_all)).2.
Proof.
  destruct (sample_ok affirmed_by_all ltac:(by vm_compute)) as [Hok _].
  destruct (scheduled_execution_returns 1 (mkWeight 1000 1000) (after affirmed_by_all) Hok)
    as (w' & E & [H|(e & m & l & H)]).
  - by vm_compute.
  - unfold Portfolio.balances_fit. by vm_compute.
  - rewrite E. exact H.
  - exfalso. assert (instruction_status 1 (scheduled (after affirmed_by_all)).2 = StatusSuccess 1) as S
      by (by vm_compute).
    rewrite E, H in S. unfold instruction_status in S. simpl in S. by rewrite getd_insert_eq in S.
Defined.

Lemma release_never_fails_witness :
  (for_each (legs_of 1 (after affirmed_by_all)) (release_lock_strict 1) (after affirmed_by_all)).1
    = Ok tt.
Proof.
  destruct (sample_ok affirmed_by_all ltac:(by vm_compute)) as [Hok _].
  destruct (release_never_fails 1 (after affirmed_by_all) Hok) as [_ ->]. done.
Defined.

Lemma affirming_locks_witness :
  let w' := (unsafe_affirm_instruction 1 1 {[pf 1]} None None (after added)).2 in
  instruction_affirms_pending 1 w' + 1 = 3.
Proof.
  destruct (sample_ok added ltac:(by vm_compute)) as [Hok _].
  destruct (affirming_locks 1 1 {[pf 1]} None None (after added)
    (unsafe_affirm_instruction 1 1 {[pf 1]} None None (after added)).2
    (filtered_legs 1 {[pf 1]} (after added)) Hok) as (_ & _ & _ & _ & H).
  - apply run_Ok. by vm_compute.
  - simpl. assert (gset_len ({[pf 1]} : gset PortfolioId) = 1) as E by (by vm_compute).
    rewrite E in H. rewrite H. by vm_compute.
Defined.

Definition affirmed1 : World :=
  (unsafe_affirm_instruction 1 1 (list_to_set [pf 1]) None None (after added)).2.
Definition withdrawn1 : World :=
  (unsafe_withdraw_instruction_affirmation 1 1 [pf 1] None None affirmed1).2.

Lemma affirmed1_run :
  unsafe_affirm_instruction 1 1 (list_to_set [pf 1]) None None (after added) =
    (Ok (filtered_legs 1 {[pf 1]} (after added)), affirmed1).
Proof. unfold affirmed1. apply run_Ok. by vm_compute. Qed.

Lemma withdrawn1_run :
  unsafe_withdraw_instruction_affirmation 1 1 [pf 1] None None affirmed1 =
    (Ok (filtered_legs 1 {[pf 1]} affirmed1), withdrawn1).
Proof. unfold withdrawn1. apply run_Ok. by vm_compute. Qed.

Lemma withdrawing_undoes_affirming_witness :
  Portfolio.locked_assets (pf 1) acme affirmed1 = 100 ∧
  locked_units (portfolio withdrawn1) (pf 1, acme, None) =
    locked_units (portfolio (after added)) (pf 1, acme, None).
Proof.
  destruct (sample_ok added ltac:(by vm_compute)) as [Hok Hf].
  split; [by vm_compute|].
  apply (withdrawing_undoes_affirming 1 1 1 [pf 1] None None None None (after added) affirmed1
    withdrawn1 (filtered_legs 1 {[pf 1]} (after added)) (filtered_legs 1 {[pf 1]} affirmed1) Hok
    (sf_affirmations _ Hf) affirmed1_run withdrawn1_run).
Defined.

Definition rejected : World :=
  (base_reject_instruction (Signed 2) 1 (Some (pf 2)) None (after affirmed_by_all)).2.

Lemma rejected_run :
  base_reject_instruction (Signed 2) 1 (Some (pf 2)) None (after affirmed_by_all) =
    (Ok tt, rejected).
Proof. unfold rejected. apply run_Ok. by vm_compute. Qed.

Lemma rejecting_releases_witness :
  instruction_status 1 rejected = StatusRejected (block_number (after affirmed_by_all)) ∧
  asset rejected = asset (after affirmed_by_all).
Proof.
  destruct (sample_ok affirmed_by_all ltac:(by vm_compute)) as [Hok _].
  destruct (rejecting_releases (Signed 2) 1 (Some (pf 2)) None (after affirmed_by_all) rejected
    Hok rejected_run) as (_ & HA & _ & _ & _ & HS & _).
  exact (conj HS HA).
Defined.

Lemma adding_asks_everyone_witness :
  let w' := (base_add_instruction 1 1 SettleOnAffirmation None None sample_legs None
               (Some {[4]}) (after setup)).2 in
  mediator_affirmation 1 4 w' = MedPending ∧ user_affirmations (pf 1) 1 w' = AffPending.
Proof.
  destruct (sample_ok setup ltac:(by vm_compute)) as [Hok _].
  destruct (adding_asks_everyone 1 1 SettleOnAffirmation None None sample_legs None
    (Some {[4]}) (after setup)
    (base_add_instruction 1 1 SettleOnAffirmation None None sample_legs None
       (Some {[4]}) (after setup)).2 1 Hok)
    as (_ & _ & _ & _ & _ & HS & _ & HM & _).
  - unfold affirmations_fit. by vm_compute.
  - apply run_Ok. by vm_compute.
  - split; [apply HM; set_solver|]. apply (HS (Fungible (pf 1) (pf 2) acme 100)); [by left|done].
Defined.

Lemma receipts_are_genuine_witness :
  venue_signers 1 9 (after affirmed_by_sender) = true ∧
  receipts_used 9 7 (after affirmed_by_sender) = false.
Proof.
  destruct (sample_ok affirmed_by_sender ltac:(by vm_compute)) as [Hok _].
  destruct (receipts_are_genuine (Signed 2) 1 [sample_receipt] [pf 2] None
    (after affirmed_by_sender)
    (base_affirm_with_receipts (Signed 2) 1 [sample_receipt] [pf 2] None
       (after affirmed_by_sender)).2
    (filtered_legs 1 {[pf 2]} (after affirmed_by_sender)) Hok) as [_ H].
  - apply run_Ok. by vm_compute.
  - destruct (H sample_receipt) as (Hu & Hv & _); [by left|]. split; [exact Hv|exact Hu].
Defined.

(* ------------------------------------------------------------------ *)
(** ** Behaviour worth knowing, on the sample chain *)

(** A finished instruction can be scheduled again: an affirmation for no
    portfolio succeeds on it, the run it schedules turns the status from
    successful to failed, and a run after that to successful again. *)
Definition reopened : list (Origin * call) :=
  settled ++ [(Signed 3, CallSettlement (Settlement.AffirmInstruction 1 [] None));
              (Root, CallSettlement (Settlement.ExecuteScheduledInstruction 1 (mkWeight 1000 0)))].

Theorem finished_status_is_not_final :
  runs reopened = true ∧
  instruction_status 1 (after settled) = StatusSuccess 1 ∧
  instruction_status 1 (after reopened) = StatusFailed.
Proof. by vm_compute. Qed.

(** With a mediator still pending, [affirm_and_execute_instruction] reports
    success and prunes the instruction without moving anything: the sender's
    tokens stay locked for good. *)
Definition mediated : World :=
  (base_add_instruction 1 1 SettleOnAffirmation None None
     [Fungible (pf 1) (pf 2) acme 100] None (Some {[4]}) (after setup)).2.
Definition sender_affirmed : World := (base_affirm_instruction (Signed 1) 1 [pf 1] None mediated).2.

Theorem affirm_and_execute_skips_execution :
  let w' := (affirm_and_execute_instruction (Signed 2) 1 None [pf 2] 2 sender_affirmed).2 in
  (affirm_and_execute_instruction (Signed 2) 1 None [pf 2] 2 sender_affirmed).1 = Ok tt ∧
  instruction_affirms_pending 1 sender_affirmed = 2 ∧
  instruction_status 1 w' = StatusSuccess 1 ∧
  Asset.balance_of acme 2 w' = 0 ∧
  Portfolio.locked_assets (pf 1) acme w' = 100 ∧ legs_of 1 w' = [].
Proof. by vm_compute. Qed.
End SettlementProperties.
