(* ===== verification/LedgerProperties.v ===== *)
(** What the asset, portfolio, NFT, checkpoint and identity pallets promise:
    the effect of issuing, redeeming and moving, the search of the checkpoint
    lists, the permission sets, and the single use of authorizations. *)

From stdpp Require Import base numbers list gmap sets strings sorting relations.
From S2P Require Import Prelude Subset AssetIdentifier Types SettlementTypes Schedules State.
From S2P Require Import Identity Agents Portfolio Checkpoint Asset Nft Ledger Settlement.
From S2P Require Import SettlementInv SettlementAdd Execution System Sample.

Local Open Scope N_scope.

Module LedgerProperties.

Section properties.
Context {RT : Runtime} {EX : Externals}.

(** issuing adds to the issuer and to the supply: the caller is an agent
    of the asset with a valid portfolio, the asset is fungible, the amount has
    the granularity of the asset, the issuer's portfolio, balance and the
    supply all grow by exactly the amount, and the supply stays in bounds. *)
Theorem issuing_effect (o : Origin) (t : Ticker) (amount : Balance) (k : PortfolioKind)
    (w w' : World) (Hok : Ledger.ledger_ok w) (H : Asset.issue o t amount k w = (Ok tt, w')) :
  ∃ pid, Asset.ensure_origin_ticker_and_portfolio_permissions o t k false w = Ok pid ∧
    Asset.check_granularity t amount w = true ∧ Asset.nft_asset t w = Some false ∧
    Portfolio.portfolio_asset_balances pid t w' =
      Portfolio.portfolio_asset_balances pid t w + amount ∧
    Asset.balance_of t (did pid) w' = Asset.balance_of t (did pid) w + amount ∧
    Asset.supply t w' = Asset.supply t w + amount ∧ Asset.supply t w' ≤ Asset.MAX_SUPPLY.
Proof.
  unfold Asset.issue, set_meter in H. ok_inv.
  match goal with H : Asset.ensure_origin_ticker_and_portfolio_permissions _ _ _ _ _ = Ok ?p |- _ =>
    exists p end.
  apply Asset.mint_Ok in H as (token & Ht & Hfun & Hmax & Hg & _ & EA & EP & _). simpl in *.
  destruct (Asset.supply_bounds w (Ledger.ok_supplies _ Hok)) as [Hb1 Hb2].
  match goal with H : Asset.ensure_origin_ticker_and_portfolio_permissions _ _ _ _ _ = Ok ?p |- _ =>
    specialize (Hb1 t (did p)); specialize (Hb2 t p) end.
  pose proof Asset.max_supply_fits as Hfit.
  assert (Asset.supply t w = total_supply token) as Hs by (unfold Asset.supply; by rewrite Ht).
  split_and!; try done.
  - unfold Asset.nft_asset. by rewrite Ht, Hfun.
  - unfold Portfolio.portfolio_asset_balances in *. rewrite EP. simpl. rewrite getd_insert_eq.
    rewrite wrapping_add_small by lia. done.
  - unfold Asset.balance_of in *. rewrite EA. simpl. rewrite getd_insert_eq.
    rewrite wrapping_add_small by lia. done.
  - rewrite Hs. unfold Asset.supply. rewrite EA. simpl. by rewrite lookup_insert_eq.
  - unfold Asset.supply. rewrite EA. simpl. by rewrite lookup_insert_eq.
Qed.

(** redeeming takes from the free part: the caller is an agent with
    custody of the portfolio, what is locked stays covered, and the portfolio,
    the balance and the supply all shrink by exactly the value, with no
    underflow. *)
Theorem redeeming_effect (o : Origin) (t : Ticker) (value : Balance) (k : PortfolioKind)
    (w w' : World) (Hok : Ledger.ledger_ok w) (H : Asset.base_redeem o t value k w = (Ok tt, w')) :
  ∃ pid, Asset.ensure_origin_ticker_and_portfolio_permissions o t k true w = Ok pid ∧
    Portfolio.locked_assets pid t w + value ≤ Portfolio.portfolio_asset_balances pid t w ∧
    Portfolio.portfolio_asset_balances pid t w' + value =
      Portfolio.portfolio_asset_balances pid t w ∧
    Asset.balance_of t (did pid) w' + value = Asset.balance_of t (did pid) w ∧
    Asset.supply t w' + value = Asset.supply t w ∧
    Portfolio.locked_assets pid t w' = Portfolio.locked_assets pid t w.
Proof.
  apply Asset.base_redeem_Ok in H
    as (pid & token & Hp & Ht & _ & Hle & Hfree & _ & EA & EP & _). exists pid.
  destruct (Asset.supply_bounds w (Ledger.ok_supplies _ Hok)) as [Hb1 Hb2].
  specialize (Hb1 t (did pid)). specialize (Hb2 t pid).
  pose proof (Asset.ok_max _ (Ledger.ok_supplies _ Hok) t) as Hm.
  pose proof Asset.max_supply_fits as Hfit.
  assert (Asset.supply t w = total_supply token) as Hs by (unfold Asset.supply; by rewrite Ht).
  split_and!; try done.
  - unfold Portfolio.portfolio_asset_balances in *. rewrite EP. simpl. rewrite getd_insert_eq. lia.
  - unfold Asset.balance_of in *. rewrite EA. simpl. rewrite getd_insert_eq.
    rewrite wrapping_sub_small by lia. lia.
  - rewrite Hs. unfold Asset.supply. rewrite EA. simpl. rewrite lookup_insert_eq. simpl. lia.
  - unfold Portfolio.locked_assets. by rewrite EP.
Qed.

(** moving funds stays within one identity: the balances of the two
    portfolios change by exactly what the list moves, those of no other
    portfolio change, the identity's balance and what is locked stay, and
    locked tokens and NFTs do not move. *)
Theorem moving_funds_effect (o : Origin) (from to : PortfolioId) (funds : list Fund)
    (w w' : World) (Hok : Ledger.ledger_ok w)
    (H : Portfolio.move_portfolio_funds o from to funds w = (Ok tt, w')) :
  from ≠ to ∧ did from = did to ∧
  (∀ p t, Portfolio.portfolio_asset_balances p t w' =
    if decide (p = from) then Portfolio.portfolio_asset_balances p t w - Portfolio.moved funds t
    else if decide (p = to) then Portfolio.portfolio_asset_balances p t w + Portfolio.moved funds t
    else Portfolio.portfolio_asset_balances p t w) ∧
  (∀ t, 0 < Portfolio.moved funds t →
    Portfolio.locked_assets from t w + Portfolio.moved funds t ≤
      Portfolio.portfolio_asset_balances from t w) ∧
  (∀ t i, Portfolio.moves_nft funds t i →
    Portfolio.has_nft from t i w = true ∧ Portfolio.nft_locked from t i w = false) ∧
  (∀ p t, Portfolio.locked_assets p t w' = Portfolio.locked_assets p t w) ∧
  asset w' = asset w.
Proof.
  apply Portfolio.move_portfolio_funds_Ok in H as (Hne & Hdid & _ & [Hcov Hnft] & EP & EA & _).
  destruct (Asset.supply_bounds w (Ledger.ok_supplies _ Hok)) as [Hb1 Hb2].
  pose proof Asset.max_supply_fits as Hfit.
  destruct (Portfolio.put_funds_locks from to funds (portfolio w)) as (EL & _ & _).
  split_and!; try done.
  - intros p t. unfold Portfolio.portfolio_asset_balances. rewrite EP.
    apply Portfolio.put_funds_balances; [done| |].
    + intros t'. destruct (decide (0 < Portfolio.moved funds t')) as [Hpos|]; [|lia].
      specialize (Hcov t' Hpos). lia.
    + intros t'. pose proof (Hb2 t' from) as H1. pose proof (Hb2 t' to) as H2.
      unfold Portfolio.portfolio_asset_balances in *. rewrite <- Hdid in H2.
      pose proof (Hb1 t' (did from)) as H3.
      pose proof (Asset.ok_max _ (Ledger.ok_supplies _ Hok) t') as Hm. lia.
  - intros t i Hm. destruct (Hnft t i Hm) as [Hh Hl].
    unfold Portfolio.has_nft, Portfolio.nft_locked. split; [by apply has_key_true|by apply has_key_false].
  - intros p t. unfold Portfolio.locked_assets. by rewrite EP, EL.
Qed.

(** the binary search of the checkpoint lists finds what a scan finds: on
    an ascending list it is the least element not below the key, and there is
    no index out of range when there is one. *)
Theorem find_ceiling_is_scan (arr : list N) (key : N) (Ha : Checkpoint.ascending arr) :
  Checkpoint.find_ceiling arr key = Checkpoint.ceiling arr key ∧
  (∀ x, Checkpoint.find_ceiling arr key = Some x ↔
    x ∈ arr ∧ key ≤ x ∧ ∀ y, y ∈ arr → key ≤ y → x ≤ y).
Proof.
  rewrite Checkpoint.find_ceiling_eq by done. split; [done|]. intros x.
  assert (∀ arr' : list N, Checkpoint.ascending arr' → ∀ z, head arr' = Some z →
    ∀ y, y ∈ arr' → z ≤ y) as Hhead.
  { intros arr' Ha' z Hz y [i Hi]%list_elem_of_lookup_1. destruct arr' as [|z' arr']; [done|].
    simpl in Hz. simplify_eq. destruct i as [|i]; [simpl in Hi; simplify_eq; lia|].
    assert (z < y); [|lia]. apply (Ha' 0%nat (S i)); [lia|done|done]. }
  assert (Checkpoint.ascending (filter (λ x, key ≤ x) arr)) as Haf.
  { clear Hhead. revert Ha. induction arr as [|a arr IH]; intros Ha; [done|].
    assert (Checkpoint.ascending arr) as Ha'.
    { intros i j u v Hij Hu Hv. apply (Ha (S i) (S j)); [lia|done|done]. }
    rewrite filter_cons. case_decide; [|by apply IH].
    intros i j u v Hij Hu Hv. destruct i as [|i], j as [|j]; try lia; simpl in *.
    - simplify_eq. apply list_elem_of_lookup_2 in Hv. apply list_elem_of_filter in Hv as [_ Hv].
      apply list_elem_of_lookup_1 in Hv as [m Hm]. apply (Ha 0%nat (S m)); [lia|done|done].
    - eapply (IH Ha'); [|done|done]. lia. }
  unfold Checkpoint.ceiling. split.
  - intros Hx. assert (x ∈ filter (λ x, key ≤ x) arr) as Hin.
    { destruct (filter _ arr); [done|]. simpl in Hx. simplify_eq. by left. }
    apply list_elem_of_filter in Hin as [Hk Hin]. split_and!; [done|done|].
    intros y Hy Hky. eapply Hhead; [exact Haf|exact Hx|]. by apply list_elem_of_filter.
  - intros (Hin & Hk & Hmin).
    assert (x ∈ filter (λ x, key ≤ x) arr) as Hf by (by apply list_elem_of_filter).
    destruct (head (filter (λ x, key ≤ x) arr)) as [z|] eqn:Hz.
    + f_equal. assert (z ∈ filter (λ x, key ≤ x) arr) as Hzin.
      { destruct (filter _ arr); [done|]. simpl in Hz. simplify_eq. by left. }
      pose proof (Hhead _ Haf z Hz x Hf) as H1. apply list_elem_of_filter in Hzin as [Hkz Hzin].
      pose proof (Hmin z Hzin Hkz). lia.
    + destruct (filter _ arr); [by apply elem_of_nil in Hf|done].
Qed.

(** a deleted portfolio was empty: it held no tokens, none of it was
    locked, no NFT was in it, and its owner had custody; afterwards its number
    and its name are free and the owner is its custodian again. *)
Theorem deleted_portfolio_was_empty (o : Origin) (num : PortfolioNumber) (w w' : World)
    (Hok : Portfolio.portfolio_ok (portfolio w))
    (H : Portfolio.delete_portfolio o num w = (Ok tt, w')) :
  ∃ data name, Identity.ensure_origin_call_permissions o w = Ok data ∧
    let pid := user_portfolio (primary_did data) num in
    Portfolio.ensure_portfolio_custody_and_permission pid (primary_did data)
      (secondary_key data) w = Ok tt ∧
    (∀ t, Portfolio.portfolio_asset_balances pid t w = 0 ∧ Portfolio.locked_assets pid t w = 0) ∧
    (∀ t i, Portfolio.has_nft pid t i w = false) ∧
    Portfolios (portfolio w) !! (primary_did data, num) = Some name ∧
    Portfolios (portfolio w') !! (primary_did data, num) = None ∧
    NameToNumber (portfolio w') !! (primary_did data, name) = None ∧
    PortfolioCustodian (portfolio w') !! pid = None.
Proof.
  unfold Portfolio.delete_portfolio, Portfolio.ensure_user_portfolio_validity, on_portfolio,
    deposit_event in H. ok_inv.
  match goal with H : Identity.ensure_origin_call_permissions _ _ = Ok ?d,
    H' : Portfolios _ !! _ = Some ?n |- _ => exists d, n; rename d into data end.
  pose proof (Portfolio.ok_balances _ Hok) as Hb.
  match goal with H : Portfolio.asset_count _ _ = 0 |- _ =>
    pose proof (Portfolio.zero_balances _ _ Hb H) as Hz end.
  split_and!; try done; simpl.
  - intros t. split; [apply Hz|].
    pose proof (Portfolio.ok_locked _ Hb (user_portfolio (primary_did data) num, t)) as Hl.
    rewrite Hz in Hl. unfold Portfolio.locked_assets. lia.
  - intros t i. unfold Portfolio.has_nft. apply has_key_false.
    destruct (PortfolioNFT (portfolio w) !! _) as [b|] eqn:Hn; [|done].
    match goal with H : iter_prefix (PortfolioNFT (portfolio w)) ?p = [] |- _ =>
      assert (((t, i), b) ∈ iter_prefix (PortfolioNFT (portfolio w)) p) as Hin
        by (by apply elem_of_iter_prefix); rewrite H in Hin end.
    by apply elem_of_nil in Hin.
  - by rewrite lookup_delete_eq.
  - by rewrite lookup_delete_eq.
  - by rewrite lookup_delete_eq.
Qed.

(** an authorization is good for one acceptance: once it was accepted it
    is gone for the giver and the receiver, and accepting it again fails with
    [AuthInvalid] and writes nothing, whatever the acceptance would do. *)
Theorem authorization_is_consumed (target : Signatory) (id : N)
    (accepter accepter' : AuthorizationData → IdentityId → M unit) (w w' : World)
    (H : Identity.accept_auth_with target id accepter w = (Ok tt, w')) :
  (∃ auth, Authorizations (identity w) !! (target, id) = Some auth ∧
     (∀ e, auth_expiry auth = Some e → now w < e) ∧
     AuthorizationsGiven (identity w') !! (authorized_by auth, id) = None) ∧
  Authorizations (identity w') !! (target, id) = None ∧
  Identity.accept_auth_with target id accepter' w' = (Err (EAuth AuthInvalid), w').
Proof.
  apply Identity.accept_auth_with_Ok in H as (auth & w1 & Ha & He & _ & ->).
  assert (∀ w2, Authorizations (identity w2) !! (target, id) = None →
    Identity.accept_auth_with target id accepter' w2 = (Err (EAuth AuthInvalid), w2)) as Hno.
  { intros w2 Hn. unfold Identity.accept_auth_with, Identity.ensure_authorization, check, mbind,
      SE_bind. by rewrite Hn. }
  split_and!.
  - exists auth. split_and!; [done|done|]. simpl. by rewrite lookup_delete_eq.
  - simpl. by rewrite lookup_delete_eq.
  - apply Hno. simpl. by rewrite lookup_delete_eq.
Qed.

(** a registered ticker is reserved: while a registration by somebody else
    has not expired, registering the ticker fails; and a registration that
    succeeds makes the caller the owner. *)
Theorem ticker_registration_is_exclusive (o : Origin) (t : Ticker) (d : IdentityId) (w w' : World)
    (Hd : Identity.ensure_perms o w = Ok d) (H : Asset.register_ticker o t w = (Ok tt, w')) :
  (∀ reg, Tickers (asset w) !! t = Some reg →
     reg_owner reg = d ∨ ∃ e, reg_expiry reg = Some e ∧ e < now w) ∧
  Tokens (asset w) !! t = None ∧
  (∃ e, Tickers (asset w') !! t = Some (mkTickerRegistration d e)) ∧
  AssetOwnershipRelations (asset w') !! (d, t) = Some TickerOwned.
Proof.
  unfold Asset.register_ticker, Asset.ticker_registration_checks, Asset.ensure_asset_fresh,
    Asset.is_ticker_available_or_registered_to in H. ok_inv.
  match goal with H1 : Identity.ensure_perms o w = Ok ?x |- _ =>
    rewrite Hd in H1; injection H1 as <- end.
  match goal with H : external _ _ = _ |- _ => apply external_Ok in H as (x & m & ->) end.
  split_and!.
  - intros reg Hr. rewrite Hr in *. destruct (reg_expiry reg) as [e|].
    + destruct (bool_decide (e < now w)) eqn:He; [right; exists e; by ok_inv|].
      left. destruct (bool_decide (reg_owner reg = d)) eqn:Ho; [by ok_inv|done].
    + left. destruct (bool_decide (reg_owner reg = d)) eqn:Ho; [by ok_inv|done].
  - match goal with H : has_key (Tokens _) _ = false |- _ => by apply has_key_false in H end.
  - unfold Asset.unverified_register_ticker, on_asset, deposit_event in H. ok_inv.
    eexists. simpl. by rewrite lookup_insert_eq.
  - unfold Asset.unverified_register_ticker, on_asset, deposit_event in H. ok_inv. simpl.
    by rewrite lookup_insert_eq.
Qed.

(** the comparison of permission sets is set inclusion: over a type with
    infinitely many values, [ge] holds exactly if the other set is included,
    and [union] is the union of the sets. *)
Theorem permission_order_is_inclusion {A : Type} `{Countable A} `{!Infinite A}
    (p q : SubsetRestriction A) :
  (Subset.ge p q = true ↔ ∀ x, Subset.denotes q x → Subset.denotes p x) ∧
  (∀ x, Subset.denotes (Subset.union p q) x ↔ Subset.denotes p x ∨ Subset.denotes q x).
Proof.
  split; [split; [apply Subset.ge_sound|apply Subset.ge_complete]|].
  intros x. apply Subset.union_denotes.
Qed.
End properties.

(* ------------------------------------------------------------------ *)
(** ** The properties on the sample chain *)

Import System Sample.
#[local] Existing Instances sample_runtime sample_externals sample_settlement.

Lemma sample_ledger cs : runs cs = true → Ledger.ledger_ok (after cs).
Proof. intros H. apply (sample_ok cs H). Qed.

Lemma issuing_effect_witness :
  Asset.supply acme (Asset.issue (Signed 1) acme 5 Default (after setup)).2 ≤ Asset.MAX_SUPPLY.
Proof.
  destruct (issuing_effect (Signed 1) acme 5 Default (after setup)
    (Asset.issue (Signed 1) acme 5 Default (after setup)).2
    (sample_ledger setup ltac:(by vm_compute))) as (pid & _ & _ & _ & _ & _ & _ & H).
  - apply run_Ok. by vm_compute.
  - exact H.
Defined.

Lemma redeeming_effect_witness :
  Asset.supply acme (Asset.base_redeem (Signed 1) acme 5 Default (after affirmed_by_all)).2 + 5
    = 1000.
Proof.
  destruct (redeeming_effect (Signed 1) acme 5 Default (after affirmed_by_all)
    (Asset.base_redeem (Signed 1) acme 5 Default (after affirmed_by_all)).2
    (sample_ledger affirmed_by_all ltac:(by vm_compute))) as (pid & _ & _ & _ & _ & H & _).
  - apply run_Ok. by vm_compute.
  - rewrite H. by vm_compute.
Defined.

Definition with_portfolio : list (Origin * call) :=
  setup ++ [(Signed 1, CallPortfolio (Portfolio.CreatePortfolio [1; 2]))].
Definition user1 : PortfolioId := mkPortfolioId 1 (User 1).
Definition some_funds : list Fund :=
  [mkFund (FungibleFund acme 40) None; mkFund (NonFungibleFund (mkNFTs art [2])) None].

Lemma moving_funds_effect_witness :
  let w' := (Portfolio.move_portfolio_funds (Signed 1) (pf 1) user1 some_funds
               (after with_portfolio)).2 in
  asset w' = asset (after with_portfolio) ∧ Portfolio.portfolio_asset_balances user1 acme w' = 40.
Proof.
  split; [|by vm_compute].
  apply (moving_funds_effect (Signed 1) (pf 1) user1 some_funds (after with_portfolio)
    (Portfolio.move_portfolio_funds (Signed 1) (pf 1) user1 some_funds (after with_portfolio)).2
    (sample_ledger with_portfolio ltac:(by vm_compute))).
  apply run_Ok. by vm_compute.
Defined.

Lemma find_ceiling_is_scan_witness :
  Checkpoint.find_ceiling [2; 5; 9] 3 = Checkpoint.ceiling [2; 5; 9] 3 ∧
  Checkpoint.ceiling [2; 5; 9] 3 = Some 5.
Proof.
  split; [|reflexivity].
  assert (Checkpoint.ascending [2; 5; 9]) as Ha.
  { intros [|[|[|i]]] [|[|[|j]]] x y Hij Hx Hy; simpl in *; simplify_eq; lia. }
  exact (proj1 (find_ceiling_is_scan [2; 5; 9] 3 Ha)).
Defined.

Lemma deleted_portfolio_was_empty_witness :
  ∃ data name, Identity.ensure_origin_call_permissions (Signed 1) (after with_portfolio) = Ok data ∧
    Portfolios (portfolio (after with_portfolio)) !! (primary_did data, 1) = Some name.
Proof.
  destruct (deleted_portfolio_was_empty (Signed 1) 1 (after with_portfolio)
    (Portfolio.delete_portfolio (Signed 1) 1 (after with_portfolio)).2
    (Ledger.ok_portfolio _ (sample_ledger with_portfolio ltac:(by vm_compute))))
    as (data & name & Hd & _ & _ & _ & Hn & _).
  - apply run_Ok. by vm_compute.
  - exists data, name. exact (conj Hd Hn).
Defined.

Definition authorized : World :=
  (Identity.add_auth 1 (SigIdentity 2) (PortfolioCustody (pf 1)) None (after setup)).2.
Definition custody_taken : World := (Portfolio.accept_portfolio_custody (Signed 2) 1 authorized).2.

Lemma authorization_is_consumed_witness :
  Authorizations (identity (Identity.accept_auth_with (SigIdentity 2) 1 (λ _ _, mret tt)
    authorized).2) !! (SigIdentity 2, 1) = None.
Proof.
  apply (authorization_is_consumed (SigIdentity 2) 1 (λ _ _, mret tt) (λ _ _, mret tt) authorized).
  apply run_Ok. by vm_compute.
Defined.

Lemma ticker_registration_is_exclusive_witness :
  Tokens (asset (after setup)) !! usd = None.
Proof.
  apply (ticker_registration_is_exclusive (Signed 2) usd 2 (after setup)
    (Asset.register_ticker (Signed 2) usd (after setup)).2); [by vm_compute|].
  apply run_Ok. by vm_compute.
Defined.

(* ------------------------------------------------------------------ *)
(** ** Behaviour worth knowing, on the sample chain *)

(** An NFT that is locked for an affirmed leg can be redeemed: the lock stays
    behind without an NFT. *)
Theorem locked_nft_can_be_redeemed :
  let w := after affirmed_by_all in
  let w' := (Nft.redeem_nft (Signed 1) art 1 Default w).2 in
  Portfolio.nft_locked (pf 1) art 1 w = true ∧
  (Nft.redeem_nft (Signed 1) art 1 Default w).1 = Ok tt ∧
  Portfolio.has_nft (pf 1) art 1 w' = false ∧ Portfolio.nft_locked (pf 1) art 1 w' = true.
Proof. by vm_compute. Qed.

(** The controller transfer of NFTs checks the caller's permissions for the
    ticker argument and moves the NFTs of another one: identity 3, an agent of
    its own asset only, takes an NFT of a collection it has nothing to do
    with. *)
Definition with_other_agent : list (Origin * call) :=
  setup ++ [(Signed 3, CallAsset (Asset.CreateAsset usd usd true EquityCommon [] None))].

Theorem controller_transfer_of_foreign_nft :
  let w := after with_other_agent in
  let w' := (Nft.controller_transfer (Signed 3) usd (mkNFTs art [1]) (pf 1) Default w).2 in
  GroupOfAgent (agents w) !! (art, 3) = None ∧
  NFTOwner (nft w) !! (art, 1) = Some (pf 1) ∧
  (Nft.controller_transfer (Signed 3) usd (mkNFTs art [1]) (pf 1) Default w).1 = Ok tt ∧
  NFTOwner (nft w') !! (art, 1) = Some (pf 3).
Proof. by vm_compute. Qed.

(** The amount issued in the funding round is not reduced by a redemption, so
    that it can exceed the supply. *)
Theorem issued_exceeds_supply :
  let w' := (Asset.base_redeem (Signed 1) acme 400 Default (after setup)).2 in
  getd 0 (IssuedInFundingRound (asset w')) (acme, []) = 1000 ∧ Asset.supply acme w' = 600.
Proof. by vm_compute. Qed.

(** A portfolio can be renamed by its owner while somebody else has its
    custody. *)
Definition custody_given : World :=
  (Portfolio.accept_portfolio_custody (Signed 2) 1
     (Identity.add_auth 1 (SigIdentity 2) (PortfolioCustody user1) None
        (after with_portfolio)).2).2.

Theorem rename_needs_no_custody :
  PortfolioCustodian (portfolio custody_given) !! user1 = Some 2 ∧
  (Portfolio.rename_portfolio (Signed 1) 1 [3] custody_given).1 = Ok tt.
Proof. by vm_compute. Qed.

(** Custody of a portfolio that does not exist can be accepted; when the number
    is handed out later, with another custodian, the first one keeps an entry
    for it. *)
Definition custody_of_nothing : World :=
  (Portfolio.accept_portfolio_custody (Signed 2) 1
     (Identity.add_auth 1 (SigIdentity 2) (PortfolioCustody user1) None (after setup)).2).2.
Definition custody_twice : World :=
  (Portfolio.create_custody_portfolio (Signed 3) 1 [7]
     (Portfolio.allow_identity_to_create_portfolios (Signed 1) 3 custody_of_nothing).2).2.

Theorem custody_of_nothing_stays :
  Portfolios (portfolio custody_of_nothing) !! (1, 1) = None ∧
  PortfolioCustodian (portfolio custody_twice) !! user1 = Some 3 ∧
  PortfoliosInCustody (portfolio custody_twice) !! (2, user1) = Some true.
Proof. by vm_compute. Qed.
End LedgerProperties.
