(* ===== verification/RuleProperties.v ===== *)
(** The theorems about identities, claims and the rules of transfers, with a
    witness for each: the bookkeeping of keys and claims, what the compliance
    check and the transfer restrictions decide, and that the statistics they
    read are those of the balances. *)

From stdpp Require Import base numbers list gmap sets strings relations.
From S2P Require Import Prelude Subset AssetIdentifier Types ClaimTypes SettlementTypes Schedules.
From S2P Require Import State Identity Metering Claims Keys KeysInv Agents Portfolio Checkpoint.
From S2P Require Import Asset Sorting Committee Group Providers Compliance ComplianceInv Statistics StatisticsInv.
From S2P Require Import Restrictions TransferReport Ledger System Sample RuleSample.

Local Open Scope N_scope.

Module RuleProperties.
Import Metering.

(* ------------------------------------------------------------------ *)
(** * Identities *)

Section identity.
Context {RT : Runtime} {FE : Fees} {IC : IdentityConfig} {GOV : Governance}.

(** A call of the identity pallet, a call of the group of CDD providers, which
    writes claims of its members, or anything that leaves the storage of the
    pallet alone. *)
Inductive identity_step : World → World → Prop :=
  | step_identity o c w w' :
      KeysInv.small_call c → Keys.dispatch o c w = (Ok tt, w') → identity_step w w'
  | step_providers o x w w' :
      Group.dispatch CddServiceProviders o x w = (Ok tt, w') → identity_step w w'
  | step_elsewhere w w' :
      KeyRecords (identity w') = KeyRecords (identity w) → records (rest w') = records (rest w) →
      identity_step w w'.

(** C31: Identities and keys point at each other: if they do in some state, they
    still do after every sequence of successful calls of the identity pallet
    (all of its dispatchables) and of the group of CDD providers, which adds and
    revokes claims.  A key is the primary key of an identity exactly if the
    identity names it, every key of an identity is listed with it and no other,
    parents and children name each other and no child has children; and every
    claim is filed under its target, type, issuer and scope, custom claim types
    being numbered without gaps or repetitions.  It is assumed that the hash that
    makes identifiers of new identities has no collisions between the nonces of
    one block, and that no single call creates 2^32 children or more. *)
Theorem identities_stay_consistent w w' :
  (∀ b n n', n ≤ u64_max → n' ≤ u64_max → hash_did b n = hash_did b n' → n = n') →
  KeysInv.identity_ok w → rtc identity_step w w' → KeysInv.identity_ok w'.
Proof.
  intros Hinj Hok Hs. induction Hs as [w|w1 w2 w3 Hs _ IH]; [done|]. apply IH.
  destruct Hs as [o c w1 w2 Hc H|o x w1 w2 H|w1 w2 H1 H2].
  - by eapply KeysInv.identity_dispatch_ok; [|apply Providers.providers_keep_identities|..].
  - pose proof (Providers.providers_in_order o x w1 Hok) as Hd. by rewrite H in Hd.
  - by eapply KeysInv.identity_ok_ext.
Qed.

(** The place of a claim. *)
Definition claim_key (target : IdentityId) (c : ClaimTypes.Claim) (iss : IdentityId)
    : Claim1stKey * Claim2ndKey :=
  (mkClaim1stKey target (claim_type c), mkClaim2ndKey iss (as_scope c)).

Lemma base_add_claim_effect target c iss e w w' :
  Claim.base_add_claim target c iss e w = (Ok tt, w') →
  identity w' = identity w ∧
  ∃ date, Claims (records (rest w')) =
    <[claim_key target c iss := mkIdentityClaim iss date (now w) e c]> (Claims (records (rest w))).
Proof.
  unfold Claim.base_add_claim, Claim.unverified_add_claim_with_scope, on_records, on_rest,
    deposit_event. intros H. ok_inv. split; [done|]. by eexists.
Qed.

Lemma add_claim_effect o target c e w w' :
  Claim.add_claim o target c e w = (Ok tt, w') →
  ∃ iss date, Identity.ensure_perms o w = Ok iss ∧ identity w' = identity w ∧
    Claims (records (rest w')) =
      <[claim_key target c iss := mkIdentityClaim iss date (now w) e c]> (Claims (records (rest w))).
Proof.
  unfold Claim.add_claim, Claim.ensure_signed_and_validate_claim_target. intros H.
  apply SE_bind_Ok in H as (iss & w1 & H1 & H). apply check_Ok in H1 as [H1 ->].
  apply bind_Ok in H1 as (d & Hd & H1). apply bind_Ok in H1 as (u & _ & H1). injection H1 as ->.
  exists iss. assert (∃ w1, Claim.base_add_claim target c iss e w1 = (Ok tt, w') ∧
    identity w1 = identity w ∧ now w1 = now w ∧ records (rest w1) = records (rest w))
    as (w1 & Hb & E1 & E2 & E3).
  { destruct c; unfold Claim.base_add_cdd_claim in H; ok_inv;
      try (match goal with H : call_elsewhere _ _ = _ |- _ =>
             apply call_elsewhere_Ok in H as (x & ->) end);
      by eexists. }
  apply base_add_claim_effect in Hb as (E4 & date & E5). exists date.
  by rewrite E5, E4, E1, E2, E3.
Qed.

(** A claim can be added and taken back: a successful [add_claim] files the
    claim, made by the caller now, where it is looked up; the caller can revoke
    it, and then the claims are those from before without this one. *)
Theorem claim_round_trip o target c expiry w w1 :
  Claim.add_claim o target c expiry w = (Ok tt, w1) →
  ∃ iss ic w2,
    Identity.ensure_perms o w = Ok iss ∧
    Claim.fetch_base_claim_with_issuer target (claim_type c) iss (as_scope c) w1 = Some ic ∧
    claim ic = c ∧ claim_issuer ic = iss ∧ claim_expiry ic = expiry ∧
    last_update_date ic = now w ∧
    Claim.revoke_claim o target c w1 = (Ok tt, w2) ∧
    Claims (records (rest w2)) =
      delete (claim_key target c iss) (Claims (records (rest w))).
Proof.
  intros (iss & date & Hp & Ei & Ec)%add_claim_effect.
  assert (Identity.ensure_perms o w1 = Ok iss) as Hp1.
  { rewrite <- Hp. unfold Identity.ensure_perms, Identity.ensure_origin_call_permissions,
      Identity.ensure_call_permissions, Identity.check_account_call_permissions. by rewrite Ei. }
  assert (Claims (records (rest w1)) !! claim_key target c iss =
          Some (mkIdentityClaim iss date (now w) expiry c)) as Hl by (rewrite Ec; apply lookup_insert_eq).
  assert (∃ w2, Claim.revoke_claim o target c w1 = (Ok tt, w2) ∧
    Claims (records (rest w2)) = delete (claim_key target c iss) (Claims (records (rest w1))))
    as (w2 & Hr & E2).
  { unfold Claim.revoke_claim, Claim.base_revoke_claim, mbind, SE_bind, check. rewrite Hp1.
    fold (claim_key target c iss). rewrite Hl. simpl. by eexists. }
  exists iss, (mkIdentityClaim iss date (now w) expiry c), w2. split_and!; try done.
  by rewrite E2, Ec, delete_insert_eq.
Qed.
End identity.

(* ------------------------------------------------------------------ *)
(** * Compliance *)

Section compliance.
Context {RT : Runtime} {FE : Fees} {FM : FrameMeter} {CC : ComplianceConfig}.

(** C29: The compliance check decides what the requirements of an asset say: it
    changes nothing but the weight meter; its answer is yes exactly if the rules
    are paused or one requirement has all its conditions met, for the sender and
    for the receiver, by unexpired claims of the issuers trusted for them; and
    the only other way out is a meter that is used up. *)
Theorem compliance_decides t s r w :
  let '(res, w') := Compliance.is_compliant t s r w in
  same_but_meter w w' ∧
  match res with
  | Ok b => b = true ↔ ComplianceInv.compliant w t s r
  | Err e => e = ECompliance ComplianceWeightLimitExceeded ∧
             consumed_weight (meter w') = weight_limit (meter w')
  end.
Proof.
  pose proof (ComplianceInv.metered_is_compliant t s r w) as Hm.
  destruct (Compliance.is_compliant t s r w) as [[b|e] w'] eqn:H; [|done].
  by apply ComplianceInv.is_compliant_Ok in H as [Hb Hs].
Qed.

(** The report an issuer asks for agrees with the check transfers go
    through: evaluating every condition of every requirement separately gives
    the verdict of the check that stops as early as it can. *)
Theorem compliance_report_agrees t s r w res w1 b w2 :
  Compliance.verify_restriction_granular t (Some s) (Some r) w = (Ok res, w1) →
  Compliance.is_compliant t s r w = (Ok b, w2) →
  Compliance.acr_result res = b.
Proof.
  intros H1%ComplianceInv.granular_compliant [H2 _]%ComplianceInv.is_compliant_Ok.
  apply eq_true_iff_eq. by rewrite H1, H2.
Qed.

(** A call of the compliance pallet, or anything that leaves its storage
    alone. *)
Inductive compliance_step : World → World → Prop :=
  | step_compliance o c w w' :
      ComplianceInv.fits c w → Compliance.dispatch o c w = (Ok tt, w') → compliance_step w w'
  | step_no_rules w w' : compliance (rest w') = compliance (rest w) → compliance_step w w'.

(** C39: The rules of every asset stay well formed: if they are in some state,
    they still are after every sequence of successful calls of the compliance
    pallet, as long as no requirement is added after one with the last 32-bit id
    (there the next id wraps around, see [requirement_ids_wrap]) and no list has
    2^32 entries or more.  Well formed means that requirements are in the
    ascending order of their ids, without which they are not found, that no entry
    is repeated among the trusted issuers of an asset (one issuer may have
    several entries, with different claims it is trusted for), that lists are
    limited, and that the cost of checking a transfer is bounded, even with the
    issuers of the asset standing in for every condition that names none.  The
    configured limits are below 2^32. *)
Theorem rules_stay_well_formed w w' :
  MaxConditionComplexity < u32_max → MaxLen < u32_max →
  ComplianceInv.compliance_ok w → rtc compliance_step w w' → ComplianceInv.compliance_ok w'.
Proof.
  intros H1 H2 Hok Hs. induction Hs as [w|w1 w2 w3 Hs _ IH]; [done|]. apply IH.
  destruct Hs; [by eapply ComplianceInv.compliance_dispatch_ok|by eapply ComplianceInv.compliance_ok_ext].
Qed.
End compliance.

(* ------------------------------------------------------------------ *)
(** * Transfer restrictions *)

Section statistics.
Context {RT : Runtime} {FM : FrameMeter} {SC : StatisticsConfig}.
Import StatisticsInv.

(** C30: The transfer restrictions of an asset are enforced: a transfer is let
    through exactly if the restrictions are paused or each of them passes (the
    number of investors, of investors with a claim, the share of one investor,
    the share of a class of investors) or is one the sender or the receiver is
    exempt from; it is refused with [InvalidTransfer], and the only other way
    out is a meter that is used up; nothing but the meter changes. *)
Theorem restrictions_decide t s r sb rb amount supply w :
  let '(res, w') := Statistics.verify_transfer_restrictions t s r sb rb amount supply w in
  same_but_meter w w' ∧
  match res with
  | Ok _ => unrestricted w t (asked s r sb rb amount supply)
  | Err e =>
      (e = EStatistics StatInvalidTransfer ∧ ¬ unrestricted w t (asked s r sb rb amount supply)) ∨
      e = EStatistics StatWeightLimitExceeded
  end.
Proof.
  destruct (Statistics.verify_transfer_restrictions t s r sb rb amount supply w) as [res w'] eqn:H.
  apply verify_restrictions_spec in H as [Hm Hres]. split; [done|]. destruct res; naive_solver.
Qed.

(** The limit on investors is a limit: a transfer that passed the check does
    not take the number of identities with a balance above the limit, or it was
    above the limit before and does not grow. *)
Theorem investors_are_limited t s r bal amount supply max w res w' :
  let m := mkMove (Some s) (Some r) amount in
  move_ok m bal → 0 < amount → tracks w t investor_count_stat bal →
  transfer_paused (Statistics.asset_transfer_compliance t w) = false →
  MaxInvestorCount max ∈ transfer_requirements (Statistics.asset_transfer_compliance t w) →
  Statistics.is_exempt t (MaxInvestorCount max) s r w = false →
  Statistics.verify_transfer_restrictions t s r (getd 0 bal s) (getd 0 bal r) amount supply w
    = (Ok res, w') →
  holders (after_move m bal) ≤ N.max (holders bal) max.
Proof. apply investor_limit. Qed.
End statistics.

(* ------------------------------------------------------------------ *)
(** * The books with these rules *)

Section books.
Context {RT : Runtime} {FE : Fees} {IC : IdentityConfig} {FM : FrameMeter}.
Context {CC : ComplianceConfig} {SC : StatisticsConfig}.
#[local] Existing Instance modelled_externals.
Import StatisticsInv Restrictions.

(** C6: No transfer goes around the rules: a transfer between portfolios that
    succeeds, as settlements make them, was of an asset that is not frozen, was
    compliant, and was within the restrictions of the asset at that time. *)
Theorem transfers_are_checked from to t value iid memo caller w w' :
  Asset.base_transfer from to t value iid memo caller w = (Ok tt, w') →
  Asset.frozen t w = false ∧
  ComplianceInv.compliant w t (did from) (did to) ∧
  unrestricted w t (asked (did from) (did to) (Asset.balance_of t (did from) w)
                      (Asset.balance_of t (did to) w) value (Asset.supply t w)).
Proof. apply transfer_checked. Qed.

(** C26: The report on a transfer agrees with the transfer: for one that goes
    through, of an asset whose restrictions are not paused, the report the RPC
    gives beforehand finds nothing wrong but, where there is something, with the
    customer due diligence of the parties and the custody of their portfolios,
    which the transfer itself leaves to its callers. *)
Theorem transfers_were_reported fc from tc to t value iid memo caller w r w1 w' :
  TransferReport.unsafe_can_transfer_granular fc from tc to t value w = (Ok r, w1) →
  transfer_paused (Statistics.asset_transfer_compliance t w) = false →
  Asset.base_transfer from to t value iid memo caller w = (Ok tt, w') →
  TransferReport.report_result r =
    negb (TransferReport.invalid_receiver_cdd r) && negb (TransferReport.invalid_sender_cdd r) &&
    negb (TransferReport.receiver_custodian_error r) &&
    negb (TransferReport.sender_custodian_error r).
Proof.
  intros (Eg & Es & _ & _ & _ & _ & Ei & Ep & Ef & Ec & Ea & ->)%TransferReport.report_Ok Hnp H.
  pose proof (TransferReport.transfer_found _ _ _ _ _ _ _ _ _ H) as (Hg & Hs & Hi & Hp).
  apply transfer_checked in H as (Hf & Hc & [Hu|Hu]); [congruence|].
  apply Ec in Hu. apply Ea in Hc. rewrite Eg, Es, Ei, Ep, Ef, Hu, Hc, Hg, Hs, Hi, Hp, Hf. simpl.
  by rewrite !andb_true_r.
Qed.

(** What moves balances of an asset: a call that issues, redeems or forces a
    transfer, or the transfer of a settlement. *)
Inductive moves (t : Ticker) : World → World → Prop :=
  | moves_call o c w w' :
      moved_asset c = Some t → Asset.dispatch o c w = (Ok tt, w') → moves t w w'
  | moves_transfer from to value iid memo caller w w' :
      Asset.base_transfer from to t value iid memo caller w = (Ok tt, w') → moves t w w'.

(** Nobody holds the asset, and no number is recorded for it. *)
Definition unissued (t : Ticker) (w : World) : Prop :=
  (∀ d, getd 0 (BalanceOf (asset w)) (t, d) = 0) ∧
  (∀ s k, Statistics.asset_stats (mkStat1stKey t s) k w = 0).

Lemma unissued_exact t w : unissued t w → exact t w.
Proof.
  intros [Hb Hs] s _ k. rewrite Hs. symmetry. apply msum_zero. intros d b Hd.
  rewrite lookup_holdings in Hd. specialize (Hb d). unfold getd in Hb. rewrite Hd in Hb.
  simpl in Hb. subst b. case_decide; [apply measure_0|done].
Qed.

(** C7: The statistics follow the balances.  Say that the statistics of an asset
    agree with its balances when each number kept for an active statistic, by
    operation and class of investors, is the one computed from the balances: the
    count of the investors with a balance or the sum of what they hold.  They
    agree for an asset that nobody holds and that has no numbers recorded; and
    if they agree before a change of the balances (a call that issues, redeems or
    forces a transfer, or the transfer of a settlement), they agree after it,
    with the new balances.  Nothing is said of a statistic that is activated when
    the asset is already held, of numbers written by batch_update_asset_stats,
    or of an investor whose claim changes the class. *)
Theorem statistics_follow_balances t w w' :
  Asset.supply_ok w → Portfolio.balances_ok (portfolio w) →
  (unissued t w → exact t w) ∧ (exact t w → moves t w w' → exact t w').
Proof.
  intros Hs Hb. split; [apply unissued_exact|]. intros Hex Hm.
  destruct Hm as [o c w w' Hc H|from to value iid memo caller w w' H].
  - exact (asset_moves_exact _ _ _ _ _ Hc Hs Hb Hex H).
  - exact (base_transfer_exact _ _ _ _ _ _ _ _ _ Hs Hb Hex H).
Qed.
End books.

(* ------------------------------------------------------------------ *)
(** * Witnesses *)

Import Sample RuleSample KeysInv.

Lemma sample_hash_inj b n n' :
  n ≤ u64_max → n' ≤ u64_max → hash_did b n = hash_did b n' → n = n'.
Proof. simpl. lia. Qed.

Lemma one_identity_ok : identity_ok one_identity.
Proof.
  split; split; simpl; intros *;
    rewrite ?lookup_empty, ?lookup_singleton_Some, ?lookup_singleton_Some; try naive_solver.
  - destruct (decide (k = 1)) as [->|Hk].
    + rewrite lookup_singleton_eq. split; [by intros [[= <-] _]|by intros [= <-]].
    + rewrite lookup_singleton_ne by done. split; [by intros [[= _ <-] _]|done].
  - rewrite is_Some_alt. split; [done|lia].
Qed.

(** No proposals on the sample chain. *)
#[local] Instance quiet_governance : Governance :=
  {| hash_of := id; dispatch_proposal := λ _ _, mret tt; compute_members_diff_sorted := λ _ _, ([], []) |}.

(** The CDD provider registers an identity for the account 7; then its claims
    are invalidated and it leaves the group. *)
Notation registration := (Keys.dispatch (Signed 1) (Keys.CddRegisterDid 7 [])).
Notation invalidation := (Keys.dispatch Root (Keys.InvalidateCddClaims 1 0 None)).

Lemma identities_stay_consistent_witness :
  identity_ok (final invalidation (final registration one_identity)).
Proof.
  apply (identities_stay_consistent one_identity);
    [exact sample_hash_inj|exact one_identity_ok|].
  apply (rtc_l _ _ (final registration one_identity)); [|apply rtc_once].
  - apply (step_identity (Signed 1) (Keys.CddRegisterDid 7 [])); [exact I|].
    refine (run_Ok registration one_identity tt _). by vm_compute.
  - apply (step_identity Root (Keys.InvalidateCddClaims 1 0 None)); [exact I|].
    refine (run_Ok invalidation (final registration one_identity) tt _). by vm_compute.
Defined.

Lemma claim_round_trip_witness :
  ∃ iss ic, Claim.fetch_base_claim_with_issuer 2 TKnowYourCustomer iss (Some (ScopeTicker acme))
    attested_2 = Some ic ∧ claim ic = kyc.
Proof.
  destruct (claim_round_trip (Signed 3) 2 kyc None ruled attested_2)
    as (iss & ic & w2 & _ & H & Hc & _).
  - refine (run_Ok (Claim.add_claim (Signed 3) 2 kyc None) ruled tt _). by vm_compute.
  - exists iss, ic. exact (conj H Hc).
Defined.

Lemma is_compliant_sample b w :
  (Compliance.is_compliant acme 1 2 w).1 = Ok b →
  Compliance.is_compliant acme 1 2 w = (Ok b, final (Compliance.is_compliant acme 1 2) w).
Proof. apply run_Ok. Qed.

(** With the claim a transfer to 2 is compliant; without it it is not. *)
Lemma compliance_decides_witness :
  ComplianceInv.compliant attested_2 acme 1 2 ∧ ¬ ComplianceInv.compliant ruled acme 1 2.
Proof.
  split.
  - pose proof (compliance_decides acme 1 2 attested_2) as H.
    rewrite (is_compliant_sample true attested_2) in H by (by vm_compute).
    exact (proj1 (proj2 H) eq_refl).
  - pose proof (compliance_decides acme 1 2 ruled) as H.
    rewrite (is_compliant_sample false ruled) in H by (by vm_compute).
    intros Hc. by apply (proj2 (proj2 H)) in Hc.
Defined.

Definition report_run : M Compliance.AssetComplianceResult :=
  Compliance.verify_restriction_granular acme (Some 1) (Some 2).

Lemma compliance_report_agrees_witness :
  ∃ res, (report_run attested_2).1 = Ok res ∧ Compliance.acr_result res = true.
Proof.
  destruct (report_run attested_2) as [[res|e] w1] eqn:H.
  - exists res. split; [done|].
    apply (compliance_report_agrees acme 1 2 attested_2 res w1 true
      (final (Compliance.is_compliant acme 1 2) attested_2)); [exact H|].
    apply is_compliant_sample. by vm_compute.
  - exfalso. assert (is_ok (report_run attested_2).1 = true) as Hok by (by vm_compute).
    by rewrite H in Hok.
Defined.

Lemma issued_rules_ok : ComplianceInv.compliance_ok issued.
Proof.
  assert (AssetCompliances (compliance (rest issued)) = ∅) as E1 by (by vm_compute).
  assert (TrustedClaimIssuer (compliance (rest issued)) = ∅) as E2 by (by vm_compute).
  intros t. unfold Compliance.asset_compliance, Compliance.trusted_claim_issuer.
  rewrite E1, E2, !getd_empty. split; simpl.
  - apply Sorting.ascending_nil.
  - constructor.
  - done.
  - done.
  - split; [constructor|done].
Qed.

Lemma rules_stay_well_formed_witness : ComplianceInv.compliance_ok ruled.
Proof.
  apply (rules_stay_well_formed issued); [done|done|exact issued_rules_ok|apply rtc_once].
  apply (step_compliance (Signed 1) (Compliance.AddComplianceRequirement acme [] [known_to_3]));
    [by vm_compute|].
  refine (run_Ok (Compliance.dispatch (Signed 1)
    (Compliance.AddComplianceRequirement acme [] [known_to_3])) issued tt _). by vm_compute.
Defined.

(** ** Restrictions *)
Import StatisticsInv Restrictions.

Definition moves_check (amount : Balance) : M unit :=
  Statistics.verify_transfer_restrictions acme 1 2 1000 0 amount 1000.

(** There is one investor and a limit of one: 100 units may not go to a second
    one, all 1000 may. *)
Lemma restrictions_decide_witness :
  unrestricted counted acme (asked 1 2 1000 0 1000 1000) ∧
  ¬ unrestricted counted acme (asked 1 2 1000 0 100 1000).
Proof.
  split.
  - pose proof (restrictions_decide acme 1 2 1000 0 1000 1000 counted) as H.
    fold (moves_check 1000) in H. rewrite (run_Ok (moves_check 1000) counted tt) in H by (by vm_compute).
    exact (proj2 H).
  - pose proof (restrictions_decide acme 1 2 1000 0 100 1000 counted) as H.
    fold (moves_check 100) in H.
    rewrite (run_Err (moves_check 100) counted (EStatistics StatInvalidTransfer)) in H by (by vm_compute).
    destruct H as [_ [[_ H]|H]]; [exact H|discriminate H].
Defined.

Lemma supply_ok_rest w f : Asset.supply_ok w → Asset.supply_ok (w <| rest ::= f |>).
Proof. intros []. by split. Qed.

Lemma portfolio_rest w f : portfolio (w <| rest ::= f |>) = portfolio w.
Proof. done. Qed.

Lemma sample_books_ok : Asset.supply_ok limited ∧ Portfolio.balances_ok (portfolio limited).
Proof.
  assert (runs created = true) as Hr by (by vm_compute).
  apply sample_ok in Hr as [[Hl _] _]. split.
  - unfold limited, with_identities. apply supply_ok_rest, supply_ok_rest, (Ledger.ok_supplies _ Hl).
  - unfold limited, with_identities. rewrite !portfolio_rest. exact (Portfolio.ok_balances _ (Ledger.ok_portfolio _ Hl)).
Qed.

#[local] Existing Instance modelled_externals.

Lemma limited_unissued : unissued acme limited.
Proof.
  assert (AssetStats (statistics (rest limited)) = ∅) as E1 by (by vm_compute).
  assert (BalanceOf (asset limited) = ∅) as E2 by (by vm_compute).
  split; [intros d; by rewrite E2, getd_empty|]. intros s k. unfold Statistics.asset_stats.
  by rewrite E1, getd_empty.
Qed.
Lemma limited_exact : exact acme limited.
Proof. apply unissued_exact, limited_unissued. Qed.

(** The statistic is activated before anything is issued. *)
Lemma statistics_follow_balances_witness : exact acme counted.
Proof.
  destruct (statistics_follow_balances acme limited counted) as [H1 H2];
    [apply sample_books_ok|apply sample_books_ok|].
  apply H2; [exact (H1 limited_unissued)|].
  apply (moves_call acme (Signed 1) (Asset.Issue acme 1000 Default)); [done|].
  refine (run_Ok (Asset.dispatch (Signed 1) (Asset.Issue acme 1000 Default)) limited tt _).
  by vm_compute.
Defined.

(** The balances of the asset after it was issued. *)
Definition issued_to_1 : gmap IdentityId Balance := {[1 := 1000]}.

Lemma counted_tracks : tracks counted acme investor_count_stat issued_to_1.
Proof.
  assert (holdings acme (BalanceOf (asset counted)) = issued_to_1) as <- by (by vm_compute).
  assert (exact acme counted) as Hex.
  { apply (asset_moves_exact (Signed 1) (Asset.Issue acme 1000 Default) acme limited counted);
      [done|apply sample_books_ok|apply sample_books_ok|exact limited_exact|].
    refine (run_Ok (Asset.dispatch (Signed 1) (Asset.Issue acme 1000 Default)) limited tt _).
    by vm_compute. }
  apply Hex. apply (bool_decide_eq_true_1 (investor_count_stat ∈ Statistics.active_asset_stats acme counted)).
  by vm_compute.
Qed.

Lemma investors_are_limited_witness :
  holders (after_move (mkMove (Some 1) (Some 2) 1000) issued_to_1) ≤ N.max (holders issued_to_1) 1.
Proof.
  apply (investors_are_limited acme 1 2 issued_to_1 1000 1000 1 counted tt
    (final (moves_check 1000) counted)).
  - by split; [intros d [= <-]|intros d [= <-]| |]; vm_compute.
  - done.
  - exact counted_tracks.
  - by vm_compute.
  - apply (bool_decide_eq_true_1 (MaxInvestorCount 1 ∈
      transfer_requirements (Statistics.asset_transfer_compliance acme counted))). by vm_compute.
  - by vm_compute.
  - refine (run_Ok (moves_check 1000) counted tt _). by vm_compute.
Defined.

Definition transfer_to_2 : M unit :=
  Asset.base_transfer (pf 1) (pf 2) acme 100 None None 1.

Lemma transfers_are_checked_witness : ComplianceInv.compliant attested_2 acme 1 2.
Proof.
  apply (transfers_are_checked (pf 1) (pf 2) acme 100 None None 1 attested_2
    (final transfer_to_2 attested_2)).
  refine (run_Ok transfer_to_2 attested_2 tt _). by vm_compute.
Defined.

Definition report_to_2 : M TransferReport.GranularCanTransferResult :=
  TransferReport.unsafe_can_transfer_granular None (pf 1) None (pf 2) acme 100.

Lemma transfers_were_reported_witness : ∃ r,
  (report_to_2 attested_2).1 = Ok r ∧
  TransferReport.report_result r =
    negb (TransferReport.invalid_receiver_cdd r) && negb (TransferReport.invalid_sender_cdd r) &&
    negb (TransferReport.receiver_custodian_error r) &&
    negb (TransferReport.sender_custodian_error r).
Proof.
  destruct (report_to_2 attested_2) as [[r|e] w1] eqn:E.
  - exists r. split; [done|].
    apply (transfers_were_reported None (pf 1) None (pf 2) acme 100 None None 1 attested_2 r w1
      (final transfer_to_2 attested_2)).
    + exact E.
    + by vm_compute.
    + refine (run_Ok transfer_to_2 attested_2 tt _). by vm_compute.
  - exfalso. assert ((report_to_2 attested_2).1 = Err e) as He by (by rewrite E).
    assert (is_ok (report_to_2 attested_2).1 = true) as Hk by (by vm_compute).
    rewrite He in Hk. discriminate Hk.
Defined.

(* ------------------------------------------------------------------ *)
(** * Behaviour worth knowing, on the sample chain *)

(** Restrictions that are paused do not stop a transfer, but the report checks
    them all the same: it warns of a transfer that goes through. *)
Definition paused_restrictions : World :=
  attested_2 <| rest ::= λ r, r <| statistics ::= λ s, s
    <| AssetTransferCompliances :=
         {[acme := mkAssetTransferCompliance true {[MaxInvestorCount 0]}]} |> |> |>.

Theorem paused_restrictions_are_reported :
  (transfer_to_2 paused_restrictions).1 = Ok tt ∧
  match (report_to_2 paused_restrictions).1 with
  | Ok r => forallb Statistics.tcr_result (TransferReport.transfer_condition_result r) = false ∧
            TransferReport.report_result r = false
  | Err _ => False
  end.
Proof. by vm_compute. Qed.

(** The id of a new requirement is one more than the last one and wraps: after
    a replacement that uses the largest id the list is out of order, and the
    binary search no longer finds a requirement that is there. *)
Definition requirement (id : N) : ComplianceRequirement :=
  mkComplianceRequirement [] [known_to_3] id.
Definition wrapped : World :=
  final (Compliance.dispatch (Signed 1) (Compliance.AddComplianceRequirement acme [] []))
    (final (Compliance.dispatch (Signed 1)
       (Compliance.ReplaceAssetCompliance acme [requirement u32_max])) issued).

Theorem requirement_ids_wrap :
  requirement_id <$> compliance_requirements (Compliance.asset_compliance acme wrapped) = [u32_max; 0] ∧
  (Compliance.dispatch (Signed 1)
     (Compliance.ChangeComplianceRequirement acme (requirement u32_max)) wrapped).1 =
  Err (ECompliance InvalidComplianceRequirementId).
Proof. by vm_compute. Qed.
End RuleProperties.
