(* ===== verification/GovernanceProperties.v ===== *)
(** The theorems about groups and committees, with a witness for each: who
    votes, what passes, and that the groups are sets of members. *)

From stdpp Require Import base numbers list gmap sets strings.
From S2P Require Import Prelude Subset AssetIdentifier Types ClaimTypes SettlementTypes Schedules.
From S2P Require Import State Identity Metering Claims Keys KeysInv Checkpoint Sorting Committee.
From S2P Require Import Group Utility UtilityInv GovernanceInv RuntimeCalls GovernanceFuel Sample.
From S2P Require Import RuleSample.

Local Open Scope N_scope.

Module GovernanceProperties.
Import GovernanceInv RuntimeCalls GovernanceFuel Members.

(** The leftovers of the invariant, by name. *)
Definition votes_by_members (w : World) : Prop :=
  ∀ c h v x, Committee.voting c h w = Some v → x ∈ ayes v ++ nays v → x ∈ Committee.members c w.
Definition one_vote_each (w : World) : Prop :=
  ∀ c h v, Committee.voting c h w = Some v → NoDup (ayes v ++ nays v).
Definition proposals_complete (w : World) : Prop :=
  ∀ c h, (h ∈ Committee.proposals c w ↔ is_Some (Committee.voting c h w)) ∧
         (is_Some (Committee.voting c h w) ↔ is_Some (ProposalOf (Committee.committee c w) !! h)).
Definition members_in_sync (w : World) : Prop :=
  ∀ c, Committee.members c w = get_members (CommitteeMembership c) w ∧
       NoDup (Committee.members c w).

Lemma tidy_meaning w :
  gov_ok w → clean w →
  votes_by_members w ∧ one_vote_each w ∧ proposals_complete w ∧ members_in_sync w.
Proof.
  intros Hok Hc. split_and!.
  - intros c h v x Hv Hx. destruct (Hc c) as (Hs & _ & _).
    destruct (decide (x ∈ Committee.members c w)) as [|Hn]; [done|].
    destruct (Hs h x). by exists v.
  - intros c h v Hv. by apply (ok_votes _ (gov_stores _ Hok c) h v).
  - intros c h. destruct (Hc c) as (_ & Ho & Hd). split; [apply (ok_listed _ (gov_stores _ Hok c))|].
    specialize (Ho h). specialize (Hd h). unfold orphan, dangling, Committee.voting in *.
    split; intros H; apply not_eq_None_Some; intros Hn; [by apply Ho|by apply Hd].
  - intros c. split; [symmetry; apply (gov_synced _ Hok)|].
    apply Sorting.ascending_NoDup, (ok_members _ (gov_stores _ Hok c)).
Qed.

Section runtime.
Context {RT : Runtime} {FE : Fees} {UC : UtilityConfig} {CC : CallConfig}.
Context (hash : Proposal → ProposalHash) (decode : Proposal → gov_call).
Context (other : Origin → N → M unit).
Context (diff : list IdentityId → list IdentityId → list IdentityId * list IdentityId).

(** C8: Only members have votes, and one each.  Start from a state in which every
    recorded vote is of a member of the committee, nobody has two votes on a
    proposal, every listed proposal has its votes and its call, and the members of
    a committee are those of its group, in order.  The same holds after every
    sequence of calls, failing or not, in one block or many, of the groups, of
    the committees, of the utility pallet (all its batches and its calls under
    another origin, of such calls in turn, nested at will), of
    invalidate_cdd_claims and of the other pallets, whatever proposals the votes
    set off, to any depth, and whatever changes of the membership these make
    while votes are being counted.  Two things are assumed: no call, also within a
    batch or a proposal, resets a whole membership (where the property fails, see
    [reset_keeps_votes]); and a call of another pallet, [other], does not itself
    write the storage of groups and committees.  Such calls dispatch no further
    calls: what a multisig, sudo, the scheduler, a contract or an improvement
    proposal dispatches is a call of its own in the sequence, and none of these
    dispatches calls under the origin of a committee that called it. *)
Theorem only_members_have_votes (depth : nat) (l : list gov_step) (w : World) :
  (∀ o n w r w', other o n w = (r, w') → same_gov w w') →
  (∀ p, resets_nothing (decode p) = true) →
  forallb step_resets_nothing l = true → gov_ok w → clean w →
  let w' := run hash decode other diff depth l w in
  votes_by_members w' ∧ one_vote_each w' ∧ proposals_complete w' ∧ members_in_sync w'.
Proof.
  intros H1 H2 Hl Hok Hc w'.
  destruct (run_tidy hash decode other diff H1 H2 depth l w Hl Hok Hc) as [Hok' Hc'].
  by apply tidy_meaning.
Qed.

(** C36: Proposals that set off other proposals come to an end: a call runs no
    deeper than there are calls recorded (counting those that a batch may record
    itself), so that with more fuel than that its result does not depend on the
    fuel.  Calls of other pallets are assumed to record no proposals. *)
Theorem proposals_terminate (depth depth' : nat) (o : Origin) (x : gov_call) (w : World) :
  (∀ o n, steady (other o n)) → (pending w + newly x < depth)%nat → (depth ≤ depth')%nat →
  gov_dispatch hash decode other diff depth o x w =
  gov_dispatch hash decode other diff depth' o x w.
Proof. intros Ho Hw Hle. by apply gov_dispatch_same. Qed.
End runtime.

(** Afterwards the voter is on one side only. *)
Lemma cast_sides did (approve : bool) v :
  NoDup (voters v) →
  did ∈ (if approve then ayes (cast did approve v) else nays (cast did approve v)) ∧
  did ∉ (if approve then nays (cast did approve v) else ayes (cast did approve v)).
Proof.
  intros (Ha & _ & Hn)%NoDup_app. destruct approve; simpl.
  - destruct (retract_spec did (nays v) Hn) as [_ Hin]. rewrite Hin. set_solver.
  - destruct (retract_spec did (ayes v) Ha) as [_ Hin]. rewrite Hin. set_solver.
Qed.

Section votes.
Context {RT : Runtime} {FE : Fees} {GOV : Governance}.

(** C32: What a vote does.  A vote that succeeds is of a member of the committee
    who has not voted like this on the proposal before, on a proposal that has
    the index given.  It is recorded, and leaves the other side if it was there.
    Then, if the ayes are no fewer than the nays and reach the threshold, the
    proposal is approved: its call is taken out of the storage, dispatched with
    the origin of the committee in exactly the state reached so far, its result
    is reported, and what is left of the proposal is cleared; if instead the nays
    outnumber and reach the threshold, the proposal is rejected and cleared, and
    nothing is dispatched; otherwise nothing but the vote is recorded.  A proposal
    that was decided is gone.  The committees are in order before, and so they are
    left by the calls of proposals (which is shown of the calls of the runtime by
    [RuntimeCalls.nested_dispatch_quiet]). *)
Theorem vote_decides c o h index approve w w' :
  (∀ c p w r w', dispatch_proposal c p w = (r, w') → quiet w w') →
  gov_ok w → Committee.vote c o h index approve w = (Ok tt, w') →
  ∃ did v,
    Committee.ensure_is_member c o w = Ok did ∧ did ∈ Committee.members c w ∧
    Committee.voting c h w = Some v ∧ votes_index v = index ∧
    did ∉ (if approve then ayes v else nays v) ∧
    let v' := cast did approve v in
    let w1 := voted c h did approve v w in
    let actor := default 0 (Committee.current_identity w) in
    (did ∈ (if approve then ayes v' else nays v') ∧ did ∉ (if approve then nays v' else ayes v')) ∧
    Committee.voting c h w1 = Some v' ∧
    (passes v' c w = true → gone c h w' ∧
     ∀ p, ProposalOf (Committee.committee c w) !! h = Some p →
     ∃ r w2, dispatch_proposal c p (decided c h v' true w1) = (r, w2) ∧
       w' = finished c h actor v' (with_event (Executed actor h r) w2)) ∧
    (passes v' c w = false → fails v' c w = true →
     gone c h w' ∧ w' = finished c h actor v' (decided c h v' false w1)) ∧
    (passes v' c w = false → fails v' c w = false → w' = w1).
Proof.
  intros Hq Hok (did & v & Hdid & Hv & Hi & Hp & Hexp & H)%vote_Ok.
  exists did, v. pose proof (ensure_is_member_Ok _ _ _ _ Hdid) as Hm.
  pose proof (committee_voted c h did approve v w) as E1. set (w1 := voted c h did approve v w) in *.
  assert (Committee.voting c h w1 = Some (cast did approve v)) as Hv1.
  { unfold Committee.voting. rewrite E1. apply lookup_insert_eq. }
  assert (votes_expiry (cast did approve v) = votes_expiry v) as He by (by destruct approve).
  apply (not_expired_same c h _ w w1) in Hexp; [|done]. rewrite <- He in Hexp.
  assert (passes (cast did approve v) c w1 = passes (cast did approve v) c w) as Ep.
  { unfold passes, Committee.seats, Committee.members. by rewrite E1. }
  assert (fails (cast did approve v) c w1 = fails (cast did approve v) c w) as Ef.
  { unfold fails, Committee.seats, Committee.members. by rewrite E1. }
  pose proof (voted_in_order c h did approve v w Hok Hv Hm Hp) as Hok1. fold w1 in Hok1.
  pose proof (execute_if_passed_run c h _ w1 _ w' Hv1 Hexp H) as Hr.
  pose proof (finished_is_gone Hq c h _ w1 w' Hok1 Hr) as Hg. rewrite Ep, Ef in *.
  change (Committee.current_identity w1) with (Committee.current_identity w) in Hr.
  assert (ProposalOf (Committee.committee c w1) = ProposalOf (Committee.committee c w)) as Eo by (by rewrite E1).
  rewrite Eo in Hr. do 4 (split; [done|]). split; [by apply position_None|]. intros v'.
  split; [by apply cast_sides, (ok_votes _ (gov_stores _ Hok c) h v)|]. split; [done|]. fold v' in Hr, Hg.
  destruct (passes v' c w); [|destruct (fails v' c w)]; simpl in Hr, Hg; split_and!; try done.
  - intros _. split; [by apply Hg|]. intros p Hpo. by rewrite Hpo in Hr.
  - intros _ _. split; [by apply Hg|done].
Qed.
End votes.

(** The comparison with the threshold is the comparison of fractions as long
    as the denominator is at most 2^32 / 500: for any committee that can be,
    [votes / total] reaches [n / d] exactly if the check says so.  Larger
    denominators are accepted and make it wrong: one vote of four reaches the
    threshold of all. *)
Theorem threshold_is_exact :
  (∀ votes total n d,
     votes ≤ total → total ≤ Group.COMMITTEE_MEMBERS_MAX →
     n ≤ d → d ≤ u32_max / Group.COMMITTEE_MEMBERS_MAX →
     Committee.is_threshold_satisfied votes total (n, d) = true ↔ n * total ≤ votes * d) ∧
  Committee.is_threshold_satisfied 1 4 (2 ^ 30, 2 ^ 30) = true ∧ ¬ 2 ^ 30 * 4 ≤ 1 * 2 ^ 30.
Proof.
  split; [|by vm_compute]. intros votes total n d Hv Ht Hn Hd.
  unfold Committee.is_threshold_satisfied, wrapping_mul, Group.COMMITTEE_MEMBERS_MAX in *.
  assert (∀ a b, a ≤ 500 → b ≤ u32_max / 500 → (b * a) mod (u32_max + 1) = b * a) as Hs.
  { intros a b Ha Hb. apply N.mod_small. change (u32_max / 500) with 8589934 in Hb.
    unfold u32_max. nia. }
  rewrite (N.mul_comm votes d), !Hs by lia. rewrite bool_decide_eq_true. by rewrite (N.mul_comm d).
Qed.

(* ------------------------------------------------------------------ *)
(** * Groups as sets *)

(** The specification: what a call does to a set of members, and when it is
    refused; [caller] is the identity of who abdicates. *)
Definition roster_spec (x : Group.call) (caller limit : N) (s : gset IdentityId)
    : option (gset IdentityId) :=
  match x with
  | Group.SetActiveMembersLimit _ => Some s
  | Group.AddMember who =>
      if decide (who ∉ s ∧ N.of_nat (size s) + 1 ≤ limit) then Some ({[who]} ∪ s) else None
  | Group.RemoveMember who => Some (s ∖ {[who]})
  | Group.DisableMember who _ _ => if decide (who ∈ s) then Some (s ∖ {[who]}) else None
  | Group.SwapMember remove add =>
      if decide (remove = add) then Some s
      else if decide (remove ∈ s ∧ add ∉ s) then Some ({[add]} ∪ s ∖ {[remove]}) else None
  | Group.ResetMembers l => if decide (Base.len l ≤ limit) then Some (list_to_set l) else None
  | Group.AbdicateMembership =>
      if decide (caller ∈ s ∧ (1 < size s)%nat) then Some (s ∖ {[caller]}) else None
  end.

(** What the group stands for. *)
Definition roster (i : GroupInstance) (w : World) : gset IdentityId :=
  list_to_set (get_members i w).

Section roster.
Context {RT : Runtime} {FE : Fees} {GOV : Governance}.
Notation cdd := CddServiceProviders.

Lemma cdd_changed incoming outgoing new w u w' :
  Group.membership_changed cdd incoming outgoing new w = (Ok u, w') → same_gov w w'.
Proof.
  simpl. unfold Claim.change_members_sorted. intros (u1 & w1 & H1 & H)%SE_bind_Ok.
  apply (systematic_same_gov _ _ true) in H1. apply (systematic_same_gov _ _ false) in H. by etrans.
Qed.

Lemma cdd_regroup incoming outgoing new e w u w' :
  (Group.on_group cdd (λ s, s <| ActiveMembers := new |>) ;;
   Group.membership_changed cdd incoming outgoing new ;;
   did ← gets Group.actor ; deposit_event (e did)) w = (Ok u, w') →
  get_members cdd w' = new.
Proof.
  intros (u1 & w1 & H1 & H)%SE_bind_Ok. apply on_group_active in H1 as [_ H1].
  apply SE_bind_Ok in H as (u2 & w2 & H2%cdd_changed & H). rewrite bind_gets in H.
  apply deposit_event_Ok in H as [S _].
  by rewrite (proj1 (proj2 S)), (proj1 (proj2 H2)), H1, decide_True.
Qed.

Lemma elem_of_roster i w x : x ∈ roster i w ↔ x ∈ get_members i w.
Proof. apply elem_of_list_to_set. Qed.

Lemma elem_of_delete (l : list IdentityId) i x y :
  NoDup l → l !! i = Some x → y ∈ delete i l ↔ y ∈ l ∧ y ≠ x.
Proof.
  intros Hnd Hi. pose proof (delete_Permutation _ _ _ Hi) as Hp. pose proof Hnd as Hnd'.
  rewrite Hp in Hnd'. apply NoDup_cons in Hnd' as [Hx _].
  assert (y ∈ l ↔ y ∈ x :: delete i l) as -> by (by rewrite <- Hp). set_solver.
Qed.

Lemma cdd_remove who w u w' :
  NoDup (get_members cdd w) → Group.base_remove_active_member cdd who w = (Ok u, w') →
  who ∈ roster cdd w ∧ roster cdd w' = roster cdd w ∖ {[who]}.
Proof.
  intros Hnd. unfold Group.base_remove_active_member. rewrite bind_gets.
  destruct (Sorting.binary_search (get_members cdd w) who) as [loc|] eqn:Hs; [|done].
  apply Sorting.search_by_key_hit in Hs as (x & Hx & <-). unfold id.
  intros H%(cdd_regroup [] [x] _ (λ d, MemberRemoved d x)).
  split; [apply elem_of_roster; by eapply list_elem_of_lookup_2|].
  apply set_eq. intros y. rewrite elem_of_difference, !elem_of_roster, H, not_elem_of_singleton.
  by apply elem_of_delete.
Qed.

Lemma cdd_add who w u w' :
  Checkpoint.ascending (get_members cdd w) → Base.len (get_members cdd w) < u32_max →
  Group.base_add_member cdd who w = (Ok u, w') →
  who ∉ roster cdd w ∧
  N.of_nat (size (roster cdd w)) + 1 ≤ Group.active_members_limit cdd w ∧
  roster cdd w' = {[who]} ∪ roster cdd w.
Proof.
  intros Hasc Hlen. unfold Group.base_add_member. rewrite bind_gets.
  destruct (Sorting.binary_search (get_members cdd w) who) as [|loc] eqn:Hs; [done|].
  intros (u1 & w1 & [Hl ->]%check_Ok & H)%SE_bind_Ok.
  apply (cdd_regroup [who] [] _ (λ d, MemberAdded d who)) in H. split_and!.
  - rewrite elem_of_roster. intros Hin. destruct (Sorting.search_hit _ _ Hasc Hin) as (j & Hj & _). congruence.
  - unfold Group.ensure_within_active_members_limit, Committee.count in Hl.
    apply ensure_Ok, bool_decide_eq_true_1 in Hl. unfold Base.len in *.
    rewrite (Permutation_length (Sorting.vec_insert_perm loc who (get_members cdd w))) in Hl. simpl in Hl.
    rewrite N.mod_small in Hl by lia. unfold roster.
    assert (size (list_to_set (get_members cdd w) : gset IdentityId) = length (get_members cdd w)) as ->.
    { by apply size_list_to_set_NoDup, Sorting.ascending_NoDup. }
    lia.
  - apply set_eq. intros y. rewrite elem_of_union, !elem_of_roster, H, elem_of_singleton.
    rewrite Sorting.vec_insert_perm. set_solver.
Qed.

Lemma cdd_swap o remove add w u w' :
  Checkpoint.ascending (get_members cdd w) → Group.swap_member cdd o remove add w = (Ok u, w') →
  remove ≠ add →
  remove ∈ roster cdd w ∧ add ∉ roster cdd w ∧
  roster cdd w' = {[add]} ∪ roster cdd w ∖ {[remove]}.
Proof.
  intros Hasc. unfold Group.swap_member. intros (u1 & w1 & [_ ->]%check_Ok & H)%SE_bind_Ok Hne.
  rewrite bool_decide_eq_false_2 in H by done. rewrite bind_gets in H.
  destruct (Sorting.binary_search _ remove) as [loc|] eqn:Hr; [|done].
  destruct (Sorting.binary_search _ add) as [|loc'] eqn:Ha; [done|].
  apply (cdd_regroup [add] [remove] _ (λ d, MembersSwapped d remove add)) in H.
  apply Sorting.search_by_key_hit in Hr as (x & Hx & <-). unfold id in *.
  assert (add ∉ get_members cdd w) as Hadd.
  { intros Hin. destruct (Sorting.search_hit _ _ Hasc Hin) as (j & Hj & _). congruence. }
  split_and!.
  - apply elem_of_roster. by eapply list_elem_of_lookup_2.
  - by rewrite elem_of_roster.
  - apply set_eq. intros y. rewrite elem_of_union, elem_of_difference, !elem_of_roster, H,
      !elem_of_singleton, Sorting.sort_by_key_perm.
    rewrite insert_take_drop by (by eapply lookup_lt_Some). rewrite <- Permutation_middle, elem_of_cons.
    rewrite <- delete_take_drop, elem_of_delete by (done || by apply Sorting.ascending_NoDup). done.
Qed.

Lemma cdd_abdicate o w u w' :
  NoDup (get_members cdd w) → Group.abdicate_membership cdd o w = (Ok u, w') →
  ∃ who d, Keys.ensure_did o w = Ok (who, d) ∧ d ∈ roster cdd w ∧ (1 < size (roster cdd w))%nat ∧
    roster cdd w' = roster cdd w ∖ {[d]}.
Proof.
  intros Hnd. unfold Group.abdicate_membership. intros ([who d] & w1 & [Hd ->]%check_Ok & H)%SE_bind_Ok.
  apply SE_bind_Ok in H as (u1 & w1 & [_ ->]%check_Ok & H). rewrite bind_gets in H.
  apply SE_bind_Ok in H as (u2 & w1 & [Hl ->]%check_Ok & H). apply ensure_Ok, bool_decide_eq_true_1 in Hl.
  apply SE_bind_Ok in H as (u3 & w1 & [Hs ->]%check_Ok & H).
  destruct (Sorting.binary_search _ d) as [loc|] eqn:Hb; [|done].
  apply Sorting.search_by_key_hit in Hb as (x & Hx & <-). unfold id in *.
  apply SE_bind_Ok in H as (u4 & w4 & [_ H4]%on_group_active & H). apply cdd_changed in H.
  exists who, x. split_and!; [done| | |].
  - apply elem_of_roster. by eapply list_elem_of_lookup_2.
  - unfold roster. by rewrite (proj2 (size_list_to_set_NoDup _)).
  - apply set_eq. intros y. rewrite elem_of_difference, !elem_of_roster, (proj1 (proj2 H)), H4,
      decide_True, list_elem_of_filter, elem_of_singleton by done. tauto.
Qed.

Lemma cdd_remove_any who w u w' :
  Checkpoint.ascending (get_members cdd w) → Group.base_remove_member cdd who w = (Ok u, w') →
  roster cdd w' = roster cdd w ∖ {[who]}.
Proof.
  intros Hasc. unfold Group.base_remove_member, Group.or_else. intros (r & w1 & H1 & H)%SE_bind_Ok.
  rewrite catch_Ok in H1. destruct r as [[]|e].
  - apply ret_Ok in H as [_ <-]. apply cdd_remove in H1 as [_ H1]; [done|].
    by apply Sorting.ascending_NoDup.
  - assert (who ∉ get_members cdd w) as Hno.
    { intros Hin. destruct (Sorting.search_hit _ _ Hasc Hin) as (j & Hj & _).
      unfold Group.base_remove_active_member in H1. rewrite bind_gets, Hj in H1.
      revert H1. apply infallible_not_Err. pose proof membership_changed_infallible as Hm.
      unfold Group.on_group, on_rest. cannot_fail. }
    apply base_remove_active_member_Err in H1 as ->.
    unfold Group.base_remove_inactive_member in H. rewrite bind_gets in H.
    destruct (Sorting.binary_search_by_key _ _ _) as [pos|]; [|done].
    apply SE_bind_Ok in H as (u1 & w1 & H1 & H). apply on_group_same in H1; [|done].
    apply SE_bind_Ok in H as (d & w2 & [_ ->]%check_Ok & H). apply deposit_event_Ok in H as [S _].
    apply set_eq. intros y. rewrite elem_of_difference, !elem_of_roster, (proj1 (proj2 S)),
      (proj1 (proj2 H1)), elem_of_singleton. naive_solver.
Qed.

Lemma cdd_reset o l w u w' :
  Base.len l ≤ u32_max → Group.reset_members cdd o l w = (Ok u, w') →
  Base.len l ≤ Group.active_members_limit cdd w ∧ roster cdd w' = list_to_set l.
Proof.
  intros Hlen. unfold Group.reset_members. intros (u1 & w1 & [_ ->]%check_Ok & H)%SE_bind_Ok.
  apply SE_bind_Ok in H as (u2 & w1 & [Hl ->]%check_Ok & H). rewrite bind_gets in H.
  unfold Group.ensure_within_active_members_limit, Committee.count in Hl.
  apply ensure_Ok, bool_decide_eq_true_1 in Hl. rewrite N.mod_small in Hl by lia. split; [done|].
  apply SE_bind_Ok in H as (u3 & w3 & H3 & H). apply SE_bind_Ok in H as (u4 & w4 & [_ H4]%on_group_active & H).
  rewrite bind_gets in H. apply deposit_event_Ok in H as [S _].
  apply set_eq. intros y. rewrite elem_of_roster, (proj1 (proj2 S)), H4, decide_True by done.
  by rewrite Sorting.sort_by_key_perm, elem_of_list_to_set.
Qed.

Lemma cdd_disable who expiry at_ w u w' :
  NoDup (get_members cdd w) → Group.base_disable_member cdd who expiry at_ w = (Ok u, w') →
  who ∈ roster cdd w ∧ roster cdd w' = roster cdd w ∖ {[who]}.
Proof.
  intros Hnd. unfold Group.base_disable_member. intros (u1 & w1 & H1 & H)%SE_bind_Ok.
  apply cdd_remove in H1 as [Hin H1]; [|done]. split; [done|]. rewrite <- H1.
  assert (same_gov w1 w') as S.
  { by apply base_disable_rest in H. }
  unfold roster. by rewrite (proj1 (proj2 S)).
Qed.

(** The group of CDD providers is a set: every call that succeeds does to
    the set of active members what its specification on sets says, adding,
    removing, swapping, resetting and abdicating, with the refusals of the
    specification (a member twice, no such member, the limit, the last
    member). *)
Theorem cdd_providers_are_a_set (o : Origin) (x : Group.call) (w w' : World) :
  Checkpoint.ascending (get_members cdd w) → Base.len (get_members cdd w) < u32_max →
  (∀ l, x = Group.ResetMembers l → Base.len l ≤ u32_max) →
  Group.dispatch cdd o x w = (Ok tt, w') →
  ∃ caller,
    (x = Group.AbdicateMembership → ∃ key, Keys.ensure_did o w = Ok (key, caller)) ∧
    roster_spec x caller (Group.active_members_limit cdd w) (roster cdd w) = Some (roster cdd w').
Proof.
  intros Hasc Hlen Hx H%with_storage_transaction_Ok. pose proof (Sorting.ascending_NoDup _ Hasc) as Hnd.
  destruct x as [limit|who expiry at_|who|who|remove add|l|]; simpl.
  1-6: exists 0; (split; [done|]).
  - do 2 (apply SE_bind_Ok in H as (? & ? & [_ ->]%check_Ok & H)). rewrite bind_gets in H.
    apply SE_bind_Ok in H as (u1 & w1 & H1 & H). apply on_group_same in H1; [|done].
    apply deposit_event_Ok in H as [S _]. unfold roster. by rewrite (proj1 (proj2 S)), (proj1 (proj2 H1)).
  - apply SE_bind_Ok in H as (? & ? & [_ ->]%check_Ok & H).
    apply cdd_disable in H as [Hin ->]; [|done]. by rewrite decide_True.
  - apply SE_bind_Ok in H as (? & ? & [_ ->]%check_Ok & H).
    apply cdd_add in H as (H1 & H2 & ->); [|done..]. by rewrite decide_True.
  - apply SE_bind_Ok in H as (? & ? & [_ ->]%check_Ok & H). by apply cdd_remove_any in H as ->.
  - case_decide as Hne.
    + unfold Group.swap_member in H. apply SE_bind_Ok in H as (? & ? & [_ ->]%check_Ok & H).
      rewrite bool_decide_eq_true_2 in H by done. by apply ret_Ok in H as [_ <-].
    + apply cdd_swap in H as (H1 & H2 & ->); [|done..]. by rewrite decide_True.
  - apply cdd_reset in H as [H1 ->]; [by rewrite decide_True|by apply Hx].
  - apply cdd_abdicate in H as (key & d & Hd & H1 & H2 & ->); [|done]. exists d.
    split; [by exists key|]. by rewrite decide_True.
Qed.
End roster.

(* ------------------------------------------------------------------ *)
(** * Witnesses *)

Import Sample RuleSample.

(** Proposal 1 removes member 2 of the technical committee, proposal 2 is a batch
    that removes member 1; all other proposals do nothing. *)
Definition sample_hash (p : Proposal) : ProposalHash := 1000 + p.
Definition sample_decode (p : Proposal) : gov_call :=
  if decide (p = 1) then GroupCall (CommitteeMembership TechnicalCommittee) (Group.RemoveMember 2)
  else if decide (p = 2) then
    UtilityCall (Utility.Batch [OtherCall 0;
      GroupCall (CommitteeMembership TechnicalCommittee) (Group.RemoveMember 1)])
  else OtherCall p.
Definition sample_other (o : Origin) (n : N) : M unit := mret tt.
Definition sample_diff (new old : list IdentityId) : list IdentityId * list IdentityId :=
  (filter (λ x, x ∉ old) new, filter (λ x, x ∉ new) old).
#[local] Instance sample_utility : UtilityConfig :=
  {| batched_calls_limit := 100; derivative_account := λ who i, Some (1000 * who + i) |}.
#[local] Instance sample_calls : CallConfig :=
  {| call_names := λ _, (EmptyString, EmptyString); call_signed := λ _ _ _, true |}.

Notation sample_governance := (runtime_governance sample_hash sample_decode sample_other sample_diff).
Notation sample_run := (RuntimeCalls.run sample_hash sample_decode sample_other sample_diff).
#[local] Instance sample_gov : Governance := sample_governance 5.

Lemma sample_other_same o n w r w' : sample_other o n w = (r, w') → same_gov w w'.
Proof. by intros [= _ <-]. Qed.
Lemma sample_resets_nothing p : resets_nothing (sample_decode p) = true.
Proof. unfold sample_decode. by repeat case_decide. Qed.
Lemma sample_other_steady o n : steady (sample_other o n).
Proof. apply steady_ret. Qed.
Lemma sample_quiet c p w r w' : dispatch_proposal c p w = (r, w') → quiet w w'.
Proof. apply nested_dispatch_quiet; [exact sample_other_same|exact sample_resets_nothing]. Qed.

Lemma empty_gov w : committees (rest w) = ∅ → groups (rest w) = ∅ → gov_ok w ∧ clean w.
Proof.
  intros Hc Hg.
  assert (∀ c, Committee.committee c w = empty_committee) as E1.
  { intros c. unfold Committee.committee. by rewrite Hc, getd_empty. }
  assert (∀ i, get_members i w = []) as E2.
  { intros i. unfold get_members, group. by rewrite Hg, getd_empty. }
  split; [split|].
  - intros c. rewrite E1. split; simpl; try done; [constructor|].
    intros h. rewrite lookup_empty, is_Some_alt. by rewrite elem_of_nil.
  - intros c. unfold Committee.members. by rewrite E1, E2.
  - rewrite E2. apply Sorting.ascending_nil.
  - intros c. rewrite E1. split_and!; unfold stale, orphan, dangling; simpl.
    + intros h x (v & Hv & _). by rewrite lookup_empty in Hv.
    + intros h [Hv _]. by rewrite lookup_empty, is_Some_alt in Hv.
    + intros h [Hv _]. by rewrite lookup_empty, is_Some_alt in Hv.
Qed.

(** Members 1, 2 and 3, a threshold of two thirds, and two proposals of 1, one
    of them with a vote of 2 against it. *)
Notation gc := PolymeshCommittee.
Definition members_added : list gov_step :=
  [CallStep Root (GroupCall (CommitteeMembership gc) (Group.SetActiveMembersLimit 10));
   CallStep Root (GroupCall (CommitteeMembership gc) (Group.AddMember 1));
   CallStep Root (UtilityCall (Utility.BatchAll
     [GroupCall (CommitteeMembership gc) (Group.AddMember 3);
      GroupCall (CommitteeMembership gc) (Group.AddMember 2)]));
   CallStep (Endorsed gc) (CommitteeCall gc (Committee.SetVoteThreshold 2 3))].
Definition votes_cast : list gov_step :=
  members_added ++
  [BlockStep 1 5;
   CallStep (Signed 1) (CommitteeCall gc (Committee.VoteOrPropose true 7));
   CallStep (Signed 1) (CommitteeCall gc (Committee.VoteOrPropose true 8));
   CallStep (Signed 2) (CommitteeCall gc (Committee.Vote 1008 1 false))].
Definition in_session : World := sample_run 5 votes_cast sample_world.

Lemma in_session_ok : gov_ok in_session ∧ clean in_session.
Proof.
  destruct (empty_gov sample_world) as [H1 H2]; [done|done|].
  refine (run_tidy _ _ _ _ sample_other_same sample_resets_nothing 5 votes_cast sample_world _ H1 H2).
  by vm_compute.
Qed.

Lemma only_members_have_votes_witness : votes_by_members in_session.
Proof.
  destruct (empty_gov sample_world) as [H1 H2]; [done|done|].
  refine (proj1 (only_members_have_votes sample_hash sample_decode sample_other sample_diff 5
    votes_cast sample_world sample_other_same sample_resets_nothing _ H1 H2)).
  by vm_compute.
Defined.

(** The second aye of three seats: the proposal passes and is gone. *)
Notation second_vote := (Committee.vote gc (Signed 2) 1007 0 true).

Lemma vote_decides_witness : gone gc 1007 (final second_vote in_session).
Proof.
  destruct (vote_decides gc (Signed 2) 1007 0 true in_session (final second_vote in_session)
    sample_quiet) as (did & v & Hd & _ & Hv & _ & _ & H).
  - apply in_session_ok.
  - refine (run_Ok second_vote in_session tt _). by vm_compute.
  - assert (did = 2) as ->.
    { assert (Committee.ensure_is_member gc (Signed 2) in_session = Ok 2) as E by (by vm_compute).
      rewrite E in Hd. by injection Hd. }
    assert (v = mkPolymeshVotes 0 [1] [] None) as ->.
    { assert (Committee.voting gc 1007 in_session = Some (mkPolymeshVotes 0 [1] [] None)) as E
        by (by vm_compute).
      rewrite E in Hv. by injection Hv. }
    destruct H as (_ & _ & H & _). apply H. by vm_compute.
Defined.

(** Member 1 leaves, and member 3 proposes something, in one batch. *)
Definition leaving : gov_call := UtilityCall (Utility.Batch
  [GroupCall (CommitteeMembership gc) (Group.RemoveMember 1);
   CommitteeCall gc (Committee.VoteOrPropose true 9)]).

Lemma proposals_terminate_witness :
  gov_dispatch sample_hash sample_decode sample_other sample_diff 4 Root leaving in_session =
  gov_dispatch sample_hash sample_decode sample_other sample_diff 9 Root leaving in_session.
Proof.
  apply (proposals_terminate sample_hash sample_decode sample_other sample_diff 4 9 Root leaving
    in_session sample_other_steady); [|lia].
  assert (pending in_session = 2%nat) as -> by (by vm_compute). by vm_compute; lia.
Defined.

Lemma threshold_is_exact_witness : Committee.is_threshold_satisfied 2 3 (2, 3) = true.
Proof. apply (proj1 threshold_is_exact); by vm_compute. Defined.

Notation provider_added := (Group.dispatch CddServiceProviders Root (Group.AddMember 2)).
Definition providers : World := with_identities sample_world.

Lemma cdd_providers_are_a_set_witness :
  roster CddServiceProviders (final provider_added providers) = {[2]} ∪ {[1]}.
Proof.
  destruct (cdd_providers_are_a_set Root (Group.AddMember 2) providers
    (final provider_added providers)) as (caller & _ & H).
  - assert (get_members CddServiceProviders providers = [1]) as -> by (by vm_compute).
    intros [|i] [|j] x y Hlt Hi Hj; try lia; done.
  - by vm_compute.
  - done.
  - refine (run_Ok provider_added providers tt _). by vm_compute.
  - assert (roster CddServiceProviders providers = {[1]}) as E by (by vm_compute).
    unfold roster_spec in H. rewrite E in H. case_decide; [|discriminate H].
    symmetry. exact (f_equal (default ∅) H).
Defined.

(* ------------------------------------------------------------------ *)
(** * Behaviour worth knowing, on the sample chain *)

Definition reset_to (l : list IdentityId) : M unit :=
  Group.dispatch (CommitteeMembership gc) Root (Group.ResetMembers l).

(** A reset that removes two members who voted on one proposal removes the vote
    of one of them only: 2 is no longer a member and its vote still counts. *)
Theorem reset_keeps_votes :
  let w := final (reset_to [3; 4]) in_session in
  (reset_to [3; 4] in_session).1 = Ok tt ∧ Committee.members gc w = [3; 4] ∧
  Committee.voting gc 1008 w = Some (mkPolymeshVotes 1 [] [2] None).
Proof. by vm_compute. Qed.

(** A reset does not remove repetitions: a member named twice is counted as two
    seats, and is still a member after being removed. *)
Theorem reset_keeps_repetitions :
  let w := final (reset_to [1; 2; 1]) in_session in
  let w' := final (Group.dispatch (CommitteeMembership gc) Root (Group.RemoveMember 1)) w in
  Committee.seats gc w = 3 ∧ is_member (CommitteeMembership gc) 1 w' = true.
Proof. by vm_compute. Qed.

(** A revoked member cannot be removed by the origin that removes members:
    without a current identity the call fails, where an active member would be
    removed in the name of the governance committee. *)
Definition disable (who : IdentityId) : M unit :=
  Group.dispatch CddServiceProviders Root (Group.DisableMember who None None).
Definition remove (who : IdentityId) : M unit :=
  Group.dispatch CddServiceProviders Root (Group.RemoveMember who).

Theorem revoked_member_stays :
  let w := final (disable 1) providers in
  (remove 1 providers).1 = Ok tt ∧
  inactive_id <$> InactiveMembers (group CddServiceProviders w) = [1] ∧
  (remove 1 w).1 = Err (EGroup GroupMissingCurrentIdentity).
Proof. by vm_compute. Qed.

(** With a current identity the removal of a revoked member breaks the order of
    the list, after which the search misses another one that is there. *)
Definition three_revoked : World :=
  providers
    <| identity ::= λ s, s <| CurrentDid := Some 1 |> |>
    <| rest ::= λ r, r <| groups := {[CddServiceProviders := mkGroupStore []
         [mkInactiveMember 1 0 None; mkInactiveMember 2 0 None; mkInactiveMember 3 0 None] 20]} |> |>.

Theorem revoked_member_lost :
  let w := final (remove 1) three_revoked in
  inactive_id <$> InactiveMembers (group CddServiceProviders w) = [3; 2] ∧
  (remove 3 w).1 = Err (EGroup NoSuchMember).
Proof. by vm_compute. Qed.

(** An expired proposal is not pruned by voting on it: the call fails and its
    writes are rolled back, so the same call cannot be proposed again. *)
Definition expired : World :=
  (final (Committee.dispatch gc (Signed 1) (Committee.VoteOrPropose true 9))
    (final (Committee.dispatch gc (Endorsed gc) (Committee.SetExpiresAfter (Some 10))) in_session))
    <| block_number := 100 |>.

Theorem expired_proposal_stays :
  let again := Committee.dispatch gc (Signed 2) (Committee.VoteOrPropose true 9) in
  (again expired).1 = Err (ECommittee ProposalExpired) ∧
  Committee.voting gc 1009 (final again expired) = Some (mkPolymeshVotes 2 [1] [] (Some 11)) ∧
  Committee.proposals gc (final again expired) = [1007; 1008; 1009].
Proof. by vm_compute. Qed.

(** The limit on concurrent proposals counts all proposals there ever were:
    with none open, the next one is refused. *)
Definition used_up : World :=
  (sample_run 5 members_added sample_world)
    <| rest ::= λ r, r <| committees ::= alter (λ s, s <| ProposalCount := 500 |>) gc |> |>.

Theorem proposals_run_out :
  Committee.proposals gc used_up = [] ∧
  (Committee.dispatch gc (Signed 1) (Committee.VoteOrPropose true 7) used_up).1 =
  Err (ECommittee ProposalsLimitReached).
Proof. by vm_compute. Qed.
End GovernanceProperties.
