(* ===== verification/FundraisingProperties.v ===== *)
(** What the fundraisers promise: tiers are sold in order at their prices, an
    investment moves what it says, a fundraiser that was stopped is closed for
    good. *)

From stdpp Require Import base numbers list gmap sets strings sorting relations.
From S2P Require Import Prelude Subset AssetIdentifier Types SettlementTypes Schedules StoTypes.
From S2P Require Import State Identity Agents Portfolio Checkpoint Asset Nft Metadata Ledger.
From S2P Require Import Settlement SettlementInv SettlementAdd Execution System Fundraising.
From S2P Require Import CorporateTypes ChainState Corporate Clock CorporateInv FundraisingInv.
From S2P Require Import CorporateSteps Chain Sample.

Local Open Scope N_scope.

Module FundraisingProperties.
Import Settlement SettlementInv SettlementAdd Execution System Fundraising Chain.

Section properties.
Context {RT : Runtime} {EX : Externals} {SC : SettlementConfig} {CC : CorporateConfig}.

(* ------------------------------------------------------------------ *)
(** ** Buying from the tiers *)

(** The loop of [invest] computes the reference when no product overflows. *)
Lemma purchase_run id l n cost :
  Forall tier_ok l → Forall (λ t, tier_remaining t * tier_price t ≤ u128_max) l →
  cost + fill_cost l n ≤ u128_max →
  ∃ ps, purchase id l n cost = Ok (n - tiers_left l, cost + fill_cost l n, ps).
Proof.
  intros Hok. revert id n cost. induction Hok as [|t l [Ht Ht'] Hok IH]; intros id n cost Hp Hc.
  { exists []. simpl. by rewrite N.sub_0_r, N.add_0_r. }
  apply Forall_cons in Hp as [Hp Hps]. rewrite tiers_left_cons. cbn [fill_cost] in *. simpl.
  case_bool_decide as Hz.
  { rewrite Hz, N.min_0_l, N.mul_0_l, N.sub_0_r, N.div_0_l, N.add_0_l in * by done.
    by apply IH. }
  case_bool_decide as Hn.
  { subst n. rewrite N.min_0_r, N.mul_0_l, !N.sub_0_l, fill_cost_zero, N.div_0_l by done.
    exists []. by rewrite !N.add_0_r. }
  set (a := if bool_decide (n ≤ tier_remaining t) then n else tier_remaining t).
  assert (a = N.min (tier_remaining t) n) as Ha by (subst a; case_bool_decide; lia).
  assert (a * tier_price t ≤ u128_max) as Hm by (etrans; [apply N.mul_le_mono_r|exact Hp]; lia).
  rewrite <- Ha in *. unfold checked_mul, checked_add.
  rewrite bool_decide_eq_true_2 by done. simpl. rewrite decide_True by lia. simpl.
  assert (n - a = n - tier_remaining t) as -> by lia.
  destruct (IH (id + 1) (n - tier_remaining t) (cost + a * tier_price t / PRICE_DIVISOR) Hps)
    as [ps ->]; [lia|].
  exists ((id, a) :: ps). simpl. f_equal. f_equal. f_equal; lia.
Qed.

(** C13: tiers are sold in order, each at its price: the loop of [invest] takes
    the units from the first tiers that have some left, charges each at the
    price of its tier rounded down, reports what is missing, and the purchases
    it lists take from the tiers what was bought, whenever no price overflows. *)
Theorem tiers_are_sold_in_order (l : list FundraiserTier) (n : Balance) (Hok : Forall tier_ok l)
    (Hp : Forall (λ t, tier_remaining t * tier_price t ≤ u128_max) l)
    (Hc : fill_cost l n ≤ u128_max) :
  ∃ ps, purchase 0 l n 0 = Ok (n - tiers_left l, fill_cost l n, ps) ∧
    take_all l ps = fill l n ∧ tiers_left (take_all l ps) = tiers_left l - n.
Proof.
  destruct (purchase_run 0 l n 0 Hok Hp) as [ps H]; [by rewrite N.add_0_l|].
  rewrite N.add_0_l in H. exists ps.
  destruct (purchase_Ok 0 l n 0 _ _ ps Hok H) as (_ & _ & Ht). specialize (Ht [] eq_refl). simpl in Ht.
  rewrite Ht. split_and!; [done|done|apply tiers_left_fill].
Qed.

(* ------------------------------------------------------------------ *)
(** ** The instruction of an investment *)

Definition mandatory (t : Ticker) (w : World) : gset IdentityId :=
  getd ∅ (MandatoryMediators (asset w)) t.

Lemma collect_mediators v w legs tickers info tickers' info' :
  fold_check (collect_leg v w) (tickers, info) legs = Ok (tickers', info') →
  ∀ d, d ∈ mediators info' ↔
    d ∈ mediators info ∨ ∃ leg, leg ∈ legs ∧ is_off_chain leg = false ∧ d ∈ mandatory (leg_ticker leg) w.
Proof.
  revert tickers info. induction legs as [|leg legs IH]; intros tickers info H d; simpl in H.
  { ok_inv. simplify_eq. split; [by left|]. intros [?|(leg & []%elem_of_nil & _)]; done. }
  apply bind_Ok in H as ([tk i] & Hl & H). rewrite (IH _ _ H d).
  assert (d ∈ mediators i ↔ d ∈ mediators info ∨ is_off_chain leg = false ∧ d ∈ mandatory (leg_ticker leg) w)
    as ->; [|set_solver].
  unfold collect_leg in Hl. apply bind_Ok in Hl as ([tk' n] & _ & Hl). unfold mandatory.
  destruct leg; simpl in *; ok_inv; simplify_eq;
    try (match goal with |- context [if ?b then _ else _] => destruct b end);
    unfold extend_mediators; simpl; set_solver.
Qed.

(** The store after the investment's instruction was added. *)
Record opened (id : InstructionId) (legs : list Leg) (meds : gset IdentityId) (s : SettlementStore)
    : Prop := {
  op_legs : ∀ l, InstructionLegs s !! (id, l) = legs !! N.to_nat l;
  op_meds : ∀ e, InstructionMediatorsAffirmations s !! (id, e) =
    if decide (e ∈ meds) then Some MedPending else None;
  op_type : settlement_type (getd default_instruction (InstructionDetails s) id) = SettleOnAffirmation;
}.

Lemma open_instruction_facts {RS : Reserved} d v legs meds id w w1 :
  system_ok w → (∀ leg, leg ∈ legs → is_off_chain leg = false) →
  (∀ e, e ∈ meds ↔ ∃ leg, leg ∈ legs ∧ e ∈ mandatory (leg_ticker leg) w) →
  base_add_instruction d v SettleOnAffirmation None None legs None None w = (Ok id, w1) →
  opened id legs meds (settlement w1).
Proof.
  intros Hok Hleg Hmeds H.
  apply base_add_instruction_Ok in H as (info & Hv & Hid & _ & _ & _ & _ & ES).
  unfold ensure_valid_legs in Hv. apply bind_Ok in Hv as ([t i] & Hc & Hv). ok_inv. simplify_eq.
  pose proof (collect_mediators _ _ _ _ _ _ _ Hc) as Hm. simpl in ES.
  assert (∀ e, e ∈ mediators info ↔ e ∈ meds) as Hme.
  { intros e. rewrite Hm, Hmeds. simpl. set_solver. }
  rewrite ES. constructor.
  - intros l. rewrite (proj1 (add_legs_lookup _ _ _ _ _ _ _ _ _ _ (sys_settle _ Hok) eq_refl _ l)).
    by rewrite decide_True.
  - intros e. destruct (add_fields (settlement w) (InstructionCounter (settlement w)) v SettleOnAffirmation
      (now w) None None legs None info) as (_ & _ & -> & _).
    rewrite lookup_insert_all, (fresh_mediators _ _ (sys_settle _ Hok) eq_refl).
    assert ((InstructionCounter (settlement w), e) ∈
      (λ m, (InstructionCounter (settlement w), m)) <$> elements (mediators info) ↔ e ∈ meds) as He.
    { rewrite list_elem_of_fmap. setoid_rewrite elem_of_elements. rewrite <- Hme. naive_solver. }
    by repeat case_decide; try tauto.
  - simpl. by rewrite getd_insert_eq.
Qed.

Lemma opened_affirm id legs meds ps ils rs s :
  opened id legs meds s → opened id legs meds (affirm_store id ps ils rs s).
Proof. intros [H1 H2 H3]. by constructor. Qed.

(** When every party affirmed, only the mediators are left. *)
Lemma opened_pending id legs meds s :
  settle_ok s → opened id legs meds s → (∀ leg, leg ∈ legs → is_off_chain leg = false) →
  (∀ leg p, leg ∈ legs → leg_party leg p → user_aff s p id = Affirmed) →
  getd 0 (InstructionAffirmsPending s) id = 0 ↔ meds = ∅.
Proof.
  intros Hok [Hl Hm _] Hon Hp. split.
  - intros Hz. apply elem_of_equiv_empty_L. intros e He.
    assert (0 < getd 0 (InstructionAffirmsPending s) id); [|lia].
    apply (pending_mediator_positive s id e Hok). unfold getd. by rewrite Hm, decide_True.
  - intros ->. rewrite (so_pending _ Hok). unfold pending_total. rewrite !msum_zero; [done|..].
    + intros [id' e] m He. unfold pending_mediator. simpl. rewrite decide_False; [done|].
      intros [-> _]. rewrite Hm in He. done.
    + intros [id' l] m He. unfold pending_off. simpl. rewrite decide_False; [done|].
      intros [-> _]. destruct (so_off _ Hok id l) as (leg & Hleg & Hoff); [by eexists|].
      rewrite Hl in Hleg. apply list_elem_of_lookup_2, Hon in Hleg. congruence.
    + intros [p id'] m He. unfold pending_party. simpl. rewrite decide_False; [done|].
      intros [-> ->]. destruct (so_party _ Hok p id) as (l & leg & Hleg & Hpart); [by eexists|].
      rewrite Hl in Hleg. apply list_elem_of_lookup_2 in Hleg. apply (Hp leg p Hleg) in Hpart.
      unfold user_aff, getd in Hpart. by rewrite He in Hpart.
Qed.

Lemma lsum_Permutation {X} (f : X → N) l l' : l ≡ₚ l' → lsum f l = lsum f l'.
Proof. induction 1; simpl; lia. Qed.

(** The legs of an instruction with two of them. *)
Lemma listing_two s id a b ils :
  listing s id ils → (∀ l, InstructionLegs s !! (id, l) = [a; b] !! N.to_nat l) →
  ils ≡ₚ [(0, a); (1, b)].
Proof.
  intros [Hnd Hin] Hl. apply NoDup_Permutation.
  - by apply NoDup_fmap_1 in Hnd.
  - repeat constructor; set_solver.
  - intros [l leg]. rewrite Hin, Hl. rewrite !elem_of_cons, elem_of_nil. split.
    + destruct (N.to_nat l) as [|[|n]] eqn:E; simpl; intros [= <-]; [left|right; left]; f_equal; lia.
    + by intros [[= -> ->]|[[= -> ->]|[]]].
Qed.

(** What [opened] and the affirmations of all parties make of the execution. *)
Lemma affirm_store_user id ps ils rs s p :
  user_aff (affirm_store id ps ils rs s) p id = if decide (p ∈ ps) then Affirmed else user_aff s p id.
Proof.
  unfold user_aff. simpl. rewrite getd_insert_all.
  assert ((p, id) ∈ (λ q, (q, id)) <$> ps ↔ p ∈ ps) as He.
  { rewrite list_elem_of_fmap. naive_solver. }
  repeat case_decide; tauto.
Qed.

(** The balances of portfolios and of identities. *)
Definition balances_moved (ils : list (LegId * Leg)) (w w' : World) : Prop :=
  (∀ p t, Portfolio.portfolio_asset_balances p t w' + lsum (leg_out p t) ils =
          Portfolio.portfolio_asset_balances p t w + lsum (leg_in p t) ils) ∧
  (∀ d t, Asset.balance_of t d w' + lsum (identity_out d t) ils =
          Asset.balance_of t d w + lsum (identity_in d t) ils).

#[local] Instance balances_same_trans : Transitive balances_same.
Proof. intros w1 w2 w3 [H1 E1] [H2 E2]. split; [intros p t; by rewrite H2|congruence]. Qed.

Lemma balances_moved_same ils w w1 w2 w' :
  balances_same w w1 → balances_moved ils w1 w2 → balances_same w2 w' → balances_moved ils w w'.
Proof.
  intros [H1 E1] [H2 H3] [H4 E4]. split.
  - intros p t. by rewrite H4, H2, H1.
  - intros d t. specialize (H3 d t). unfold Asset.balance_of in *. by rewrite E4, H3, E1.
Qed.

Lemma settle_effect {RS : Reserved} creator v a b P o ps d m id w w1 w2 w' f (meds : gset IdentityId) :
  let legs := [a; b] in
  system_ok w → affirmations_fit (settlement w1) → Portfolio.balances_fit (portfolio w') →
  (∀ leg, leg ∈ legs → is_off_chain leg = false) →
  (∀ leg p, leg ∈ legs → leg_party leg p → p ∈ P ∨ p ∈ ps) →
  (∀ e, e ∈ meds ↔ ∃ leg, leg ∈ legs ∧ e ∈ mandatory (leg_ticker leg) w) →
  base_add_instruction creator v SettleOnAffirmation None None legs None None w = (Ok id, w1) →
  unsafe_affirm_instruction creator id P None None w1 = (Ok f, w2) →
  affirm_and_execute_instruction o id None ps d (w2 <| meter := m |>) = (Ok tt, w') →
  if decide (meds = ∅) then balances_moved [(0, a); (1, b)] w w' else balances_same w w'.
Proof.
  intros legs Hok Hfit Hb Hon Hpart Hmeds Ha Hu He.
  pose proof (open_instruction_facts _ _ _ meds _ _ _ Hok Hon Hmeds Ha) as Hop.
  pose proof (add_system _ _ _ _ _ _ _ _ _ _ _ Hok Hfit Ha) as Hs1.
  apply base_add_instruction_Ok in Ha as (_ & _ & _ & _ & _ & Hlo1 & _).
  pose proof (unsafe_affirm_system _ _ _ _ _ _ _ _ (proj1 Hs1) Hu) as [Hs2 ES2].
  apply unsafe_affirm_Ok in Hu as (_ & _ & _ & Hlo2 & _);
    [|apply (Portfolio.ok_balances _ (Ledger.ok_portfolio _ (sys_ledger _ (proj1 Hs1))))|apply Hs1..].
  apply affirm_and_execute_Ok in He as (_ & w3 & ils & rs & Hs3 & ES3 & Hlo3 & He);
    [|apply (sound_meter w2 m), Hs2|done].
  change (settlement (w2 <| meter := m |>)) with (settlement w2) in ES3.
  assert (opened id legs meds (settlement w3)) as Hop3
    by (rewrite ES3, ES2; by apply opened_affirm, opened_affirm).
  assert (instruction_affirms_pending id w3 = 0 ↔ meds = ∅) as Hz.
  { apply (opened_pending id legs); [apply Hs3|done|done|]. intros leg p Hleg Hp.
    rewrite ES3, affirm_store_user, ES2, affirm_store_user.
    destruct (Hpart leg p Hleg Hp); repeat case_decide; set_solver. }
  assert (balances_same w w3) as Hsame.
  { do 2 (etrans; [by apply locks_only_balances|]).
    exact (locks_only_balances (w2 <| meter := m |>) w3 Hlo3). }
  rewrite (bool_decide_eq_true_2 (settlement_type _ = _)) in He by apply Hop3. rewrite andb_true_l in He.
  destruct (decide (meds = ∅)) as [Hm|Hm].
  - rewrite bool_decide_eq_true_2 in He by (by apply Hz). destruct He as (w4 & Hex & s & ->).
    apply (balances_moved_same _ w w3 w4); [done| |done]. destruct (ex_moved _ _ _ Hex) as [M1 M2 _ _ _].
    pose proof (listing_two _ _ _ _ _ (sorted_legs_listing id w3) (op_legs _ _ _ _ Hop3)) as Hp.
    split; intros x t; [specialize (M1 x t)|specialize (M2 x t)];
      by rewrite !(lsum_Permutation _ _ _ Hp) in *.
  - rewrite bool_decide_eq_false_2 in He by tauto. destruct He as [EP EA]. etrans; [done|].
    split; [intros p t; unfold Portfolio.portfolio_asset_balances; by rewrite EP|done].
Qed.

(** No receipt can stand for a leg that is on chain. *)
Lemma on_chain_receipt {RS : Reserved} o id r ps d w w' :
  system_ok w → (∀ l leg, InstructionLegs (settlement w) !! (id, l) = Some leg → is_off_chain leg = false) →
  affirm_and_execute_instruction o id (Some r) ps d w ≠ (Ok tt, w').
Proof.
  intros Hok Hon H. unfold affirm_and_execute_instruction in H.
  apply SE_bind_Ok in H as (f & w1 & Haf & _).
  apply affirm_with_receipts_Ok in Haf as (_ & _ & _ & _ & _ & _ & _ & Hv);
    [|apply (Portfolio.ok_balances _ (Ledger.ok_portfolio _ (sys_ledger _ Hok)))|apply Hok..].
  apply valid_receipts_Ok in Hv as (_ & _ & Hall).
  destruct (Hall r) as (_ & _ & _ & s & x & ti & am & Hleg & _); [by left|].
  by apply Hon in Hleg.
Qed.

(** The legs of an investment are on chain and name four portfolios. *)
Lemma investment_legs_on_chain f ip fp a cost leg :
  leg ∈ investment_legs f ip fp a cost → is_off_chain leg = false.
Proof. unfold investment_legs. rewrite !elem_of_cons, elem_of_nil. by intros [->|[->|[]]]. Qed.

Lemma investment_parties f ip fp a cost leg p :
  leg ∈ investment_legs f ip fp a cost → leg_party leg p →
  p ∈ ({[offering_portfolio f; raising_portfolio f]} : gset PortfolioId) ∨ p ∈ [ip; fp].
Proof.
  unfold investment_legs. rewrite !elem_of_cons, elem_of_nil. unfold leg_party.
  intros [->|[->|[]]]; simpl; set_solver.
Qed.

Lemma investment_mandatory f ip fp a cost w e :
  e ∈ mandatory (offering_asset f) w ∪ mandatory (raising_asset f) w ↔
  ∃ leg, leg ∈ investment_legs f ip fp a cost ∧ e ∈ mandatory (leg_ticker leg) w.
Proof.
  unfold investment_legs. rewrite elem_of_union. setoid_rewrite elem_of_cons.
  setoid_rewrite elem_of_cons. setoid_rewrite elem_of_nil. split.
  - intros [He|He].
    + eexists. split; [by left|done].
    + eexists. split; [by right; left|done].
  - intros (leg & [->|[->|[]]] & He); simpl in He; [by left|by right].
Qed.

Lemma investment_receipt o ip fp t id a max receipt c c' f w0 w1 w2 w :
  room (world c) → investment o ip fp t id a max receipt c c' f w0 w1 w2 w → receipt = None.
Proof.
  intros Hroom [_ _ _ _ _ _ _ _ _ Hsys _ _ _ (d & iid & fl & Hopen & Hadd & Haf & Hex)].
  destruct receipt as [r|]; [|done]. exfalso.
  set (R := promises c') in *.
  pose proof (open_instruction_facts (RS := R) _ _ _ _ _ _ _ Hsys
    (investment_legs_on_chain _ _ _ _ _) (investment_mandatory _ _ _ _ _ _) Hadd) as Hop.
  pose proof (add_system (RS := R) _ _ _ _ _ _ _ _ _ _ _ Hsys (Hroom _ _ _ _ _ _ _ Hopen) Hadd) as [Hok1 _].
  apply (unsafe_affirm_system (RS := R)) in Haf as [[Hok2 _] ES]; [|done].
  apply (on_chain_receipt (RS := R)) in Hex; [done|by apply system_ok_meter|].
  intros l leg Hl. simpl in Hl. rewrite ES in Hl. simpl in Hl. rewrite (op_legs _ _ _ _ Hop) in Hl.
  apply list_elem_of_lookup_2 in Hl. by eapply investment_legs_on_chain.
Qed.

(** C12: an investment settles at once and at the price of the tiers: the
    fundraiser is live and in its window, has the units left, the cost is that
    of the tiers filled in order, within the limits of the fundraiser and of
    the investor; the tiers lose what was bought; when neither asset has a
    mandatory mediator, the units go from the offering portfolio to the
    investor's and the cost from the funding portfolio to the raising one, and
    nothing else moves; with a mandatory mediator nothing moves at all. *)
Theorem investing_settles (o : Origin) (ip fp : PortfolioId) (t : Ticker) (id : FundraiserId)
    (a : Balance) (max : option Balance) (receipt : option ReceiptDetails) (c c' : Chain)
    (Hr : reachable c) (Hroom : room (world c)) (Hf : storage_fits (world c'))
    (H : invest o ip fp t id a max receipt c = (Ok tt, c')) :
  ∃ f, let cost := fill_cost (tiers f) a in
    Fundraisers (sto c) !! (t, id) = Some f ∧ fr_status f = FundraiserLive ∧
    ensure_in_window f (now (world c)) = true ∧ a ≤ tiers_left (tiers f) ∧
    minimum_investment f ≤ cost ∧
    (∀ m, max = Some m → cost ≤ saturating_mul u128_max m a / PRICE_DIVISOR) ∧
    sto c' = (sto c) <| Fundraisers ::= <[(t, id) := f <| tiers := fill (tiers f) a |>]> |> ∧
    if decide (mandatory (offering_asset f) (world c) ∪ mandatory (raising_asset f) (world c) = ∅)
    then balances_moved [(0, Fungible (offering_portfolio f) ip (offering_asset f) a);
                         (1, Fungible fp (raising_portfolio f) (raising_asset f) cost)]
           (world c) (world c')
    else balances_same (world c) (world c').
Proof.
  apply reachable_ok in Hr as [Hok _].
  apply invest_course in H as (f & w0 & w1 & w2 & w & Hi); [|done]. exists f. simpl.
  pose proof (investment_receipt _ _ _ _ _ _ _ _ _ _ _ _ _ _ _ Hroom Hi) as ->.
  destruct Hi as [Hfu Hl Hw Ha Hmin Hmax Es [e Ew] _ Hsys Hh Hlo ES (d & iid & fl & Hopen & Hadd & Haf & Hex)].
  split_and!; try done.
  rewrite Ew in Hf. destruct (sf_store _ Hf) as [Hb _]. change (Portfolio.balances_fit (portfolio w)) in Hb.
  pose proof (settle_effect (RS := promises c') _ _ _ _ _ _ _ _ _ _ _ _ _ _ _
    (mandatory (offering_asset f) w0 ∪ mandatory (raising_asset f) w0) Hsys (Hroom _ _ _ _ _ _ _ Hopen) Hb
    (investment_legs_on_chain _ _ _ _ _) (investment_parties _ _ _ _ _) (investment_mandatory _ _ _ _ _ _)
    Hadd Haf Hex) as He.
  unfold mandatory in *. rewrite (lo_asset _ _ Hlo) in He.
  pose proof (locks_only_balances _ _ Hlo) as Hsame.
  assert (balances_same w (world c')) as Hend by (rewrite Ew; done).
  destruct (decide _).
  - by apply (balances_moved_same _ _ w0 w).
  - etrans; [done|]. by etrans.
Qed.

(** no receipt pays for an investment: a call that presents one fails,
    whatever it says, because both legs of the instruction are on chain. *)
Theorem receipts_never_pay (o : Origin) (ip fp : PortfolioId) (t : Ticker) (id : FundraiserId)
    (a : Balance) (max : option Balance) (r : ReceiptDetails) (c c' : Chain)
    (Hr : reachable c) (Hroom : room (world c)) :
  invest o ip fp t id a max (Some r) c ≠ (Ok tt, c').
Proof.
  apply reachable_ok in Hr as [Hok _]. intros H.
  apply invest_course in H as (f & w0 & w1 & w2 & w & Hi); [|done].
  by apply investment_receipt in Hi.
Qed.

(* ------------------------------------------------------------------ *)
(** ** Closing *)

(** What a call writes: one fundraiser, one that was open or did not exist. *)
Lemma dispatch_writes o call c c' :
  chain_ok c → Fundraising.dispatch o call c = (Ok tt, c') →
  ∃ key f', Fundraisers (sto c') = <[key := f']> (Fundraisers (sto c)) ∧
    ∀ f, Fundraisers (sto c) !! key = Some f → is_closed f = false.
Proof.
  intros Hok H.
  assert (∀ t id, modified t id c c' → ∃ key f', Fundraisers (sto c') = <[key := f']> (Fundraisers (sto c)) ∧
    ∀ f, Fundraisers (sto c) !! key = Some f → is_closed f = false) as Hmod.
  { intros t id [(f & f' & Hf & Hc & _ & _ & _ & _ & ->) _ _]. exists (t, id), f'. split; [done|].
    intros g Hg. by simplify_eq. }
  destruct call; simpl in H.
  - apply create_inv in H as (f & w & e & _ & _ & _ & _ & _ & _ & ->). eexists _, f. split; [done|].
    intros g Hg. by rewrite (fresh_fundraiser _ offering (ch_sto _ Hok)) in Hg.
  - apply invest_course in H as (f & w0 & w1 & w2 & w & [Hf Hl _ _ _ _ -> _ _ _ _ _ _ _]); [|done].
    eexists _, _. split; [done|]. intros g Hg. simplify_eq. by apply is_closed_live.
  - by eapply Hmod, set_frozen_modified.
  - by eapply Hmod, set_frozen_modified.
  - by eapply Hmod, modify_window_modified.
  - apply stop_inv in H as (f & f' & w & e & Hf & Hc & _ & _ & ->). eexists _, _. split; [done|].
    intros g Hg. by simplify_eq.
Qed.

Lemma closed_stays c c' key f :
  chain_ok c → storage_fits (world c) → rtc chain_step c c' →
  Fundraisers (sto c) !! key = Some f → is_closed f = true → Fundraisers (sto c') !! key = Some f.
Proof.
  intros Hok Hf H. revert Hok Hf. induction H as [c|c1 c2 c3 H12 _ IH]; intros Hok Hf Hk Hc; [done|].
  destruct (chain_step_kept _ _ Hok Hf H12) as [[Hok2 _] Hf2]. apply IH; [done|done| |done].
  destruct H12 as [w w' s x _|o call c c' H _ _|o call c c' H _]; [done|..].
  2:{ destruct (CorporateSteps.corporate_remembers o call c) as [E _]. rewrite H in E. simpl in E.
      by rewrite E. }
  destruct (dispatch_writes o call c c' Hok H) as (key' & f' & -> & Hopen).
  rewrite lookup_insert_ne; [done|]. intros ->. apply Hopen in Hk. congruence.
Qed.

(** C14: stopping is final and gives the rest back: it unlocks exactly what the
    tiers of the fundraiser still offered and moves nothing; whatever follows,
    the fundraiser stays closed as it is, and no investment in it succeeds. *)
Theorem stopping_is_final (o : Origin) (t : Ticker) (id : FundraiserId) (c c' c'' : Chain)
    (Hr : reachable c) (H : stop o t id c = (Ok tt, c')) (Hf : storage_fits (world c'))
    (Hs : rtc chain_step c' c'') :
  ∃ f f', Fundraisers (sto c) !! (t, id) = Some f ∧
    (∀ k, locked_units (portfolio (world c')) k + offered_by f k =
          locked_units (portfolio (world c)) k) ∧
    balances_same (world c) (world c') ∧
    Fundraisers (sto c'') !! (t, id) = Some f' ∧ is_closed f' = true ∧ tiers f' = tiers f ∧
    ∀ o' ip fp a max receipt c3, invest o' ip fp t id a max receipt c'' ≠ (Ok tt, c3).
Proof.
  apply reachable_ok in Hr as [Hok _].
  destruct (stop_kept _ _ _ _ _ Hok H) as [[Hok' _] _].
  apply stop_inv in H as (f & f' & w & e & Hfu & Hc & Hst & Hu & ->). exists f, f'.
  pose proof (offered_bound _ _ _ (ch_sto _ Hok (t, id) f Hfu)) as Hb.
  rewrite remaining_amount_eq in Hu by done.
  assert (is_closed f' = true) as Hc' by (by destruct Hst as [->| ->]).
  destruct (unlock_offered c f f' (t, id) (tiers_left (tiers f)) w)
    as (_ & _ & Hlo & _ & Hk); [done|done| |done|].
  { intros k p. rewrite offered_by_closed by done. by rewrite (offered_by_open f k p). }
  assert (Fundraisers (sto c'') !! (t, id) = Some f') as Hlast.
  { eapply closed_stays; [done|done|done| |done]. apply lookup_insert_eq. }
  split_and!; try done.
  - intros k. rewrite Hk, offered_by_closed by done. lia.
  - exact (locks_only_balances _ _ Hlo).
  - by destruct Hst as [->| ->].
  - intros o' ip fp a max receipt c3 Hi.
    apply invest_inv in Hi as (data & g & cost & ps & w' & e' & _ & Hg & Hl & _).
    rewrite Hlast in Hg. simplify_eq. apply is_closed_live in Hl. congruence.
Qed.
(* ------------------------------------------------------------------ *)
(** ** Room for an instruction *)

Lemma size_insert_all_le {X K V} `{Countable K} (v : V) (g : X → K) l (m : gmap K V) :
  (size (insert_all v g l m) ≤ size m + length l)%nat.
Proof.
  unfold insert_all. revert m. induction l as [|x l IH]; intros m; simpl; [lia|].
  etrans; [apply IH|]. rewrite map_size_insert. destruct (m !! g x); simpl; lia.
Qed.

Lemma insert_legs_on_chain id n legs s :
  (∀ leg, leg ∈ legs → is_off_chain leg = false) →
  OffChainAffirmations (insert_legs id n legs s) = OffChainAffirmations s.
Proof.
  revert n s. induction legs as [|leg legs IH]; intros n s Hon; simpl; [done|].
  rewrite (Hon leg) by (by left). rewrite IH; [done|]. intros leg' Hin. apply Hon. by right.
Qed.

Lemma add_store_on_chain id next v st created trade value legs memo info s :
  (∀ leg, leg ∈ legs → is_off_chain leg = false) →
  OffChainAffirmations (add_store id next v st created trade value legs memo info s) =
  OffChainAffirmations s.
Proof. intros Hon. unfold add_store, store_instruction. simpl. by rewrite insert_legs_on_chain. Qed.

(** An investment adds no more than eight affirmations of portfolios and the
    mediators of the two assets. *)
Lemma room_enough w n :
  (∀ t, (size (mandatory t w) ≤ n)%nat) →
  N.of_nat (size (UserAffirmations (settlement w)) + size (OffChainAffirmations (settlement w)) +
    size (InstructionMediatorsAffirmations (settlement w)) + 8 + 2 * n) ≤ u64_max → room w.
Proof.
  intros Hn Hs f ip fp a cost id w1 H. unfold open_investment in H.
  apply SE_bind_Ok in H as ([] & w0 & [_ ->]%Portfolio.unlock_tokens_Ok & H).
  apply base_add_instruction_Ok in H as (info & Hv & Hid & _ & _ & _ & _ & ES). simpl in ES, Hid.
  subst id.
  unfold ensure_valid_legs in Hv. apply bind_Ok in Hv as ([t i] & Hc & Hv).
  apply bind_Ok in Hv as ([] & _ & Hv). injection Hv as ->.
  pose proof (collect_mediators _ _ _ _ _ _ _ Hc) as Hm.
  apply collect_legs_Ok in Hc as (_ & _ & _ & _ & _ & Hp); [|unfold count_bounded; simpl; lia].
  set (all := {[offering_portfolio f; raising_portfolio f; ip; fp]} : gset PortfolioId).
  assert (∀ X : gset PortfolioId, X ⊆ portfolios_pending_approval info ∪ portfolios_pre_approved info →
    (length (elements X) ≤ 4)%nat) as Hpar.
  { intros X HX. change (length (elements X)) with (size X). transitivity (size all).
    - apply subseteq_size. intros p Hin. destruct (Hp p (HX p Hin)) as [Hx|(leg & Hleg & Hpt)]; [set_solver|].
      apply (investment_parties _ _ _ _ _ _ _ Hleg) in Hpt. set_solver.
    - subst all. rewrite !size_union_alt, !size_singleton.
      repeat match goal with |- context [size (?A ∖ ?B)] =>
        lazymatch goal with H : (size (A ∖ B) ≤ 1)%nat |- _ => fail | _ =>
          assert (size (A ∖ B) ≤ 1)%nat by (etrans; [apply (subseteq_size _ A); set_solver|by rewrite size_singleton]) end end.
      lia. }
  assert (length (elements (mediators info)) ≤ 2 * n)%nat as Hmed.
  { change (length (elements (mediators info))) with (size (mediators info)).
    transitivity (size (mandatory (offering_asset f) w ∪ mandatory (raising_asset f) w)).
    - apply subseteq_size. intros e [He|He]%Hm; [set_solver|]. destruct He as (leg & Hleg & _ & He).
      apply (investment_mandatory f ip fp a cost). by exists leg.
    - rewrite size_union_alt. pose proof (Hn (offering_asset f)). pose proof (Hn (raising_asset f)).
      assert (size (mandatory (raising_asset f) w ∖ mandatory (offering_asset f) w) ≤
        size (mandatory (raising_asset f) w))%nat by (apply subseteq_size; set_solver). lia. }
  unfold affirmations_fit. rewrite ES.
  destruct (add_fields (settlement w) (InstructionCounter (settlement w)) (fr_venue_id f) SettleOnAffirmation
    (now w) None None (investment_legs f ip fp a cost) None info) as (EU & _ & EM & _).
  rewrite EU, EM.
  rewrite (add_store_on_chain _ _ _ _ _ _ _ _ _ _ _ (investment_legs_on_chain _ _ _ _ _)).
  pose proof (Hpar (portfolios_pending_approval info)) as H1.
  pose proof (Hpar (portfolios_pre_approved_difference info)) as H2.
  unfold portfolios_pre_approved_difference in *. specialize (H1 ltac:(set_solver)).
  specialize (H2 ltac:(set_solver)).
  match goal with |- context [size (insert_all ?v ?g ?l (insert_all ?v' ?g' ?l' ?m))] =>
    pose proof (size_insert_all_le v g l (insert_all v' g' l' m));
    pose proof (size_insert_all_le v' g' l' m) end.
  match goal with |- context [size (insert_all MedPending ?g ?l ?m)] =>
    pose proof (size_insert_all_le MedPending g l m) end.
  lia.
Qed.

End properties.

(* ------------------------------------------------------------------ *)
(** ** The properties on the sample chain *)

Import Sample.
#[local] Existing Instances sample_runtime sample_externals sample_settlement sample_corporate
  nothing_reserved.

(** Identity 1 offers 500 of its asset at 2 and 3 dollars, against an asset of
    identity 2. *)
Definition market : list (Origin * System.call) :=
  setup ++
  [(Signed 2, CallAsset (Asset.CreateAsset usd usd true StableCoin [] None));
   (Signed 2, CallAsset (Asset.Issue usd 5000 Default));
   (Signed 1, CallSettlement (Settlement.CreateVenue [] [] Sto))].
Definition offer : Fundraising.call :=
  CreateFundraiser (pf 1) acme (pf 1) usd [mkPriceTier 100 2000000; mkPriceTier 400 3000000] 2
    None None 10 [1].
Definition with_offer (cs : list (Origin * System.call)) : Chain :=
  (Fundraising.dispatch (Signed 1) offer (chain_after cs)).2.
Definition offered : Chain := with_offer market.
Definition buy (r : option ReceiptDetails) : C unit := invest (Signed 2) (pf 2) (pf 2) acme 0 150 None r.

Definition roomy (w : World) : bool :=
  bool_decide (MandatoryMediators (asset w) = ∅) &&
  bool_decide (N.of_nat (size (UserAffirmations (settlement w)) + size (OffChainAffirmations (settlement w)) +
    size (InstructionMediatorsAffirmations (settlement w)) + 8) ≤ u64_max).

Lemma roomy_room w : roomy w = true → room w.
Proof.
  unfold roomy. intros [E%bool_decide_eq_true_1 H%bool_decide_eq_true_1]%andb_true_iff.
  apply (room_enough w 0).
  - intros t. unfold mandatory. rewrite E, getd_empty. done.
  - by rewrite Nat.add_0_r.
Qed.

(** One more call of the fundraisers on the sample chain. *)
Lemma sample_step o call c :
  reachable c → roomy (world c) = true → (Fundraising.dispatch o call c).1 = Ok tt →
  fits (world (Fundraising.dispatch o call c).2) = true →
  chain_step c (Fundraising.dispatch o call c).2.
Proof.
  intros Hr Hroom H Hf. apply (chain_sto o call); [|by apply roomy_room|by apply fits_sound].
  by destruct (Fundraising.dispatch o call c) as [r c'] eqn:E; simpl in *; subst r.
Qed.

Lemma offered_reachable : reachable offered.
Proof.
  eapply reachable_step; [apply (after_reachable market); by vm_compute|]. apply rtc_once, sample_step.
  - apply after_reachable. by vm_compute.
  - by vm_compute.
  - by vm_compute.
  - by vm_compute.
Qed.

Definition sample_tiers : list FundraiserTier :=
  [mkFundraiserTier 100 2000000 0; mkFundraiserTier 100 2000000 100; mkFundraiserTier 400 3000000 400].

Lemma tiers_are_sold_in_order_witness :
  ∃ ps, purchase 0 sample_tiers 150 0 = Ok (0, 350, ps) ∧
    take_all sample_tiers ps =
      [mkFundraiserTier 100 2000000 0; mkFundraiserTier 100 2000000 0; mkFundraiserTier 400 3000000 350].
Proof.
  destruct (tiers_are_sold_in_order sample_tiers 150) as (ps & H1 & H2 & _).
  - by repeat constructor.
  - by repeat constructor.
  - by vm_compute.
  - exists ps. rewrite H1, H2. split; by vm_compute.
Defined.

Lemma investing_settles_witness :
  ∃ f, Fundraisers (sto offered) !! (acme, 0) = Some f ∧ fill_cost (tiers f) 150 = 350 ∧
    balances_moved [(0, Fungible (pf 1) (pf 2) acme 150); (1, Fungible (pf 2) (pf 1) usd 350)]
      (world offered) (world (buy None offered).2).
Proof.
  destruct (investing_settles (Signed 2) (pf 2) (pf 2) acme 0 150 None None offered (buy None offered).2)
    as (f & Hf & _ & _ & _ & _ & _ & _ & H).
  - exact offered_reachable.
  - apply roomy_room. by vm_compute.
  - apply fits_sound. by vm_compute.
  - apply run_call. by vm_compute.
  - exists f. split; [done|].
    assert (Fundraisers (sto offered) !! (acme, 0) = Some (mkFundraiser 1 (pf 1) acme (pf 1) usd
      [mkFundraiserTier 100 2000000 100; mkFundraiserTier 400 3000000 400] 2 1 None FundraiserLive 10))
      as E by (by vm_compute).
    assert (fill_cost (tiers f) 150 = 350 ∧ offering_portfolio f = pf 1 ∧ offering_asset f = acme ∧
      raising_portfolio f = pf 1 ∧ raising_asset f = usd) as (E1 & E2 & E3 & E4 & E5).
    { rewrite E in Hf. injection Hf as <-. by split_and!. }
    split; [done|]. cbv zeta in H.
    assert (MandatoryMediators (asset (world offered)) = ∅) as EM by (by vm_compute).
    assert (∀ t, mandatory t (world offered) = ∅) as EM'.
    { intros t. unfold mandatory. by rewrite EM, getd_empty. }
    rewrite E1, E2, E3, E4, E5, !EM', decide_True in H by set_solver. exact H.
Defined.

Lemma receipts_never_pay_witness :
  (buy (Some sample_receipt) offered).1 ≠ Ok tt.
Proof.
  intros H. apply (receipts_never_pay (Signed 2) (pf 2) (pf 2) acme 0 150 None sample_receipt offered
    (buy (Some sample_receipt) offered).2 offered_reachable).
  - apply roomy_room. by vm_compute.
  - exact (run_call (buy (Some sample_receipt)) offered tt H).
Defined.

Definition stopped : Chain := (stop (Signed 1) acme 0 offered).2.
Lemma stopping_is_final_witness :
  (∃ f, Fundraisers (sto stopped) !! (acme, 0) = Some f ∧ is_closed f = true) ∧
  (buy None stopped).1 ≠ Ok tt.
Proof.
  destruct (stopping_is_final (Signed 1) acme 0 offered stopped stopped) as (f & f' & _ & _ & _ & H1 & H2 & _ & H3).
  - exact offered_reachable.
  - refine (run_call (stop (Signed 1) acme 0) offered tt _). by vm_compute.
  - apply fits_sound. by vm_compute.
  - apply rtc_refl.
  - split; [exact (ex_intro _ f' (conj H1 H2))|]. intros H.
    exact (H3 (Signed 2) (pf 2) (pf 2) 150 None None (buy None stopped).2 (run_call (buy None) stopped tt H)).
Defined.

(* ------------------------------------------------------------------ *)
(** ** What the fundraisers do not promise *)

Definition mediated : list (Origin * System.call) :=
  market ++ [(Signed 1, CallAsset (Asset.AddMandatoryMediators acme {[3]}))].

(** With a mandatory mediator the call succeeds and counts the units as sold, but
    nothing moves: both parties keep what they had, locked for an instruction
    that is marked as successful and has no legs left to release. *)
Example mediated_investment_locks_everything :
  let c := (buy None (with_offer mediated)).2 in
  (buy None (with_offer mediated)).1 = Ok tt ∧
  Portfolio.portfolio_asset_balances (pf 2) acme (world c) = 0 ∧
  Portfolio.locked_assets (pf 1) acme (world c) = 500 ∧
  Portfolio.locked_assets (pf 2) usd (world c) = 350 ∧
  instruction_status 1 (world c) = StatusSuccess 1 ∧ legs_of 1 (world c) = [] ∧
  tiers_left <$> (tiers <$> Fundraisers (sto c) !! (acme, 0)) = Some 350.
Proof. by vm_compute. Qed.

Definition treasury : PortfolioId := mkPortfolioId 1 (User 1).
Definition with_treasury : list (Origin * System.call) :=
  market ++ [(Signed 1, CallPortfolio (Portfolio.CreatePortfolio [2]))].
Definition approved : list (Origin * System.call) :=
  with_treasury ++ [(Signed 1, CallPortfolio (Portfolio.PreApprovePortfolio usd treasury))].
Definition treasury_offer (cs : list (Origin * System.call)) : Chain :=
  (create_fundraiser (Signed 1) (pf 1) acme treasury usd [mkPriceTier 500 2000000] 2 None None 10 [1]
    (chain_after cs)).2.

(** A raising portfolio that has pre-approved the raising asset makes every
    investment fail: the instruction affirms it when it is added, and the
    affirmation of the creator insists on a pending one. *)
Example approved_treasury_blocks_investments :
  (buy None (treasury_offer with_treasury)).1 = Ok tt ∧
  (buy None (treasury_offer approved)).1 = Err (ESettlement UnexpectedAffirmationStatus).
Proof. by vm_compute. Qed.
End FundraisingProperties.
