(* ===== verification/CorporateProperties.v ===== *)
(** What the corporate actions promise: a benefit is what the record date and
    the terms say, it is paid once, what is not claimed comes back, the tally of
    a ballot is the sum of the votes, nobody votes with more than was held, and
    the schedule behind a record date stays. *)

From stdpp Require Import base numbers list gmap sets strings sorting relations.
From S2P Require Import Prelude Subset AssetIdentifier Types SettlementTypes Schedules StoTypes.
From S2P Require Import CorporateTypes State ChainState Identity Agents Portfolio Checkpoint Asset.
From S2P Require Import Nft Metadata Ledger Sorting Settlement SettlementInv SettlementAdd Execution.
From S2P Require Import System Fundraising Corporate Clock BallotInv CorporateInv FundraisingInv.
From S2P Require Import CorporateSteps Chain Sample.

Local Open Scope N_scope.

Module CorporateProperties.
Import SettlementInv Execution System Clock Corporate Distributing Balloting CorporateCalls.
Import BallotInv CorporateInv CorporateSteps Chain.

Section properties.
Context {RT : Runtime} {EX : Externals} {SC : SettlementConfig} {CC : CorporateConfig}.

(** The holding that counts can always be read: neither the missing record date
    nor the search for the balance panics. *)
Lemma get_balance_at_Some t d cp w :
  Checkpoint.checkpoint_ok (checkpoint w) → is_Some (Checkpoint.get_balance_at t d cp w).
Proof.
  intros Hok. destruct (Checkpoint.checkpoint_exists t cp w) eqn:Hex.
  - rewrite Checkpoint.get_balance_at_view by done. by eexists.
  - unfold Checkpoint.get_balance_at, Checkpoint.balance_at. rewrite Hex. by eexists.
Qed.

Lemma record_balance_Some c id ca rd d :
  chain_ok c → record_date ca = Some rd → is_Some (record_balance ca id d (world c)).
Proof.
  intros Hok E. unfold record_balance, record_date_cp. rewrite E. simpl.
  pose proof (Ledger.ok_checkpoint _ (sys_ledger _ (ch_system _ Hok))) as Hc.
  destruct (ca_checkpoint rd) as [sid i|cp]; simpl; [|by apply get_balance_at_Some].
  destruct (_ !! _) as [cp|]; simpl; [by apply get_balance_at_Some|by eexists].
Qed.

(** A distribution or a ballot has an action whose holdings can be read. *)
Theorem holdings_can_be_read (c : Chain) (H : reachable c) (id : CAId)
    (Hs : is_Some (Distributions (corporate c) !! id) ∨ is_Some (TimeRanges (corporate c) !! id)) :
  ∃ ca, CorporateActions (corporate c) !! id = Some ca ∧
    ∀ d, is_Some (record_balance ca id d (world c)).
Proof.
  apply reachable_ok in H as [Hok _]. pose proof (ch_corporate _ Hok) as Hx.
  assert (∃ k start, served (corporate c) k id start) as (k & start & ca & rd & Hca & _ & Hrd & _).
  { destruct Hs as [[d Hd]|[r Hr]].
    - apply (co_distributions _ _ Hx) in Hd as []. eauto.
    - apply (co_ballots _ _ Hx) in Hr as []. eauto. }
  exists ca. split; [done|]. intros d. by eapply record_balance_Some.
Qed.

(* ------------------------------------------------------------------ *)
(** ** Distributions *)

Lemma gain_of_le ca holder divisible benefit :
  benefit ≤ u128_max →
  let net := benefit - permill_mul (tax_of ca holder) benefit in
  gain_of ca holder divisible benefit = (if divisible : bool then net else net / ONE_UNIT * ONE_UNIT) ∧
  gain_of ca holder divisible benefit ≤ benefit.
Proof.
  intros Hb. pose proof (permill_mul_le (tax_of ca holder) benefit) as Hp. unfold gain_of.
  rewrite wrapping_sub_small by done. split; [done|]. destruct divisible; [lia|].
  etrans; [rewrite N.mul_comm; apply N.Div0.mul_div_le|lia].
Qed.

(** C15: a benefit is what the terms say: it is paid while the distribution is
    open, that is from the moment of payment on and strictly before the expiry
    (the comments of claim and push_benefit would also allow the moment of expiry
    itself), to a holder whom the action targets, and is the holding at the record
    date times the rate, rounded down; the tax of the action for the holder is
    withheld and of an indivisible currency only whole units are paid; the gain
    goes from the distribution's portfolio to the holder's default portfolio, also
    when an agent pushes it (where the comment names the portfolio of the agent),
    and no other balance changes; the benefit leaves the amount that remains and
    the locks of the portfolio, and the holder is noted as paid. *)
Theorem claiming_pays (actor holder : IdentityId) (id : CAId) (c c' : Chain) (Hr : reachable c)
    (H : transfer_benefit actor holder id c = (Ok tt, c')) (Hf : storage_fits (world c')) :
  ∃ d ca balance,
    let benefit := balance * per_share d / PER_SHARE_PRECISION in
    let net := benefit - permill_mul (tax_of ca holder) benefit in
    let gain := if Asset.is_divisible (currency d) (world c) then net
                else net / ONE_UNIT * ONE_UNIT in
    let paid := (0, Fungible (dist_from d) (mkPortfolioId holder Default) (currency d) gain) in
    Distributions (corporate c) !! id = Some d ∧ CorporateActions (corporate c) !! id = Some ca ∧
    payment_at d ≤ now (world c) ∧ (∀ e, expires_at d = Some e → now (world c) < e) ∧
    match treatment (ca_targets ca) with
    | Include => holder ∈ identities (ca_targets ca)
    | Exclude => holder ∉ identities (ca_targets ca)
    end ∧
    record_balance ca id holder (world c) = Some balance ∧
    (∀ tax, (holder, tax) ∈ withholding_tax ca → tax_of ca holder = tax) ∧
    (holder ∉ fst <$> withholding_tax ca → tax_of ca holder = default_withholding_tax ca) ∧
    gain ≤ benefit ∧ benefit ≤ remaining d ∧
    (∀ p t, Portfolio.portfolio_asset_balances p t (world c') + leg_out p t paid =
            Portfolio.portfolio_asset_balances p t (world c) + leg_in p t paid) ∧
    (∀ k, locked_units (portfolio (world c')) k +
          leg_units (Fungible (dist_from d) (dist_from d) (currency d) benefit) k =
          locked_units (portfolio (world c)) k) ∧
    Distributions (corporate c') !! id = Some (d <| remaining := remaining d - benefit |>) ∧
    HolderPaid (corporate c') !! (id, holder) = Some true.
Proof.
  apply reachable_ok in Hr as [Hok _].
  apply transfer_benefit_inv in H
    as (d & ca & balance & w' & [_ Hd Hst Hop Hca Ht Hb Hm Hle Hpay [e Ew] _ Ex]).
  exists d, ca, balance. simpl in Hpay. destruct (sf_store _ Hf) as [Hfit _].
  rewrite Ew in Hfit |- *. change (Portfolio.balances_fit (portfolio w')) in Hfit.
  set (benefit := balance * per_share d / PER_SHARE_PRECISION) in *.
  assert (benefit ≤ u128_max) as Hbm.
  { etrans; [|exact Hm]. apply N.Div0.div_le_upper_bound. unfold PER_SHARE_PRECISION. lia. }
  destruct (gain_of_le ca holder (Asset.is_divisible (currency d) (world c)) benefit Hbm) as [Eg Hg].
  rewrite Eg in Hpay, Hg. destruct (co_actions _ _ (ch_corporate _ Hok) id ca Hca) as [_ Has Hax _].
  apply (pay_system (promises c) (λ k, promises c k -
    leg_units (Fungible (dist_from d) (dist_from d) (currency d) benefit) k)) in Hpay
    as (_ & _ & _ & _ & _ & Hk & w1 & EA & EB & Hmv); [|apply Hok|done|].
  - cbv zeta. split_and!; try done.
    + intros ex E. unfold dist_expired in Hop. rewrite E in Hop. apply bool_decide_eq_false in Hop. lia.
    + by apply targets_spec.
    + intros tax. by apply tax_of_listed.
    + by apply tax_of_default.
    + intros p t. pose proof (mv_portfolio _ _ _ Hmv p t) as Hp. rewrite EB in Hp. simpl in Hp.
      rewrite !N.add_0_r in Hp. exact Hp.
    + rewrite Ex. apply lookup_insert_eq.
    + rewrite Ex. apply lookup_insert_eq.
  - intros k. assert (leg_units (Fungible (dist_from d) (dist_from d) (currency d) benefit) k ≤ promises c k).
    { etrans; [|apply N.le_add_l]. etrans; [|by apply (allotments_le _ id d)].
      rewrite (allotted_by_leg d k (dist_from d)).
      rewrite (leg_units_part _ _ _ (remaining d) benefit) by done. lia. }
    change (dist_from (d <| remaining := _ |>)) with (dist_from d).
    change (currency (d <| remaining := _ |>)) with (currency d). cbv beta. lia.
Qed.

(** C16: nobody is paid twice: once a benefit was paid to a holder, whatever calls
    follow, another payment of the distribution to the holder is refused. *)
Theorem holders_are_paid_once (actor actor' holder : IdentityId) (id : CAId) (c c' c'' : Chain)
    (H : transfer_benefit actor holder id c = (Ok tt, c')) (Hs : rtc chain_step c' c'') :
  transfer_benefit actor' holder id c'' = (Err (EDistribution HolderAlreadyPaid), c'').
Proof.
  apply transfer_benefit_inv in H as (d & ca & balance & w' & [_ _ _ _ _ _ _ _ _ _ _ _ Ex]).
  assert (HolderPaid (corporate c'') !! (id, holder) = Some true) as Hp.
  { apply (chain_steps_paid c'); [done|]. rewrite Ex. apply lookup_insert_eq. }
  unfold transfer_benefit, check, mbind, SE_bind, getd. by rewrite Hp.
Qed.

(** What a distribution still has to pay is locked in its portfolio. *)
Lemma remaining_locked c id d :
  chain_ok c → Distributions (corporate c) !! id = Some d →
  remaining d ≤ Portfolio.locked_assets (dist_from d) (currency d) (world c).
Proof.
  intros Hok Hd. set (k := (dist_from d, currency d, None) : UnitKey).
  pose proof (sys_locks _ (ch_system _ Hok) k) as Hl. unfold reserved in Hl.
  pose proof (allotments_le (corporate c) id d k Hd) as Ha.
  assert (allotted_by d k = remaining d) as E by (simpl; by rewrite decide_True).
  change (locked_units (portfolio (world c)) k) with
    (Portfolio.locked_assets (dist_from d) (currency d) (world c)) in Hl.
  unfold promises in Hl. lia.
Qed.

(** C17: what is not claimed comes back: from the expiry on, any agent of the asset
    with the custody of the portfolio can always reclaim, once (the comment of
    reclaim demands the creator of the distribution, which the code does not);
    exactly what remained is unlocked and nothing moves. *)
Theorem reclaiming_gives_back (o : Origin) (id : CAId) (data : PermissionedCallOriginData)
    (d : Distribution) (e : Moment) (c : Chain) (Hr : reachable c)
    (Ho : Agents.ensure_agent_asset_perms o (ca_ticker id) (world c) = Ok data)
    (Hd : Distributions (corporate c) !! id = Some d) (Hre : reclaimed d = false)
    (He : expires_at d = Some e) (Hn : e ≤ now (world c))
    (Hp : Portfolio.ensure_portfolio_custody_and_permission (dist_from d) (primary_did data)
            (secondary_key data) (world c) = Ok tt) :
  ∃ c', reclaim o id c = (Ok tt, c') ∧
    Distributions (corporate c') !! id = Some (d <| reclaimed := true |> <| remaining := 0 |>) ∧
    (∀ k, locked_units (portfolio (world c')) k + allotted_by d k =
          locked_units (portfolio (world c)) k) ∧
    balances_same (world c) (world c') ∧
    reclaim o id c' = (Err (EDistribution AlreadyReclaimed), c').
Proof.
  apply reachable_ok in Hr as [Hok _]. pose proof (remaining_locked c id d Hok Hd) as Hl.
  assert (dist_expired (expires_at d) (now (world c)) = true) as Hex.
  { unfold dist_expired. rewrite He. by apply bool_decide_eq_true. }
  assert (∃ c', reclaim o id c = (Ok tt, c') ∧
    Agents.ensure_agent_asset_perms o (ca_ticker id) (world c') = Ok data) as (c' & H & Ho').
  { eexists. unfold reclaim, ensure_distribution_exists, unlock, lift, check, on_corporate, modify,
      mbind, SE_bind. rewrite Ho. simpl. rewrite Hd. simpl. rewrite Hre, Hex. simpl. rewrite Hp.
    rewrite Portfolio.unlock_tokens_run by done. simpl. split; [reflexivity|exact Ho]. }
  exists c'. split; [done|]. apply reclaim_inv in H as (d' & w' & ev & -> & Hd' & _ & _ & Hu).
  rewrite Hd in Hd'. injection Hd' as <-.
  unfold unlock in Hu. destruct (unlock_promised (promises c) (λ k, promises c k - allotted_by d k)
    _ _ _ _ _ (ch_system _ Hok) Hu) as (_ & _ & Hlo & _ & _ & Hk).
  2:{ split_and!; [apply lookup_insert_eq| |by apply (locks_only_balances _ w')|].
    + intros k. rewrite (allotted_by_leg d k (dist_from d)). exact (Hk k).
    + unfold reclaim, ensure_distribution_exists, lift, check, mbind, SE_bind. rewrite Ho'. simpl.
      by rewrite lookup_insert_eq. }
  intros k. rewrite <- (allotted_by_leg d k (dist_from d)).
  pose proof (allotments_le (corporate c) id d k Hd). unfold promises. lia.
Qed.

(* ------------------------------------------------------------------ *)
(** ** Ballots *)

(** C18: the tally adds up: the votes of every voter and the results of a ballot
    have one entry for each choice of its motions, and a result is the sum of the
    powers that the voters last gave to the choice, in a 128-bit word. *)
Theorem ballots_add_up (c : Chain) (Hr : reachable c) (id : CAId) (range : BallotTimeRange)
    (Hb : TimeRanges (corporate c) !! id = Some range) :
  ∃ meta, Metas (corporate c) !! id = Some meta ∧
    let counts := (λ m, Base.len (choices m)) <$> motions meta in
    MotionNumChoices (corporate c) !! id = Some counts ∧
    (∀ h votes, Votes (corporate c) !! (id, h) = Some votes →
       Base.len votes = Fundraising.sum counts) ∧
    match Results (corporate c) !! id with
    | Some results =>
        Base.len results = Fundraising.sum counts ∧
        ∀ i x, results !! i = Some x → x = given (corporate c) id i mod 2 ^ 128
    | None => ∀ h, Votes (corporate c) !! (id, h) = None
    end.
Proof.
  apply reachable_ok in Hr as [Hok _]. pose proof (ch_corporate _ Hok) as Hx.
  destruct (co_ballots _ _ Hx id range Hb) as [_ _ (meta & counts & Hm & Hde & Hc)].
  apply derive_Ok in Hde as [-> Hsum]. specialize (Hsum (N.le_0_l _)). rewrite N.add_0_l in Hsum.
  exists meta. split; [done|]. cbv zeta. split; [done|].
  assert (∀ k, voting (now (world c)) (corporate c) id k →
    N.of_nat k = Fundraising.sum ((λ m, Base.len (choices m)) <$> motions meta)) as Hk.
  { intros k (? & ? & _ & _ & Hc' & ->). rewrite Hc in Hc'. injection Hc' as <-.
    by apply total_choices_eq. }
  split; [intros h votes Hv; by apply Hk, (vo_votes _ _ (co_votes _ _ Hx) id h votes)|].
  destruct (Results (corporate c) !! id) as [r|] eqn:Hres.
  - destruct (vo_results _ _ (co_votes _ _ Hx) id r Hres) as [Hv Hg]. split; [by apply Hk|exact Hg].
  - intros h. by apply (vo_none _ _ (co_votes _ _ Hx)).
Qed.

Lemma split_motions_len counts votes :
  Base.len votes = Fundraising.sum counts → Base.len <$> split_motions counts votes = counts.
Proof.
  unfold Base.len. revert votes. induction counts as [|n counts IH]; intros votes H; simpl in *; [done|].
  rewrite length_take. f_equal; [lia|]. apply IH. rewrite length_drop. lia.
Qed.

Lemma fallbacks_Ok votes i v f :
  ensure_fallbacks votes = Ok tt → votes !! i = Some v → fallback v = Some f →
  f ≠ N.of_nat i ∧ f < Base.len votes.
Proof.
  intros H Hi Hf. unfold ensure_fallbacks in H. rewrite for_check_Ok in H.
  specialize (H (N.of_nat i, Some f)). simpl in H.
  assert ((N.of_nat i, Some f) ∈ imap (λ i v, (N.of_nat i, fallback v)) votes) as Hin.
  { apply list_elem_of_lookup. exists i. rewrite list_lookup_imap, Hi. simpl. by rewrite Hf. }
  apply H in Hin. ok_inv. split; [congruence|done].
Qed.

(** C19: a voter cannot give more than was held: a vote counts only while the ballot
    is open and from an identity that the action targets; there is one vote for
    each choice, and in each motion the powers add up to no more than the holding
    at the record date; a fallback names another choice of the same motion, and
    only a ranked ballot has fallbacks; the votes replace the voter's earlier ones
    and nothing else in the books changes. *)
Theorem votes_are_within_power (o : Origin) (id : CAId) (votes : list BallotVote) (c c' : Chain)
    (Hr : reachable c) (H : vote o id votes c = (Ok tt, c')) :
  ∃ voter ca range meta balance,
    let counts := (λ m, Base.len (choices m)) <$> motions meta in
    Identity.ensure_perms o (world c) = Ok voter ∧
    TimeRanges (corporate c) !! id = Some range ∧ Metas (corporate c) !! id = Some meta ∧
    range_start range ≤ now (world c) ≤ range_end range ∧
    CorporateActions (corporate c) !! id = Some ca ∧
    match treatment (ca_targets ca) with
    | Include => voter ∈ identities (ca_targets ca)
    | Exclude => voter ∉ identities (ca_targets ca)
    end ∧
    record_balance ca id voter (world c) = Some balance ∧
    concat (split_motions counts votes) = votes ∧
    Base.len <$> split_motions counts votes = counts ∧
    (∀ motion, motion ∈ split_motions counts votes →
       Fundraising.sum (power <$> motion) ≤ balance ∧
       ∀ i v f, motion !! i = Some v → fallback v = Some f →
         getd false (RCV (corporate c)) id = true ∧ f ≠ N.of_nat i ∧ f < Base.len motion) ∧
    Votes (corporate c') = <[(id, voter) := votes]> (Votes (corporate c)) ∧
    balances_same (world c) (world c').
Proof.
  apply reachable_ok in Hr as [Hok _]. pose proof (ch_corporate _ Hok) as Hx.
  apply vote_inv in H as (voter & ca & range & balance & e & -> & Hp & Hb & Hs & He & Hca & Ht & Hl &
    Hbal & Hw & Hf).
  destruct (co_ballots _ _ Hx id range Hb) as [_ _ (meta & counts & Hm & Hde & Hc)].
  apply derive_Ok in Hde as [-> Hsum]. specialize (Hsum (N.le_0_l _)). rewrite N.add_0_l in Hsum.
  destruct (co_actions _ _ Hx id ca Hca) as [_ Has _ _].
  assert (getd [] (MotionNumChoices (corporate c)) id = (λ m, Base.len (choices m)) <$> motions meta) as E
    by (unfold getd; by rewrite Hc).
  rewrite E in Hl, Hw, Hf. rewrite total_choices_eq in Hl by done.
  exists voter, ca, range, meta, balance. cbv zeta. split_and!; try done.
  - by apply targets_spec.
  - by apply split_motions_concat.
  - by apply split_motions_len.
  - intros motion Hin. split.
    + rewrite forallb_forall in Hw. apply within_power_Ok, Hw. by apply list_elem_of_In.
    + intros i v f Hi Hv. destruct (getd false (RCV (corporate c)) id).
      * apply (proj1 (for_check_Ok _ _ _) Hf) in Hin. split; [done|]. by apply (fallbacks_Ok motion i v f).
      * exfalso. rewrite forallb_forall in Hf. assert (v ∈ votes) as Hvo.
        { rewrite <- (split_motions_concat _ votes Hl). apply list_elem_of_In, in_concat. exists motion.
          split; apply list_elem_of_In; [done|by eapply list_elem_of_lookup_2]. }
        apply list_elem_of_In, Hf, bool_decide_eq_true in Hvo. congruence.
Qed.

(* ------------------------------------------------------------------ *)
(** ** Record dates *)

(** C20: the schedule behind a record date stays: while an action counts the
    holdings at a checkpoint of a schedule, the schedule cannot be removed. *)
Theorem schedules_in_use_stay (c : Chain) (Hr : reachable c) (id : CAId) (ca : CorporateAction)
    (sid : ScheduleId) (Hca : CorporateActions (corporate c) !! id = Some ca)
    (Hs : rd_schedule (record_date ca) = Some sid) (o : Origin) :
  ∃ e, Checkpoint.remove_schedule_call o (ca_ticker id) sid (world c) = (Err e, world c).
Proof.
  apply reachable_ok in Hr as [Hok _].
  pose proof (co_references _ _ (ch_corporate _ Hok) (ca_ticker id) sid) as Hf.
  assert (refers (ca_ticker id) sid id ca ≤ references (corporate c) (ca_ticker id) sid) as Hle
    by (by apply (msum_lookup_le _ _ id)).
  unfold refers in Hle. rewrite decide_True in Hle by done. unfold schedule_refs in Hf.
  unfold Checkpoint.remove_schedule_call, Checkpoint.base_remove_schedule, check, mbind, SE_bind.
  destruct (Agents.ensure_perms _ _ _) as [agent|er]; [|by exists er].
  destruct (ScheduledCheckpoints _ !! _) as [sched|]; simpl; [|by eexists].
  rewrite bool_decide_eq_false_2 by lia. by eexists.
Qed.

End properties.

(* ------------------------------------------------------------------ *)
(** ** The properties on the sample chain *)

Import Sample.
#[local] Existing Instances sample_runtime sample_externals sample_settlement sample_corporate.

(** Runs calls of these pallets; every one has to succeed. *)
Fixpoint corporate_run (cs : list (Origin * CorporateCalls.call)) (c : Chain) : option Chain :=
  match cs with
  | [] => Some c
  | (o, call) :: cs =>
      match CorporateCalls.dispatch o call c with
      | (Ok _, c') => if fits (world c') then corporate_run cs c' else None
      | (Err _, _) => None
      end
  end.

Lemma corporate_run_steps cs c c' : corporate_run cs c = Some c' → rtc chain_step c c'.
Proof.
  revert c. induction cs as [|[o call] cs IH]; intros c; simpl; [by intros [= <-]|].
  destruct (CorporateCalls.dispatch o call c) as [[[]|] c1] eqn:Hd; [|done].
  destruct (fits (world c1)) eqn:Hf; [|done]. intros Hr.
  eapply rtc_l; [|by apply IH]. by apply (chain_corporate o call); [|apply fits_sound].
Qed.

(** A chain on which the calls succeeded. *)
Definition corporate_after (ws : list (Origin * System.call))
    (cs : list (Origin * CorporateCalls.call)) : Chain :=
  default (chain_after ws) (corporate_run cs (chain_after ws)).

Lemma corporate_reachable ws cs : runs ws = true → reachable (corporate_after ws cs).
Proof.
  intros H%after_reachable. unfold corporate_after.
  destruct (corporate_run cs (chain_after ws)) as [c|] eqn:E; [|done].
  by eapply reachable_step, corporate_run_steps.
Qed.

(** Identity 1 holds 900 of its asset and identity 2 holds 100 at the second
    checkpoint; identity 1 has dollars to distribute. *)
Definition held : list (Origin * System.call) :=
  settled ++
  [(Signed 1, CallAsset (Asset.CreateAsset usd usd true StableCoin [] None));
   (Signed 1, CallAsset (Asset.Issue usd 5000 Default));
   (Signed 1, CallCheckpoint (Checkpoint.CreateCheckpoint acme));
   (Root, CallCheckpoint (Checkpoint.SetSchedulesMaxComplexity 10))].

Definition dividend : CAId := mkCAId acme 0.
Definition notice : CAId := mkCAId acme 1.
Definition planned : CAId := mkCAId acme 2.
Definition two_motions : BallotMeta :=
  mkBallotMeta [1] [mkMotion [2] [] [[3]; [4]]; mkMotion [5] [] [[6]]].

(** A dividend of two dollars a share until time 5, with a quarter of identity 2's
    part withheld; a ranked ballot of two motions, on which identity 1 has voted;
    and an action whose record date is planned. *)
Definition announcements : list (Origin * CorporateCalls.call) :=
  [(Root, SetMaxDetailsLength 10);
   (Signed 1, InitiateCorporateAction acme UnpredictableBenefit 0 (Some (SpecExisting 2)) [1] None
                (Some 100000) (Some [(2, 250000)]));
   (Signed 1, Distribute dividend None usd 2000000 2000 1 (Some 5));
   (Signed 1, InitiateCorporateAction acme IssuerNotice 0 (Some (SpecExisting 2)) [2] None None None);
   (Signed 1, AttachBallot notice (mkBallotTimeRange 1 10) two_motions true);
   (Signed 1, Vote notice [mkBallotVote 600 (Some 1); mkBallotVote 300 None; mkBallotVote 900 None]);
   (Signed 1, InitiateCorporateAction acme CAOther 0 (Some (SpecScheduled 7)) [3] None None None)].
Definition announced : Chain := corporate_after held announcements.

Lemma announced_reachable : reachable announced.
Proof. apply corporate_reachable. by vm_compute. Qed.

Definition claimed : Chain := (transfer_benefit 2 2 dividend announced).2.

Lemma claiming_pays_witness :
  ∃ d ca, Distributions (corporate announced) !! dividend = Some d ∧
    CorporateActions (corporate announced) !! dividend = Some ca ∧
    record_balance ca dividend 2 (world announced) = Some 100 ∧ tax_of ca 2 = 250000 ∧
    Portfolio.portfolio_asset_balances (pf 2) usd (world claimed) = 150 ∧
    Distributions (corporate claimed) !! dividend = Some (d <| remaining := 1800 |>).
Proof.
  destruct (claiming_pays 2 2 dividend announced claimed)
    as (d & ca & balance & Hd & Hca & _ & _ & _ & Hb & Ht & _ & _ & _ & Hm & _ & Hd' & _).
  - exact announced_reachable.
  - refine (run_call (transfer_benefit 2 2 dividend) announced tt _). by vm_compute.
  - apply fits_sound. by vm_compute.
  - exists d, ca. specialize (Hm (pf 2) usd). specialize (Ht 250000).
    assert (Distributions (corporate announced) !! dividend =
      Some (mkDistribution (pf 1) usd 2000000 2000 2000 false 1 (Some 5))) as Ed by (by vm_compute).
    assert (CorporateActions (corporate announced) !! dividend =
      Some (mkCorporateAction UnpredictableBenefit 0 (Some (mkRecordDate 1 (CAExisting 2)))
        TargetIdentities_default 100000 [(2, 250000)])) as Eca by (by vm_compute).
    rewrite Ed in Hd. rewrite Eca in Hca. injection Hd as <-. injection Hca as <-.
    assert (record_balance (mkCorporateAction UnpredictableBenefit 0 (Some (mkRecordDate 1 (CAExisting 2)))
        TargetIdentities_default 100000 [(2, 250000)]) dividend 2 (world announced) = Some 100)
      as Eb by (by vm_compute).
    rewrite Eb in Hb. injection Hb as <-.
    assert (Asset.is_divisible usd (world announced) = true) as Ediv by (by vm_compute).
    assert (Portfolio.portfolio_asset_balances (pf 2) usd (world announced) = 0) as E0 by (by vm_compute).
    cbn [currency dist_from per_share] in Hm. rewrite Ediv, E0 in Hm.
    split_and!; [done|done|exact Eb|apply Ht; left| |exact Hd'].
    revert Hm. generalize (Portfolio.portfolio_asset_balances (pf 2) usd (world claimed)).
    intros n Hm. vm_compute in Hm. by destruct n.
Defined.

Lemma holders_are_paid_once_witness :
  transfer_benefit 1 2 dividend claimed = (Err (EDistribution HolderAlreadyPaid), claimed).
Proof.
  apply (holders_are_paid_once 2 1 2 dividend announced claimed claimed).
  - refine (run_call (transfer_benefit 2 2 dividend) announced tt _). by vm_compute.
  - apply rtc_refl.
Defined.

(** Time passes. *)
Definition at_time (n : Moment) (c : Chain) : Chain :=
  let w := world c in
  mkChain (w <| block_number := block_number w |> <| now := n |> <| events := events w |>
             <| meter := meter w |> <| agenda := agenda w |> <| identity := identity w |>
             <| rest := rest w |>) (sto c) (corporate c).

Lemma at_time_step n c : now (world c) ≤ n → chain_step c (at_time n c).
Proof. intros H. destruct c. by apply chain_world, step_surroundings. Qed.

(** Nobody has claimed when the dividend expires. *)
Definition unclaimed : Chain := at_time 5 announced.
Lemma reclaiming_gives_back_witness :
  ∃ c', reclaim (Signed 1) dividend unclaimed = (Ok tt, c') ∧
    ∀ k, locked_units (portfolio (world c')) k +
      allotted_by (mkDistribution (pf 1) usd 2000000 2000 2000 false 1 (Some 5)) k =
      locked_units (portfolio (world unclaimed)) k.
Proof.
  destruct (reclaiming_gives_back (Signed 1) dividend (mkPermissionedCallOriginData 1 1 None)
    (mkDistribution (pf 1) usd 2000000 2000 2000 false 1 (Some 5)) 5 unclaimed) as (c' & H & _ & Hk & _).
  - eapply reachable_step; [exact announced_reachable|]. apply rtc_once, at_time_step. by vm_compute.
  - by vm_compute.
  - by vm_compute.
  - reflexivity.
  - reflexivity.
  - by vm_compute.
  - by vm_compute.
  - exact (ex_intro _ c' (conj H Hk)).
Defined.

Lemma ballots_add_up_witness :
  ∃ meta, Metas (corporate announced) !! notice = Some meta ∧
    MotionNumChoices (corporate announced) !! notice =
      Some ((λ m, Base.len (choices m)) <$> motions meta).
Proof.
  destruct (ballots_add_up announced announced_reachable notice (mkBallotTimeRange 1 10))
    as (meta & Hm & Hc & _).
  - by vm_compute.
  - exact (ex_intro _ meta (conj Hm Hc)).
Defined.

(** Identity 2 votes with what it held. *)
Definition second_vote : list BallotVote :=
  [mkBallotVote 0 None; mkBallotVote 100 (Some 0); mkBallotVote 100 None].
Lemma votes_are_within_power_witness :
  ∃ voter, Identity.ensure_perms (Signed 2) (world announced) = Ok voter ∧
    Votes (corporate (vote (Signed 2) notice second_vote announced).2) =
      <[(notice, voter) := second_vote]> (Votes (corporate announced)).
Proof.
  destruct (votes_are_within_power (Signed 2) notice second_vote announced
    (vote (Signed 2) notice second_vote announced).2 announced_reachable)
    as (voter & ca & range & meta & balance & Hp & _ & _ & _ & _ & _ & _ & _ & _ & _ & Hv & _).
  - refine (run_call (vote (Signed 2) notice second_vote) announced tt _). by vm_compute.
  - exact (ex_intro _ voter (conj Hp Hv)).
Defined.

Lemma schedules_in_use_stay_witness :
  ∃ e, Checkpoint.remove_schedule_call (Signed 1) acme 1 (world announced) = (Err e, world announced).
Proof.
  refine (schedules_in_use_stay announced announced_reachable planned
    (mkCorporateAction CAOther 0 (Some (mkRecordDate 7 (CAScheduled 1 0))) TargetIdentities_default 0 [])
    1 _ _ (Signed 1)).
  - by vm_compute.
  - by vm_compute.
Defined.

(** The votes of the two holders are added up, a vote that is cast again counts
    once, and a vote with more than the holding is refused. *)
Example votes_are_counted :
  let again := (vote (Signed 2) notice second_vote announced).2 in
  Results (corporate again) !! notice = Some [600; 400; 1000] ∧
  Results (corporate (vote (Signed 2) notice second_vote again).2) !! notice = Some [600; 400; 1000] ∧
  (vote (Signed 2) notice [mkBallotVote 1 None; mkBallotVote 100 None; mkBallotVote 0 None]
     announced).1 = Err (EBallot InsufficientVotes).
Proof. by vm_compute. Qed.
End CorporateProperties.
