(* ===== verification/PipsProperties.v ===== *)
(** What is proved of the improvement proposals, over every state that can be
    reached by their calls while everything around them changes. *)

From stdpp Require Import base numbers list gmap sets strings sorting relations.
From S2P Require Import Prelude Subset Types ClaimTypes SettlementTypes Schedules PipsTypes State.
From S2P Require Import Identity Claims Sorting Committee Locks PipsQueue Pips SettlementInv PipsInv.
From S2P Require Import PipsSteps PipsCalls Sample RuleSample.

Local Open Scope N_scope.

Module PipsProperties.
Import Sorting PipsQueue Pips PipsInv PipsSteps PipsCalls.

(** What an account has locked for its signals. *)
Notation pips_lock := (Locks.locked_under PIPS_LOCK_ID) (only parsing).

(** The storage of a chain without proposals, with the values of its genesis. *)
Definition new_pips (prune : bool) (min_deposit : Balance) (period : BlockNumber) (expiry : MaybeBlock)
    (max_skips : SkippedCount) (limit : N) : PipsStore :=
  mkPipsStore prune min_deposit period expiry max_skips limit 0 0 0 ∅ ∅ ∅ ∅ ∅ ∅ [] [] None ∅ [] ∅.

Definition fresh (g : Gov) : Prop :=
  (∃ prune d p e k l, pips g = new_pips prune d p e k l) ∧
  Locks.locks_ok (balances g) ∧ ∀ who, pips_lock who (balances g) = 0.

Section properties.
Context {RT : Runtime} {FE : Fees} {PC : PipsConfig}.

(** A call, whether it succeeds or not; or the other pallets and the scheduler
    change their parts of the state, and locks under other names. *)
Inductive pips_step : Gov → Gov → Prop :=
  | pips_call depth o c g r g' : dispatch depth o c g = (r, g') → pips_step g g'
  | pips_around g w t b :
      Locks.locks_ok b → (∀ who, pips_lock who b = pips_lock who (balances g)) →
      pips_step g (mkGov w (pips g) b t).

Definition reachable (g : Gov) : Prop := ∃ g0, fresh g0 ∧ rtc pips_step g0 g.

Lemma fresh_ok g : fresh g → gov_ok g.
Proof.
  intros ((prune & d & p & e & k & l & E) & Hb & Hl). split; rewrite E; [|done].
  constructor; simpl; try done; try (by constructor).
  - intros id. by rewrite !lookup_empty.
  - intros e'. split; [by intros ?%elem_of_nil|]. intros [[H _] _]. simpl in H. by rewrite lookup_empty in H.
  - intros e' H. by apply elem_of_nil in H.
  - intros id. split; [by intros ?%elem_of_nil|]. intros [[? H] _]. by rewrite lookup_empty in H.
  - intros id [? H]. by rewrite lookup_empty in H.
Qed.

Lemma pips_step_ok g g' : pips_step g g' → gov_ok g → gov_ok g' ∧ advances (pips g) (pips g').
Proof.
  intros Hs Hok. destruct Hs as [depth o c g r g' H|g w t b Hb Hl].
  - destruct r as [[]|e]; [|by apply dispatch_rolls in H as ->].
    by apply pips_dispatch_keeps in H as (? & ? & _).
  - destruct Hok as [Hok Hm]. split; [|done]. split; [|done]. by apply (pips_ok_balances _ _ _ (balances g)).
Qed.

Lemma pips_steps_ok g g' : rtc pips_step g g' → gov_ok g → gov_ok g' ∧ advances (pips g) (pips g').
Proof.
  induction 1 as [|g g1 g' Hs _ IH]; intros Hok; [done|].
  destruct (pips_step_ok g g1 Hs Hok) as [Hok1 Ha]. destruct (IH Hok1) as [Hok' Ha'].
  split; [done|]. by etrans.
Qed.

Lemma pips_reachable_ok g : reachable g → gov_ok g.
Proof. intros (g0 & Hf & Hs). by apply (pips_steps_ok g0 g Hs), fresh_ok. Qed.

(* ------------------------------------------------------------------ *)
(** ** The invariants *)

Lemma msum_count {K V} `{Countable K} (p : V → bool) (m : gmap K V) :
  msum (λ _ v, if p v then 1 else 0) m = N.of_nat (size (filter (λ kv, p kv.2 = true) m)).
Proof.
  induction m as [|k v m Hk IH] using map_ind; [done|]. rewrite msum_insert_fresh, IH by done.
  destruct (p v) eqn:Hp.
  - rewrite map_filter_insert_True, map_size_insert_None; [lia| |done].
    apply map_lookup_filter_None. by left.
  - rewrite map_filter_insert_False, delete_id by (simpl; congruence). lia.
Qed.

(** C21: The proposals stay consistent: the count of active proposals is the number of
    those that are pending or scheduled; the counters of a proposal are the sums
    of the votes on it, and fit their types; exactly the proposals that exist have
    a state, and their ids have been handed out; a snapshot names different
    pending proposals of the community; the list of the committees' proposals is
    complete. *)
Theorem pips_stay_consistent g :
  reachable g →
  let s := pips g in
  ActivePipCount s = N.of_nat (size (filter (λ kv, is_active kv.2 = true) (ProposalStates s))) ∧
  (∀ id, proposal_result s id = tally_of (ProposalVotes s) id ∧ result_fits (proposal_result s id)) ∧
  (∀ id, is_Some (Proposals s !! id) ↔ is_Some (ProposalStates s !! id)) ∧
  (∀ id p, Proposals s !! id = Some p → pip_id p = id ∧ id < PipIdSequence s) ∧
  NoDup (spip_id <$> SnapshotQueue s) ∧ (∀ e, e ∈ SnapshotQueue s → queued s (spip_id e)) ∧
  NoDup (CommitteePips s) ∧
  (∀ id, id ∈ CommitteePips s ↔ is_Some (Proposals s !! id) ∧ is_community s id = false).
Proof.
  intros [[] _]%pips_reachable_ok s. split_and!; try done.
  - unfold s. by rewrite po_active0, msum_count.
  - intros e He. by apply po_snapshot0.
Qed.

(** The pending proposals of the community, sorted by their votes from scratch. *)
Definition no_later (a b : SnapshottedPip) : Prop := compare_spip a b ≠ Gt.
#[global] Instance no_later_dec : RelDecision no_later.
Proof. intros a b. unfold no_later. apply _. Defined.
Definition pending_ids (s : PipsStore) : list PipId :=
  fst <$> filter (λ kv, kv.2 = PipPending ∧ is_community s kv.1 = true) (map_to_list (ProposalStates s)).
Definition sorted_queue (s : PipsStore) : list SnapshottedPip :=
  merge_sort no_later ((λ id, aggregate_result id s) <$> pending_ids s).

Lemma elem_of_pending_ids s id : id ∈ pending_ids s ↔ queued s id.
Proof.
  unfold pending_ids, queued. rewrite list_elem_of_fmap. split.
  - intros ([i st] & -> & [[E Hc] Hin%elem_of_map_to_list]%list_elem_of_filter). simpl in *. by subst.
  - intros [Hst Hc]. exists (id, PipPending). split; [done|]. apply list_elem_of_filter.
    split; [done|]. by apply elem_of_map_to_list.
Qed.

Lemma pending_ids_NoDup s : NoDup (pending_ids s).
Proof.
  unfold pending_ids. eapply sublist_NoDup; [apply (NoDup_fst_map_to_list (ProposalStates s))|].
  apply fmap_sublist, sublist_filter.
Qed.

Lemma no_later_spec a b : no_later a b ↔ before a b ∨ a = b.
Proof.
  unfold no_later, before. rewrite <- compare_spip_Eq. destruct (compare_spip a b); naive_solver.
Qed.

(** C9: In every state that calls of the pallet and changes elsewhere can reach,
    the live queue is the list of the pending proposals of the community, each
    with its current result (the stakes for it less the stakes against it),
    sorted from scratch from the least result to the greatest, the newer of two
    with the same result first: the binary searches that maintain the queue never
    miss. *)
Theorem live_queue_is_sorted g : reachable g → LiveQueue (pips g) = sorted_queue (pips g).
Proof.
  intros [[] _]%pips_reachable_ok. unfold sorted_queue. set (s := pips g) in *.
  assert (Transitive no_later) as Htr.
  { intros x y z. rewrite !no_later_spec. intros [H1| ->] [H2| ->]; auto. left. by etrans. }
  apply (StronglySorted_unique_strong no_later).
  - intros x y _ _. rewrite !no_later_spec. intros [H1|?] [H2|?]; try done.
    destruct (irreflexivity before x). by etrans.
  - clear -po_sorted0. unfold sorted in po_sorted0. induction po_sorted0 as [|x q Hs IH Hx]; constructor; [done|].
    eapply Forall_impl; [exact Hx|]. intros y Hy. apply no_later_spec. by left.
  - apply Sorted_StronglySorted; [done|]. apply Sorted_merge_sort. intros x y. rewrite !no_later_spec.
    destruct (decide (x = y)) as [->|Hne]; [by left; right|]. destruct (before_total x y Hne); auto.
  - rewrite merge_sort_Permutation. apply NoDup_Permutation.
    + by apply sorted_NoDup.
    + apply NoDup_fmap_2_strong; [|apply pending_ids_NoDup]. intros i j _ _ E. by injection E.
    + intros e. rewrite po_live0, list_elem_of_fmap. split.
      * intros (Hq & _ & E). exists (spip_id e). split; [done|]. by apply elem_of_pending_ids.
      * intros (i & -> & Hi%elem_of_pending_ids). split_and!; [done|apply not_elem_of_nil|done].
Qed.

(** C10: What an account has locked is exactly what it signalled with on proposals that
    are still active; a deposit has an owner, a vote and an active proposal. *)
Theorem deposits_are_locked g who :
  reachable g →
  pips_lock who (balances g) = deposited (Deposits (pips g)) who ∧
  ∀ id, deposit_of (Deposits (pips g)) id who =
    match ProposalStates (pips g) !! id, ProposalVotes (pips g) !! (id, who) with
    | Some st, Some v => if is_active st then vote_stake v else 0
    | _, _ => 0
    end.
Proof.
  intros [[] _]%pips_reachable_ok. split; [done|]. intros id. unfold deposit_of.
  destruct (Deposits (pips g) !! (id, who)) as [d|] eqn:Hd; simpl.
  - destruct (po_deposits0 id who d Hd) as (_ & _ & (st & -> & ->) & v & -> & <-). done.
  - destruct (ProposalStates (pips g) !! id) as [st|] eqn:Hst; [|done].
    destruct (ProposalVotes (pips g) !! (id, who)) as [v|] eqn:Hv; [|done].
    destruct (is_active st) eqn:Ha; [|done]. destruct (po_stakes0 id who v st Hv Hst Ha) as [d Hd'].
    congruence.
Qed.

(** C24: The state of a proposal only moves forward: once scheduled it is not pending
    again and does not expire, once closed it stays as it is until its data is
    pruned, and an id is not used again. *)
Theorem proposals_move_forward g g' id :
  reachable g → rtc pips_step g g' → id < PipIdSequence (pips g) →
  moves (ProposalStates (pips g) !! id) (ProposalStates (pips g') !! id).
Proof. intros Hok%pips_reachable_ok Hs Hid. by apply (pips_steps_ok g g' Hs Hok). Qed.

(* ------------------------------------------------------------------ *)
(** ** What the calls do *)

(** C23: The governance committee can always reject an active proposal: the [unwrap] of
    the refund does not panic, every depositor gets back what was deposited for
    this proposal, and no other lock changes. *)
Theorem rejecting_refunds depth g id st :
  reachable g → ProposalStates (pips g) !! id = Some st → is_active st = true →
  ∃ g', dispatch (S depth) (Endorsed PolymeshCommittee) (RejectProposal id) g = (Ok tt, g') ∧
    ProposalStates (pips g') !! id = (if PruneHistoricalPips (pips g) then None else Some PipRejected) ∧
    ∀ l who, Locks.locked_under l who (balances g') +
        (if decide (l = PIPS_LOCK_ID) then deposit_of (Deposits (pips g)) id who else 0) =
      Locks.locked_under l who (balances g).
Proof.
  intros Hok%pips_reachable_ok Hst Hact. destruct (reject_run id st g Hok Hst Hact) as (g' & E & _ & [_ Hr] & Hst').
  exists g'. split_and!; [|done|done]. simpl. unfold with_transaction. by rewrite E.
Qed.

(** C22: Results that name the proposals at the end of the snapshot, in reverse, and skip
    only what may be skipped are enacted: what is approved is scheduled, what is
    rejected is closed and refunded, what is skipped stays pending with its count
    raised, every other proposal stays as it is, and the snapshot keeps the rest. *)
Theorem results_are_enacted depth g (rs : list (PipId * SnapshotResult)) rest top :
  reachable g → SnapshotQueue (pips g) = rest ++ top → spip_id <$> top = reverse rs.*1 →
  (∀ id, id ∈ asked Skip rs → getd 0 (PipSkipCount (pips g)) id < MaxPipSkipCount (pips g)) →
  ∃ g', dispatch (S depth) (Endorsed PolymeshCommittee) (EnactSnapshotResults rs) g = (Ok tt, g') ∧
    SnapshotQueue (pips g') = rest ∧
    (∀ i, ProposalStates (pips g') !! i =
       if decide (i ∈ asked Approve rs) then Some PipScheduled
       else if decide (i ∈ asked Reject rs)
            then (if PruneHistoricalPips (pips g) then None else Some PipRejected)
            else ProposalStates (pips g) !! i) ∧
    (∀ i, i ∈ asked Skip rs → ProposalStates (pips g') !! i = Some PipPending ∧
       getd 0 (PipSkipCount (pips g')) i = getd 0 (PipSkipCount (pips g)) i + 1) ∧
    ∀ who, pips_lock who (balances g') + refund_of (Deposits (pips g)) (asked Reject rs) who =
           pips_lock who (balances g).
Proof.
  intros Hok%pips_reachable_ok HQ Htop Hskip.
  destruct (read_results_run (pips g) rs (mkEnactment (SnapshotQueue (pips g)) [] [] []) rest top)
    as (e & He & Hrest); [done..|].
  destruct (results_pending g rs top rest Hok HQ Htop) as (Hnd & Hpend & _).
  destruct (enact_run rs e g Hok He) as (g' & E & _ & Hst & (top' & HQ' & Htop') & Hk & Hr).
  exists g'. split_and!.
  - simpl. unfold with_transaction. by rewrite E.
  - rewrite HQ in HQ'. assert (length top = length top') as Hl.
    { rewrite <- (length_fmap spip_id top), Htop, <- Htop'. apply length_fmap. }
    by apply app_inj_2 in HQ' as [-> _].
  - done.
  - intros i Hi. split; [|by apply Hk]. rewrite Hst.
    rewrite decide_False by (exact (asked_apart Skip Approve rs i Hnd ltac:(done) Hi)).
    rewrite decide_False by (exact (asked_apart Skip Reject rs i Hnd ltac:(done) Hi)).
    apply Hpend. by eapply asked_in.
  - done.
Qed.

(** A signal replaces the one the account gave before: the vote and the deposit are
    the new ones, the lock changes by the difference, and nothing else of the
    other accounts or proposals does. *)
Theorem signals_replace_each_other depth g g' o id aye deposit :
  reachable g → dispatch (S depth) o (Vote id aye deposit) g = (Ok tt, g') →
  queued (pips g) id ∧
  ∃ who, o = Signed who ∧
    ProposalVotes (pips g') = <[(id, who) := mkPipVote aye deposit]> (ProposalVotes (pips g)) ∧
    Deposits (pips g') = <[(id, who) := mkDepositInfo who deposit]> (Deposits (pips g)) ∧
    ProposalStates (pips g') = ProposalStates (pips g) ∧
    ∀ w, pips_lock w (balances g') + (if decide (w = who) then deposit_of (Deposits (pips g)) id who else 0) =
         pips_lock w (balances g) + (if decide (w = who) then deposit else 0).
Proof.
  intros Hok%pips_reachable_ok H. simpl in H. rewrite with_transaction_Ok in H.
  apply pip_vote_Ok in H as (_ & Hq & who & -> & (live & E) & Hl); [|done].
  split; [done|]. exists who. rewrite E. by split_and!.
Qed.

(** C25: Executing a scheduled proposal whose call is of another pallet: root
    executes it, and the call is dispatched as root, in a storage transaction of
    its own.  If the call succeeds, the state of the other pallets afterwards is
    the one it leaves; if it fails, nothing of it is left but the weight it
    consumed; in both cases only the three events that close the proposal are
    added.  The proposal is closed as executed or as failed accordingly (or its
    data is pruned), and the deposits for it are given back.  Calls of the
    utility pallet that dispatch calls of this pallet in turn are not covered. *)
Theorem execution_closes depth g g' o id pip :
  reachable g → Proposals (pips g) !! id = Some pip → own_call (pip_proposal pip) = None →
  dispatch (S depth) o (ExecuteScheduledPip id) g = (Ok tt, g') →
  o = Root ∧ ProposalStates (pips g) !! id = Some PipScheduled ∧
  ∃ res w1,
    perform Root (pip_proposal pip) (gov_world g) = (res, w1) ∧ res ≠ Err EPanic ∧
    let new := if is_ok res then PipExecuted else PipFailed in
    let w2 := if is_ok res then w1 else (gov_world g) <| meter := meter w1 |> in
    gov_world g' = w2 <| events ::= λ l, l ++ close_events id new (pips g) gc_did |> ∧
    ProposalStates (pips g') !! id = (if PruneHistoricalPips (pips g) then None else Some new) ∧
    tasks g' = tasks g ∧
    ∀ who, pips_lock who (balances g') + deposit_of (Deposits (pips g)) id who = pips_lock who (balances g).
Proof.
  intros Hok%pips_reachable_ok Hp Hown H. simpl in H. rewrite with_transaction_Ok in H.
  apply execute_Ok in H as (-> & _ & Hst & pip' & res & g1 & Hp' & Hd & Hnp & ES & [_ Hr] & EW & ET);
    [|intros; by eapply pips_dispatch_keeps|intros; by eapply dispatch_rolls|done].
  rewrite Hp in Hp'. injection Hp' as <-. unfold dispatch_proposal in Hd. rewrite Hown in Hd.
  pose proof Hd as (E1 & E2 & E3)%lift_frame. simpl in E1, E2, E3.
  destruct (perform Root (pip_proposal pip) (gov_world g)) as [res' w1] eqn:Hperf.
  assert (res = res' ∧ gov_world g1 = if is_ok res' then w1 else (gov_world g) <| meter := meter w1 |>) as [-> EW1].
  { unfold lift, with_storage_transaction in Hd. simpl in Hd. rewrite Hperf in Hd.
    destruct res'; by injection Hd as <- <-. }
  split; [done|]. split; [done|]. exists res', w1. split; [done|]. split; [done|].
  intros new w2. rewrite EW1, E1 in EW. split_and!.
  - exact EW.
  - rewrite ES, closed_states, decide_True by (by destruct (is_ok res')). rewrite E1. simpl. by rewrite Hst.
  - by rewrite ET, E3.
  - intros who. specialize (Hr PIPS_LOCK_ID who). rewrite decide_True, E1, E2 in Hr by done. exact Hr.
Qed.

(** A proposal whose call is the execution of the proposal itself never comes back:
    the state is still scheduled when it is dispatched again, so that every room on
    the stack is used up. *)
Theorem self_execution_never_returns depth g id pip :
  Proposals (pips g) !! id = Some pip → ProposalStates (pips g) !! id = Some PipScheduled →
  own_call (pip_proposal pip) = Some (ExecuteScheduledPip id) →
  dispatch depth Root (ExecuteScheduledPip id) g = (Err EPanic, g).
Proof.
  revert g. induction depth as [|depth IH]; intros g Hp Hst Hown; [done|].
  set (g0 := g <| pips ::= λ s, s <| PipToSchedule ::= delete id |> |>).
  assert (handle (dispatch depth) Root (ExecuteScheduledPip id) g = (Err EPanic, g0)) as E.
  { simpl. unfold execute_scheduled_pip, execute_proposal, dispatch_proposal, on_pips, catch, check, modify,
      throw, mbind, SE_bind. simpl. rewrite Hp. simpl. rewrite Hst. simpl. rewrite Hown.
    fold g0. by rewrite (IH g0). }
  change (dispatch (S depth)) with (λ o c, with_transaction (handle (dispatch depth) o c)).
  cbv beta. unfold with_transaction. by rewrite E.
Qed.
End properties.

(* ------------------------------------------------------------------ *)
(** ** A concrete chain *)

(** The accounts have 1000 each; call 13 of another pallet fails, and call 99
    executes the second proposal. *)
Definition sample_pips : PipsConfig := {|
  transaction_version := 1;
  encode := λ p, [p];
  blake2_256 := λ bytes, N.of_nat (length bytes);
  free_balance := λ _ _, 1000;
  schedule_named := λ t b m, if has_key m t then None else Some (<[t := b]> m);
  reschedule_named := λ t b m, if has_key m t then Some (<[t := b]> m) else None;
  cancel_named := λ t m, if has_key m t then Some (delete t m) else None;
  own_call := λ p, if bool_decide (p = 99) then Some (ExecuteScheduledPip 1) else None;
  perform := λ _ p, if bool_decide (p = 13) then throw BadOrigin else mret tt;
|}.
#[local] Existing Instances sample_runtime sample_fees sample_pips.

Definition sample_gov : Gov :=
  mkGov (sample_world <| rest ::= λ r, r <| committees := {[PolymeshCommittee :=
           empty_committee <| Members := [1] |>]} |> |>)
    (new_pips false 10 5 None 2 10) (mkBalancesStore ∅ ∅ ∅) ∅.

Fixpoint pips_run (cs : list (Origin * call)) (g : Gov) : option Gov :=
  match cs with
  | [] => Some g
  | (o, c) :: cs =>
      match dispatch 5 o c g with
      | (Ok _, g') => pips_run cs g'
      | (Err _, _) => None
      end
  end.
Definition pips_runs (cs : list (Origin * call)) : bool := if pips_run cs sample_gov then true else false.
Definition pips_after (cs : list (Origin * call)) : Gov := default sample_gov (pips_run cs sample_gov).

Lemma sample_fresh : fresh sample_gov.
Proof. split_and!; [by eexists _, _, _, _, _, _|..]; intros who; [apply NoDup_nil_2|done]. Qed.

Lemma pips_run_steps cs g g' : pips_run cs g = Some g' → rtc pips_step g g'.
Proof.
  revert g. induction cs as [|[o c] cs IH]; intros g; cbn [pips_run]; [by intros [= <-]|].
  destruct (dispatch 5 o c g) as [[u|e] g1] eqn:Hd; [|done]. intros Hr.
  eapply rtc_l; [by eapply (pips_call 5 o c)|by apply IH].
Qed.

Lemma sample_reachable cs : pips_runs cs = true → reachable (pips_after cs).
Proof.
  unfold pips_runs, pips_after. intros H. exists sample_gov. split; [exact sample_fresh|].
  destruct (pips_run cs sample_gov) as [g|] eqn:E; [|done]. by apply (pips_run_steps cs).
Qed.

(** Three proposals of the community, a signal against the first, a snapshot; then
    the second is approved, the third rejected and the first skipped. *)
Definition proposed : list (Origin * call) :=
  [(Signed 1, Propose 5 100 None None); (Signed 2, Propose 13 200 None None);
   (Signed 3, Propose 7 50 None None); (Signed 2, Vote 0 false 300); (Signed 1, Snapshot)].
Definition sample_results : list (PipId * SnapshotResult) := [(1, Approve); (2, Reject); (0, Skip)].
Definition enacted : list (Origin * call) :=
  proposed ++ [(Endorsed PolymeshCommittee, EnactSnapshotResults sample_results)].
Definition executed : list (Origin * call) := enacted ++ [(Root, ExecuteScheduledPip 1)].

Lemma proposed_reachable : reachable (pips_after proposed).
Proof. apply sample_reachable. by vm_compute. Qed.
Lemma enacted_reachable : reachable (pips_after enacted).
Proof. apply sample_reachable. by vm_compute. Qed.

Lemma pips_stay_consistent_witness : ActivePipCount (pips (pips_after proposed)) = 3.
Proof.
  destruct (pips_stay_consistent (pips_after proposed) proposed_reachable) as [E _]. rewrite E.
  by vm_compute.
Defined.

Lemma live_queue_is_sorted_witness :
  sorted_queue (pips (pips_after proposed)) =
  [mkSnapshottedPip 0 (false, 200); mkSnapshottedPip 2 (true, 50); mkSnapshottedPip 1 (true, 200)].
Proof.
  rewrite <- (live_queue_is_sorted (pips_after proposed) proposed_reachable). by vm_compute.
Defined.

Lemma deposits_are_locked_witness :
  pips_lock 2 (balances (pips_after proposed)) = 500 ∧
  deposit_of (Deposits (pips (pips_after proposed))) 0 2 = 300.
Proof.
  destruct (deposits_are_locked (pips_after proposed) 2 proposed_reachable) as [E1 E2].
  rewrite E1, (E2 0). split; by vm_compute.
Defined.

Lemma proposals_move_forward_witness :
  moves (ProposalStates (pips (pips_after enacted)) !! 1) (ProposalStates (pips (pips_after executed)) !! 1).
Proof.
  apply (proposals_move_forward (pips_after enacted) (pips_after executed) 1 enacted_reachable).
  - apply (pips_run_steps [(Root, ExecuteScheduledPip 1)]). by vm_compute.
  - by vm_compute.
Defined.

Lemma rejecting_refunds_witness :
  ∃ g', dispatch 1 (Endorsed PolymeshCommittee) (RejectProposal 0) (pips_after proposed) = (Ok tt, g') ∧
    pips_lock 2 (balances g') + 300 = 500.
Proof.
  destruct (rejecting_refunds 0 (pips_after proposed) 0 PipPending proposed_reachable) as (g' & E & _ & H).
  - by vm_compute.
  - done.
  - exists g'. split; [exact E|]. specialize (H PIPS_LOCK_ID 2). rewrite decide_True in H by done.
    assert (deposit_of (Deposits (pips (pips_after proposed))) 0 2 = 300) as E1 by (by vm_compute).
    assert (pips_lock 2 (balances (pips_after proposed)) = 500) as E2 by (by vm_compute).
    rewrite E1, E2 in H. exact H.
Defined.

Lemma results_are_enacted_witness :
  ∃ g', dispatch 1 (Endorsed PolymeshCommittee) (EnactSnapshotResults sample_results)
          (pips_after proposed) = (Ok tt, g') ∧
    ProposalStates (pips g') !! 1 = Some PipScheduled ∧ ProposalStates (pips g') !! 2 = Some PipRejected ∧
    ProposalStates (pips g') !! 0 = Some PipPending.
Proof.
  destruct (results_are_enacted 0 (pips_after proposed) sample_results []
    (SnapshotQueue (pips (pips_after proposed))) proposed_reachable) as (g' & E & _ & Hst & Hk & _).
  - done.
  - by vm_compute.
  - intros id Hid. assert (asked Skip sample_results = [0]) as Ea by (by vm_compute). rewrite Ea in Hid.
    apply list_elem_of_singleton in Hid as ->. by vm_compute.
  - exists g'. split; [exact E|]. rewrite !Hst. split_and!; by vm_compute.
Defined.

Notation signal := (dispatch 1 (Signed 2) (Vote 0 true 50)).
Lemma signals_replace_each_other_witness :
  pips_lock 2 (balances (signal (pips_after proposed)).2) + 300 = 500 + 50.
Proof.
  destruct (signals_replace_each_other 0 (pips_after proposed) (signal (pips_after proposed)).2 (Signed 2) 0
    true 50 proposed_reachable) as (_ & who & Ho & _ & _ & _ & H).
  - refine (run_Ok signal (pips_after proposed) tt _). by vm_compute.
  - injection Ho as <-. specialize (H 2). rewrite !decide_True in H by done.
    assert (deposit_of (Deposits (pips (pips_after proposed))) 0 2 = 300) as E1 by (by vm_compute).
    assert (pips_lock 2 (balances (pips_after proposed)) = 500) as E2 by (by vm_compute).
    rewrite E1, E2 in H. exact H.
Defined.

Notation execution := (dispatch 1 Root (ExecuteScheduledPip 1)).
Lemma execution_closes_witness :
  ProposalStates (pips (execution (pips_after enacted)).2) !! 1 = Some PipFailed.
Proof.
  destruct (execution_closes 0 (pips_after enacted) (execution (pips_after enacted)).2 Root 1
    (mkPip 1 13 (Community 2)) enacted_reachable) as (_ & _ & res & w1 & Hp & _ & _ & E & _).
  - by vm_compute.
  - by vm_compute.
  - refine (run_Ok execution (pips_after enacted) tt _). by vm_compute.
  - apply (f_equal fst) in Hp. change (Err BadOrigin = res) in Hp. subst res. rewrite E. by vm_compute.
Defined.

(* ------------------------------------------------------------------ *)
(** * Behaviour worth knowing, on the sample chain *)

(** A proposal to execute itself can be approved. *)
Definition self_executing : list (Origin * call) :=
  [(Signed 1, Propose 5 100 None None); (Signed 2, Propose 99 200 None None); (Signed 1, Snapshot);
   (Endorsed PolymeshCommittee, EnactSnapshotResults [(1, Approve)])].

Lemma self_execution_never_returns_witness :
  dispatch 100 Root (ExecuteScheduledPip 1) (pips_after self_executing) =
  (Err EPanic, pips_after self_executing).
Proof.
  apply (self_execution_never_returns 100 (pips_after self_executing) 1 (mkPip 1 99 (Community 2)));
    by vm_compute.
Defined.
End PipsProperties.
